(* ===== verification/_CoqProject ===== *)
-Q . S2P
Prelude.v
VaultTypes.v
Canonical.v
Preimage.v
Text.v
Json.v
Effects.v
Binding.v
Rollover.v
RolloverShape.v
Validate.v
ValidateSlots.v
ValidateVault.v
WitnessPolicy.v
PolicyState.v
StateHash.v
Identifiers.v
ProtectedMemory.v
Directory.v
PrivateFiles.v
PrivateFilesTheorems.v
Repository.v
RepositoryTheorems.v
Replay.v
ReplayRegistry.v
ReplayState.v
ReplayRotation.v
ReplayLineage.v
ReplayTheorems.v
PolicyTheorems.v
CatalogTheorems.v
VaultTheorems.v
GenesisTheorems.v
PolicySpec.v
Plaintext.v
AccessibleCatalog.v
Redaction.v
StreamingRedaction.v
WitnessMessages.v
WitnessCodec.v
WitnessValidation.v
WitnessReceipt.v
WitnessEngine.v
WitnessEngineSpec.v
WitnessEngineRefinement.v
WitnessEngineTheorems.v
WitnessQuorum.v
WitnessReceiptTheorems.v
WitnessReceiptAssembly.v
WitnessRecovery.v
WitnessStorage.v
WitnessAnchor.v
LocalAudit.v
LocalAuditLog.v
LocalCheckpoint.v
LocalReceipts.v
LocalState.v
LocalStateFiles.v
LocalStateTheorems.v
ArtifactRelation.v
Mutation.v
MutationLemmas.v
MutationTheorems.v
MutationCheckpoint.v
MutationCommit.v
CommitFiles.v
MutationCommitTheorems.v
Samples.v
Witnesses.v
DirectorySamples.v
PrivateFilesWitnesses.v
EngineSamples.v
EngineWitnesses.v
StorageWitnesses.v
LocalSamples.v
LocalWitnesses.v
WitnessReceiptWitnesses.v
MutationSamples.v
MutationWitnesses.v
MutationCommitWitnesses.v
