(* ===== verification/Prelude.v ===== *)
(** * Jury: a verification development

    Jury keeps secrets in a vault file. The file carries a signed journal of
    policy revisions (who owns the vault, who may read which item, which
    witnesses guard it) and the encrypted items. Every client replays the
    journal from its genesis, decides access on the state it reaches, and
    refuses files whose journal, slots or items do not fit together. This
    library models that core and proves what its checks establish.

    ** The program's parts and the files that model them

    - Record types of the vault file
      ([crates/jury-protocol/src/vault_v1/types.rs], [rollover_v1.rs],
      [hpke_context.rs]): [VaultTypes]. A Rust enum is an inductive type with
      the same constructors, a struct a record whose projections carry a short
      prefix, a fixed-size byte string a list of bytes, a machine integer an
      [N]. The predicates ending in [_wt] say that lengths and integers have
      the size the Rust type gives them; theorems that need it assume it.
    - Canonical encoding and the strings that are signed and hashed
      ([canonical.rs], [vault_v1/preimage.rs]): [Canonical], [Preimage].
      [Binding] shows that the strings determine the records they are made
      from, and defines the hash chain of a journal.
    - The rollover manifest ([rollover_v1.rs]): [Rollover] (checks and
      encoding), [RolloverShape] (what the checks establish).
    - Validation of a vault file ([vault_v1/validate.rs],
      [vault_v1/validate/journal.rs], [artifact.rs]): [Validate], with the
      loops of the source as [foldE] over a record of the loop's variables.
      [ValidateSlots], [ValidateVault] and [VaultTheorems] hold the invariants
      of those loops and the properties of the file as a whole.
    - Witness policies ([crates/jury-core/src/policy/witness.rs]):
      [WitnessPolicy]; [CatalogTheorems].
    - The policy state, access decisions and the normalised state hash
      ([policy/state.rs]): [PolicyState]; [StateHash], [PolicyTheorems].
    - Replay, operations, key rotation, creation and preparation of revisions
      ([policy/replay/core.rs], [operations.rs], [signing.rs]): [Replay].
      Its lemmas are split by subject: [ReplayRegistry] (identifiers and keys
      are never reused), [ReplayState] (what the final checks of a revision
      establish), [ReplayRotation] (how keys change), [ReplayLineage] (the
      invariant of the replay loop). [ReplayTheorems], [PolicyTheorems] and
      [GenesisTheorems] hold the properties.
    - Identifiers ([domain/id.rs], [domain/id/generator.rs],
      [vault_v1/bytes.rs]): [Identifiers].
    - [PolicySpec] is an abstract access-control machine without slots, hashes
      and registries; applying a revision's operations refines its steps.
    - The plaintext of an item ([vault_v1/plaintext.rs]): [Plaintext]; UTF-8 and
      ASCII are in [Text]. Names of items and fields, selectors and the catalogue of
      the items one principal can open ([domain/name.rs], [selector.rs],
      [catalog.rs]): [AccessibleCatalog], with its theorems.
    - Redaction of secrets in output ([crates/jury-protected/src/redact.rs],
      [streaming_redaction.rs]): [Redaction] for a whole text, against a
      reference that scans once, and [StreamingRedaction] for output that
      arrives in chunks, against the reference on the whole.
    - The messages of the witness protocol ([witness_v1/base.rs],
      [request.rs], [decision.rs], [state_and_rotation.rs], [encoding.rs]):
      [WitnessMessages]; [WitnessCodec] relates the request parser to the
      encoder.
    - Validation of those messages against a replayed policy
      ([crates/jury-core/src/witness_validation.rs],
      [checkpoint_validation.rs], [witness_engine/validation.rs],
      [approval_validation.rs]): [WitnessValidation].
    - The witness engine ([witness_engine.rs], [witness_engine/state.rs],
      [requests.rs], [operations.rs]): [WitnessEngine], on the monad of
      [Effects], in which a computation leaves its state changed also when it
      fails. [WitnessEngineSpec] states what store and anchor promise and the
      abstract account of the engine; [WitnessEngineRefinement] proves each
      operation against it; [WitnessEngineTheorems], [WitnessQuorum] and
      [WitnessRecovery] hold the properties, on single operations and on runs.
    - Receipts of witnessed accesses ([witness_v1/receipt.rs],
      [crates/jury-core/src/witness_receipt.rs]): [WitnessReceipt], the record, its
      encoding, its assembly and the verification that uses nothing but the
      receipt; [WitnessReceiptTheorems] says what a verified receipt proves,
      [WitnessReceiptAssembly] that the evidence of a decision makes one.
    - The witness's database ([crates/jury-witness/src/persistence/]):
      [WitnessStorage], with the schema as a record of tables, statements as
      functions on it, and transactions that are dropped on an error.
    - The external anchor ([crates/jury-witness/src/anchor.rs], the two handlers
      of [server.rs]): [WitnessAnchor], the repository, the service in front of it
      and the client, which is an external anchor of the engine.
    - JSON as far as the code relies on it: [Json].
    - A principal's local state ([local_state.rs], [local_state/audit.rs],
      [checkpoint.rs], [receipts.rs]): [LocalAudit] (the audit log), [LocalCheckpoint]
      (with the item ancestry of [item/opening.rs]), [LocalReceipts] and
      [LocalState] (the operations on the three files). [LocalAuditLog] and
      [LocalStateFiles] say what the checks of the files establish,
      [LocalStateTheorems] has the properties over histories with restarts.
    - Mutation plans ([mutation.rs], [mutation/artifact_validation.rs],
      [authority_transition.rs], [error_mapping.rs]) and the relation of two vault
      files ([transfer.rs]): [Mutation], [ArtifactRelation]; [MutationLemmas],
      [MutationTheorems], and [MutationCheckpoint] for the composition with the
      local state.
    - Protected memory ([crates/jury-protected/src/memory.rs],
      [process_protection.rs]): [ProtectedMemory], the limits on a buffer and the
      policy that decides whether an unprotected one is refused.
    - Directories and private files ([crates/jury-filesystem/src/]): [Directory]
      (opening a path one component at a time, [capability.rs] and
      [platform.rs]), [PrivateFiles] (reading, preparing and publishing a file,
      the files of a principal, the lock and the removal of recovery markers, [private_input.rs], [private_output.rs], [state_root.rs], [lock.rs],
      [local_state.rs]); [PrivateFilesTheorems].
    - The Git worktree that may hold the vault ([crates/jury-filesystem/src/repository.rs]):
      [Repository] (finding it, following [HEAD], the digest of its ancestry);
      [RepositoryTheorems].
    - Committing a plan ([crates/jury/src/mutation_commit.rs]): [MutationCommit], over
      the local state, the private files and the worktree. [CommitFiles] is the
      abstract account, the contents of the five files a commit touches, and
      the rules for each call on it; [MutationCommitTheorems] has the properties.
    - [Samples] is a vault with a journal of five revisions, built with the
      modelled constructors and evaluated, [EngineSamples] a session of a
      witness of that vault, [LocalSamples] a session of the owner with a restart,
      [MutationSamples] two plans, [DirectorySamples] directories and memory whose
      calls fail from a chosen one on. [Witnesses], [EngineWitnesses],
      [LocalWitnesses], [MutationWitnesses] and [PrivateFilesWitnesses] apply the
      properties that have hypotheses to them; so do [StorageWitnesses], to the
      session of the witness over a database and a network in memory that delays requests,
      [WitnessReceiptWitnesses], to a receipt of an approved access, and
      [MutationCommitWitnesses], to a commit of the plan.

    ** What the theorems show

    - Replay: a journal that replays yields a sound state (C1), its history
      only grows (C5), each of its revisions was signed by an owner of the
      state before it (C6) and a reader that is dropped loses the keys (C7).
      Operations refine the abstract machine (C35).
    - Witness engine: every operation implements the abstract account, whatever
      fails (C8). A request gets one response, across failures, compaction and
      reuse of identifiers (C2). An approval rests on a quorum of distinct
      approvers without a second opinion (C3). A store that was rolled back is
      refused (C4), and one that was cut off recovers (C9).
    - Receipts: a receipt that verifies carries a signed journal under which the
      signed request was permitted, and an approved one holds signatures of
      as many eligible approvers and witnesses as the rule asks for (C10). Collected
      evidence, in whatever order it arrived, is assembled to a receipt that
      verifies anywhere, with the outcome the decisions have, where the reason and the
      time of issue fit them, and is refused where they do not (C11).
    - Storage and anchor: the SQLite store keeps the contract the engine was proved
      against (C13). The HTTP anchor keeps its contract when no request is under way
      from before, and C14 says what it promises when requests run after their calls
      timed out; C2, C4 and C8 are proved of an engine over it for networks where no
      request outlives its call ([PromptNetwork]). The anchor service moves only from
      an anchor to its successor, whoever calls it (C15); a stored state is read back
      (C30).
    - Local state: the accepted vault only moves forward, across restarts at which
      everything but the checkpoint may have been replaced (C16), the audited events
      stay (C26), a vault that does not continue the accepted one is refused (C27),
      and what was written is accepted again (C28).
    - Mutation plans: a plan publishes a complete vault one revision after the
      current one (C17). Unless that was acknowledged, it gives no new direct access and
      lowers nothing that a witness policy already asked for (C18); an import does
      neither, and only moves forward (C21). What is not compared, the targets served
      without approval and the rules for further operations, passes both (C40). The
      checkpoint follows a plan (C19), and other copies import it (C20); a privacy cover
      changes nobody's access (C29).
    - Commits and files: a commit that is stopped anywhere, or one of whose calls
      fails, leaves files that verify, with the vault as it was or as planned and the
      plan announced in the log before (C12). The digest a plan carries determines
      the state of the Git repository, the references that are followed and their
      contents included (C22), and a reference that is followed stays
      below [refs] (C37). A lock that is there refuses the commit and
      leaves everything as it is (C23), also one that a crash left. No
      commit succeeds once the log has outgrown the protected memory (C24). Cleaning
      up a marker loses nothing else (C25).
    - Lineage: the terminal hash commits to the journal (C31) and the state hash to the
      state (C36). The genesis record does not bind the suite (C39).
    - Access: witnessed items can be served (C34).
    - Redaction: chunks are redacted like the whole (C32), no secret or encoding
      of it gets through (C33), and replacement ends and is the reference (C38).

    Further theorems are in the files of their components: on access decisions,
    the catalogue of witness policies, the items of a validated file and its
    agreement with replay, the test for a direct descendant, revisions prepared by
    a client, codecs (among them that the request parser accepts exactly what is
    signed), names and lookup in the catalogue, manifests, slots, new vaults and
    the bound on the redactor's buffer.

    ** Parameters

    SHA-256 and Ed25519 verification are the class [Crypto], the signer the
    class [PolicySigner], the random generator the class [RandomSource], the
    JSON reader and printer arguments of [parse] and [to_json_bytes]. The
    engine's store, anchor and identity are the classes [WitnessStateStore],
    [ExternalWitnessAnchor] and [WitnessEngineIdentity], traits in the source;
    [StoreLaws] and [AnchorLaws] are what their documentation promises, and the
    modelled implementations keep them. SQLite, serde_json and the HTTP client
    with the network are the classes [Sqlite], [StateJson], [Json] and
    [HttpClient] with their laws: a transaction is atomic, a commit that reports
    an error may have happened, a value that was printed is read back, and what a
    call is told is what a run of the handler answered, while requests whose calls have
    returned without an answer may run at any later time. The multi-pattern search of the redactor is the class
    [AhoCorasick], with the leftmost-longest semantics the code asks for as [AhoCorasickLaws]; base64
    and the JSON string printer are the class [Encoders]. HMAC-SHA-256 is the
    class [Hmac], the identity that signs a plan the class
    [VaultPrincipalIdentity]; [JsonLine], [JsonPretty] and [EventJson] say that a
    compact document is one line, that an indented document is read back, and that
    the first event of a log fits. The operating system's directories are the class
    [Directories] with [DirectoryLaws]: a call that fails did nothing, a rename or
    a link possibly all of it, a rename between two names of one file does nothing, and no other process changes the directories
    meanwhile; its memory is the class [MemoryProvider] with [MemoryProviderLaws].
    Nothing is assumed of SHA-256 but the length of its output: theorems about what a
    hash commits to assume that the strings at hand do not collide, or exhibit
    the two strings.

    ** Bounds

    All definitions evaluate. Recursion is structural on lists; the retry loop
    of identifier generation takes the attempt limits of the source. Loops over
    text that the source writes with an advancing index take the length of the
    text as fuel, and the theorems about them show that it suffices. Symbolic
    references of Git are followed as deep as the source follows them. Integers
    are unbounded [N] with the source's checked and saturating additions
    written out; the additions the source leaves unchecked (a loop index plus
    one) stay below the limits on journal and proof lengths.

    ** Not modelled

    Of the witness protocol: presentations, rotation and recovery records, the
    JSON file of a receipt and the receipt material without decisions, which only
    tests use. The witness client, approval and operation workflows, rollover and
    registration, sealing and opening of items, identities, backups and the signed
    transfer envelope are mostly calls into HPKE, AEAD and password hashing
    libraries over records and checks that are modelled.
    Of the file system: what a power loss does to renames that were not synced,
    opening a state root apart from repositories and excluded trees, files at
    paths the user gives, and the branches for macOS and Windows.
    Encryption, the creation and backup of databases, child processes, the routing, queues and configuration of the witness server and
    the command line are calls into libraries and the operating system. Zeroing of memory
    and the concurrency of the server (which serialises the engine) have no
    counterpart. *)

From stdpp Require Export base list sorting mapset gmap strings numbers ssreflect.
From Stdlib Require Export Strings.Byte.

(** ** Errors as values: Rust's [Result] *)

Inductive result (E A : Type) : Type :=
  | Ok (a : A)
  | Err (e : E).
Arguments Ok {E A} a.
Arguments Err {E A} e.

Global Instance result_ret {E} : MRet (result E) := λ A a, Ok a.

Global Instance result_bind {E} : MBind (result E) := λ A B f m,
  match m with Ok a => f a | Err e => Err e end.

Global Instance result_fmap {E} : FMap (result E) := λ A B f m,
  match m with Ok a => Ok (f a) | Err e => Err e end.

Global Instance result_eq_dec {E A} `{EqDecision E, EqDecision A} :
  EqDecision (result E A).
Proof. solve_decision. Defined.

(** [if bad { return Err(e) }] *)
Definition reject_if {E} (bad : bool) (e : E) : result E unit :=
  if bad then Err e else Ok tt.

(** [option.ok_or(e)] *)
Definition ok_or {E A} (o : option A) (e : E) : result E A :=
  match o with Some a => Ok a | None => Err e end.

(** [result.map_err(f)] *)
Definition map_err {E E' A} (f : E → E') (r : result E A) : result E' A :=
  match r with Ok a => Ok a | Err e => Err (f e) end.

Definition is_ok {E A} (r : result E A) : bool :=
  match r with Ok _ => true | Err _ => false end.

(** A [for] loop whose body threads a state and may return early. *)
Fixpoint foldE {E S A} (f : S → A → result E S) (s : S) (l : list A) : result E S :=
  match l with
  | [] => Ok s
  | x :: l' => s' ← f s x; foldE f s' l'
  end.

(** A [for] loop whose body only checks. *)
Fixpoint forE {E A} (f : A → result E unit) (l : list A) : result E unit :=
  match l with
  | [] => Ok tt
  | x :: l' => f x ;; forE f l'
  end.

(** [iter().map(f).collect::<Result<Vec<_>, _>>()] *)
Fixpoint mapE {E A B} (f : A → result E B) (l : list A) : result E (list B) :=
  match l with
  | [] => Ok []
  | x :: l' => y ← f x; ys ← mapE f l'; Ok (y :: ys)
  end.

(** ** Bytes *)

Abbreviation byte := Byte.byte.
Abbreviation bytes := (list Byte.byte).

Global Instance byte_eq_dec : EqDecision byte := Byte.byte_eq_dec.

Global Instance byte_countable : Countable byte :=
  inj_countable Byte.to_N Byte.of_N Byte.of_to_N.

(** Byte strings as map keys: the bits of the bytes in order, in linear time. *)
Definition push_bit (b : bool) (p : positive) : positive := if b then xI p else xO p.

Definition pop_bit (p : positive) : option (bool * positive) :=
  match p with xI p' => Some (true, p') | xO p' => Some (false, p') | xH => None end.

Definition push_byte (b : byte) (p : positive) : positive :=
  let '(b0, (b1, (b2, (b3, (b4, (b5, (b6, b7))))))) := Byte.to_bits b in
  push_bit b0 (push_bit b1 (push_bit b2 (push_bit b3
    (push_bit b4 (push_bit b5 (push_bit b6 (push_bit b7 p))))))).

Definition pop_byte (p : positive) : option (byte * positive) :=
  '(b0, p) ← pop_bit p; '(b1, p) ← pop_bit p; '(b2, p) ← pop_bit p; '(b3, p) ← pop_bit p;
  '(b4, p) ← pop_bit p; '(b5, p) ← pop_bit p; '(b6, p) ← pop_bit p; '(b7, p) ← pop_bit p;
  Some (Byte.of_bits (b0, (b1, (b2, (b3, (b4, (b5, (b6, b7))))))), p).

Definition encode_bytes (bs : bytes) : positive := foldr push_byte xH bs.

Fixpoint decode_bytes (fuel : nat) (p : positive) : option bytes :=
  match fuel with
  | O => None
  | S fuel' =>
      if decide (p = xH) then Some []
      else '(b, p) ← pop_byte p; bs ← decode_bytes fuel' p; Some (b :: bs)
  end.

Lemma pop_push_byte b p : pop_byte (push_byte b p) = Some (b, p).
Proof. by destruct b. Qed.

Lemma push_byte_size b p : Pos.size_nat (push_byte b p) = 8 + Pos.size_nat p ∧ push_byte b p ≠ xH.
Proof. by destruct b. Qed.

Lemma decode_encode_bytes bs fuel :
  Pos.size_nat (encode_bytes bs) ≤ fuel → decode_bytes fuel (encode_bytes bs) = Some bs.
Proof.
  revert fuel. induction bs as [|b bs IH]; intros [|fuel] Hf; cbn [encode_bytes foldr] in *;
    [simpl in Hf; lia|done| |]; destruct (push_byte_size b (encode_bytes bs)) as [Hs Hne];
    fold (encode_bytes bs) in *; rw Hs in Hf; [lia|].
  cbn [decode_bytes]. rw decide_False // pop_push_byte /= IH //. lia.
Qed.

Global Instance bytes_countable : Countable bytes := {|
  encode := encode_bytes;
  decode p := decode_bytes (Pos.size_nat p) p;
  decode_encode bs := decode_encode_bytes bs _ (le_n _);
|}.

(** The low eight bits of a number, Rust's [n as u8]. *)
Definition byte_of_N (n : N) : byte :=
  match Byte.of_N (n mod 256) with Some b => b | None => Byte.x00 end.

(** [n.to_be_bytes()] of a [k]-byte unsigned integer. *)
Fixpoint be_bytes (k : nat) (n : N) : bytes :=
  match k with
  | O => []
  | S k' => be_bytes k' (n / 256) ++ [byte_of_N n]
  end.

(** [from_be_bytes] *)
Definition be_N (bs : bytes) : N :=
  fold_left (λ acc b, acc * 256 + Byte.to_N b)%N bs 0%N.

(** A string literal as its bytes. *)
Definition str (s : string) : bytes := String.list_byte_of_string s.

(** [slice.len()] as an unsigned integer. *)
Definition len {A} (l : list A) : N := N.of_nat (length l).

(** ** Machine integers *)

Definition u8_max : N := 255.
Definition u16_max : N := 65535.
Definition u32_max : N := 4294967295.
Definition u64_max : N := 18446744073709551615.

(** [u64::checked_add] *)
Definition checked_add_u64 (a b : N) : option N :=
  if (a + b <=? u64_max)%N then Some (a + b)%N else None.

(** [u64::saturating_add] *)
Definition saturating_add_u64 (a b : N) : N := N.min (a + b) u64_max.

(** [u8::saturating_add] *)
Definition saturating_add_u8 (a b : N) : N := N.min (a + b) u8_max.

(** ** Rust's [Ord] *)

Class Ord (A : Type) := cmp : A → A → comparison.

Class OrdLaws (A : Type) `{Ord A} := {
  cmp_eq : ∀ x y : A, cmp x y = Eq ↔ x = y;
  cmp_antisym : ∀ x y : A, cmp y x = CompOpp (cmp x y);
  cmp_lt_trans : ∀ x y z : A, cmp x y = Lt → cmp y z = Lt → cmp x z = Lt;
}.

Definition ltb {A} `{Ord A} (x y : A) : bool :=
  match cmp x y with Lt => true | _ => false end.

(** [x >= y] is [!(x < y)] for a total order. *)
Definition geb {A} `{Ord A} (x y : A) : bool := negb (ltb x y).

Definition ord_le {A} `{Ord A} (x y : A) : Prop := cmp x y ≠ Gt.

Global Instance ord_le_dec {A} `{Ord A} : RelDecision (@ord_le A _).
Proof. intros x y. unfold ord_le. solve_decision. Defined.

Global Instance N_ord : Ord N := N.compare.

Global Instance byte_ord : Ord byte := λ x y, N.compare (Byte.to_N x) (Byte.to_N y).

(** Slices and arrays compare lexicographically. *)
Fixpoint list_cmp {A} `{Ord A} (x y : list A) : comparison :=
  match x, y with
  | [], [] => Eq
  | [], _ :: _ => Lt
  | _ :: _, [] => Gt
  | a :: x', b :: y' =>
      match cmp a b with Eq => list_cmp x' y' | c => c end
  end.

Global Instance list_ord {A} `{Ord A} : Ord (list A) := list_cmp.

(** Tuples compare lexicographically. *)
Global Instance prod_ord {A B} `{Ord A, Ord B} : Ord (A * B) := λ p q,
  match cmp p.1 q.1 with Eq => cmp p.2 q.2 | c => c end.

(** [None < Some(_)] *)
Global Instance option_ord {A} `{Ord A} : Ord (option A) := λ x y,
  match x, y with
  | None, None => Eq
  | None, Some _ => Lt
  | Some _, None => Gt
  | Some a, Some b => cmp a b
  end.

(** ** Ordered collections *)

(** [values.windows(2).all(|pair| key(pair[0]) < key(pair[1]))] *)
Fixpoint sorted_by_key {A K} `{Ord K} (key : A → K) (l : list A) : bool :=
  match l with
  | x :: (y :: _) as l' => ltb (key x) (key y) && sorted_by_key key l'
  | _ => true
  end.

Definition strictly_sorted_unique {A} `{Ord A} (l : list A) : bool :=
  sorted_by_key id l.

(** [dedup_by] on equality of keys: drops an element with the key of the one
    before it. *)
Fixpoint dedup_by_key {A K} `{EqDecision K} (key : A → K) (l : list A) : list A :=
  match l with
  | [] => []
  | x :: rest =>
      match dedup_by_key key rest with
      | y :: rest' => if bool_decide (key x = key y) then x :: rest' else x :: y :: rest'
      | [] => [x]
      end
  end.

Section btree.
Context {K : Type} `{Countable K, Ord K}.

Definition entry_le {V} (p q : K * V) : Prop := ord_le p.1 q.1.

Global Instance entry_le_dec {V} : RelDecision (@entry_le V).
Proof. intros p q. unfold entry_le. apply _. Defined.

(** [BTreeMap] iteration: entries in increasing key order. *)
Definition entries {V} (m : gmap K V) : list (K * V) :=
  merge_sort entry_le (map_to_list m).

Definition keys {V} (m : gmap K V) : list K := (entries m).*1.
Definition values {V} (m : gmap K V) : list V := (entries m).*2.

(** [BTreeSet] iteration: elements in increasing order. *)
Definition sorted_elements (s : gset K) : list K :=
  merge_sort ord_le (elements s).
End btree.

(** [set.insert(x)] of a [BTreeSet], as an insertion of the underlying map; it
    is [{[x]} ∪ s] ([set_insert_eq]) and evaluates faster on long keys. *)
Definition set_insert {K} `{Countable K} (x : K) (s : gset K) : gset K :=
  Mapset (<[x := ()]> (mapset_car s)).

(** [iter().collect::<BTreeSet<_>>()] *)
Definition collect_set {K} `{Countable K} (l : list K) : gset K := foldr set_insert ∅ l.

(** [iter().collect::<BTreeMap<_, _>>()]: a later entry replaces an earlier one. *)
Definition collect_map {K V} `{Countable K} (l : list (K * V)) : gmap K V :=
  fold_left (λ m p, <[p.1 := p.2]> m) l ∅.

(** ** Notations *)

Declare Scope jury_scope.
Delimit Scope jury_scope with jury.
Notation "x ==? y" := (bool_decide (x = y)) (at level 70) : jury_scope.
Notation "x !=? y" := (negb (bool_decide (x = y))) (at level 70) : jury_scope.
Notation "x ∈? y" := (bool_decide (x ∈ y)) (at level 70) : jury_scope.
Notation "x ∉? y" := (negb (bool_decide (x ∈ y))) (at level 70) : jury_scope.

(** ** Third-party cryptography

    The crates [sha2] and [ed25519-dalek] are parameters of the development:
    SHA-256 digests have 32 bytes, and [verify_strict] decides a signature. *)
Class Crypto := {
  sha256 : bytes → bytes;
  verify_bytes : bytes → bytes → bytes → bool;
  sha256_length : ∀ m, length (sha256 m) = 32;
}.

(** ** Lemmas: results *)

Section result_lemmas.
Context {E : Type}.

Lemma bind_Ok {A B} (m : result E A) (f : A → result E B) b :
  m ≫= f = Ok b ↔ ∃ a, m = Ok a ∧ f a = Ok b.
Proof. destruct m as [a|e]; naive_solver. Qed.

Lemma Ok_inj {A} (a b : A) : @Ok E A a = Ok b → a = b.
Proof. by intros [= ->]. Qed.

Lemma fmap_Ok {A B} (f : A → B) (m : result E A) b :
  f <$> m = Ok b ↔ ∃ a, m = Ok a ∧ f a = b.
Proof. destruct m as [a|e]; naive_solver. Qed.

Lemma reject_if_Ok (bad : bool) (e : E) u : reject_if bad e = Ok u ↔ bad = false.
Proof. destruct bad, u; naive_solver. Qed.

Lemma reject_if_bind {A} bad (e : E) (k : unit → result E A) a :
  reject_if bad e ≫= k = Ok a ↔ bad = false ∧ k tt = Ok a.
Proof. destruct bad; naive_solver. Qed.

Lemma Ok_eq {A} (a b : A) : @Ok E A a = Ok b ↔ b = a.
Proof. naive_solver. Qed.

Lemma ok_or_Ok {A} (o : option A) (e : E) a : ok_or o e = Ok a ↔ o = Some a.
Proof. destruct o; naive_solver. Qed.

Lemma map_err_Ok {E' A} (f : E → E') (m : result E A) a :
  map_err f m = Ok a ↔ m = Ok a.
Proof. destruct m; naive_solver. Qed.

Lemma forE_Ok {A} (f : A → result E unit) l u :
  forE f l = Ok u ↔ ∀ x, x ∈ l → f x = Ok tt.
Proof.
  destruct u. induction l as [|x l IH]; simpl; [set_solver|].
  rw bind_Ok. setoid_rewrite elem_of_cons. split.
  - intros ([] & Hx & ?) y [->|?]; naive_solver.
  - intros H. exists tt. naive_solver.
Qed.

Lemma foldE_app {S A} (f : S → A → result E S) s l k :
  foldE f s (l ++ k) = (foldE f s l ≫= λ s', foldE f s' k).
Proof.
  revert s. induction l as [|x l IH]; intros s; simpl; [done|].
  by destruct (f s x); simpl.
Qed.

Lemma foldE_snoc_Ok {S A} (f : S → A → result E S) s l x s' :
  foldE f s (l ++ [x]) = Ok s' ↔ ∃ s1, foldE f s l = Ok s1 ∧ f s1 x = Ok s'.
Proof.
  rw foldE_app bind_Ok. simpl. split.
  - intros (s1 & ? & Hx). exists s1. destruct (f s1 x); naive_solver.
  - intros (s1 & ? & Hx). exists s1. by rw Hx.
Qed.

(** The induction rule for a loop: an invariant of the state and of the
    elements already consumed. *)
Lemma foldE_invariant {S A} (I : list A → S → Prop) (f : S → A → result E S) :
  (∀ pre s x s', I pre s → f s x = Ok s' → I (pre ++ [x]) s') →
  ∀ l pre s s', I pre s → foldE f s l = Ok s' → I (pre ++ l) s'.
Proof.
  intros Hstep l. induction l as [|x l IH]; intros pre s s' HI; simpl.
  { intros [= ->]. by rw app_nil_r. }
  rw bind_Ok. intros (s1 & Hf & Hl).
  rw cons_middle (assoc_L (++)). eauto.
Qed.

Lemma foldE_preserves {S A} (P : S → Prop) (f : S → A → result E S) l s s' :
  (∀ s x s', x ∈ l → P s → f s x = Ok s' → P s') →
  P s → foldE f s l = Ok s' → P s'.
Proof.
  revert s. induction l as [|x l IH]; intros s Hstep HP; simpl.
  { by intros [= <-]. }
  rw bind_Ok. intros (s1 & Hf & Hl).
  eapply IH, Hl; [|eapply Hstep; eauto; set_solver].
  intros ????; eapply Hstep; set_solver.
Qed.

Lemma mapE_Ok {A B} (f : A → result E B) l k :
  mapE f l = Ok k ↔ Forall2 (λ x y, f x = Ok y) l k.
Proof.
  revert k. induction l as [|x l IH]; intros k; simpl.
  { split; [by intros [= <-]|by inversion 1]. }
  rw bind_Ok. setoid_rewrite bind_Ok. split.
  - intros (y & Hy & ys & Hys & [= <-]). constructor; [done|by apply IH].
  - inversion 1; subst. naive_solver.
Qed.

Lemma mapE_total {A B} (f : A → result E B) (g : A → B) l :
  (∀ x, x ∈ l → f x = Ok (g x)) → mapE f l = Ok (g <$> l).
Proof.
  induction l as [|x l IH]; intros Hf; simpl; [done|].
  rw Hf; [|set_solver]. simpl. rw IH; [done|set_solver].
Qed.

Lemma mapE_app {A B} (f : A → result E B) l1 l2 :
  mapE f (l1 ++ l2) = (k1 ← mapE f l1; k2 ← mapE f l2; Ok (k1 ++ k2)).
Proof.
  induction l1 as [|x l1 IH]; simpl.
  { by destruct (mapE f l2). }
  destruct (f x); simpl; [|done]. rw IH.
  destruct (mapE f l1); simpl; [|done]. by destruct (mapE f l2).
Qed.
End result_lemmas.

(** Splits a hypothesis that a computation returned [Ok]. *)
Ltac inv_ok_step :=
  match goal with
  | H : mbind _ _ = Ok _ |- _ =>
      let x := fresh "r" in let Hx := fresh "Hr" in
      apply bind_Ok in H as (x & Hx & H)
  | H : fmap _ _ = Ok _ |- _ =>
      let x := fresh "r" in let Hx := fresh "Hr" in
      apply fmap_Ok in H as (x & Hx & H)
  | H : reject_if _ _ = Ok _ |- _ => apply reject_if_Ok in H
  | H : ok_or _ _ = Ok _ |- _ => apply ok_or_Ok in H
  | H : map_err _ _ = Ok _ |- _ => apply map_err_Ok in H
  | H : Err _ = Ok _ |- _ => discriminate H
  | H : Ok _ = Ok _ |- _ => apply Ok_inj in H; try subst
  | x : unit |- _ => destruct x
  end.
Ltac inv_ok := repeat (progress (repeat inv_ok_step; simpl in *)).

(** Turns boolean guards into propositions. *)
Ltac to_prop :=
  repeat match goal with
  | H : _ || _ = false |- _ => apply orb_false_iff in H as [? ?]
  | H : _ && _ = true |- _ => apply andb_true_iff in H as [? ?]
  | H : negb _ = true |- _ => apply negb_true_iff in H
  | H : negb _ = false |- _ => apply negb_false_iff in H
  | H : bool_decide _ = true |- _ => apply bool_decide_eq_true in H
  | H : bool_decide _ = false |- _ => apply bool_decide_eq_false in H
  | H : (_ =? _)%N = true |- _ => apply N.eqb_eq in H
  | H : (_ =? _)%N = false |- _ => apply N.eqb_neq in H
  | H : (_ <=? _)%N = true |- _ => apply N.leb_le in H
  | H : (_ <=? _)%N = false |- _ => apply N.leb_gt in H
  | H : (_ <? _)%N = true |- _ => apply N.ltb_lt in H
  | H : (_ <? _)%N = false |- _ => apply N.ltb_ge in H
  end.

(** The same for a guard in the conclusion. *)
Ltac split_guard :=
  repeat match goal with
  | |- _ || _ = false => apply orb_false_iff; split
  | |- _ && _ = true => apply andb_true_iff; split
  | |- negb _ = true => apply negb_true_iff
  | |- negb _ = false => apply negb_false_iff
  | |- bool_decide _ = true => apply bool_decide_eq_true
  | |- bool_decide _ = false => apply bool_decide_eq_false
  | |- (_ =? _)%N = true => apply N.eqb_eq
  | |- (_ =? _)%N = false => apply N.eqb_neq
  | |- (_ <=? _)%N = true => apply N.leb_le
  | |- (_ <=? _)%N = false => apply N.leb_gt
  | |- (_ <? _)%N = true => apply N.ltb_lt
  | |- (_ <? _)%N = false => apply N.ltb_ge
  end.

(** ** Lemmas: orders *)

Global Instance N_ord_laws : OrdLaws N.
Proof.
  split; unfold cmp, N_ord.
  - apply N.compare_eq_iff.
  - intros x y. apply N.compare_antisym.
  - intros x y z. rw !N.compare_lt_iff. lia.
Qed.

Lemma to_N_inj (x y : byte) : Byte.to_N x = Byte.to_N y → x = y.
Proof.
  intros H. apply (f_equal Byte.of_N) in H. rw !Byte.of_to_N in H. by injection H.
Qed.

Global Instance byte_ord_laws : OrdLaws byte.
Proof.
  split; unfold cmp, byte_ord.
  - intros x y. rw N.compare_eq_iff. split; [apply to_N_inj|by intros ->].
  - intros x y. apply N.compare_antisym.
  - intros x y z. rw !N.compare_lt_iff. lia.
Qed.

Section ord_lemmas.
Context {A : Type} `{OrdLaws A}.
Implicit Types x y z : A.

Lemma cmp_refl x : cmp x x = Eq.
Proof. by apply cmp_eq. Qed.

Lemma ltb_lt x y : ltb x y = true ↔ cmp x y = Lt.
Proof. unfold ltb. destruct (cmp x y); naive_solver. Qed.

Lemma ltb_irrefl x : ltb x x = false.
Proof. unfold ltb. by rw cmp_refl. Qed.

Lemma ltb_trans x y z : ltb x y = true → ltb y z = true → ltb x z = true.
Proof. rw !ltb_lt. apply cmp_lt_trans. Qed.

Lemma ltb_neq x y : ltb x y = true → x ≠ y.
Proof. intros Hlt ->. by rw ltb_irrefl in Hlt. Qed.

Global Instance ord_le_total : Total (@ord_le A _).
Proof.
  intros x y. unfold ord_le. rw (cmp_antisym x y).
  destruct (cmp x y); simpl; auto.
Qed.

Global Instance ord_le_trans : Transitive (@ord_le A _).
Proof.
  unfold ord_le. intros x y z Hxy Hyz.
  destruct (cmp x y) eqn:Exy; [|..|done].
  { apply cmp_eq in Exy as ->. done. }
  destruct (cmp y z) eqn:Eyz; [|..|done].
  { apply cmp_eq in Eyz as ->. by rw Exy. }
  by rw (cmp_lt_trans _ _ _ Exy Eyz).
Qed.

Lemma ord_le_antisymm x y : ord_le x y → ord_le y x → x = y.
Proof.
  unfold ord_le. rw (cmp_antisym x y). intros Hxy Hyx.
  apply cmp_eq. by destruct (cmp x y).
Qed.

Lemma ord_le_ltb x y : ord_le x y → x ≠ y → ltb x y = true.
Proof.
  unfold ord_le. rw ltb_lt. intros Hle Hne.
  destruct (cmp x y) eqn:E; [|done|done]. by apply cmp_eq in E.
Qed.
End ord_lemmas.

Global Instance list_ord_laws {A} `{OrdLaws A} : OrdLaws (list A).
Proof.
  split; unfold cmp, list_ord.
  - intros x. induction x as [|a x IH]; intros [|b y]; simpl; try done.
    destruct (cmp a b) eqn:E.
    + apply cmp_eq in E as ->. rw IH. naive_solver.
    + split; [done|]. intros [= -> ->]. by rw cmp_refl in E.
    + split; [done|]. intros [= -> ->]. by rw cmp_refl in E.
  - intros x. induction x as [|a x IH]; intros [|b y]; simpl; try done.
    rw (cmp_antisym a b). destruct (cmp a b); simpl; auto.
  - intros x. induction x as [|a x IH]; intros [|b y] [|c z]; simpl; try done.
    destruct (cmp a b) eqn:Eab; [|..|done].
    + apply cmp_eq in Eab as ->. destruct (cmp b c); eauto.
    + intros _. destruct (cmp b c) eqn:Ebc; [|..|done].
      * apply cmp_eq in Ebc as ->. by rw Eab.
      * by rw (cmp_lt_trans _ _ _ Eab Ebc).
Qed.

Global Instance prod_ord_laws {A B} `{OrdLaws A, OrdLaws B} : OrdLaws (A * B).
Proof.
  split; unfold cmp, prod_ord.
  - intros [a b] [a' b']; simpl. destruct (cmp a a') eqn:E.
    + apply cmp_eq in E as ->. rw cmp_eq. naive_solver.
    + split; [done|]. intros [= -> ->]. by rw cmp_refl in E.
    + split; [done|]. intros [= -> ->]. by rw cmp_refl in E.
  - intros [a b] [a' b']; simpl. rw (cmp_antisym a a').
    destruct (cmp a a'); simpl; auto. apply cmp_antisym.
  - intros [a b] [a' b'] [a'' b'']; simpl.
    destruct (cmp a a') eqn:Eab; [|..|done].
    + apply cmp_eq in Eab as ->. destruct (cmp a' a''); eauto. apply cmp_lt_trans.
    + intros _. destruct (cmp a' a'') eqn:Ebc; [|..|done].
      * apply cmp_eq in Ebc as ->. by rw Eab.
      * by rw (cmp_lt_trans _ _ _ Eab Ebc).
Qed.

Global Instance option_ord_laws {A} `{OrdLaws A} : OrdLaws (option A).
Proof.
  split; unfold cmp, option_ord.
  - intros [a|] [b|]; try done. rw cmp_eq. naive_solver.
  - intros [a|] [b|]; try done. apply cmp_antisym.
  - intros [a|] [b|] [c|]; try done. apply cmp_lt_trans.
Qed.

(** ** Lemmas: ordered collections *)

Section sorted_lemmas.
Context {A K : Type} `{OrdLaws K} (key : A → K).

Lemma sorted_by_key_cons x l :
  sorted_by_key key (x :: l) = true ↔
  (∀ y, y ∈ l → ltb (key x) (key y) = true) ∧ sorted_by_key key l = true.
Proof.
  revert x. induction l as [|y l IH]; intros x.
  { split; [|done]. intros _. split; [set_solver|done]. }
  change (sorted_by_key key (x :: y :: l))
    with (ltb (key x) (key y) && sorted_by_key key (y :: l)).
  rw andb_true_iff. split.
  - intros [Hxy Hs]. split; [|done]. intros z [->|Hz]%elem_of_cons; [done|].
    apply IH in Hs as [Hy _]. eauto using ltb_trans.
  - intros [Hall Hs]. split; [apply Hall; set_solver|done].
Qed.

Lemma sorted_by_key_NoDup l : sorted_by_key key l = true → NoDup (key <$> l).
Proof.
  induction l as [|x l IH]; [constructor|].
  rw sorted_by_key_cons. intros [Hx Hl]. rw fmap_cons. constructor; [|auto].
  intros (y & Hy & Hin)%list_elem_of_fmap. apply Hx in Hin.
  rw Hy in Hin. by rw ltb_irrefl in Hin.
Qed.

Lemma sorted_by_key_eq l x y :
  sorted_by_key key l = true → x ∈ l → y ∈ l → key x = key y → x = y.
Proof.
  induction l as [|z l IH]; [set_solver|].
  rw sorted_by_key_cons. intros [Hz Hl] Hx Hy Heq.
  apply elem_of_cons in Hx as [->|Hx], Hy as [->|Hy]; auto.
  - apply Hz in Hy. by apply ltb_neq in Hy.
  - apply Hz in Hx. by apply ltb_neq in Hx.
Qed.

Lemma sorted_by_key_snoc l x :
  sorted_by_key key (l ++ [x]) = true ↔
  sorted_by_key key l = true ∧
  (if last l is Some y then geb (key y) (key x) else false) = false.
Proof.
  induction l as [|y l IH]; [done|]. rw -app_comm_cons !sorted_by_key_cons IH.
  setoid_rewrite elem_of_app. setoid_rewrite list_elem_of_singleton.
  destruct l as [|z l]; [simpl; unfold geb; rw negb_false_iff; set_solver|].
  rw !last_cons_cons. split.
  - intros [Hy [Hs Hl]]. split; [|done]. auto.
  - intros [[Hy Hs] Hl]. split; [|done]. intros w [Hw| ->]; [auto|].
    destruct (last (z :: l)) as [u|] eqn:E; [|by rw last_None in E].
    unfold geb in Hl. rw negb_false_iff in Hl.
    eapply ltb_trans, Hl. apply Hy. by apply last_Some_elem_of in E.
Qed.
End sorted_lemmas.

Section btree_lemmas.
Context {K : Type} `{Countable K, !Ord K, !OrdLaws K}.

Lemma elem_of_entries {V} (m : gmap K V) k v : (k, v) ∈ entries m ↔ m !! k = Some v.
Proof. unfold entries. by rw merge_sort_Permutation elem_of_map_to_list. Qed.

Lemma elem_of_values {V} (m : gmap K V) v : v ∈ values m ↔ ∃ k, m !! k = Some v.
Proof.
  unfold values. rw list_elem_of_fmap. split.
  - intros ([k w] & -> & Hin). exists k. by apply elem_of_entries.
  - intros [k Hk]. exists (k, v). split; [done|by apply elem_of_entries].
Qed.

Lemma elem_of_keys {V} (m : gmap K V) k : k ∈ keys m ↔ is_Some (m !! k).
Proof.
  unfold keys. rw list_elem_of_fmap. split.
  - intros ([k' w] & -> & Hin). exists w. by apply elem_of_entries.
  - intros [v Hk]. exists (k, v). split; [done|by apply elem_of_entries].
Qed.

Lemma entries_inj {V} (m1 m2 : gmap K V) : entries m1 = entries m2 → m1 = m2.
Proof.
  intros Heq. apply map_eq. intros k. apply option_eq. intros v.
  by rw -!elem_of_entries Heq.
Qed.

Lemma NoDup_keys {V} (m : gmap K V) : NoDup (keys m).
Proof.
  unfold keys, entries. rw merge_sort_Permutation. apply NoDup_fst_map_to_list.
Qed.

Lemma entries_empty {V} : entries (∅ : gmap K V) = [].
Proof. unfold entries. by rw map_to_list_empty. Qed.

Lemma elem_of_sorted_elements (s : gset K) k : k ∈ sorted_elements s ↔ k ∈ s.
Proof. unfold sorted_elements. by rw merge_sort_Permutation elem_of_elements. Qed.

Lemma sorted_elements_inj (s1 s2 : gset K) :
  sorted_elements s1 = sorted_elements s2 → s1 = s2.
Proof.
  intros Heq. apply set_eq. intros k. by rw -!elem_of_sorted_elements Heq.
Qed.

Lemma NoDup_sorted_elements (s : gset K) : NoDup (sorted_elements s).
Proof. unfold sorted_elements. rw merge_sort_Permutation. apply NoDup_elements. Qed.

Lemma sorted_elements_sorted (s : gset K) :
  strictly_sorted_unique (sorted_elements s) = true.
Proof.
  pose proof (NoDup_sorted_elements s) as Hnd.
  pose proof (StronglySorted_merge_sort ord_le (elements s)) as Hs.
  fold (sorted_elements s) in Hs. revert Hnd Hs. unfold strictly_sorted_unique.
  generalize (sorted_elements s) as l.
  induction l as [|x l IH]; intros Hnd Hs; [done|].
  apply NoDup_cons in Hnd as [Hx Hnd]. inversion_clear Hs as [|?? Hs' Hle].
  apply sorted_by_key_cons. split; [|auto]. intros y Hy.
  apply ord_le_ltb; [|set_solver]. by eapply Forall_forall in Hle.
Qed.
End btree_lemmas.

Lemma NoDup_snoc {A} (l : list A) x : NoDup (l ++ [x]) ↔ NoDup l ∧ x ∉ l.
Proof. rw (NoDup_app l [x]). pose proof (NoDup_singleton x). set_solver. Qed.

Lemma list_to_set_snoc {K} `{Countable K} (l : list K) x :
  list_to_set (l ++ [x]) = {[x]} ∪ (list_to_set l : gset K).
Proof. set_solver. Qed.

(** [map.insert(k, v)] returned a value other than [v]. *)
Definition differs {A} `{EqDecision A} (old : option A) (new : A) : bool :=
  if old is Some x then negb (bool_decide (x = new)) else false.

(** No key of an association list has two values. *)
Definition consistent {K V} (l : list (K * V)) : Prop :=
  ∀ k v v', (k, v) ∈ l → (k, v') ∈ l → v = v'.

Section collect_map_lemmas.
Context {K V : Type} `{Countable K}.

Lemma collect_map_snoc (l : list (K * V)) k v :
  collect_map (l ++ [(k, v)]) = <[k := v]> (collect_map l).
Proof. unfold collect_map. by rw fold_left_app. Qed.

Lemma collect_map_Some (l : list (K * V)) k v : collect_map l !! k = Some v → (k, v) ∈ l.
Proof.
  induction l as [|[k' v'] l IH] using rev_ind; [done|].
  rw collect_map_snoc lookup_insert_Some. set_solver.
Qed.

Lemma collect_map_elem_of (l : list (K * V)) k v : (k, v) ∈ l → is_Some (collect_map l !! k).
Proof.
  induction l as [|[k' v'] l IH] using rev_ind; [set_solver|].
  rw collect_map_snoc lookup_insert_is_Some elem_of_app list_elem_of_singleton.
  destruct (decide (k' = k)); [auto|]. intros [?|?]; [auto|naive_solver].
Qed.

Lemma collect_map_consistent (l : list (K * V)) k v :
  consistent l → (k, v) ∈ l → collect_map l !! k = Some v.
Proof.
  intros Hl Hin. destruct (collect_map_elem_of _ _ _ Hin) as [v' Hv'].
  rw Hv'. f_equal. eapply Hl; [by apply collect_map_Some|done].
Qed.

Lemma consistent_snoc `{EqDecision V} (l : list (K * V)) k v :
  consistent (l ++ [(k, v)]) ↔ consistent l ∧ differs (collect_map l !! k) v = false.
Proof.
  unfold differs. split.
  - intros Hl. split; [intros k' v1 v2 ??; apply (Hl k'); set_solver|].
    destruct (collect_map l !! k) as [v'|] eqn:E; [|done]. apply collect_map_Some in E.
    rw negb_false_iff bool_decide_eq_true. apply (Hl k); set_solver.
  - intros [Hl Hv]. assert (∀ v', (k, v') ∈ l → v' = v) as Hk.
    { intros v' Hin. rw (collect_map_consistent _ _ _ Hl Hin) in Hv. by to_prop. }
    intros k' v1 v2. rw !elem_of_app !list_elem_of_singleton.
    intros [?|?] [?|?]; simplify_eq; try done; [by eapply Hl|by apply Hk|by symmetry; apply Hk].
Qed.
End collect_map_lemmas.

Lemma set_insert_eq {K} `{Countable K} (x : K) (s : gset K) : set_insert x s = {[x]} ∪ s.
Proof.
  apply set_eq. intros y. rw elem_of_union elem_of_singleton.
  unfold elem_of, gset_elem_of, mapset_elem_of, set_insert. cbn. rw lookup_insert_Some.
  destruct s as [m]. cbn. destruct (decide (x = y)) as [->|]; naive_solver.
Qed.

Lemma collect_set_eq {K} `{Countable K} (l : list K) : collect_set l = list_to_set l.
Proof. induction l as [|x l IH]; [done|]. cbn. by rw set_insert_eq -IH. Qed.

Lemma size_collect_set {K} `{Countable K} (l : list K) :
  size (collect_set l) = length l → NoDup l.
Proof.
  induction l as [|x l IH]; [constructor|].
  rw !collect_set_eq in IH |- *. cbn [list_to_set]. intros Hsize.
  assert (size (list_to_set l : gset K) ≤ length l) as Hle.
  { clear. induction l as [|y l IH]; cbn [list_to_set length]; [by rw size_empty|].
    rw size_union_alt size_singleton.
    pose proof (subseteq_size (list_to_set l ∖ {[y]}) (list_to_set l : gset K)
      ltac:(set_solver)). lia. }
  destruct (decide (x ∈ l)) as [Hin|Hnin].
  { replace ({[x]} ∪ list_to_set l : gset K) with (list_to_set l : gset K) in Hsize
      by set_solver. simpl in Hsize. lia. }
  constructor; [done|]. apply IH. simpl in Hsize.
  assert ({[x]} ## (list_to_set l : gset K)) as Hdisj by set_solver.
  rw (size_union _ _ Hdisj) size_singleton in Hsize. lia.
Qed.

(** ** Lemmas: integers and their big-endian encodings *)

Lemma to_N_byte_of_N n : Byte.to_N (byte_of_N n) = (n mod 256)%N.
Proof.
  unfold byte_of_N. destruct (Byte.of_N (n mod 256)) eqn:E.
  - by apply Byte.to_of_N in E.
  - apply Byte.of_N_None_iff in E.
    pose proof (N.mod_upper_bound n 256 ltac:(done)). lia.
Qed.

Lemma byte_of_N_inj m n :
  (m < 256)%N → (n < 256)%N → byte_of_N m = byte_of_N n → m = n.
Proof.
  intros Hm Hn Heq. apply (f_equal Byte.to_N) in Heq.
  rw !to_N_byte_of_N in Heq. by rw !N.mod_small in Heq.
Qed.

Lemma length_be_bytes k n : length (be_bytes k n) = k.
Proof. revert n. induction k as [|k IH]; intros n; simpl; [done|]. rw length_app IH. simpl. lia. Qed.

Lemma be_N_app bs b : be_N (bs ++ [b]) = (be_N bs * 256 + Byte.to_N b)%N.
Proof. unfold be_N. by rw fold_left_app. Qed.

Lemma be_N_be_bytes k n : (n < 256 ^ N.of_nat k)%N → be_N (be_bytes k n) = n.
Proof.
  revert n. induction k as [|k IH]; intros n Hn.
  { simpl in *. unfold be_N. simpl. lia. }
  cbn [be_bytes]. rw be_N_app to_N_byte_of_N IH.
  - rw {3}(N.div_mod n 256); lia.
  - apply N.Div0.div_lt_upper_bound.
    by rw -N.pow_succ_r' -Nat2N.inj_succ.
Qed.

Lemma be_bytes_inj k m n :
  (m < 256 ^ N.of_nat k)%N → (n < 256 ^ N.of_nat k)%N →
  be_bytes k m = be_bytes k n → m = n.
Proof. intros Hm Hn Heq. by rw -(be_N_be_bytes k m) // -(be_N_be_bytes k n) // Heq. Qed.

Lemma be_N_lt bs : (be_N bs < 256 ^ len bs)%N.
Proof.
  induction bs as [|b bs IH] using rev_ind; [done|]. rw be_N_app. unfold len in *.
  rw length_app Nat2N.inj_add N.pow_add_r /=. pose proof (Byte.to_N_bounded b). lia.
Qed.

Lemma be_bytes_be_N bs : be_bytes (length bs) (be_N bs) = bs.
Proof.
  induction bs as [|b bs IH] using rev_ind; [done|]. pose proof (Byte.to_N_bounded b).
  rw be_N_app length_app Nat.add_1_r. cbn [be_bytes].
  rw (N.div_add_l _ 256) // (N.div_small (Byte.to_N b)); [|lia]. rw N.add_0_r IH. do 2 f_equal.
  apply to_N_inj. rw to_N_byte_of_N N.add_comm N.Div0.mod_add N.mod_small //. lia.
Qed.

Lemma checked_add_u64_Some a b c : checked_add_u64 a b = Some c → c = (a + b)%N.
Proof. unfold checked_add_u64. case_match; naive_solver. Qed.

Lemma forallb_eq_true {A} (f : A → bool) l :
  forallb f l = true ↔ Forall (λ x, f x = true) l.
Proof. rw forallb_forall Forall_forall. by setoid_rewrite list_elem_of_In. Qed.

Lemma existsb_eq_false {A} (f : A → bool) l :
  existsb f l = false ↔ Forall (λ x, f x = false) l.
Proof.
  induction l as [|x l IH]; simpl; [by split|].
  rw orb_false_iff Forall_cons IH. done.
Qed.

Ltac to_forall :=
  repeat match goal with
  | H : forallb _ _ = true |- _ => apply forallb_eq_true in H
  | H : existsb _ _ = false |- _ => apply existsb_eq_false in H
  end.

Lemma len_app {A} (l k : list A) : len (l ++ k) = (len l + len k)%N.
Proof. unfold len. rw length_app. lia. Qed.

Lemma len_nil_iff {A} (l : list A) : len l = 0%N ↔ l = [].
Proof. unfold len. destruct l; simpl; naive_solver lia. Qed.

(** ** Automation *)

Create HintDb jury discriminated.
#[export] Hint Resolve length_be_bytes sha256_length : jury.
Create Rewrite HintDb jury_len.
#[export] Hint Rewrite @length_app @length_be_bytes @length_cons @length_nil : jury_len.
