(* ===== verification/VaultTypes.v ===== *)
(** * The vault format's data

    The types of [crates/jury-protocol/src/vault_v1/types.rs], the pre-genesis
    bootstrap manifest of [rollover_v1.rs], and [VaultSuite] of
    [hpke_context.rs]. A fixed-size byte array, an identifier or a digest is a
    list of bytes and a [w]-bit integer a number; what Rust's types promise
    about them (lengths and ranges) is the boolean [_wt] predicate of each
    type, which the theorems that need it assume. *)

From S2P Require Import Prelude.
Local Open Scope jury_scope.

(** ** Identifiers and byte strings ([bytes.rs]) *)

Abbreviation VaultId := bytes.
Abbreviation PrincipalId := bytes.
Abbreviation ItemId := bytes.
Abbreviation FieldId := bytes.
Abbreviation RevisionSealId := bytes.
Abbreviation SlotId := bytes.
Abbreviation WitnessPolicyId := bytes.
Abbreviation MigrationId := bytes.
Abbreviation RolloverId := bytes.
Abbreviation Digest32 := bytes.
Abbreviation Signature64 := bytes.
Abbreviation Nonce12 := bytes.
Abbreviation RecipientPublicKey1216 := bytes.
Abbreviation VerificationPublicKey32 := bytes.
Abbreviation Encapsulation1120 := bytes.
Abbreviation DirectCiphertext48 := bytes.
Abbreviation ShareCiphertext49 := bytes.
Abbreviation DescriptorCiphertext272 := bytes.
Abbreviation ItemCiphertext := bytes.

(** [FixedBytes<n>] *)
Definition fixed (n : nat) (b : bytes) : bool := length b ==? n.

Definition u8 (n : N) : bool := (n <=? u8_max)%N.
Definition u16 (n : N) : bool := (n <=? u16_max)%N.
Definition u32 (n : N) : bool := (n <=? u32_max)%N.
Definition u64 (n : N) : bool := (n <=? u64_max)%N.

(** A [usize] length that fits the [u32] length prefixes. *)
Definition fits_u32 (b : bytes) : bool := u32 (len b).

Definition ZERO_DIGEST : Digest32 := replicate 32 Byte.x00.

(** ** Enumerations *)

Inductive PrincipalKind := PK_Human | PK_Machine | PK_Approver | PK_Witness.

Definition PrincipalKind_tag (k : PrincipalKind) : N :=
  match k with PK_Human => 1 | PK_Machine => 2 | PK_Approver => 3 | PK_Witness => 4 end.

Inductive ItemKind := IK_Canonical | IK_Legacy.

Definition ItemKind_tag (k : ItemKind) : N :=
  match k with IK_Canonical => 1 | IK_Legacy => 2 end.

Inductive ContentRole := CR_Descriptor | CR_Body.

Definition ContentRole_tag (r : ContentRole) : N :=
  match r with CR_Descriptor => 1 | CR_Body => 2 end.

Inductive AccessRole := AR_Reader | AR_Writer | AR_Owner.

Definition AccessRole_tag (r : AccessRole) : N :=
  match r with AR_Reader => 1 | AR_Writer => 2 | AR_Owner => 3 end.

Inductive ItemAccessMode := AM_DirectOnly | AM_WitnessedOnly | AM_Mixed.

Definition ItemAccessMode_tag (m : ItemAccessMode) : N :=
  match m with AM_DirectOnly => 1 | AM_WitnessedOnly => 2 | AM_Mixed => 3 end.

Inductive RemovalReason :=
  RR_OperatorRemoval | RR_Replacement | RR_SuspectedCompromise | RR_Retirement.

Definition RemovalReason_tag (r : RemovalReason) : N :=
  match r with
  | RR_OperatorRemoval => 1
  | RR_Replacement => 2
  | RR_SuspectedCompromise => 3
  | RR_Retirement => 4
  end.

Global Instance PrincipalKind_eq_dec : EqDecision PrincipalKind.
Proof. solve_decision. Defined.
Global Instance RemovalReason_eq_dec : EqDecision RemovalReason.
Proof. solve_decision. Defined.
Global Instance ItemKind_eq_dec : EqDecision ItemKind.
Proof. solve_decision. Defined.
Global Instance ContentRole_eq_dec : EqDecision ContentRole.
Proof. solve_decision. Defined.
Global Instance AccessRole_eq_dec : EqDecision AccessRole.
Proof. solve_decision. Defined.
Global Instance ItemAccessMode_eq_dec : EqDecision ItemAccessMode.
Proof. solve_decision. Defined.

Global Instance ContentRole_countable : Countable ContentRole :=
  inj_countable' (λ r, match r with CR_Descriptor => false | CR_Body => true end)
    (λ b : bool, if b then CR_Body else CR_Descriptor)
    ltac:(by intros []).

(** [derive(Ord)]: the variants in declaration order. *)
Global Instance ContentRole_ord : Ord ContentRole := λ x y,
  N.compare (ContentRole_tag x) (ContentRole_tag y).

Global Instance ContentRole_ord_laws : OrdLaws ContentRole.
Proof.
  split; unfold cmp, ContentRole_ord.
  - intros [] []; simpl; naive_solver.
  - by intros [] [].
  - by intros [] [] [].
Qed.

(** ** Vault suites ([hpke_context.rs]) *)

Inductive VaultSuite := Suite1 | Suite2.

Definition VaultSuite_from_id (id : N) : option VaultSuite :=
  match id with 1%N => Some Suite1 | 2%N => Some Suite2 | _ => None end.

Definition VaultSuite_id (s : VaultSuite) : N :=
  match s with Suite1 => 1 | Suite2 => 2 end.

Definition hpke_aead (s : VaultSuite) : N :=
  match s with Suite1 => 3 | Suite2 => 2 end.

Global Instance VaultSuite_eq_dec : EqDecision VaultSuite.
Proof. solve_decision. Defined.

(** ** Principals and item metadata *)

Record PrincipalDescriptorV1 := {
  pd_descriptor_version : N;
  pd_principal_id : PrincipalId;
  pd_principal_kind : PrincipalKind;
  pd_recipient_public_key : RecipientPublicKey1216;
  pd_verification_public_key : VerificationPublicKey32;
  pd_self_signature : Signature64;
}.

Record DescriptorMetadataV1 := {
  dm_revision : N;
  dm_revision_seal_id : RevisionSealId;
  dm_nonce : Nonce12;
  dm_ciphertext_length : N;
  dm_ciphertext_digest : Digest32;
  dm_plaintext_schema : N;
  dm_key_epoch : N;
}.

Global Instance PrincipalDescriptorV1_eq_dec : EqDecision PrincipalDescriptorV1.
Proof. solve_decision. Defined.
Global Instance DescriptorMetadataV1_eq_dec : EqDecision DescriptorMetadataV1.
Proof. solve_decision. Defined.

(** ** Access slots *)

Record DirectSlotV1 := {
  ds_slot_schema : N;
  ds_slot_algorithm : N;
  ds_suite : N;
  ds_kem : N;
  ds_kdf : N;
  ds_aead : N;
  ds_vault_id : VaultId;
  ds_item_id : ItemId;
  ds_key_epoch : N;
  ds_content_role : ContentRole;
  ds_revision : N;
  ds_revision_seal_id : RevisionSealId;
  ds_recipient_principal_id : PrincipalId;
  ds_policy_sequence : N;
  ds_recipient_public_key_fingerprint : Digest32;
  ds_access_role : AccessRole;
  ds_item_access_mode : ItemAccessMode;
  ds_encapsulation : Encapsulation1120;
  ds_ciphertext : DirectCiphertext48;
}.

Record WitnessShareCapsuleV1 := {
  wc_capsule_schema : N;
  wc_protocol : N;
  wc_construction : N;
  wc_vault_id : VaultId;
  wc_genesis_fingerprint : Digest32;
  wc_item_id : ItemId;
  wc_key_epoch : N;
  wc_item_access_mode : ItemAccessMode;
  wc_slot_id : SlotId;
  wc_content_role : ContentRole;
  wc_revision : N;
  wc_revision_seal_id : RevisionSealId;
  wc_vault_policy_sequence : N;
  wc_witness_policy_id : WitnessPolicyId;
  wc_witness_policy_revision : N;
  wc_witness_policy_digest : Digest32;
  wc_threshold : N;
  wc_member_count : N;
  wc_witness_id : PrincipalId;
  wc_contribution_key_fingerprint : Digest32;
  wc_share_index : N;
  wc_context_digest : Digest32;
  wc_share_commitment : Digest32;
  wc_encapsulation : Encapsulation1120;
  wc_ciphertext : ShareCiphertext49;
}.

Record WitnessedSlotV1 := {
  ws_slot_schema : N;
  ws_slot_algorithm : N;
  ws_suite : N;
  ws_protocol : N;
  ws_construction : N;
  ws_vault_id : VaultId;
  ws_genesis_fingerprint : Digest32;
  ws_item_id : ItemId;
  ws_key_epoch : N;
  ws_item_access_mode : ItemAccessMode;
  ws_slot_id : SlotId;
  ws_content_role : ContentRole;
  ws_revision : N;
  ws_revision_seal_id : RevisionSealId;
  ws_vault_policy_sequence : N;
  ws_witness_policy_id : WitnessPolicyId;
  ws_witness_policy_revision : N;
  ws_witness_policy_digest : Digest32;
  ws_threshold : N;
  ws_member_count : N;
  ws_capsules : list WitnessShareCapsuleV1;
  ws_capsule_set_digest : Digest32;
}.

Record WitnessedStateV1 := {
  wst_slots : list WitnessedSlotV1;
  wst_digest : Digest32;
}.

Global Instance DirectSlotV1_eq_dec : EqDecision DirectSlotV1.
Proof. solve_decision. Defined.
Global Instance WitnessShareCapsuleV1_eq_dec : EqDecision WitnessShareCapsuleV1.
Proof. solve_decision. Defined.
Global Instance WitnessedSlotV1_eq_dec : EqDecision WitnessedSlotV1.
Proof. solve_decision. Defined.
Global Instance WitnessedStateV1_eq_dec : EqDecision WitnessedStateV1.
Proof. solve_decision. Defined.

(** ** The rollover bootstrap manifest ([rollover_v1.rs]) *)

Record BootstrapPrincipalV1 := {
  bp_principal_id : PrincipalId;
  bp_unsigned_descriptor_digest : Digest32;
  bp_display_label : bytes;
  bp_owner : bool;
}.

Record BootstrapGrantV1 := {
  bg_principal_id : PrincipalId;
  bg_role : AccessRole;
  bg_direct : bool;
}.

Record BootstrapWitnessedItemV1 := {
  bw_policy_id : WitnessPolicyId;
  bw_descriptor_slot_id : SlotId;
  bw_body_slot_id : SlotId;
}.

Record BootstrapItemV1 := {
  bi_source_item_id : ItemId;
  bi_destination_item_id : ItemId;
  bi_item_kind : ItemKind;
  bi_descriptor : DescriptorMetadataV1;
  bi_initial_item_revision_hash : Digest32;
  bi_direct_slot_set_digest : Digest32;
  bi_grants : list BootstrapGrantV1;
  bi_witnessed : option BootstrapWitnessedItemV1;
}.

Record BootstrapWitnessPolicyV1 := {
  bwp_source_policy_id : WitnessPolicyId;
  bwp_source_policy_revision : option N;
  bwp_destination_policy_id : WitnessPolicyId;
  bwp_intent_digest : Digest32;
}.

Record BootstrapManifestV1 := {
  bm_version : N;
  bm_source_suite : option N;
  bm_destination_suite : N;
  bm_destination_vault_id : VaultId;
  bm_created_at_ms : N;
  bm_acting_owner_principal_id : PrincipalId;
  bm_principals : list BootstrapPrincipalV1;
  bm_items : list BootstrapItemV1;
  bm_witness_policies : list BootstrapWitnessPolicyV1;
}.

Global Instance BootstrapPrincipalV1_eq_dec : EqDecision BootstrapPrincipalV1.
Proof. solve_decision. Defined.
Global Instance BootstrapGrantV1_eq_dec : EqDecision BootstrapGrantV1.
Proof. solve_decision. Defined.
Global Instance BootstrapWitnessedItemV1_eq_dec : EqDecision BootstrapWitnessedItemV1.
Proof. solve_decision. Defined.
Global Instance BootstrapItemV1_eq_dec : EqDecision BootstrapItemV1.
Proof. solve_decision. Defined.
Global Instance BootstrapWitnessPolicyV1_eq_dec : EqDecision BootstrapWitnessPolicyV1.
Proof. solve_decision. Defined.

(** ** Signed history *)

Record VaultHeaderV1 := {
  vh_magic : bytes;
  vh_version : N;
  vh_vault_id : VaultId;
  vh_created_at_ms : N;
  vh_suite : N;
  vh_policy_schema : N;
  vh_item_schema : N;
  vh_identity_schema : N;
  vh_genesis_fingerprint : Digest32;
}.

Record SignedRolloverV1 := {
  sr_rollover_format : N;
  sr_rollover_id : RolloverId;
  sr_source_vault_id : VaultId;
  sr_source_genesis_fingerprint : Digest32;
  sr_terminal_source_revision_hash : Digest32;
  sr_destination_vault_id : VaultId;
  sr_destination_suite : N;
  sr_bootstrap_manifest_digest : Digest32;
  sr_bootstrap_manifest : option BootstrapManifestV1;
  sr_acting_owner_principal_id : PrincipalId;
  sr_signature : Signature64;
}.

Inductive SourceAttestationV1 :=
  | LegacyMigration (source_format : N) (migration_id : MigrationId)
      (final_legacy_audit_digest terminal_legacy_audit_mac : Digest32)
  | Rollover (statement : SignedRolloverV1).

Record SignedSuiteMigrationV1 := {
  sm_migration_format : N;
  sm_migration_id : MigrationId;
  sm_old_vault_id : VaultId;
  sm_old_genesis_fingerprint : Digest32;
  sm_old_terminal_revision_hash : Digest32;
  sm_old_suite : N;
  sm_new_vault_id : VaultId;
  sm_new_genesis_fingerprint : Digest32;
  sm_new_suite : N;
  sm_migrated_item_manifest_digest : Digest32;
  sm_signature : Signature64;
}.

(** An enumeration with no variant. *)
Inductive EmptyGenesisEntryV1 := .

Record PolicyGenesisV1 := {
  pg_vault_id : VaultId;
  pg_policy_sequence : N;
  pg_previous_policy_hash : Digest32;
  pg_created_at_ms : N;
  pg_suite : N;
  pg_owner : PrincipalDescriptorV1;
  pg_source_attestation : option SourceAttestationV1;
  pg_item_inventory : list EmptyGenesisEntryV1;
  pg_direct_grants : list EmptyGenesisEntryV1;
  pg_owner_signature : Signature64;
}.

Inductive PolicyOperationV1 :=
  | PrincipalAdd (descriptor : PrincipalDescriptorV1) (display_label : bytes)
      (registration_proof_digest : Digest32)
  | PrincipalLabelChange (principal_id : PrincipalId) (prior_label next_label : bytes)
  | PrincipalRemove (principal_id : PrincipalId) (removal_reason : RemovalReason)
  | OwnerGrant (principal_id : PrincipalId)
  | OwnerRevoke (principal_id : PrincipalId)
  | ItemCreate (item_id : ItemId) (item_kind : ItemKind) (key_epoch : N)
      (descriptor : DescriptorMetadataV1) (current_item_revision_hash : Digest32)
      (direct_slots : list DirectSlotV1) (witnessed_state : option WitnessedStateV1)
  | ItemRename (item_id : ItemId) (prior_descriptor_revision : N)
      (next_descriptor : DescriptorMetadataV1)
  | ItemDelete (item_id : ItemId) (final_descriptor_digest final_item_revision_hash : Digest32)
      (deletion_policy_sequence : N)
  | ItemRoleChange (item_id : ItemId) (principal_id : PrincipalId)
      (prior_role next_role : option AccessRole)
  | ItemReaderSetChange (item_id : ItemId) (prior_epoch next_epoch : N)
      (prior_reader_ids next_reader_ids : list PrincipalId)
      (replacement_descriptor : DescriptorMetadataV1)
      (replacement_current_item_revision_hash : Digest32)
  | ItemSlotsReplace (item_id : ItemId) (next_epoch : N)
      (direct_slots : list DirectSlotV1) (witnessed_state : option WitnessedStateV1)
  | PrincipalReplace (prior_principal_id : PrincipalId)
      (next_descriptor : PrincipalDescriptorV1) (registration_proof_digest : Digest32).

Record SignedPolicyRevisionV1 := {
  pr_vault_id : VaultId;
  pr_sequence : N;
  pr_previous_revision_hash : Digest32;
  pr_timestamp_ms : N;
  pr_author_principal_id : PrincipalId;
  pr_operations : list PolicyOperationV1;
  pr_resulting_policy_state_hash : Digest32;
  pr_signature : Signature64;
}.

Record PolicyJournalV1 := {
  pj_genesis : PolicyGenesisV1;
  pj_revisions : list SignedPolicyRevisionV1;
}.

Record SignedItemRevisionV1 := {
  ir_vault_id : VaultId;
  ir_item_id : ItemId;
  ir_item_revision : N;
  ir_previous_item_revision_hash : Digest32;
  ir_key_epoch : N;
  ir_policy_sequence : N;
  ir_author_principal_id : PrincipalId;
  ir_timestamp_ms : N;
  ir_revision_seal_id : RevisionSealId;
  ir_nonce : Nonce12;
  ir_ciphertext_length : N;
  ir_ciphertext_digest : Digest32;
  ir_plaintext_schema : N;
  ir_bucket_id : N;
  ir_signature : Signature64;
}.

Record ItemEnvelopeV1 := {
  ie_item_id : ItemId;
  ie_descriptor : DescriptorMetadataV1;
  ie_descriptor_ciphertext : DescriptorCiphertext272;
  ie_prior_revisions : list SignedItemRevisionV1;
  ie_current_revision : SignedItemRevisionV1;
  ie_body_ciphertext : ItemCiphertext;
}.

Record VaultFileV1 := {
  vf_header : VaultHeaderV1;
  vf_policy : PolicyJournalV1;
  vf_items : list ItemEnvelopeV1;
  vf_suite_migration : option SignedSuiteMigrationV1;
}.
