(* ===== verification/Canonical.v ===== *)
(** * Canonical binary encoding

    The JCE1 primitives of [crates/jury-protocol/src/canonical.rs] and the HPKE
    context prefix of [hpke_context.rs]. Each encoder appends to an output
    buffer, which the model passes as a value and returns. [jury-core]'s
    [canonical.rs] repeats the same primitives.

    The lemmas show that the encodings are uniquely readable: [pinj] says that
    an encoder's output can be told apart from whatever follows it, and is
    closed under length prefixes, lists and options. *)

From S2P Require Import Prelude VaultTypes.
Local Open Scope jury_scope.

Inductive LengthOverflow := length_overflow.

Definition jce_v1 (domain : string) : bytes :=
  str domain ++ [Byte.x00; Byte.x00; Byte.x01].

Definition u32be (value : N) : result LengthOverflow bytes :=
  if u32 value then Ok (be_bytes 4 value) else Err length_overflow.

Definition bytes_field (output value : bytes) : result LengthOverflow bytes :=
  prefix ← u32be (len value);
  Ok (output ++ prefix ++ value).

Definition list_bytes (output : bytes) (values : list bytes) : result LengthOverflow bytes :=
  prefix ← u32be (len values);
  foldE bytes_field (output ++ prefix) values.

Definition list_fixed {T} (output : bytes) (values : list T)
    (append : bytes → T → bytes) : result LengthOverflow bytes :=
  prefix ← u32be (len values);
  Ok (fold_left append values (output ++ prefix)).

Definition optional_fixed (output : bytes) (value : option bytes) : bytes :=
  match value with
  | None => output ++ [Byte.x00]
  | Some value => output ++ [Byte.x01] ++ value
  end.

Definition optional_bytes (output : bytes) (value : option bytes)
    : result LengthOverflow bytes :=
  match value with
  | None => Ok (output ++ [Byte.x00])
  | Some value => bytes_field (output ++ [Byte.x01]) value
  end.

Definition optional_u8 (output : bytes) (value : option N) : bytes :=
  match value with
  | None => output ++ [Byte.x00]
  | Some value => output ++ [Byte.x01] ++ [byte_of_N value]
  end.

Definition optional_u64 (output : bytes) (value : option N) : bytes :=
  match value with
  | None => output ++ [Byte.x00]
  | Some value => output ++ [Byte.x01] ++ be_bytes 8 value
  end.

(** [hpke_context::prefix] *)
Definition hpke_prefix (domain : string) (suite : N) : bytes :=
  str domain ++ [Byte.x00] ++ be_bytes 2 suite.

(** ** What the encoders append *)

Definition field_chunk (value : bytes) : bytes := be_bytes 4 (len value) ++ value.

Definition list_chunk {A} (e : A → bytes) (l : list A) : bytes :=
  be_bytes 4 (len l) ++ concat (e <$> l).

Definition option_chunk {A} (e : A → bytes) (o : option A) : bytes :=
  match o with None => [Byte.x00] | Some x => Byte.x01 :: e x end.

Lemma u32be_Ok n o : u32be n = Ok o ↔ u32 n = true ∧ o = be_bytes 4 n.
Proof. unfold u32be. destruct (u32 n); naive_solver. Qed.

Lemma bytes_field_Ok output value o :
  bytes_field output value = Ok o ↔
  fits_u32 value = true ∧ o = output ++ field_chunk value.
Proof.
  unfold bytes_field, field_chunk, fits_u32. rw bind_Ok. setoid_rewrite u32be_Ok.
  naive_solver.
Qed.

Lemma foldE_bytes_field output values o :
  foldE bytes_field output values = Ok o ↔
  Forall (λ v, fits_u32 v = true) values ∧ o = output ++ concat (field_chunk <$> values).
Proof.
  revert output. induction values as [|v vs IH]; intros output; simpl.
  { rw app_nil_r. split; [by intros [= ->]|by intros [_ ->]]. }
  rw bind_Ok. setoid_rewrite bytes_field_Ok. setoid_rewrite IH.
  rw Forall_cons. split.
  - intros (? & [? ->] & ? & ->). by rw -(assoc_L (++)).
  - intros [[? ?] ->]. eexists. split; [by split|]. by rw -(assoc_L (++)).
Qed.

Lemma list_bytes_Ok output values o :
  list_bytes output values = Ok o ↔
  u32 (len values) = true ∧ Forall (λ v, fits_u32 v = true) values ∧
  o = output ++ list_chunk field_chunk values.
Proof.
  unfold list_bytes, list_chunk. rw bind_Ok. setoid_rewrite u32be_Ok.
  setoid_rewrite foldE_bytes_field. split.
  - intros (? & [? ->] & ? & ->). by rw -(assoc_L (++)).
  - intros (? & ? & ->). eexists. split; [by split|]. by rw -(assoc_L (++)).
Qed.

Lemma fold_left_append {T} (e : T → bytes) values output :
  fold_left (λ out v, out ++ e v) values output = output ++ concat (e <$> values).
Proof.
  revert output. induction values as [|v vs IH]; intros output; simpl.
  { by rw app_nil_r. }
  rw IH. by rw -(assoc_L (++)).
Qed.

Lemma list_fixed_Ok {T} (e : T → bytes) output values o :
  list_fixed output values (λ out v, out ++ e v) = Ok o ↔
  u32 (len values) = true ∧ o = output ++ list_chunk e values.
Proof.
  unfold list_fixed, list_chunk. rw bind_Ok. setoid_rewrite u32be_Ok.
  rw (assoc_L (++)). setoid_rewrite fold_left_append. naive_solver.
Qed.

Lemma optional_bytes_Ok output value o :
  optional_bytes output value = Ok o ↔
  (if value is Some v then fits_u32 v else true) = true ∧
  o = output ++ option_chunk field_chunk value.
Proof.
  destruct value as [v|]; simpl.
  - rw bytes_field_Ok. by rw -(assoc_L (++)).
  - naive_solver.
Qed.

(** ** Unique readability *)

(** [e] is injective on [P] whatever bytes follow its output. *)
Definition pinj {A} (P : A → Prop) (e : A → bytes) : Prop :=
  ∀ x y r s, P x → P y → e x ++ r = e y ++ s → x = y ∧ r = s.

Lemma pinj_inj {A} (P : A → Prop) e x y : pinj P e → P x → P y → e x = e y → x = y.
Proof.
  intros He Hx Hy Heq. eapply (He x y [] []); [done|done|]. by rw Heq.
Qed.

Lemma pinj_same_length {A} (P : A → Prop) (e : A → bytes) (n : nat) :
  (∀ x, P x → length (e x) = n) →
  (∀ x y, P x → P y → e x = e y → x = y) → pinj P e.
Proof.
  intros Hlen Hinj x y r s Hx Hy Heq.
  apply app_inj_1 in Heq as [He ->]; [eauto|]. by rw !Hlen.
Qed.

Lemma pinj_be_bytes k : pinj (λ n, (n < 256 ^ N.of_nat k)%N) (be_bytes k).
Proof.
  eapply (pinj_same_length _ _ k); [auto with jury|]. intros; by eapply be_bytes_inj.
Qed.

Lemma u8_lt n : u8 n = true → (n < 256)%N.
Proof. unfold u8, u8_max. rw N.leb_le. lia. Qed.

Lemma u16_lt n : u16 n = true → (n < 256 ^ N.of_nat 2)%N.
Proof. intros Hn%N.leb_le. eapply N.le_lt_trans; [exact Hn|]. reflexivity. Qed.

Lemma u32_lt n : u32 n = true → (n < 256 ^ N.of_nat 4)%N.
Proof. intros Hn%N.leb_le. eapply N.le_lt_trans; [exact Hn|]. reflexivity. Qed.

Lemma u64_lt n : u64 n = true → (n < 256 ^ N.of_nat 8)%N.
Proof. intros Hn%N.leb_le. eapply N.le_lt_trans; [exact Hn|]. reflexivity. Qed.

Lemma len_eq {A B} (l : list A) (k : list B) : len l = len k → length l = length k.
Proof. apply Nat2N.inj. Qed.

Lemma pinj_field : pinj (λ v, fits_u32 v = true) field_chunk.
Proof.
  unfold field_chunk, fits_u32. intros x y r s Hx%u32_lt Hy%u32_lt.
  rw -!(assoc_L (++)). intros Heq.
  apply (pinj_be_bytes 4) in Heq as [Hlen%len_eq Heq]; [|done..].
  by apply app_inj_1 in Heq.
Qed.

Lemma pinj_concat {A} (P : A → Prop) e l k r s :
  pinj P e → Forall P l → Forall P k → length l = length k →
  concat (e <$> l) ++ r = concat (e <$> k) ++ s → l = k ∧ r = s.
Proof.
  intros He Hl. revert k. induction Hl as [|x l Hx Hl IH]; intros [|y k] Hk Hlen; try done.
  apply Forall_cons in Hk as [Hy Hk]. rw !fmap_cons. cbn [concat].
  rw -!(assoc_L (++)). intros Heq.
  apply He in Heq as [-> Heq]; [|done..]. apply IH in Heq as [-> ->]; [done..|].
  by injection Hlen.
Qed.

Lemma pinj_list {A} (P : A → Prop) e :
  pinj P e → pinj (λ l, u32 (len l) = true ∧ Forall P l) (list_chunk e).
Proof.
  unfold list_chunk. intros He x y r s [Hnx%u32_lt Hx] [Hny%u32_lt Hy].
  rw -!(assoc_L (++)). intros Heq.
  apply (pinj_be_bytes 4) in Heq as [Hlen%len_eq Heq]; [|done..].
  by eapply pinj_concat in Heq.
Qed.

Lemma pinj_option {A} (P : A → Prop) e :
  pinj P e → pinj (λ o, if o is Some x then P x else True) (option_chunk e).
Proof.
  intros He [x|] [y|] r s Hx Hy; simpl; intros Heq; try discriminate.
  - injection Heq as Heq. apply He in Heq as [-> ->]; done.
  - by injection Heq.
Qed.

(** A sequence of fields is read one field at a time: two equal buffers with
    first fields of equal length agree on the first field. *)
Lemma peel (a b r s : bytes) :
  a ++ r = b ++ s → length a = length b → a = b ∧ r = s.
Proof. intros Heq Hlen. by apply app_inj_1 in Heq. Qed.

Lemma peel_int k m n (r s : bytes) :
  be_bytes k m ++ r = be_bytes k n ++ s →
  (m < 256 ^ N.of_nat k)%N → (n < 256 ^ N.of_nat k)%N → m = n ∧ r = s.
Proof. intros Heq ??. by apply (pinj_be_bytes k) in Heq. Qed.

Lemma peel_u8 m n (r s : bytes) :
  [byte_of_N m] ++ r = [byte_of_N n] ++ s → u8 m = true → u8 n = true → m = n ∧ r = s.
Proof.
  simpl. intros [= Heq ->] ?%u8_lt ?%u8_lt. split; [|done].
  by apply byte_of_N_inj.
Qed.

Lemma peel_u16 m n (r s : bytes) :
  be_bytes 2 m ++ r = be_bytes 2 n ++ s → u16 m = true → u16 n = true → m = n ∧ r = s.
Proof. intros Heq ?%u16_lt ?%u16_lt. by apply peel_int in Heq. Qed.

Lemma peel_u32 m n (r s : bytes) :
  be_bytes 4 m ++ r = be_bytes 4 n ++ s → u32 m = true → u32 n = true → m = n ∧ r = s.
Proof. intros Heq ?%u32_lt ?%u32_lt. by apply peel_int in Heq. Qed.

Lemma peel_u64 m n (r s : bytes) :
  be_bytes 8 m ++ r = be_bytes 8 n ++ s → u64 m = true → u64 n = true → m = n ∧ r = s.
Proof. intros Heq ?%u64_lt ?%u64_lt. by apply peel_int in Heq. Qed.

Lemma peel_fixed n a b (r s : bytes) :
  a ++ r = b ++ s → fixed n a = true → fixed n b = true → a = b ∧ r = s.
Proof.
  unfold fixed. rw !bool_decide_eq_true. intros Heq <- Hb. by apply peel in Heq.
Qed.

(** Domain strings contain no NUL byte, so the NUL that ends the domain marks
    its end in every preimage. *)
Lemma domain_inj (d1 d2 : bytes) r s :
  Byte.x00 ∉ d1 → Byte.x00 ∉ d2 →
  d1 ++ Byte.x00 :: r = d2 ++ Byte.x00 :: s → d1 = d2 ∧ r = s.
Proof.
  revert d2. induction d1 as [|b d1 IH]; intros [|c d2] H1 H2 Heq; simpl in *.
  - by injection Heq.
  - injection Heq as <- _. set_solver.
  - injection Heq as -> _. set_solver.
  - injection Heq as -> Heq. apply IH in Heq as [-> ->]; set_solver.
Qed.

Lemma jce_v1_domain_inj d1 d2 r s :
  Byte.x00 ∉ str d1 → Byte.x00 ∉ str d2 →
  jce_v1 d1 ++ r = jce_v1 d2 ++ s → str d1 = str d2 ∧ r = s.
Proof.
  unfold jce_v1. intros H1 H2. rw -!(assoc_L (++)). cbn [app]. intros Heq.
  apply domain_inj in Heq as [-> Heq]; [|done..]. by injection Heq.
Qed.

Global Opaque be_bytes jce_v1.
