(* ===== verification/Preimage.v ===== *)
(** * Typed preimages of the vault format

    The byte strings that are signed, hashed or bound as associated data:
    [crates/jury-protocol/src/vault_v1/preimage.rs]. The order and width of
    every field is the source's. *)

From S2P Require Import Prelude VaultTypes Canonical.
Local Open Scope jury_scope.

Inductive CanonicalError := CE_LengthOverflow.

Definition to_canonical_error (e : LengthOverflow) : CanonicalError := CE_LengthOverflow.

Definition u16be (value : N) : bytes := be_bytes 2 value.
Definition u64be (value : N) : bytes := be_bytes 8 value.

Definition pre_bytes_field (output value : bytes) : result CanonicalError bytes :=
  map_err to_canonical_error (bytes_field output value).

Definition pre_list_bytes (output : bytes) (values : list bytes) : result CanonicalError bytes :=
  map_err to_canonical_error (list_bytes output values).

Definition pre_list_fixed {T} (output : bytes) (values : list T)
    (append : bytes → T → bytes) : result CanonicalError bytes :=
  map_err to_canonical_error (list_fixed output values append).

Definition pre_optional_bytes (output : bytes) (value : option bytes)
    : result CanonicalError bytes :=
  map_err to_canonical_error (optional_bytes output value).

(** A one-byte field. *)
Definition push (n : N) : bytes := [byte_of_N n].

(** ** Principal descriptors *)

Definition PrincipalDescriptorV1_canonical_body (d : PrincipalDescriptorV1) : bytes :=
  u16be (pd_descriptor_version d) ++
  pd_principal_id d ++
  push (PrincipalKind_tag (pd_principal_kind d)) ++
  pd_recipient_public_key d ++
  pd_verification_public_key d.

Definition PrincipalDescriptorV1_canonical_bytes (d : PrincipalDescriptorV1) : bytes :=
  PrincipalDescriptorV1_canonical_body d ++ pd_self_signature d.

Definition PrincipalDescriptorV1_fingerprint_preimage (d : PrincipalDescriptorV1) : bytes :=
  jce_v1 "jury-v1/principal-descriptor/fingerprint" ++
  PrincipalDescriptorV1_canonical_body d.

Definition self_signature_preimage (d : PrincipalDescriptorV1) : bytes :=
  jce_v1 "jury-v1/principal-descriptor/self-signature" ++
  PrincipalDescriptorV1_canonical_body d.

(** ** Item descriptors and direct slots *)

Definition DescriptorMetadataV1_canonical_bytes (d : DescriptorMetadataV1) : bytes :=
  u64be (dm_revision d) ++
  dm_revision_seal_id d ++
  dm_nonce d ++
  be_bytes 4 (dm_ciphertext_length d) ++
  dm_ciphertext_digest d ++
  push (dm_plaintext_schema d) ++
  u64be (dm_key_epoch d).

Definition DirectSlotV1_info_preimage (s : DirectSlotV1) : bytes :=
  hpke_prefix "jury-vault-v1-direct-revision-secret-slot" (ds_suite s) ++
  push (ds_slot_schema s) ++
  ds_vault_id s ++
  ds_item_id s ++
  u64be (ds_key_epoch s) ++
  push (ContentRole_tag (ds_content_role s)) ++
  u64be (ds_revision s) ++
  ds_revision_seal_id s ++
  ds_recipient_principal_id s.

Definition DirectSlotV1_aad_preimage (s : DirectSlotV1) : bytes :=
  hpke_prefix "jury-vault-v1-direct-revision-secret-slot-aad" (ds_suite s) ++
  u64be (ds_policy_sequence s) ++
  ds_recipient_public_key_fingerprint s ++
  push (AccessRole_tag (ds_access_role s)) ++
  push (ds_slot_algorithm s) ++
  push (ItemAccessMode_tag (ds_item_access_mode s)).

Definition DirectSlotV1_canonical_bytes (s : DirectSlotV1) : bytes :=
  push (ds_slot_schema s) ++
  push (ds_slot_algorithm s) ++
  u16be (ds_suite s) ++
  u16be (ds_kem s) ++
  u16be (ds_kdf s) ++
  u16be (ds_aead s) ++
  ds_vault_id s ++
  ds_item_id s ++
  u64be (ds_key_epoch s) ++
  push (ContentRole_tag (ds_content_role s)) ++
  u64be (ds_revision s) ++
  ds_revision_seal_id s ++
  ds_recipient_principal_id s ++
  u64be (ds_policy_sequence s) ++
  ds_recipient_public_key_fingerprint s ++
  push (AccessRole_tag (ds_access_role s)) ++
  push (ItemAccessMode_tag (ds_item_access_mode s)) ++
  ds_encapsulation s ++
  ds_ciphertext s.

(** ** Witness share capsules *)

Definition WitnessShareCapsuleV1_context_fields (c : WitnessShareCapsuleV1) : bytes :=
  u16be (wc_capsule_schema c) ++
  u16be (wc_protocol c) ++
  u16be (wc_construction c) ++
  wc_vault_id c ++
  wc_genesis_fingerprint c ++
  wc_item_id c ++
  u64be (wc_key_epoch c) ++
  push (ItemAccessMode_tag (wc_item_access_mode c)) ++
  wc_slot_id c ++
  push (ContentRole_tag (wc_content_role c)) ++
  u64be (wc_revision c) ++
  wc_revision_seal_id c ++
  u64be (wc_vault_policy_sequence c) ++
  wc_witness_policy_id c ++
  u64be (wc_witness_policy_revision c) ++
  wc_witness_policy_digest c ++
  push (wc_threshold c) ++
  push (wc_member_count c) ++
  wc_witness_id c ++
  wc_contribution_key_fingerprint c ++
  push (wc_share_index c).

Definition WitnessShareCapsuleV1_context_preimage_for_suite
    (c : WitnessShareCapsuleV1) (suite : VaultSuite) : bytes :=
  hpke_prefix "jury-witness-v1/capsule/context" (VaultSuite_id suite) ++
  WitnessShareCapsuleV1_context_fields c.

Definition WitnessShareCapsuleV1_info_preimage_for_suite
    (c : WitnessShareCapsuleV1) (suite : VaultSuite) : bytes :=
  hpke_prefix "jury-witness-v1/capsule/info" (VaultSuite_id suite) ++
  wc_context_digest c ++
  wc_witness_id c ++
  wc_contribution_key_fingerprint c ++
  push (wc_share_index c).

Definition WitnessShareCapsuleV1_aad_preimage_for_suite
    (c : WitnessShareCapsuleV1) (suite : VaultSuite) : bytes :=
  hpke_prefix "jury-witness-v1/capsule/aad" (VaultSuite_id suite) ++
  wc_context_digest c ++
  wc_share_commitment c ++
  wc_witness_policy_digest c ++
  u64be (wc_vault_policy_sequence c).

Definition WitnessShareCapsuleV1_canonical_bytes (c : WitnessShareCapsuleV1) : bytes :=
  WitnessShareCapsuleV1_context_fields c ++
  wc_context_digest c ++
  wc_share_commitment c ++
  wc_encapsulation c ++
  wc_ciphertext c.

(** ** Witnessed slots *)

Definition WitnessedSlotV1_common_fields (s : WitnessedSlotV1) : bytes :=
  push (ws_slot_schema s) ++
  push (ws_slot_algorithm s) ++
  u16be (ws_suite s) ++
  u16be (ws_protocol s) ++
  u16be (ws_construction s) ++
  ws_vault_id s ++
  ws_genesis_fingerprint s ++
  ws_item_id s ++
  u64be (ws_key_epoch s) ++
  push (ItemAccessMode_tag (ws_item_access_mode s)) ++
  ws_slot_id s ++
  push (ContentRole_tag (ws_content_role s)) ++
  u64be (ws_revision s) ++
  ws_revision_seal_id s ++
  u64be (ws_vault_policy_sequence s) ++
  ws_witness_policy_id s ++
  u64be (ws_witness_policy_revision s) ++
  ws_witness_policy_digest s ++
  push (ws_threshold s) ++
  push (ws_member_count s).

Definition capsule_set_preimage (s : WitnessedSlotV1) : result CanonicalError bytes :=
  pre_list_bytes (jce_v1 "jury-witness-v1/capsule-set/hash")
    (WitnessShareCapsuleV1_canonical_bytes <$> ws_capsules s).

Definition WitnessedSlotV1_canonical_bytes (s : WitnessedSlotV1)
    : result CanonicalError bytes :=
  output ← pre_list_bytes (WitnessedSlotV1_common_fields s)
    (WitnessShareCapsuleV1_canonical_bytes <$> ws_capsules s);
  Ok (output ++ ws_capsule_set_digest s).

Definition WitnessedSlotV1_digest_preimage (s : WitnessedSlotV1)
    : result CanonicalError bytes :=
  slot ← WitnessedSlotV1_canonical_bytes s;
  pre_bytes_field (jce_v1 "jury-witness-v1/slot/hash") slot.

Definition witnessed_slot_set_digest_preimage (slots : list WitnessedSlotV1)
    : result CanonicalError bytes :=
  slots ← mapE WitnessedSlotV1_canonical_bytes slots;
  pre_list_bytes (jce_v1 "jury-witness-v1/slot-set/hash") slots.

(** ** Lineage statements *)

Definition SignedRolloverV1_signature_preimage (s : SignedRolloverV1) : bytes :=
  jce_v1 "jury-v1/rollover/signature" ++
  u16be (sr_rollover_format s) ++
  sr_rollover_id s ++
  sr_source_vault_id s ++
  sr_source_genesis_fingerprint s ++
  sr_terminal_source_revision_hash s ++
  sr_destination_vault_id s ++
  u16be (sr_destination_suite s) ++
  sr_bootstrap_manifest_digest s ++
  sr_acting_owner_principal_id s.

Definition SignedSuiteMigrationV1_signature_preimage (m : SignedSuiteMigrationV1) : bytes :=
  jce_v1 "jury-v1/suite-migration/signature" ++
  u16be (sm_migration_format m) ++
  sm_migration_id m ++
  sm_old_vault_id m ++
  sm_old_genesis_fingerprint m ++
  sm_old_terminal_revision_hash m ++
  u16be (sm_old_suite m) ++
  sm_new_vault_id m ++
  sm_new_genesis_fingerprint m ++
  u16be (sm_new_suite m) ++
  sm_migrated_item_manifest_digest m.

Definition SourceAttestationV1_canonical_bytes (a : SourceAttestationV1)
    : result CanonicalError bytes :=
  match a with
  | LegacyMigration source_format migration_id final_digest terminal_mac =>
      Ok (push 1 ++ u16be source_format ++ migration_id ++ final_digest ++ terminal_mac)
  | Rollover statement =>
      output ← pre_bytes_field (push 2) (SignedRolloverV1_signature_preimage statement);
      Ok (output ++ sr_signature statement)
  end.

Definition PolicyGenesisV1_signature_preimage (g : PolicyGenesisV1)
    : result CanonicalError bytes :=
  source ← match pg_source_attestation g with
           | None => Ok None
           | Some a => Some <$> SourceAttestationV1_canonical_bytes a
           end;
  let output := jce_v1 "jury-v1/policy-genesis/signature" ++
    pg_vault_id g ++
    u64be (pg_policy_sequence g) ++
    pg_previous_policy_hash g ++
    u64be (pg_created_at_ms g) in
  output ← pre_bytes_field output (PrincipalDescriptorV1_canonical_bytes (pg_owner g));
  output ← pre_optional_bytes output source;
  Ok (output ++ be_bytes 4 0 ++ be_bytes 4 0).

Definition PolicyGenesisV1_fingerprint_preimage (g : PolicyGenesisV1)
    : result CanonicalError bytes :=
  signature_preimage ← PolicyGenesisV1_signature_preimage g;
  output ← pre_bytes_field (jce_v1 "jury-v1/policy-genesis/fingerprint") signature_preimage;
  Ok (output ++ pg_owner_signature g).

(** ** Policy operations *)

Definition append_slot (output : bytes) (s : DirectSlotV1) : bytes :=
  output ++ DirectSlotV1_canonical_bytes s.

Definition append_id (output : bytes) (id : PrincipalId) : bytes := output ++ id.

Definition PolicyOperationV1_canonical_bytes (op : PolicyOperationV1)
    : result CanonicalError bytes :=
  match op with
  | PrincipalAdd descriptor display_label registration_proof_digest =>
      output ← pre_bytes_field (push 1) (PrincipalDescriptorV1_canonical_bytes descriptor);
      output ← pre_bytes_field output display_label;
      Ok (output ++ registration_proof_digest)
  | PrincipalLabelChange principal_id prior_label next_label =>
      output ← pre_bytes_field (push 2 ++ principal_id) prior_label;
      pre_bytes_field output next_label
  | PrincipalRemove principal_id removal_reason =>
      Ok (push 3 ++ principal_id ++ push (RemovalReason_tag removal_reason))
  | OwnerGrant principal_id => Ok (push 4 ++ principal_id)
  | OwnerRevoke principal_id => Ok (push 5 ++ principal_id)
  | ItemCreate item_id item_kind key_epoch descriptor current_item_revision_hash
      direct_slots witnessed_state =>
      output ← pre_list_fixed
        (push 6 ++ item_id ++ push (ItemKind_tag item_kind) ++ u64be key_epoch ++
         DescriptorMetadataV1_canonical_bytes descriptor ++ current_item_revision_hash)
        direct_slots append_slot;
      Ok (optional_fixed output (wst_digest <$> witnessed_state))
  | ItemRename item_id prior_descriptor_revision next_descriptor =>
      Ok (push 7 ++ item_id ++ u64be prior_descriptor_revision ++
          DescriptorMetadataV1_canonical_bytes next_descriptor)
  | ItemDelete item_id final_descriptor_digest final_item_revision_hash
      deletion_policy_sequence =>
      Ok (push 8 ++ item_id ++ final_descriptor_digest ++ final_item_revision_hash ++
          u64be deletion_policy_sequence)
  | ItemRoleChange item_id principal_id prior_role next_role =>
      let output := push 9 ++ item_id ++ principal_id in
      let output := optional_u8 output (AccessRole_tag <$> prior_role) in
      Ok (optional_u8 output (AccessRole_tag <$> next_role))
  | ItemReaderSetChange item_id prior_epoch next_epoch prior_reader_ids next_reader_ids
      replacement_descriptor replacement_current_item_revision_hash =>
      output ← pre_list_fixed (push 10 ++ item_id ++ u64be prior_epoch ++ u64be next_epoch)
        prior_reader_ids append_id;
      output ← pre_list_fixed output next_reader_ids append_id;
      Ok (output ++ DescriptorMetadataV1_canonical_bytes replacement_descriptor ++
          replacement_current_item_revision_hash)
  | ItemSlotsReplace item_id next_epoch direct_slots witnessed_state =>
      output ← pre_list_fixed (push 11 ++ item_id ++ u64be next_epoch)
        direct_slots append_slot;
      Ok (optional_fixed output (wst_digest <$> witnessed_state))
  | PrincipalReplace prior_principal_id next_descriptor registration_proof_digest =>
      output ← pre_bytes_field (push 12 ++ prior_principal_id)
        (PrincipalDescriptorV1_canonical_bytes next_descriptor);
      Ok (output ++ registration_proof_digest)
  end.

(** ** Policy and item revisions *)

Definition SignedPolicyRevisionV1_signature_preimage (r : SignedPolicyRevisionV1)
    : result CanonicalError bytes :=
  operations ← mapE PolicyOperationV1_canonical_bytes (pr_operations r);
  output ← pre_list_bytes
    (jce_v1 "jury-v1/policy-revision/signature" ++
     pr_vault_id r ++
     u64be (pr_sequence r) ++
     pr_previous_revision_hash r ++
     u64be (pr_timestamp_ms r) ++
     pr_author_principal_id r) operations;
  Ok (output ++ pr_resulting_policy_state_hash r).

Definition SignedPolicyRevisionV1_hash_preimage (r : SignedPolicyRevisionV1)
    : result CanonicalError bytes :=
  signature_preimage ← SignedPolicyRevisionV1_signature_preimage r;
  output ← pre_bytes_field (jce_v1 "jury-v1/policy-revision/hash") signature_preimage;
  Ok (output ++ pr_signature r).

Definition SignedItemRevisionV1_signature_preimage (r : SignedItemRevisionV1) : bytes :=
  jce_v1 "jury-v1/item-revision/signature" ++
  ir_vault_id r ++
  ir_item_id r ++
  u64be (ir_item_revision r) ++
  ir_previous_item_revision_hash r ++
  u64be (ir_key_epoch r) ++
  u64be (ir_policy_sequence r) ++
  ir_author_principal_id r ++
  u64be (ir_timestamp_ms r) ++
  ir_revision_seal_id r ++
  ir_nonce r ++
  be_bytes 4 (ir_ciphertext_length r) ++
  ir_ciphertext_digest r ++
  push (ir_plaintext_schema r) ++
  push (ir_bucket_id r).

Definition SignedItemRevisionV1_hash_preimage (r : SignedItemRevisionV1)
    : result CanonicalError bytes :=
  output ← pre_bytes_field (jce_v1 "jury-v1/item-revision/hash")
    (SignedItemRevisionV1_signature_preimage r);
  Ok (output ++ ir_signature r).

(** ** Associated data of the stored ciphertexts *)

Definition item_descriptor_aad (vault_id item_id : bytes) (key_epoch revision : N)
    (revision_seal_id : bytes) : bytes :=
  jce_v1 "jury-vault-v1-item-descriptor" ++
  push 1 ++ vault_id ++ item_id ++ u64be key_epoch ++ u64be revision ++ revision_seal_id.

Definition item_body_aad (vault_id item_id : bytes) (key_epoch revision : N)
    (revision_seal_id : bytes) (bucket_id : N) : bytes :=
  jce_v1 "jury-vault-v1-item-body" ++
  push 1 ++ vault_id ++ item_id ++ u64be key_epoch ++ u64be revision ++ revision_seal_id ++
  push bucket_id.

(** ** Digests *)

Section digests.
Context `{Crypto}.

Definition recipient_public_key_fingerprint (key : RecipientPublicKey1216) : Digest32 :=
  sha256 (jce_v1 "jury-v1/recipient-public-bundle/fingerprint" ++ key).

Definition recomputed_context_digest_for_suite (c : WitnessShareCapsuleV1)
    (suite : VaultSuite) : Digest32 :=
  sha256 (WitnessShareCapsuleV1_context_preimage_for_suite c suite).

Definition recomputed_capsule_set_digest (s : WitnessedSlotV1)
    : result CanonicalError Digest32 :=
  sha256 <$> capsule_set_preimage s.

Definition WitnessedSlotV1_recomputed_digest (s : WitnessedSlotV1)
    : result CanonicalError Digest32 :=
  sha256 <$> WitnessedSlotV1_digest_preimage s.

Definition witnessed_slot_set_digest (slots : list WitnessedSlotV1)
    : result CanonicalError Digest32 :=
  sha256 <$> witnessed_slot_set_digest_preimage slots.

Definition WitnessedStateV1_recomputed_digest (s : WitnessedStateV1)
    : result CanonicalError Digest32 :=
  sha256 <$> witnessed_slot_set_digest_preimage (wst_slots s).

Definition PolicyGenesisV1_recomputed_fingerprint (g : PolicyGenesisV1)
    : result CanonicalError Digest32 :=
  sha256 <$> PolicyGenesisV1_fingerprint_preimage g.

Definition SignedPolicyRevisionV1_recomputed_hash (r : SignedPolicyRevisionV1)
    : result CanonicalError Digest32 :=
  sha256 <$> SignedPolicyRevisionV1_hash_preimage r.

Definition SignedItemRevisionV1_recomputed_hash (r : SignedItemRevisionV1)
    : result CanonicalError Digest32 :=
  sha256 <$> SignedItemRevisionV1_hash_preimage r.
End digests.
