(* ===== verification/Text.v ===== *)
(** * Text

    What the source uses of Rust's [char] and [str]: the ASCII classes of a
    byte, and UTF-8. A [str] is the list of its bytes; [chars] reads it as
    Unicode scalar values and fails where [std::str::from_utf8] does. *)

From S2P Require Import Prelude.
Local Open Scope N_scope.

Definition in_range (lo hi : N) (b : byte) : bool := (lo <=? Byte.to_N b) && (Byte.to_N b <=? hi).

Definition is_ascii (b : byte) : bool := Byte.to_N b <=? 127.
Definition is_ascii_digit (b : byte) : bool := in_range 48 57 b.
Definition is_ascii_alphabetic (b : byte) : bool := in_range 65 90 b || in_range 97 122 b.
Definition is_ascii_alphanumeric (b : byte) : bool := is_ascii_alphabetic b || is_ascii_digit b.

(** [u8::to_ascii_lowercase] *)
Definition to_ascii_lowercase (b : byte) : byte :=
  if in_range 65 90 b then byte_of_N (Byte.to_N b + 32) else b.

(** The continuation bytes after a first byte [b]: the range of the first one,
    and how many more follow. *)
Definition utf8_tail (b : byte) : option (N * N * nat) :=
  let n := Byte.to_N b in
  if (194 <=? n) && (n <=? 223) then Some (128, 191, 0%nat)
  else if n =? 224 then Some (160, 191, 1%nat)
  else if n =? 237 then Some (128, 159, 1%nat)
  else if (225 <=? n) && (n <=? 239) then Some (128, 191, 1%nat)
  else if n =? 240 then Some (144, 191, 2%nat)
  else if (241 <=? n) && (n <=? 243) then Some (128, 191, 2%nat)
  else if n =? 244 then Some (128, 143, 2%nat)
  else None.

Definition continuation (acc : N) (b : byte) : N := acc * 64 + N.land (Byte.to_N b) 63.

(** The first scalar value of a string and the bytes after it. *)
Definition utf8_char (bs : bytes) : option (N * bytes) :=
  match bs with
  | [] => None
  | b :: rest =>
      if is_ascii b then Some (Byte.to_N b, rest)
      else
        '(lo, hi, n) ← utf8_tail b;
        match rest with
        | [] => None
        | c :: rest' =>
            let cont := take n rest' in
            if in_range lo hi c && (length cont =? n)%nat && forallb (in_range 128 191) cont
            then Some (fold_left continuation (c :: cont)
                         (N.land (Byte.to_N b) (match n with O => 31 | S O => 15 | _ => 7 end)),
                       drop n rest')
            else None
        end
  end.

Fixpoint chars_fuel (fuel : nat) (bs : bytes) : option (list N) :=
  match bs, fuel with
  | [], _ => Some []
  | _ :: _, O => None
  | _ :: _, S fuel' => '(c, rest) ← utf8_char bs; cs ← chars_fuel fuel' rest; Some (c :: cs)
  end.

(** [str::chars] of a byte string that [from_utf8] accepts. Every character
    takes at least one byte, so the length is fuel enough. *)
Definition chars (bs : bytes) : option (list N) := chars_fuel (length bs) bs.

Definition from_utf8 (bs : bytes) : bool := if chars bs is Some _ then true else false.

(** [char::encode_utf8] *)
Definition encode_utf8 (c : N) : bytes :=
  if c <? 128 then [byte_of_N c]
  else if c <? 2048 then [byte_of_N (192 + c / 64); byte_of_N (128 + c mod 64)]
  else if c <? 65536 then
    [byte_of_N (224 + c / 4096); byte_of_N (128 + c / 64 mod 64); byte_of_N (128 + c mod 64)]
  else [byte_of_N (240 + c / 262144); byte_of_N (128 + c / 4096 mod 64);
        byte_of_N (128 + c / 64 mod 64); byte_of_N (128 + c mod 64)].

Lemma alphanumeric_ascii b : is_ascii_alphanumeric b = true → is_ascii b = true.
Proof. by destruct b. Qed.

Lemma chars_fuel_ascii fuel bs :
  (length bs ≤ fuel)%nat → forallb is_ascii bs = true → chars_fuel fuel bs = Some (Byte.to_N <$> bs).
Proof.
  revert fuel. induction bs as [|b bs IH]; intros [|fuel]; cbn [length forallb]; try done; [lia|].
  intros Hl [Hb Hbs]%andb_true_iff. cbn [chars_fuel utf8_char]. rw Hb /=. rw IH //. lia.
Qed.

(** ASCII text is UTF-8. *)
Lemma from_utf8_ascii bs : forallb is_ascii bs = true → from_utf8 bs = true.
Proof. intros Hb. unfold from_utf8, chars. by rw chars_fuel_ascii. Qed.

(** How many bytes of a string that starts with no character
    [String::from_utf8_lossy] replaces by one U+FFFD: the longest prefix that
    some character starts with, at least one byte. *)
Definition utf8_skip (bs : bytes) : nat :=
  match bs with
  | [] => 0
  | b :: rest =>
      match utf8_tail b, rest with
      | Some (lo, hi, n), c :: rest' =>
          if in_range lo hi c
          then 2 + (if in_range 128 191 (List.hd Byte.x00 rest') then 1 else 0) * Nat.min 1 (n - 1)
          else 1
      | _, _ => 1
      end
  end%nat.

Definition REPLACEMENT_CHARACTER : bytes := [Byte.xef; Byte.xbf; Byte.xbd].

Fixpoint utf8_lossy_fuel (fuel : nat) (bs : bytes) : bytes :=
  match bs, fuel with
  | [], _ | _, O => []
  | _ :: _, S fuel' =>
      match utf8_char bs with
      | Some (_, rest) => take (length bs - length rest) bs ++ utf8_lossy_fuel fuel' rest
      | None => REPLACEMENT_CHARACTER ++ utf8_lossy_fuel fuel' (drop (utf8_skip bs) bs)
      end
  end.

(** [String::from_utf8_lossy] *)
Definition from_utf8_lossy (bs : bytes) : bytes := utf8_lossy_fuel (length bs) bs.

(** Both loops consume at least one byte a round, so more fuel than the length
    makes no difference. *)
Lemma utf8_char_shorter bs c rest : utf8_char bs = Some (c, rest) → (length rest < length bs)%nat.
Proof.
  destruct bs as [|b bs]; [done|]. cbn. destruct (is_ascii b); [intros [= _ <-]; lia|].
  destruct (utf8_tail b) as [[[lo hi] n]|]; [|done]. cbn. destruct bs as [|b' bs]; [done|].
  destruct (_ && _); [|done]. intros [= _ <-]. rewrite -> length_drop. cbn. lia.
Qed.

Lemma utf8_skip_positive b bs : (0 < utf8_skip (b :: bs))%nat.
Proof. cbn. destruct (utf8_tail b) as [[[lo hi] n]|], bs; try lia. destruct (in_range _ _ _); lia. Qed.

Lemma chars_fuel_enough fuel bs : (length bs ≤ fuel)%nat → chars_fuel fuel bs = chars bs.
Proof.
  unfold chars. assert (∀ n m bs, (length bs ≤ n)%nat → (length bs ≤ m)%nat → chars_fuel n bs = chars_fuel m bs) as Hany;
    [|by intros; apply Hany].
  clear. induction n as [|n IH]; intros m bs Hn Hm; [by destruct bs; [destruct m|cbn in Hn; lia]|].
  destruct bs as [|b bs]; [by destruct m|]. destruct m as [|m]; [cbn in Hm; lia|]. cbn [chars_fuel].
  destruct (utf8_char (b :: bs)) as [[c rest]|] eqn:Hc; [|done]. cbn. apply utf8_char_shorter in Hc. cbn in *.
  by rewrite -> (IH m rest) by lia.
Qed.

Lemma utf8_lossy_fuel_enough fuel bs : (length bs ≤ fuel)%nat → utf8_lossy_fuel fuel bs = from_utf8_lossy bs.
Proof.
  unfold from_utf8_lossy.
  assert (∀ n m bs, (length bs ≤ n)%nat → (length bs ≤ m)%nat → utf8_lossy_fuel n bs = utf8_lossy_fuel m bs) as Hany;
    [|by intros; apply Hany].
  clear. induction n as [|n IH]; intros m bs Hn Hm; [by destruct bs; [destruct m|cbn in Hn; lia]|].
  destruct bs as [|b bs]; [by destruct m|]. destruct m as [|m]; [cbn in Hm; lia|]. cbn [utf8_lossy_fuel].
  destruct (utf8_char (b :: bs)) as [[c rest]|] eqn:Hc; f_equal; apply IH.
  1,2: apply utf8_char_shorter in Hc; cbn in *; lia.
  all: pose proof (utf8_skip_positive b bs); rewrite -> length_drop; cbn [length] in *; lia.
Qed.
