(* ===== verification/Json.v ===== *)
(** * JSON

    The printers and the parser of [serde_json] on the types the program derives
    them for, with the documented behaviour the code relies on. A writer is
    handed the text in pieces and may be cut off; [to_vec] is the whole text. *)

From S2P Require Import Prelude.

(** serde_json on a type: the pieces handed to a writer and whether it got to the
    end, and the parser. *)
Class Json (V : Type) := {
  json_pieces : V → list bytes * bool;
  json_parse : bytes → option V;
  json_roundtrip v : (json_pieces v).2 = true → json_parse (concat (json_pieces v).1) = Some v;
}.

(** [serde_json::to_vec] *)
Definition to_vec {V} `{!Json V} (v : V) : option bytes :=
  if (json_pieces v).2 then Some (concat (json_pieces v).1) else None.

Lemma to_vec_parse {V} `{!Json V} (v : V) bs : to_vec v = Some bs → json_parse bs = Some v.
Proof.
  unfold to_vec. destruct (json_pieces v).2 eqn:Hv; [|done]. intros [= <-]. by apply json_roundtrip.
Qed.

(** A newline, the byte [b'\n']. *)
Definition newline : byte := Byte.x0a.

(** The compact printer writes no whitespace and escapes the control characters
    of strings, so its text is one line; it is never empty. *)
Class JsonLine (V : Type) `{!Json V} := {
  json_line (v : V) bs : to_vec v = Some bs → newline ∉ bs;
  json_nonempty (v : V) bs : to_vec v = Some bs → bs ≠ [];
}.

(** [serde_json::to_vec_pretty]; the parser skips the whitespace it adds, and
    whitespace after the document. *)
Class JsonPretty (V : Type) `{!Json V} := {
  to_vec_pretty : V → option bytes;
  pretty_roundtrip v bs : to_vec_pretty v = Some bs → json_parse (bs ++ [newline]) = Some v;
}.
