(* ===== verification/Effects.v ===== *)
(** * Stateful computations that may fail

    A method that takes [&mut self] and returns a [Result] is a function from
    the state to a result and the state it leaves, also when it fails: what was
    written before the error stays written. [wp] is its weakest precondition
    for a postcondition on both. *)

From S2P Require Import Prelude.

Definition eff (E W A : Type) : Type := W → result E A * W.

Section eff.
Context {E W : Type}.

Global Instance eff_ret : MRet (eff E W) := λ A a w, (Ok a, w).

Global Instance eff_bind : MBind (eff E W) := λ A B f m w,
  match m w with (Ok a, w') => f a w' | (Err e, w') => (Err e, w') end.

(** A pure step, Rust's [?] on a [Result]. *)
Definition lift {A} (r : result E A) : eff E W A := λ w, (r, w).

Definition wp {A} (m : eff E W A) (Q : result E A → W → Prop) (w : W) : Prop :=
  Q (m w).1 (m w).2.

Lemma wp_ret {A} (a : A) Q w : Q (Ok a) w → wp (mret a) Q w.
Proof. done. Qed.

Lemma wp_lift {A} (r : result E A) Q w : Q r w → wp (lift r) Q w.
Proof. done. Qed.

Lemma wp_bind {A B} (m : eff E W A) (f : A → eff E W B) Q w :
  wp m (λ r w', match r with Ok a => wp (f a) Q w' | Err e => Q (Err e) w' end) w → wp (m ≫= f) Q w.
Proof. unfold wp, mbind, eff_bind. by destruct (m w) as [[a|e] w']. Qed.

Lemma wp_mono {A} (m : eff E W A) (P Q : result E A → W → Prop) w :
  wp m P w → (∀ r w', P r w' → Q r w') → wp m Q w.
Proof. unfold wp. auto. Qed.

Lemma wp_run {A} (m : eff E W A) Q w r w' : wp m Q w → m w = (r, w') → Q r w'.
Proof. unfold wp. intros HQ Hm. by rewrite -> Hm in HQ. Qed.

Lemma wp_bind_lift {A B} (r : result E A) (f : A → eff E W B) (Q : result E B → W → Prop) w :
  (∀ a, r = Ok a → wp (f a) Q w) → (∀ e, r = Err e → Q (Err e) w) → wp (lift r ≫= f) Q w.
Proof. intros Ha He. apply wp_bind. destruct r; [by apply Ha|by apply He]. Qed.

Lemma wp_bind_mono {A B} (m : eff E W A) (f : A → eff E W B) P (Q : result E B → W → Prop) w :
  wp m P w → (∀ e w', P (Err e) w' → Q (Err e) w') →
  (∀ a w', P (Ok a) w' → wp (f a) Q w') → wp (m ≫= f) Q w.
Proof. intros Hm He Ha. apply wp_bind. eapply wp_mono; [exact Hm|]. intros [a|e] w'; [apply Ha|apply He]. Qed.

(** A run that ends well went through each of its steps. *)
Lemma eff_bind_Ok {A B} (m : eff E W A) (f : A → eff E W B) w b w' :
  (m ≫= f) w = (Ok b, w') ↔ ∃ a w1, m w = (Ok a, w1) ∧ f a w1 = (Ok b, w').
Proof. unfold mbind, eff_bind. destruct (m w) as [[a|e] w1]; naive_solver. Qed.

Lemma lift_Ok {A} (r : result E A) w a w' : lift r w = (Ok a, w') ↔ r = Ok a ∧ w' = w.
Proof. unfold lift. naive_solver. Qed.
End eff.

(** A loop over a list. *)
Fixpoint forM {E W A} (f : A → eff E W unit) (l : list A) : eff E W unit :=
  match l with
  | [] => mret ()
  | x :: l' => f x ≫= λ _, forM f l'
  end.

(** A loop that carries a value. *)
Fixpoint foldM {E W S A} (f : S → A → eff E W S) (s : S) (l : list A) : eff E W S :=
  match l with
  | [] => mret s
  | x :: l' => f s x ≫= λ s', foldM f s' l'
  end.

Lemma wp_foldM {E W S A} (f : S → A → eff E W S) (I : S → W → Prop) (Q : result E S → W → Prop) l s w :
  I s w → (∀ s w, I s w → Q (Ok s) w) →
  (∀ x s w, x ∈ l → I s w → wp (f s x) (λ r w', match r with Ok s' => I s' w' | Err e => Q (Err e) w' end) w) →
  wp (foldM f s l) Q w.
Proof.
  revert s w. induction l as [|x l IH]; intros s w HI HQ Hf; [by apply HQ|].
  cbn [foldM]. apply wp_bind. eapply wp_mono; [apply Hf; [set_solver|done]|].
  intros [s'|e] w' Hs; [|done]. apply IH; [done|done|]. intros. apply Hf; [set_solver|done].
Qed.

(** A computation on a part of the state. *)
Definition zoom {E W W' A} (get : W → W') (set : W' → W → W) (m : eff E W' A) : eff E W A :=
  λ w, let '(r, w') := m (get w) in (r, set w' w).

(** Another error type. *)
Definition map_errM {E E' W A} (f : E → E') (m : eff E W A) : eff E' W A :=
  λ w, let '(r, w') := m w in (map_err f r, w').

(** A call whose error is a value the caller looks at. *)
Definition attempt {E E' W A} (m : eff E W A) : eff E' W (result E A) := λ w,
  let '(r, w') := m w in (Ok r, w').

Lemma map_errM_run {E E' W A} (f : E → E') (m : eff E W A) w a w' :
  map_errM f m w = (Ok a, w') → m w = (Ok a, w').
Proof. unfold map_errM. destruct (m w) as [[b|e] v]; cbn; congruence. Qed.

(** What a computation keeps of the state, however it ends. *)
Definition keeps {E W A} (R : relation W) (m : eff E W A) : Prop := ∀ w, R w (m w).2.

Section keeps.
Context {W : Type} (R : relation W) `{!PreOrder R}.

Lemma keeps_ret {E A} (a : A) : keeps (E := E) R (mret a).
Proof. intros w. by cbn. Qed.

Lemma keeps_lift {E A} (r : result E A) : keeps R (lift r).
Proof. intros w. by cbn. Qed.

Lemma keeps_bind {E A B} (m : eff E W A) (k : A → eff E W B) :
  keeps R m → (∀ a, keeps R (k a)) → keeps R (m ≫= k).
Proof.
  intros Hm Hk w. specialize (Hm w). unfold mbind, eff_bind.
  destruct (m w) as [[a|e] w']; [|done]. etrans; [done|apply Hk].
Qed.

Lemma keeps_map_errM {E E' A} (f : E → E') (m : eff E W A) : keeps R m → keeps R (map_errM f m).
Proof. intros Hm w. specialize (Hm w). unfold map_errM. by destruct (m w). Qed.

Lemma keeps_attempt {E E' A} (m : eff E W A) : keeps R m → keeps (E := E') R (attempt m).
Proof. intros Hm w. specialize (Hm w). unfold attempt. by destruct (m w). Qed.

Lemma keeps_run {E A} (m : eff E W A) w r w' : keeps R m → m w = (r, w') → R w w'.
Proof. intros Hm Hw. specialize (Hm w). by rewrite -> Hw in Hm. Qed.
End keeps.

Lemma keeps_mono {E W A} (R R' : relation W) (m : eff E W A) :
  (∀ w w', R w w' → R' w w') → keeps R m → keeps R' m.
Proof. intros HR Hm w. apply HR, Hm. Qed.

Create HintDb keeps.

(** Computations made of calls that keep a relation. *)
Ltac keeps_tac :=
  repeat (first
    [ solve [eauto 2 with keeps]
    | progress cbn [mbind]
    | apply keeps_bind; [apply _| |intros ?]
    | apply keeps_map_errM | apply keeps_attempt
    | apply keeps_ret; apply _ | apply keeps_lift; apply _
    | case_match | done ]);
  eauto with keeps.
