(* ===== verification/Binding.v ===== *)
(** * What the preimages commit to

    The encoders of [Preimage] are uniquely readable on the values Rust's types
    can hold: equal preimages come from equal values. The [_wt] predicates
    state the lengths and ranges the types promise. What a preimage leaves out
    is explicit: [erase_operation] and [erase_genesis] keep the signed part of
    an operation and of a genesis record. *)

From S2P Require Import Prelude VaultTypes Canonical Preimage.
Local Open Scope jury_scope.

(** ** What Rust's types promise *)

Definition PrincipalDescriptorV1_wt (d : PrincipalDescriptorV1) : bool :=
  u16 (pd_descriptor_version d) && fixed 32 (pd_principal_id d) &&
  fixed 1216 (pd_recipient_public_key d) && fixed 32 (pd_verification_public_key d) &&
  fixed 64 (pd_self_signature d).

Definition DescriptorMetadataV1_wt (d : DescriptorMetadataV1) : bool :=
  u64 (dm_revision d) && fixed 32 (dm_revision_seal_id d) && fixed 12 (dm_nonce d) &&
  u32 (dm_ciphertext_length d) && fixed 32 (dm_ciphertext_digest d) &&
  u8 (dm_plaintext_schema d) && u64 (dm_key_epoch d).

Definition DirectSlotV1_wt (s : DirectSlotV1) : bool :=
  u8 (ds_slot_schema s) && u8 (ds_slot_algorithm s) && u16 (ds_suite s) &&
  u16 (ds_kem s) && u16 (ds_kdf s) && u16 (ds_aead s) && fixed 32 (ds_vault_id s) &&
  fixed 32 (ds_item_id s) && u64 (ds_key_epoch s) && u64 (ds_revision s) &&
  fixed 32 (ds_revision_seal_id s) && fixed 32 (ds_recipient_principal_id s) &&
  u64 (ds_policy_sequence s) && fixed 32 (ds_recipient_public_key_fingerprint s) &&
  fixed 1120 (ds_encapsulation s) && fixed 48 (ds_ciphertext s).

Definition WitnessShareCapsuleV1_wt (c : WitnessShareCapsuleV1) : bool :=
  u16 (wc_capsule_schema c) && u16 (wc_protocol c) && u16 (wc_construction c) &&
  fixed 32 (wc_vault_id c) && fixed 32 (wc_genesis_fingerprint c) &&
  fixed 32 (wc_item_id c) && u64 (wc_key_epoch c) && fixed 32 (wc_slot_id c) &&
  u64 (wc_revision c) && fixed 32 (wc_revision_seal_id c) &&
  u64 (wc_vault_policy_sequence c) && fixed 32 (wc_witness_policy_id c) &&
  u64 (wc_witness_policy_revision c) && fixed 32 (wc_witness_policy_digest c) &&
  u8 (wc_threshold c) && u8 (wc_member_count c) && fixed 32 (wc_witness_id c) &&
  fixed 32 (wc_contribution_key_fingerprint c) && u8 (wc_share_index c) &&
  fixed 32 (wc_context_digest c) && fixed 32 (wc_share_commitment c) &&
  fixed 1120 (wc_encapsulation c) && fixed 49 (wc_ciphertext c).

Definition WitnessedSlotV1_wt (s : WitnessedSlotV1) : bool :=
  u8 (ws_slot_schema s) && u8 (ws_slot_algorithm s) && u16 (ws_suite s) &&
  u16 (ws_protocol s) && u16 (ws_construction s) && fixed 32 (ws_vault_id s) &&
  fixed 32 (ws_genesis_fingerprint s) && fixed 32 (ws_item_id s) &&
  u64 (ws_key_epoch s) && fixed 32 (ws_slot_id s) && u64 (ws_revision s) &&
  fixed 32 (ws_revision_seal_id s) && u64 (ws_vault_policy_sequence s) &&
  fixed 32 (ws_witness_policy_id s) && u64 (ws_witness_policy_revision s) &&
  fixed 32 (ws_witness_policy_digest s) && u8 (ws_threshold s) && u8 (ws_member_count s) &&
  forallb WitnessShareCapsuleV1_wt (ws_capsules s) && fixed 32 (ws_capsule_set_digest s).

Definition witnessed_digest_wt (w : option WitnessedStateV1) : bool :=
  if w is Some s then fixed 32 (wst_digest s) else true.

Definition PolicyOperationV1_wt (op : PolicyOperationV1) : bool :=
  match op with
  | PrincipalAdd d _ proof => PrincipalDescriptorV1_wt d && fixed 32 proof
  | PrincipalLabelChange p _ _ => fixed 32 p
  | PrincipalRemove p _ => fixed 32 p
  | OwnerGrant p => fixed 32 p
  | OwnerRevoke p => fixed 32 p
  | ItemCreate i _ epoch d h slots w =>
      fixed 32 i && u64 epoch && DescriptorMetadataV1_wt d && fixed 32 h &&
      forallb DirectSlotV1_wt slots && witnessed_digest_wt w
  | ItemRename i rev d => fixed 32 i && u64 rev && DescriptorMetadataV1_wt d
  | ItemDelete i d h s => fixed 32 i && fixed 32 d && fixed 32 h && u64 s
  | ItemRoleChange i p _ _ => fixed 32 i && fixed 32 p
  | ItemReaderSetChange i e e' ps qs d h =>
      fixed 32 i && u64 e && u64 e' && forallb (fixed 32) ps && forallb (fixed 32) qs &&
      DescriptorMetadataV1_wt d && fixed 32 h
  | ItemSlotsReplace i e slots w =>
      fixed 32 i && u64 e && forallb DirectSlotV1_wt slots && witnessed_digest_wt w
  | PrincipalReplace p d proof => fixed 32 p && PrincipalDescriptorV1_wt d && fixed 32 proof
  end.

Definition SignedPolicyRevisionV1_wt (r : SignedPolicyRevisionV1) : bool :=
  fixed 32 (pr_vault_id r) && u64 (pr_sequence r) && fixed 32 (pr_previous_revision_hash r) &&
  u64 (pr_timestamp_ms r) && fixed 32 (pr_author_principal_id r) &&
  forallb PolicyOperationV1_wt (pr_operations r) &&
  fixed 32 (pr_resulting_policy_state_hash r) && fixed 64 (pr_signature r).

Definition SignedRolloverV1_wt (s : SignedRolloverV1) : bool :=
  u16 (sr_rollover_format s) && fixed 32 (sr_rollover_id s) &&
  fixed 32 (sr_source_vault_id s) && fixed 32 (sr_source_genesis_fingerprint s) &&
  fixed 32 (sr_terminal_source_revision_hash s) && fixed 32 (sr_destination_vault_id s) &&
  u16 (sr_destination_suite s) && fixed 32 (sr_bootstrap_manifest_digest s) &&
  fixed 32 (sr_acting_owner_principal_id s) && fixed 64 (sr_signature s).

Definition SourceAttestationV1_wt (a : SourceAttestationV1) : bool :=
  match a with
  | LegacyMigration f m d t => u16 f && fixed 32 m && fixed 32 d && fixed 32 t
  | Rollover s => SignedRolloverV1_wt s
  end.

Definition PolicyGenesisV1_wt (g : PolicyGenesisV1) : bool :=
  fixed 32 (pg_vault_id g) && u64 (pg_policy_sequence g) &&
  fixed 32 (pg_previous_policy_hash g) && u64 (pg_created_at_ms g) && u16 (pg_suite g) &&
  PrincipalDescriptorV1_wt (pg_owner g) &&
  (if pg_source_attestation g is Some a then SourceAttestationV1_wt a else true) &&
  fixed 64 (pg_owner_signature g).

Definition SignedItemRevisionV1_wt (r : SignedItemRevisionV1) : bool :=
  fixed 32 (ir_vault_id r) && fixed 32 (ir_item_id r) && u64 (ir_item_revision r) &&
  fixed 32 (ir_previous_item_revision_hash r) && u64 (ir_key_epoch r) &&
  u64 (ir_policy_sequence r) && fixed 32 (ir_author_principal_id r) &&
  u64 (ir_timestamp_ms r) && fixed 32 (ir_revision_seal_id r) && fixed 12 (ir_nonce r) &&
  u32 (ir_ciphertext_length r) && fixed 32 (ir_ciphertext_digest r) &&
  u8 (ir_plaintext_schema r) && u8 (ir_bucket_id r) && fixed 64 (ir_signature r).

(** ** The signed part of a value *)

(** An operation's preimage holds the digest of the witnessed state, not its
    slots. *)
Definition erase_witnessed (w : option WitnessedStateV1) : option WitnessedStateV1 :=
  (λ s, {| wst_slots := []; wst_digest := wst_digest s |}) <$> w.

Definition erase_operation (op : PolicyOperationV1) : PolicyOperationV1 :=
  match op with
  | ItemCreate i k e d h slots w => ItemCreate i k e d h slots (erase_witnessed w)
  | ItemSlotsReplace i e slots w => ItemSlotsReplace i e slots (erase_witnessed w)
  | op => op
  end.

Definition erase_revision (r : SignedPolicyRevisionV1) : SignedPolicyRevisionV1 := {|
  pr_vault_id := pr_vault_id r;
  pr_sequence := pr_sequence r;
  pr_previous_revision_hash := pr_previous_revision_hash r;
  pr_timestamp_ms := pr_timestamp_ms r;
  pr_author_principal_id := pr_author_principal_id r;
  pr_operations := erase_operation <$> pr_operations r;
  pr_resulting_policy_state_hash := pr_resulting_policy_state_hash r;
  pr_signature := pr_signature r;
|}.

(** A rollover statement is signed without the opened manifest. *)
Definition erase_rollover (s : SignedRolloverV1) : SignedRolloverV1 := {|
  sr_rollover_format := sr_rollover_format s;
  sr_rollover_id := sr_rollover_id s;
  sr_source_vault_id := sr_source_vault_id s;
  sr_source_genesis_fingerprint := sr_source_genesis_fingerprint s;
  sr_terminal_source_revision_hash := sr_terminal_source_revision_hash s;
  sr_destination_vault_id := sr_destination_vault_id s;
  sr_destination_suite := sr_destination_suite s;
  sr_bootstrap_manifest_digest := sr_bootstrap_manifest_digest s;
  sr_bootstrap_manifest := None;
  sr_acting_owner_principal_id := sr_acting_owner_principal_id s;
  sr_signature := sr_signature s;
|}.

Definition erase_attestation (a : SourceAttestationV1) : SourceAttestationV1 :=
  match a with Rollover s => Rollover (erase_rollover s) | a => a end.

(** A genesis record is signed without its suite. *)
Definition erase_genesis (g : PolicyGenesisV1) : PolicyGenesisV1 := {|
  pg_vault_id := pg_vault_id g;
  pg_policy_sequence := pg_policy_sequence g;
  pg_previous_policy_hash := pg_previous_policy_hash g;
  pg_created_at_ms := pg_created_at_ms g;
  pg_suite := 0;
  pg_owner := pg_owner g;
  pg_source_attestation := erase_attestation <$> pg_source_attestation g;
  pg_item_inventory := [];
  pg_direct_grants := [];
  pg_owner_signature := pg_owner_signature g;
|}.

Definition set_suite (suite : N) (g : PolicyGenesisV1) : PolicyGenesisV1 := {|
  pg_vault_id := pg_vault_id g;
  pg_policy_sequence := pg_policy_sequence g;
  pg_previous_policy_hash := pg_previous_policy_hash g;
  pg_created_at_ms := pg_created_at_ms g;
  pg_suite := suite;
  pg_owner := pg_owner g;
  pg_source_attestation := pg_source_attestation g;
  pg_item_inventory := pg_item_inventory g;
  pg_direct_grants := pg_direct_grants g;
  pg_owner_signature := pg_owner_signature g;
|}.

(** ** Reading fields *)

Lemma PrincipalKind_tag_inj k k' : PrincipalKind_tag k = PrincipalKind_tag k' → k = k'.
Proof. by destruct k, k'. Qed.
Lemma ItemKind_tag_inj k k' : ItemKind_tag k = ItemKind_tag k' → k = k'.
Proof. by destruct k, k'. Qed.
Lemma ContentRole_tag_inj k k' : ContentRole_tag k = ContentRole_tag k' → k = k'.
Proof. by destruct k, k'. Qed.
Lemma AccessRole_tag_inj k k' : AccessRole_tag k = AccessRole_tag k' → k = k'.
Proof. by destruct k, k'. Qed.
Lemma ItemAccessMode_tag_inj k k' : ItemAccessMode_tag k = ItemAccessMode_tag k' → k = k'.
Proof. by destruct k, k'. Qed.
Lemma RemovalReason_tag_inj k k' : RemovalReason_tag k = RemovalReason_tag k' → k = k'.
Proof. by destruct k, k'. Qed.

Lemma PrincipalKind_tag_u8 k : u8 (PrincipalKind_tag k) = true.
Proof. by destruct k. Qed.
Lemma ItemKind_tag_u8 k : u8 (ItemKind_tag k) = true.
Proof. by destruct k. Qed.
Lemma ContentRole_tag_u8 k : u8 (ContentRole_tag k) = true.
Proof. by destruct k. Qed.
Lemma AccessRole_tag_u8 k : u8 (AccessRole_tag k) = true.
Proof. by destruct k. Qed.
Lemma ItemAccessMode_tag_u8 k : u8 (ItemAccessMode_tag k) = true.
Proof. by destruct k. Qed.
Lemma RemovalReason_tag_u8 k : u8 (RemovalReason_tag k) = true.
Proof. by destruct k. Qed.

#[export] Hint Resolve PrincipalKind_tag_u8 ItemKind_tag_u8 ContentRole_tag_u8
  AccessRole_tag_u8 ItemAccessMode_tag_u8 RemovalReason_tag_u8 : jury.
#[export] Hint Immediate PrincipalKind_tag_inj ItemKind_tag_inj ContentRole_tag_inj
  AccessRole_tag_inj ItemAccessMode_tag_inj RemovalReason_tag_inj : jury.

(** Reads the first field off an equation between two buffers. *)
Ltac peel_step :=
  match goal with
  | H : push _ ++ _ = push _ ++ _ |- _ =>
      apply peel_u8 in H as [? H]; [|by auto with jury..]
  | H : u16be _ ++ _ = u16be _ ++ _ |- _ =>
      apply peel_u16 in H as [? H]; [|assumption..]
  | H : u64be _ ++ _ = u64be _ ++ _ |- _ =>
      apply peel_u64 in H as [? H]; [|assumption..]
  | H : be_bytes 4 _ ++ _ = be_bytes 4 _ ++ _ |- _ =>
      apply peel_u32 in H as [? H]; [|assumption..]
  | Ha : fixed ?n ?a = true, Hb : fixed ?n ?b = true, H : ?a ++ _ = ?b ++ _ |- _ =>
      apply (peel_fixed n) in H as [? H]; [|assumption..]
  end.
Ltac peel_all H := rewrite <- ?app_assoc in H; repeat peel_step.

Ltac peel_record x y :=
  split; [|done]; destruct x, y; cbn in *; f_equal; auto with jury.

Lemma pinj_PrincipalDescriptorV1 :
  pinj (λ d, PrincipalDescriptorV1_wt d = true) PrincipalDescriptorV1_canonical_bytes.
Proof.
  intros x y r s Hx Hy Heq. unfold PrincipalDescriptorV1_wt in *. to_prop.
  unfold PrincipalDescriptorV1_canonical_bytes, PrincipalDescriptorV1_canonical_body in Heq.
  peel_all Heq. peel_record x y.
Qed.

Lemma pinj_DescriptorMetadataV1 :
  pinj (λ d, DescriptorMetadataV1_wt d = true) DescriptorMetadataV1_canonical_bytes.
Proof.
  intros x y r s Hx Hy Heq. unfold DescriptorMetadataV1_wt in *. to_prop.
  unfold DescriptorMetadataV1_canonical_bytes in Heq. peel_all Heq. peel_record x y.
Qed.

Lemma pinj_DirectSlotV1 :
  pinj (λ s, DirectSlotV1_wt s = true) DirectSlotV1_canonical_bytes.
Proof.
  intros x y r s Hx Hy Heq. unfold DirectSlotV1_wt in *. to_prop.
  unfold DirectSlotV1_canonical_bytes in Heq. peel_all Heq. peel_record x y.
Qed.

Lemma pinj_WitnessShareCapsuleV1 :
  pinj (λ c, WitnessShareCapsuleV1_wt c = true) WitnessShareCapsuleV1_canonical_bytes.
Proof.
  intros x y r s Hx Hy Heq. unfold WitnessShareCapsuleV1_wt in *. to_prop.
  unfold WitnessShareCapsuleV1_canonical_bytes, WitnessShareCapsuleV1_context_fields in Heq.
  peel_all Heq. peel_record x y.
Qed.

(** ** Operations *)

Lemma pre_bytes_field_Ok output value o :
  pre_bytes_field output value = Ok o →
  fits_u32 value = true ∧ o = output ++ field_chunk value.
Proof. unfold pre_bytes_field. by rw map_err_Ok bytes_field_Ok. Qed.

Lemma pre_list_bytes_Ok output values o :
  pre_list_bytes output values = Ok o →
  (u32 (len values) = true ∧ Forall (λ v, fits_u32 v = true) values) ∧
  o = output ++ list_chunk field_chunk values.
Proof. unfold pre_list_bytes. rw map_err_Ok list_bytes_Ok. naive_solver. Qed.

Lemma pre_list_slots_Ok output slots o :
  pre_list_fixed output slots append_slot = Ok o →
  u32 (len slots) = true ∧ o = output ++ list_chunk DirectSlotV1_canonical_bytes slots.
Proof. unfold pre_list_fixed. by rw map_err_Ok (list_fixed_Ok DirectSlotV1_canonical_bytes). Qed.

Lemma pre_list_ids_Ok output ids o :
  pre_list_fixed output ids append_id = Ok o →
  u32 (len ids) = true ∧ o = output ++ list_chunk id ids.
Proof. unfold pre_list_fixed. by rw map_err_Ok (list_fixed_Ok id). Qed.

Lemma pre_optional_bytes_Ok output value o :
  pre_optional_bytes output value = Ok o →
  (if value is Some v then fits_u32 v else true) = true ∧
  o = output ++ option_chunk field_chunk value.
Proof. unfold pre_optional_bytes. by rw map_err_Ok optional_bytes_Ok. Qed.

Lemma optional_fixed_chunk output value :
  optional_fixed output value = output ++ option_chunk id value.
Proof. by destruct value. Qed.

Lemma optional_u8_chunk output value :
  optional_u8 output value = output ++ option_chunk push value.
Proof. by destruct value. Qed.

(** Replaces the outcome of an encoder by what it appended. *)
Ltac inv_enc :=
  repeat (repeat inv_ok_step; match goal with
  | H : pre_bytes_field _ _ = Ok _ |- _ => apply pre_bytes_field_Ok in H as [? ->]
  | H : pre_list_bytes _ _ = Ok _ |- _ => apply pre_list_bytes_Ok in H as [[? ?] ->]
  | H : pre_list_fixed _ _ append_slot = Ok _ |- _ => apply pre_list_slots_Ok in H as [? ->]
  | H : pre_list_fixed _ _ append_id = Ok _ |- _ => apply pre_list_ids_Ok in H as [? ->]
  | H : pre_optional_bytes _ _ = Ok _ |- _ => apply pre_optional_bytes_Ok in H as [? ->]
  end); repeat inv_ok_step.

Lemma pinj_fixed n : pinj (λ b, fixed n b = true) id.
Proof. intros x y r s Hx Hy Heq. by eapply peel_fixed in Heq. Qed.

Lemma peel_slots l k r s :
  list_chunk DirectSlotV1_canonical_bytes l ++ r = list_chunk DirectSlotV1_canonical_bytes k ++ s →
  u32 (len l) = true → u32 (len k) = true →
  forallb DirectSlotV1_wt l = true → forallb DirectSlotV1_wt k = true → l = k ∧ r = s.
Proof.
  rw !forallb_eq_true. intros Heq ????.
  by apply (pinj_list _ _ pinj_DirectSlotV1) in Heq.
Qed.

Lemma peel_ids l k r s :
  list_chunk id l ++ r = list_chunk id k ++ s →
  u32 (len l) = true → u32 (len k) = true →
  forallb (fixed 32) l = true → forallb (fixed 32) k = true → l = k ∧ r = s.
Proof.
  rw !forallb_eq_true. intros Heq ????.
  by apply (pinj_list _ _ (pinj_fixed 32)) in Heq.
Qed.

Lemma peel_witnessed_digest v w r s :
  option_chunk id (wst_digest <$> v) ++ r = option_chunk id (wst_digest <$> w) ++ s →
  witnessed_digest_wt v = true → witnessed_digest_wt w = true →
  erase_witnessed v = erase_witnessed w ∧ r = s.
Proof.
  intros Heq Hv Hw. apply (pinj_option _ _ (pinj_fixed 32)) in Heq as [Heq ->].
  - split; [|done]. destruct v, w; simplify_eq/=; congruence.
  - by destruct v.
  - by destruct w.
Qed.

Lemma peel_role v w r s :
  option_chunk push (AccessRole_tag <$> v) ++ r = option_chunk push (AccessRole_tag <$> w) ++ s →
  v = w ∧ r = s.
Proof. by destruct v as [[]|], w as [[]|]; simpl; intros [= ->]. Qed.

(** The operation tag, the first byte of an encoded operation. *)
Definition operation_tag (op : PolicyOperationV1) : N :=
  match op with
  | PrincipalAdd _ _ _ => 1
  | PrincipalLabelChange _ _ _ => 2
  | PrincipalRemove _ _ => 3
  | OwnerGrant _ => 4
  | OwnerRevoke _ => 5
  | ItemCreate _ _ _ _ _ _ _ => 6
  | ItemRename _ _ _ => 7
  | ItemDelete _ _ _ _ => 8
  | ItemRoleChange _ _ _ _ => 9
  | ItemReaderSetChange _ _ _ _ _ _ _ => 10
  | ItemSlotsReplace _ _ _ _ => 11
  | PrincipalReplace _ _ _ => 12
  end.

Lemma operation_bytes_tag op o :
  PolicyOperationV1_canonical_bytes op = Ok o → ∃ r, o = push (operation_tag op) ++ r.
Proof.
  destruct op; simpl; intros H; inv_enc;
    rw ?optional_fixed_chunk ?optional_u8_chunk; rewrite <- ?app_assoc; eauto.
Qed.

Lemma peel_field a b r s :
  field_chunk a ++ r = field_chunk b ++ s →
  fits_u32 a = true → fits_u32 b = true → a = b ∧ r = s.
Proof. intros Heq ??. by apply pinj_field in Heq. Qed.

Ltac peel_op_step :=
  match goal with
  | _ => peel_step
  | H : push ?n ++ _ = push ?n ++ _ |- _ => apply app_inv_head in H
  | H : jce_v1 ?d ++ _ = jce_v1 ?d ++ _ |- _ => apply app_inv_head in H
  | H : field_chunk _ ++ _ = field_chunk _ ++ _ |- _ =>
      apply peel_field in H as [? H]; [|assumption..]
  | H : DescriptorMetadataV1_canonical_bytes _ ++ _ =
        DescriptorMetadataV1_canonical_bytes _ ++ _ |- _ =>
      apply pinj_DescriptorMetadataV1 in H as [? H]; [|assumption..]
  | H : list_chunk DirectSlotV1_canonical_bytes _ ++ _ = _ |- _ =>
      apply peel_slots in H as [? H]; [|assumption..]
  | H : list_chunk id _ ++ _ = _ |- _ => apply peel_ids in H as [? H]; [|assumption..]
  | H : option_chunk id (wst_digest <$> _) ++ _ = _ |- _ =>
      apply peel_witnessed_digest in H as [? H]; [|assumption..]
  | H : option_chunk push (AccessRole_tag <$> _) ++ _ = _ |- _ =>
      apply peel_role in H as [? H]
  | H : PrincipalDescriptorV1_canonical_bytes _ = PrincipalDescriptorV1_canonical_bytes _ |- _ =>
      apply (pinj_inj _ _ _ _ pinj_PrincipalDescriptorV1) in H; [|assumption..]
  end.

(** Equal buffers, each followed by nothing. *)
Ltac peel_op H :=
  apply (f_equal (λ b, b ++ [])) in H; cbv beta in H;
  rw ?optional_fixed_chunk ?optional_u8_chunk in H;
  rewrite <- ?app_assoc in H; repeat peel_op_step.

Lemma operation_bytes_inj op1 op2 o1 o2 :
  PolicyOperationV1_wt op1 = true → PolicyOperationV1_wt op2 = true →
  PolicyOperationV1_canonical_bytes op1 = Ok o1 →
  PolicyOperationV1_canonical_bytes op2 = Ok o2 →
  o1 = o2 → erase_operation op1 = erase_operation op2.
Proof.
  intros Hw1 Hw2 H1 H2 Heq.
  assert (operation_tag op1 = operation_tag op2) as Htag.
  { apply operation_bytes_tag in H1 as [r1 ->], H2 as [r2 ->].
    apply peel_u8 in Heq as [-> _]; [done|by destruct op1|by destruct op2]. }
  revert Heq.
  destruct op1, op2; cbn [operation_tag] in Htag; try discriminate Htag; clear Htag;
    cbn [PolicyOperationV1_wt PolicyOperationV1_canonical_bytes] in *; to_prop; inv_enc;
    intros Heq; peel_op Heq; cbn [erase_operation]; f_equal; auto with jury.
Qed.

(** ** Revisions, genesis and lineage *)

Lemma operations_bytes_inj ops1 ops2 os :
  forallb PolicyOperationV1_wt ops1 = true → forallb PolicyOperationV1_wt ops2 = true →
  mapE PolicyOperationV1_canonical_bytes ops1 = Ok os →
  mapE PolicyOperationV1_canonical_bytes ops2 = Ok os →
  erase_operation <$> ops1 = erase_operation <$> ops2.
Proof.
  rw !forallb_eq_true !mapE_Ok. intros Hw1 Hw2 H1. revert ops2 Hw2.
  induction H1 as [|op1 o ops1 os Hop1 _ IH]; intros ops2 Hw2; inversion 1; subst; [done|].
  inversion_clear Hw1. inversion_clear Hw2. rw !fmap_cons. f_equal; [|by apply IH].
  by eapply operation_bytes_inj.
Qed.

(** The fields of two records agree, hence the records. *)
Ltac by_fields :=
  repeat match goal with r : SignedPolicyRevisionV1 |- _ => destruct r end;
  unfold erase_revision; cbn in *; congruence.

Lemma revision_preimage_inj r1 r2 p1 p2 :
  SignedPolicyRevisionV1_wt r1 = true → SignedPolicyRevisionV1_wt r2 = true →
  SignedPolicyRevisionV1_hash_preimage r1 = Ok p1 →
  SignedPolicyRevisionV1_hash_preimage r2 = Ok p2 →
  p1 = p2 → erase_revision r1 = erase_revision r2.
Proof.
  unfold SignedPolicyRevisionV1_wt, SignedPolicyRevisionV1_hash_preimage.
  intros Hw1 Hw2 H1 H2. to_prop. inv_enc. intros Heq. peel_op Heq.
  unfold SignedPolicyRevisionV1_signature_preimage in *. inv_enc.
  match goal with H : _ ++ pr_resulting_policy_state_hash r1 = _ |- _ => rename H into Hs end.
  apply (f_equal (λ b, b ++ [])) in Hs; cbv beta in Hs. rewrite <- ?app_assoc in Hs.
  repeat peel_op_step.
  match goal with H : list_chunk field_chunk _ ++ _ = _ |- _ =>
    apply (pinj_list _ _ pinj_field) in H as [-> Hs']; [|by split..] end.
  repeat peel_op_step. assert (erase_operation <$> pr_operations r1 = erase_operation <$> pr_operations r2)
    by by eapply operations_bytes_inj.
  by_fields.
Qed.

Lemma attestation_bytes_inj a1 a2 o1 o2 :
  SourceAttestationV1_wt a1 = true → SourceAttestationV1_wt a2 = true →
  SourceAttestationV1_canonical_bytes a1 = Ok o1 →
  SourceAttestationV1_canonical_bytes a2 = Ok o2 →
  o1 = o2 → erase_attestation a1 = erase_attestation a2.
Proof.
  destruct a1 as [|s1], a2 as [|s2];
    cbn [SourceAttestationV1_wt SourceAttestationV1_canonical_bytes erase_attestation];
    intros Hw1 Hw2 H1 H2; unfold SignedRolloverV1_wt in *; to_prop; inv_enc; intros Heq.
  - peel_op Heq. by f_equal.
  - rewrite <- ?app_assoc in Heq. by apply peel_u8 in Heq as [? _].
  - rewrite <- ?app_assoc in Heq. by apply peel_u8 in Heq as [? _].
  - peel_op Heq. unfold SignedRolloverV1_signature_preimage in *.
    match goal with H : jce_v1 _ ++ _ = _ |- _ => rename H into Hs end.
    peel_op Hs. f_equal. destruct s1, s2; unfold erase_rollover; cbn in *; congruence.
Qed.

Lemma source_bytes_inj (a1 a2 : option SourceAttestationV1) o1 o2 :
  (if a1 is Some a then SourceAttestationV1_wt a else true) = true →
  (if a2 is Some a then SourceAttestationV1_wt a else true) = true →
  match a1 with None => Ok None | Some a => Some <$> SourceAttestationV1_canonical_bytes a end = Ok o1 →
  match a2 with None => Ok None | Some a => Some <$> SourceAttestationV1_canonical_bytes a end = Ok o2 →
  o1 = o2 → erase_attestation <$> a1 = erase_attestation <$> a2.
Proof.
  destruct a1, a2; intros ?? H1 H2; inv_enc; try done.
  intros Heq. simplify_eq. simpl. f_equal. by eapply attestation_bytes_inj.
Qed.

Lemma peel_optional_field (v w : option bytes) r s :
  option_chunk field_chunk v ++ r = option_chunk field_chunk w ++ s →
  (if v is Some b then fits_u32 b else true) = true →
  (if w is Some b then fits_u32 b else true) = true → v = w ∧ r = s.
Proof.
  intros Heq Hv Hw. apply (pinj_option _ _ pinj_field) in Heq; [done|by destruct v|by destruct w].
Qed.

Lemma genesis_preimage_inj g1 g2 p1 p2 :
  PolicyGenesisV1_wt g1 = true → PolicyGenesisV1_wt g2 = true →
  PolicyGenesisV1_fingerprint_preimage g1 = Ok p1 →
  PolicyGenesisV1_fingerprint_preimage g2 = Ok p2 →
  p1 = p2 → erase_genesis g1 = erase_genesis g2.
Proof.
  unfold PolicyGenesisV1_wt, PolicyGenesisV1_fingerprint_preimage.
  intros Hw1 Hw2 H1 H2. to_prop. inv_enc. intros Heq. peel_op Heq.
  unfold PolicyGenesisV1_signature_preimage in *. inv_enc.
  match goal with H : _ ++ be_bytes 4 0 ++ be_bytes 4 0 = _ |- _ => rename H into Hs end.
  peel_op Hs.
  match goal with H : option_chunk field_chunk _ ++ _ = _ |- _ =>
    apply peel_optional_field in H as [? _]; [|done..] end.
  assert (erase_attestation <$> pg_source_attestation g1 =
          erase_attestation <$> pg_source_attestation g2)
    by by eapply source_bytes_inj.
  destruct g1, g2; unfold erase_genesis; cbn in *; congruence.
Qed.

(** Whatever the suite, a genesis record has the same signed bytes. *)
Lemma genesis_preimage_suite suite g :
  PolicyGenesisV1_fingerprint_preimage (set_suite suite g) =
  PolicyGenesisV1_fingerprint_preimage g.
Proof. done. Qed.

Lemma jce_prefix_distinct d1 d2 r s :
  Byte.x00 ∉ str d1 → Byte.x00 ∉ str d2 → str d1 ≠ str d2 → jce_v1 d1 ++ r ≠ jce_v1 d2 ++ s.
Proof. intros H1 H2 Hne Heq. by apply jce_v1_domain_inj in Heq as [? _]. Qed.

Lemma genesis_revision_distinct g r p q :
  PolicyGenesisV1_fingerprint_preimage g = Ok p →
  SignedPolicyRevisionV1_hash_preimage r = Ok q → p ≠ q.
Proof.
  unfold PolicyGenesisV1_fingerprint_preimage, SignedPolicyRevisionV1_hash_preimage.
  intros Hg Hr. inv_enc. rewrite <- !app_assoc.
  apply jce_prefix_distinct; vm_compute; [set_solver..|done].
Qed.

(** A journal's records are linked by their hashes: from the genesis
    fingerprint through each revision's [previous_revision_hash] to the
    terminal hash. *)
Section lineage.
Context `{Crypto}.

Inductive linked (h : Digest32) : list SignedPolicyRevisionV1 → Digest32 → Prop :=
  | linked_nil : linked h [] h
  | linked_snoc revs h1 r h2 :
      linked h revs h1 →
      pr_previous_revision_hash r = h1 →
      SignedPolicyRevisionV1_recomputed_hash r = Ok h2 →
      linked h (revs ++ [r]) h2.

Definition journal_linked (j : PolicyJournalV1) (terminal : Digest32) : Prop :=
  ∃ fingerprint, PolicyGenesisV1_recomputed_fingerprint (pj_genesis j) = Ok fingerprint ∧
    linked fingerprint (pj_revisions j) terminal.

(** The strings a journal's chain hashes. *)
Definition journal_preimages (j : PolicyJournalV1) : list bytes :=
  omap (λ r : result CanonicalError bytes, if r is Ok p then Some p else None)
    (PolicyGenesisV1_fingerprint_preimage (pj_genesis j) ::
     (SignedPolicyRevisionV1_hash_preimage <$> pj_revisions j)).

Definition collision_free (ps : list bytes) : Prop :=
  ∀ p q, p ∈ ps → q ∈ ps → sha256 p = sha256 q → p = q.

Definition PolicyJournalV1_wt (j : PolicyJournalV1) : bool :=
  PolicyGenesisV1_wt (pj_genesis j) && forallb SignedPolicyRevisionV1_wt (pj_revisions j).

Definition erase_journal (j : PolicyJournalV1) : PolicyJournalV1 := {|
  pj_genesis := erase_genesis (pj_genesis j);
  pj_revisions := erase_revision <$> pj_revisions j;
|}.

Lemma elem_of_journal_preimages j p :
  p ∈ journal_preimages j ↔
  PolicyGenesisV1_fingerprint_preimage (pj_genesis j) = Ok p ∨
  ∃ r, r ∈ pj_revisions j ∧ SignedPolicyRevisionV1_hash_preimage r = Ok p.
Proof.
  unfold journal_preimages. rw list_elem_of_omap. setoid_rewrite elem_of_cons.
  setoid_rewrite list_elem_of_fmap. split.
  - intros (x & [->|(r & -> & Hr)] & Hx); [left|right; exists r]; case_match; naive_solver.
  - intros [Hg|(r & Hr & Hp)]; [exists (Ok p)|exists (Ok p)]; naive_solver.
Qed.

Lemma linked_inv h revs t :
  linked h revs t →
  (revs = [] ∧ t = h) ∨
  ∃ revs' r p, revs = revs' ++ [r] ∧ linked h revs' (pr_previous_revision_hash r) ∧
    SignedPolicyRevisionV1_hash_preimage r = Ok p ∧ t = sha256 p.
Proof.
  destruct 1 as [|revs h1 r h2 Hl <- Hr]; [by left|right].
  unfold SignedPolicyRevisionV1_recomputed_hash in Hr. inv_ok. naive_solver.
Qed.

(** Two chains with the same end have the same records, when no two of the
    strings they hash collide. *)
Lemma linked_inj g1 g2 p1 p2 revs1 revs2 t (ps : list bytes) :
  PolicyGenesisV1_fingerprint_preimage g1 = Ok p1 →
  PolicyGenesisV1_fingerprint_preimage g2 = Ok p2 →
  forallb SignedPolicyRevisionV1_wt revs1 = true →
  forallb SignedPolicyRevisionV1_wt revs2 = true →
  linked (sha256 p1) revs1 t → linked (sha256 p2) revs2 t →
  collision_free ps → p1 ∈ ps → p2 ∈ ps →
  (∀ r p, r ∈ revs1 ∨ r ∈ revs2 → SignedPolicyRevisionV1_hash_preimage r = Ok p → p ∈ ps) →
  p1 = p2 ∧ erase_revision <$> revs1 = erase_revision <$> revs2.
Proof.
  intros Hg1 Hg2 Hw1 Hw2 Hl1 Hl2 Hcf Hp1 Hp2. revert revs2 t Hw1 Hw2 Hl1 Hl2.
  induction revs1 as [|r1 revs1 IH] using rev_ind; intros revs2 t Hw1 Hw2 Hl1 Hl2 Hin.
  - apply linked_inv in Hl1 as [[_ ->]|(? & ? & ? & Heq & _)];
      [|by destruct (app_cons_not_nil _ _ _ Heq)].
    apply linked_inv in Hl2 as [[-> Ht]|(revs2' & r2 & q2 & -> & _ & Hq2 & Ht)].
    { split; [by apply Hcf|done]. }
    apply Hcf in Ht; [|done|eapply Hin; [|done]; set_solver].
    by destruct (genesis_revision_distinct _ _ _ _ Hg1 Hq2).
  - apply linked_inv in Hl1 as [[Heq _]|(revs1' & r1' & q1 & Heq & Hl1 & Hq1 & ->)];
      [by destruct (app_cons_not_nil revs1 [] r1)|].
    apply app_inj_tail in Heq as [<- <-].
    apply linked_inv in Hl2 as [[-> Ht]|(revs2' & r2 & q2 & -> & Hl2 & Hq2 & Ht)].
    { apply Hcf in Ht; [|eapply Hin; [|done]; set_solver|done].
      by destruct (genesis_revision_distinct _ _ _ _ Hg2 Hq1). }
    apply Hcf in Ht; [|eapply Hin; [|done]; set_solver..].
    rw !forallb_app in Hw1 Hw2. simpl in *. to_prop.
    assert (erase_revision r1 = erase_revision r2) as Hr by by eapply revision_preimage_inj.
    replace (pr_previous_revision_hash r1) with (pr_previous_revision_hash r2) in Hl1
      by exact (eq_sym (f_equal pr_previous_revision_hash Hr)).
    destruct (IH revs2' _ ltac:(done) ltac:(done) Hl1 Hl2) as [? Hrevs].
    { intros r p Hr' Hp. eapply Hin; [|done]. set_solver. }
    split; [done|]. rw !fmap_app Hrevs /=. by rw Hr.
Qed.

(** The terminal hash of a well linked journal commits to all of it. *)
Lemma journal_linked_inj j1 j2 t :
  PolicyJournalV1_wt j1 = true → PolicyJournalV1_wt j2 = true →
  journal_linked j1 t → journal_linked j2 t →
  collision_free (journal_preimages j1 ++ journal_preimages j2) →
  erase_journal j1 = erase_journal j2.
Proof.
  unfold PolicyJournalV1_wt, PolicyGenesisV1_recomputed_fingerprint.
  intros Hw1 Hw2 (f1 & Hf1 & Hl1) (f2 & Hf2 & Hl2) Hcf. to_prop.
  unfold PolicyGenesisV1_recomputed_fingerprint in *. inv_ok. subst.
  destruct (linked_inj (pj_genesis j1) (pj_genesis j2) r0 r (pj_revisions j1) (pj_revisions j2)
    t (journal_preimages j1 ++ journal_preimages j2)) as [Hp Hrevs]; try done.
  - apply elem_of_app. left. apply elem_of_journal_preimages. by left.
  - apply elem_of_app. right. apply elem_of_journal_preimages. by left.
  - intros r1 p [Hin|Hin] Hp; apply elem_of_app; [left|right];
      apply elem_of_journal_preimages; eauto.
  - unfold erase_journal. f_equal; [|done]. by eapply genesis_preimage_inj.
Qed.
End lineage.
