(* ===== verification/Rollover.v ===== *)
(** * The rollover bootstrap manifest

    [crates/jury-protocol/src/rollover_v1.rs]: the shape check of a manifest,
    its canonical encoding and digest, and
    [PolicyGenesisV1::permits_empty_rollover_bootstrap] of [vault_v1.rs].

    The encoding has optional fields without a presence byte; the theorems show
    that the version field that precedes them makes it injective all the same,
    so that the digest in a signed rollover statement commits to one manifest. *)

From S2P Require Import Prelude VaultTypes Canonical Preimage Binding.
Local Open Scope jury_scope.

Definition MAX_VAULT_BYTES : N := 16 * 1024 * 1024.
Definition MAX_ITEMS : N := 1024.
Definition MAX_PUBLIC_LABEL_BYTES : N := 256.

Inductive FormatError :=
  | FE_ArtifactTooLarge
  | FE_ConflictMarker
  | FE_InvalidJson
  | FE_NonCanonicalJson
  | FE_CapacityExhausted (what : string)
  | FE_Invalid (what : string)
  | FE_CanonicalEncoding.

Definition invalid : FormatError := FE_Invalid "rollover bootstrap manifest differs".

Definition count (output : bytes) (length : N) : result FormatError bytes :=
  if u32 length then Ok (output ++ be_bytes 4 length) else Err invalid.

Definition record (output value : bytes) : result FormatError bytes :=
  reject_if (MAX_VAULT_BYTES <? saturating_add_u64 (saturating_add_u64 (len output) 4) (len value))%N
    FE_ArtifactTooLarge;;
  output ← count output (len value);
  Ok (output ++ value).

(** ** The shape of a manifest *)

Definition supported_suites (m : BootstrapManifestV1) : bool :=
  match bm_version m, bm_source_suite m, bm_destination_suite m with
  | 1%N, None, 1%N => true
  | 2%N, Some 1%N, 1%N | 2%N, Some 1%N, 2%N => true
  | 2%N, Some 2%N, 2%N => true
  | _, _, _ => false
  end.

Definition bad_source_revision (version : N) (entry : BootstrapWitnessPolicyV1) : bool :=
  match version with
  | 1%N => if bwp_source_policy_revision entry is Some _ then true else false
  | 2%N => negb (if bwp_source_policy_revision entry is Some revision then 0 <? revision else false)%N
  | _ => true
  end.

Definition grant_step (principals : gmap PrincipalId BootstrapPrincipalV1)
    (item : BootstrapItemV1) (owners : gset PrincipalId) (grant : BootstrapGrantV1)
    : result FormatError (gset PrincipalId) :=
  principal ← ok_or (principals !! bg_principal_id grant) invalid;
  reject_if
    (negb (Bool.eqb (bp_owner principal) (bg_role grant ==? AR_Owner)) ||
     (negb (bg_direct grant) && (if bi_witnessed item is Some _ then false else true)) ||
     ((bi_item_kind item ==? IK_Legacy) && negb (bp_owner principal))) invalid;;
  Ok (if bp_owner principal then {[bp_principal_id principal]} ∪ owners else owners).

Record manifest_scan := {
  scan_new_items : gset ItemId;
  scan_slots : gset SlotId;
  scan_used_policies : gset WitnessPolicyId;
}.

Definition item_step (principals : gmap PrincipalId BootstrapPrincipalV1)
    (old_items : gset ItemId) (new_policies : gset WitnessPolicyId) (owner_count : N)
    (st : manifest_scan) (item : BootstrapItemV1) : result FormatError manifest_scan :=
  reject_if
    ((bi_destination_item_id item ∈? old_items) ||
     (bi_destination_item_id item ∈? scan_new_items st) ||
     (dm_revision (bi_descriptor item) !=? 1%N) ||
     (dm_key_epoch (bi_descriptor item) !=? 1%N) ||
     (dm_plaintext_schema (bi_descriptor item) !=? 1%N) ||
     (dm_ciphertext_length (bi_descriptor item) !=? 272%N) ||
     (N.of_nat (size principals) <? len (bi_grants item))%N ||
     negb (sorted_by_key bg_principal_id (bi_grants item))) invalid;;
  let new_items := {[bi_destination_item_id item]} ∪ scan_new_items st in
  owners ← foldE (grant_step principals item) ∅ (bi_grants item);
  reject_if (N.of_nat (size owners) !=? owner_count) invalid;;
  match bi_witnessed item with
  | Some witnessed =>
      let slots := {[bw_descriptor_slot_id witnessed]} ∪ scan_slots st in
      reject_if
        ((bw_policy_id witnessed ∉? new_policies) ||
         (bw_descriptor_slot_id witnessed ∈? scan_slots st) ||
         (bw_body_slot_id witnessed ∈? slots)) invalid;;
      Ok {| scan_new_items := new_items;
            scan_slots := {[bw_body_slot_id witnessed]} ∪ slots;
            scan_used_policies := {[bw_policy_id witnessed]} ∪ scan_used_policies st |}
  | None =>
      Ok {| scan_new_items := new_items;
            scan_slots := scan_slots st;
            scan_used_policies := scan_used_policies st |}
  end.

Definition validate_shape (m : BootstrapManifestV1) : result FormatError unit :=
  reject_if
    (negb (supported_suites m) ||
     (bm_principals m ==? []) ||
     (MAX_VAULT_BYTES / 66 <? len (bm_principals m))%N ||
     (MAX_ITEMS <? len (bm_items m))%N ||
     (len (bm_items m) <? len (bm_witness_policies m))%N ||
     negb (sorted_by_key bp_principal_id (bm_principals m)) ||
     negb (sorted_by_key bi_source_item_id (bm_items m)) ||
     negb (sorted_by_key (λ e, (bwp_source_policy_id e, bwp_source_policy_revision e))
             (bm_witness_policies m)) ||
     existsb (bad_source_revision (bm_version m)) (bm_witness_policies m)) invalid;;
  let principals := collect_map ((λ e, (bp_principal_id e, e)) <$> bm_principals m) in
  reject_if
    (negb (if principals !! bm_acting_owner_principal_id m is Some entry
           then bp_owner entry else false) ||
     existsb (λ e, (bp_display_label e ==? []) ||
                   (MAX_PUBLIC_LABEL_BYTES <? len (bp_display_label e))%N)
       (bm_principals m)) invalid;;
  let old_items := collect_set (bi_source_item_id <$> bm_items m) in
  let old_policies := collect_set (bwp_source_policy_id <$> bm_witness_policies m) in
  let new_policies := collect_set (bwp_destination_policy_id <$> bm_witness_policies m) in
  reject_if
    ((N.of_nat (size new_policies) !=? len (bm_witness_policies m)) ||
     negb (bool_decide (new_policies ## old_policies))) invalid;;
  let owner_count := len (List.filter bp_owner (bm_principals m)) in
  st ← foldE (item_step principals old_items new_policies owner_count)
         {| scan_new_items := ∅; scan_slots := ∅; scan_used_policies := ∅ |} (bm_items m);
  reject_if (scan_used_policies st !=? new_policies) invalid.

(** ** The canonical encoding *)

Definition bool_tag (b : bool) : N := if b then 1%N else 0%N.

Definition principal_record (output : bytes) (p : BootstrapPrincipalV1) : result FormatError bytes :=
  entry ← record (bp_principal_id p ++ bp_unsigned_descriptor_digest p) (bp_display_label p);
  record output (entry ++ push (bool_tag (bp_owner p))).

Definition grant_record (entry : bytes) (g : BootstrapGrantV1) : result FormatError bytes :=
  record entry (bg_principal_id g ++ push (AccessRole_tag (bg_role g)) ++
                push (bool_tag (bg_direct g))).

Definition item_record (output : bytes) (item : BootstrapItemV1) : result FormatError bytes :=
  entry ← record (bi_source_item_id item ++ bi_destination_item_id item ++
                  push (ItemKind_tag (bi_item_kind item)))
            (DescriptorMetadataV1_canonical_bytes (bi_descriptor item));
  entry ← count (entry ++ bi_initial_item_revision_hash item ++ bi_direct_slot_set_digest item)
            (len (bi_grants item));
  entry ← foldE grant_record entry (bi_grants item);
  let entry :=
    match bi_witnessed item with
    | Some witnessed =>
        entry ++ push 1 ++ bw_policy_id witnessed ++ bw_descriptor_slot_id witnessed ++
        bw_body_slot_id witnessed
    | None => entry ++ push 0
    end in
  record output entry.

Definition policy_record (output : bytes) (p : BootstrapWitnessPolicyV1) : result FormatError bytes :=
  record output
    (bwp_source_policy_id p ++
     (if bwp_source_policy_revision p is Some revision then u64be revision else []) ++
     bwp_destination_policy_id p ++ bwp_intent_digest p).

Definition BootstrapManifestV1_canonical_bytes (m : BootstrapManifestV1)
    : result FormatError bytes :=
  validate_shape m;;
  let output := jce_v1 "jury-v1/rollover/bootstrap" ++
    u16be (bm_version m) ++
    (if bm_source_suite m is Some source_suite then u16be source_suite else []) ++
    u16be (bm_destination_suite m) ++
    bm_destination_vault_id m ++
    u64be (bm_created_at_ms m) ++
    bm_acting_owner_principal_id m in
  output ← count output (len (bm_principals m));
  output ← foldE principal_record output (bm_principals m);
  output ← count output (len (bm_items m));
  output ← foldE item_record output (bm_items m);
  output ← count output (len (bm_witness_policies m));
  output ← foldE policy_record output (bm_witness_policies m);
  reject_if (MAX_VAULT_BYTES <? len output)%N FE_ArtifactTooLarge;;
  Ok output.

Section digest.
Context `{Crypto}.

Definition BootstrapManifestV1_digest (m : BootstrapManifestV1) : result FormatError Digest32 :=
  sha256 <$> BootstrapManifestV1_canonical_bytes m.

Definition permits_empty_rollover_bootstrap (g : PolicyGenesisV1) : bool :=
  match pg_source_attestation g with
  | Some (Rollover statement) =>
      match sr_bootstrap_manifest statement with
      | None => false
      | Some manifest =>
          (bm_items manifest ==? []) &&
          (bm_witness_policies manifest ==? []) &&
          match bm_principals manifest with
          | [principal] =>
              (bp_principal_id principal ==? pd_principal_id (pg_owner g)) &&
              bp_owner principal &&
              (bp_display_label principal ==? str "owner") &&
              (bm_destination_vault_id manifest ==? pg_vault_id g) &&
              (bm_destination_suite manifest ==? pg_suite g) &&
              (bm_created_at_ms manifest ==? pg_created_at_ms g) &&
              (bm_acting_owner_principal_id manifest ==? pd_principal_id (pg_owner g)) &&
              (if BootstrapManifestV1_digest manifest is Ok d
               then d ==? sr_bootstrap_manifest_digest statement else false) &&
              (bp_unsigned_descriptor_digest principal ==?
               sha256 (self_signature_preimage (pg_owner g)))
          | _ => false
          end
      end
  | _ => false
  end.
End digest.

(** ** The encoding is injective *)

Definition BootstrapPrincipalV1_wt (p : BootstrapPrincipalV1) : bool :=
  fixed 32 (bp_principal_id p) && fixed 32 (bp_unsigned_descriptor_digest p).

Definition BootstrapGrantV1_wt (g : BootstrapGrantV1) : bool := fixed 32 (bg_principal_id g).

Definition BootstrapWitnessedItemV1_wt (w : BootstrapWitnessedItemV1) : bool :=
  fixed 32 (bw_policy_id w) && fixed 32 (bw_descriptor_slot_id w) && fixed 32 (bw_body_slot_id w).

Definition BootstrapItemV1_wt (i : BootstrapItemV1) : bool :=
  fixed 32 (bi_source_item_id i) && fixed 32 (bi_destination_item_id i) &&
  DescriptorMetadataV1_wt (bi_descriptor i) && fixed 32 (bi_initial_item_revision_hash i) &&
  fixed 32 (bi_direct_slot_set_digest i) && forallb BootstrapGrantV1_wt (bi_grants i) &&
  (if bi_witnessed i is Some w then BootstrapWitnessedItemV1_wt w else true).

Definition BootstrapWitnessPolicyV1_wt (p : BootstrapWitnessPolicyV1) : bool :=
  fixed 32 (bwp_source_policy_id p) &&
  (if bwp_source_policy_revision p is Some n then u64 n else true) &&
  fixed 32 (bwp_destination_policy_id p) && fixed 32 (bwp_intent_digest p).

Definition BootstrapManifestV1_wt (m : BootstrapManifestV1) : bool :=
  u16 (bm_version m) && (if bm_source_suite m is Some n then u16 n else true) &&
  u16 (bm_destination_suite m) && fixed 32 (bm_destination_vault_id m) &&
  u64 (bm_created_at_ms m) && fixed 32 (bm_acting_owner_principal_id m) &&
  forallb BootstrapPrincipalV1_wt (bm_principals m) && forallb BootstrapItemV1_wt (bm_items m) &&
  forallb BootstrapWitnessPolicyV1_wt (bm_witness_policies m).

(** A record's bytes, without the length limits. *)
Definition principal_entry (p : BootstrapPrincipalV1) : bytes :=
  bp_principal_id p ++ bp_unsigned_descriptor_digest p ++ field_chunk (bp_display_label p) ++
  push (bool_tag (bp_owner p)).

Definition grant_entry (g : BootstrapGrantV1) : bytes :=
  bg_principal_id g ++ push (AccessRole_tag (bg_role g)) ++ push (bool_tag (bg_direct g)).

Definition witnessed_entry (w : BootstrapWitnessedItemV1) : bytes :=
  bw_policy_id w ++ bw_descriptor_slot_id w ++ bw_body_slot_id w.

Definition item_entry (i : BootstrapItemV1) : bytes :=
  bi_source_item_id i ++ bi_destination_item_id i ++ push (ItemKind_tag (bi_item_kind i)) ++
  field_chunk (DescriptorMetadataV1_canonical_bytes (bi_descriptor i)) ++
  bi_initial_item_revision_hash i ++ bi_direct_slot_set_digest i ++
  list_chunk (λ g, field_chunk (grant_entry g)) (bi_grants i) ++
  option_chunk witnessed_entry (bi_witnessed i).

Definition policy_entry (p : BootstrapWitnessPolicyV1) : bytes :=
  bwp_source_policy_id p ++
  (if bwp_source_policy_revision p is Some revision then u64be revision else []) ++
  bwp_destination_policy_id p ++ bwp_intent_digest p.

Lemma count_Ok output n o :
  count output n = Ok o → u32 n = true ∧ o = output ++ be_bytes 4 n.
Proof. unfold count. destruct (u32 n); naive_solver. Qed.

Lemma record_Ok output value o :
  record output value = Ok o → fits_u32 value = true ∧ o = output ++ field_chunk value.
Proof.
  unfold record, field_chunk, fits_u32. intros H. inv_ok.
  apply count_Ok in Hr0 as [? ->]. by rewrite <- app_assoc.
Qed.

Lemma foldE_chunks {E A} (f : bytes → A → result E bytes) (e : A → bytes) (P : A → Prop) l output o :
  (∀ output x o, x ∈ l → f output x = Ok o → P x ∧ o = output ++ e x) →
  foldE f output l = Ok o → Forall P l ∧ o = output ++ concat (e <$> l).
Proof.
  revert output. induction l as [|x l IH]; intros output Hf Hl; simpl in *.
  { inv_ok. by rw app_nil_r. }
  inv_ok. apply Hf in Hr as [HP ->]; [|set_solver].
  apply IH in Hl as [? ->]; [|intros ????; eapply Hf; set_solver].
  rewrite <- app_assoc. auto.
Qed.

Ltac inv_rec :=
  repeat (repeat inv_ok_step; match goal with
  | H : record _ _ = Ok _ |- _ => apply record_Ok in H as [? ->]
  | H : count _ _ = Ok _ |- _ => apply count_Ok in H as [? ->]
  end); repeat inv_ok_step.

Lemma principal_record_Ok output p o :
  principal_record output p = Ok o →
  (fits_u32 (principal_entry p) = true ∧ fits_u32 (bp_display_label p) = true) ∧
  o = output ++ field_chunk (principal_entry p).
Proof.
  unfold principal_record, principal_entry. intros H. inv_rec. by rewrite -> !app_assoc in *.
Qed.

Lemma grant_record_Ok output g o :
  grant_record output g = Ok o →
  fits_u32 (grant_entry g) = true ∧ o = output ++ field_chunk (grant_entry g).
Proof. apply record_Ok. Qed.

Lemma policy_record_Ok output p o :
  policy_record output p = Ok o →
  fits_u32 (policy_entry p) = true ∧ o = output ++ field_chunk (policy_entry p).
Proof. apply record_Ok. Qed.

Definition item_fits (i : BootstrapItemV1) : Prop :=
  fits_u32 (item_entry i) = true ∧
  fits_u32 (DescriptorMetadataV1_canonical_bytes (bi_descriptor i)) = true ∧
  u32 (len (bi_grants i)) = true ∧ Forall (λ g, fits_u32 (grant_entry g) = true) (bi_grants i).

Lemma item_record_Ok output i o :
  item_record output i = Ok o → item_fits i ∧ o = output ++ field_chunk (item_entry i).
Proof.
  unfold item_record, item_fits. intros H. inv_rec.
  match goal with H : foldE grant_record _ _ = Ok _ |- _ =>
    apply (foldE_chunks _ _ _ _ _ _ (λ output g o _, grant_record_Ok output g o)) in H as [? ->] end.
  match goal with H : fits_u32 ?x = true |- context [field_chunk ?x] =>
    replace x with (item_entry i) in * end; [done|].
  unfold item_entry, option_chunk, witnessed_entry, list_chunk.
  destruct (bi_witnessed i); by rewrite <- !app_assoc.
Qed.

Lemma bool_tag_inj a b : bool_tag a = bool_tag b → a = b.
Proof. by destruct a, b. Qed.

Lemma bool_tag_u8 b : u8 (bool_tag b) = true.
Proof. by destruct b. Qed.

#[local] Hint Resolve bool_tag_u8 : jury.
#[local] Hint Immediate bool_tag_inj : jury.

(** A record is read back when its entry is. *)
Lemma pinj_record {A} (P : A → Prop) (e : A → bytes) :
  (∀ x y, P x → P y → e x = e y → x = y) →
  pinj (λ x, P x ∧ fits_u32 (e x) = true) (λ x, field_chunk (e x)).
Proof.
  intros He x y r s [Hx ?] [Hy ?] Heq. apply peel_field in Heq as [? ->]; [|done..].
  split; [by apply He|done].
Qed.

Lemma principal_entry_inj p q :
  BootstrapPrincipalV1_wt p = true ∧ fits_u32 (bp_display_label p) = true →
  BootstrapPrincipalV1_wt q = true ∧ fits_u32 (bp_display_label q) = true →
  principal_entry p = principal_entry q → p = q.
Proof.
  unfold BootstrapPrincipalV1_wt, principal_entry. intros [? ?] [? ?] Heq. to_prop.
  peel_op Heq. destruct p, q; cbn in *; f_equal; auto with jury.
Qed.

Lemma grant_entry_inj p q :
  BootstrapGrantV1_wt p = true → BootstrapGrantV1_wt q = true →
  grant_entry p = grant_entry q → p = q.
Proof.
  unfold BootstrapGrantV1_wt, grant_entry. intros ?? Heq.
  peel_op Heq. destruct p, q; cbn in *; f_equal; auto with jury.
Qed.

Lemma pinj_witnessed_entry :
  pinj (λ w, BootstrapWitnessedItemV1_wt w = true) witnessed_entry.
Proof.
  intros x y r s Hx Hy Heq. unfold BootstrapWitnessedItemV1_wt, witnessed_entry in *. to_prop.
  peel_all Heq. peel_record x y.
Qed.

Lemma item_entry_inj x y :
  BootstrapItemV1_wt x = true ∧ item_fits x → BootstrapItemV1_wt y = true ∧ item_fits y →
  item_entry x = item_entry y → x = y.
Proof.
  unfold BootstrapItemV1_wt, item_fits, item_entry.
  intros (Hx & _ & ? & ? & Hgx) (Hy & _ & ? & ? & Hgy) Heq. to_prop. to_forall.
  peel_op Heq.
  apply (pinj_list _ _ (pinj_record _ _ grant_entry_inj)) in Heq as [? Heq];
    [|by rw Forall_and..].
  apply (pinj_option _ _ pinj_witnessed_entry) in Heq as [? _];
    [|by destruct (bi_witnessed x)|by destruct (bi_witnessed y)].
  match goal with H : DescriptorMetadataV1_canonical_bytes _ = _ |- _ =>
    apply (pinj_inj _ _ _ _ pinj_DescriptorMetadataV1) in H; [|done..] end.
  destruct x, y; cbn in *; f_equal; auto with jury.
Qed.

(** The version says whether a source revision is present. *)
Lemma policy_entry_inj version x y :
  BootstrapWitnessPolicyV1_wt x = true ∧ bad_source_revision version x = false →
  BootstrapWitnessPolicyV1_wt y = true ∧ bad_source_revision version y = false →
  policy_entry x = policy_entry y → x = y.
Proof.
  unfold BootstrapWitnessPolicyV1_wt, policy_entry, bad_source_revision.
  intros [? Hx] [? Hy] Heq. to_prop.
  destruct (bwp_source_policy_revision x) as [n|] eqn:Ex,
    (bwp_source_policy_revision y) as [k|] eqn:Ey;
    try (by repeat case_match); cbv beta iota in *; cbn [app] in Heq;
    peel_op Heq; destruct x, y; cbn in *; congruence.
Qed.

(** What the shape check says about a manifest's head fields. *)
Lemma validate_shape_head m u :
  validate_shape m = Ok u →
  supported_suites m = true ∧
  Forall (λ p, bad_source_revision (bm_version m) p = false) (bm_witness_policies m).
Proof.
  unfold validate_shape. intros H. inv_ok. to_prop. split; [done|]. by to_forall.
Qed.

Definition manifest_fits (m : BootstrapManifestV1) : Prop :=
  (u32 (len (bm_principals m)) = true ∧
   Forall (λ p, (BootstrapPrincipalV1_wt p = true ∧ fits_u32 (bp_display_label p) = true) ∧
                fits_u32 (principal_entry p) = true) (bm_principals m)) ∧
  (u32 (len (bm_items m)) = true ∧
   Forall (λ i, (BootstrapItemV1_wt i = true ∧ item_fits i) ∧
                fits_u32 (item_entry i) = true) (bm_items m)) ∧
  (u32 (len (bm_witness_policies m)) = true ∧
   Forall (λ p, (BootstrapWitnessPolicyV1_wt p = true ∧
                 bad_source_revision (bm_version m) p = false) ∧
                fits_u32 (policy_entry p) = true) (bm_witness_policies m)).

Lemma manifest_bytes_Ok m o :
  BootstrapManifestV1_wt m = true → BootstrapManifestV1_canonical_bytes m = Ok o →
  (supported_suites m = true ∧ manifest_fits m) ∧
  o = jce_v1 "jury-v1/rollover/bootstrap" ++ u16be (bm_version m) ++
    (if bm_source_suite m is Some source_suite then u16be source_suite else []) ++
    u16be (bm_destination_suite m) ++ bm_destination_vault_id m ++ u64be (bm_created_at_ms m) ++
    bm_acting_owner_principal_id m ++
    list_chunk (λ p, field_chunk (principal_entry p)) (bm_principals m) ++
    list_chunk (λ i, field_chunk (item_entry i)) (bm_items m) ++
    list_chunk (λ p, field_chunk (policy_entry p)) (bm_witness_policies m).
Proof.
  unfold BootstrapManifestV1_wt, BootstrapManifestV1_canonical_bytes.
  intros Hw H. to_prop. to_forall. inv_rec.
  match goal with H : validate_shape _ = _ |- _ => apply validate_shape_head in H as [? ?] end.
  repeat match goal with
  | H : foldE principal_record _ _ = Ok _ |- _ =>
    apply (foldE_chunks _ _ _ _ _ _ (λ output p o _, principal_record_Ok output p o)) in H as [? ->]
  | H : foldE item_record _ _ = Ok _ |- _ =>
    apply (foldE_chunks _ _ _ _ _ _ (λ output p o _, item_record_Ok output p o)) in H as [? ->]
  | H : foldE policy_record _ _ = Ok _ |- _ =>
    apply (foldE_chunks _ _ _ _ _ _ (λ output p o _, policy_record_Ok output p o)) in H as [? ->]
  end.
  split; [|by unfold list_chunk; rewrite <- !app_assoc].
  split; [done|]. unfold manifest_fits, item_fits in *. rw !Forall_and.
  repeat match goal with H : Forall (λ _, _ ∧ _) _ |- _ => apply Forall_and in H as [? ?] end.
  tauto.
Qed.

(** Equal versions and a supported combination make the optional source suite
    present in both manifests or in neither. *)
Lemma supported_suites_source m1 m2 :
  supported_suites m1 = true → supported_suites m2 = true → bm_version m1 = bm_version m2 →
  is_Some (bm_source_suite m1) ↔ is_Some (bm_source_suite m2).
Proof.
  unfold supported_suites. intros H1 H2 Heq. rw Heq in H1.
  destruct (bm_source_suite m1), (bm_source_suite m2); try done; repeat case_match; done.
Qed.

Lemma peel_source_suite (a b : option N) r s :
  (if a is Some n then u16be n else []) ++ r = (if b is Some n then u16be n else []) ++ s →
  (if a is Some n then u16 n else true) = true → (if b is Some n then u16 n else true) = true →
  is_Some a ↔ is_Some b → a = b ∧ r = s.
Proof.
  destruct a as [a|], b as [b|]; intros Heq Ha Hb Hs; try (by destruct Hs; naive_solver).
  apply peel_u16 in Heq as [-> ->]; done.
Qed.

(** A rollover bootstrap manifest's canonical bytes, and so its digest up to
    SHA-256 collisions, determine the manifest: two manifests Rust's types can
    hold that encode to the same bytes are equal, although the source suite and
    the source policy revisions are written without presence bytes. *)
Theorem manifest_bytes_inj m1 m2 o :
  BootstrapManifestV1_wt m1 = true → BootstrapManifestV1_wt m2 = true →
  BootstrapManifestV1_canonical_bytes m1 = Ok o →
  BootstrapManifestV1_canonical_bytes m2 = Ok o → m1 = m2.
Proof.
  intros Hw1 Hw2 H1 H2.
  apply manifest_bytes_Ok in H1 as [[Hs1 (Hp1 & Hi1 & Hq1)] ->]; [|done].
  apply manifest_bytes_Ok in H2 as [[Hs2 (Hp2 & Hi2 & Hq2)] Heq]; [|done].
  unfold BootstrapManifestV1_wt in *. to_prop. peel_op Heq.
  match goal with H : bm_version m1 = bm_version m2 |- _ => rename H into Hv end.
  apply peel_source_suite in Heq as [? Heq]; [|done..|by apply supported_suites_source].
  repeat peel_op_step. rw Hv in Hq1.
  apply (pinj_list _ _ (pinj_record _ _ principal_entry_inj)) in Heq as [? Heq]; [|done..].
  apply (pinj_list _ _ (pinj_record _ _ item_entry_inj)) in Heq as [? Heq]; [|done..].
  apply (pinj_list _ _ (pinj_record _ _ (policy_entry_inj (bm_version m2)))) in Heq as [? _];
    [|done..].
  destruct m1, m2; cbn in *; congruence.
Qed.
