(* ===== verification/RolloverShape.v ===== *)
(** * What an accepted rollover manifest describes

    [BootstrapManifestV1::validate_shape] in terms of the new lineage: fresh
    item, policy and slot identifiers, a complete set of owner grants on every
    item, and no witness policy that no item uses. *)

From S2P Require Import Prelude VaultTypes Canonical Preimage Binding Rollover.
Local Open Scope jury_scope.

(** The slot identifiers of an item, in the order they are claimed. *)
Definition item_slot_ids (i : BootstrapItemV1) : list SlotId :=
  if bi_witnessed i is Some w then [bw_descriptor_slot_id w; bw_body_slot_id w] else [].

Definition item_policies (i : BootstrapItemV1) : list WitnessPolicyId :=
  if bi_witnessed i is Some w then [bw_policy_id w] else [].

Definition owner_ids (m : BootstrapManifestV1) : list PrincipalId :=
  bp_principal_id <$> List.filter bp_owner (bm_principals m).

Definition principal_map (m : BootstrapManifestV1) : gmap PrincipalId BootstrapPrincipalV1 :=
  collect_map ((λ e, (bp_principal_id e, e)) <$> bm_principals m).

Lemma principal_map_Some m p e :
  principal_map m !! p = Some e → e ∈ bm_principals m ∧ bp_principal_id e = p.
Proof. by intros (e' & [= -> ->] & Hin)%collect_map_Some%list_elem_of_fmap. Qed.

(** ** Grants *)

(** A grant of a listed principal, with the owner role exactly for owners, and
    usable through a direct slot or the item's witnesses. *)
Definition grant_ok (m : BootstrapManifestV1) (i : BootstrapItemV1) (g : BootstrapGrantV1) : Prop :=
  ∃ e, e ∈ bm_principals m ∧ bp_principal_id e = bg_principal_id g ∧
    (bg_role g = AR_Owner ↔ bp_owner e = true) ∧
    (bg_direct g = true ∨ is_Some (bi_witnessed i)) ∧
    (bi_item_kind i = IK_Legacy → bp_owner e = true).

Lemma grant_step_ok m i owners g owners' :
  grant_step (principal_map m) i owners g = Ok owners' →
  grant_ok m i g ∧ ((owners' = owners ∧ bg_role g ≠ AR_Owner) ∨
    (owners' = {[bg_principal_id g]} ∪ owners ∧ bg_role g = AR_Owner ∧ bg_principal_id g ∈ owner_ids m)).
Proof.
  unfold grant_step. intros Hg. repeat inv_ok_step. to_prop.
  match goal with Hx : principal_map m !! _ = Some ?x |- _ =>
    apply principal_map_Some in Hx as [Hin Hid]; rename x into e end.
  match goal with Hx : Bool.eqb _ _ = true |- _ => apply Bool.eqb_prop in Hx as Hrole end.
  split.
  - exists e. split_and!; try done.
    + rw Hrole. by rw bool_decide_eq_true.
    + destruct (bg_direct g); [by left|right]. cbn in *. by destruct (bi_witnessed i).
    + intros Hk. match goal with Hx : _ && negb (bp_owner e) = false |- _ =>
        rw bool_decide_true // in Hx; cbn in Hx; by to_prop end.
  - rw Hrole. case_bool_decide as Hr; [right|by left]. rw Hid. split_and!; try done.
    rw -Hid. apply list_elem_of_fmap_2. apply list_elem_of_In, filter_In.
    split; [by apply list_elem_of_In|]. by rw Hrole.
Qed.

Lemma grants_scan_ok m i grants owners owners' :
  foldE (grant_step (principal_map m) i) owners grants = Ok owners' →
  Forall (grant_ok m i) grants ∧
  ∀ p, p ∈ owners' → p ∈ owners ∨
    (p ∈ owner_ids m ∧ ∃ g, g ∈ grants ∧ bg_principal_id g = p ∧ bg_role g = AR_Owner).
Proof.
  revert owners. induction grants as [|g grants IH]; intros owners; cbn [foldE].
  { intros <-%Ok_inj. split; [done|]. auto. }
  intros (o1 & [Hg Hor]%grant_step_ok & [Hgs Ho]%IH)%bind_Ok. split; [by constructor|].
  intros p [Hp|(? & g' & ? & ? & ?)]%Ho; [|right; split; [done|]; exists g'; set_solver].
  destruct Hor as [[-> _]|(-> & Hr & Hin)]; [by left|].
  apply elem_of_union in Hp as [->%elem_of_singleton|?]; [right|by left].
  split; [done|]. exists g. set_solver.
Qed.

(** ** Items *)

Record item_shaped (m : BootstrapManifestV1) (i : BootstrapItemV1) : Prop := {
  is_fresh : bi_destination_item_id i ∉ bi_source_item_id <$> bm_items m;
  is_first : dm_revision (bi_descriptor i) = 1%N ∧ dm_key_epoch (bi_descriptor i) = 1%N;
  is_grants : NoDup (bg_principal_id <$> bi_grants i) ∧ Forall (grant_ok m i) (bi_grants i);
  is_owned : ∀ e, e ∈ bm_principals m → bp_owner e = true →
    ∃ g, g ∈ bi_grants i ∧ bg_principal_id g = bp_principal_id e ∧ bg_role g = AR_Owner;
  is_policies : ∀ p, p ∈ item_policies i → p ∈ bwp_destination_policy_id <$> bm_witness_policies m;
}.

Lemma owner_ids_NoDup m : NoDup (bp_principal_id <$> bm_principals m) → NoDup (owner_ids m).
Proof.
  unfold owner_ids. induction (bm_principals m) as [|e l IH]; cbn; [constructor|].
  intros [Hn Hl]%NoDup_cons. destruct (bp_owner e); cbn; [constructor|]; auto.
  intros (e' & He & Hin)%list_elem_of_fmap. apply Hn. rw He. apply list_elem_of_fmap_2.
  apply list_elem_of_In in Hin. apply filter_In in Hin as [? _]. by apply list_elem_of_In.
Qed.

Definition scanned (m : BootstrapManifestV1) (pre : list BootstrapItemV1) (st : manifest_scan) : Prop :=
  scan_new_items st = list_to_set (bi_destination_item_id <$> pre) ∧
  NoDup (bi_destination_item_id <$> pre) ∧
  scan_slots st = list_to_set (pre ≫= item_slot_ids) ∧ NoDup (pre ≫= item_slot_ids) ∧
  scan_used_policies st = list_to_set (pre ≫= item_policies) ∧
  Forall (item_shaped m) pre.

Section scan.
Context (m : BootstrapManifestV1).
Hypothesis principals_NoDup : NoDup (bp_principal_id <$> bm_principals m).

Let old_items : gset ItemId := collect_set (bi_source_item_id <$> bm_items m).
Let new_policies : gset WitnessPolicyId :=
  collect_set (bwp_destination_policy_id <$> bm_witness_policies m).
Let owner_count : N := len (List.filter bp_owner (bm_principals m)).

(** Counting the granted owners is enough to know that none is missing. *)
Lemma owners_complete i (owners : gset PrincipalId) :
  foldE (grant_step (principal_map m) i) ∅ (bi_grants i) = Ok owners →
  N.of_nat (size owners) = owner_count →
  ∀ e, e ∈ bm_principals m → bp_owner e = true →
    ∃ g, g ∈ bi_grants i ∧ bg_principal_id g = bp_principal_id e ∧ bg_role g = AR_Owner.
Proof.
  intros [_ Ho]%grants_scan_ok Hsize e He Hown.
  assert (owners = list_to_set (owner_ids m)) as Heq.
  { apply set_subseteq_size_eq.
    - intros p [?|[? _]]%Ho; [set_solver|by apply elem_of_list_to_set].
    - rw size_list_to_set; [|by apply owner_ids_NoDup].
      unfold owner_ids. rw length_fmap. unfold owner_count, len in Hsize. lia. }
  assert (bp_principal_id e ∈ owners) as [?|[_ Hg]]%Ho; [|set_solver|exact Hg].
  rw Heq elem_of_list_to_set. apply list_elem_of_fmap_2, list_elem_of_In, filter_In.
  split; [by apply list_elem_of_In|done].
Qed.

Lemma item_step_shaped st i st' :
  item_step (principal_map m) old_items new_policies owner_count st i = Ok st' →
  item_shaped m i ∧ bi_destination_item_id i ∉ scan_new_items st ∧
  NoDup (item_slot_ids i) ∧ (∀ s, s ∈ item_slot_ids i → s ∉ scan_slots st) ∧
  scan_new_items st' = {[bi_destination_item_id i]} ∪ scan_new_items st ∧
  scan_slots st' = list_to_set (item_slot_ids i) ∪ scan_slots st ∧
  scan_used_policies st' = list_to_set (item_policies i) ∪ scan_used_policies st.
Proof.
  unfold item_step. intros (? & Hhead%reject_if_Ok & (owners & Hg & (? & Hcount%reject_if_Ok & Hw)%bind_Ok)%bind_Ok)%bind_Ok.
  pose proof (grants_scan_ok _ _ _ _ _ Hg) as [Hgrants _]. to_prop.
  assert (item_shaped m i ↔ ∀ p, p ∈ item_policies i →
    p ∈ bwp_destination_policy_id <$> bm_witness_policies m) as ->.
  { split; [by intros []|]. split; try done.
    - subst old_items. rewrite -> collect_set_eq in *. set_solver.
    - split; [by apply sorted_by_key_NoDup|done].
    - by eapply owners_complete. }
  unfold item_slot_ids, item_policies. destruct (bi_witnessed i) as [w|].
  - apply bind_Ok in Hw as (? & Hr%reject_if_Ok & <-%Ok_inj). to_prop.
    subst new_policies. rewrite -> collect_set_eq in *. cbn.
    split_and!; try done; try set_solver. 
    apply NoDup_cons. split; [set_solver|apply NoDup_singleton].
  - apply Ok_inj in Hw as <-. cbn. split_and!; try done; try set_solver. constructor.
Qed.

Lemma items_scanned st :
  foldE (item_step (principal_map m) old_items new_policies owner_count)
    {| scan_new_items := ∅; scan_slots := ∅; scan_used_policies := ∅ |} (bm_items m) = Ok st →
  scanned m (bm_items m) st.
Proof.
  intros Hf. refine (foldE_invariant (scanned m) _ _ _ [] _ _ _ Hf).
  2: { unfold scanned. cbn. split_and!; try done; constructor. }
  intros pre s i s' (Hn & Hnd & Hs & Hsd & Hp & Hall) (Hi & Hni & Hid & His & Hn' & Hs' & Hp')%item_step_shaped.
  unfold scanned. rw Hn' Hs' Hp' Hn Hs Hp !fmap_app !bind_app !list_to_set_app_L /= !app_nil_r.
  rw Hn in Hni. rw Hs in His. split_and!.
  - set_solver.
  - apply NoDup_snoc. split; [done|set_solver].
  - set_solver.
  - apply NoDup_app. split_and!; [done| |done]. intros x Hx Hx'. apply (His x Hx'). set_solver.
  - set_solver.
  - rw Forall_app Forall_singleton. done.
Qed.
End scan.

(** An accepted rollover manifest describes a complete fresh lineage.  Its
    acting owner is one of the owners it lists; item, policy and slot
    identifiers are distinct, and no item or policy identifier is reused from
    the source; every item starts at revision one under epoch one, grants the
    owner role to exactly the listed owners, each principal at most once, and
    names a policy of the manifest if it is witnessed; and every policy of the
    manifest is used by some item. *)
Theorem manifest_shape_sound (m : BootstrapManifestV1) :
  validate_shape m = Ok tt →
  (∃ e, e ∈ bm_principals m ∧ bp_principal_id e = bm_acting_owner_principal_id m ∧ bp_owner e = true) ∧
  NoDup (bp_principal_id <$> bm_principals m) ∧
  NoDup (bi_destination_item_id <$> bm_items m) ∧
  NoDup (bm_items m ≫= item_slot_ids) ∧
  NoDup (bwp_destination_policy_id <$> bm_witness_policies m) ∧
  (∀ p q, p ∈ bm_witness_policies m → q ∈ bm_witness_policies m →
    bwp_destination_policy_id p ≠ bwp_source_policy_id q) ∧
  Forall (item_shaped m) (bm_items m) ∧
  (∀ p, p ∈ bm_witness_policies m →
    ∃ i, i ∈ bm_items m ∧ bwp_destination_policy_id p ∈ item_policies i).
Proof.
  unfold validate_shape. intros H0. repeat inv_ok_step. to_prop.
  match goal with Hx : sorted_by_key bp_principal_id _ = true |- _ =>
    apply sorted_by_key_NoDup in Hx as Hnd end.
  match goal with Hx : foldE _ _ _ = Ok _ |- _ =>
    apply (items_scanned m Hnd) in Hx as (_ & Hitems & _ & Hslots & Hused & Hall) end.
  match goal with Hx : N.of_nat (size _) = _ |- _ => rename Hx into Hpol end.
  match goal with Hx : (if _ !! _ is Some _ then _ else _) = true |- _ => rename Hx into Hact end.
  apply Nat2N.inj in Hpol. fold (principal_map m) in Hact. rewrite -> Hused in *.
  assert (∀ p, p ∈ bm_witness_policies m → bwp_destination_policy_id p ∈
    collect_set (bwp_destination_policy_id <$> bm_witness_policies m)) as Hin.
  { intros p Hp. rw collect_set_eq. apply elem_of_list_to_set. by apply list_elem_of_fmap_2. }
  split_and!; try done.
  - destruct (principal_map m !! _) as [e|] eqn:He; [|done]. exists e.
    by apply principal_map_Some in He as [? ?].
  - apply size_collect_set. by rw length_fmap.
  - intros p q Hp Hq Heq. specialize (Hin p Hp).
    rewrite -> !collect_set_eq in *. set_solver.
  - intros p Hp. match goal with Hx : list_to_set _ = collect_set _ |- _ =>
      specialize (Hin p Hp); rw -Hx in Hin end.
    by apply elem_of_list_to_set, list_elem_of_bind in Hin as (i & ? & ?); exists i.
Qed.
