(* ===== verification/Validate.v ===== *)
(** * Structural validation of a vault file

    [crates/jury-protocol/src/vault_v1/validate.rs] and [validate/journal.rs]:
    header, journal ancestry, per-operation context, access slots, item
    envelopes, suite migration and the slot inventory, composed by
    [VaultFileV1_validate]; [artifact.rs]'s bounds around it in [parse] and
    [to_json_bytes]. [serde_json] is a parameter. Signatures and authority are
    checked by the policy replay of [Replay]. *)

From S2P Require Import Prelude VaultTypes Canonical Preimage Binding Rollover.
Local Open Scope jury_scope.

Definition MAX_POLICY_REVISIONS : N := 4096.
Definition MAX_ITEM_REVISION_PROOFS : N := 65536.
Definition MAX_CURRENT_SLOTS : N := 16384.
Definition DESCRIPTOR_CIPHERTEXT_BYTES : N := 272.

Definition from_canonical_error (e : CanonicalError) : FormatError := FE_CanonicalEncoding.

(** [expr?] where [expr] fails with a [CanonicalError] *)
Definition canon {A} (r : result CanonicalError A) : result FormatError A :=
  map_err from_canonical_error r.

Record HeaderProbeFields := {
  hp_magic : bytes;
  hp_version : N;
  hp_suite : N;
  hp_policy_schema : N;
  hp_item_schema : N;
  hp_identity_schema : N;
}.

Definition validate_header_discriminants (h : HeaderProbeFields) : result FormatError unit :=
  reject_if (hp_magic h !=? str "jury-vault") (FE_Invalid "unknown magic");;
  reject_if
    ((hp_version h !=? 1%N) ||
     (VaultSuite_from_id (hp_suite h) ==? None) ||
     (hp_policy_schema h !=? 1%N) ||
     (hp_item_schema h !=? 1%N) ||
     (hp_identity_schema h !=? 1%N)) (FE_Invalid "unknown version or suite").

(** ** Operations and their access paths *)

Definition validate_descriptor (d : PrincipalDescriptorV1) : result FormatError unit :=
  reject_if
    ((pd_descriptor_version d !=? 1%N) ||
     (len (PrincipalDescriptorV1_canonical_bytes d) !=? 1347%N))
    (FE_Invalid "principal descriptor version differs").

Definition validate_label (label : bytes) : result FormatError unit :=
  reject_if ((label ==? []) || (MAX_PUBLIC_LABEL_BYTES <? len label)%N)
    (FE_Invalid "public label length is invalid").

Definition validate_descriptor_metadata (d : DescriptorMetadataV1) : result FormatError unit :=
  reject_if
    ((dm_revision d ==? 0%N) ||
     (dm_key_epoch d ==? 0%N) ||
     (dm_plaintext_schema d !=? 1%N) ||
     (dm_ciphertext_length d !=? DESCRIPTOR_CIPHERTEXT_BYTES) ||
     (len (DescriptorMetadataV1_canonical_bytes d) !=? 97%N))
    (FE_Invalid "descriptor metadata differs").

Definition validate_sorted_unique {A} `{Ord A} (values : list A) (reason : string)
    : result FormatError unit :=
  reject_if (negb (strictly_sorted_unique values)) (FE_Invalid reason).

Abbreviation seal_scope := (ItemId * ContentRole * N)%type.
Abbreviation direct_slot_key := (ContentRole * PrincipalId * bytes)%type.

Record direct_scan := {
  dsc_last_key : option direct_slot_key;
  dsc_recipient_roles : gmap PrincipalId AccessRole;
  dsc_recipient_content : gset (PrincipalId * ContentRole);
  dsc_content_scopes : gmap ContentRole (N * RevisionSealId);
  dsc_encapsulations : gset Encapsulation1120;
}.

Definition direct_scan_empty : direct_scan := {|
  dsc_last_key := None;
  dsc_recipient_roles := ∅;
  dsc_recipient_content := ∅;
  dsc_content_scopes := ∅;
  dsc_encapsulations := ∅;
|}.

Definition direct_slot_step (vault_id : VaultId) (item_id : ItemId)
    (key_epoch policy_sequence : N) (access_mode : ItemAccessMode)
    (st : direct_scan) (slot : DirectSlotV1) : result FormatError direct_scan :=
  reject_if
    ((ds_slot_schema slot !=? 1%N) ||
     (ds_slot_algorithm slot !=? 1%N) ||
     (VaultSuite_from_id (ds_suite slot) ==? None) ||
     (ds_kem slot !=? 0x647a%N) ||
     (ds_kdf slot !=? 1%N) ||
     ((hpke_aead <$> VaultSuite_from_id (ds_suite slot)) !=? Some (ds_aead slot)) ||
     (ds_vault_id slot !=? vault_id) ||
     (ds_item_id slot !=? item_id) ||
     (ds_key_epoch slot !=? key_epoch) ||
     (ds_policy_sequence slot !=? policy_sequence) ||
     (ds_item_access_mode slot !=? access_mode) ||
     (ds_revision slot ==? 0%N) ||
     (len (DirectSlotV1_canonical_bytes slot) !=? 1365%N))
    (FE_Invalid "direct slot context differs");;
  reject_if (ds_encapsulation slot ∈? dsc_encapsulations st)
    (FE_Invalid "direct encapsulation is reused");;
  let key := (ds_content_role slot, ds_recipient_principal_id slot,
              DirectSlotV1_canonical_bytes slot) in
  reject_if (if dsc_last_key st is Some last then geb last key else false)
    (FE_Invalid "direct slots are not canonical");;
  reject_if ((ds_recipient_principal_id slot, ds_content_role slot) ∈? dsc_recipient_content st)
    (FE_Invalid "direct recipient slot is duplicated");;
  reject_if (differs (dsc_recipient_roles st !! ds_recipient_principal_id slot)
               (ds_access_role slot))
    (FE_Invalid "direct recipient role differs");;
  let scope := (ds_revision slot, ds_revision_seal_id slot) in
  reject_if (differs (dsc_content_scopes st !! ds_content_role slot) scope)
    (FE_Invalid "direct content seal differs");;
  Ok {| dsc_last_key := Some key;
        dsc_recipient_roles :=
          <[ds_recipient_principal_id slot := ds_access_role slot]> (dsc_recipient_roles st);
        dsc_recipient_content :=
          {[(ds_recipient_principal_id slot, ds_content_role slot)]} ∪ dsc_recipient_content st;
        dsc_content_scopes := <[ds_content_role slot := scope]> (dsc_content_scopes st);
        dsc_encapsulations := set_insert (ds_encapsulation slot) (dsc_encapsulations st) |}.

Definition validate_direct_slots (slots : list DirectSlotV1) (vault_id : VaultId)
    (item_id : ItemId) (key_epoch policy_sequence : N) (access_mode : ItemAccessMode)
    : result FormatError unit :=
  st ← foldE (direct_slot_step vault_id item_id key_epoch policy_sequence access_mode)
         direct_scan_empty slots;
  forE (λ recipient,
    reject_if
      (((recipient, CR_Descriptor) ∉? dsc_recipient_content st) ||
       ((recipient, CR_Body) ∉? dsc_recipient_content st))
      (FE_Invalid "direct recipient lacks one content role"))
    (keys (dsc_recipient_roles st)).

Section with_crypto.
Context `{Crypto}.

Definition validate_capsule (capsule : WitnessShareCapsuleV1) (slot : WitnessedSlotV1)
    : result FormatError unit :=
  reject_if
    ((wc_capsule_schema capsule !=? 1%N) ||
     (wc_protocol capsule !=? ws_protocol slot) ||
     (wc_construction capsule !=? ws_construction slot) ||
     (wc_vault_id capsule !=? ws_vault_id slot) ||
     (wc_genesis_fingerprint capsule !=? ws_genesis_fingerprint slot) ||
     (wc_item_id capsule !=? ws_item_id slot) ||
     (wc_key_epoch capsule !=? ws_key_epoch slot) ||
     (wc_item_access_mode capsule !=? ws_item_access_mode slot) ||
     (wc_slot_id capsule !=? ws_slot_id slot) ||
     (wc_content_role capsule !=? ws_content_role slot) ||
     (wc_revision capsule !=? ws_revision slot) ||
     (wc_revision_seal_id capsule !=? ws_revision_seal_id slot) ||
     (wc_vault_policy_sequence capsule !=? ws_vault_policy_sequence slot) ||
     (wc_witness_policy_id capsule !=? ws_witness_policy_id slot) ||
     (wc_witness_policy_revision capsule !=? ws_witness_policy_revision slot) ||
     (wc_witness_policy_digest capsule !=? ws_witness_policy_digest slot) ||
     (wc_threshold capsule !=? ws_threshold slot) ||
     (wc_member_count capsule !=? ws_member_count slot) ||
     (wc_share_index capsule ==? 0%N) ||
     (32 <? wc_share_index capsule)%N)
    (FE_Invalid "witness capsule context differs");;
  suite ← ok_or (VaultSuite_from_id (ws_suite slot)) (FE_Invalid "unknown capsule suite");
  reject_if (recomputed_context_digest_for_suite capsule suite !=? wc_context_digest capsule)
    (FE_Invalid "witness capsule context differs").

Record capsule_scan := {
  csc_last_index : N;
  csc_witnesses : gset PrincipalId;
  csc_contribution_keys : gset Digest32;
}.

Definition capsule_step (slot : WitnessedSlotV1) (st : capsule_scan)
    (capsule : WitnessShareCapsuleV1) : result FormatError capsule_scan :=
  validate_capsule capsule slot;;
  reject_if
    ((wc_share_index capsule <=? csc_last_index st)%N ||
     (wc_witness_id capsule ∈? csc_witnesses st) ||
     (wc_contribution_key_fingerprint capsule ∈? csc_contribution_keys st))
    (FE_Invalid "witness capsules are not canonical");;
  Ok {| csc_last_index := wc_share_index capsule;
        csc_witnesses := {[wc_witness_id capsule]} ∪ csc_witnesses st;
        csc_contribution_keys :=
          {[wc_contribution_key_fingerprint capsule]} ∪ csc_contribution_keys st |}.

Definition validate_witnessed_slot (slot : WitnessedSlotV1) (vault_id : VaultId)
    (genesis_fingerprint : Digest32) (item_id : ItemId) (key_epoch policy_sequence : N)
    (access_mode : ItemAccessMode) : result FormatError unit :=
  reject_if
    ((ws_slot_schema slot !=? 1%N) ||
     (ws_slot_algorithm slot !=? 2%N) ||
     (VaultSuite_from_id (ws_suite slot) ==? None) ||
     (ws_protocol slot !=? 1%N) ||
     (ws_construction slot !=? 1%N) ||
     (ws_vault_id slot !=? vault_id) ||
     (ws_genesis_fingerprint slot !=? genesis_fingerprint) ||
     (ws_item_id slot !=? item_id) ||
     (ws_key_epoch slot !=? key_epoch) ||
     (ws_vault_policy_sequence slot !=? policy_sequence) ||
     (ws_item_access_mode slot !=? access_mode) ||
     (ws_revision slot ==? 0%N) ||
     negb ((2 <=? ws_member_count slot) && (ws_member_count slot <=? 32))%N ||
     negb ((2 <=? ws_threshold slot) && (ws_threshold slot <=? ws_member_count slot))%N ||
     (ws_member_count slot !=? len (ws_capsules slot)))
    (FE_Invalid "witnessed slot context differs");;
  foldE (capsule_step slot)
    {| csc_last_index := 0; csc_witnesses := ∅; csc_contribution_keys := ∅ |}
    (ws_capsules slot);;
  digest ← canon (recomputed_capsule_set_digest slot);
  reject_if (digest !=? ws_capsule_set_digest slot) (FE_Invalid "capsule-set digest differs").

Abbreviation witnessed_slot_key := (ContentRole * N * RevisionSealId * SlotId)%type.

Record witnessed_scan := {
  wsc_last_key : option witnessed_slot_key;
  wsc_roles : gset ContentRole;
  wsc_encapsulations : gset Encapsulation1120;
}.

Definition encapsulation_step (seen : gset Encapsulation1120) (capsule : WitnessShareCapsuleV1)
    : result FormatError (gset Encapsulation1120) :=
  reject_if (wc_encapsulation capsule ∈? seen) (FE_Invalid "witness encapsulation is reused");;
  Ok (set_insert (wc_encapsulation capsule) seen).

Definition witnessed_slot_step (vault_id : VaultId) (genesis_fingerprint : Digest32)
    (item_id : ItemId) (key_epoch policy_sequence : N) (access_mode : ItemAccessMode)
    (st : witnessed_scan) (slot : WitnessedSlotV1) : result FormatError witnessed_scan :=
  validate_witnessed_slot slot vault_id genesis_fingerprint item_id key_epoch policy_sequence
    access_mode;;
  encapsulations ← foldE encapsulation_step (wsc_encapsulations st) (ws_capsules slot);
  reject_if (ws_content_role slot ∈? wsc_roles st)
    (FE_Invalid "witnessed content role is duplicated");;
  let key := (ws_content_role slot, ws_revision slot, ws_revision_seal_id slot,
              ws_slot_id slot) in
  reject_if (if wsc_last_key st is Some last then geb last key else false)
    (FE_Invalid "witnessed slots are not canonical");;
  Ok {| wsc_last_key := Some key;
        wsc_roles := {[ws_content_role slot]} ∪ wsc_roles st;
        wsc_encapsulations := encapsulations |}.

Definition validate_witnessed_state (state : WitnessedStateV1) (vault_id : VaultId)
    (genesis_fingerprint : Digest32) (item_id : ItemId) (key_epoch policy_sequence : N)
    (access_mode : ItemAccessMode) : result FormatError unit :=
  reject_if (len (wst_slots state) !=? 2%N) (FE_Invalid "witnessed slot count is invalid");;
  foldE (witnessed_slot_step vault_id genesis_fingerprint item_id key_epoch policy_sequence
           access_mode)
    {| wsc_last_key := None; wsc_roles := ∅; wsc_encapsulations := ∅ |} (wst_slots state);;
  digest ← canon (WitnessedStateV1_recomputed_digest state);
  reject_if (digest !=? wst_digest state) (FE_Invalid "witnessed state digest differs").

Definition expected_access_mode (direct_slots : list DirectSlotV1)
    (witnessed_state : option WitnessedStateV1) : result FormatError ItemAccessMode :=
  match direct_slots, witnessed_state with
  | _ :: _, Some _ => Ok AM_Mixed
  | _ :: _, None => Ok AM_DirectOnly
  | [], Some _ => Ok AM_WitnessedOnly
  | [], None => Err (FE_Invalid "item has no access path")
  end.

Definition validate_access_paths (direct_slots : list DirectSlotV1)
    (witnessed_state : option WitnessedStateV1) (vault_id : VaultId)
    (genesis_fingerprint : Digest32) (item_id : ItemId) (key_epoch policy_sequence : N)
    : result FormatError unit :=
  expected_mode ← expected_access_mode direct_slots witnessed_state;
  validate_direct_slots direct_slots vault_id item_id key_epoch policy_sequence expected_mode;;
  match witnessed_state with
  | Some state =>
      validate_witnessed_state state vault_id genesis_fingerprint item_id key_epoch
        policy_sequence expected_mode
  | None => Ok tt
  end.

Definition validate_operation (operation : PolicyOperationV1) (sequence : N)
    (vault_id : VaultId) (genesis_fingerprint : Digest32) : result FormatError unit :=
  match operation with
  | PrincipalAdd descriptor display_label _ =>
      validate_descriptor descriptor;;
      validate_label display_label
  | PrincipalLabelChange _ prior_label next_label =>
      validate_label prior_label;;
      validate_label next_label
  | ItemCreate item_id _ key_epoch descriptor _ direct_slots witnessed_state =>
      reject_if (key_epoch !=? 1%N) (FE_Invalid "item creation epoch is not one");;
      validate_descriptor_metadata descriptor;;
      validate_access_paths direct_slots witnessed_state vault_id genesis_fingerprint item_id
        key_epoch sequence
  | ItemRename _ prior_descriptor_revision next_descriptor =>
      reject_if
        ((prior_descriptor_revision ==? 0%N) ||
         (dm_revision next_descriptor !=? saturating_add_u64 prior_descriptor_revision 1))
        (FE_Invalid "descriptor revision does not advance");;
      validate_descriptor_metadata next_descriptor
  | ItemDelete _ _ _ deletion_policy_sequence =>
      reject_if (deletion_policy_sequence !=? sequence) (FE_Invalid "deletion sequence differs")
  | ItemRoleChange _ _ prior_role next_role =>
      reject_if (prior_role ==? next_role) (FE_Invalid "item role does not change")
  | ItemReaderSetChange _ prior_epoch next_epoch prior_reader_ids next_reader_ids
      replacement_descriptor _ =>
      reject_if
        ((prior_epoch ==? 0%N) || (next_epoch !=? saturating_add_u64 prior_epoch 1))
        (FE_Invalid "reader-set epoch does not advance");;
      validate_sorted_unique prior_reader_ids "prior readers are not canonical";;
      validate_sorted_unique next_reader_ids "next readers are not canonical";;
      reject_if (dm_key_epoch replacement_descriptor !=? next_epoch)
        (FE_Invalid "reader set does not rotate");;
      validate_descriptor_metadata replacement_descriptor
  | ItemSlotsReplace item_id next_epoch direct_slots witnessed_state =>
      reject_if (next_epoch ==? 0%N) (FE_Invalid "slot epoch is zero");;
      validate_access_paths direct_slots witnessed_state vault_id genesis_fingerprint item_id
        next_epoch sequence
  | PrincipalReplace prior_principal_id next_descriptor _ =>
      validate_descriptor next_descriptor;;
      reject_if (prior_principal_id ==? pd_principal_id next_descriptor)
        (FE_Invalid "replacement reuses principal ID")
  | PrincipalRemove _ _ | OwnerGrant _ | OwnerRevoke _ => Ok tt
  end.

(** ** Header and journal ancestry ([validate/journal.rs]) *)

Definition validate_header (vault : VaultFileV1) : result FormatError unit :=
  let header := vf_header vault in
  let genesis := pj_genesis (vf_policy vault) in
  validate_header_discriminants {|
    hp_magic := vh_magic header;
    hp_version := vh_version header;
    hp_suite := vh_suite header;
    hp_policy_schema := vh_policy_schema header;
    hp_item_schema := vh_item_schema header;
    hp_identity_schema := vh_identity_schema header |};;
  reject_if (vh_vault_id header !=? pg_vault_id genesis)
    (FE_Invalid "header and genesis vault differ");;
  reject_if (vh_created_at_ms header !=? pg_created_at_ms genesis)
    (FE_Invalid "header and genesis time differ");;
  reject_if (pg_suite genesis !=? vh_suite header) (FE_Invalid "genesis suite differs");;
  fingerprint ← canon (PolicyGenesisV1_recomputed_fingerprint genesis);
  reject_if (fingerprint !=? vh_genesis_fingerprint header)
    (FE_Invalid "genesis fingerprint differs").

Definition validate_source_attestation (vault : VaultFileV1) : result FormatError unit :=
  let header := vf_header vault in
  let genesis := pj_genesis (vf_policy vault) in
  match pg_source_attestation genesis with
  | None => Ok tt
  | Some (LegacyMigration source_format _ _ _) =>
      reject_if (negb ((source_format ==? 1%N) || (source_format ==? 2%N)))
        (FE_Invalid "legacy source version differs")
  | Some (Rollover statement) =>
      reject_if
        ((sr_rollover_format statement !=? 1%N) ||
         (sr_destination_vault_id statement !=? vh_vault_id header) ||
         (sr_destination_suite statement !=? vh_suite header) ||
         (sr_source_vault_id statement ==? sr_destination_vault_id statement) ||
         (sr_source_genesis_fingerprint statement ==? vh_genesis_fingerprint header))
        (FE_Invalid "rollover does not create one new lineage");;
      match sr_bootstrap_manifest statement with
      | None => Ok tt
      | Some manifest =>
          reject_if
            ((bm_destination_vault_id manifest !=? vh_vault_id header) ||
             (bm_destination_suite manifest !=? vh_suite header) ||
             (bm_created_at_ms manifest !=? vh_created_at_ms header) ||
             (bm_acting_owner_principal_id manifest !=? sr_acting_owner_principal_id statement) ||
             (bm_acting_owner_principal_id manifest !=? pd_principal_id (pg_owner genesis)))
            (FE_Invalid "rollover manifest commitment differs");;
          digest ← BootstrapManifestV1_digest manifest;
          reject_if (digest !=? sr_bootstrap_manifest_digest statement)
            (FE_Invalid "rollover manifest commitment differs")
      end
  end.

(** One turn of the loop over the revisions: the index and the hash of the
    previous record. *)
Definition policy_revision_step (vault : VaultFileV1) (st : N * Digest32)
    (revision : SignedPolicyRevisionV1) : result FormatError (N * Digest32) :=
  let '(index, previous_hash) := st in
  let header := vf_header vault in
  let expected_sequence := (index + 1)%N in
  reject_if
    ((pr_vault_id revision !=? vh_vault_id header) ||
     (pr_sequence revision !=? expected_sequence) ||
     (pr_previous_revision_hash revision !=? previous_hash))
    (FE_Invalid "policy ancestry differs");;
  reject_if
    (match pr_operations revision with [] => true | _ => false end &&
     negb ((index ==? 0%N) &&
           permits_empty_rollover_bootstrap (pj_genesis (vf_policy vault))))
    (FE_Invalid "policy revision has no operation");;
  forE (λ operation,
    validate_operation operation (pr_sequence revision) (vh_vault_id header)
      (vh_genesis_fingerprint header)) (pr_operations revision);;
  hash ← canon (SignedPolicyRevisionV1_recomputed_hash revision);
  Ok ((index + 1)%N, hash).

Definition validate_policy (vault : VaultFileV1) : result FormatError unit :=
  let genesis := pj_genesis (vf_policy vault) in
  reject_if
    ((pg_policy_sequence genesis !=? 0%N) || (pg_previous_policy_hash genesis !=? ZERO_DIGEST))
    (FE_Invalid "genesis sequence is not zero");;
  reject_if
    ((pd_descriptor_version (pg_owner genesis) !=? 1%N) ||
     (pd_principal_kind (pg_owner genesis) !=? PK_Human))
    (FE_Invalid "genesis owner is not one v1 human");;
  reject_if
    (negb (match pg_item_inventory genesis with [] => true | _ => false end) ||
     negb (match pg_direct_grants genesis with [] => true | _ => false end))
    (FE_Invalid "genesis state is not empty");;
  validate_source_attestation vault;;
  reject_if (MAX_POLICY_REVISIONS <? len (pj_revisions (vf_policy vault)))%N
    (FE_CapacityExhausted "policy revisions");;
  foldE (policy_revision_step vault) (0%N, vh_genesis_fingerprint (vf_header vault))
    (pj_revisions (vf_policy vault));;
  Ok tt.

(** ** Item envelopes *)

Definition checked_shl_u32 (value shift : N) : option N :=
  if (shift <? 32)%N then Some ((N.shiftl value shift) mod 2 ^ 32)%N else None.

Definition checked_add_u32 (a b : N) : option N :=
  if (a + b <=? u32_max)%N then Some (a + b)%N else None.

Definition bucket_ciphertext_length (bucket_id : N) : result FormatError N :=
  if ((1 <=? bucket_id) && (bucket_id <=? 12))%N then
    ok_or (length ← checked_shl_u32 4096 (bucket_id - 1); checked_add_u32 length 16)
      (FE_Invalid "item bucket overflows")
  else Err (FE_Invalid "unknown item bucket").

Definition validate_item_revision (revision : SignedItemRevisionV1) (vault_id : VaultId)
    (item_id : ItemId) (expected_revision : N) (previous_hash : Digest32)
    (final_policy_sequence : N) : result FormatError unit :=
  reject_if
    ((ir_vault_id revision !=? vault_id) ||
     (ir_item_id revision !=? item_id) ||
     (ir_item_revision revision !=? expected_revision) ||
     (ir_previous_item_revision_hash revision !=? previous_hash) ||
     (ir_key_epoch revision ==? 0%N) ||
     (final_policy_sequence <? ir_policy_sequence revision)%N ||
     (ir_plaintext_schema revision !=? 1%N))
    (FE_Invalid "item revision ancestry differs");;
  bucket_ciphertext_length (ir_bucket_id revision);;
  Ok tt.

Definition insert_seal (seals : gmap RevisionSealId seal_scope) (seal : RevisionSealId)
    (item : ItemId) (role : ContentRole) (revision : N)
    : result FormatError (gmap RevisionSealId seal_scope) :=
  reject_if (if seals !! seal is Some _ then true else false)
    (FE_Invalid "revision seal is reused");;
  Ok (<[seal := (item, role, revision)]> seals).

Definition insert_nonce (nonces : gset Nonce12) (nonce : Nonce12)
    : result FormatError (gset Nonce12) :=
  reject_if (nonce ∈? nonces) (FE_Invalid "nonce is reused");;
  Ok ({[nonce]} ∪ nonces).

(** What the loop over the items threads: the previous item, the number of
    proofs, and the seals and nonces of the whole file. *)
Record item_scan := {
  isc_prior_item : option ItemId;
  isc_proof_count : N;
  isc_seal_scopes : gmap RevisionSealId seal_scope;
  isc_nonces : gset Nonce12;
}.

Definition item_revision_step (vault_id : VaultId) (item_id : ItemId)
    (final_policy_sequence : N)
    (st : N * Digest32 * gmap RevisionSealId seal_scope * gset Nonce12)
    (revision : SignedItemRevisionV1)
    : result FormatError (N * Digest32 * gmap RevisionSealId seal_scope * gset Nonce12) :=
  let '(index, previous_hash, seals, nonces) := st in
  validate_item_revision revision vault_id item_id (index + 1) previous_hash
    final_policy_sequence;;
  seals ← insert_seal seals (ir_revision_seal_id revision) item_id CR_Body
            (ir_item_revision revision);
  nonces ← insert_nonce nonces (ir_nonce revision);
  hash ← canon (SignedItemRevisionV1_recomputed_hash revision);
  Ok ((index + 1)%N, hash, seals, nonces).

Definition validate_item (vault : VaultFileV1) (item : ItemEnvelopeV1)
    (seals : gmap RevisionSealId seal_scope) (nonces : gset Nonce12)
    : result FormatError (gmap RevisionSealId seal_scope * gset Nonce12) :=
  let descriptor := ie_descriptor item in
  let current := ie_current_revision item in
  validate_descriptor_metadata descriptor;;
  reject_if (dm_key_epoch descriptor !=? ir_key_epoch current)
    (FE_Invalid "descriptor and body key epochs differ");;
  reject_if (sha256 (ie_descriptor_ciphertext item) !=? dm_ciphertext_digest descriptor)
    (FE_Invalid "descriptor ciphertext digest differs");;
  seals ← insert_seal seals (dm_revision_seal_id descriptor) (ie_item_id item) CR_Descriptor
            (dm_revision descriptor);
  nonces ← insert_nonce nonces (dm_nonce descriptor);
  let final_policy_sequence := len (pj_revisions (vf_policy vault)) in
  st ← foldE (item_revision_step (vh_vault_id (vf_header vault)) (ie_item_id item)
                final_policy_sequence)
         (0%N, ZERO_DIGEST, seals, nonces) (ie_prior_revisions item ++ [current]);
  let '(_, _, seals, nonces) := st in
  reject_if
    ((ir_ciphertext_length current !=? len (ie_body_ciphertext item)) ||
     (sha256 (ie_body_ciphertext item) !=? ir_ciphertext_digest current))
    (FE_Invalid "body ciphertext metadata differs");;
  length ← bucket_ciphertext_length (ir_bucket_id current);
  reject_if (ir_ciphertext_length current !=? length)
    (FE_Invalid "body ciphertext metadata differs");;
  Ok (seals, nonces).

Definition items_step (vault : VaultFileV1) (st : item_scan) (item : ItemEnvelopeV1)
    : result FormatError item_scan :=
  reject_if (if isc_prior_item st is Some prior then geb prior (ie_item_id item) else false)
    (FE_Invalid "items are not canonical");;
  r ← validate_item vault item (isc_seal_scopes st) (isc_nonces st);
  proof_count ← ok_or (checked_add_u64 (isc_proof_count st) (len (ie_prior_revisions item)))
                  (FE_CapacityExhausted "item revision proofs");
  Ok {| isc_prior_item := Some (ie_item_id item);
        isc_proof_count := proof_count;
        isc_seal_scopes := r.1;
        isc_nonces := r.2 |}.

Definition validate_items (vault : VaultFileV1) : result FormatError unit :=
  reject_if (MAX_ITEMS <? len (vf_items vault))%N (FE_CapacityExhausted "items");;
  st ← foldE (items_step vault)
         {| isc_prior_item := None; isc_proof_count := 0;
            isc_seal_scopes := ∅; isc_nonces := ∅ |} (vf_items vault);
  reject_if (MAX_ITEM_REVISION_PROOFS <? isc_proof_count st)%N
    (FE_CapacityExhausted "item revision proofs").

(** ** Slot inventory and suite migration *)

Definition register_scope (scopes : gmap RevisionSealId seal_scope) (seal : RevisionSealId)
    (item : ItemId) (role : ContentRole) (revision : N)
    : result FormatError (gmap RevisionSealId seal_scope) :=
  let scope := (item, role, revision) in
  match scopes !! seal with
  | Some existing =>
      reject_if (existing !=? scope) (FE_Invalid "slot seal scope differs");;
      Ok scopes
  | None => Ok (<[seal := scope]> scopes)
  end.

Record inventory := {
  inv_witnessed_slot_ids : gmap SlotId (ItemId * ContentRole * N * RevisionSealId);
  inv_seal_scopes : gmap RevisionSealId seal_scope;
}.

Definition inventory_direct_step (suite : N) (scopes : gmap RevisionSealId seal_scope)
    (slot : DirectSlotV1) : result FormatError (gmap RevisionSealId seal_scope) :=
  reject_if (ds_suite slot !=? suite) (FE_Invalid "direct slot suite differs from vault");;
  register_scope scopes (ds_revision_seal_id slot) (ds_item_id slot) (ds_content_role slot)
    (ds_revision slot).

Definition inventory_witnessed_step (suite : N) (st : inventory) (slot : WitnessedSlotV1)
    : result FormatError inventory :=
  reject_if (ws_suite slot !=? suite) (FE_Invalid "witnessed slot suite differs from vault");;
  scopes ← register_scope (inv_seal_scopes st) (ws_revision_seal_id slot) (ws_item_id slot)
             (ws_content_role slot) (ws_revision slot);
  reject_if (if inv_witnessed_slot_ids st !! ws_slot_id slot is Some _ then true else false)
    (FE_Invalid "witnessed slot ID is reused");;
  Ok {| inv_witnessed_slot_ids :=
          <[ws_slot_id slot := (ws_item_id slot, ws_content_role slot, ws_revision slot,
                                ws_revision_seal_id slot)]> (inv_witnessed_slot_ids st);
        inv_seal_scopes := scopes |}.

(** The slots an operation installs, if it installs any. *)
Definition operation_slots (operation : PolicyOperationV1)
    : option (list DirectSlotV1 * option WitnessedStateV1) :=
  match operation with
  | ItemCreate _ _ _ _ _ direct_slots witnessed_state
  | ItemSlotsReplace _ _ direct_slots witnessed_state => Some (direct_slots, witnessed_state)
  | _ => None
  end.

Definition inventory_operation_step (suite : N) (st : inventory) (operation : PolicyOperationV1)
    : result FormatError inventory :=
  match operation_slots operation with
  | None => Ok st
  | Some (direct, witnessed) =>
      let witnessed_slots := if witnessed is Some state then wst_slots state else [] in
      operation_slot_count ← ok_or (checked_add_u64 (len direct) (len witnessed_slots))
        (FE_CapacityExhausted "current key slots");
      reject_if (MAX_CURRENT_SLOTS <? operation_slot_count)%N
        (FE_CapacityExhausted "current key slots");;
      scopes ← foldE (inventory_direct_step suite) (inv_seal_scopes st) direct;
      foldE (inventory_witnessed_step suite)
        {| inv_witnessed_slot_ids := inv_witnessed_slot_ids st; inv_seal_scopes := scopes |}
        witnessed_slots
  end.

Definition validate_slot_inventory (vault : VaultFileV1) : result FormatError unit :=
  foldE (λ st revision,
    foldE (inventory_operation_step (vh_suite (vf_header vault))) st (pr_operations revision))
    {| inv_witnessed_slot_ids := ∅; inv_seal_scopes := ∅ |} (pj_revisions (vf_policy vault));;
  Ok tt.

Definition validate_migration (vault : VaultFileV1) : result FormatError unit :=
  let header := vf_header vault in
  let statement := match pg_source_attestation (pj_genesis (vf_policy vault)) with
                   | Some (Rollover statement) => Some statement
                   | _ => None
                   end in
  let source_suite := statement ← statement;
                      manifest ← sr_bootstrap_manifest statement;
                      bm_source_suite manifest in
  let required := if source_suite is Some suite then suite !=? vh_suite header else false in
  match vf_suite_migration vault with
  | None =>
      reject_if
        (required && negb (match pj_revisions (vf_policy vault) with [] => true | _ => false end))
        (FE_Invalid "suite migration record is missing")
  | Some migration =>
      statement ← ok_or statement (FE_Invalid "migration has no rollover bridge");
      reject_if
        (negb required ||
         (source_suite !=? Some 1%N) ||
         (vh_suite header !=? 2%N) ||
         (sm_old_suite migration !=? 1%N) ||
         (sm_new_suite migration !=? 2%N) ||
         (sm_old_vault_id migration !=? sr_source_vault_id statement) ||
         (sm_old_genesis_fingerprint migration !=? sr_source_genesis_fingerprint statement) ||
         (sm_old_terminal_revision_hash migration !=? sr_terminal_source_revision_hash statement) ||
         (sm_migrated_item_manifest_digest migration !=? sr_bootstrap_manifest_digest statement) ||
         (sm_migration_format migration !=? 1%N) ||
         (sm_new_vault_id migration !=? vh_vault_id header) ||
         (sm_new_genesis_fingerprint migration !=? vh_genesis_fingerprint header) ||
         (sm_new_suite migration !=? vh_suite header) ||
         (sm_old_vault_id migration ==? sm_new_vault_id migration) ||
         (sm_old_genesis_fingerprint migration ==? sm_new_genesis_fingerprint migration) ||
         (sm_old_suite migration ==? sm_new_suite migration))
        (FE_Invalid "suite migration does not create one new lineage")
  end.

Definition VaultFileV1_validate (vault : VaultFileV1) : result FormatError unit :=
  validate_header vault;;
  validate_policy vault;;
  validate_items vault;;
  validate_migration vault;;
  validate_slot_inventory vault.

(** ** The JSON artifact *)

(** [bytes.split(|byte| *byte == b'\n')] *)
Fixpoint split_lines (bs : bytes) : list bytes :=
  match bs with
  | [] => [[]]
  | b :: bs' =>
      if b ==? Byte.x0a then [] :: split_lines bs'
      else match split_lines bs' with
           | line :: lines => (b :: line) :: lines
           | [] => [[b]]
           end
  end.

Definition starts_with (marker line : bytes) : bool :=
  take (length marker) line ==? marker.

Definition contains_conflict_marker (bs : bytes) : bool :=
  existsb (λ line, starts_with (str "<<<<<<<") line || starts_with (str "=======") line ||
                   starts_with (str ">>>>>>>") line) (split_lines bs).

Definition validate_json_input (bs : bytes) (maximum_bytes : N) : result FormatError unit :=
  reject_if (maximum_bytes <? len bs)%N FE_ArtifactTooLarge;;
  reject_if (contains_conflict_marker bs) FE_ConflictMarker.

(** [serde_json]: the probe of the header, the whole file, and the pretty
    printer (which fails for no value of this type). *)
Context (json_probe : bytes → option HeaderProbeFields).
Context (json_vault : bytes → option VaultFileV1).
Context (json_pretty : VaultFileV1 → option bytes).

Definition pretty_json_bytes (vault : VaultFileV1) (maximum_bytes : N) : result FormatError bytes :=
  output ← ok_or (json_pretty vault) FE_InvalidJson;
  let output := output ++ [Byte.x0a] in
  reject_if (maximum_bytes <? len output)%N FE_ArtifactTooLarge;;
  Ok output.

Definition to_json_bytes (vault : VaultFileV1) : result FormatError bytes :=
  VaultFileV1_validate vault;;
  pretty_json_bytes vault MAX_VAULT_BYTES.

Definition parse (bs : bytes) : result FormatError VaultFileV1 :=
  validate_json_input bs MAX_VAULT_BYTES;;
  probe ← ok_or (json_probe bs) FE_InvalidJson;
  validate_header_discriminants probe;;
  vault ← ok_or (json_vault bs) FE_InvalidJson;
  VaultFileV1_validate vault;;
  canonical ← to_json_bytes vault;
  reject_if (canonical !=? bs) FE_NonCanonicalJson;;
  Ok vault.
End with_crypto.
