(* ===== verification/ValidateSlots.v ===== *)
(** * What the access-slot checks guarantee

    The single-pass checks of [validate_direct_slots] and
    [validate_witnessed_state] thread sets and maps through one loop; the
    theorems here relate each to a declarative specification of the whole list. *)

From S2P Require Import Prelude VaultTypes Canonical Preimage Binding Rollover Validate.
Local Open Scope jury_scope.

(** ** Direct slots *)

Definition ds_key (s : DirectSlotV1) : direct_slot_key :=
  (ds_content_role s, ds_recipient_principal_id s, DirectSlotV1_canonical_bytes s).

Definition ds_content_key (s : DirectSlotV1) : PrincipalId * ContentRole :=
  (ds_recipient_principal_id s, ds_content_role s).

Definition ds_role_entry (s : DirectSlotV1) : PrincipalId * AccessRole :=
  (ds_recipient_principal_id s, ds_access_role s).

Definition ds_scope_entry (s : DirectSlotV1) : ContentRole * (N * RevisionSealId) :=
  (ds_content_role s, (ds_revision s, ds_revision_seal_id s)).

(** The fields a direct slot shares with the operation that installs it. *)
Record direct_slot_in_context (vault_id : VaultId) (item_id : ItemId)
    (key_epoch policy_sequence : N) (mode : ItemAccessMode) (s : DirectSlotV1) : Prop := {
  dsi_schema : ds_slot_schema s = 1%N ∧ ds_slot_algorithm s = 1%N;
  dsi_suite : ∃ suite, VaultSuite_from_id (ds_suite s) = Some suite ∧ ds_aead s = hpke_aead suite;
  dsi_kem : ds_kem s = 0x647a%N ∧ ds_kdf s = 1%N;
  dsi_vault : ds_vault_id s = vault_id;
  dsi_item : ds_item_id s = item_id;
  dsi_epoch : ds_key_epoch s = key_epoch;
  dsi_sequence : ds_policy_sequence s = policy_sequence;
  dsi_mode : ds_item_access_mode s = mode;
  dsi_revision : ds_revision s ≠ 0%N;
  dsi_length : len (DirectSlotV1_canonical_bytes s) = 1365%N;
}.

(** The slots read so far. *)
Record direct_prefix (vault_id : VaultId) (item_id : ItemId) (key_epoch policy_sequence : N)
    (mode : ItemAccessMode) (slots : list DirectSlotV1) : Prop := {
  dp_context : Forall (direct_slot_in_context vault_id item_id key_epoch policy_sequence mode) slots;
  dp_encapsulations : NoDup (ds_encapsulation <$> slots);
  dp_sorted : sorted_by_key ds_key slots = true;
  dp_content : NoDup (ds_content_key <$> slots);
  dp_roles : consistent (ds_role_entry <$> slots);
  dp_scopes : consistent (ds_scope_entry <$> slots);
}.

(** Every recipient has a descriptor slot and a body slot. *)
Definition recipients_complete (slots : list DirectSlotV1) : Prop :=
  ∀ s role, s ∈ slots → (ds_recipient_principal_id s, role) ∈ (ds_content_key <$> slots).

Definition direct_slots_spec (vault_id : VaultId) (item_id : ItemId)
    (key_epoch policy_sequence : N) (mode : ItemAccessMode) (slots : list DirectSlotV1) : Prop :=
  direct_prefix vault_id item_id key_epoch policy_sequence mode slots ∧ recipients_complete slots.

(** The loop's state, as a function of the slots read. *)
Definition direct_scan_of (slots : list DirectSlotV1) : direct_scan := {|
  dsc_last_key := ds_key <$> last slots;
  dsc_recipient_roles := collect_map (ds_role_entry <$> slots);
  dsc_recipient_content := list_to_set (ds_content_key <$> slots);
  dsc_content_scopes := collect_map (ds_scope_entry <$> slots);
  dsc_encapsulations := list_to_set (ds_encapsulation <$> slots);
|}.

Section direct_slots.
Context (vault_id : VaultId) (item_id : ItemId) (key_epoch policy_sequence : N)
  (mode : ItemAccessMode).

Abbreviation in_context := (direct_slot_in_context vault_id item_id key_epoch policy_sequence mode).
Abbreviation prefix := (direct_prefix vault_id item_id key_epoch policy_sequence mode).
Abbreviation step := (direct_slot_step vault_id item_id key_epoch policy_sequence mode).

Lemma direct_slot_context_ok s :
  (ds_slot_schema s !=? 1%N) || (ds_slot_algorithm s !=? 1%N) ||
  (VaultSuite_from_id (ds_suite s) ==? None) || (ds_kem s !=? 0x647a%N) ||
  (ds_kdf s !=? 1%N) ||
  ((hpke_aead <$> VaultSuite_from_id (ds_suite s)) !=? Some (ds_aead s)) ||
  (ds_vault_id s !=? vault_id) || (ds_item_id s !=? item_id) ||
  (ds_key_epoch s !=? key_epoch) || (ds_policy_sequence s !=? policy_sequence) ||
  (ds_item_access_mode s !=? mode) || (ds_revision s ==? 0%N) ||
  (len (DirectSlotV1_canonical_bytes s) !=? 1365%N) = false ↔ in_context s.
Proof.
  split.
  - intros Hf. to_prop. split; try done.
    destruct (VaultSuite_from_id (ds_suite s)) as [suite|]; [|done]. simplify_eq/=. eauto.
  - intros [[-> ->] (suite & Hs & ->) [-> ->] -> -> -> -> -> Hrev Hlen].
    rw Hs. by split_guard.
Qed.

Lemma direct_prefix_snoc slots s :
  prefix (slots ++ [s]) ↔
  prefix slots ∧ in_context s ∧
  (ds_encapsulation s ∉ (ds_encapsulation <$> slots)) ∧
  (if last slots is Some t then geb (ds_key t) (ds_key s) else false) = false ∧
  (ds_content_key s ∉ (ds_content_key <$> slots)) ∧
  differs (collect_map (ds_role_entry <$> slots) !! ds_recipient_principal_id s)
    (ds_access_role s) = false ∧
  differs (collect_map (ds_scope_entry <$> slots) !! ds_content_role s)
    (ds_revision s, ds_revision_seal_id s) = false.
Proof.
  split.
  - intros [Hc He Hs Hk Hr Hsc]. rw !fmap_app /= in He Hk Hr Hsc.
    apply NoDup_snoc in He as [? ?], Hk as [? ?].
    apply consistent_snoc in Hr as [? ?], Hsc as [? ?].
    apply sorted_by_key_snoc in Hs as [? ?].
    apply Forall_app in Hc as [? [Hc _]%Forall_cons].
    split; [by split|done].
  - intros ([] & ? & ? & ? & ? & ? & ?).
    split; rw ?fmap_app /= ?NoDup_snoc ?consistent_snoc ?sorted_by_key_snoc
      ?Forall_app ?Forall_singleton; done.
Qed.

Lemma direct_slot_step_ok slots s st :
  step (direct_scan_of slots) s = Ok st ↔
  (in_context s ∧
   (ds_encapsulation s ∉ (ds_encapsulation <$> slots)) ∧
   (if last slots is Some t then geb (ds_key t) (ds_key s) else false) = false ∧
   (ds_content_key s ∉ (ds_content_key <$> slots)) ∧
   differs (collect_map (ds_role_entry <$> slots) !! ds_recipient_principal_id s)
     (ds_access_role s) = false ∧
   differs (collect_map (ds_scope_entry <$> slots) !! ds_content_role s)
     (ds_revision s, ds_revision_seal_id s) = false) ∧
  st = direct_scan_of (slots ++ [s]).
Proof.
  assert (direct_scan_of (slots ++ [s]) = {|
    dsc_last_key := Some (ds_key s);
    dsc_recipient_roles := <[ds_recipient_principal_id s := ds_access_role s]>
      (dsc_recipient_roles (direct_scan_of slots));
    dsc_recipient_content := {[ds_content_key s]} ∪ dsc_recipient_content (direct_scan_of slots);
    dsc_content_scopes := <[ds_content_role s := (ds_revision s, ds_revision_seal_id s)]>
      (dsc_content_scopes (direct_scan_of slots));
    dsc_encapsulations := set_insert (ds_encapsulation s) (dsc_encapsulations (direct_scan_of slots))
  |}) as ->.
  { unfold direct_scan_of. rw !fmap_app /= !collect_map_snoc !list_to_set_snoc last_snoc set_insert_eq. done. }
  unfold direct_slot_step. rw !reject_if_bind direct_slot_context_ok Ok_eq.
  rw !bool_decide_eq_false !elem_of_list_to_set.
  cbn [direct_scan_of dsc_last_key]. destruct (last slots); naive_solver.
Qed.

Lemma direct_scan_ok slots st :
  foldE step direct_scan_empty slots = Ok st ↔ prefix slots ∧ st = direct_scan_of slots.
Proof.
  revert st. induction slots as [|s slots IH] using rev_ind; intros st.
  { simpl. rw Ok_eq. split; [|naive_solver]. intros ->. split; [|done].
    by split; [|apply NoDup_nil| |apply NoDup_nil|intros ??? ?%elem_of_nil..]. }
  rw foldE_snoc_Ok direct_prefix_snoc. setoid_rewrite IH. split.
  - intros (s1 & [? ->] & Hstep%direct_slot_step_ok). naive_solver.
  - intros [(? & ?) ->]. eexists. split; [done|]. by apply direct_slot_step_ok.
Qed.

Lemma recipients_complete_ok slots u :
  forE (λ recipient,
    reject_if
      (((recipient, CR_Descriptor) ∉? dsc_recipient_content (direct_scan_of slots)) ||
       ((recipient, CR_Body) ∉? dsc_recipient_content (direct_scan_of slots)))
      (FE_Invalid "direct recipient lacks one content role"))
    (keys (dsc_recipient_roles (direct_scan_of slots))) = Ok u ↔ recipients_complete slots.
Proof.
  rw forE_Ok. unfold recipients_complete, direct_scan_of; simpl.
  setoid_rewrite elem_of_keys. setoid_rewrite reject_if_Ok. split.
  - intros Hall s role Hs.
    assert (ds_role_entry s ∈ (ds_role_entry <$> slots)) as Hr by (apply list_elem_of_fmap; eauto).
    apply collect_map_elem_of, Hall, orb_false_iff in Hr as [Hd Hb]. to_prop. rw !elem_of_list_to_set in Hd Hb. by destruct role.
  - intros Hall r [a (s & Hs & Hin)%collect_map_Some%list_elem_of_fmap].
    injection Hs as -> ->.
    split_guard; apply elem_of_list_to_set; by apply Hall.
Qed.

Lemma validate_direct_slots_ok slots u :
  validate_direct_slots slots vault_id item_id key_epoch policy_sequence mode = Ok u ↔
  direct_slots_spec vault_id item_id key_epoch policy_sequence mode slots.
Proof.
  unfold validate_direct_slots, direct_slots_spec. rw bind_Ok. setoid_rewrite direct_scan_ok.
  split.
  - intros (st & [? ->] & ?%recipients_complete_ok). done.
  - intros [? ?]. eexists. split; [done|]. by apply recipients_complete_ok.
Qed.
End direct_slots.

(** ** Witnessed slots *)

Section witnessed_slots.
Context `{Crypto}.

(** A capsule repeats its slot's context and binds it by its digest. *)
Record capsule_in_slot (slot : WitnessedSlotV1) (c : WitnessShareCapsuleV1) : Prop := {
  cis_schema : wc_capsule_schema c = 1%N;
  cis_protocol : wc_protocol c = ws_protocol slot ∧ wc_construction c = ws_construction slot;
  cis_lineage : wc_vault_id c = ws_vault_id slot ∧
    wc_genesis_fingerprint c = ws_genesis_fingerprint slot;
  cis_item : wc_item_id c = ws_item_id slot ∧ wc_key_epoch c = ws_key_epoch slot ∧
    wc_item_access_mode c = ws_item_access_mode slot;
  cis_slot : wc_slot_id c = ws_slot_id slot ∧ wc_content_role c = ws_content_role slot ∧
    wc_revision c = ws_revision slot ∧ wc_revision_seal_id c = ws_revision_seal_id slot;
  cis_policy : wc_vault_policy_sequence c = ws_vault_policy_sequence slot ∧
    wc_witness_policy_id c = ws_witness_policy_id slot ∧
    wc_witness_policy_revision c = ws_witness_policy_revision slot ∧
    wc_witness_policy_digest c = ws_witness_policy_digest slot;
  cis_quorum : wc_threshold c = ws_threshold slot ∧ wc_member_count c = ws_member_count slot;
  cis_index : wc_share_index c ≠ 0%N ∧ (wc_share_index c ≤ 32)%N;
  cis_digest : ∃ suite, VaultSuite_from_id (ws_suite slot) = Some suite ∧
    wc_context_digest c = recomputed_context_digest_for_suite c suite;
}.

Lemma validate_capsule_ok c slot u :
  validate_capsule c slot = Ok u ↔ capsule_in_slot slot c.
Proof.
  unfold validate_capsule. rw reject_if_bind bind_Ok. setoid_rewrite ok_or_Ok.
  setoid_rewrite reject_if_Ok. split.
  - intros (Hc & suite & Hs & Hd). to_prop. split; try done. by exists suite.
  - intros [? [] [] [? []] [? [? []]] [? [? []]] [] [] (suite & Hs & Hd)].
    split; [by split_guard|]. exists suite. split; [done|]. by split_guard.
Qed.

(** The capsules read so far. *)
Record capsules_prefix (slot : WitnessedSlotV1) (cs : list WitnessShareCapsuleV1) : Prop := {
  cp_context : Forall (capsule_in_slot slot) cs;
  cp_sorted : sorted_by_key wc_share_index cs = true;
  cp_witnesses : NoDup (wc_witness_id <$> cs);
  cp_keys : NoDup (wc_contribution_key_fingerprint <$> cs);
}.

Definition capsule_scan_of (cs : list WitnessShareCapsuleV1) : capsule_scan := {|
  csc_last_index := from_option wc_share_index 0%N (last cs);
  csc_witnesses := list_to_set (wc_witness_id <$> cs);
  csc_contribution_keys := list_to_set (wc_contribution_key_fingerprint <$> cs);
|}.

Lemma share_index_order slot cs c :
  capsule_in_slot slot c →
  (wc_share_index c <=? from_option wc_share_index 0 (last cs))%N = false ↔
  (if last cs is Some y then geb (wc_share_index y) (wc_share_index c) else false) = false.
Proof.
  intros [_ _ _ _ _ _ _ [Hi _] _]. rw N.leb_gt. destruct (last cs) as [y|]; simpl; [|lia].
  unfold geb, ltb, cmp, N_ord. rw negb_false_iff -N.compare_lt_iff. by destruct (_ ?= _)%N.
Qed.

Lemma capsules_prefix_snoc slot cs c :
  capsules_prefix slot (cs ++ [c]) ↔
  capsules_prefix slot cs ∧ capsule_in_slot slot c ∧
  (if last cs is Some y then geb (wc_share_index y) (wc_share_index c) else false) = false ∧
  (wc_witness_id c ∉ (wc_witness_id <$> cs)) ∧
  (wc_contribution_key_fingerprint c ∉ (wc_contribution_key_fingerprint <$> cs)).
Proof.
  split.
  - intros [Hc Hs Hw Hk]. rw !fmap_app /= in Hw Hk.
    apply NoDup_snoc in Hw as [? ?], Hk as [? ?]. apply sorted_by_key_snoc in Hs as [? ?].
    apply Forall_app in Hc as [? [Hc _]%Forall_cons]. split; [by split|done].
  - intros ([] & ? & ? & ? & ?).
    split; rw ?fmap_app /= ?NoDup_snoc ?sorted_by_key_snoc ?Forall_app ?Forall_singleton; done.
Qed.

Lemma capsule_step_ok slot cs c st :
  capsule_step slot (capsule_scan_of cs) c = Ok st ↔
  (capsule_in_slot slot c ∧
   (if last cs is Some y then geb (wc_share_index y) (wc_share_index c) else false) = false ∧
   (wc_witness_id c ∉ (wc_witness_id <$> cs)) ∧
   (wc_contribution_key_fingerprint c ∉ (wc_contribution_key_fingerprint <$> cs))) ∧
  st = capsule_scan_of (cs ++ [c]).
Proof.
  assert (capsule_scan_of (cs ++ [c]) = {|
    csc_last_index := wc_share_index c;
    csc_witnesses := {[wc_witness_id c]} ∪ csc_witnesses (capsule_scan_of cs);
    csc_contribution_keys :=
      {[wc_contribution_key_fingerprint c]} ∪ csc_contribution_keys (capsule_scan_of cs) |}) as ->.
  { unfold capsule_scan_of. by rw !fmap_app /= !list_to_set_snoc last_snoc. }
  unfold capsule_step. split.
  - intros ([] & Hc%validate_capsule_ok & [Hg ?%Ok_inj]%reject_if_bind)%bind_Ok.
    to_prop. cbn [capsule_scan_of csc_last_index csc_witnesses csc_contribution_keys] in *.
    repeat match goal with H : _ ∉ _ |- _ => apply not_elem_of_list_to_set in H end.
    split; [|done]. split_and!; try done. eapply share_index_order; [done|]. by apply N.leb_gt.
  - intros [(Hc & Hi & Hw & Hk) ->]. apply bind_Ok. exists tt.
    split; [by apply validate_capsule_ok|]. apply reject_if_bind. split; [|done].
    apply (share_index_order slot) in Hi; [|done]. to_prop.
    by split_guard; rw ?elem_of_list_to_set.
Qed.

Lemma capsule_scan_ok slot cs st :
  foldE (capsule_step slot) {| csc_last_index := 0; csc_witnesses := ∅; csc_contribution_keys := ∅ |}
    cs = Ok st ↔ capsules_prefix slot cs ∧ st = capsule_scan_of cs.
Proof.
  revert st. induction cs as [|c cs IH] using rev_ind; intros st.
  { cbn [foldE]. rw Ok_eq. split; [|naive_solver]. intros ->.
    by split; [split; [|done|apply NoDup_nil..]|]. }
  rw foldE_snoc_Ok capsules_prefix_snoc. setoid_rewrite IH. split.
  - intros (s1 & [? ->] & Hstep%capsule_step_ok). naive_solver.
  - intros [[? ?] ->]. eexists. split; [done|]. by apply capsule_step_ok.
Qed.

(** One witnessed slot: a quorum of two to thirty-two witnesses with distinct
    identities, keys and share indices, whose capsules are bound to the slot. *)
Record witnessed_slot_spec (vault_id : VaultId) (genesis_fingerprint : Digest32)
    (item_id : ItemId) (key_epoch policy_sequence : N) (mode : ItemAccessMode)
    (slot : WitnessedSlotV1) : Prop := {
  wss_schema : ws_slot_schema slot = 1%N ∧ ws_slot_algorithm slot = 2%N;
  wss_suite : is_Some (VaultSuite_from_id (ws_suite slot));
  wss_protocol : ws_protocol slot = 1%N ∧ ws_construction slot = 1%N;
  wss_lineage : ws_vault_id slot = vault_id ∧ ws_genesis_fingerprint slot = genesis_fingerprint;
  wss_item : ws_item_id slot = item_id ∧ ws_key_epoch slot = key_epoch ∧
    ws_vault_policy_sequence slot = policy_sequence ∧ ws_item_access_mode slot = mode ∧
    ws_revision slot ≠ 0%N;
  wss_members : (2 ≤ ws_member_count slot ≤ 32)%N;
  wss_threshold : (2 ≤ ws_threshold slot ≤ ws_member_count slot)%N;
  wss_count : ws_member_count slot = len (ws_capsules slot);
  wss_capsules : capsules_prefix slot (ws_capsules slot);
  wss_digest : recomputed_capsule_set_digest slot = Ok (ws_capsule_set_digest slot);
}.

Section context.
Context (vault_id : VaultId) (genesis_fingerprint : Digest32) (item_id : ItemId)
  (key_epoch policy_sequence : N) (mode : ItemAccessMode).

Abbreviation slot_spec :=
  (witnessed_slot_spec vault_id genesis_fingerprint item_id key_epoch policy_sequence mode).

Lemma canon_Ok {A} (r : result CanonicalError A) a : canon r = Ok a ↔ r = Ok a.
Proof. apply map_err_Ok. Qed.

Lemma validate_witnessed_slot_ok slot u :
  validate_witnessed_slot slot vault_id genesis_fingerprint item_id key_epoch policy_sequence mode
    = Ok u ↔ slot_spec slot.
Proof.
  unfold validate_witnessed_slot. split.
  - intros [Hg (st & [Hcs _]%capsule_scan_ok & (d & Hd%canon_Ok & Hr%reject_if_Ok)%bind_Ok)%bind_Ok]
      %reject_if_bind.
    to_prop. split; try done; [by apply not_eq_None_Some|by rw Hd; f_equal].
  - intros [[] Hs [] [] [? [? [? []]]] [] [] ? Hcs Hd]. apply reject_if_bind. split.
    { split_guard; try done. by apply not_eq_None_Some. }
    apply bind_Ok. eexists. split; [by apply capsule_scan_ok|].
    apply bind_Ok. eexists. split; [by apply canon_Ok|]. apply reject_if_Ok. by split_guard.
Qed.

Lemma encapsulation_scan_ok seen cs st :
  foldE encapsulation_step (list_to_set seen) cs = Ok st →
  NoDup seen → NoDup (seen ++ (wc_encapsulation <$> cs)) ∧
  st = list_to_set (seen ++ (wc_encapsulation <$> cs)).
Proof.
  intros Hf Hs. revert st Hf. induction cs as [|c cs IH] using rev_ind; intros st.
  { cbn [foldE]. rw Ok_eq fmap_nil app_nil_r. done. }
  rw foldE_snoc_Ok. intros (s1 & [Hnd ->]%IH & Hstep).
  unfold encapsulation_step in Hstep. apply reject_if_bind in Hstep as [Hg <-%Ok_inj]. to_prop.
  rw elem_of_list_to_set in Hg. rw fmap_app (assoc_L (++)) NoDup_snoc list_to_set_snoc set_insert_eq. done.
Qed.

(** The two slots of an item's witnessed state. *)
Definition witnessed_state_spec (state : WitnessedStateV1) : Prop :=
  ∃ d b, wst_slots state = [d; b] ∧
    ws_content_role d = CR_Descriptor ∧ ws_content_role b = CR_Body ∧
    slot_spec d ∧ slot_spec b ∧
    NoDup (wc_encapsulation <$> (ws_capsules d ++ ws_capsules b)) ∧
    WitnessedStateV1_recomputed_digest state = Ok (wst_digest state).

Abbreviation ws_key s :=
  (ws_content_role s, ws_revision s, ws_revision_seal_id s, ws_slot_id s).

Lemma witnessed_slot_step_ok st slot st' :
  witnessed_slot_step vault_id genesis_fingerprint item_id key_epoch policy_sequence mode st slot
    = Ok st' →
  slot_spec slot ∧ (ws_content_role slot ∉ wsc_roles st) ∧
  (if wsc_last_key st is Some last then geb last (ws_key slot) else false) = false ∧
  ∃ e, foldE encapsulation_step (wsc_encapsulations st) (ws_capsules slot) = Ok e ∧
    st' = {| wsc_last_key := Some (ws_key slot);
             wsc_roles := {[ws_content_role slot]} ∪ wsc_roles st;
             wsc_encapsulations := e |}.
Proof.
  unfold witnessed_slot_step.
  intros ([] & ?%validate_witnessed_slot_ok & (e & ? & [? [? <-%Ok_inj]%reject_if_bind]
    %reject_if_bind)%bind_Ok)%bind_Ok. to_prop. eauto 10.
Qed.

(** Distinct content roles in key order are the descriptor, then the body. *)
Lemma ws_roles_ordered d b :
  ws_content_role b ≠ ws_content_role d → geb (ws_key d) (ws_key b) = false →
  ws_content_role d = CR_Descriptor ∧ ws_content_role b = CR_Body.
Proof.
  intros Hne Hle. unfold geb, ltb, cmp, prod_ord in Hle. cbn [fst snd] in Hle.
  by destruct (ws_content_role d), (ws_content_role b).
Qed.

Lemma validate_witnessed_state_ok state u :
  validate_witnessed_state state vault_id genesis_fingerprint item_id key_epoch policy_sequence mode
    = Ok u → witnessed_state_spec state.
Proof.
  unfold validate_witnessed_state.
  intros [Hlen (st & Hst & (dg & Hd%canon_Ok & Hr%reject_if_Ok)%bind_Ok)%bind_Ok]%reject_if_bind.
  to_prop. subst dg. unfold witnessed_state_spec.
  apply (len_eq _ [(); ()]) in Hlen. destruct (wst_slots state) as [|d [|b [|? ?]]]; try done.
  exists d, b. cbn [foldE] in Hst.
  apply bind_Ok in Hst as (st1 & (Hsd & _ & _ & e1 & He1 & ->)%witnessed_slot_step_ok & Hst).
  apply bind_Ok in Hst as (st2 & (Hsb & Hrole & Hle & e2 & He2 & _)%witnessed_slot_step_ok & _).
  cbn [wsc_roles wsc_last_key wsc_encapsulations] in *.
  destruct (ws_roles_ordered d b) as [? ?]; [set_solver|done|].
  apply (encapsulation_scan_ok []) in He1 as [Hnd ->]; [|by apply NoDup_nil].
  apply encapsulation_scan_ok in He2 as [Hnd2 _]; [|done].
  by rw fmap_app.
Qed.
End context.
End witnessed_slots.
