(* ===== verification/ValidateVault.v ===== *)
(** * What the structural checks of a vault file guarantee

    The journal's hash chain, the item revision chains, the uniqueness of
    nonces and revision seals across the file, and the canonical JSON form. *)

From S2P Require Import Prelude VaultTypes Canonical Preimage Binding Rollover Validate ValidateSlots.
Local Open Scope jury_scope.

Section vault.
Context `{Crypto}.

(** ** The journal *)

(** What the loop has checked of the revisions read so far. *)
Record journal_prefix (vault : VaultFileV1) (revs : list SignedPolicyRevisionV1)
    (st : N * Digest32) : Prop := {
  jp_index : st.1 = len revs;
  jp_linked : linked (vh_genesis_fingerprint (vf_header vault)) revs st.2;
  jp_vault : Forall (λ r, pr_vault_id r = vh_vault_id (vf_header vault)) revs;
  jp_sequence : ∀ i r, revs !! i = Some r → pr_sequence r = N.of_nat (S i);
  jp_nonempty : ∀ i r, revs !! i = Some r → pr_operations r = [] →
    i = 0 ∧ permits_empty_rollover_bootstrap (pj_genesis (vf_policy vault)) = true;
  jp_operations : Forall (λ r, Forall (λ op,
    validate_operation op (pr_sequence r) (vh_vault_id (vf_header vault))
      (vh_genesis_fingerprint (vf_header vault)) = Ok tt) (pr_operations r)) revs;
}.

Lemma lookup_snoc_inv {A} (l : list A) x i y :
  (l ++ [x]) !! i = Some y → l !! i = Some y ∨ (i = length l ∧ y = x).
Proof.
  intros [?|[? Hi]]%lookup_app_Some; [by left|]. right.
  apply list_lookup_singleton_Some in Hi as [? ->]. split; [lia|done].
Qed.

Lemma policy_revision_step_ok vault revs st r st' :
  journal_prefix vault revs st → policy_revision_step vault st r = Ok st' →
  journal_prefix vault (revs ++ [r]) st'.
Proof.
  intros [Hi Hl Hv Hs He Ho]. destruct st as [i h]. cbn [fst snd] in *.
  unfold policy_revision_step.
  intros [Hg [Hne ([] & Hops & (h' & Hh%canon_Ok & <-%Ok_inj)%bind_Ok)%bind_Ok]
    %reject_if_bind]%reject_if_bind. to_prop. subst i.
  split; cbn [fst snd].
  - by rw len_app.
  - by eapply linked_snoc.
  - by rw Forall_app Forall_singleton.
  - intros i x [?|[-> ->]]%lookup_snoc_inv; [eauto|]. unfold len in *. lia.
  - intros i x [?|[-> ->]]%lookup_snoc_inv Hnil; [eauto|]. rw Hnil in Hne. simpl in Hne.
    to_prop. split; [|done]. unfold len in *. lia.
  - rw Forall_app Forall_singleton. split; [done|]. rw Forall_forall.
    by eapply forE_Ok.
Qed.

Lemma journal_prefix_nil vault :
  journal_prefix vault [] (0%N, vh_genesis_fingerprint (vf_header vault)).
Proof. by split; [|constructor|..]. Qed.

Lemma validate_policy_ok vault u :
  validate_policy vault = Ok u →
  ∃ terminal, journal_prefix vault (pj_revisions (vf_policy vault))
    (len (pj_revisions (vf_policy vault)), terminal).
Proof.
  unfold validate_policy. intros Hv. repeat inv_ok_step.
  match goal with H : foldE _ _ _ = Ok ?r |- _ => destruct r as [n t]; rename H into Hf end.
  exists t. eapply (foldE_invariant (journal_prefix vault) _ (policy_revision_step_ok vault) _ [])
    in Hf; [|apply journal_prefix_nil].
  simpl in Hf. pose proof (jp_index _ _ _ Hf) as Hn. cbn in Hn. by subst.
Qed.

Lemma validate_header_fingerprint vault u :
  validate_header vault = Ok u →
  PolicyGenesisV1_recomputed_fingerprint (pj_genesis (vf_policy vault)) =
    Ok (vh_genesis_fingerprint (vf_header vault)).
Proof.
  unfold validate_header. intros Hv. repeat inv_ok_step. to_prop. subst.
  match goal with H : canon _ = _ |- _ => by apply canon_Ok in H end.
Qed.

Lemma validate_vault_parts vault u :
  VaultFileV1_validate vault = Ok u →
  validate_header vault = Ok tt ∧ validate_policy vault = Ok tt ∧
  validate_items vault = Ok tt ∧ validate_migration vault = Ok tt ∧
  validate_slot_inventory vault = Ok tt.
Proof.
  unfold VaultFileV1_validate. intros Hv. by repeat inv_ok_step.
Qed.

(** ** Items *)

(** An item's revisions are linked from the zero digest by their hashes. *)
Inductive item_linked : list SignedItemRevisionV1 → Digest32 → Prop :=
  | item_linked_nil : item_linked [] ZERO_DIGEST
  | item_linked_snoc revs h1 r h2 :
      item_linked revs h1 →
      ir_previous_item_revision_hash r = h1 →
      SignedItemRevisionV1_recomputed_hash r = Ok h2 →
      item_linked (revs ++ [r]) h2.

Definition item_revisions (item : ItemEnvelopeV1) : list SignedItemRevisionV1 :=
  ie_prior_revisions item ++ [ie_current_revision item].

Definition item_nonces (item : ItemEnvelopeV1) : list Nonce12 :=
  dm_nonce (ie_descriptor item) :: (ir_nonce <$> item_revisions item).

Definition item_seals (item : ItemEnvelopeV1) : list RevisionSealId :=
  dm_revision_seal_id (ie_descriptor item) :: (ir_revision_seal_id <$> item_revisions item).

(** The seals and nonces used so far, none of them twice. *)
Definition uses (seals : list RevisionSealId) (nonces : list Nonce12)
    (st : gmap RevisionSealId seal_scope * gset Nonce12) : Prop :=
  NoDup seals ∧ dom st.1 = list_to_set seals ∧ NoDup nonces ∧ st.2 = list_to_set nonces.

Lemma uses_insert seals nonces m s seal scope role rev nonce m' s' :
  uses seals nonces (m, s) →
  insert_seal m seal scope role rev = Ok m' → insert_nonce s nonce = Ok s' →
  uses (seals ++ [seal]) (nonces ++ [nonce]) (m', s').
Proof.
  unfold uses, insert_seal, insert_nonce. cbn [fst snd]. intros (Hs & Hm & Hn & ->).
  intros [Hseal <-%Ok_inj]%reject_if_bind [Hnonce <-%Ok_inj]%reject_if_bind. to_prop.
  rw elem_of_list_to_set in Hnonce. rw !NoDup_snoc !list_to_set_snoc dom_insert_L Hm.
  split_and!; try done. intros Hin. rw -(elem_of_list_to_set (C := gset _)) -Hm in Hin.
  apply elem_of_dom in Hin as [x Hx]. by rw Hx in Hseal.
Qed.

(** One revision proof of an item, by its place in the chain. *)
Definition revision_in_item (vault_id : VaultId) (item_id : ItemId) (final_policy_sequence : N)
    (i : nat) (r : SignedItemRevisionV1) : Prop :=
  ir_vault_id r = vault_id ∧ ir_item_id r = item_id ∧ ir_item_revision r = N.of_nat (S i) ∧
  ir_key_epoch r ≠ 0%N ∧ (ir_policy_sequence r ≤ final_policy_sequence)%N ∧
  ir_plaintext_schema r = 1%N ∧ (1 ≤ ir_bucket_id r ≤ 12)%N.

Lemma bucket_ok b n : bucket_ciphertext_length b = Ok n → (1 ≤ b ≤ 12)%N ∧ n = (4096 * 2 ^ (b - 1) + 16)%N.
Proof.
  unfold bucket_ciphertext_length. destruct (_ && _)%bool eqn:Hb; [|done]. to_prop.
  rw ok_or_Ok. intros Hn. split; [lia|].
  assert (b = 1 ∨ b = 2 ∨ b = 3 ∨ b = 4 ∨ b = 5 ∨ b = 6 ∨ b = 7 ∨ b = 8 ∨ b = 9 ∨ b = 10 ∨
    b = 11 ∨ b = 12)%N as Hcases by lia.
  destruct_or! Hcases; subst b; vm_compute in Hn; by injection Hn as <-.
Qed.

Record item_chain (vault_id : VaultId) (item_id : ItemId) (final_policy_sequence : N)
    (seals : list RevisionSealId) (nonces : list Nonce12) (revs : list SignedItemRevisionV1)
    (st : N * Digest32 * gmap RevisionSealId seal_scope * gset Nonce12) : Prop := {
  ic_index : st.1.1.1 = len revs;
  ic_linked : item_linked revs st.1.1.2;
  ic_context : ∀ i r, revs !! i = Some r →
    revision_in_item vault_id item_id final_policy_sequence i r;
  ic_uses : uses (seals ++ (ir_revision_seal_id <$> revs)) (nonces ++ (ir_nonce <$> revs))
    (st.1.2, st.2);
}.

Lemma item_revision_step_ok vault_id item_id final seals nonces revs st r st' :
  item_chain vault_id item_id final seals nonces revs st →
  item_revision_step vault_id item_id final st r = Ok st' →
  item_chain vault_id item_id final seals nonces (revs ++ [r]) st'.
Proof.
  intros [Hi Hl Hc Hu]. destruct st as [[[i h] m] s]. cbn [fst snd] in *.
  unfold item_revision_step, validate_item_revision.
  intros Hstep. repeat inv_ok_step. to_prop.
  match goal with H : bucket_ciphertext_length _ = Ok _ |- _ => apply bucket_ok in H as [? _] end.
  split; cbn [fst snd].
  - by rw len_app.
  - eapply item_linked_snoc; [done|done|by apply canon_Ok].
  - intros i x [?|[-> ->]]%lookup_snoc_inv; [eauto|]. unfold revision_in_item, len in *.
    split_and!; try done; lia.
  - rw !fmap_app !(assoc_L (++)). by eapply uses_insert.
Qed.

(** What one item envelope shows. *)
Record item_ok (vault : VaultFileV1) (item : ItemEnvelopeV1) : Prop := {
  io_descriptor : validate_descriptor_metadata (ie_descriptor item) = Ok tt;
  io_epoch : dm_key_epoch (ie_descriptor item) = ir_key_epoch (ie_current_revision item);
  io_descriptor_digest :
    sha256 (ie_descriptor_ciphertext item) = dm_ciphertext_digest (ie_descriptor item);
  io_chain : ∃ h, item_linked (item_revisions item) h;
  io_revisions : ∀ i r, item_revisions item !! i = Some r →
    revision_in_item (vh_vault_id (vf_header vault)) (ie_item_id item)
      (len (pj_revisions (vf_policy vault))) i r;
  io_body_digest :
    sha256 (ie_body_ciphertext item) = ir_ciphertext_digest (ie_current_revision item);
  io_body_length :
    len (ie_body_ciphertext item) = (4096 * 2 ^ (ir_bucket_id (ie_current_revision item) - 1) + 16)%N;
}.

Lemma validate_item_ok vault item seals nonces st st' :
  uses seals nonces st → validate_item vault item st.1 st.2 = Ok st' →
  item_ok vault item ∧ uses (seals ++ item_seals item) (nonces ++ item_nonces item) st'.
Proof.
  intros Hu Hv. destruct st as [m s]. unfold validate_item in Hv. cbn [fst snd] in Hv.
  repeat inv_ok_step.
  match goal with H : foldE _ _ _ = Ok ?r |- _ => destruct r as [[[i h] m'] s']; rename H into Hf end.
  repeat inv_ok_step. to_prop.
  match goal with H : insert_seal m _ _ _ _ = _, H' : insert_nonce s _ = _ |- _ =>
    pose proof (uses_insert _ _ _ _ _ _ _ _ _ _ _ Hu H H') as Hu' end.
  match goal with H : bucket_ciphertext_length _ = Ok _ |- _ => apply bucket_ok in H as [? ->] end.
  eapply (foldE_invariant (item_chain _ _ _ (seals ++ [dm_revision_seal_id (ie_descriptor item)])
    (nonces ++ [dm_nonce (ie_descriptor item)])) _ (item_revision_step_ok _ _ _ _ _) _ []) in Hf.
  - destruct Hf as [_ Hl Hc Huses]. cbn [fst snd app] in *. split.
    + split; try done; [by eexists|by etrans].
    + unfold item_seals, item_nonces. by rewrite <- !app_assoc in Huses.
  - split; cbn [fst snd]; [done|constructor|done|]. by rw !fmap_nil !app_nil_r.
Qed.

(** The items read so far. *)
Record items_prefix (vault : VaultFileV1) (items : list ItemEnvelopeV1) (st : item_scan) : Prop := {
  ip_prior : isc_prior_item st = ie_item_id <$> last items;
  ip_count : isc_proof_count st = N.of_nat (sum_list_with (λ i, length (ie_prior_revisions i)) items);
  ip_sorted : sorted_by_key ie_item_id items = true;
  ip_items : Forall (item_ok vault) items;
  ip_uses : uses (items ≫= item_seals) (items ≫= item_nonces) (isc_seal_scopes st, isc_nonces st);
}.

Lemma items_step_ok vault items st item st' :
  items_prefix vault items st → items_step vault st item = Ok st' →
  items_prefix vault (items ++ [item]) st'.
Proof.
  intros [Hp Hc Hs Hi Hu]. unfold items_step. intros Hstep. repeat inv_ok_step.
  match goal with H : validate_item _ _ _ _ = Ok ?r |- _ =>
    apply (validate_item_ok _ _ _ _ _ _ Hu) in H as [Hok Hu']; destruct r end.
  match goal with H : checked_add_u64 _ _ = _ |- _ => apply checked_add_u64_Some in H as -> end.
  split; cbn [isc_prior_item isc_proof_count isc_seal_scopes isc_nonces fst snd].
  - by rw last_snoc.
  - rw Hc sum_list_with_app. unfold len. simpl. lia.
  - apply sorted_by_key_snoc. split; [done|]. rw Hp in Hr. by destruct (last items).
  - by rw Forall_app Forall_singleton.
  - rw !bind_app /= !app_nil_r. done.
Qed.

Lemma validate_items_ok vault u :
  validate_items vault = Ok u →
  sorted_by_key ie_item_id (vf_items vault) = true ∧ Forall (item_ok vault) (vf_items vault) ∧
  NoDup (vf_items vault ≫= item_seals) ∧ NoDup (vf_items vault ≫= item_nonces) ∧
  (N.of_nat (sum_list_with (λ i, length (ie_prior_revisions i)) (vf_items vault))
    ≤ MAX_ITEM_REVISION_PROOFS)%N ∧ (len (vf_items vault) ≤ MAX_ITEMS)%N.
Proof.
  unfold validate_items. intros Hv. repeat inv_ok_step. to_prop.
  match goal with H : foldE _ _ _ = Ok _ |- _ => rename H into Hf end.
  eapply (foldE_invariant (items_prefix vault) _ (items_step_ok vault) _ []) in Hf.
  - destruct Hf as [_ Hc ? ? (? & _ & ? & _)]. by rw -Hc.
  - split; cbn; try done. unfold uses. cbn. by rw dom_empty_L !NoDup_nil.
Qed.
End vault.
