(* ===== verification/WitnessPolicy.v ===== *)
(** * Witness policies

    [crates/jury-core/src/policy/witness.rs]: approver and witness descriptors,
    operation rules and the policy that combines them, with their canonical
    encodings, digests and validation, and the catalogue built from a list of
    policies. [witness_v1_bridge.rs] and [witness_v1/base.rs] give the tags. *)

From S2P Require Import Prelude VaultTypes Canonical Preimage.
Local Open Scope jury_scope.

Definition MAX_POLICY_MEMBERS : N := 32.
Definition MAX_OPERATIONS : N := 9.
Definition MAX_AUTOMATIC_TARGETS : N := 64.
Definition MAX_REQUEST_LIFETIME_MS : N := 900000.

(** [PolicyErrorKind] of [policy/state.rs] *)
Inductive PolicyErrorKind :=
  | InvalidFormat
  | InvalidSignature
  | InvalidAncestry
  | Unauthorized
  | UnknownPrincipal
  | UnknownItem
  | IdentifierReused
  | InvalidRole
  | SoleOwner
  | InvalidTransition
  | IncompleteRotation
  | AmbiguousMutation
  | StateHashMismatch
  | EntropyUnavailable
  | RetryExhausted
  | CapacityExhausted
  | MissingWitnessPolicy.

(** ** Enumerations *)

Inductive DescriptorStatus := DS_Active | DS_Revoked.
Inductive ApprovalMode := APM_Human | APM_Automatic.
Inductive WitnessOperation :=
  | WO_ReadStdout
  | WO_WritePrivateFile
  | WO_TemplateInjection
  | WO_ChildEnvironment
  | WO_ChildStdin
  | WO_ItemMutation
  | WO_Backup
  | WO_Recovery
  | WO_AdministrativeRekey.
Inductive PlatformAssurance := PA_NormalizedPathOnly | PA_StableExecutableIdentity.

Definition status_tag (s : DescriptorStatus) : N :=
  match s with DS_Active => 1 | DS_Revoked => 2 end.

Definition approval_mode_tag (m : ApprovalMode) : N :=
  match m with APM_Human => 1 | APM_Automatic => 2 end.

Definition witness_operation_tag (o : WitnessOperation) : N :=
  match o with
  | WO_ReadStdout => 1
  | WO_WritePrivateFile => 2
  | WO_TemplateInjection => 3
  | WO_ChildEnvironment => 4
  | WO_ChildStdin => 5
  | WO_ItemMutation => 6
  | WO_Backup => 7
  | WO_Recovery => 8
  | WO_AdministrativeRekey => 9
  end.

Definition platform_assurance_tag (a : PlatformAssurance) : N :=
  match a with PA_NormalizedPathOnly => 1 | PA_StableExecutableIdentity => 2 end.

Global Instance DescriptorStatus_eq_dec : EqDecision DescriptorStatus.
Proof. solve_decision. Defined.
Global Instance ApprovalMode_eq_dec : EqDecision ApprovalMode.
Proof. solve_decision. Defined.
Global Instance WitnessOperation_eq_dec : EqDecision WitnessOperation.
Proof. solve_decision. Defined.
Global Instance PlatformAssurance_eq_dec : EqDecision PlatformAssurance.
Proof. solve_decision. Defined.

(** [derive(Ord)]: the variants in declaration order, which is tag order. *)
Global Instance WitnessOperation_ord : Ord WitnessOperation := λ x y,
  N.compare (witness_operation_tag x) (witness_operation_tag y).

(** ** Descriptors and rules *)

Record AutomaticReadTarget := {
  art_item_id : ItemId;
  art_content_role : ContentRole;
  art_field_id : option FieldId;
}.

Record ApproverPolicyDescriptor := {
  ad_schema : N;
  ad_approver_id : PrincipalId;
  ad_signing_public_key : VerificationPublicKey32;
  ad_signing_key_fingerprint : Digest32;
  ad_signing_key_epoch : N;
  ad_status : DescriptorStatus;
  ad_approval_mode : ApprovalMode;
  ad_allowed_operations : list WitnessOperation;
  ad_created_at_ms : N;
  ad_self_signature : Signature64;
}.

Record WitnessPolicyDescriptor := {
  wd_schema : N;
  wd_witness_id : PrincipalId;
  wd_share_index : N;
  wd_signing_public_key : VerificationPublicKey32;
  wd_signing_key_fingerprint : Digest32;
  wd_signing_key_epoch : N;
  wd_contribution_public_key : RecipientPublicKey1216;
  wd_contribution_key_fingerprint : Digest32;
  wd_contribution_key_epoch : N;
  wd_status : DescriptorStatus;
  wd_created_at_ms : N;
  wd_self_signature : Signature64;
}.

Record OperationRule := {
  rule_operation : WitnessOperation;
  rule_eligible_approver_ids : list PrincipalId;
  rule_approval_threshold : N;
  rule_allowed_request_lifetime_ms : N;
  rule_max_timeout_ms : N;
  rule_max_output_bytes : N;
  rule_max_target_count : N;
  rule_required_platform_assurance : PlatformAssurance;
  rule_automatic_read_targets : list AutomaticReadTarget;
}.

Record WitnessPolicy := {
  wp_schema : N;
  wp_witness_policy_id : WitnessPolicyId;
  wp_revision : N;
  wp_predecessor_policy_digest : Digest32;
  wp_vault_id : VaultId;
  wp_genesis_fingerprint : Digest32;
  wp_vault_policy_sequence : N;
  wp_vault_policy_hash : Digest32;
  wp_construction : N;
  wp_suite : N;
  wp_approver_descriptors : list ApproverPolicyDescriptor;
  wp_witness_descriptors : list WitnessPolicyDescriptor;
  wp_witness_threshold : N;
  wp_operation_rules : list OperationRule;
  wp_review_label_set_digest : Digest32;
  wp_direct_fallback : bool;
}.

Global Instance AutomaticReadTarget_eq_dec : EqDecision AutomaticReadTarget.
Proof. solve_decision. Defined.
Global Instance ApproverPolicyDescriptor_eq_dec : EqDecision ApproverPolicyDescriptor.
Proof. solve_decision. Defined.
Global Instance WitnessPolicyDescriptor_eq_dec : EqDecision WitnessPolicyDescriptor.
Proof. solve_decision. Defined.
Global Instance OperationRule_eq_dec : EqDecision OperationRule.
Proof. solve_decision. Defined.
Global Instance WitnessPolicy_eq_dec : EqDecision WitnessPolicy.
Proof. solve_decision. Defined.

(** [derive(Ord)]: the fields in declaration order. *)
Global Instance AutomaticReadTarget_ord : Ord AutomaticReadTarget := λ x y,
  cmp (art_item_id x, art_content_role x, art_field_id x)
      (art_item_id y, art_content_role y, art_field_id y).

(** ** Canonical encodings *)

Definition to_capacity {A} (r : result LengthOverflow A) : result PolicyErrorKind A :=
  map_err (λ _, CapacityExhausted) r.

Definition pol_bytes_field (output value : bytes) : result PolicyErrorKind bytes :=
  to_capacity (bytes_field output value).

Definition pol_list_fixed (output : bytes) (values : list bytes) : result PolicyErrorKind bytes :=
  to_capacity (list_fixed output values (λ output value, output ++ value)).

Definition pol_list_bytes (output : bytes) (values : list bytes) : result PolicyErrorKind bytes :=
  to_capacity (list_bytes output values).

Definition preimage_with_body (domain : string) (body : bytes) : result PolicyErrorKind bytes :=
  pol_bytes_field (jce_v1 domain) body.

Definition ApproverPolicyDescriptor_canonical_body (d : ApproverPolicyDescriptor)
    : result PolicyErrorKind bytes :=
  output ← pol_list_fixed
    (u16be (ad_schema d) ++
     ad_approver_id d ++
     ad_signing_public_key d ++
     ad_signing_key_fingerprint d ++
     u64be (ad_signing_key_epoch d) ++
     push (status_tag (ad_status d)) ++
     push (approval_mode_tag (ad_approval_mode d)))
    ((λ operation, push (witness_operation_tag operation)) <$> ad_allowed_operations d);
  Ok (output ++ u64be (ad_created_at_ms d)).

Definition ApproverPolicyDescriptor_canonical_bytes (d : ApproverPolicyDescriptor)
    : result PolicyErrorKind bytes :=
  output ← ApproverPolicyDescriptor_canonical_body d;
  Ok (output ++ ad_self_signature d).

Definition ApproverPolicyDescriptor_self_signature_preimage (d : ApproverPolicyDescriptor)
    : result PolicyErrorKind bytes :=
  body ← ApproverPolicyDescriptor_canonical_body d;
  preimage_with_body "jury-witness-v1/approver-descriptor/self-signature" body.

Definition WitnessPolicyDescriptor_canonical_body (d : WitnessPolicyDescriptor) : bytes :=
  u16be (wd_schema d) ++
  wd_witness_id d ++
  push (wd_share_index d) ++
  wd_signing_public_key d ++
  wd_signing_key_fingerprint d ++
  u64be (wd_signing_key_epoch d) ++
  wd_contribution_public_key d ++
  wd_contribution_key_fingerprint d ++
  u64be (wd_contribution_key_epoch d) ++
  push (status_tag (wd_status d)) ++
  u64be (wd_created_at_ms d).

Definition WitnessPolicyDescriptor_canonical_bytes (d : WitnessPolicyDescriptor) : bytes :=
  WitnessPolicyDescriptor_canonical_body d ++ wd_self_signature d.

Definition WitnessPolicyDescriptor_self_signature_preimage (d : WitnessPolicyDescriptor)
    : result PolicyErrorKind bytes :=
  preimage_with_body "jury-witness-v1/witness-descriptor/self-signature"
    (WitnessPolicyDescriptor_canonical_body d).

Definition AutomaticReadTarget_bytes (t : AutomaticReadTarget) : bytes :=
  art_item_id t ++ push (ContentRole_tag (art_content_role t)) ++
  match art_field_id t with
  | Some field_id => push 1 ++ field_id
  | None => push 0
  end.

Definition OperationRule_canonical_bytes (r : OperationRule) : result PolicyErrorKind bytes :=
  output ← pol_list_fixed (push (witness_operation_tag (rule_operation r)))
             (rule_eligible_approver_ids r);
  pol_list_bytes
    (output ++
     push (rule_approval_threshold r) ++
     u64be (rule_allowed_request_lifetime_ms r) ++
     u64be (rule_max_timeout_ms r) ++
     be_bytes 4 (rule_max_output_bytes r) ++
     push (rule_max_target_count r) ++
     push (platform_assurance_tag (rule_required_platform_assurance r)))
    (AutomaticReadTarget_bytes <$> rule_automatic_read_targets r).

Definition bool_byte (b : bool) : bytes := push (if b then 1%N else 0%N).

Definition WitnessPolicy_canonical_body (p : WitnessPolicy) : result PolicyErrorKind bytes :=
  approvers ← mapE ApproverPolicyDescriptor_canonical_bytes (wp_approver_descriptors p);
  let witnesses := WitnessPolicyDescriptor_canonical_bytes <$> wp_witness_descriptors p in
  rules ← mapE OperationRule_canonical_bytes (wp_operation_rules p);
  output ← pol_list_bytes
    (u16be (wp_schema p) ++
     wp_witness_policy_id p ++
     u64be (wp_revision p) ++
     wp_predecessor_policy_digest p ++
     wp_vault_id p ++
     wp_genesis_fingerprint p ++
     u64be (wp_vault_policy_sequence p) ++
     wp_vault_policy_hash p ++
     u16be (wp_construction p) ++
     u16be (wp_suite p)) approvers;
  output ← pol_list_bytes output witnesses;
  output ← pol_list_bytes (output ++ push (wp_witness_threshold p)) rules;
  Ok (output ++ wp_review_label_set_digest p ++ bool_byte (wp_direct_fallback p)).

(** ** Validation *)

(** [!(lo..=hi).contains(&n)] *)
Definition outside (lo hi n : N) : bool := negb ((lo <=? n)%N && (n <=? hi)%N).

Definition target_shape_ok (t : AutomaticReadTarget) : bool :=
  match art_content_role t, art_field_id t with
  | CR_Descriptor, None | CR_Body, Some _ => true
  | _, _ => false
  end.

Definition OperationRule_validate (r : OperationRule) : result PolicyErrorKind unit :=
  let threshold := rule_approval_threshold r in
  let is_automatic := rule_approval_threshold r ==? 0%N in
  reject_if
    ((MAX_POLICY_MEMBERS <? len (rule_eligible_approver_ids r))%N ||
     negb (strictly_sorted_unique (rule_eligible_approver_ids r)) ||
     (len (rule_eligible_approver_ids r) <? threshold)%N ||
     outside 1 MAX_REQUEST_LIFETIME_MS (rule_allowed_request_lifetime_ms r) ||
     (rule_max_timeout_ms r ==? 0%N) ||
     (rule_max_output_bytes r ==? 0%N) ||
     (rule_max_target_count r ==? 0%N) ||
     (MAX_AUTOMATIC_TARGETS <? rule_max_target_count r)%N ||
     (MAX_AUTOMATIC_TARGETS <? len (rule_automatic_read_targets r))%N ||
     negb (strictly_sorted_unique (rule_automatic_read_targets r)) ||
     existsb (λ t, negb (target_shape_ok t)) (rule_automatic_read_targets r) ||
     (is_automatic &&
      ((rule_operation r !=? WO_ReadStdout) || (rule_automatic_read_targets r ==? []))) ||
     (negb is_automatic && (rule_automatic_read_targets r !=? [])))
    InvalidTransition.

Definition is_active_witness (d : WitnessPolicyDescriptor) : bool := wd_status d ==? DS_Active.
Definition is_active_approver (d : ApproverPolicyDescriptor) : bool := ad_status d ==? DS_Active.

(** The descriptors with status [Active], in order. *)
Definition active_witness_descriptors (p : WitnessPolicy) : list WitnessPolicyDescriptor :=
  List.filter is_active_witness (wp_witness_descriptors p).
Definition active_approver_descriptors (p : WitnessPolicy) : list ApproverPolicyDescriptor :=
  List.filter is_active_approver (wp_approver_descriptors p).

Section with_crypto.
Context `{Crypto}.

Definition hash_body (domain : string) (body : bytes) : result PolicyErrorKind Digest32 :=
  sha256 <$> preimage_with_body domain body.

Definition signing_key_fingerprint (role : N) (subject_id : PrincipalId) (epoch : N)
    (public_key : VerificationPublicKey32) : Digest32 :=
  sha256 (jce_v1 "jury-witness-v1/signing-key/fingerprint" ++
          push role ++ subject_id ++ u64be epoch ++ public_key).

(** [crypto::verify_bytes(..).map_err(..)] *)
Definition check_signature (key : VerificationPublicKey32) (message : bytes)
    (signature : Signature64) : result PolicyErrorKind unit :=
  reject_if (negb (verify_bytes key message signature)) InvalidSignature.

Definition ApproverPolicyDescriptor_fingerprint (d : ApproverPolicyDescriptor)
    : result PolicyErrorKind Digest32 :=
  body ← ApproverPolicyDescriptor_canonical_body d;
  hash_body "jury-witness-v1/approver-descriptor/fingerprint" body.

Definition ApproverPolicyDescriptor_validate (d : ApproverPolicyDescriptor)
    : result PolicyErrorKind unit :=
  reject_if
    ((ad_schema d !=? 1%N) ||
     (ad_signing_key_epoch d ==? 0%N) ||
     (ad_allowed_operations d ==? []) ||
     (MAX_OPERATIONS <? len (ad_allowed_operations d))%N ||
     negb (strictly_sorted_unique (ad_allowed_operations d)) ||
     (ad_signing_key_fingerprint d !=?
      signing_key_fingerprint 2 (ad_approver_id d) (ad_signing_key_epoch d)
        (ad_signing_public_key d)))
    InvalidFormat;;
  preimage ← ApproverPolicyDescriptor_self_signature_preimage d;
  check_signature (ad_signing_public_key d) preimage (ad_self_signature d).

Definition WitnessPolicyDescriptor_fingerprint (d : WitnessPolicyDescriptor)
    : result PolicyErrorKind Digest32 :=
  hash_body "jury-witness-v1/witness-descriptor/fingerprint"
    (WitnessPolicyDescriptor_canonical_body d).

Definition WitnessPolicyDescriptor_validate (d : WitnessPolicyDescriptor)
    : result PolicyErrorKind unit :=
  reject_if
    ((wd_schema d !=? 1%N) ||
     outside 1 32 (wd_share_index d) ||
     (wd_signing_key_epoch d ==? 0%N) ||
     (wd_contribution_key_epoch d ==? 0%N) ||
     (wd_signing_key_fingerprint d !=?
      signing_key_fingerprint 3 (wd_witness_id d) (wd_signing_key_epoch d)
        (wd_signing_public_key d)) ||
     (wd_contribution_key_fingerprint d !=?
      recipient_public_key_fingerprint (wd_contribution_public_key d)))
    InvalidFormat;;
  preimage ← WitnessPolicyDescriptor_self_signature_preimage d;
  check_signature (wd_signing_public_key d) preimage (wd_self_signature d).

Definition WitnessPolicy_digest (p : WitnessPolicy) : result PolicyErrorKind Digest32 :=
  body ← WitnessPolicy_canonical_body p;
  hash_body "jury-witness-v1/policy/hash" body.

(** Every approver a rule names is active and may approve its operation. *)
Definition rule_approvers_check (active_approvers : gmap PrincipalId ApproverPolicyDescriptor)
    (rule : OperationRule) : result PolicyErrorKind unit :=
  forE (λ approver_id,
    approver ← ok_or (active_approvers !! approver_id) InvalidRole;
    reject_if (rule_operation rule ∉? ad_allowed_operations approver) InvalidRole)
    (rule_eligible_approver_ids rule).

Definition WitnessPolicy_validate (p : WitnessPolicy) : result PolicyErrorKind unit :=
  reject_if
    ((wp_schema p !=? 1%N) ||
     (wp_revision p ==? 0%N) ||
     (wp_construction p !=? 1%N) ||
     negb ((wp_suite p ==? 1%N) || (wp_suite p ==? 2%N)) ||
     wp_direct_fallback p ||
     (MAX_POLICY_MEMBERS <? len (wp_approver_descriptors p))%N ||
     (MAX_POLICY_MEMBERS <? len (wp_witness_descriptors p))%N ||
     (wp_operation_rules p ==? []) ||
     (MAX_OPERATIONS <? len (wp_operation_rules p))%N ||
     negb (sorted_by_key ad_approver_id (wp_approver_descriptors p)) ||
     negb (sorted_by_key wd_witness_id (wp_witness_descriptors p)) ||
     negb (sorted_by_key rule_operation (wp_operation_rules p)) ||
     ((wp_revision p ==? 1%N) && (wp_predecessor_policy_digest p !=? ZERO_DIGEST)) ||
     ((1 <? wp_revision p)%N && (wp_predecessor_policy_digest p ==? ZERO_DIGEST)))
    InvalidFormat;;
  forE ApproverPolicyDescriptor_validate (wp_approver_descriptors p);;
  forE WitnessPolicyDescriptor_validate (wp_witness_descriptors p);;
  forE OperationRule_validate (wp_operation_rules p);;
  let active_approvers :=
    collect_map ((λ d, (ad_approver_id d, d)) <$> active_approver_descriptors p) in
  let active_witnesses := active_witness_descriptors p in
  let members := (len (wp_approver_descriptors p) + len (wp_witness_descriptors p))%N in
  let role_ids := collect_set ((ad_approver_id <$> wp_approver_descriptors p) ++
                               (wd_witness_id <$> wp_witness_descriptors p)) in
  reject_if (N.of_nat (size role_ids) !=? members) InvalidRole;;
  reject_if
    (outside 2 32 (len active_witnesses) ||
     outside 2 (len active_witnesses) (wp_witness_threshold p)) InvalidTransition;;
  let share_indexes := collect_set (wd_share_index <$> active_witnesses) in
  reject_if (N.of_nat (size share_indexes) !=? len active_witnesses) InvalidTransition;;
  forE (rule_approvers_check active_approvers) (wp_operation_rules p);;
  let signing_keys := collect_set ((ad_signing_public_key <$> wp_approver_descriptors p) ++
                                   (wd_signing_public_key <$> wp_witness_descriptors p)) in
  reject_if (N.of_nat (size signing_keys) !=? members) InvalidRole;;
  let contribution_keys := collect_set (wd_contribution_public_key <$> wp_witness_descriptors p) in
  reject_if (N.of_nat (size contribution_keys) !=? len (wp_witness_descriptors p)) InvalidRole.

(** ** The catalogue of policies

    The loops of [replay_policy_with_witness_policies], before the replay. *)

Record catalog_scan := {
  cat_catalog : gmap Digest32 WitnessPolicy;
  cat_lineage : gmap (WitnessPolicyId * N) Digest32;
  cat_successors : gmap Digest32 Digest32;
}.

Definition is_some {A} (o : option A) : bool := if o is Some _ then true else false.

Definition catalog_step (st : catalog_scan) (policy : WitnessPolicy)
    : result PolicyErrorKind catalog_scan :=
  WitnessPolicy_validate policy;;
  digest ← WitnessPolicy_digest policy;
  let lineage_key := (wp_witness_policy_id policy, wp_revision policy) in
  reject_if
    (is_some (cat_lineage st !! lineage_key) ||
     ((1 <? wp_revision policy)%N &&
      is_some (cat_successors st !! wp_predecessor_policy_digest policy)))
    InvalidAncestry;;
  reject_if (is_some (cat_catalog st !! digest)) InvalidTransition;;
  Ok {| cat_catalog := <[digest := policy]> (cat_catalog st);
        cat_lineage := <[lineage_key := digest]> (cat_lineage st);
        cat_successors :=
          if (1 <? wp_revision policy)%N
          then <[wp_predecessor_policy_digest policy := digest]> (cat_successors st)
          else cat_successors st |}.

Definition predecessor_check (catalog : gmap Digest32 WitnessPolicy) (policy : WitnessPolicy)
    : result PolicyErrorKind unit :=
  predecessor ← ok_or (catalog !! wp_predecessor_policy_digest policy) InvalidAncestry;
  reject_if
    ((wp_witness_policy_id predecessor !=? wp_witness_policy_id policy) ||
     (checked_add_u64 (wp_revision predecessor) 1 !=? Some (wp_revision policy)))
    InvalidAncestry.

Definition build_catalog (policies : list WitnessPolicy)
    : result PolicyErrorKind (gmap Digest32 WitnessPolicy) :=
  st ← foldE catalog_step {| cat_catalog := ∅; cat_lineage := ∅; cat_successors := ∅ |} policies;
  forE (predecessor_check (cat_catalog st))
    (List.filter (λ p, (1 <? wp_revision p)%N) policies);;
  Ok (cat_catalog st).
End with_crypto.
