(* ===== verification/PolicyState.v ===== *)
(** * The policy state

    [crates/jury-core/src/policy/state.rs] and the [PolicyState] methods of
    [policy/witness.rs]: the state a replayed journal yields, access
    evaluation, the witness authority of an item, and the normalised state
    hash every revision carries. *)

From S2P Require Import Prelude VaultTypes Canonical Preimage WitnessPolicy.
Local Open Scope jury_scope.

Record PrincipalPolicyState := {
  pp_descriptor : PrincipalDescriptorV1;
  pp_display_label : bytes;
}.

Record TombstoneState := {
  ts_deletion_policy_sequence : N;
  ts_final_descriptor_digest : Digest32;
  ts_final_item_revision_hash : Digest32;
}.

Record ItemPolicyState := {
  it_item_kind : ItemKind;
  it_key_epoch : N;
  it_descriptor : DescriptorMetadataV1;
  it_current_item_revision_hash : Digest32;
  it_grants : gmap PrincipalId AccessRole;
  it_direct_slots : list DirectSlotV1;
  it_witnessed_state : option WitnessedStateV1;
}.

Record PolicyState := {
  ps_suite : N;
  ps_vault_id : VaultId;
  ps_genesis_fingerprint : Digest32;
  ps_sequence : N;
  ps_terminal_revision_hash : Digest32;
  ps_revision_hashes : list Digest32;
  ps_principals : gmap PrincipalId PrincipalPolicyState;
  ps_historical_principal_descriptors : gmap PrincipalId PrincipalDescriptorV1;
  ps_historical_principal_ids : gset PrincipalId;
  ps_historical_recipient_keys : gset RecipientPublicKey1216;
  ps_historical_verification_keys : gset VerificationPublicKey32;
  ps_owners : gset PrincipalId;
  ps_items : gmap ItemId ItemPolicyState;
  ps_historical_item_ids : gset ItemId;
  ps_tombstones : gmap ItemId TombstoneState;
  ps_witness_policies : gmap Digest32 WitnessPolicy;
}.

(** [derive(PartialEq)] *)
Global Instance PrincipalPolicyState_eq_dec : EqDecision PrincipalPolicyState.
Proof. solve_decision. Defined.
Global Instance TombstoneState_eq_dec : EqDecision TombstoneState.
Proof. solve_decision. Defined.
Global Instance ItemPolicyState_eq_dec : EqDecision ItemPolicyState.
Proof. solve_decision. Defined.
Global Instance PolicyState_eq_dec : EqDecision PolicyState.
Proof. solve_decision. Defined.

Definition access_mode (item : ItemPolicyState) : option ItemAccessMode :=
  match it_direct_slots item, it_witnessed_state item with
  | _ :: _, Some _ => Some AM_Mixed
  | _ :: _, None => Some AM_DirectOnly
  | [], Some _ => Some AM_WitnessedOnly
  | [], None => None
  end.

(** ** Lineage *)

Definition predecessor_hash_for_sequence (s : PolicyState) (sequence : N) : option Digest32 :=
  if (sequence =? 0)%N then None else ps_revision_hashes s !! N.to_nat (sequence - 1).

Definition starts_with_list {A} `{EqDecision A} (l prefix : list A) : bool :=
  take (length prefix) l ==? prefix.

Definition is_direct_descendant_of (s prior : PolicyState) : bool :=
  (ps_vault_id s ==? ps_vault_id prior) &&
  (ps_genesis_fingerprint s ==? ps_genesis_fingerprint prior) &&
  (ps_sequence s ==? saturating_add_u64 (ps_sequence prior) 1) &&
  (Some (len (ps_revision_hashes prior)) ==? checked_add_u64 (ps_sequence prior) 1) &&
  (len (ps_revision_hashes s) ==? saturating_add_u64 (len (ps_revision_hashes prior)) 1) &&
  starts_with_list (ps_revision_hashes s) (ps_revision_hashes prior) &&
  (last (ps_revision_hashes s) ==? Some (ps_terminal_revision_hash s)) &&
  (last (ps_revision_hashes prior) ==? Some (ps_terminal_revision_hash prior)).

(** ** Access *)

Inductive Capability := Cap_Read | Cap_Write | Cap_Administer.

Inductive AccessPath := AP_Direct | AP_Witnessed | AP_Mixed | AP_Unavailable.

Inductive AccessReason :=
  | AX_Allowed
  | AX_UnknownItem
  | AX_UnknownPrincipal
  | AX_RoleDenied
  | AX_NoUsableDirectSlot.

Record AccessExplanation := {
  ax_allowed : bool;
  ax_effective_role : option AccessRole;
  ax_path : AccessPath;
  ax_carries_quorum_claim : bool;
  ax_reason : AccessReason;
}.

Definition denied (reason : AccessReason) (role : option AccessRole) : AccessExplanation := {|
  ax_allowed := false;
  ax_effective_role := role;
  ax_path := AP_Unavailable;
  ax_carries_quorum_claim := false;
  ax_reason := reason;
|}.

Definition role_permits (role : AccessRole) (capability : Capability) : bool :=
  match role, capability with
  | AR_Reader, Cap_Read => true
  | AR_Writer, Cap_Read | AR_Writer, Cap_Write => true
  | AR_Owner, _ => true
  | _, _ => false
  end.

Definition effective_role (s : PolicyState) (item_id : ItemId) (principal_id : PrincipalId)
    : option AccessRole :=
  if principal_id ∈? ps_owners s then Some AR_Owner
  else item ← ps_items s !! item_id; it_grants item !! principal_id.

Definition effective_reader_ids (s : PolicyState) (item_id : ItemId) : list PrincipalId :=
  sorted_elements
    (ps_owners s ∪
     match ps_items s !! item_id with Some item => dom (it_grants item) | None => ∅ end).

Definition has_direct_slot (item : ItemPolicyState) (principal_id : PrincipalId) : bool :=
  existsb (λ slot, ds_recipient_principal_id slot ==? principal_id) (it_direct_slots item).

Definition access (s : PolicyState) (item_id : ItemId) (principal_id : PrincipalId)
    (capability : Capability) : AccessExplanation :=
  match ps_items s !! item_id with
  | None => denied AX_UnknownItem None
  | Some item =>
      match ps_principals s !! principal_id with
      | None => denied AX_UnknownPrincipal None
      | Some _ =>
          match effective_role s item_id principal_id with
          | None => denied AX_RoleDenied None
          | Some role =>
              if negb (role_permits role capability) then denied AX_RoleDenied (Some role)
              else
                let direct := has_direct_slot item principal_id in
                let witnessed := is_some (it_witnessed_state item) in
                let path := match direct, witnessed with
                            | true, true => AP_Mixed
                            | true, false => AP_Direct
                            | false, true => AP_Witnessed
                            | false, false => AP_Unavailable
                            end in
                match path with
                | AP_Unavailable => denied AX_NoUsableDirectSlot (Some role)
                | _ => {| ax_allowed := true;
                          ax_effective_role := Some role;
                          ax_path := path;
                          ax_carries_quorum_claim := negb direct && witnessed;
                          ax_reason := AX_Allowed |}
                end
          end
      end
  end.

(** ** Witness authority *)

Record WitnessAuthority := {
  wa_policy_id : WitnessPolicyId;
  wa_policy_revision : N;
  wa_policy_digest : Digest32;
  wa_threshold : N;
  wa_member_ids : list PrincipalId;
  wa_reachable : bool;
  wa_carries_quorum_claim : bool;
}.

Definition has_kind (s : PolicyState) (kind : PrincipalKind) (principal_id : PrincipalId) : bool :=
  match ps_principals s !! principal_id with
  | Some principal => pd_principal_kind (pp_descriptor principal) ==? kind
  | None => false
  end.

Definition witness_authority (s : PolicyState) (item_id : ItemId)
    : result PolicyErrorKind (option WitnessAuthority) :=
  item ← ok_or (ps_items s !! item_id) UnknownItem;
  match it_witnessed_state item with
  | None => Ok None
  | Some witnessed =>
      first ← ok_or (head (wst_slots witnessed)) InvalidFormat;
      let member_ids := wc_witness_id <$> ws_capsules first in
      let active_count := len (List.filter (has_kind s PK_Witness) member_ids) in
      Ok (Some {| wa_policy_id := ws_witness_policy_id first;
                  wa_policy_revision := ws_witness_policy_revision first;
                  wa_policy_digest := ws_witness_policy_digest first;
                  wa_threshold := ws_threshold first;
                  wa_member_ids := member_ids;
                  wa_reachable := (ws_threshold first <=? active_count)%N;
                  wa_carries_quorum_claim :=
                    match it_direct_slots item with [] => true | _ => false end |})
  end.

Record WitnessAccessRule := {
  war_policy_id : WitnessPolicyId;
  war_policy_revision : N;
  war_policy_digest : Digest32;
  war_operation : WitnessOperation;
  war_eligible_approver_ids : list PrincipalId;
  war_approval_threshold : N;
  war_witness_ids : list PrincipalId;
  war_witness_threshold : N;
  war_allowed_request_lifetime_ms : N;
  war_max_timeout_ms : N;
  war_max_output_bytes : N;
  war_max_target_count : N;
  war_required_platform_assurance : PlatformAssurance;
  war_automatic_read_targets : list AutomaticReadTarget;
  war_carries_quorum_claim : bool;
}.

Definition witness_access_rule (s : PolicyState) (item_id : ItemId) (operation : WitnessOperation)
    : result PolicyErrorKind WitnessAccessRule :=
  authority ← witness_authority s item_id;
  authority ← ok_or authority InvalidRole;
  policy ← ok_or (ps_witness_policies s !! wa_policy_digest authority) MissingWitnessPolicy;
  rule ← ok_or (List.find (λ rule, rule_operation rule ==? operation) (wp_operation_rules policy))
           Unauthorized;
  Ok {| war_policy_id := wp_witness_policy_id policy;
        war_policy_revision := wp_revision policy;
        war_policy_digest := wa_policy_digest authority;
        war_operation := operation;
        war_eligible_approver_ids := rule_eligible_approver_ids rule;
        war_approval_threshold := rule_approval_threshold rule;
        war_witness_ids := wd_witness_id <$> active_witness_descriptors policy;
        war_witness_threshold := wp_witness_threshold policy;
        war_allowed_request_lifetime_ms := rule_allowed_request_lifetime_ms rule;
        war_max_timeout_ms := rule_max_timeout_ms rule;
        war_max_output_bytes := rule_max_output_bytes rule;
        war_max_target_count := rule_max_target_count rule;
        war_required_platform_assurance := rule_required_platform_assurance rule;
        war_automatic_read_targets := rule_automatic_read_targets rule;
        war_carries_quorum_claim := wa_carries_quorum_claim authority |}.

(** ** The normalised state *)

(** Orders a list by a key ([sort_by] with a comparison of keys). *)
Definition key_le {A K} `{Ord K} (key : A → K) (x y : A) : Prop := ord_le (key x) (key y).

Global Instance key_le_dec {A K} `{Ord K} (key : A → K) : RelDecision (key_le key).
Proof. intros x y. unfold key_le. apply _. Defined.

Definition sort_by_key {A K} `{Ord K} (key : A → K) (l : list A) : list A :=
  merge_sort (key_le key) l.

Definition item_entry_bytes (e : ItemId * ItemPolicyState) : result PolicyErrorKind bytes :=
  let '(item_id, item) := e in
  mode ← ok_or (access_mode item) InvalidTransition;
  Ok (item_id ++
      push (ItemKind_tag (it_item_kind item)) ++
      push (ItemAccessMode_tag mode) ++
      u64be (it_key_epoch item) ++
      DescriptorMetadataV1_canonical_bytes (it_descriptor item) ++
      it_current_item_revision_hash item).

Definition tombstone_entry_bytes (e : ItemId * TombstoneState) : bytes :=
  let '(item_id, tombstone) := e in
  item_id ++
  u64be (ts_deletion_policy_sequence tombstone) ++
  ts_final_descriptor_digest tombstone ++
  ts_final_item_revision_hash tombstone.

Definition grant_entry_bytes (item_id : ItemId) (g : PrincipalId * AccessRole) : bytes :=
  item_id ++ g.1 ++ push (AccessRole_tag g.2).

Definition revision_entry_bytes (e : ItemId * ItemPolicyState) : bytes :=
  e.1 ++ it_current_item_revision_hash e.2.

Definition direct_entry (item_id : ItemId) (slot : DirectSlotV1)
    : ItemId * ContentRole * PrincipalId * bytes :=
  (item_id, ds_content_role slot, ds_recipient_principal_id slot,
   DirectSlotV1_canonical_bytes slot).

Definition state_grant_entries (s : PolicyState) : list bytes :=
  entries (ps_items s) ≫= λ e, grant_entry_bytes e.1 <$> entries (it_grants e.2).

Definition state_direct_entries (s : PolicyState) : list (ItemId * ContentRole * PrincipalId * bytes) :=
  sort_by_key id
    (entries (ps_items s) ≫= λ e, direct_entry e.1 <$> it_direct_slots e.2).

Definition slots_of (item : ItemPolicyState) : list WitnessedSlotV1 :=
  match it_witnessed_state item with Some state => wst_slots state | None => [] end.

Definition witnessed_sort_key (slot : WitnessedSlotV1)
    : ItemId * ContentRole * N * RevisionSealId * SlotId :=
  (ws_item_id slot, ws_content_role slot, ws_revision slot, ws_revision_seal_id slot,
   ws_slot_id slot).

Definition state_witnessed_slots (s : PolicyState) : list WitnessedSlotV1 :=
  sort_by_key witnessed_sort_key (values (ps_items s) ≫= slots_of).

Section with_crypto.
Context `{Crypto}.

Definition witnessed_marker (slots : list WitnessedSlotV1) : result PolicyErrorKind bytes :=
  match slots with
  | [] => Ok (push 0)
  | _ => digest ← map_err (λ _, InvalidFormat) (witnessed_slot_set_digest slots);
         Ok (push 1 ++ digest)
  end.

Definition normalized_state_preimage (s : PolicyState) : result PolicyErrorKind bytes :=
  let output := jce_v1 "jury-v1/policy-state/hash" ++
    u16be (ps_suite s) ++ ps_vault_id s ++ u64be (ps_sequence s) in
  output ← pol_list_bytes output
    ((λ principal, PrincipalDescriptorV1_canonical_bytes (pp_descriptor principal)) <$>
     values (ps_principals s));
  output ← pol_list_fixed output (sorted_elements (ps_owners s));
  item_entries ← mapE item_entry_bytes (entries (ps_items s));
  output ← pol_list_fixed output item_entries;
  output ← pol_list_fixed output (tombstone_entry_bytes <$> entries (ps_tombstones s));
  output ← pol_list_fixed output (state_grant_entries s);
  output ← pol_list_fixed output (state_direct_entries s).*2;
  marker ← witnessed_marker (state_witnessed_slots s);
  pol_list_fixed (output ++ marker) (revision_entry_bytes <$> entries (ps_items s)).

Definition normalized_state_hash (s : PolicyState) : result PolicyErrorKind Digest32 :=
  sha256 <$> normalized_state_preimage s.

(** ** Active witness policies *)

Definition active_policy_digests (s : PolicyState) : list Digest32 :=
  sorted_elements (collect_set (values (ps_items s) ≫= λ item,
    ws_witness_policy_digest <$> slots_of item)).

Definition active_policy_entry (s : PolicyState) (digest : Digest32)
    : result PolicyErrorKind (Digest32 * WitnessPolicy) :=
  policy ← ok_or (ps_witness_policies s !! digest) MissingWitnessPolicy;
  reject_if
    ((ps_sequence s <? wp_vault_policy_sequence policy)%N ||
     (predecessor_hash_for_sequence s (wp_vault_policy_sequence policy) !=?
      Some (wp_vault_policy_hash policy)))
    InvalidAncestry;;
  recomputed ← WitnessPolicy_digest policy;
  reject_if (recomputed !=? digest) InvalidAncestry;;
  Ok (digest, policy).

Definition unique_witness_step (witnesses : gmap PrincipalId WitnessPolicyDescriptor)
    (d : WitnessPolicyDescriptor)
    : result PolicyErrorKind (gmap PrincipalId WitnessPolicyDescriptor) :=
  reject_if (differs (witnesses !! wd_witness_id d) d) InvalidFormat;;
  Ok (<[wd_witness_id d := d]> witnesses).

Definition active_witness_policy_entries (s : PolicyState)
    : result PolicyErrorKind (list (Digest32 * WitnessPolicy)) :=
  policies ← mapE (active_policy_entry s) (active_policy_digests s);
  foldE unique_witness_step ∅ (policies ≫= λ p, active_witness_descriptors p.2);;
  Ok policies.

Definition active_witness_policies (s : PolicyState) : result PolicyErrorKind (list WitnessPolicy) :=
  policies ← active_witness_policy_entries s;
  Ok policies.*2.

(** [witness_v1::active_witness_policy_set_digest] *)
Definition witness_v1_active_policy_set_digest (policies : list Digest32)
    : result PolicyErrorKind Digest32 :=
  reject_if
    ((16384 <? len policies)%N ||
     existsb (λ value, value ==? ZERO_DIGEST) policies ||
     negb (strictly_sorted_unique policies)) InvalidFormat;;
  output ← map_err (λ _, InvalidFormat)
    (list_fixed (jce_v1 "jury-witness-v1/active-policy-set/hash") policies
       (λ output value, output ++ value));
  Ok (sha256 output).

Definition active_witness_policy_set_digest (s : PolicyState) : result PolicyErrorKind Digest32 :=
  policies ← active_witness_policy_entries s;
  witness_v1_active_policy_set_digest policies.*1.

Definition intended_witness_entry (d : WitnessPolicyDescriptor) : bytes :=
  wd_witness_id d ++ push (wd_share_index d) ++ wd_signing_key_fingerprint d ++
  wd_contribution_key_fingerprint d.

Definition intended_witness_set_digest (s : PolicyState) (item_id : ItemId)
    : result PolicyErrorKind Digest32 :=
  authority ← witness_authority s item_id;
  authority ← ok_or authority InvalidRole;
  policy ← ok_or (ps_witness_policies s !! wa_policy_digest authority) MissingWitnessPolicy;
  preimage ← pol_list_fixed (jce_v1 "jury-witness-v1/intended-witness-set/hash")
    (intended_witness_entry <$> active_witness_descriptors policy);
  Ok (sha256 preimage).

(** ** The binding of an item's witnessed slots to its witness policy *)

Definition binding_capsule_check (s : PolicyState) (active : list WitnessPolicyDescriptor)
    (capsule : WitnessShareCapsuleV1) : result PolicyErrorKind unit :=
  descriptor ← ok_or (List.find (λ d, wd_witness_id d ==? wc_witness_id capsule) active) InvalidRole;
  principal ← ok_or (ps_principals s !! wd_witness_id descriptor) UnknownPrincipal;
  let pd := pp_descriptor principal in
  reject_if
    ((pd_principal_kind pd !=? PK_Witness) ||
     (pd_verification_public_key pd !=? wd_signing_public_key descriptor) ||
     (pd_recipient_public_key pd !=? wd_contribution_public_key descriptor) ||
     (wd_share_index descriptor !=? wc_share_index capsule) ||
     (wd_contribution_key_fingerprint descriptor !=? wc_contribution_key_fingerprint capsule))
    InvalidRole.

Definition binding_approver_check (s : PolicyState) (descriptor : ApproverPolicyDescriptor)
    : result PolicyErrorKind unit :=
  principal ← ok_or (ps_principals s !! ad_approver_id descriptor) UnknownPrincipal;
  let pd := pp_descriptor principal in
  reject_if
    ((pd_principal_kind pd !=? PK_Approver) ||
     (pd_verification_public_key pd !=? ad_signing_public_key descriptor))
    InvalidRole.

Definition validate_item_policy_binding (s : PolicyState) (item_id : ItemId)
    (witnessed : WitnessedStateV1) : result PolicyErrorKind unit :=
  first ← ok_or (head (wst_slots witnessed)) InvalidFormat;
  policy ← ok_or (ps_witness_policies s !! ws_witness_policy_digest first) MissingWitnessPolicy;
  reject_if
    ((wp_suite policy !=? ps_suite s) ||
     existsb (λ slot, ws_suite slot !=? ps_suite s) (wst_slots witnessed) ||
     (wp_witness_policy_id policy !=? ws_witness_policy_id first) ||
     (wp_revision policy !=? ws_witness_policy_revision first) ||
     (wp_vault_id policy !=? ps_vault_id s) ||
     (wp_genesis_fingerprint policy !=? ps_genesis_fingerprint s) ||
     (wp_vault_policy_sequence policy !=? ws_vault_policy_sequence first) ||
     (ps_sequence s <? wp_vault_policy_sequence policy)%N ||
     (wp_witness_threshold policy !=? ws_threshold first))
    InvalidTransition;;
  let active := active_witness_descriptors policy in
  let policy_members := merge_sort ord_le (wd_witness_id <$> active) in
  let slot_members := merge_sort ord_le (wc_witness_id <$> ws_capsules first) in
  reject_if ((policy_members !=? slot_members) || (ws_item_id first !=? item_id))
    InvalidTransition;;
  forE (binding_capsule_check s active) (ws_capsules first);;
  forE (binding_approver_check s) (active_approver_descriptors policy).
End with_crypto.
