(* ===== verification/StateHash.v ===== *)
(** * What the normalised state hash commits to

    Every policy revision carries the hash of the state it leads to
    ([PolicyState::normalized_state_hash]). The hashed string determines the
    suite, the vault, the sequence, the active descriptors, the owners, the
    items and their metadata, the tombstones, the grants, the direct slots and
    the digest of the witnessed slots. *)

From S2P Require Import Prelude VaultTypes Canonical Preimage Binding WitnessPolicy PolicyState.
Local Open Scope jury_scope.

(** ** The entries as typed lists *)

Definition item_view (e : ItemId * ItemPolicyState)
    : ItemId * ItemKind * option ItemAccessMode * N * DescriptorMetadataV1 * Digest32 :=
  (e.1, it_item_kind e.2, access_mode e.2, it_key_epoch e.2, it_descriptor e.2,
   it_current_item_revision_hash e.2).

Definition grant_views (s : PolicyState) : list (ItemId * PrincipalId * AccessRole) :=
  entries (ps_items s) ≫= λ e, (λ g, (e.1, g.1, g.2)) <$> entries (it_grants e.2).

Definition direct_slots_of (s : PolicyState) : list DirectSlotV1 :=
  values (ps_items s) ≫= it_direct_slots.

(** ** Machine widths *)

Definition TombstoneState_wt (t : TombstoneState) : bool :=
  u64 (ts_deletion_policy_sequence t) && fixed 32 (ts_final_descriptor_digest t) &&
  fixed 32 (ts_final_item_revision_hash t).

Definition ItemPolicyState_wt (i : ItemPolicyState) : bool :=
  u64 (it_key_epoch i) && DescriptorMetadataV1_wt (it_descriptor i) &&
  fixed 32 (it_current_item_revision_hash i) && forallb (fixed 32) (keys (it_grants i)) &&
  forallb DirectSlotV1_wt (it_direct_slots i).

Definition PolicyState_wt (s : PolicyState) : bool :=
  u16 (ps_suite s) && fixed 32 (ps_vault_id s) && u64 (ps_sequence s) &&
  forallb (λ v, PrincipalDescriptorV1_wt (pp_descriptor v)) (values (ps_principals s)) &&
  forallb (fixed 32) (sorted_elements (ps_owners s)) &&
  forallb (λ e, fixed 32 e.1 && ItemPolicyState_wt e.2) (entries (ps_items s)) &&
  forallb (λ e, fixed 32 e.1 && TombstoneState_wt e.2) (entries (ps_tombstones s)).

(** ** Reading the entries *)

Definition item_chunk
    (v : ItemId * ItemKind * option ItemAccessMode * N * DescriptorMetadataV1 * Digest32) : bytes :=
  let '(id, kind, mode, epoch, d, h) := v in
  id ++ push (ItemKind_tag kind) ++ push (if mode is Some m then ItemAccessMode_tag m else 0%N) ++
  u64be epoch ++ DescriptorMetadataV1_canonical_bytes d ++ h.

Definition item_view_wt
    (v : ItemId * ItemKind * option ItemAccessMode * N * DescriptorMetadataV1 * Digest32) : Prop :=
  let '(id, kind, mode, epoch, d, h) := v in
  fixed 32 id = true ∧ is_Some mode ∧ u64 epoch = true ∧ DescriptorMetadataV1_wt d = true ∧
  fixed 32 h = true.

Lemma pinj_item_view : pinj item_view_wt item_chunk.
Proof.
  intros [[[[[i k] m] e] d] h] [[[[[i' k'] m'] e'] d'] h'] r s
    (Hi & [mo ->] & He & Hd & Hh) (Hi' & [mo' ->] & He' & Hd' & Hh') Heq.
  cbn [item_chunk] in Heq. rewrite <- ?app_assoc in Heq. repeat peel_step.
  apply pinj_DescriptorMetadataV1 in Heq as [-> Heq]; [|done..]. peel_step. subst.
  split; [|done]. repeat f_equal; auto with jury.
Qed.

Lemma pinj_tombstone :
  pinj (λ e, fixed 32 e.1 = true ∧ TombstoneState_wt e.2 = true) tombstone_entry_bytes.
Proof.
  intros [i t] [i' t'] r s [Hi Ht] [Hi' Ht'] Heq. unfold TombstoneState_wt in *. cbn in *. to_prop.
  peel_all Heq. split; [|done]. destruct t, t'; cbn in *; by subst.
Qed.

Definition grant_chunk (g : ItemId * PrincipalId * AccessRole) : bytes :=
  let '(id, p, role) := g in id ++ p ++ push (AccessRole_tag role).

Lemma pinj_grant :
  pinj (λ g, fixed 32 g.1.1 = true ∧ fixed 32 g.1.2 = true) grant_chunk.
Proof.
  intros [[i p] a] [[i' p'] a'] r s [Hi Hp] [Hi' Hp'] Heq. cbn in Hi, Hp, Hi', Hp', Heq.
  peel_all Heq. split; [|done]. subst. repeat f_equal. auto with jury.
Qed.

Lemma list_chunk_fmap {A} (e : A → bytes) l : list_chunk id (e <$> l) = list_chunk e l.
Proof. unfold list_chunk, len. rw length_fmap. do 2 f_equal. by rw list_fmap_id. Qed.

Lemma item_entries_ok es bs :
  mapE item_entry_bytes es = Ok bs →
  bs = item_chunk <$> (item_view <$> es) ∧ Forall (λ e, is_Some (access_mode e.2)) es.
Proof.
  rw mapE_Ok. induction 1 as [|[id i] b es bs Hb _ [-> IH]]; [done|]. cbn in Hb. repeat inv_ok_step.
  match goal with Hx : access_mode i = Some ?m |- _ => rename Hx into Hm end.
  rw !fmap_cons. split; [|by constructor; [eexists|]]. f_equal. cbn. by rw Hm.
Qed.

Lemma fmap_bind {A B C} (f : B → C) (g : A → list B) (l : list A) :
  f <$> (l ≫= g) = l ≫= λ x, f <$> g x.
Proof. induction l as [|x l IH]; [done|]. cbn. by rw fmap_app IH. Qed.

Lemma bind_ext {A B} (f g : A → list B) (l : list A) : (∀ x, f x = g x) → l ≫= f = l ≫= g.
Proof. intros Hfg. induction l as [|x l IH]; [done|]. cbn. by rw Hfg IH. Qed.

Lemma grant_entries_views s : state_grant_entries s = grant_chunk <$> grant_views s.
Proof.
  unfold state_grant_entries, grant_views. rw fmap_bind. apply bind_ext. intros e.
  rw -list_fmap_compose. by apply list_fmap_ext.
Qed.

(** The direct entries are the encodings of the direct slots in some order. *)
Lemma direct_entries_slots s :
  ∃ l, (state_direct_entries s).*2 = DirectSlotV1_canonical_bytes <$> l ∧ l ≡ₚ direct_slots_of s.
Proof.
  unfold state_direct_entries, sort_by_key, direct_slots_of, values.
  set (f := λ p : ItemId * DirectSlotV1, direct_entry p.1 p.2).
  set (pairs := entries (ps_items s) ≫= λ e, (e.1,.) <$> it_direct_slots e.2).
  assert ((entries (ps_items s) ≫= λ e, direct_entry e.1 <$> it_direct_slots e.2) = map f pairs) as ->.
  { change (map f pairs) with (f <$> pairs). subst pairs. rw fmap_bind. apply bind_ext. intros e.
    rw -list_fmap_compose. by apply list_fmap_ext. }
  assert ((entries (ps_items s)).*2 ≫= it_direct_slots = pairs.*2) as ->.
  { subst pairs. rw list_fmap_bind fmap_bind. apply bind_ext. intros e. rw -list_fmap_compose.
    unfold compose. cbn. by rw list_fmap_id. }
  pose proof (merge_sort_Permutation (key_le id) (map f pairs)) as Hperm.
  apply Permutation_map_inv in Hperm as (l & Hl & Hp). exists (l.*2). split; [|by rw Hp].
  rw Hl. change (map f l) with (f <$> l). rw -!list_fmap_compose. by apply list_fmap_ext.
Qed.

(** ** The hashed string *)

Lemma pol_list_fixed_Ok output values o :
  pol_list_fixed output values = Ok o →
  u32 (len values) = true ∧ o = output ++ list_chunk id values.
Proof. unfold pol_list_fixed, to_capacity. by rw map_err_Ok (list_fixed_Ok id). Qed.

Lemma pol_list_bytes_Ok output values o :
  pol_list_bytes output values = Ok o →
  u32 (len values) = true ∧ Forall (λ v, fits_u32 v = true) values ∧
  o = output ++ list_chunk field_chunk values.
Proof. unfold pol_list_bytes, to_capacity. by rw map_err_Ok list_bytes_Ok. Qed.

Section with_crypto.
Context `{Crypto}.

(** A list of the hashed string: its length fits and its elements are wide
    enough. *)
Definition readable {A} (P : A → Prop) (l : list A) : Prop := u32 (len l) = true ∧ Forall P l.

Record normal_form (s : PolicyState) (p : bytes) (l : list DirectSlotV1) (marker : bytes) : Prop := {
  nf_bytes : p = jce_v1 "jury-v1/policy-state/hash" ++ u16be (ps_suite s) ++ ps_vault_id s ++
    u64be (ps_sequence s) ++
    list_chunk field_chunk
      (PrincipalDescriptorV1_canonical_bytes <$> (pp_descriptor <$> values (ps_principals s))) ++
    list_chunk id (sorted_elements (ps_owners s)) ++
    list_chunk item_chunk (item_view <$> entries (ps_items s)) ++
    list_chunk tombstone_entry_bytes (entries (ps_tombstones s)) ++
    list_chunk grant_chunk (grant_views s) ++
    list_chunk DirectSlotV1_canonical_bytes l ++ marker ++
    list_chunk revision_entry_bytes (entries (ps_items s));
  nf_principals : readable (λ v, fits_u32 v = true)
    (PrincipalDescriptorV1_canonical_bytes <$> (pp_descriptor <$> values (ps_principals s)));
  nf_owners : u32 (len (sorted_elements (ps_owners s))) = true;
  nf_items : u32 (len (item_view <$> entries (ps_items s))) = true;
  nf_modes : Forall (λ e, is_Some (access_mode e.2)) (entries (ps_items s));
  nf_tombstones : u32 (len (entries (ps_tombstones s))) = true;
  nf_grants : u32 (len (grant_views s)) = true;
  nf_direct : u32 (len l) = true;
  nf_slots : l ≡ₚ direct_slots_of s;
  nf_marker : witnessed_marker (state_witnessed_slots s) = Ok marker;
}.

Lemma len_fmap {A B} (f : A → B) l : len (f <$> l) = len l.
Proof. unfold len. by rw length_fmap. Qed.

Lemma normalized_preimage_form s p :
  normalized_state_preimage s = Ok p → ∃ l marker, normal_form s p l marker.
Proof.
  unfold normalized_state_preimage.
  change (λ principal, PrincipalDescriptorV1_canonical_bytes (pp_descriptor principal))
    with (PrincipalDescriptorV1_canonical_bytes ∘ pp_descriptor).
  intros Hp. repeat inv_ok_step.
  repeat match goal with
  | Hx : pol_list_fixed _ _ = Ok _ |- _ => apply pol_list_fixed_Ok in Hx as [? ->]
  | Hx : pol_list_bytes _ _ = Ok _ |- _ => apply pol_list_bytes_Ok in Hx as (? & ? & ->)
  | Hx : mapE item_entry_bytes _ = Ok _ |- _ => apply item_entries_ok in Hx as [-> ?]
  end.
  destruct (direct_entries_slots s) as (l & Hl & Hperm). rewrite -> Hl in *.
  rewrite -> grant_entries_views in *.
  rewrite -> (list_fmap_compose pp_descriptor PrincipalDescriptorV1_canonical_bytes) in *.
  repeat match goal with
  | Hx : u32 (len (DirectSlotV1_canonical_bytes <$> _)) = true |- _ => rewrite -> len_fmap in Hx
  | Hx : u32 (len (grant_chunk <$> _)) = true |- _ => rewrite -> len_fmap in Hx
  | Hx : u32 (len (item_chunk <$> _)) = true |- _ => rewrite -> len_fmap in Hx
  | Hx : u32 (len (tombstone_entry_bytes <$> _)) = true |- _ => rewrite -> len_fmap in Hx
  end.
  exists l. eexists. split; [|split; assumption|eassumption..].
  rewrite -> !list_chunk_fmap. rewrite <- !app_assoc. reflexivity.
Qed.

(** What two states with the same hashed string have in common. *)
Record same_normal (s1 s2 : PolicyState) : Prop := {
  sn_suite : ps_suite s1 = ps_suite s2;
  sn_vault : ps_vault_id s1 = ps_vault_id s2;
  sn_sequence : ps_sequence s1 = ps_sequence s2;
  sn_principals : pp_descriptor <$> values (ps_principals s1) = pp_descriptor <$> values (ps_principals s2);
  sn_owners : ps_owners s1 = ps_owners s2;
  sn_items : item_view <$> entries (ps_items s1) = item_view <$> entries (ps_items s2);
  sn_tombstones : ps_tombstones s1 = ps_tombstones s2;
  sn_grants : grant_views s1 = grant_views s2;
  sn_direct : direct_slots_of s1 ≡ₚ direct_slots_of s2;
  sn_witnessed : witnessed_marker (state_witnessed_slots s1) = witnessed_marker (state_witnessed_slots s2);
}.

Lemma peel_list {A} (P : A → Prop) e l k (r s : bytes) :
  pinj P e → list_chunk e l ++ r = list_chunk e k ++ s → readable P l → readable P k → l = k ∧ r = s.
Proof. intros He Heq Hl Hk. by apply (pinj_list _ _ He) in Heq. Qed.

Lemma pinj_fmap {A} (P : A → Prop) e l k :
  pinj P e → Forall P l → Forall P k → e <$> l = e <$> k → l = k.
Proof.
  intros He Hl. revert k. induction Hl as [|x l Hx Hl IH]; intros [|y k] Hk; try done.
  apply Forall_cons in Hk as [Hy Hk]. rw !fmap_cons. intros [= Hxy ?].
  f_equal; [by eapply pinj_inj|by apply IH].
Qed.

Lemma marker_inj slots1 slots2 m1 m2 (r s : bytes) :
  witnessed_marker slots1 = Ok m1 → witnessed_marker slots2 = Ok m2 → m1 ++ r = m2 ++ s → m1 = m2.
Proof.
  unfold witnessed_marker, witnessed_slot_set_digest. intros H1 H2 Heq.
  destruct slots1, slots2; repeat inv_ok_step; try done.
  rewrite <- !app_assoc in Heq. apply app_inv_head in Heq.
  apply peel in Heq as [-> _]; [done|]. by rw !sha256_length.
Qed.

Lemma wt_items s :
  PolicyState_wt s = true → Forall (λ e, is_Some (access_mode e.2)) (entries (ps_items s)) →
  Forall item_view_wt (item_view <$> entries (ps_items s)) ∧
  Forall (λ g, fixed 32 g.1.1 = true ∧ fixed 32 g.1.2 = true) (grant_views s) ∧
  Forall (λ d, DirectSlotV1_wt d = true) (direct_slots_of s).
Proof.
  unfold PolicyState_wt, ItemPolicyState_wt. intros Hw Hm. to_prop. to_forall.
  match goal with Hx : Forall (λ x, _ = true) (entries (ps_items s)) |- _ => rename Hx into Hi end.
  rw !Forall_forall in Hi Hm |- *. split_and!.
  - intros v (e & -> & He)%list_elem_of_fmap. pose proof (Hi e He). to_prop. by cbn; auto.
  - intros g. unfold grant_views. rw list_elem_of_bind. intros (e & (q & -> & Hq)%list_elem_of_fmap & He).
    pose proof (Hi e He). to_prop. to_forall. split; [done|].
    match goal with Hx : Forall _ (keys _) |- _ => rw Forall_forall in Hx; apply Hx end.
    exact (list_elem_of_fmap_2 fst _ _ Hq).
  - intros d. unfold direct_slots_of, values. rw list_elem_of_bind.
    intros (i & Hd & (e & -> & He)%list_elem_of_fmap). pose proof (Hi e He). to_prop. to_forall.
    match goal with Hx : Forall _ (it_direct_slots _) |- _ => rw Forall_forall in Hx; by apply Hx end.
Qed.

Lemma wt_tombstones s :
  PolicyState_wt s = true →
  Forall (λ e, fixed 32 e.1 = true ∧ TombstoneState_wt e.2 = true) (entries (ps_tombstones s)).
Proof.
  unfold PolicyState_wt. intros Hw. to_prop. to_forall.
  match goal with Hx : Forall _ (entries (ps_tombstones s)) |- _ => eapply Forall_impl; [exact Hx|] end.
  intros e He. cbv beta in He. by to_prop.
Qed.

Lemma normal_form_inj s1 s2 p l1 l2 m1 m2 :
  PolicyState_wt s1 = true → PolicyState_wt s2 = true →
  normal_form s1 p l1 m1 → normal_form s2 p l2 m2 → same_normal s1 s2.
Proof.
  intros Hw1 Hw2 [-> Hp1 Ho1 Hi1 Hm1 Ht1 Hg1 Hd1 Hs1 Hk1] [Heq Hp2 Ho2 Hi2 Hm2 Ht2 Hg2 Hd2 Hs2 Hk2].
  destruct (wt_items s1 Hw1 Hm1) as (Wi1 & Wg1 & Wd1), (wt_items s2 Hw2 Hm2) as (Wi2 & Wg2 & Wd2).
  rw -Hs1 in Wd1. rw -Hs2 in Wd2.
  apply wt_tombstones in Hw1 as Wt1. apply wt_tombstones in Hw2 as Wt2.
  unfold PolicyState_wt in Hw1, Hw2. to_prop. to_forall.
  apply app_inv_head in Heq. repeat peel_step.
  apply (peel_list _ _ _ _ _ _ pinj_field) in Heq as [Ep Heq]; [|done..].
  apply (peel_list _ _ _ _ _ _ (pinj_fixed 32)) in Heq as [Eo Heq]; [|done..].
  apply (peel_list _ _ _ _ _ _ pinj_item_view) in Heq as [Ei Heq]; [|done..].
  apply (peel_list _ _ _ _ _ _ pinj_tombstone) in Heq as [Et Heq];
    [|done..].
  apply (peel_list _ _ _ _ _ _ pinj_grant) in Heq as [Eg Heq]; [|done..].
  apply (peel_list _ _ _ _ _ _ pinj_DirectSlotV1) in Heq as [El Heq]; [|done..].
  apply (marker_inj _ _ _ _ _ _ Hk1 Hk2) in Heq as <-.
  split; try done; [|by apply sorted_elements_inj|by apply entries_inj|by rw -Hs1 -Hs2 El|by rw Hk1 Hk2].
  eapply (pinj_fmap _ _ _ _ pinj_PrincipalDescriptorV1); [| |done]; apply Forall_fmap; done.
Qed.

(** The grants decide every role. *)
Lemma elem_of_grant_views s id p r :
  (id, p, r) ∈ grant_views s ↔ ∃ i, ps_items s !! id = Some i ∧ it_grants i !! p = Some r.
Proof.
  unfold grant_views. rw list_elem_of_bind. setoid_rewrite list_elem_of_fmap. split.
  - intros ([id' i] & ([q a] & [= -> -> ->] & Hq) & He). exists i.
    split; by apply elem_of_entries.
  - intros (i & Hi & Hp). exists (id, i). split; [|by apply elem_of_entries].
    exists (p, r). split; [done|]. by apply elem_of_entries.
Qed.

Lemma same_normal_roles s1 s2 id p :
  same_normal s1 s2 → effective_role s1 id p = effective_role s2 id p.
Proof.
  intros [_ _ _ _ Ho _ _ Hg _ _]. unfold effective_role. rw Ho. case_bool_decide; [done|].
  apply option_eq. intros r. rw !bind_Some. by rw -!elem_of_grant_views Hg.
Qed.

(** C36: the state hash commits to the state: two states of machine-sized
    records with the same normalised hash have the same suite, vault, sequence,
    active descriptors, owners, items, tombstones, grants, direct slots and
    digest of witnessed slots, and so the same role for every principal on
    every item, unless the two hashed strings collide. *)
Theorem state_hash_binds s1 s2 p1 p2 :
  PolicyState_wt s1 = true → PolicyState_wt s2 = true →
  normalized_state_preimage s1 = Ok p1 → normalized_state_preimage s2 = Ok p2 →
  normalized_state_hash s1 = normalized_state_hash s2 → collision_free [p1; p2] →
  same_normal s1 s2 ∧ ∀ id p, effective_role s1 id p = effective_role s2 id p.
Proof.
  unfold normalized_state_hash. intros Hw1 Hw2 Hp1 Hp2 Hh Hcf. rw Hp1 Hp2 in Hh. cbn in Hh.
  apply Ok_inj, Hcf in Hh; [|set_solver..]. subst p2.
  apply normalized_preimage_form in Hp1 as (l1 & m1 & Hf1), Hp2 as (l2 & m2 & Hf2).
  assert (same_normal s1 s2) as Hs by by eapply normal_form_inj.
  split; [done|]. intros id p. by apply same_normal_roles.
Qed.
End with_crypto.
