(* ===== verification/Identifiers.v ===== *)
(** * Native identifiers

    The lowercase-hex codec of identifiers ([vault_v1/bytes.rs], repeated in
    [domain/id.rs]) and the random generator of [domain/id/generator.rs]. The
    operating system's random source is the interface [RandomSource]. *)

From S2P Require Import Prelude VaultTypes.
Local Open Scope jury_scope.

Inductive ByteStringError :=
  | WrongLength (expected actual : N)
  | NonCanonical
  | ZeroIdentifier.

(** ** Hexadecimal *)

Definition HEX : bytes := str "0123456789abcdef".

Definition nibble (b : byte) : option N :=
  let n := Byte.to_N b in
  if ((48 <=? n) && (n <=? 57))%N then Some (n - 48)%N
  else if ((97 <=? n) && (n <=? 102))%N then Some (n - 97 + 10)%N
  else None.

(** [HEX[usize::from(n)]]; the index is below sixteen. *)
Definition hex_digit (n : N) : byte := nth (N.to_nat n) HEX Byte.x00.

Definition encode_hex (bs : bytes) : bytes :=
  bs ≫= λ b, [hex_digit (N.shiftr (Byte.to_N b) 4); hex_digit (N.land (Byte.to_N b) 15)].

(** The loop over the pairs of [encoded.as_bytes().as_chunks::<2>().0]. *)
Fixpoint decode_pairs (encoded : bytes) : result ByteStringError bytes :=
  match encoded with
  | a :: b :: rest =>
      high ← ok_or (nibble a) NonCanonical;
      low ← ok_or (nibble b) NonCanonical;
      bs ← decode_pairs rest;
      Ok (byte_of_N (N.lor (N.shiftl high 4) low) :: bs)
  | _ => Ok []
  end.

Definition is_zero (bs : bytes) : bool := forallb (λ b, b ==? Byte.x00) bs.

Definition decode_hex (encoded : bytes) : result ByteStringError bytes :=
  reject_if (len encoded !=? 64%N) (WrongLength 64 (len encoded));;
  bs ← decode_pairs encoded;
  reject_if (is_zero bs) ZeroIdentifier;;
  Ok bs.

(** ** Generation *)

Inductive IdentifierGenerationError := IG_EntropyUnavailable | IG_RetryExhausted.

(** [trait RandomSource]: [fill] writes a buffer or fails, and advances the
    source. *)
Class RandomSource (R : Type) := {
  fill : R → nat → option bytes * R;
  fill_length : ∀ r n bs r', fill r n = (Some bs, r') → length bs = n;
}.

Definition IDENTIFIER_ZERO_RETRY_ATTEMPTS : nat := 8.
Definition IDENTIFIER_COLLISION_RETRY_ATTEMPTS : nat := 8.

Section generator.
Context {R : Type} `{RandomSource R}.

Fixpoint generate_nonzero_identifier (attempts : nat) (source : R)
    : result IdentifierGenerationError bytes * R :=
  match attempts with
  | O => (Err IG_RetryExhausted, source)
  | S attempts' =>
      match fill source 32 with
      | (None, source') => (Err IG_EntropyUnavailable, source')
      | (Some bs, source') =>
          if negb (is_zero bs) then (Ok bs, source')
          else generate_nonzero_identifier attempts' source'
      end
  end.

Fixpoint generate_identifier_loop (attempts : nat) (identifier_is_known : bytes → bool)
    (source : R) : result IdentifierGenerationError bytes * R :=
  match attempts with
  | O => (Err IG_RetryExhausted, source)
  | S attempts' =>
      match generate_nonzero_identifier IDENTIFIER_ZERO_RETRY_ATTEMPTS source with
      | (Err e, source') => (Err e, source')
      | (Ok candidate, source') =>
          if negb (identifier_is_known candidate) then (Ok candidate, source')
          else generate_identifier_loop attempts' identifier_is_known source'
      end
  end.

Definition generate_identifier (identifier_is_known : bytes → bool) (source : R)
    : result IdentifierGenerationError bytes * R :=
  generate_identifier_loop IDENTIFIER_COLLISION_RETRY_ATTEMPTS identifier_is_known source.
End generator.

(** ** The codec is a bijection on identifiers *)

Lemma nibble_hex_digit n : (n < 16)%N → nibble (hex_digit n) = Some n.
Proof.
  intros Hn. assert (n = 0 ∨ n = 1 ∨ n = 2 ∨ n = 3 ∨ n = 4 ∨ n = 5 ∨ n = 6 ∨ n = 7 ∨ n = 8 ∨
    n = 9 ∨ n = 10 ∨ n = 11 ∨ n = 12 ∨ n = 13 ∨ n = 14 ∨ n = 15)%N as Hcases by lia.
  by destruct_or! Hcases; subst n.
Qed.

Lemma byte_of_nibbles b :
  byte_of_N (N.lor (N.shiftl (N.shiftr (Byte.to_N b) 4) 4) (N.land (Byte.to_N b) 15)) = b.
Proof. by destruct b. Qed.

Lemma nibbles_lt b : (N.shiftr (Byte.to_N b) 4 < 16)%N ∧ (N.land (Byte.to_N b) 15 < 16)%N.
Proof. by destruct b. Qed.

Lemma encode_hex_cons b bs :
  encode_hex (b :: bs) =
  hex_digit (N.shiftr (Byte.to_N b) 4) :: hex_digit (N.land (Byte.to_N b) 15) :: encode_hex bs.
Proof. done. Qed.

Lemma decode_pairs_encode bs : decode_pairs (encode_hex bs) = Ok bs.
Proof.
  induction bs as [|b bs IH]; [done|]. rw encode_hex_cons. cbn [decode_pairs].
  destruct (nibbles_lt b) as [Hh Hl]. rw !nibble_hex_digit // IH. cbn.
  by rw byte_of_nibbles.
Qed.

Lemma length_encode_hex bs : length (encode_hex bs) = 2 * length bs.
Proof. induction bs as [|b bs IH]; [done|]. rw encode_hex_cons. cbn [length]. lia. Qed.

Lemma hex_digit_nibble b n : nibble b = Some n → (n < 16)%N ∧ hex_digit n = b.
Proof. destruct b; intros Hn; vm_compute in Hn; simplify_eq; done. Qed.

Lemma nibbles_of_byte h l :
  (h < 16)%N → (l < 16)%N →
  let n := Byte.to_N (byte_of_N (N.lor (N.shiftl h 4) l)) in
  N.shiftr n 4 = h ∧ N.land n 15 = l.
Proof.
  intros Hh Hl.
  assert (h = 0 ∨ h = 1 ∨ h = 2 ∨ h = 3 ∨ h = 4 ∨ h = 5 ∨ h = 6 ∨ h = 7 ∨ h = 8 ∨ h = 9 ∨
    h = 10 ∨ h = 11 ∨ h = 12 ∨ h = 13 ∨ h = 14 ∨ h = 15)%N as Hcases by lia.
  assert (l = 0 ∨ l = 1 ∨ l = 2 ∨ l = 3 ∨ l = 4 ∨ l = 5 ∨ l = 6 ∨ l = 7 ∨ l = 8 ∨ l = 9 ∨
    l = 10 ∨ l = 11 ∨ l = 12 ∨ l = 13 ∨ l = 14 ∨ l = 15)%N as Hcases' by lia.
  destruct_or! Hcases; subst h; destruct_or! Hcases'; subst l; by vm_compute.
Qed.

Lemma encode_decode_pairs encoded bs n :
  length encoded = 2 * n → decode_pairs encoded = Ok bs → encode_hex bs = encoded ∧ length bs = n.
Proof.
  revert encoded bs. induction n as [|n IH]; intros encoded bs Hlen.
  { destruct encoded; [|done]. by intros [= <-]. }
  destruct encoded as [|a [|b rest]]; [done|simpl in Hlen; lia|].
  cbn [decode_pairs length] in *. intros Hd. repeat inv_ok_step.
  match goal with H : nibble a = Some ?h, H' : nibble b = Some ?l |- _ =>
    apply hex_digit_nibble in H as [Hh Ea]; apply hex_digit_nibble in H' as [Hl Eb];
    destruct (nibbles_of_byte h l Hh Hl) as [E1 E2] end.
  edestruct IH as [Henc Hl']; [|done|]; [lia|].
  rw encode_hex_cons E1 E2 Ea Eb Henc. split; [done|]. cbn [length]. by rw Hl'.
Qed.

(** The textual form of an identifier is unique: decoding accepts exactly
    the sixty-four lowercase hexadecimal digits that encoding prints for a
    nonzero 32-byte value, and returns that value. *)
Theorem decode_hex_exact encoded bs :
  decode_hex encoded = Ok bs ↔ fixed 32 bs = true ∧ is_zero bs = false ∧ encoded = encode_hex bs.
Proof.
  unfold decode_hex, fixed. split.
  - intros [Hlen (bs' & Hd & [Hz <-%Ok_inj]%reject_if_bind)%bind_Ok]%reject_if_bind. to_prop.
    unfold len in Hlen. apply (encode_decode_pairs _ _ 32) in Hd as [<- Hl]; [|lia].
    split; [by apply bool_decide_eq_true|done].
  - intros (Hl & Hz & ->). to_prop. apply reject_if_bind. unfold len. rw length_encode_hex Hl.
    split; [done|]. apply bind_Ok. eexists. split; [apply decode_pairs_encode|].
    by apply reject_if_bind.
Qed.

(** ** Generated identifiers *)

Section generator_lemmas.
Context {R : Type} `{RandomSource R}.

Lemma generate_nonzero_ok attempts source bs source' :
  generate_nonzero_identifier attempts source = (Ok bs, source') →
  length bs = 32 ∧ is_zero bs = false.
Proof.
  revert source. induction attempts as [|n IH]; intros source; cbn; [done|].
  destruct (fill source 32) as [[b|] s1] eqn:E; [|done].
  destruct (is_zero b) eqn:Ez; cbn; [by apply IH|].
  intros [= -> ->]. split; [by eapply fill_length|done].
Qed.

Lemma generate_identifier_loop_ok attempts known source bs source' :
  generate_identifier_loop attempts known source = (Ok bs, source') →
  length bs = 32 ∧ is_zero bs = false ∧ known bs = false.
Proof.
  revert source. induction attempts as [|n IH]; intros source; cbn [generate_identifier_loop]; [done|].
  destruct (generate_nonzero_identifier _ source) as [[b|e] s1] eqn:E; [|done].
  apply generate_nonzero_ok in E as [Hl Hz].
  destruct (known b) eqn:Ek; cbn; [by apply IH|]. by intros [= -> ->].
Qed.
End generator_lemmas.
