(* ===== verification/ProtectedMemory.v ===== *)
(** * Protected memory

    [crates/jury-protected/src/memory.rs] and [process_protection.rs], on Linux: the
    bounds and the checks around memory that is locked, guarded and kept out of
    dumps. The allocator ([sanitization]) and the limit on core dumps are a class. *)

From S2P Require Import Prelude Effects.
Local Open Scope jury_scope.

Definition MAX_PROTECTED_BYTES : N := 1024 * 1024.
Definition MAX_LARGE_PROTECTED_BYTES : N := 16 * 1024 * 1024.

Inductive ProtectionPolicy := Strict | EmergencyAllowDegraded.

Inductive RuntimeControlStatus :=
  | RC_Established
  | RC_NotRequested
  | RC_NotApplicable
  | RC_Unsupported
  | RC_Failed
  | RC_CompatibilityOnly.

Record ProtectionStatus := {
  pst_policy : ProtectionPolicy;
  pst_mapping : RuntimeControlStatus;
  pst_memory_lock : RuntimeControlStatus;
  pst_dump_exclusion : RuntimeControlStatus;
  pst_fork_exclusion : RuntimeControlStatus;
  pst_guard_pages : RuntimeControlStatus;
  pst_canary : RuntimeControlStatus;
  pst_requested_bytes : N;
  pst_mapped_bytes : N;
  pst_locked_bytes : N;
  pst_page_granule : N;
  pst_core_dump_suppressed : bool;
}.

Inductive MemoryErrorKind :=
  | MM_Capacity
  | MM_Protection
  | MM_Initializer
  | MM_InvalidLength
  | MM_Integrity
  | MM_UnsupportedPlatform.

Inductive CaptureErrorKind := CE_CoreSuppression | CE_DegradedMemory | CE_UnsupportedPlatform.

Global Instance ProtectionPolicy_eq_dec : EqDecision ProtectionPolicy.
Proof. solve_decision. Defined.
Global Instance RuntimeControlStatus_eq_dec : EqDecision RuntimeControlStatus.
Proof. solve_decision. Defined.

(** ** The allocator *)

Inductive Requirement := Required | Preferred | NotRequested.
Inductive ForkPolicy := Inherit | Exclude | WipeChild.

Global Instance ForkPolicy_eq_dec : EqDecision ForkPolicy.
Proof. solve_decision. Defined.

Record ProtectionRequest := {
  rq_memory_lock : Requirement;
  rq_dump_exclusion : Requirement;
  rq_fork_policy : ForkPolicy;
  rq_fork_requirement : Requirement;
  rq_guard_pages : Requirement;
  rq_canary : Requirement;
  rq_cache_policy : Requirement;
}.

Inductive ProtectionState :=
  | PT_Established
  | PT_NotRequested
  | PT_NotApplicable
  | PT_Unsupported
  | PT_Failed (code : Z)
  | PT_CompatibilityOnly.

Record ProtectionReport := {
  prt_mapping : ProtectionState;
  prt_memory_lock : ProtectionState;
  prt_dump_exclusion : ProtectionState;
  prt_fork_policy : ForkPolicy;
  prt_fork_state : ProtectionState;
  prt_guard_pages : ProtectionState;
  prt_canary : ProtectionState;
  prt_requested_bytes : N;
  prt_mapped_bytes : N;
  prt_locked_bytes : N;
  prt_page_granule : N;
}.

Inductive ProtectedSecretFillError := FL_CapacityLimit | FL_Protection | FL_Fill | FL_Integrity | FL_Length.

(** [try_from_capacity_with_protection] allocates and fills; [try_with_secret] checks
    the guards before its callback and after it; the limits are those of
    [RLIMIT_CORE]. *)
Class MemoryProvider (W : Type) := {
  GuardedVec : Type;
  guarded_bytes : GuardedVec → bytes;
  protection_report : GuardedVec → ProtectionReport;
  try_from_capacity_with_protection :
    N → ProtectionRequest → result unit bytes → eff ProtectedSecretFillError W GuardedVec;
  secret_enter : GuardedVec → eff unit W unit;
  secret_leave : GuardedVec → eff unit W unit;
  core_set_zero : eff unit W unit;
  core_read : eff unit W (N * N);
}.

(** The vector holds what the initializer wrote, within the capacity. *)
Class MemoryProviderLaws (W : Type) `{MemoryProvider W} :=
  filled_bytes n rq init w v w' :
    try_from_capacity_with_protection n rq init w = (Ok v, w') → init = Ok (guarded_bytes v) ∧ (len (guarded_bytes v) ≤ n)%N.

(** ** Protected memory *)

Definition control_established (status : RuntimeControlStatus) : bool := status ==? RC_Established.

(** Dumps are excluded per mapping on Linux. *)
Definition memory_controls_established (s : ProtectionStatus) : bool :=
  control_established (pst_mapping s) &&
  control_established (pst_memory_lock s) &&
  control_established (pst_dump_exclusion s) &&
  control_established (pst_fork_exclusion s) &&
  control_established (pst_guard_pages s) &&
  control_established (pst_canary s) &&
  (0 <? pst_requested_bytes s)%N &&
  (0 <? pst_page_granule s)%N &&
  (pst_requested_bytes s <=? pst_locked_bytes s)%N &&
  (pst_locked_bytes s mod pst_page_granule s =? 0)%N &&
  (pst_locked_bytes s <=? pst_mapped_bytes s)%N.

Definition is_degraded (s : ProtectionStatus) : bool :=
  negb (memory_controls_established s) || negb (pst_core_dump_suppressed s).

Definition record_core_suppression (s : ProtectionStatus) : ProtectionStatus := {|
  pst_policy := pst_policy s;
  pst_mapping := pst_mapping s;
  pst_memory_lock := pst_memory_lock s;
  pst_dump_exclusion := pst_dump_exclusion s;
  pst_fork_exclusion := pst_fork_exclusion s;
  pst_guard_pages := pst_guard_pages s;
  pst_canary := pst_canary s;
  pst_requested_bytes := pst_requested_bytes s;
  pst_mapped_bytes := pst_mapped_bytes s;
  pst_locked_bytes := pst_locked_bytes s;
  pst_page_granule := pst_page_granule s;
  pst_core_dump_suppressed := true;
|}.

Definition protection_request (policy : ProtectionPolicy) : ProtectionRequest :=
  let os_requirement := match policy with Strict => Required | EmergencyAllowDegraded => Preferred end in {|
  rq_memory_lock := os_requirement;
  rq_dump_exclusion := os_requirement;
  rq_fork_policy := Exclude;
  rq_fork_requirement := os_requirement;
  rq_guard_pages := Required;
  rq_canary := Required;
  rq_cache_policy := NotRequested;
|}.

Definition protection_state (value : ProtectionState) : RuntimeControlStatus :=
  match value with
  | PT_Established => RC_Established
  | PT_NotRequested => RC_NotRequested
  | PT_NotApplicable => RC_NotApplicable
  | PT_Unsupported => RC_Unsupported
  | PT_Failed _ => RC_Failed
  | PT_CompatibilityOnly => RC_CompatibilityOnly
  end.

Definition map_fill_error (error : ProtectedSecretFillError) : MemoryErrorKind :=
  match error with
  | FL_CapacityLimit => MM_Capacity
  | FL_Protection => MM_Protection
  | FL_Fill => MM_Initializer
  | FL_Integrity => MM_Integrity
  | FL_Length => MM_InvalidLength
  end.

Section memory.
Context {W : Type} `{MemoryProvider W}.

Record ProtectedMemory := {
  pm_inner : GuardedVec;
  pm_logical_capacity : N;
  pm_status : ProtectionStatus;
}.

Definition pm_bytes (m : ProtectedMemory) : bytes := guarded_bytes (pm_inner m).

Definition core_dump_suppressed : eff MemoryErrorKind W bool :=
  r ← attempt core_read;
  mret (if r is Ok limits then limits ==? (0%N, 0%N) else false).

Definition initialize_bounded (capacity maximum : N) (policy : ProtectionPolicy) (initializer : result unit bytes)
    : eff MemoryErrorKind W ProtectedMemory :=
  lift (reject_if ((capacity =? 0)%N || (maximum <? capacity)%N) MM_Capacity) ;;
  inner ← map_errM map_fill_error
    (try_from_capacity_with_protection capacity (protection_request policy) initializer);
  let report := protection_report inner in
  lift (reject_if (prt_fork_policy report !=? Exclude) MM_Protection) ;;
  suppressed ← core_dump_suppressed;
  let status := {|
    pst_policy := policy;
    pst_mapping := protection_state (prt_mapping report);
    pst_memory_lock := protection_state (prt_memory_lock report);
    pst_dump_exclusion := protection_state (prt_dump_exclusion report);
    pst_fork_exclusion := protection_state (prt_fork_state report);
    pst_guard_pages := protection_state (prt_guard_pages report);
    pst_canary := protection_state (prt_canary report);
    pst_requested_bytes := prt_requested_bytes report;
    pst_mapped_bytes := prt_mapped_bytes report;
    pst_locked_bytes := prt_locked_bytes report;
    pst_page_granule := prt_page_granule report;
    pst_core_dump_suppressed := suppressed |} in
  lift (reject_if ((policy ==? Strict) && negb (memory_controls_established status)) MM_Protection) ;;
  mret {| pm_inner := inner; pm_logical_capacity := capacity; pm_status := status |}.

Definition initialize (capacity : N) (policy : ProtectionPolicy) (initializer : result unit bytes)
    : eff MemoryErrorKind W ProtectedMemory :=
  initialize_bounded capacity MAX_PROTECTED_BYTES policy initializer.

Definition initialize_large (capacity : N) (policy : ProtectionPolicy) (initializer : result unit bytes)
    : eff MemoryErrorKind W ProtectedMemory :=
  initialize_bounded capacity MAX_LARGE_PROTECTED_BYTES policy initializer.

Definition initialize_supported (capacity : N) (policy : ProtectionPolicy) (initializer : result unit bytes)
    : eff MemoryErrorKind W ProtectedMemory :=
  if (MAX_PROTECTED_BYTES <? capacity)%N then initialize_large capacity policy initializer
  else initialize capacity policy initializer.

(** [ProtectedMemory::expose] *)
Definition expose {E R} (m : ProtectedMemory) (inspect : bytes → eff E W R) : eff MemoryErrorKind W (result E R) :=
  map_errM (λ _, MM_Integrity) (secret_enter (pm_inner m)) ;;
  r ← attempt (inspect (pm_bytes m));
  map_errM (λ _, MM_Integrity) (secret_leave (pm_inner m)) ;;
  mret r.

(** ** The process *)

Definition suppress_with : eff CaptureErrorKind W unit :=
  map_errM (λ _, CE_CoreSuppression) core_set_zero ;;
  limits ← map_errM (λ _, CE_CoreSuppression) core_read;
  lift (reject_if (limits !=? (0%N, 0%N)) CE_CoreSuppression).

(** A callback that cannot fail. *)
Definition run_callback {T} (capture : W → T * W) : eff CaptureErrorKind W T := λ w,
  let '(value, w') := capture w in (Ok value, w').

Definition capture_with {T} (policy : ProtectionPolicy) (status : ProtectionStatus) (capture : W → T * W)
    : eff CaptureErrorKind W (T * ProtectionStatus) :=
  suppress_with ;;
  let status := record_core_suppression status in
  lift (reject_if ((policy ==? Strict) && is_degraded status) CE_DegradedMemory) ;;
  value ← run_callback capture;
  mret (value, status).

(** ** What is promised *)

Lemma initialize_bounded_Ok `{!MemoryProviderLaws W} n maximum policy bs w m w' :
  initialize_bounded n maximum policy (Ok bs) w = (Ok m, w') →
  (0 < n ≤ maximum)%N ∧ pm_bytes m = bs ∧ (len bs ≤ n)%N ∧ pst_policy (pm_status m) = policy ∧
  (policy = Strict → memory_controls_established (pm_status m) = true).
Proof.
  unfold initialize_bounded. intros Hrun. apply eff_bind_Ok in Hrun as ([] & w1 & [Hn ->]%lift_Ok & Hrun).
  apply eff_bind_Ok in Hrun as (v & w2 & Hv%map_errM_run%filled_bytes & Hrun).
  apply eff_bind_Ok in Hrun as ([] & w3 & _ & Hrun). apply eff_bind_Ok in Hrun as (b & w4 & _ & Hrun).
  apply eff_bind_Ok in Hrun as ([] & w5 & [Hs%reject_if_Ok ->]%lift_Ok & Hrun). injection Hrun as <- _.
  apply reject_if_Ok, orb_false_iff in Hn as [Hn1 Hn2]. apply N.eqb_neq in Hn1. apply N.ltb_ge in Hn2.
  destruct Hv as [[= ->] Hl]. split_and!; [lia|lia|done|done|done|]. intros ->. cbn [pm_status] in *.
  rewrite -> bool_decide_true in Hs by done. by apply negb_false_iff in Hs.
Qed.

Lemma initialize_supported_Ok `{!MemoryProviderLaws W} policy bs w m w' :
  initialize_supported (len bs) policy (Ok bs) w = (Ok m, w') →
  (0 < len bs ≤ MAX_LARGE_PROTECTED_BYTES)%N ∧ pm_bytes m = bs ∧
  (policy = Strict → memory_controls_established (pm_status m) = true).
Proof.
  unfold initialize_supported, initialize, initialize_large, MAX_LARGE_PROTECTED_BYTES, MAX_PROTECTED_BYTES.
  case_match; intros ([Hl Hh] & Hb & _ & _ & Hs)%initialize_bounded_Ok; split_and!; try done; lia.
Qed.

(** Nothing is captured before dumps are off, and under the strict policy nothing
    unless every control is in place. *)
Lemma capture_with_Ok {T} policy status (capture : W → T * W) w x s w' :
  capture_with policy status capture w = (Ok (x, s), w') →
  ∃ w1, suppress_with w = (Ok tt, w1) ∧ capture w1 = (x, w') ∧
    (policy = Strict → is_degraded s = false).
Proof.
  unfold capture_with. intros Hrun. apply eff_bind_Ok in Hrun as ([] & w1 & Hs & Hrun).
  apply eff_bind_Ok in Hrun as ([] & w2 & [Hd%reject_if_Ok ->]%lift_Ok & Hrun).
  apply eff_bind_Ok in Hrun as (y & w3 & Hc & Hrun). injection Hrun as -> <- ->. unfold run_callback in Hc.
  exists w1. destruct (capture w1) as [z w4]. injection Hc as -> ->. split_and!; [done|done|].
  intros ->. by rewrite -> bool_decide_true in Hd by done.
Qed.
End memory.
