(* ===== verification/Directory.v ===== *)
(** * Directories

    What the code uses of [cap_std] and the operating system, on Linux: names in
    directories, files, renames. The calls are a class; the laws say what a call
    that succeeds did, and that a call that fails did nothing, or for a rename
    possibly all of it. Then [capability.rs] and [platform.rs] of
    [crates/jury-filesystem]: identities and snapshots of files, names that are one
    component, the checks of a private directory. *)

From S2P Require Import Prelude Effects ProtectedMemory.
Local Open Scope jury_scope.

Inductive FilesystemOperation :=
  | FO_Open
  | FO_DiscoverRepository
  | FO_OpenStateRoot
  | FO_Read
  | FO_Preview
  | FO_Prepare
  | FO_Publish
  | FO_SyncParent
  | FO_Cleanup
  | FO_Lock.

Inductive FilesystemErrorKind :=
  | FS_NotFound
  | FS_Permission
  | FS_Nul
  | FS_Traversal
  | FS_LinkOrWrongType
  | FS_HardLinkOrSize
  | FS_Capacity
  | FS_Alias
  | FS_Containment
  | FS_IdentityChanged
  | FS_InvalidMarker
  | FS_AlreadyExists
  | FS_Unsupported
  | FS_Io.

Global Instance FilesystemErrorKind_eq_dec : EqDecision FilesystemErrorKind.
Proof. solve_decision. Defined.

Record FilesystemError := FilesystemError_new {
  fe_operation : FilesystemOperation;
  fe_kind : FilesystemErrorKind;
}.

(** The errors of the system the code tells apart. *)
Inductive Errno := E_NOENT | E_EXIST | E_ACCES | E_NOTDIR | E_INVAL | E_LOOP | E_NOSYS | E_OPNOTSUPP | E_OTHER.

Global Instance Errno_eq_dec : EqDecision Errno.
Proof. solve_decision. Defined.

(** [cap_std::fs::Metadata] *)
Record Metadata := {
  md_is_file : bool;
  md_is_dir : bool;
  md_nlink : N;
  md_len : N;
  md_mode : N;
  md_uid : N;
  md_dev : N;
  md_ino : N;
  md_ctime : Z;
  md_ctime_nsec : Z;
}.

(** ** The calls *)

Class Directories (W : Type) := {
  Dir : Type;
  File : Type;
  geteuid : N;
  symlink_metadata : Dir → bytes → eff Errno W Metadata;
  dir_metadata : Dir → eff Errno W Metadata;
  file_metadata : File → eff Errno W Metadata;
  try_clone : Dir → eff Errno W Dir;
  open_dir_nofollow : Dir → bytes → eff Errno W Dir;
  create_dir_with : Dir → bytes → N → eff Errno W unit;
  open_read : Dir → bytes → eff Errno W File;
  open_create_new : Dir → bytes → N → eff Errno W File;
  read_to_end : File → N → eff Errno W bytes;
  write_all : File → bytes → eff Errno W unit;
  sync_all : File → eff Errno W unit;
  sync_directory : Dir → eff Errno W unit;
  rename : Dir → bytes → bytes → eff Errno W unit;
  renameat_noreplace : Dir → bytes → bytes → eff Errno W unit;
  remove_file : Dir → bytes → eff Errno W unit;
  getrandom : N → eff unit W bytes;
  open_root : eff Errno W Dir;
  current_dir : eff Errno W bytes;
}.

(** What can be seen: the file a name of a directory leads to, and its bytes. *)
Class DirectoryView (W : Type) `{Directories W} := {
  dir_ino : Dir → N;
  file_ino : File → N;
  entry : W → N → bytes → option N;
  contents : W → N → bytes;
}.

Section view.
Context {W : Type} `{DirectoryView W}.

Record same_files (w w' : W) : Prop := {
  sf_entry d n : entry w' d n = entry w d n;
  sf_contents i : contents w' i = contents w i;
}.

(** One name changes its meaning, or none. *)
Definition entry_set (w w' : W) (d : N) (n : bytes) (i : option N) : Prop :=
  ∀ d' n', entry w' d' n' = if decide ((d', n') = (d, n)) then i else entry w d' n'.

(** A file or a directory that is not there yet. *)
Definition fresh_ino (w : W) (i : N) : Prop := (∀ d n, entry w d n ≠ Some i) ∧ ∀ n, entry w i n = None.

Record renamed (w w' : W) (d : N) (a b : bytes) : Prop := {
  rn_entry d' n : entry w' d' n =
    if decide ((d', n) = (d, b)) then entry w d a
    else if decide ((d', n) = (d, a)) then None else entry w d' n;
  rn_source : is_Some (entry w d a);
  rn_contents i : contents w' i = contents w i;
}.
End view.

(** What the calls promise, when no other process changes the directories
    meanwhile. A file is read once, from its start, and written once, when new. A
    rename does nothing where both names are links to one file. *)
Class DirectoryLaws (W : Type) `{DirectoryView W, MemoryProvider W} := {
  symlink_metadata_same d n w : same_files w (symlink_metadata d n w).2;
  symlink_metadata_noent d n w w' : symlink_metadata d n w = (Err E_NOENT, w') → entry w (dir_ino d) n = None;
  dir_metadata_same d w : same_files w (dir_metadata d w).2;
  file_metadata_same f w : same_files w (file_metadata f w).2;
  try_clone_same d w : same_files w (try_clone d w).2;
  try_clone_Ok d w d' w' : try_clone d w = (Ok d', w') → dir_ino d' = dir_ino d;
  open_dir_same d n w : same_files w (open_dir_nofollow d n w).2;
  open_dir_Ok d n w d' w' : open_dir_nofollow d n w = (Ok d', w') → entry w (dir_ino d) n = Some (dir_ino d');
  open_dir_noent d n w w' : open_dir_nofollow d n w = (Err E_NOENT, w') → entry w (dir_ino d) n = None;
  create_dir_Ok d n m w w' : create_dir_with d n m w = (Ok (), w') →
    entry w (dir_ino d) n = None ∧ (∀ i, contents w' i = contents w i) ∧
    ∃ i, fresh_ino w i ∧ entry_set w w' (dir_ino d) n (Some i);
  create_dir_Err d n m w e w' : create_dir_with d n m w = (Err e, w') → same_files w w';
  open_read_same d n w : same_files w (open_read d n w).2;
  open_read_Ok d n w f w' : open_read d n w = (Ok f, w') → entry w (dir_ino d) n = Some (file_ino f);
  create_new_Ok d n m w f w' : open_create_new d n m w = (Ok f, w') →
    entry w (dir_ino d) n = None ∧ fresh_ino w (file_ino f) ∧
    entry_set w w' (dir_ino d) n (Some (file_ino f)) ∧ contents w' (file_ino f) = [] ∧
    ∀ i, i ≠ file_ino f → contents w' i = contents w i;
  create_new_Err d n m w e w' : open_create_new d n m w = (Err e, w') → same_files w w';
  read_same f k w : same_files w (read_to_end f k w).2;
  read_Ok f k w bs w' : read_to_end f k w = (Ok bs, w') → bs = take (N.to_nat k) (contents w (file_ino f));
  write_entry f bs w d n : entry (write_all f bs w).2 d n = entry w d n;
  write_other f bs w i : i ≠ file_ino f → contents (write_all f bs w).2 i = contents w i;
  write_Ok f bs w w' : write_all f bs w = (Ok (), w') → contents w (file_ino f) = [] →
    contents w' (file_ino f) = bs;
  sync_all_same f w : same_files w (sync_all f w).2;
  sync_directory_same d w : same_files w (sync_directory d w).2;
  rename_Ok d a b w w' : rename d a b w = (Ok (), w') → renamed w w' (dir_ino d) a b ∨
    same_files w w' ∧ entry w (dir_ino d) b = entry w (dir_ino d) a;
  rename_Err d a b w e w' : rename d a b w = (Err e, w') → same_files w w' ∨ renamed w w' (dir_ino d) a b;
  noreplace_Ok d a b w w' : renameat_noreplace d a b w = (Ok (), w') →
    renamed w w' (dir_ino d) a b ∧ entry w (dir_ino d) b = None;
  noreplace_Err d a b w e w' : renameat_noreplace d a b w = (Err e, w') →
    same_files w w' ∨ renamed w w' (dir_ino d) a b ∧ entry w (dir_ino d) b = None;
  remove_Ok d n w w' : remove_file d n w = (Ok (), w') →
    entry_set w w' (dir_ino d) n None ∧ ∀ i, contents w' i = contents w i;
  remove_Err d n w e w' : remove_file d n w = (Err e, w') →
    same_files w w' ∨ entry_set w w' (dir_ino d) n None ∧ ∀ i, contents w' i = contents w i;
  getrandom_same k w : same_files w (getrandom k w).2;
  open_root_same w : same_files w (open_root w).2;
  current_dir_same w : same_files w (current_dir w).2;
  fill_same n rq init w : same_files w (try_from_capacity_with_protection n rq init w).2;
  secret_enter_same v w : same_files w (secret_enter v w).2;
  secret_leave_same v w : same_files w (secret_leave v w).2;
  core_read_same w : same_files w (core_read w).2;
}.

(** ** Names *)

Definition slash : byte := Byte.x2f.
Definition dot : byte := Byte.x2e.
Definition nul : byte := Byte.x00.

(** [std::path::Component] on Unix. *)
Inductive Component := C_RootDir | C_CurDir | C_ParentDir | C_Normal (name : bytes).

Global Instance Component_eq_dec : EqDecision Component.
Proof. solve_decision. Defined.

(** The pieces between slashes. *)
Fixpoint split_slash (bs : bytes) : list bytes :=
  match bs with
  | [] => [[]]
  | b :: bs =>
      match split_slash bs with
      | p :: ps => if decide (b = slash) then [] :: p :: ps else (b :: p) :: ps
      | [] => []
      end
  end.

Definition component_of (piece : bytes) : list Component :=
  if decide (piece = []) then []
  else if decide (piece = [dot]) then []
  else if decide (piece = [dot; dot]) then [C_ParentDir]
  else [C_Normal piece].

(** [Path::components]: empty pieces and dots are dropped, except a leading dot of
    a relative path. *)
Definition components (path : bytes) : list Component :=
  match split_slash path with
  | [] => []
  | [] :: ps => (if decide (path = []) then [] else [C_RootDir]) ++ mjoin (component_of <$> ps)
  | p :: ps =>
      (if decide (p = [dot]) then [C_CurDir] else component_of p) ++ mjoin (component_of <$> ps)
  end.

(** A path as its names, from the root or from nowhere. *)
Record NormalPath := {
  np_rooted : bool;
  np_names : list bytes;
}.

Definition path_bytes (p : NormalPath) : bytes :=
  (if np_rooted p then [slash] else []) ++ foldr (λ n rest, if decide (rest = []) then n else n ++ [slash] ++ rest) [] (np_names p).

Definition is_absolute (path : bytes) : bool := head path ==? Some slash.

(** [Path::join] *)
Definition path_join (path name : bytes) : bytes :=
  if is_absolute name then name
  else path ++ (if (path ==? []) || (last path ==? Some slash) then [] else [slash]) ++ name.

(** [Path::starts_with] *)
Definition path_starts_with (path base : bytes) : bool :=
  take (length (components base)) (components path) ==? components base.

Definition reject_nul (value : bytes) (operation : FilesystemOperation) : result FilesystemError unit :=
  reject_if (nul ∈? value) (FilesystemError_new operation FS_Nul).

Definition single_component (name : bytes) (operation : FilesystemOperation) : result FilesystemError bytes :=
  match components name with
  | C_Normal value :: rest =>
      reject_if (negb (match rest with [] => true | _ => false end)) (FilesystemError_new operation FS_Traversal) ;;
      reject_nul value operation ;;
      Ok value
  | _ => Err (FilesystemError_new operation FS_Traversal)
  end.

(** ** Identities and snapshots *)

Record FileIdentity := {
  fi_device : N;
  fi_inode : N;
}.

Global Instance FileIdentity_eq_dec : EqDecision FileIdentity.
Proof. solve_decision. Defined.

Definition FileIdentity_from_metadata (metadata : Metadata) : FileIdentity :=
  {| fi_device := md_dev metadata; fi_inode := md_ino metadata |}.

Record RegularFileSnapshot := {
  rs_identity : FileIdentity;
  rs_byte_len : N;
  rs_changed_seconds : Z;
  rs_changed_nanoseconds : Z;
  rs_mode : N;
  rs_owner : N;
}.

Global Instance RegularFileSnapshot_eq_dec : EqDecision RegularFileSnapshot.
Proof. solve_decision. Defined.

Definition RegularFileSnapshot_from_metadata (metadata : Metadata) : RegularFileSnapshot := {|
  rs_identity := FileIdentity_from_metadata metadata;
  rs_byte_len := md_len metadata;
  rs_changed_seconds := md_ctime metadata;
  rs_changed_nanoseconds := md_ctime_nsec metadata;
  rs_mode := md_mode metadata;
  rs_owner := md_uid metadata;
|}.

(** ** Directories that are held *)

Definition map_open_error (operation : FilesystemOperation) (error : Errno) : FilesystemError :=
  FilesystemError_new operation
    match error with
    | E_LOOP => FS_LinkOrWrongType
    | E_NOENT => FS_NotFound
    | E_NOTDIR | E_INVAL => FS_LinkOrWrongType
    | E_ACCES => FS_Permission
    | _ => FS_Io
    end.

Definition native_error (operation : FilesystemOperation) (error : Errno) : FilesystemError :=
  FilesystemError_new operation
    match error with
    | E_NOSYS | E_INVAL | E_OPNOTSUPP => FS_Unsupported
    | _ => FS_Io
    end.

(** The error a call is mapped to when its cause is not looked at. *)
Definition io_error {E} (operation : FilesystemOperation) (_ : E) : FilesystemError :=
  FilesystemError_new operation FS_Io.

Section held.
Context {W : Type} `{Directories W}.

Abbreviation fs_eff := (eff FilesystemError W).

Record HardenedDir := {
  hd_dir : Dir;
  hd_absolute : bytes;
  hd_identity : FileIdentity;
  hd_lineage : list FileIdentity;
}.

Definition normalize_step (operation : FilesystemOperation) (normalized : NormalPath) (component : Component)
    : result FilesystemError NormalPath :=
  match component with
  | C_RootDir => Ok {| np_rooted := true; np_names := [] |}
  | C_CurDir => Ok normalized
  | C_ParentDir =>
      reject_if (np_names normalized ==? []) (FilesystemError_new operation FS_Traversal) ;;
      Ok {| np_rooted := np_rooted normalized; np_names := removelast (np_names normalized) |}
  | C_Normal name => Ok {| np_rooted := np_rooted normalized; np_names := np_names normalized ++ [name] |}
  end.

(** The system roots that are links are resolved on macOS only. *)
Definition normalized_absolute (path : bytes) (operation : FilesystemOperation) : fs_eff NormalPath :=
  lift (reject_nul path operation) ;;
  joined ← (if is_absolute path then mret path
            else here ← map_errM (io_error operation) current_dir; mret (path_join here path));
  lift (foldE (normalize_step operation) {| np_rooted := false; np_names := [] |} (components joined)).

Definition open_component (operation : FilesystemOperation) (at_ : Dir * list FileIdentity) (component : Component)
    : fs_eff (Dir * list FileIdentity) :=
  match component with
  | C_RootDir => mret at_
  | C_Normal name =>
      lift (reject_nul name operation) ;;
      dir ← map_errM (map_open_error operation) (open_dir_nofollow at_.1 name);
      metadata ← map_errM (io_error operation) (dir_metadata dir);
      mret (dir, at_.2 ++ [FileIdentity_from_metadata metadata])
  | C_CurDir | C_ParentDir => lift (Err (FilesystemError_new operation FS_Traversal))
  end.

Definition open_absolute_dir (path : bytes) (operation : FilesystemOperation) : fs_eff HardenedDir :=
  normalized ← normalized_absolute path operation;
  let absolute := path_bytes normalized in
  dir ← map_errM (io_error operation) open_root;
  root_metadata ← map_errM (io_error operation) (dir_metadata dir);
  '(dir, lineage) ← foldM (open_component operation) (dir, [FileIdentity_from_metadata root_metadata])
    (components absolute);
  metadata ← map_errM (io_error operation) (dir_metadata dir);
  mret {| hd_dir := dir; hd_absolute := absolute; hd_identity := FileIdentity_from_metadata metadata;
    hd_lineage := lineage |}.

Definition create_component (operation : FilesystemOperation) (at_ : Dir * list FileIdentity) (component : Component)
    : fs_eff (Dir * list FileIdentity) :=
  match component with
  | C_RootDir => mret at_
  | C_Normal name =>
      lift (reject_nul name operation) ;;
      r ← attempt (open_dir_nofollow at_.1 name);
      dir ← match r with
            | Ok child => mret child
            | Err E_NOENT =>
                r ← attempt (create_dir_with at_.1 name 448);
                match r with
                | Ok _ | Err E_EXIST => mret ()
                | Err _ => lift (Err (FilesystemError_new operation FS_Io))
                end ;;
                map_errM (map_open_error operation) (open_dir_nofollow at_.1 name)
            | Err error => lift (Err (map_open_error operation error))
            end;
      metadata ← map_errM (io_error operation) (dir_metadata dir);
      mret (dir, at_.2 ++ [FileIdentity_from_metadata metadata])
  | C_CurDir | C_ParentDir => lift (Err (FilesystemError_new operation FS_Traversal))
  end.

Definition open_or_create_absolute_dir (path : bytes) (operation : FilesystemOperation) : fs_eff HardenedDir :=
  normalized ← normalized_absolute path operation;
  let absolute := path_bytes normalized in
  dir ← map_errM (io_error operation) open_root;
  root_metadata ← map_errM (io_error operation) (dir_metadata dir);
  '(dir, lineage) ← foldM (create_component operation) (dir, [FileIdentity_from_metadata root_metadata])
    (components absolute);
  metadata ← map_errM (io_error operation) (dir_metadata dir);
  mret {| hd_dir := dir; hd_absolute := absolute; hd_identity := FileIdentity_from_metadata metadata;
    hd_lineage := lineage |}.

Definition is_contained (left_ right_ : HardenedDir) : bool :=
  (hd_identity left_ ==? hd_identity right_) ||
  (hd_identity right_ ∈? hd_lineage left_) ||
  (hd_identity left_ ∈? hd_lineage right_) ||
  path_starts_with (hd_absolute left_) (hd_absolute right_) ||
  path_starts_with (hd_absolute right_) (hd_absolute left_).

Definition nofollow_directory_child (parent : Dir) (name : bytes) (operation : FilesystemOperation) : fs_eff Dir :=
  lift (single_component name operation) ;;
  map_errM (map_open_error operation) (open_dir_nofollow parent name).

(** Access control lists and volumes are looked at on macOS only. *)
Definition validate_acl (_ : FilesystemOperation) : fs_eff unit := mret ().
Definition validate_publication_volume (_ : FilesystemOperation) : fs_eff unit := mret ().

Definition validate_private_directory (directory : Dir) (operation : FilesystemOperation) : fs_eff unit :=
  metadata ← map_errM (io_error operation) (dir_metadata directory);
  lift (reject_if (negb (N.land (md_mode metadata) 63 =? 0)%N || (md_uid metadata !=? geteuid))
    (FilesystemError_new operation FS_Permission)) ;;
  validate_publication_volume operation ;;
  validate_acl operation.
End held.
