(* ===== verification/PrivateFiles.v ===== *)
(** * Private files

    [crates/jury-filesystem]: reading a bounded file ([private_input.rs]), writing a
    new one beside its destination and publishing it by a rename
    ([private_output.rs], [private_output/prepare.rs]), the owner-only directories
    ([state_root.rs]), the lock ([lock.rs]) and the files of a vault and of its
    principals ([local_state.rs]), on Linux. *)

From S2P Require Import Prelude Effects Identifiers ProtectedMemory Directory.
Local Open Scope jury_scope.

Inductive PublicationPolicy := PP_CreateNew | PP_ReplaceExisting.

Inductive PublicationOutcome := PublishedAndSynced | PublishedButParentUnsynced.

Global Instance PublicationOutcome_eq_dec : EqDecision PublicationOutcome.
Proof. solve_decision. Defined.

Inductive DestinationState := DS_Absent | DS_Existing (snapshot : RegularFileSnapshot).

Global Instance DestinationState_eq_dec : EqDecision DestinationState.
Proof. solve_decision. Defined.

Inductive FileVisibility := FV_OwnerOnly | FV_PublicEncryptedArtifact.

Inductive PermissionProfile := PR_OwnerOnly | PR_PublicReadOnly.

(** [0o077] and [0o022] *)
Definition GROUP_OR_WORLD : N := 63.
Definition GROUP_OR_WORLD_WRITE : N := 18.

Definition forbidden_mode (visibility : FileVisibility) : N :=
  match visibility with
  | FV_OwnerOnly => GROUP_OR_WORLD
  | FV_PublicEncryptedArtifact => GROUP_OR_WORLD_WRITE
  end.

Inductive PrivateFileCleanupOutcome := RemovedAndSynced | RemovedButParentUnsynced | Retained.

Global Instance PrivateFileCleanupOutcome_eq_dec : EqDecision PrivateFileCleanupOutcome.
Proof. solve_decision. Defined.

Inductive LockError := LK_Busy | LK_InvalidName | LK_Unsupported | LK_Io.

Inductive PrincipalStateFile := PSF_Audit | PSF_Checkpoint | PSF_Receipts.

Global Instance PrincipalStateFile_eq_dec : EqDecision PrincipalStateFile.
Proof. solve_decision. Defined.

Inductive VaultStateFile := VSF_PolicyCatalog.

Definition PrincipalStateFile_name (file : PrincipalStateFile) : bytes :=
  match file with
  | PSF_Audit => str "audit.jsonl"
  | PSF_Checkpoint => str "checkpoint.json"
  | PSF_Receipts => str "receipts.json"
  end.

Definition PrincipalStateFile_maximum_bytes (file : PrincipalStateFile) : N :=
  match file with
  | PSF_Audit => 256 * 1024 * 1024
  | PSF_Checkpoint => 4 * 1024 * 1024
  | PSF_Receipts => 256 * 1024
  end.

Definition VaultStateFile_name (file : VaultStateFile) : bytes := str "policy-catalog.json".

Definition VaultStateFile_maximum_bytes (file : VaultStateFile) : N := 4 * 1024 * 1024.

Section files.
Context {W : Type} `{Directories W, MemoryProvider W}.

Inductive PreparedContents := PC_Protected (contents : ProtectedMemory) | PC_Public (contents : bytes).

Definition prepared_contents (c : PreparedContents) : bytes :=
  match c with PC_Protected m => pm_bytes m | PC_Public bs => bs end.

Abbreviation fs_eff := (eff FilesystemError W).

(** ** Reading *)

Definition validate_metadata (metadata : Metadata) (maximum_bytes : N) (permissions : PermissionProfile)
    : result FilesystemError unit :=
  reject_if (negb (md_is_file metadata) || negb (md_nlink metadata =? 1)%N)
    (FilesystemError_new FO_Read FS_HardLinkOrSize) ;;
  reject_if (maximum_bytes <? md_len metadata)%N (FilesystemError_new FO_Read FS_Capacity) ;;
  let mode := md_mode metadata in
  let permission_invalid :=
    match permissions with
    | PR_OwnerOnly => negb (N.land mode GROUP_OR_WORLD =? 0)%N
    | PR_PublicReadOnly => negb (N.land mode GROUP_OR_WORLD_WRITE =? 0)%N
    end in
  reject_if (permission_invalid || (md_uid metadata !=? geteuid)) (FilesystemError_new FO_Read FS_Permission).

Definition read_with_permissions (directory : Dir) (name : bytes) (maximum_bytes : N)
    (permissions : PermissionProfile) : fs_eff bytes :=
  lift (reject_if (maximum_bytes =? 0)%N (FilesystemError_new FO_Read FS_Capacity)) ;;
  validate_acl FO_Read ;;
  name ← lift (single_component name FO_Read);
  before ← map_errM (λ error, FilesystemError_new FO_Read (if error ==? E_NOENT then FS_NotFound else FS_Io))
    (symlink_metadata directory name);
  lift (validate_metadata before maximum_bytes permissions) ;;
  let expected := RegularFileSnapshot_from_metadata before in
  file ← map_errM (io_error FO_Read) (open_read directory name);
  opened ← map_errM (io_error FO_Read) (file_metadata file);
  lift (validate_metadata opened maximum_bytes permissions) ;;
  validate_acl FO_Read ;;
  lift (reject_if (RegularFileSnapshot_from_metadata opened !=? expected)
    (FilesystemError_new FO_Read FS_IdentityChanged)) ;;
  let limit := saturating_add_u64 maximum_bytes 1 in
  output ← map_errM (io_error FO_Read) (read_to_end file limit);
  lift (reject_if (maximum_bytes <? len output)%N (FilesystemError_new FO_Read FS_Capacity)) ;;
  after ← map_errM (io_error FO_Read) (file_metadata file);
  lift (reject_if (RegularFileSnapshot_from_metadata after !=? expected)
    (FilesystemError_new FO_Read FS_IdentityChanged)) ;;
  mret output.

Definition read_from_dir (directory : Dir) (name : bytes) (maximum_bytes : N) : fs_eff bytes :=
  read_with_permissions directory name maximum_bytes PR_OwnerOnly.

Definition read_public_from_dir (directory : Dir) (name : bytes) (maximum_bytes : N) : fs_eff bytes :=
  read_with_permissions directory name maximum_bytes PR_PublicReadOnly.

Definition private_input_read (root : HardenedDir) (name : bytes) (maximum_bytes : N) : fs_eff bytes :=
  validate_private_directory (hd_dir root) FO_Read ;;
  read_from_dir (hd_dir root) name maximum_bytes.

(** ** Publishing *)

Record PrivateFilePrecondition := {
  pp_parent : Dir;
  pp_destination : bytes;
  pp_state : DestinationState;
  pp_visibility : FileVisibility;
}.

Definition destination_exists (precondition : PrivateFilePrecondition) : bool :=
  match pp_state precondition with DS_Existing _ => true | DS_Absent => false end.

Record PreparedPrivateFile := {
  pf_parent : Dir;
  pf_destination : bytes;
  pf_temporary : bytes;
  pf_temporary_identity : RegularFileSnapshot;
  pf_file : File;
  pf_expected : DestinationState;
  pf_replace : bool;
  pf_byte_len : N;
}.

Definition destination_state (parent : Dir) (name : bytes) (operation : FilesystemOperation)
    : fs_eff DestinationState :=
  r ← attempt (symlink_metadata parent name);
  match r with
  | Ok metadata =>
      if md_is_file metadata && (md_nlink metadata =? 1)%N
      then mret (DS_Existing (RegularFileSnapshot_from_metadata metadata))
      else lift (Err (FilesystemError_new operation FS_LinkOrWrongType))
  | Err E_NOENT => mret DS_Absent
  | Err _ => lift (Err (FilesystemError_new operation FS_Io))
  end.

Definition validate_existing_visibility (state : DestinationState) (visibility : FileVisibility)
    : result FilesystemError unit :=
  match state with
  | DS_Absent => Ok ()
  | DS_Existing snapshot =>
      reject_if (negb (N.land (rs_mode snapshot) (forbidden_mode visibility) =? 0)%N ||
        (rs_owner snapshot !=? geteuid)) (FilesystemError_new FO_Preview FS_Permission)
  end.

Definition preview_with_visibility (parent : Dir) (name : bytes) (visibility : FileVisibility)
    : fs_eff PrivateFilePrecondition :=
  destination ← lift (single_component name FO_Preview);
  state ← destination_state parent destination FO_Preview;
  lift (validate_existing_visibility state visibility) ;;
  parent ← map_errM (io_error FO_Preview) (try_clone parent);
  mret {| pp_parent := parent; pp_destination := destination; pp_state := state; pp_visibility := visibility |}.

Definition preview (parent : Dir) (name : bytes) : fs_eff PrivateFilePrecondition :=
  preview_with_visibility parent name FV_OwnerOnly.

Definition preview_encrypted_shared_artifact (parent : Dir) (name : bytes) : fs_eff PrivateFilePrecondition :=
  preview_with_visibility parent name FV_PublicEncryptedArtifact.

Definition validate_expected (parent : Dir) (destination : bytes) (expected : DestinationState) : fs_eff unit :=
  current ← destination_state parent destination FO_Publish;
  lift (reject_if (current !=? expected) (FilesystemError_new FO_Publish FS_IdentityChanged)).

Definition validate_temporary (parent : Dir) (temporary : bytes) (expected : RegularFileSnapshot) : fs_eff unit :=
  metadata ← map_errM (λ _, FilesystemError_new FO_Publish FS_IdentityChanged) (symlink_metadata parent temporary);
  lift (reject_if (negb (md_is_file metadata && (md_nlink metadata =? 1)%N &&
      (RegularFileSnapshot_from_metadata metadata ==? expected)))
    (FilesystemError_new FO_Publish FS_IdentityChanged)).

Definition temporary_name : fs_eff bytes :=
  random ← map_errM (io_error FO_Prepare) (getrandom 16);
  mret (str ".jury-private-" ++ encode_hex random ++ str ".tmp").

Definition remove_owned_temporary (parent : Dir) (name : bytes) (file : File) : fs_eff unit :=
  held ← attempt (file_metadata file);
  named ← attempt (symlink_metadata parent name);
  match held, named with
  | Ok held, Ok named =>
      if md_is_file named && (FileIdentity_from_metadata held ==? FileIdentity_from_metadata named)
      then attempt (remove_file parent name) ;; mret ()
      else mret ()
  | _, _ => mret ()
  end.

Definition validate_file (file : File) (visibility : FileVisibility) : fs_eff Metadata :=
  metadata ← map_errM (io_error FO_Prepare) (file_metadata file);
  lift (reject_if (negb (md_is_file metadata) || negb (md_nlink metadata =? 1)%N ||
      negb (N.land (md_mode metadata) (forbidden_mode visibility) =? 0)%N || (md_uid metadata !=? geteuid))
    (FilesystemError_new FO_Prepare FS_Permission)) ;;
  validate_acl FO_Prepare ;;
  mret metadata.

Definition validate_and_write (file : File) (visibility : FileVisibility) (write : eff unit W unit)
    : fs_eff RegularFileSnapshot :=
  validate_file file visibility ;;
  map_errM (io_error FO_Prepare) write ;;
  metadata ← validate_file file visibility;
  map_errM (native_error FO_Prepare) (sync_all file) ;;
  mret (RegularFileSnapshot_from_metadata metadata).

(** Protected contents are exposed for the time of the write. *)
Definition write_contents (file : File) (contents : PreparedContents) : eff unit W unit :=
  match contents with
  | PC_Protected m =>
      r ← map_errM (λ _, ()) (expose m (write_all file));
      lift (map_err (λ _, ()) r)
  | PC_Public bs => map_errM (λ _, ()) (write_all file bs)
  end.

Definition write_prepared (parent : Dir) (destination : bytes) (contents : PreparedContents)
    (expected : DestinationState) (replace : bool) (visibility : FileVisibility) : fs_eff PreparedPrivateFile :=
  match visibility with
  | FV_OwnerOnly => validate_private_directory parent FO_Prepare
  | FV_PublicEncryptedArtifact => validate_publication_volume FO_Prepare ;; validate_acl FO_Prepare
  end ;;
  temporary ← temporary_name;
  let mode := match visibility with FV_OwnerOnly => 384 | FV_PublicEncryptedArtifact => 420 end%N in
  file ← map_errM (io_error FO_Prepare) (open_create_new parent temporary mode);
  r ← attempt (validate_and_write file visibility (write_contents file contents));
  match r with
  | Ok temporary_identity =>
      mret {| pf_parent := parent; pf_destination := destination; pf_temporary := temporary;
        pf_temporary_identity := temporary_identity; pf_file := file; pf_expected := expected;
        pf_replace := replace; pf_byte_len := len (prepared_contents contents) |}
  | Err error =>
      remove_owned_temporary parent temporary file ;;
      lift (Err error)
  end.

Definition prepare (parent : Dir) (name : bytes) (contents : ProtectedMemory) (policy : PublicationPolicy)
    (visibility : FileVisibility) : fs_eff PreparedPrivateFile :=
  destination ← lift (single_component name FO_Prepare);
  expected ← destination_state parent destination FO_Prepare;
  lift (validate_existing_visibility expected visibility) ;;
  replace ← lift
    match policy, expected with
    | PP_CreateNew, DS_Absent => Ok false
    | PP_CreateNew, DS_Existing _ => Err (FilesystemError_new FO_Prepare FS_AlreadyExists)
    | PP_ReplaceExisting, DS_Existing _ => Ok true
    | PP_ReplaceExisting, DS_Absent => Err (FilesystemError_new FO_Prepare FS_NotFound)
    end;
  write_prepared parent destination (PC_Protected contents) expected replace visibility.

(** [PreparedPrivateFile::prepare_if_unchanged] *)
Definition prepare_if_unchanged (precondition : PrivateFilePrecondition) (contents : ProtectedMemory) (allow_replace : bool)
    : fs_eff PreparedPrivateFile :=
  lift (reject_if (destination_exists precondition && negb allow_replace)
    (FilesystemError_new FO_Prepare FS_AlreadyExists)) ;;
  validate_expected (pp_parent precondition) (pp_destination precondition) (pp_state precondition) ;;
  write_prepared (pp_parent precondition) (pp_destination precondition) (PC_Protected contents)
    (pp_state precondition) (destination_exists precondition) (pp_visibility precondition).

(** [PreparedPublicFile::prepare_bounded_if_unchanged] and
    [PreparedPrivateFile::prepare_bounded_private_bytes_if_unchanged] *)
Definition prepare_bounded_if_unchanged (precondition : PrivateFilePrecondition) (contents : bytes)
    (maximum_bytes : N) (allow_replace : bool) (visibility : FileVisibility) : fs_eff PreparedPrivateFile :=
  lift (reject_if (maximum_bytes <? len contents)%N (FilesystemError_new FO_Prepare FS_HardLinkOrSize)) ;;
  lift (reject_if (destination_exists precondition && negb allow_replace)
    (FilesystemError_new FO_Prepare FS_AlreadyExists)) ;;
  validate_expected (pp_parent precondition) (pp_destination precondition) (pp_state precondition) ;;
  write_prepared (pp_parent precondition) (pp_destination precondition) (PC_Public contents)
    (pp_state precondition) (destination_exists precondition) visibility.

Definition rename_noreplace (parent : Dir) (source destination : bytes) : fs_eff unit :=
  map_errM (λ error, FilesystemError_new FO_Publish
    match error with
    | E_EXIST => FS_AlreadyExists
    | E_NOSYS | E_INVAL | E_OPNOTSUPP => FS_Unsupported
    | _ => FS_Io
    end) (renameat_noreplace parent source destination).

(** A file that is dropped without being published is removed. *)
Definition drop_prepared (x : PreparedPrivateFile) : fs_eff unit :=
  remove_owned_temporary (pf_parent x) (pf_temporary x) (pf_file x).

Definition publish_named (x : PreparedPrivateFile) : fs_eff unit :=
  validate_acl FO_Publish ;;
  validate_acl FO_Publish ;;
  validate_expected (pf_parent x) (pf_destination x) (pf_expected x) ;;
  validate_temporary (pf_parent x) (pf_temporary x) (pf_temporary_identity x) ;;
  if pf_replace x
  then map_errM (io_error FO_Publish) (rename (pf_parent x) (pf_temporary x) (pf_destination x))
  else rename_noreplace (pf_parent x) (pf_temporary x) (pf_destination x).

(** [PreparedPrivateFile::publish] *)
Definition publish (x : PreparedPrivateFile) : fs_eff PublicationOutcome :=
  r ← attempt (publish_named x);
  match r with
  | Err error =>
      drop_prepared x ;;
      lift (Err error)
  | Ok _ =>
      r ← attempt (sync_directory (pf_parent x));
      mret (if r is Ok _ then PublishedAndSynced else PublishedButParentUnsynced)
  end.

(** ** Owner-only directories *)

(** [validate_root] of a directory with nothing to be kept apart from. *)
Definition validate_root (root : HardenedDir) : fs_eff unit :=
  validate_private_directory (hd_dir root) FO_OpenStateRoot ;;
  metadata ← map_errM (io_error FO_OpenStateRoot) (dir_metadata (hd_dir root));
  lift (reject_if (negb (N.land (md_mode metadata) GROUP_OR_WORLD =? 0)%N || (md_uid metadata !=? geteuid))
    (FilesystemError_new FO_OpenStateRoot FS_Permission)).

Definition hardened_child (root : HardenedDir) (name : bytes) (dir : Dir) : fs_eff HardenedDir :=
  metadata ← map_errM (io_error FO_OpenStateRoot) (dir_metadata dir);
  let identity := FileIdentity_from_metadata metadata in
  let child := {| hd_dir := dir; hd_absolute := path_join (hd_absolute root) name; hd_identity := identity;
    hd_lineage := hd_lineage root ++ [identity] |} in
  validate_root child ;;
  mret child.

Definition open_private_child (root : HardenedDir) (name : bytes) : fs_eff HardenedDir :=
  name ← lift (single_component name FO_OpenStateRoot);
  dir ← nofollow_directory_child (hd_dir root) name FO_OpenStateRoot;
  hardened_child root name dir.

Definition open_or_create_private_child (root : HardenedDir) (name : bytes) : fs_eff HardenedDir :=
  name ← lift (single_component name FO_OpenStateRoot);
  r ← attempt (create_dir_with (hd_dir root) name 448);
  match r with
  | Ok _ | Err E_EXIST => mret ()
  | Err _ => lift (Err (FilesystemError_new FO_OpenStateRoot FS_Io))
  end ;;
  dir ← nofollow_directory_child (hd_dir root) name FO_OpenStateRoot;
  hardened_child root name dir.

Definition create_private_child_new (root : HardenedDir) (name : bytes) : fs_eff HardenedDir :=
  name ← lift (single_component name FO_OpenStateRoot);
  map_errM (λ error, FilesystemError_new FO_OpenStateRoot (if error ==? E_EXIST then FS_AlreadyExists else FS_Io))
    (create_dir_with (hd_dir root) name 448) ;;
  map_errM (io_error FO_SyncParent) (sync_directory (hd_dir root)) ;;
  open_private_child root name.

Definition private_child_exists (root : HardenedDir) (name : bytes) : fs_eff bool :=
  name ← lift (single_component name FO_Preview);
  r ← attempt (symlink_metadata (hd_dir root) name);
  match r with
  | Ok _ => mret true
  | Err E_NOENT => mret false
  | Err _ => lift (Err (FilesystemError_new FO_Preview FS_Io))
  end.

Definition preview_private_file (root : HardenedDir) (name : bytes) : fs_eff PrivateFilePrecondition :=
  preview (hd_dir root) name.

Definition read_private_file (root : HardenedDir) (name : bytes) (maximum_bytes : N) : fs_eff bytes :=
  private_input_read root name maximum_bytes.

(** [PreparedPrivateFile::prepare_state] *)
Definition prepare_state (root : HardenedDir) (name : bytes) (contents : ProtectedMemory) (policy : PublicationPolicy)
    : fs_eff PreparedPrivateFile :=
  parent ← map_errM (io_error FO_Prepare) (try_clone (hd_dir root));
  prepare parent name contents policy FV_OwnerOnly.

(** ** Cleaning up *)

Definition remove_cleanup_file (root : HardenedDir) (name : bytes) : fs_eff PrivateFileCleanupOutcome :=
  r ← attempt (remove_file (hd_dir root) name);
  match r with
  | Err _ => mret Retained
  | Ok _ =>
      r ← attempt (sync_directory (hd_dir root));
      mret (if r is Ok _ then RemovedAndSynced else RemovedButParentUnsynced)
  end.

(** A file found under its name is moved aside, read again and removed. *)
Definition quarantine_and_remove (root : HardenedDir) (name quarantine_name expected : bytes) (maximum : N)
    : fs_eff PrivateFileCleanupOutcome :=
  r ← attempt (read_from_dir (hd_dir root) name maximum);
  match r with
  | Err _ => mret Retained
  | Ok observed =>
      if observed !=? expected then mret Retained
      else
        r ← attempt (rename_noreplace (hd_dir root) name quarantine_name);
        match r with
        | Err _ => mret Retained
        | Ok _ =>
            r ← attempt (read_from_dir (hd_dir root) quarantine_name maximum);
            match r with
            | Err _ => mret Retained
            | Ok quarantined =>
                if quarantined !=? expected then
                  attempt (rename_noreplace (hd_dir root) quarantine_name name) ;;
                  mret Retained
                else remove_cleanup_file root quarantine_name
            end
        end
  end.

Definition cleanup_private_file_if_exact (root : HardenedDir) (name quarantine_name expected : bytes)
    : fs_eff PrivateFileCleanupOutcome :=
  name ← lift (single_component name FO_Cleanup);
  quarantine_name ← lift (single_component quarantine_name FO_Cleanup);
  lift (reject_if (name ==? quarantine_name) (FilesystemError_new FO_Cleanup FS_Traversal)) ;;
  maximum ← lift (ok_or (checked_add_u64 (len expected) 1) (FilesystemError_new FO_Cleanup FS_HardLinkOrSize));
  r ← attempt (read_from_dir (hd_dir root) quarantine_name maximum);
  match r with
  | Ok observed =>
      if observed !=? expected then mret Retained
      else
        exists_name ← private_child_exists root name;
        if (exists_name : bool) then mret Retained else remove_cleanup_file root quarantine_name
  | Err error =>
      if fe_kind error ==? FS_NotFound then quarantine_and_remove root name quarantine_name expected maximum
      else mret Retained
  end.

(** Whether either name is taken. *)
Definition either_exists (root : HardenedDir) (name quarantine_name : bytes) : fs_eff bool :=
  first ← private_child_exists root name;
  if (first : bool) then mret true else private_child_exists root quarantine_name.

Definition confirm_private_cleanup_absent (root : HardenedDir) (name quarantine_name : bytes)
    : fs_eff PrivateFileCleanupOutcome :=
  present ← either_exists root name quarantine_name;
  if (present : bool) then mret Retained
  else
    r ← attempt (sync_directory (hd_dir root));
    match r with
    | Err _ => mret RemovedButParentUnsynced
    | Ok _ =>
        present ← either_exists root name quarantine_name;
        mret (if (present : bool) then Retained else RemovedAndSynced)
    end.

(** ** The lock *)

Record ExclusiveStateLock := {
  lk_parent : Dir;
  lk_name : bytes;
  lk_file : File;
}.

(** A lock that is dropped removes its file, when the name still leads to it. *)
Definition drop_lock (lock : ExclusiveStateLock) : eff LockError W unit :=
  original ← attempt (file_metadata (lk_file lock));
  match original with
  | Err _ => mret ()
  | Ok original =>
      metadata ← attempt (symlink_metadata (lk_parent lock) (lk_name lock));
      match metadata with
      | Err _ => mret ()
      | Ok metadata =>
          if md_is_file metadata && (md_nlink metadata =? 1)%N &&
             (FileIdentity_from_metadata metadata ==? FileIdentity_from_metadata original)
          then attempt (remove_file (lk_parent lock) (lk_name lock)) ;; mret ()
          else mret ()
      end
  end.

Definition validate_lock (lock : ExclusiveStateLock) : eff LockError W unit :=
  metadata ← map_errM (λ _, LK_Io) (file_metadata (lk_file lock));
  lift (reject_if (negb (md_is_file metadata) || negb (md_nlink metadata =? 1)%N ||
    negb (N.land (md_mode metadata) GROUP_OR_WORLD =? 0)%N || (md_uid metadata !=? geteuid)) LK_Io) ;;
  map_errM (λ _, LK_Io) (validate_acl FO_Lock) ;;
  map_errM (λ _, LK_Io) (sync_all (lk_file lock)).

(** [ExclusiveStateLock::try_acquire] *)
Definition try_acquire (root : HardenedDir) (public_name : bytes) : eff LockError W ExclusiveStateLock :=
  name ← lift (map_err (λ error, match fe_kind error with FS_Traversal | FS_Nul => LK_InvalidName | _ => LK_Io end)
    (single_component public_name FO_Lock));
  map_errM (λ _, LK_Io) (validate_private_directory (hd_dir root) FO_Lock) ;;
  parent ← map_errM (λ _, LK_Io) (try_clone (hd_dir root));
  file ← map_errM (λ error, if error ==? E_EXIST then LK_Busy else LK_Io) (open_create_new parent name 384);
  let lock := {| lk_parent := parent; lk_name := name; lk_file := file |} in
  r ← attempt (validate_lock lock);
  match r with
  | Ok _ => mret lock
  | Err error => drop_lock lock ;; lift (Err error)
  end.

(** ** The files of a vault and of its principals *)

Definition descend_hex (parent : HardenedDir) (bs : bytes) : fs_eff HardenedDir :=
  open_or_create_private_child parent (encode_hex bs).

Definition descend_hex_existing (parent : HardenedDir) (bs : bytes) : fs_eff HardenedDir :=
  open_private_child parent (encode_hex bs).

Definition prepare_state_file (preview : fs_eff PrivateFilePrecondition) (maximum_bytes : N) (contents : ProtectedMemory)
    : fs_eff PreparedPrivateFile :=
  lift (reject_if (maximum_bytes <? len (pm_bytes contents))%N (FilesystemError_new FO_Prepare FS_HardLinkOrSize)) ;;
  precondition ← preview;
  prepare_if_unchanged precondition contents true.

(** [VaultStateDirectory::try_lock] *)
Definition vault_try_lock (root : HardenedDir) : eff LockError W ExclusiveStateLock :=
  try_acquire root (str "vault-edit.lock").

(** The methods of [LockedVaultState]. *)
Definition locked_vault_read_bounded (root : HardenedDir) (principal_id : bytes) (file : PrincipalStateFile)
    (maximum_bytes : N) : fs_eff bytes :=
  principal ← descend_hex_existing root principal_id;
  read_private_file principal (PrincipalStateFile_name file)
    (N.min maximum_bytes (PrincipalStateFile_maximum_bytes file)).

Definition locked_vault_read (root : HardenedDir) (principal_id : bytes) (file : PrincipalStateFile) : fs_eff bytes :=
  locked_vault_read_bounded root principal_id file (PrincipalStateFile_maximum_bytes file).

Definition locked_vault_preview (root : HardenedDir) (principal_id : bytes) (file : PrincipalStateFile)
    : fs_eff PrivateFilePrecondition :=
  principal ← descend_hex root principal_id;
  preview_private_file principal (PrincipalStateFile_name file).

Definition locked_vault_prepare (root : HardenedDir) (principal_id : bytes) (file : PrincipalStateFile)
    (contents : ProtectedMemory) : fs_eff PreparedPrivateFile :=
  prepare_state_file (locked_vault_preview root principal_id file) (PrincipalStateFile_maximum_bytes file) contents.

Definition locked_vault_publish (root : HardenedDir) (principal_id : bytes) (file : PrincipalStateFile)
    (contents : ProtectedMemory) : fs_eff PublicationOutcome :=
  prepared ← locked_vault_prepare root principal_id file contents;
  publish prepared.

Definition locked_read_vault_state (root : HardenedDir) (file : VaultStateFile) : fs_eff bytes :=
  read_private_file root (VaultStateFile_name file) (VaultStateFile_maximum_bytes file).

Definition locked_prepare_vault_state (root : HardenedDir) (file : VaultStateFile) (contents : ProtectedMemory)
    : fs_eff PreparedPrivateFile :=
  prepare_state_file (preview_private_file root (VaultStateFile_name file)) (VaultStateFile_maximum_bytes file) contents.
End files.
