(* ===== verification/PrivateFilesTheorems.v ===== *)
(** * Theorems about private files

    Everything but a publication leaves every file as it is and adds at most
    temporary files, a lock and directories ([grows]); a publication replaces one
    file by the bytes that were written, or does nothing; a read gives the whole
    file. The lock file excludes a second holder, and cleaning up a marker removes
    nothing else. *)

From S2P Require Import Prelude Effects Identifiers ProtectedMemory Directory PrivateFiles.
Local Open Scope jury_scope.

(** ** Names *)

Lemma split_slash_plain n : slash ∉ n → split_slash n = [n].
Proof.
  induction n as [|b n IH]; [done|]. intros [Hb Hn]%not_elem_of_cons. cbn. rewrite -> (IH Hn).
  by rewrite -> decide_False.
Qed.

Lemma split_slash_pieces n : Forall (λ p, slash ∉ p) (split_slash n).
Proof.
  induction n as [|b n IH]; [by repeat constructor; apply not_elem_of_nil|]. cbn.
  destruct (split_slash n) as [|p ps]; [done|]. apply Forall_cons in IH as [Hp Hps].
  case_decide; [constructor; [apply not_elem_of_nil|by constructor]|]. constructor; [|done].
  apply not_elem_of_cons. split; [congruence|done].
Qed.

Lemma component_of_Normal p v : C_Normal v ∈ component_of p → v = p ∧ p ≠ [] ∧ p ≠ [dot] ∧ p ≠ [dot; dot].
Proof. unfold component_of. repeat case_decide; rewrite -> ?elem_of_nil, ?list_elem_of_singleton; naive_solver. Qed.

Lemma components_Normal n v : C_Normal v ∈ components n → slash ∉ v ∧ v ≠ [] ∧ v ≠ [dot] ∧ v ≠ [dot; dot].
Proof.
  unfold components. pose proof (split_slash_pieces n) as Hp. destruct (split_slash n) as [|p ps]; [by intros ?%elem_of_nil|].
  apply Forall_cons in Hp as [Hp Hps].
  assert (C_Normal v ∈ mjoin (component_of <$> ps) → slash ∉ v ∧ v ≠ [] ∧ v ≠ [dot] ∧ v ≠ [dot; dot]) as Hjoin.
  { intros (l & Hv & Hl)%list_elem_of_join. apply list_elem_of_fmap in Hl as (q & -> & Hq).
    apply component_of_Normal in Hv as (-> & Hne). split; [|done]. by apply (proj1 (Forall_forall _ _) Hps). }
  destruct p as [|b p]; intros [Hin|Hin]%elem_of_app; try by apply Hjoin.
  - case_decide; [by apply elem_of_nil in Hin|]. by apply list_elem_of_singleton in Hin.
  - case_decide; [by apply list_elem_of_singleton in Hin|]. by apply component_of_Normal in Hin as (-> & ? & ? & ?).
Qed.

(** A name that is accepted as one component stays in its directory: it is not
    empty, holds no slash and no NUL, and is not a dot or two. *)
Theorem single_component_safe name op v :
  single_component name op = Ok v → v ≠ [] ∧ slash ∉ v ∧ nul ∉ v ∧ v ≠ [dot] ∧ v ≠ [dot; dot].
Proof.
  unfold single_component. destruct (components name) as [|[| | |x] rest] eqn:Hc; try done. intros Hk.
  apply reject_if_bind in Hk as [_ Hk]. apply reject_if_bind in Hk as [Hn <-%Ok_inj].
  destruct (components_Normal name x) as (? & ? & ? & ?); [rewrite -> Hc; apply list_elem_of_here|].
  split_and!; try done. unfold reject_nul in Hn. by apply bool_decide_eq_false in Hn.
Qed.

Lemma single_component_plain name op v : slash ∉ name → single_component name op = Ok v → v = name.
Proof.
  intros Hs. unfold single_component, components. rewrite -> (split_slash_plain _ Hs).
  destruct name as [|b n]; [done|]. cbn [fmap list_fmap mjoin list_join]. rewrite -> app_nil_r.
  case_decide; [done|]. unfold component_of. repeat case_decide; try done.
  intros Hk. apply reject_if_bind in Hk as [_ Hk]. by apply reject_if_bind in Hk as [_ <-%Ok_inj].
Qed.

(** The names of files that are published: neither a temporary file, nor a lock,
    nor a directory named by an identifier. *)
Definition tracked (n : bytes) : Prop := head n ≠ Some dot ∧ dot ∈ n ∧ n ≠ str "vault-edit.lock".

Global Instance tracked_dec n : Decision (tracked n).
Proof. unfold tracked. apply _. Defined.

Lemma encode_hex_nibble bs b : b ∈ encode_hex bs → is_Some (nibble b).
Proof.
  unfold encode_hex. intros (c & Hb & _)%list_elem_of_bind. destruct (nibbles_lt c) as [Hh Hl].
  apply elem_of_cons in Hb as [->|Hb%list_elem_of_singleton]; [|subst b]; by rewrite -> nibble_hex_digit.
Qed.

Lemma hex_untracked bs : ¬ tracked (encode_hex bs).
Proof. intros (_ & Hd & _). by apply encode_hex_nibble in Hd as [n Hn]. Qed.

Lemma hex_plain bs : slash ∉ encode_hex bs.
Proof. intros Hs%encode_hex_nibble. by destruct Hs. Qed.

(** The names of temporary files. *)
Definition temporary_like (n : bytes) : Prop := ∃ s, n = str ".jury-private-" ++ s.

Lemma temporary_dotted n : temporary_like n → head n = Some dot.
Proof. by intros [s ->]. Qed.

Lemma dotted_untracked n : head n = Some dot → ¬ tracked n.
Proof. by intros Hn [Hh _]. Qed.

(** ** What a computation does to the files *)

Section files.
Context {W : Type} `{DirectoryLaws W}.

Definition file_at (w : W) (d : N) (n : bytes) : option bytes := contents w <$> entry w d n.

(** Names keep their meaning and files their contents; what is new is not
    tracked. *)
Record grows (w w' : W) : Prop := {
  gr_entry d n i : entry w d n = Some i → entry w' d n = Some i;
  gr_contents d n i : entry w d n = Some i → contents w' i = contents w i;
  gr_tracked d n : tracked n → entry w d n = None → entry w' d n = None;
  gr_new d n i : entry w d n = None → entry w' d n = Some i → ∀ n', entry w i n' = None;
}.

Global Instance grows_preorder : PreOrder grows.
Proof.
  split.
  - intros w. split; congruence || naive_solver.
  - intros w1 w2 w3 [e1 c1 t1 n1] [e2 c2 t2 n2]. split.
    + eauto.
    + intros d n i Hi. by rewrite -> (c2 _ _ _ (e1 _ _ _ Hi)), (c1 _ _ _ Hi).
    + eauto.
    + intros d n i Hn Hi n'. destruct (entry w2 d n) as [j|] eqn:Hj.
      * rewrite -> (e2 _ _ _ Hj) in Hi. injection Hi as ->. by eapply n1.
      * destruct (entry w1 i n') as [k|] eqn:Hk; [|done]. apply e1 in Hk. by rewrite -> (n2 _ _ _ Hj Hi) in Hk.
Qed.

Lemma same_files_grows w w' : same_files w w' → grows w w'.
Proof. intros [He Hc]. split; intros *; rewrite -> ?He, ?Hc; congruence || naive_solver. Qed.

Lemma same_files_sym w w' : same_files w w' → same_files w' w.
Proof. intros [He Hc]. by split. Qed.

Lemma grows_file_at w w' d n : grows w w' → tracked n → file_at w' d n = file_at w d n.
Proof.
  intros [He Hc Ht _] Hn. unfold file_at. destruct (entry w d n) as [i|] eqn:Hi; cbn.
  - rewrite -> (He _ _ _ Hi). cbn. by rewrite -> (Hc _ _ _ Hi).
  - by rewrite -> (Ht _ _ Hn Hi).
Qed.

(** A new name that leads to something new. *)
Lemma entry_set_grows w w' d n i :
  entry w d n = None → ¬ tracked n → fresh_ino w i → entry_set w w' d n (Some i) →
  (∀ j, j ≠ i → contents w' j = contents w j) → grows w w'.
Proof.
  intros Hn Ht [Hf1 Hf2] Hs Hc. split.
  - intros d' n' j Hj. rewrite -> Hs. case_decide as He; [|done]. injection He as -> ->. congruence.
  - intros d' n' j Hj. apply Hc. intros ->. by eapply Hf1.
  - intros d' n' Ht' Hn'. rewrite -> Hs. case_decide as He; [|done]. by injection He as -> ->.
  - intros d' n' j Hn'. rewrite -> Hs. case_decide as He; [intros [= <-]; exact Hf2|]. congruence.
Qed.

(** Taking back a name that was not there before. *)
Lemma grows_remove w w1 w2 d n :
  grows w w1 → entry w d n = None → entry_set w1 w2 d n None → (∀ i, contents w2 i = contents w1 i) → grows w w2.
Proof.
  intros [He Hc Ht Hn] Hd Hs Hc2. split.
  - intros d' n' j Hj. rewrite -> Hs. case_decide as Heq; [injection Heq as -> ->; congruence|by apply He].
  - intros d' n' j Hj. rewrite -> Hc2. by eapply Hc.
  - intros d' n' Htr Hn'. rewrite -> Hs. case_decide; [done|]. by apply Ht.
  - intros d' n' j Hn'. rewrite -> Hs. case_decide; [done|]. by apply Hn.
Qed.

(** ** Calls that change nothing *)

Definition idle {E A} (m : eff E W A) : Prop := keeps same_files m.

Global Instance same_files_preorder : PreOrder same_files.
Proof.
  split; [by intros w|]. intros w1 w2 w3 [e1 c1] [e2 c2]. split; intros; by rewrite -> ?e2, ?e1, ?c2, ?c1.
Qed.

Lemma idle_grows {E A} (m : eff E W A) : idle m → keeps grows m.
Proof. apply keeps_mono. apply same_files_grows. Qed.
End files.

#[export] Hint Resolve symlink_metadata_same dir_metadata_same file_metadata_same try_clone_same open_dir_same
  open_read_same read_same sync_all_same sync_directory_same getrandom_same open_root_same current_dir_same
  fill_same secret_enter_same secret_leave_same core_read_same : keeps.
#[export] Hint Extern 5 (keeps _ _) => intros ?; solve [eauto 2 with keeps] : keeps.

Section operations.
Context {W : Type} `{DirectoryLaws W}.
Implicit Types (root : HardenedDir) (n : bytes).

Ltac idle_tac := unfold idle; keeps_tac.

Lemma validate_private_directory_idle d op : idle (validate_private_directory d op).
Proof. unfold validate_private_directory. idle_tac. Qed.

Lemma destination_state_idle d n op : idle (destination_state d n op).
Proof. unfold destination_state. idle_tac. Qed.

Lemma read_with_permissions_idle d n k p : idle (read_with_permissions d n k p).
Proof. unfold read_with_permissions. idle_tac. Qed.

(** A step of a run that ended well, with what it kept. *)
Lemma bind_keeps {E A B} (R : relation W) (m : eff E W A) (k : A → eff E W B) w b w' :
  (m ≫= k) w = (Ok b, w') → keeps R m → ∃ a w1, m w = (Ok a, w1) ∧ R w w1 ∧ k a w1 = (Ok b, w').
Proof. intros (a & w1 & Hm & Hk)%eff_bind_Ok HR. exists a, w1. split_and!; [done|by eapply keeps_run|done]. Qed.

Lemma bind_lift_Ok {E A B} (r : result E A) (k : A → eff E W B) w b w' :
  (lift r ≫= k) w = (Ok b, w') → ∃ a, r = Ok a ∧ k a w = (Ok b, w').
Proof. intros (a & w1 & [Hr ->]%lift_Ok & Hk)%eff_bind_Ok. eauto. Qed.

Lemma bind_ret {E A B} (a : A) (k : A → eff E W B) w : (mret a ≫= k) w = k a w.
Proof. done. Qed.

Lemma same_files_at w w' i n : same_files w w' → file_at w' i n = file_at w i n.
Proof. intros [He Hc]. unfold file_at. rewrite -> He. destruct (entry w i n); cbn; by rewrite -> ?Hc. Qed.

Lemma saturating_succ k : (k < 2 ^ 64 - 1)%N → saturating_add_u64 k 1 = (k + 1)%N.
Proof. intros Hk. unfold saturating_add_u64, u64_max. lia. Qed.

(** One byte more than allowed is asked for, so that a file that is too long shows. *)
Lemma take_limit {A} (k : N) (l : list A) :
  (len (take (N.to_nat (k + 1)) l) ≤ k)%N → take (N.to_nat (k + 1)) l = l.
Proof. intros Hl. apply take_ge. unfold len in Hl. rewrite -> length_take in Hl. lia. Qed.

(** A read gives the whole file. *)
Lemma read_with_permissions_Ok d n k p w bs w' :
  slash ∉ n → (k < 2 ^ 64 - 1)%N → read_with_permissions d n k p w = (Ok bs, w') →
  file_at w (dir_ino d) n = Some bs ∧ (len bs ≤ k)%N.
Proof.
  intros Hn Hk Hrun. unfold read_with_permissions in Hrun. apply bind_lift_Ok in Hrun as (_ & _ & Hrun).
  unfold validate_acl in Hrun. rewrite -> bind_ret in Hrun.
  apply bind_lift_Ok in Hrun as (v & ->%(single_component_plain _ _ _ Hn) & Hrun).
  apply (bind_keeps same_files) in Hrun as (m0 & w1 & _ & Hw1 & Hrun); [|keeps_tac].
  apply bind_lift_Ok in Hrun as (_ & _ & Hrun).
  apply (bind_keeps same_files) in Hrun as (f & w2 & Hf%map_errM_run%open_read_Ok & Hw2 & Hrun); [|keeps_tac].
  apply (bind_keeps same_files) in Hrun as (m1 & w3 & _ & Hw3 & Hrun); [|keeps_tac].
  apply bind_lift_Ok in Hrun as (_ & _ & Hrun). rewrite -> bind_ret in Hrun.
  apply bind_lift_Ok in Hrun as (_ & _ & Hrun).
  apply (bind_keeps same_files) in Hrun as (out & w4 & Ho%map_errM_run%read_Ok & _ & Hrun); [|keeps_tac].
  apply bind_lift_Ok in Hrun as (_ & Hlen%reject_if_Ok & Hrun).
  apply (bind_keeps same_files) in Hrun as (m2 & w5 & _ & _ & Hrun); [|keeps_tac].
  apply bind_lift_Ok in Hrun as (_ & _ & Hrun). injection Hrun as -> _. apply N.ltb_ge in Hlen. split; [|done].
  rewrite -> (sf_contents _ _ Hw3), (sf_contents _ _ Hw2) in Ho.
  unfold file_at. rewrite <- (sf_entry _ _ Hw1), Hf. cbn. rewrite <- (sf_contents _ _ Hw1). f_equal. subst bs.
  rewrite -> (saturating_succ _ Hk) in *. symmetry. by apply take_limit.
Qed.

(** ** Writing a temporary file *)

(** Only the contents of one file change. *)
Record writes_only (i : N) (w w' : W) : Prop := {
  wo_entry d n : entry w' d n = entry w d n;
  wo_contents j : j ≠ i → contents w' j = contents w j;
}.

Global Instance writes_only_preorder i : PreOrder (writes_only i).
Proof.
  split; [by intros w|]. intros w1 w2 w3 [e1 c1] [e2 c2]. split; intros; by rewrite -> ?e2, ?e1, ?c2, ?c1.
Qed.

Lemma same_files_writes i w w' : same_files w w' → writes_only i w w'.
Proof. intros [He Hc]. by split. Qed.

Lemma idle_writes {E A} i (m : eff E W A) : idle m → keeps (writes_only i) m.
Proof. apply keeps_mono. apply same_files_writes. Qed.

Lemma write_all_writes f bs : keeps (writes_only (file_ino f)) (write_all f bs).
Proof. intros w. split; [apply write_entry|apply write_other]. Qed.

Lemma validate_file_idle f v : idle (validate_file f v).
Proof. unfold validate_file. idle_tac. Qed.

Lemma secret_writes i v : keeps (writes_only i) (secret_enter v) ∧ keeps (writes_only i) (secret_leave v).
Proof. split; apply idle_writes; intros w; [apply secret_enter_same|apply secret_leave_same]. Qed.

Lemma write_contents_writes f c : keeps (writes_only (file_ino f)) (write_contents f c).
Proof.
  pose proof (write_all_writes f). unfold write_contents, expose.
  destruct c as [m|bs]; [destruct (secret_writes (file_ino f) (pm_inner m))|]; keeps_tac.
Qed.

Lemma write_contents_Ok f c w w' :
  write_contents f c w = (Ok (), w') → contents w (file_ino f) = [] → contents w' (file_ino f) = prepared_contents c.
Proof.
  destruct c as [m|bs]; cbn; intros Hrun Hw; [|by apply map_errM_run in Hrun; eapply write_Ok].
  apply eff_bind_Ok in Hrun as (r & w1 & Hrun%map_errM_run & [Hr%map_err_Ok ->]%lift_Ok). subst r.
  unfold expose in Hrun.
  apply (bind_keeps same_files) in Hrun as ([] & w2 & _ & Hw2 & Hrun); [|keeps_tac].
  apply eff_bind_Ok in Hrun as (r & w3 & Hwr & Hrun).
  apply (bind_keeps same_files) in Hrun as ([] & w4 & _ & Hw4 & Hrun); [|keeps_tac]. injection Hrun as -> ->.
  unfold attempt in Hwr. destruct (write_all f _ w2) as [r w5] eqn:Hwa. injection Hwr as -> ->.
  rewrite -> (sf_contents _ _ Hw4). eapply write_Ok; [done|]. by rewrite -> (sf_contents _ _ Hw2).
Qed.

Lemma validate_and_write_writes f v c : keeps (writes_only (file_ino f)) (validate_and_write f v (write_contents f c)).
Proof.
  pose proof (write_contents_writes f c). pose proof (idle_writes (file_ino f) _ (validate_file_idle f v)).
  assert (keeps (writes_only (file_ino f)) (sync_all f)) as Hs by (apply idle_writes; intros w; apply sync_all_same).
  unfold validate_and_write. keeps_tac.
Qed.

Lemma validate_and_write_Ok f v c w s w' :
  validate_and_write f v (write_contents f c) w = (Ok s, w') → contents w (file_ino f) = [] →
  contents w' (file_ino f) = prepared_contents c.
Proof.
  unfold validate_and_write. intros Hrun Hw.
  apply (bind_keeps same_files) in Hrun as (m & w1 & _ & Hw1 & Hrun); [|apply validate_file_idle].
  apply eff_bind_Ok in Hrun as ([] & w2 & Hc%map_errM_run & Hrun).
  apply write_contents_Ok in Hc; [|by rewrite -> (sf_contents _ _ Hw1)].
  apply (bind_keeps same_files) in Hrun as (m' & w3 & _ & Hw3 & Hrun); [|apply validate_file_idle].
  apply (bind_keeps same_files) in Hrun as ([] & w4 & _ & Hw4 & Hrun); [|keeps_tac]. injection Hrun as _ <-.
  by rewrite -> (sf_contents _ _ Hw4), (sf_contents _ _ Hw3).
Qed.

(** One name may go. *)
Definition may_remove (i : N) n (w w' : W) : Prop :=
  same_files w w' ∨ entry_set w w' i n None ∧ ∀ j, contents w' j = contents w j.

Lemma remove_file_may d n : keeps (may_remove (dir_ino d) n) (remove_file d n).
Proof.
  intros w. destruct (remove_file d n w) as [[[]|e] w'] eqn:Hr; cbn.
  - right. by apply remove_Ok.
  - by eapply remove_Err.
Qed.

Lemma remove_owned_temporary_may d n f : keeps (may_remove (dir_ino d) n) (remove_owned_temporary d n f).
Proof.
  intros w. unfold remove_owned_temporary, attempt, mbind, eff_bind. cbn.
  pose proof (file_metadata_same f w) as Hm1. destruct (file_metadata f w) as [r1 w1]. cbn in *.
  pose proof (symlink_metadata_same d n w1) as Hm2. destruct (symlink_metadata d n w1) as [r2 w2]. cbn in *.
  assert (same_files w w2) as Hw2 by by etrans.
  destruct r1 as [held|], r2 as [named|]; cbn; try by left. case_match; [|by left].
  pose proof (remove_file_may d n w2) as Hr. destruct (remove_file d n w2) as [r3 w3]. cbn in *.
  destruct Hr as [Hr|[Hr Hc]]; [left; by etrans|right]. destruct Hw2 as [He Hco]. split.
  - intros i m. by rewrite -> Hr, He.
  - intros j. by rewrite -> Hc, Hco.
Qed.

(** A step that keeps a relation, and the rest of the run. *)
Lemma wp_keeps {E A B} (R : relation W) (m : eff E W A) (k : A → eff E W B) (Q : result E B → W → Prop) w :
  keeps R m → (∀ e w', R w w' → Q (Err e) w') →
  (∀ a w', m w = (Ok a, w') → R w w' → wp (k a) Q w') → wp (m ≫= k) Q w.
Proof.
  intros Hm He Hk. apply wp_bind. specialize (Hm w). unfold wp in *.
  destruct (m w) as [[a|e] w'] eqn:Hr; cbn in *; [by apply (Hk a w')|by apply He].
Qed.

Lemma temporary_name_idle : idle temporary_name.
Proof. unfold temporary_name. idle_tac. Qed.

Lemma temporary_name_Ok w t w' : temporary_name w = (Ok t, w') → temporary_like t.
Proof.
  unfold temporary_name. intros Hrun. apply eff_bind_Ok in Hrun as (r & w1 & _ & Hrun). injection Hrun as <- _. by eexists.
Qed.

(** The temporary file of a prepared one, and what it holds. *)
Record written d dest (bs : bytes) (w : W) (x : PreparedPrivateFile) : Prop := {
  wr_parent : pf_parent x = d;
  wr_destination : pf_destination x = dest;
  wr_temporary : temporary_like (pf_temporary x);
  wr_entry : entry w (dir_ino d) (pf_temporary x) = Some (file_ino (pf_file x));
  wr_contents : contents w (file_ino (pf_file x)) = bs;
}.

Lemma create_new_grows d n m w f w1 :
  ¬ tracked n → open_create_new d n m w = (Ok f, w1) → grows w w1 ∧ entry w (dir_ino d) n = None ∧
  entry w1 (dir_ino d) n = Some (file_ino f) ∧ contents w1 (file_ino f) = [].
Proof.
  intros Hn (He & Hf & Hs & Hc & Ho)%create_new_Ok. split_and!; [by eapply entry_set_grows|done| |done].
  rewrite -> Hs. by rewrite -> decide_True.
Qed.

(** Writing to what is new keeps what was there. *)
Lemma grows_writes w w1 w2 i : grows w w1 → writes_only i w1 w2 → (∀ d n, entry w d n ≠ Some i) → grows w w2.
Proof.
  intros [He Hc Ht Hn] [We Wc] Hi. split; intros *; rewrite -> ?We; eauto.
  intros Hj. rewrite -> Wc; [by eapply Hc|]. intros ->. by eapply Hi.
Qed.

Lemma grows_may_remove w w1 w2 i n : grows w w1 → entry w i n = None → may_remove i n w1 w2 → grows w w2.
Proof.
  intros Hg Hn [Hs|[Hs Hc]]; [etrans; [done|by apply same_files_grows]|by eapply grows_remove].
Qed.

Lemma wp_write_prepared d dest c exp rep v w :
  wp (write_prepared d dest c exp rep v) (λ r w', grows w w' ∧
    match r with
    | Ok x => written d dest (prepared_contents c) w' x ∧ entry w (dir_ino d) (pf_temporary x) = None
    | Err _ => True
    end) w.
Proof.
  unfold write_prepared. eapply (wp_keeps same_files).
  { pose proof (validate_private_directory_idle d FO_Prepare). unfold idle in *. keeps_tac. }
  { intros e w' Hw. split; [by apply same_files_grows|done]. }
  intros _ w1 _ Hw1. eapply (wp_keeps same_files); [apply temporary_name_idle| |].
  { intros e w' Hw. split; [|done]. apply same_files_grows. by etrans. }
  intros t w2 Ht%temporary_name_Ok Hw2. assert (same_files w w2) as Hww2 by by etrans. clear Hw1 Hw2.
  apply wp_bind. unfold map_errM, wp at 1.
  destruct (open_create_new _ _ _ w2) as [[f|e] w3] eqn:Hc; cbn; last first.
  { split; [|done]. apply same_files_grows. etrans; [done|by eapply create_new_Err]. }
  pose proof (create_new_Ok _ _ _ _ _ _ Hc) as (_ & [Hfresh _] & _).
  destruct (create_new_grows _ _ _ _ _ _ (dotted_untracked _ (temporary_dotted _ Ht)) Hc) as (Hg & Hnone & Hsome & Hempty).
  assert (grows w w3) as Hg3 by (etrans; [by apply same_files_grows|done]).
  rewrite -> (sf_entry _ _ Hww2) in Hnone.
  assert (∀ i n, entry w i n ≠ Some (file_ino f)) as Hf by (intros i n; rewrite <- (sf_entry _ _ Hww2); apply Hfresh).
  apply wp_bind. unfold attempt, wp at 1.
  pose proof (validate_and_write_writes f v c w3) as Hwr.
  destruct (validate_and_write f v _ w3) as [[s|e] w4] eqn:Hvw; cbn in *.
  - apply wp_ret. split; [by eapply grows_writes|]. split; [|done]. split; cbn; try done.
    + by rewrite -> (wo_entry _ _ _ Hwr).
    + by eapply validate_and_write_Ok.
  - apply wp_bind. pose proof (remove_owned_temporary_may d t f w4) as Hrm. unfold wp.
    assert (grows w (remove_owned_temporary d t f w4).2) as Hg5
      by (eapply grows_may_remove; [by eapply grows_writes|exact Hnone|exact Hrm]).
    destruct (remove_owned_temporary d t f w4) as [[[]|e'] w5]; cbn in *; by split.
Qed.

(** ** Publishing *)

(** Two names of a directory are settled: the temporary one may go, the
    destination leads where it did or where the temporary name led; nothing else
    changes. *)
Record settled (i : N) (tmp dest : bytes) (w w' : W) : Prop := {
  se_entry d n : (d, n) ≠ (i, tmp) → (d, n) ≠ (i, dest) → entry w' d n = entry w d n;
  se_contents j : contents w' j = contents w j;
  se_dest : entry w' i dest = entry w i dest ∨ entry w' i dest = entry w i tmp ∧ is_Some (entry w i tmp);
}.

Lemma renamed_settled i tmp dest w w' :
  renamed w w' i tmp dest → settled i tmp dest w w' ∧ entry w' i dest = entry w i tmp.
Proof.
  intros [He Hs Hc]. assert (entry w' i dest = entry w i tmp) as Hd by (rewrite -> He; by rewrite -> decide_True).
  split; [|done]. split; [|done|by right]. intros d n Ht Hn. rewrite -> He. by rewrite -> !decide_False.
Qed.

Lemma settled_same i tmp dest w w' : same_files w w' → settled i tmp dest w w'.
Proof. intros [He Hc]. split; [done|done|by left]. Qed.

Lemma settled_after i tmp dest w w1 w' : same_files w w1 → settled i tmp dest w1 w' → settled i tmp dest w w'.
Proof. intros [He Hc] [Se Sc Sd]. split; intros; rewrite <- ?He, <- ?Hc; auto. Qed.

Lemma settled_then i tmp dest w w1 w' : settled i tmp dest w w1 → same_files w1 w' → settled i tmp dest w w'.
Proof. intros [Se Sc Sd] [He Hc]. split; intros; rewrite -> ?He, ?Hc; auto. Qed.

Lemma settled_removed i tmp dest w w1 w' :
  tmp ≠ dest → settled i tmp dest w w1 → may_remove i tmp w1 w' → settled i tmp dest w w'.
Proof.
  intros Hne Hs [Hr|[Hr Hc]]; [by eapply settled_then|]. destruct Hs as [Se Sc Sd]. split.
  - intros d n Ht Hn. rewrite -> Hr, decide_False by done. by apply Se.
  - intros j. by rewrite -> Hc.
  - rewrite -> Hr, decide_False by congruence. done.
Qed.

Lemma validate_expected_idle d n s : idle (validate_expected d n s).
Proof. unfold validate_expected. pose proof (destination_state_idle d n FO_Publish). idle_tac. Qed.

Lemma validate_temporary_idle d n s : idle (validate_temporary d n s).
Proof. unfold validate_temporary. idle_tac. Qed.

Lemma wp_rename_noreplace d a b w :
  wp (rename_noreplace d a b) (λ r w', match r with
    | Ok _ => renamed w w' (dir_ino d) a b ∧ entry w (dir_ino d) b = None
    | Err _ => same_files w w' ∨ renamed w w' (dir_ino d) a b ∧ entry w (dir_ino d) b = None end) w.
Proof.
  unfold wp, rename_noreplace, map_errM. destruct (renameat_noreplace d a b w) as [[[]|e] w'] eqn:Hr; cbn.
  - by apply noreplace_Ok.
  - by eapply noreplace_Err.
Qed.

Lemma wp_publish_named x w :
  wp (publish_named x) (λ r w', settled (dir_ino (pf_parent x)) (pf_temporary x) (pf_destination x) w w' ∧
    (r = Ok () → entry w' (dir_ino (pf_parent x)) (pf_destination x) = entry w (dir_ino (pf_parent x)) (pf_temporary x))) w.
Proof.
  unfold publish_named, validate_acl.
  eapply (wp_keeps same_files); [keeps_tac|intros e w' Hw; split; [by apply settled_same|done]|]. intros _ w0 _ Hw0.
  eapply (wp_keeps same_files); [keeps_tac|intros e w' Hw; split; [|done]|].
  { apply settled_same. by etrans. }
  intros _ w1 _ Hw1. assert (same_files w w1) as Hw01 by by etrans. clear Hw0 Hw1.
  eapply (wp_keeps same_files); [apply validate_expected_idle|intros e w' Hw; split; [|done]|].
  { apply settled_same. by etrans. }
  intros _ w2 _ Hw2. assert (same_files w w2) as Hw02 by by etrans. clear Hw01 Hw2.
  eapply (wp_keeps same_files); [apply validate_temporary_idle|intros e w' Hw; split; [|done]|].
  { apply settled_same. by etrans. }
  intros _ w3 _ Hw3. assert (same_files w w3) as Hw03 by by etrans. clear Hw02 Hw3.
  assert (∀ w', renamed w3 w' (dir_ino (pf_parent x)) (pf_temporary x) (pf_destination x) →
    settled (dir_ino (pf_parent x)) (pf_temporary x) (pf_destination x) w w' ∧
    entry w' (dir_ino (pf_parent x)) (pf_destination x) = entry w (dir_ino (pf_parent x)) (pf_temporary x)) as Hren.
  { intros w' [Hs He]%renamed_settled. split; [by eapply settled_after|]. by rewrite -> He, (sf_entry _ _ Hw03). }
  assert (∀ w', same_files w3 w' → settled (dir_ino (pf_parent x)) (pf_temporary x) (pf_destination x) w w') as Hsame.
  { intros w' Hw. apply settled_same. by etrans. }
  destruct (pf_replace x).
  - unfold wp, map_errM. destruct (rename _ _ _ w3) as [[[]|e] w'] eqn:Hr; cbn.
    + apply rename_Ok in Hr as [[Hs He]%Hren|[Hw He]]; [by split|]. split; [by apply Hsame|]. intros _.
      by rewrite -> (sf_entry _ _ Hw), He, (sf_entry _ _ Hw03).
    + apply rename_Err in Hr as [Hr|Hr]; [split; [by apply Hsame|done]|]. apply Hren in Hr as [Hs _]. by split.
  - eapply wp_mono; [apply wp_rename_noreplace|]. cbn beta. intros [[]|e] w'.
    + intros [[Hs He]%Hren _]. by split.
    + intros [Hr|[[Hs _]%Hren _]]; split; try done. by apply Hsame.
Qed.

(** A publication leaves the destination as it was or makes it what the temporary
    name led to, and reports success only after the latter. *)
Lemma wp_publish x w :
  pf_temporary x ≠ pf_destination x →
  wp (publish x) (λ r w', settled (dir_ino (pf_parent x)) (pf_temporary x) (pf_destination x) w w' ∧
    (is_ok r → entry w' (dir_ino (pf_parent x)) (pf_destination x) = entry w (dir_ino (pf_parent x)) (pf_temporary x))) w.
Proof.
  intros Hne. unfold publish. apply wp_bind. unfold attempt at 1, wp at 1.
  pose proof (wp_publish_named x w) as [Hs He]. destruct (publish_named x w) as [[[]|e] w1]; cbn in *.
  - apply wp_bind. unfold attempt, wp at 1. pose proof (sync_directory_same (pf_parent x) w1) as Hw.
    destruct (sync_directory (pf_parent x) w1) as [r w2]; cbn in *. apply wp_ret.
    split; [by eapply settled_then|]. intros _. rewrite -> (sf_entry _ _ Hw). by apply He.
  - apply wp_bind. unfold drop_prepared, wp. pose proof (remove_owned_temporary_may (pf_parent x) (pf_temporary x) (pf_file x) w1) as Hr.
    assert (settled (dir_ino (pf_parent x)) (pf_temporary x) (pf_destination x) w
      (remove_owned_temporary (pf_parent x) (pf_temporary x) (pf_file x) w1).2) as Hs2 by by eapply settled_removed.
    destruct (remove_owned_temporary _ _ _ w1) as [[[]|e'] w2]; cbn in *; by split.
Qed.

(** ** Previews and preparations *)

Lemma preview_idle d n v : idle (preview_with_visibility d n v).
Proof.
  unfold preview_with_visibility. apply keeps_bind; [apply _|keeps_tac|intros dest].
  apply keeps_bind; [apply _|apply destination_state_idle|intros s]. idle_tac.
Qed.

Lemma preview_Ok d n v w p w' :
  slash ∉ n → preview_with_visibility d n v w = (Ok p, w') →
  dir_ino (pp_parent p) = dir_ino d ∧ pp_destination p = n ∧ pp_visibility p = v.
Proof.
  intros Hn Hrun. unfold preview_with_visibility in Hrun.
  apply bind_lift_Ok in Hrun as (dest & ->%(single_component_plain _ _ _ Hn) & Hrun).
  apply eff_bind_Ok in Hrun as (s & w1 & _ & Hrun). apply bind_lift_Ok in Hrun as ([] & _ & Hrun).
  apply eff_bind_Ok in Hrun as (d' & w2 & Hc%map_errM_run%try_clone_Ok & Hrun). by injection Hrun as <- _.
Qed.

Lemma wp_prepare_if_unchanged p m allow w :
  wp (prepare_if_unchanged p m allow) (λ r w', grows w w' ∧
    match r with
    | Ok x => written (pp_parent p) (pp_destination p) (pm_bytes m) w' x ∧
        entry w (dir_ino (pp_parent p)) (pf_temporary x) = None
    | Err _ => True
    end) w.
Proof.
  unfold prepare_if_unchanged. eapply (wp_keeps same_files); [keeps_tac| |].
  { intros e w' Hw. split; [by apply same_files_grows|done]. }
  intros _ w1 _ Hw1. eapply (wp_keeps same_files); [apply validate_expected_idle| |].
  { intros e w' Hw. split; [|done]. apply same_files_grows. by etrans. }
  intros _ w2 _ Hw2. assert (same_files w w2) as Hw by by etrans.
  eapply wp_mono; [apply wp_write_prepared|]. cbn beta. intros r w' [Hg Hr]. split.
  { etrans; [by apply same_files_grows|done]. }
  destruct r as [x|]; [|done]. destruct Hr as [Hx Hn]. split; [done|]. by rewrite <- (sf_entry _ _ Hw).
Qed.

(** ** Directories *)

Lemma validate_root_idle root : idle (validate_root root).
Proof.
  unfold validate_root. apply keeps_bind; [apply _|apply validate_private_directory_idle|intros _]. idle_tac.
Qed.

Lemma hardened_child_idle root n d : idle (hardened_child root n d).
Proof.
  unfold hardened_child. apply keeps_bind; [apply _|keeps_tac|intros m].
  apply keeps_bind; [apply _|apply validate_root_idle|intros _]. idle_tac.
Qed.

Lemma hardened_child_Ok root n d w c w' : hardened_child root n d w = (Ok c, w') → hd_dir c = d.
Proof.
  unfold hardened_child. intros Hrun. apply eff_bind_Ok in Hrun as (m & w1 & _ & Hrun).
  apply eff_bind_Ok in Hrun as ([] & w2 & _ & Hrun). by injection Hrun as <- _.
Qed.

Lemma nofollow_directory_child_idle d n op : idle (nofollow_directory_child d n op).
Proof. unfold nofollow_directory_child. idle_tac. Qed.

Lemma nofollow_directory_child_Ok d n op w c w' :
  nofollow_directory_child d n op w = (Ok c, w') → entry w (dir_ino d) n = Some (dir_ino c).
Proof.
  unfold nofollow_directory_child. intros Hrun. apply bind_lift_Ok in Hrun as (v & _ & Hrun).
  apply map_errM_run in Hrun. by eapply open_dir_Ok.
Qed.

Lemma open_private_child_idle root n : idle (open_private_child root n).
Proof.
  unfold open_private_child. apply keeps_bind; [apply _|keeps_tac|intros v].
  apply keeps_bind; [apply _|apply nofollow_directory_child_idle|intros d]. apply hardened_child_idle.
Qed.

Lemma open_private_child_Ok root n w c w' :
  slash ∉ n → open_private_child root n w = (Ok c, w') →
  entry w (dir_ino (hd_dir root)) n = Some (dir_ino (hd_dir c)).
Proof.
  intros Hn Hrun. unfold open_private_child in Hrun.
  apply bind_lift_Ok in Hrun as (v & ->%(single_component_plain _ _ _ Hn) & Hrun).
  apply eff_bind_Ok in Hrun as (d & w1 & Hd%nofollow_directory_child_Ok & Hrun).
  by rewrite -> (hardened_child_Ok _ _ _ _ _ _ Hrun).
Qed.

Lemma create_dir_grows d n m : ¬ tracked n → keeps grows (create_dir_with d n m).
Proof.
  intros Hn w. destruct (create_dir_with d n m w) as [[[]|e] w'] eqn:Hc; cbn.
  - apply create_dir_Ok in Hc as (He & Hc & i & Hf & Hs). eapply entry_set_grows; [done..|]. auto.
  - apply same_files_grows. by eapply create_dir_Err.
Qed.

Lemma open_or_create_grows root n :
  slash ∉ n → ¬ tracked n → keeps grows (open_or_create_private_child root n).
Proof.
  intros Hn Ht. unfold open_or_create_private_child.
  intros w. unfold mbind at 1, eff_bind, lift.
  destruct (single_component n FO_OpenStateRoot) as [v|] eqn:Hv; [|done].
  apply (single_component_plain _ _ _ Hn) in Hv as ->.
  pose proof (create_dir_grows (hd_dir root) n 448 Ht).
  revert w. change (keeps grows (r ← attempt (create_dir_with (hd_dir root) n 448);
    match r with Ok _ | Err E_EXIST => mret () | Err _ => lift (Err (FilesystemError_new FO_OpenStateRoot FS_Io)) end ;;
    dir ← nofollow_directory_child (hd_dir root) n FO_OpenStateRoot; hardened_child root n dir)).
  apply keeps_bind; [apply _|keeps_tac|intros r]. apply keeps_bind; [apply _|keeps_tac|intros _].
  apply keeps_bind; [apply _|apply idle_grows, nofollow_directory_child_idle|intros d].
  apply idle_grows, hardened_child_idle.
Qed.

Lemma open_or_create_Ok root n w c w' :
  slash ∉ n → open_or_create_private_child root n w = (Ok c, w') →
  entry w' (dir_ino (hd_dir root)) n = Some (dir_ino (hd_dir c)).
Proof.
  intros Hn Hrun. unfold open_or_create_private_child in Hrun.
  apply bind_lift_Ok in Hrun as (v & ->%(single_component_plain _ _ _ Hn) & Hrun).
  apply eff_bind_Ok in Hrun as (r & w1 & _ & Hrun). apply eff_bind_Ok in Hrun as (u & w2 & _ & Hrun).
  apply (bind_keeps same_files) in Hrun as (d & w3 & Hd & Hw3 & Hrun); [|apply nofollow_directory_child_idle].
  pose proof (keeps_run _ _ _ _ _ (hardened_child_idle _ _ _) Hrun) as Hw.
  rewrite -> (hardened_child_Ok _ _ _ _ _ _ Hrun), (sf_entry _ _ Hw), (sf_entry _ _ Hw3).
  by eapply nofollow_directory_child_Ok.
Qed.
End operations.

(** ** Locks and markers *)

Section operations.
Context {W : Type} `{DirectoryLaws W}.
Implicit Types (root : HardenedDir) (n : bytes).

Ltac idle_tac := unfold idle; keeps_tac.

(** ** The lock *)

Lemma drop_lock_may l : keeps (may_remove (dir_ino (lk_parent l)) (lk_name l)) (drop_lock l).
Proof.
  intros w. unfold drop_lock, attempt, mbind, eff_bind. cbn.
  pose proof (file_metadata_same (lk_file l) w) as Hm1. destruct (file_metadata _ w) as [[m|] w1]; cbn in *; [|by left].
  pose proof (symlink_metadata_same (lk_parent l) (lk_name l) w1) as Hm2.
  destruct (symlink_metadata _ _ w1) as [[m'|] w2]; cbn in *; [|left; by etrans].
  assert (same_files w w2) as Hw2 by by etrans. case_match; [|by left].
  pose proof (remove_file_may (lk_parent l) (lk_name l) w2) as Hr.
  destruct (remove_file _ _ w2) as [r3 w3]. cbn in *.
  destruct Hr as [Hr|[Hr Hc]]; [left; by etrans|right]. destruct Hw2 as [He Hco]. split.
  - intros i n. by rewrite -> Hr, He.
  - intros j. by rewrite -> Hc, Hco.
Qed.

Lemma validate_lock_idle l : idle (validate_lock l).
Proof. unfold validate_lock. idle_tac. Qed.

(** Taking the lock makes its name, which was free. *)
Lemma wp_try_acquire root n w :
  slash ∉ n → ¬ tracked n →
  wp (try_acquire root n) (λ r w', grows w w' ∧
    match r with
    | Ok l => lk_name l = n ∧ dir_ino (lk_parent l) = dir_ino (hd_dir root) ∧
        entry w (dir_ino (hd_dir root)) n = None ∧ is_Some (entry w' (dir_ino (hd_dir root)) n)
    | Err _ => True
    end) w.
Proof.
  intros Hn Ht. unfold try_acquire.
  apply wp_bind_lift; [|intros; by split]. intros v ->%map_err_Ok%(single_component_plain _ _ _ Hn).
  eapply (wp_keeps same_files); [apply keeps_map_errM, validate_private_directory_idle| |].
  { intros e w' Hw. split; [by apply same_files_grows|done]. }
  intros _ w1 _ Hw1. eapply (wp_keeps same_files); [keeps_tac| |].
  { intros e w' Hw. split; [|done]. apply same_files_grows. by etrans. }
  intros d w2 Hd%map_errM_run%try_clone_Ok Hw2. assert (same_files w w2) as Hw by by etrans. clear Hw1 Hw2.
  apply wp_bind. unfold map_errM, wp at 1. destruct (open_create_new d n 384 w2) as [[f|e] w3] eqn:Hc; cbn; last first.
  { split; [|done]. apply same_files_grows. etrans; [done|by eapply create_new_Err]. }
  destruct (create_new_grows _ _ _ _ _ _ Ht Hc) as (Hg & Hnone & Hsome & _).
  rewrite -> Hd in Hnone, Hsome. rewrite -> (sf_entry _ _ Hw) in Hnone.
  assert (grows w w3) as Hg3 by (etrans; [by apply same_files_grows|done]).
  apply wp_bind. unfold attempt, wp at 1. set (l := {| lk_parent := d; lk_name := n; lk_file := f |}).
  pose proof (validate_lock_idle l w3) as Hv. destruct (validate_lock l w3) as [[[]|e] w4]; cbn in *.
  - apply wp_ret. split; [etrans; [done|by apply same_files_grows]|]. split_and!; [done|done|done|].
    by rewrite -> (sf_entry _ _ Hv), Hsome.
  - apply wp_bind. pose proof (drop_lock_may l w4) as Hr. unfold wp. cbn in Hr. rewrite -> Hd in Hr.
    assert (grows w (drop_lock l w4).2) as Hg5.
    { eapply grows_may_remove; [|exact Hnone|exact Hr]. etrans; [done|by apply same_files_grows]. }
    destruct (drop_lock l w4) as [[[]|e'] w5]; cbn in *; by split.
Qed.

(** A lock that is there is not taken, and nothing is changed. *)
Lemma wp_try_acquire_taken root n i w :
  slash ∉ n → entry w (dir_ino (hd_dir root)) n = Some i →
  wp (try_acquire root n) (λ r w', same_files w w' ∧ ¬ is_ok r) w.
Proof.
  intros Hn Hi. assert (∀ (e : LockError) w', same_files w w' → same_files w w' ∧ ¬ is_ok (Err e : result LockError ExclusiveStateLock)) as He.
  { intros e w' Hw. split; [done|by intros []]. }
  unfold try_acquire. apply wp_bind_lift; [|intros; by apply He]. intros v ->%map_err_Ok%(single_component_plain _ _ _ Hn).
  eapply (wp_keeps same_files); [apply keeps_map_errM, validate_private_directory_idle|apply He|].
  intros _ w1 _ Hw1. eapply (wp_keeps same_files); [keeps_tac|intros; apply He; by etrans|].
  intros d w2 Hd%map_errM_run%try_clone_Ok Hw2. assert (same_files w w2) as Hw by by etrans.
  apply wp_bind. unfold map_errM, wp at 1. destruct (open_create_new d n 384 w2) as [[f|e] w3] eqn:Hc; cbn.
  - apply create_new_Ok in Hc as (Hnone & _). rewrite -> Hd, (sf_entry _ _ Hw), Hi in Hnone. done.
  - split; [|by intros []]. etrans; [done|by eapply create_new_Err].
Qed.

(** ** Cleaning up *)

Lemma private_child_exists_idle root n : idle (private_child_exists root n).
Proof. unfold private_child_exists. idle_tac. Qed.

Lemma private_child_exists_false root n w w' :
  slash ∉ n → private_child_exists root n w = (Ok false, w') → entry w (dir_ino (hd_dir root)) n = None.
Proof.
  intros Hn Hrun. unfold private_child_exists in Hrun.
  apply bind_lift_Ok in Hrun as (v & ->%(single_component_plain _ _ _ Hn) & Hrun).
  apply eff_bind_Ok in Hrun as (r & w1 & Hr & Hrun). unfold attempt in Hr.
  destruct (symlink_metadata _ n w) as [r' w2] eqn:Hs. injection Hr as -> ->.
  destruct r as [m|[]]; try done. by eapply symlink_metadata_noent.
Qed.

(** Every file but those with these contents stays under its name. *)
Record spares (expected : bytes) (w w' : W) : Prop := {
  sp_entry d n i : entry w d n = Some i → contents w i ≠ expected → entry w' d n = Some i;
  sp_contents j : contents w' j = contents w j;
}.

Global Instance spares_preorder e : PreOrder (spares e).
Proof.
  split; [by intros w|]. intros w1 w2 w3 [e1 c1] [e2 c2]. split; intros; [|by rewrite -> c2, c1].
  apply e2; [by apply e1|by rewrite -> c1].
Qed.

Lemma same_files_spares e w w' : same_files w w' → spares e w w'.
Proof. intros [He Hc]. split; intros; by rewrite -> ?He, ?Hc. Qed.

Lemma removed_spares e w w' i n :
  file_at w i n = Some e → entry_set w w' i n None → (∀ j, contents w' j = contents w j) → spares e w w'.
Proof.
  intros Hf Hs Hc. split; [|done]. intros d m j Hj Hne. rewrite -> Hs. case_decide as Heq; [|done].
  injection Heq as -> ->. unfold file_at in Hf. rewrite -> Hj in Hf. cbn in Hf. congruence.
Qed.

Lemma renamed_spares e w w' i a b :
  file_at w i a = Some e → entry w i b = None → renamed w w' i a b → spares e w w'.
Proof.
  intros Hf Hb [He _ Hc]. split; [|done]. intros d m j Hj Hne. rewrite -> He.
  case_decide as Heq; [injection Heq as -> ->; congruence|]. case_decide as Heq'; [|done].
  injection Heq' as -> ->. unfold file_at in Hf. rewrite -> Hj in Hf. cbn in Hf. congruence.
Qed.

(** What cleaning up does, when it says that it removed the file. *)
Definition cleaned (i : N) (a b e : bytes) (w : W) (r : result FilesystemError PrivateFileCleanupOutcome) (w' : W) : Prop :=
  spares e w w' ∧
  match r with
  | Ok RemovedAndSynced | Ok RemovedButParentUnsynced =>
      entry w' i a = None ∧ entry w' i b = None ∧ (file_at w i a = Some e ∨ file_at w i b = Some e)
  | _ => True
  end.

Lemma wp_remove_cleanup_file root a b e w :
  a ≠ b → entry w (dir_ino (hd_dir root)) a = None → file_at w (dir_ino (hd_dir root)) b = Some e →
  wp (remove_cleanup_file root b) (cleaned (dir_ino (hd_dir root)) a b e w) w.
Proof.
  intros Hne Ha Hb. unfold remove_cleanup_file. apply wp_bind. unfold attempt at 1, wp at 1.
  destruct (remove_file (hd_dir root) b w) as [[[]|err] w1] eqn:Hr; cbn.
  - apply remove_Ok in Hr as [Hs Hc]. apply wp_bind. unfold attempt, wp at 1.
    pose proof (sync_directory_same (hd_dir root) w1) as Hw. destruct (sync_directory _ w1) as [r w2]; cbn in *.
    assert (cleaned (dir_ino (hd_dir root)) a b e w (Ok RemovedAndSynced) w2) as Hcl.
    { split; [etrans; [by eapply removed_spares|by apply same_files_spares]|]. rewrite -> !(sf_entry _ _ Hw), !Hs.
      rewrite -> decide_False, decide_True by congruence. split_and!; [done|done|by right]. }
    apply wp_ret. by destruct r.
  - apply wp_ret. split; [|done]. apply remove_Err in Hr as [Hr|[Hs Hc]]; [by apply same_files_spares|by eapply removed_spares].
Qed.

Lemma cleaned_after i a b e w w1 r w' : same_files w w1 → cleaned i a b e w1 r w' → cleaned i a b e w r w'.
Proof.
  intros Hw [Hs Hr]. split; [etrans; [by apply same_files_spares|done]|].
  destruct r as [[]|]; try done; by rewrite <- !(same_files_at _ _ _ _ Hw).
Qed.

Lemma cleaned_retained i a b e w r w' :
  spares e w w' → match r with Ok Retained | Err _ => True | _ => False end → cleaned i a b e w r w'.
Proof. intros Hs Hr. split; [done|]. by destruct r as [[]|]. Qed.

(** A read that is looked at, and what it read. *)
Lemma wp_attempt_read {B} d n k (f : result FilesystemError bytes → eff FilesystemError W B) Q w :
  slash ∉ n → (k < 2 ^ 64 - 1)%N →
  (∀ r w', same_files w w' → (∀ bs, r = Ok bs → file_at w (dir_ino d) n = Some bs) → wp (f r) Q w') →
  wp (attempt (read_from_dir d n k) ≫= f) Q w.
Proof.
  intros Hn Hk Hf. apply wp_bind. unfold attempt, wp at 1.
  pose proof (read_with_permissions_idle d n k PR_OwnerOnly w) as Hw.
  destruct (read_from_dir d n k w) as [r w'] eqn:Hr. unfold read_from_dir in Hr. rewrite -> Hr in Hw. cbn in *.
  apply Hf; [done|]. intros bs ->. by eapply read_with_permissions_Ok.
Qed.

Lemma wp_quarantine_and_remove root a b e k w :
  slash ∉ a → slash ∉ b → a ≠ b → (k < 2 ^ 64 - 1)%N →
  wp (quarantine_and_remove root a b e k) (cleaned (dir_ino (hd_dir root)) a b e w) w.
Proof.
  intros Ha Hb Hne Hk. unfold quarantine_and_remove. apply wp_attempt_read; [done|done|].
  intros r w1 Hw1 Hr. destruct r as [bs|]; [|apply wp_ret, cleaned_retained; [by apply same_files_spares|done]].
  specialize (Hr bs eq_refl). case_bool_decide as He; cbn [negb]; last first.
  { apply wp_ret, cleaned_retained; [by apply same_files_spares|done]. }
  subst bs. rewrite <- (same_files_at _ _ _ _ Hw1) in Hr. eapply wp_mono; last first.
  { intros r w'. by apply cleaned_after. }
  clear w Hw1. apply wp_bind. unfold attempt at 1, wp at 1.
  pose proof (wp_rename_noreplace (hd_dir root) a b w1) as Hren. unfold wp in Hren.
  destruct (rename_noreplace (hd_dir root) a b w1) as [[[]|err] w2]; cbn beta match fix delta [fst snd] in *; last first.
  { apply wp_ret, cleaned_retained; [|done]. destruct Hren as [Hs|[Hs Hbn]];
      [by apply same_files_spares|by eapply renamed_spares]. }
  destruct Hren as [Hrn Hbn]. assert (spares e w1 w2) as Hsp by by eapply renamed_spares.
  assert (entry w2 (dir_ino (hd_dir root)) a = None ∧ file_at w2 (dir_ino (hd_dir root)) b = Some e) as [Ha2 Hb2].
  { destruct Hrn as [He _ Hc]. unfold file_at. rewrite -> !He, decide_False, !decide_True by congruence. split; [done|].
    rewrite <- Hr. unfold file_at. destruct (entry w1 _ a); cbn; by rewrite -> ?Hc. }
  apply wp_attempt_read; [done|done|]. intros r w3 Hw3 Hr3.
  destruct r as [bs|]; [|apply wp_ret, cleaned_retained; [etrans; [done|by apply same_files_spares]|done]].
  specialize (Hr3 bs eq_refl). assert (bs = e) as -> by congruence.
  rewrite -> bool_decide_true by done. cbn [negb].
  rewrite <- (same_files_at _ _ _ _ Hw3) in Hb2. rewrite <- (sf_entry _ _ Hw3) in Ha2.
  eapply wp_mono; [by eapply wp_remove_cleanup_file|]. cbn beta. intros r w4 [Hs4 Hcl]. split.
  { etrans; [exact Hsp|]. etrans; [by apply same_files_spares|done]. }
  destruct r as [[]|]; try done; destruct Hcl as (? & ? & _); split_and!; try done; by left.
Qed.

Lemma checked_succ_bound (n k : N) : checked_add_u64 n 1 = Some k → (n < 2 ^ 63)%N → (k < 2 ^ 64 - 1)%N.
Proof. unfold checked_add_u64, u64_max. case_match; intros [= <-]; lia. Qed.

Lemma wp_cleanup root a b e w :
  slash ∉ a → slash ∉ b → (len e < 2 ^ 63)%N →
  wp (cleanup_private_file_if_exact root a b e) (cleaned (dir_ino (hd_dir root)) a b e w) w.
Proof.
  intros Ha Hb He. unfold cleanup_private_file_if_exact.
  assert (∀ err, cleaned (dir_ino (hd_dir root)) a b e w (Err err) w) as Herr.
  { intros err. apply cleaned_retained; [by apply same_files_spares|done]. }
  apply wp_bind_lift; [|intros; apply Herr]. intros v ->%(single_component_plain _ _ _ Ha).
  apply wp_bind_lift; [|intros; apply Herr]. intros v ->%(single_component_plain _ _ _ Hb).
  apply wp_bind_lift; [|intros; apply Herr]. intros [] Hne%reject_if_Ok%bool_decide_eq_false.
  apply wp_bind_lift; [|intros; apply Herr]. intros k Hk%ok_or_Ok.
  pose proof (checked_succ_bound _ _ Hk He) as Hkb.
  apply wp_attempt_read; [done|done|]. intros r w1 Hw1 Hr. destruct r as [bs|err].
  - specialize (Hr bs eq_refl). case_bool_decide as Hbs; cbn [negb]; last first.
    { apply wp_ret, cleaned_retained; [by apply same_files_spares|done]. }
    subst bs. eapply (wp_keeps same_files); [apply private_child_exists_idle| |].
    { intros err w' Hw. apply cleaned_retained; [|done]. apply same_files_spares. by etrans. }
    intros ex w2 Hex Hw2. assert (same_files w w2) as Hw by by etrans. destruct ex.
    { apply wp_ret, cleaned_retained; [by apply same_files_spares|done]. }
    apply private_child_exists_false in Hex; [|done]. rewrite <- (sf_entry _ _ Hw2) in Hex.
    rewrite <- (same_files_at _ _ _ _ Hw) in Hr.
    eapply wp_mono; [by eapply wp_remove_cleanup_file|]. intros r w'. by apply cleaned_after.
  - case_match; [|apply wp_ret, cleaned_retained; [by apply same_files_spares|done]].
    eapply wp_mono; [by apply wp_quarantine_and_remove|]. intros r w'. by apply cleaned_after.
Qed.

(** C25: cleaning up a marker never loses anything else: every file with other
    contents stays under its name, no contents change, and when the marker is
    reported removed, it was there with exactly these bytes and both of its names
    are free. *)
Theorem cleanup_exact root name quarantine expected w r w' :
  slash ∉ name → slash ∉ quarantine → (len expected < 2 ^ 63)%N →
  cleanup_private_file_if_exact root name quarantine expected w = (r, w') →
  (∀ d n i, entry w d n = Some i → contents w i ≠ expected → entry w' d n = Some i ∧ contents w' i = contents w i) ∧
  match r with
  | Ok RemovedAndSynced | Ok RemovedButParentUnsynced =>
      let d := dir_ino (hd_dir root) in
      entry w' d name = None ∧ entry w' d quarantine = None ∧
      (file_at w d name = Some expected ∨ file_at w d quarantine = Some expected)
  | _ => True
  end.
Proof.
  intros Hn Hq He Hrun. pose proof (wp_run _ _ _ _ _ (wp_cleanup root name quarantine expected w Hn Hq He) Hrun) as [[Hs Hc] Hr].
  split; [|done]. intros d n i Hi Hne. split; [by apply Hs|apply Hc].
Qed.

(** The lock excludes: while its file is there, whatever else happens, no second
    attempt to take the lock succeeds. *)
Theorem lock_exclusive root name w l w1 w2 l2 w3 :
  slash ∉ name → ¬ tracked name → try_acquire root name w = (Ok l, w1) → grows w1 w2 →
  try_acquire root name w2 ≠ (Ok l2, w3).
Proof.
  intros Hn Ht Hl1 Hg Hl2.
  destruct (wp_run _ _ _ _ _ (wp_try_acquire root name w Hn Ht) Hl1) as (_ & _ & _ & _ & i & Hi).
  destruct (wp_run _ _ _ _ _ (wp_try_acquire root name w2 Hn Ht) Hl2) as (_ & _ & _ & Hnone & _).
  rewrite -> (gr_entry _ _ Hg _ _ _ Hi) in Hnone. done.
Qed.
End operations.
