(* ===== verification/Repository.v ===== *)
(** * The Git worktree

    [crates/jury-filesystem/src/repository.rs], on Linux: finding the worktree a path
    lies in, the directory of the vault in it, and the digest of the state of Git
    that a commit of the vault depends on. Git's files are read, Git is never run. *)

From S2P Require Import Prelude VaultTypes Canonical Text Effects ProtectedMemory Directory PrivateFiles.
Local Open Scope jury_scope.

Definition MAX_GITDIR_MARKER_BYTES : N := 4096.
Definition MAX_GIT_CONTROL_BYTES : N := 64 * 1024 * 1024.
Definition MAX_GIT_INDEX_BYTES : N := 256 * 1024 * 1024.
Definition MAX_GIT_SYMBOLIC_REFERENCE_DEPTH : nat := 4.
Definition VAULT_ATTRIBUTES : bytes := str "vault.json -diff -merge" ++ [Byte.x0a].

(** ** Text of Git's control files *)

Definition line_feed : byte := Byte.x0a.
Definition carriage_return : byte := Byte.x0d.

Definition str_starts_with (prefix text : bytes) : bool := take (length prefix) text ==? prefix.

Definition str_strip_prefix (prefix text : bytes) : option bytes :=
  if str_starts_with prefix text then Some (drop (length prefix) text) else None.

Definition str_ends_with (suffix text : bytes) : bool := str_starts_with (rev suffix) (rev text).

Fixpoint str_contains (pattern text : bytes) : bool :=
  str_starts_with pattern text ||
  match text with [] => false | _ :: rest => str_contains pattern rest end.

Definition is_ascii_hexdigit (b : byte) : bool := is_ascii_digit b || in_range 65 70 b || in_range 97 102 b.

Definition git_control_line (bs : bytes) (operation : FilesystemOperation) : result FilesystemError bytes :=
  reject_if (negb (from_utf8 bs)) (FilesystemError_new operation FS_InvalidMarker) ;;
  let value := if last bs ==? Some line_feed then removelast bs else bs in
  reject_if ((value ==? []) || existsb (λ b, (b ==? nul) || (b ==? line_feed) || (b ==? carriage_return)) value)
    (FilesystemError_new operation FS_InvalidMarker) ;;
  Ok value.

Definition forbidden_reference_byte (b : byte) : bool :=
  (Byte.to_N b <=? 32)%N || (b ==? Byte.x7f) || existsb (λ c, b ==? c) (str "~^:?*[\").

Definition valid_reference_component (component : bytes) : bool :=
  negb (component ==? []) && negb (str_starts_with [dot] component) && negb (str_ends_with (str ".lock") component).

Definition is_valid_git_reference_name (reference : bytes) : bool :=
  str_starts_with (str "refs/") reference &&
  negb (str_ends_with [slash] reference || str_ends_with [dot] reference) &&
  negb (existsb (λ forbidden, str_contains forbidden reference) [str "//"; str ".."; str "@{"]) &&
  negb (existsb forbidden_reference_byte reference) &&
  forallb valid_reference_component (split_slash reference).

Definition is_normal (component : Component) : bool :=
  match component with C_Normal _ => true | _ => false end.

Definition parse_git_reference (bs : bytes) (operation : FilesystemOperation)
    : result FilesystemError (option bytes) :=
  value ← git_control_line bs operation;
  if ((len value =? 40)%N || (len value =? 64)%N) && forallb is_ascii_hexdigit value then Ok None
  else
    reference ← ok_or (str_strip_prefix (str "ref: ") value) (FilesystemError_new operation FS_InvalidMarker);
    reject_if (negb (is_valid_git_reference_name reference)) (FilesystemError_new operation FS_InvalidMarker) ;;
    match components reference with
    | C_Normal name :: rest =>
        reject_if (name !=? str "refs") (FilesystemError_new operation FS_InvalidMarker) ;;
        reject_if (negb (forallb is_normal rest)) (FilesystemError_new operation FS_InvalidMarker) ;;
        reject_if (rest ==? []) (FilesystemError_new operation FS_InvalidMarker) ;;
        Ok (Some reference)
    | _ => Err (FilesystemError_new operation FS_InvalidMarker)
    end.

Definition is_per_worktree_reference (reference : bytes) : bool :=
  existsb (path_starts_with reference) [str "refs/bisect"; str "refs/rewritten"; str "refs/worktree"].

(** What one call of [hash_component] feeds to the hash. [label.len() as u32] and
    [bytes.len() as u64] keep the low bits, as [be_bytes] does. *)
Definition hash_component (label : bytes) (bs : option bytes) : bytes :=
  be_bytes 4 (len label) ++ label ++
  match bs with
  | Some bs => [Byte.x01] ++ be_bytes 8 (len bs) ++ bs
  | None => [Byte.x00]
  end.

Section repository.
Context {W : Type} `{Directories W, MemoryProvider W} `{Crypto}.

Abbreviation fs_eff := (eff FilesystemError W).

Record RepositoryLocation := {
  rl_worktree : HardenedDir;
  rl_git_dir : HardenedDir;
  rl_git_common_dir : HardenedDir;
  rl_jury_dir_identity : option FileIdentity;
}.

(** ** Reading Git's control files *)

(** The directory a control file lies in, and its name there. *)
Fixpoint control_parent_loop (parent : Dir) (cs : list Component) (optional : bool) : fs_eff (option (Dir * bytes)) :=
  match cs with
  | [] => lift (Err (FilesystemError_new FO_Preview FS_InvalidMarker))
  | C_Normal value :: rest =>
      match rest with
      | [] => mret (Some (parent, value))
      | _ :: _ =>
          r ← attempt (open_dir_nofollow parent value);
          match r with
          | Ok child => control_parent_loop child rest optional
          | Err error =>
              if optional && (error ==? E_NOENT) then mret None
              else lift (Err (FilesystemError_new FO_Preview FS_InvalidMarker))
          end
      end
  | _ :: _ => lift (Err (FilesystemError_new FO_Preview FS_InvalidMarker))
  end.

Definition control_parent (directory : Dir) (name : bytes) (optional : bool) : fs_eff (option (Dir * bytes)) :=
  parent ← map_errM (io_error FO_Preview) (try_clone directory);
  control_parent_loop parent (components name) optional.

(** A control file once it was found: it is opened, compared and read. *)
Definition read_control_file (parent : Dir) (leaf : bytes) (metadata : Metadata) (maximum_bytes : N) : fs_eff bytes :=
  lift (reject_if (negb (md_is_file metadata) || negb (md_nlink metadata =? 1)%N || (maximum_bytes <? md_len metadata)%N)
    (FilesystemError_new FO_Preview FS_HardLinkOrSize)) ;;
  file ← map_errM (io_error FO_Preview) (open_read parent leaf);
  opened ← map_errM (io_error FO_Preview) (file_metadata file);
  lift (reject_if (negb (md_dev opened =? md_dev metadata)%N || negb (md_ino opened =? md_ino metadata)%N ||
      negb (md_nlink opened =? 1)%N || (maximum_bytes <? md_len opened)%N)
    (FilesystemError_new FO_Preview FS_IdentityChanged)) ;;
  bs ← map_errM (io_error FO_Preview) (read_to_end file (saturating_add_u64 maximum_bytes 1));
  lift (reject_if (maximum_bytes <? len bs)%N (FilesystemError_new FO_Preview FS_HardLinkOrSize)) ;;
  mret bs.

Definition read_git_control (directory : Dir) (name : bytes) (maximum_bytes : N) (optional : bool)
    : fs_eff (option bytes) :=
  found ← control_parent directory name optional;
  match found with
  | None => mret None
  | Some (parent, leaf) =>
      r ← attempt (symlink_metadata parent leaf);
      match r with
      | Ok metadata => bs ← read_control_file parent leaf metadata maximum_bytes; mret (Some bs)
      | Err error =>
          if optional && (error ==? E_NOENT) then mret None
          else lift (Err (FilesystemError_new FO_Preview FS_Io))
      end
  end.

Definition marker_error {E} (_ : E) : FilesystemError := FilesystemError_new FO_DiscoverRepository FS_InvalidMarker.

Definition validate_git_head (git_dir : HardenedDir) : fs_eff unit :=
  metadata ← map_errM marker_error (symlink_metadata (hd_dir git_dir) (str "HEAD"));
  lift (reject_if (negb (md_is_file metadata) || negb (md_nlink metadata =? 1)%N || (md_len metadata =? 0)%N ||
      (1024 <? md_len metadata)%N) (FilesystemError_new FO_DiscoverRepository FS_InvalidMarker)) ;;
  head ← map_errM marker_error (open_read (hd_dir git_dir) (str "HEAD"));
  opened ← map_errM marker_error (file_metadata head);
  lift (reject_if (negb (md_dev opened =? md_dev metadata)%N || negb (md_ino opened =? md_ino metadata)%N ||
      negb (md_nlink opened =? 1)%N) (FilesystemError_new FO_DiscoverRepository FS_IdentityChanged)) ;;
  bs ← map_errM marker_error (read_to_end head 1025);
  lift (parse_git_reference bs FO_DiscoverRepository) ;;
  mret ().

Definition linked_git_dir (worktree : HardenedDir) (path_metadata : Metadata) : fs_eff HardenedDir :=
  lift (reject_if (negb (md_nlink path_metadata =? 1)%N || (MAX_GITDIR_MARKER_BYTES <? md_len path_metadata)%N)
    (FilesystemError_new FO_DiscoverRepository FS_HardLinkOrSize)) ;;
  marker ← map_errM (λ _, FilesystemError_new FO_DiscoverRepository FS_LinkOrWrongType)
    (open_read (hd_dir worktree) (str ".git"));
  opened ← map_errM (io_error FO_DiscoverRepository) (file_metadata marker);
  lift (reject_if (negb (md_dev opened =? md_dev path_metadata)%N || negb (md_ino opened =? md_ino path_metadata)%N ||
      negb (md_nlink opened =? 1)%N || (MAX_GITDIR_MARKER_BYTES <? md_len opened)%N)
    (FilesystemError_new FO_DiscoverRepository FS_IdentityChanged)) ;;
  bs ← map_errM (io_error FO_DiscoverRepository) (read_to_end marker (MAX_GITDIR_MARKER_BYTES + 1));
  lift (reject_if (MAX_GITDIR_MARKER_BYTES <? len bs)%N (FilesystemError_new FO_DiscoverRepository FS_HardLinkOrSize)) ;;
  line ← lift (git_control_line bs FO_DiscoverRepository);
  value ← lift (ok_or (str_strip_prefix (str "gitdir: ") line) (FilesystemError_new FO_DiscoverRepository FS_InvalidMarker));
  lift (reject_if (value ==? []) (FilesystemError_new FO_DiscoverRepository FS_InvalidMarker)) ;;
  open_absolute_dir (path_join (hd_absolute worktree) value) FO_DiscoverRepository.

Definition open_git_common_dir (git_dir : HardenedDir) : fs_eff HardenedDir :=
  found ← read_git_control (hd_dir git_dir) (str "commondir") MAX_GITDIR_MARKER_BYTES true;
  match found with
  | None => open_absolute_dir (hd_absolute git_dir) FO_DiscoverRepository
  | Some bs =>
      value ← lift (git_control_line bs FO_DiscoverRepository);
      open_absolute_dir (path_join (hd_absolute git_dir) value) FO_DiscoverRepository
  end.

Definition open_git_marker (worktree : HardenedDir) : fs_eff (option HardenedDir) :=
  r ← attempt (symlink_metadata (hd_dir worktree) (str ".git"));
  match r with
  | Ok metadata =>
      if md_is_dir metadata then
        dir ← nofollow_directory_child (hd_dir worktree) (str ".git") FO_DiscoverRepository;
        metadata ← map_errM (io_error FO_DiscoverRepository) (dir_metadata dir);
        let identity := FileIdentity_from_metadata metadata in
        let git_dir := {| hd_dir := dir; hd_absolute := path_join (hd_absolute worktree) (str ".git");
          hd_identity := identity; hd_lineage := hd_lineage worktree ++ [identity] |} in
        validate_git_head git_dir ;;
        mret (Some git_dir)
      else if md_is_file metadata then
        git_dir ← linked_git_dir worktree metadata;
        validate_git_head git_dir ;;
        mret (Some git_dir)
      else lift (Err (FilesystemError_new FO_DiscoverRepository FS_LinkOrWrongType))
  | Err E_NOENT => mret None
  | Err _ => lift (Err (FilesystemError_new FO_DiscoverRepository FS_Io))
  end.

Definition inspect_jury_directory (worktree : Dir) : fs_eff (option FileIdentity) :=
  r ← attempt (symlink_metadata worktree (str ".jury"));
  match r with
  | Ok metadata =>
      if md_is_dir metadata then
        directory ← nofollow_directory_child worktree (str ".jury") FO_DiscoverRepository;
        metadata ← map_errM (io_error FO_DiscoverRepository) (dir_metadata directory);
        mret (Some (FileIdentity_from_metadata metadata))
      else lift (Err (FilesystemError_new FO_DiscoverRepository FS_LinkOrWrongType))
  | Err E_NOENT => mret None
  | Err _ => lift (Err (FilesystemError_new FO_DiscoverRepository FS_Io))
  end.

(** The worktree is looked for in a directory and then in those above it. *)
Fixpoint discover_from (rooted : bool) (names : list bytes) : fs_eff RepositoryLocation :=
  let candidate_path := path_bytes {| np_rooted := rooted; np_names := rev names |} in
  worktree ← open_absolute_dir candidate_path FO_DiscoverRepository;
  marker ← open_git_marker worktree;
  match marker with
  | Some git_dir =>
      git_common_dir ← open_git_common_dir git_dir;
      jury_dir_identity ← inspect_jury_directory (hd_dir worktree);
      mret {| rl_worktree := worktree; rl_git_dir := git_dir; rl_git_common_dir := git_common_dir;
        rl_jury_dir_identity := jury_dir_identity |}
  | None =>
      match names with
      | [] => lift (Err (FilesystemError_new FO_DiscoverRepository FS_NotFound))
      | _ :: above => discover_from rooted above
      end
  end.

(** [RepositoryLocation::discover] *)
Definition discover (start : bytes) : fs_eff RepositoryLocation :=
  normalized ← normalized_absolute start FO_DiscoverRepository;
  discover_from (np_rooted normalized) (rev (np_names normalized)).

Definition worktree_changed {E} (_ : E) : FilesystemError := FilesystemError_new FO_DiscoverRepository FS_IdentityChanged.

Definition revalidate_worktree (self : RepositoryLocation) : fs_eff unit :=
  reopened ← map_errM worktree_changed (open_absolute_dir (hd_absolute (rl_worktree self)) FO_DiscoverRepository);
  lift (reject_if (hd_identity reopened !=? hd_identity (rl_worktree self)) (worktree_changed ())) ;;
  metadata ← map_errM worktree_changed (dir_metadata (hd_dir (rl_worktree self)));
  lift (reject_if (FileIdentity_from_metadata metadata !=? hd_identity (rl_worktree self)) (worktree_changed ())) ;;
  marker ← open_git_marker (rl_worktree self);
  git_dir ← lift (ok_or marker (FilesystemError_new FO_DiscoverRepository FS_InvalidMarker));
  lift (reject_if (hd_identity git_dir !=? hd_identity (rl_git_dir self)) (worktree_changed ())) ;;
  git_common_dir ← open_git_common_dir git_dir;
  lift (reject_if (hd_identity git_common_dir !=? hd_identity (rl_git_common_dir self)) (worktree_changed ())).

Definition jury_dir_clone (self : RepositoryLocation) : fs_eff Dir :=
  revalidate_worktree self ;;
  expected ← lift (ok_or (rl_jury_dir_identity self) (FilesystemError_new FO_Open FS_NotFound));
  directory ← nofollow_directory_child (hd_dir (rl_worktree self)) (str ".jury") FO_Open;
  metadata ← map_errM (λ _, FilesystemError_new FO_Open FS_IdentityChanged) (dir_metadata directory);
  lift (reject_if (FileIdentity_from_metadata metadata !=? expected) (FilesystemError_new FO_Open FS_IdentityChanged)) ;;
  mret directory.

(** The location with the identity of its new directory, which stays recorded when
    the sync fails. *)
Definition create_jury_directory (self : RepositoryLocation) : fs_eff (RepositoryLocation * result FilesystemError unit) :=
  revalidate_worktree self ;;
  if rl_jury_dir_identity self is Some _ then
    jury_dir_clone self ;;
    synced ← attempt (map_errM (io_error FO_SyncParent) (sync_directory (hd_dir (rl_worktree self))));
    mret (self, synced)
  else
    map_errM (λ error, FilesystemError_new FO_Open (if error ==? E_EXIST then FS_AlreadyExists else FS_Io))
      (create_dir_with (hd_dir (rl_worktree self)) (str ".jury") 448) ;;
    jury_dir ← nofollow_directory_child (hd_dir (rl_worktree self)) (str ".jury") FO_Open;
    metadata ← map_errM (io_error FO_Open) (dir_metadata jury_dir);
    synced ← attempt (map_errM (io_error FO_SyncParent) (sync_directory (hd_dir (rl_worktree self))));
    mret ({| rl_worktree := rl_worktree self; rl_git_dir := rl_git_dir self;
             rl_git_common_dir := rl_git_common_dir self;
             rl_jury_dir_identity := Some (FileIdentity_from_metadata metadata) |}, synced).

Definition repository_preview_shared (self : RepositoryLocation) : fs_eff PrivateFilePrecondition :=
  directory ← jury_dir_clone self;
  preview_encrypted_shared_artifact directory (str "vault.json").

Definition repository_read_shared (self : RepositoryLocation) (maximum_bytes : N) : fs_eff bytes :=
  directory ← jury_dir_clone self;
  read_public_from_dir directory (str "vault.json") maximum_bytes.

Definition validate_vault_attributes (directory : Dir) : fs_eff unit :=
  bs ← read_public_from_dir directory (str ".gitattributes") (len VAULT_ATTRIBUTES);
  lift (reject_if (bs !=? VAULT_ATTRIBUTES) (FilesystemError_new FO_Prepare FS_IdentityChanged)) ;;
  map_errM (io_error FO_SyncParent) (sync_directory directory).

Definition ensure_vault_attributes (self : RepositoryLocation) : fs_eff unit :=
  directory ← jury_dir_clone self;
  destination ← preview_with_visibility directory (str ".gitattributes") FV_PublicEncryptedArtifact;
  if destination_exists destination then validate_vault_attributes directory
  else
    r ← attempt (prepare_bounded_if_unchanged destination VAULT_ATTRIBUTES (len VAULT_ATTRIBUTES) false
      FV_PublicEncryptedArtifact);
    match r with
    | Ok prepared =>
        outcome ← publish prepared;
        lift (reject_if (outcome !=? PublishedAndSynced) (FilesystemError_new FO_SyncParent FS_Io))
    | Err error =>
        if fe_kind error ==? FS_AlreadyExists then validate_vault_attributes directory else lift (Err error)
    end.

(** ** The digest of Git's state *)

Definition ensure_files_reference_storage (directory : Dir) : fs_eff unit :=
  r ← attempt (symlink_metadata directory (str "reftable"));
  match r with
  | Err E_NOENT => mret ()
  | Ok _ => lift (Err (FilesystemError_new FO_Preview FS_Unsupported))
  | Err _ => lift (Err (FilesystemError_new FO_Preview FS_Io))
  end.

Definition same_git_dir (self : RepositoryLocation) : bool :=
  hd_identity (rl_git_dir self) ==? hd_identity (rl_git_common_dir self).

(** The references from [HEAD] on, [depth] of them at most, and what is hashed of
    them. *)
Fixpoint follow_references (self : RepositoryLocation) (depth : nat) (visited : list bytes) (reference : option bytes)
    : fs_eff (list (bytes * option bytes)) :=
  match reference with
  | None => mret (if visited ==? [] then [(str "REF", None)] else [])
  | Some name =>
      match depth with
      | O => lift (Err (FilesystemError_new FO_Preview FS_InvalidMarker))
      | S depth =>
          lift (reject_if (name ∈? visited) (FilesystemError_new FO_Preview FS_InvalidMarker)) ;;
          let directory := if same_git_dir self || is_per_worktree_reference name
            then hd_dir (rl_git_dir self) else hd_dir (rl_git_common_dir self) in
          reference_bytes ← read_git_control directory name 1024 true;
          next ← match reference_bytes with
                 | None => mret None
                 | Some bs => lift (parse_git_reference bs FO_Preview)
                 end;
          rest ← (if next is Some _ then follow_references self depth (visited ++ [name]) next else mret []);
          mret ((str "REF_NAME", Some name) :: (str "REF", reference_bytes) :: rest)
      end
  end.

(** The components that are hashed. *)
Definition ancestry_components (self : RepositoryLocation) : fs_eff (list (bytes * option bytes)) :=
  revalidate_worktree self ;;
  ensure_files_reference_storage (hd_dir (rl_git_dir self)) ;;
  (if same_git_dir self then mret () else ensure_files_reference_storage (hd_dir (rl_git_common_dir self))) ;;
  head ← read_git_control (hd_dir (rl_git_dir self)) (str "HEAD") 1024 false;
  head ← lift (ok_or head (FilesystemError_new FO_Preview FS_InvalidMarker));
  reference ← lift (parse_git_reference head FO_Preview);
  references ← follow_references self MAX_GIT_SYMBOLIC_REFERENCE_DEPTH [] reference;
  packed ← read_git_control (hd_dir (rl_git_common_dir self)) (str "packed-refs") MAX_GIT_CONTROL_BYTES true;
  worktree_log ← read_git_control (hd_dir (rl_git_dir self)) (str "logs/HEAD") MAX_GIT_CONTROL_BYTES true;
  index ← read_git_control (hd_dir (rl_git_dir self)) (str "index") MAX_GIT_INDEX_BYTES true;
  mret ((str "HEAD", Some head) :: references ++
    [(str "PACKED", packed); (str "LOG", worktree_log); (str "INDEX", index)]).

Definition ancestry_preimage (components : list (bytes * option bytes)) : bytes :=
  str "jury-repository-ancestry-v1" ++ [Byte.x00] ++ mjoin ((λ c, hash_component c.1 c.2) <$> components).

Definition repository_git_ancestry_digest (self : RepositoryLocation) : fs_eff Digest32 :=
  components ← ancestry_components self;
  mret (sha256 (ancestry_preimage components)).
End repository.
