(* ===== verification/RepositoryTheorems.v ===== *)
(** * Theorems about the Git worktree

    Looking at a repository changes nothing; a reference that is followed stays
    below [refs]; the digest of Git's state binds every file it is made of. *)

From S2P Require Import Prelude VaultTypes Canonical Binding Text Effects ProtectedMemory Directory PrivateFiles PrivateFilesTheorems Repository.
Local Open Scope jury_scope.

Lemma keeps_foldM {E W S A} (R : relation W) `{!PreOrder R} (f : S → A → eff E W S) s l :
  (∀ s x, keeps R (f s x)) → keeps R (foldM f s l).
Proof. intros Hf. revert s. induction l as [|x l IH]; intros s; cbn; keeps_tac. Qed.

(** ** References *)

Lemma valid_component p :
  valid_reference_component p = true → p ≠ [] ∧ head p ≠ Some dot ∧ str_ends_with (str ".lock") p = false.
Proof.
  unfold valid_reference_component. intros [[Hn Hd]%andb_true_iff Hl]%andb_true_iff.
  apply negb_true_iff in Hn, Hd, Hl. apply bool_decide_eq_false in Hn, Hd. split_and!; [done| |done].
  destruct p as [|b p]; [done|]. intros [= ->]. apply Hd. cbn. by rewrite -> take_0.
Qed.

(** The pieces of a valid reference are its components. *)
Lemma components_valid r :
  forallb valid_reference_component (split_slash r) = true → components r = C_Normal <$> split_slash r.
Proof.
  intros Hv. assert (mjoin (component_of <$> split_slash r) = C_Normal <$> split_slash r) as Hj.
  { induction (split_slash r) as [|p ps IH]; [done|]. apply andb_true_iff in Hv as [Hp Hv].
    apply valid_component in Hp as (Hn & Hd & _). rewrite -> !fmap_cons. cbn [mjoin list_join].
    unfold component_of at 1. rewrite -> !decide_False; [|by intros ->..|done]. cbn. by rewrite <- (IH Hv). }
  unfold components. destruct (split_slash r) as [|p ps]; [done|]. apply andb_true_iff in Hv as [Hp _].
  apply valid_component in Hp as (Hn & Hd & _). destruct p as [|b p]; [done|].
  rewrite -> decide_False by (by intros [= -> ->]). exact Hj.
Qed.

Lemma parse_git_reference_Ok bs op r :
  parse_git_reference bs op = Ok (Some r) →
  is_valid_git_reference_name r = true ∧ head (components r) = Some (C_Normal (str "refs")) ∧
  tail (components r) ≠ [] ∧ (len r ≤ len bs)%N.
Proof.
  unfold parse_git_reference. intros Hk. apply bind_Ok in Hk as (v & Hline & Hk). case_match; [done|].
  apply bind_Ok in Hk as (r' & Hr & Hk). apply ok_or_Ok in Hr.
  apply reject_if_bind in Hk as [Hv%negb_false_iff Hk].
  destruct (components r') as [|[| | |name] rest] eqn:Hc; try done.
  apply reject_if_bind in Hk as [Hn Hk]. apply reject_if_bind in Hk as [_ Hk].
  apply reject_if_bind in Hk as [Hne%bool_decide_eq_false Hk]. injection Hk as <-.
  apply negb_false_iff, bool_decide_eq_true in Hn as ->. rewrite -> Hc. split_and!; [done..|].
  unfold git_control_line in Hline. apply reject_if_bind in Hline as [_ Hline].
  apply reject_if_bind in Hline as [_ <-%Ok_inj].
  assert (len r' ≤ len (if last bs ==? Some line_feed then removelast bs else bs))%N as Hl.
  { unfold str_strip_prefix in Hr. case_match; [|done]. injection Hr as <-. unfold len. rewrite -> length_drop. lia. }
  etrans; [exact Hl|]. case_match; [|done]. destruct bs as [|b bs]; [done|].
  pose proof (app_removelast_last Byte.x00 (l := b :: bs) ltac:(done)) as Happ.
  unfold len. rewrite -> Happ at 2. rewrite -> length_app. lia.
Qed.

(** C37: a reference that Git's files name and that is followed is a path below
    [refs]: all its components are ordinary names, at least one comes after [refs],
    and none of them is hidden, a lock file, or holds a slash; no byte of it is a
    space, a control character or one of those Git forbids. *)
Theorem git_reference_confined bs op r :
  parse_git_reference bs op = Ok (Some r) →
  (∃ names, components r = C_Normal (str "refs") :: (C_Normal <$> names) ∧ names ≠ [] ∧
    Forall (λ n, n ≠ [] ∧ slash ∉ n ∧ head n ≠ Some dot ∧ str_ends_with (str ".lock") n = false) names) ∧
  Forall (λ b, forbidden_reference_byte b = false) r.
Proof.
  intros (Hv & Hh & Ht & _)%parse_git_reference_Ok. unfold is_valid_git_reference_name in Hv.
  apply andb_true_iff in Hv as [[_ Hb%negb_true_iff]%andb_true_iff Hv].
  rewrite -> (components_valid _ Hv) in Hh, Ht |- *. pose proof (split_slash_pieces r) as Hs. split.
  - destruct (split_slash r) as [|p ps]; [done|]. injection Hh as ->. exists ps. split_and!; [done|by intros ->|].
    apply Forall_cons in Hs as [_ Hs]. apply andb_true_iff in Hv as [_ Hv].
    change (forallb valid_reference_component ps = true) in Hv. rewrite -> forallb_forall in Hv.
    apply Forall_forall. intros n Hn. rewrite -> Forall_forall in Hs.
    destruct (valid_component n) as (? & ? & ?); [by apply Hv, list_elem_of_In|]. split_and!; auto.
  - apply Forall_forall. intros b Hin. apply not_true_iff_false. intros Hf.
    rewrite <- not_true_iff_false in Hb. apply Hb, existsb_exists. exists b. split; [by apply list_elem_of_In|done].
Qed.

Section repository.
Context {W : Type} `{DirectoryLaws W} `{Crypto}.
Implicit Types (self : RepositoryLocation) (n : bytes).

Ltac idle_tac := unfold idle in *; keeps_tac.

(** ** Nothing is changed *)

Lemma normalized_absolute_idle path op : idle (normalized_absolute path op).
Proof. unfold normalized_absolute. idle_tac. Qed.

Lemma open_component_idle op a c : idle (open_component op a c).
Proof. unfold open_component. idle_tac. Qed.

Lemma open_absolute_dir_idle path op : idle (open_absolute_dir path op).
Proof.
  unfold open_absolute_dir. pose proof (normalized_absolute_idle path op).
  pose proof (λ s l, keeps_foldM same_files (open_component op) s l (open_component_idle op)). idle_tac.
Qed.

Lemma control_parent_loop_idle d cs optional : idle (control_parent_loop d cs optional).
Proof.
  revert d. induction cs as [|c cs IH]; intros d; cbn [control_parent_loop]; [idle_tac|].
  destruct c; [idle_tac..|]. destruct cs; idle_tac.
Qed.

Lemma control_parent_idle d n optional : idle (control_parent d n optional).
Proof. unfold control_parent. pose proof control_parent_loop_idle. idle_tac. Qed.

Lemma read_control_file_idle d n m k : idle (read_control_file d n m k).
Proof. unfold read_control_file. idle_tac. Qed.

Lemma read_git_control_idle d n k optional : idle (read_git_control d n k optional).
Proof. unfold read_git_control. pose proof control_parent_idle. pose proof read_control_file_idle. idle_tac. Qed.

Lemma validate_git_head_idle d : idle (validate_git_head d).
Proof. unfold validate_git_head. idle_tac. Qed.

Lemma linked_git_dir_idle d m : idle (linked_git_dir d m).
Proof. unfold linked_git_dir. pose proof open_absolute_dir_idle. idle_tac. Qed.

Lemma open_git_common_dir_idle d : idle (open_git_common_dir d).
Proof. unfold open_git_common_dir. pose proof open_absolute_dir_idle. pose proof read_git_control_idle. idle_tac. Qed.

Lemma open_git_marker_idle d : idle (open_git_marker d).
Proof.
  unfold open_git_marker. pose proof nofollow_directory_child_idle. pose proof validate_git_head_idle.
  pose proof linked_git_dir_idle. idle_tac.
Qed.

Lemma revalidate_worktree_idle self : idle (revalidate_worktree self).
Proof.
  unfold revalidate_worktree. pose proof open_absolute_dir_idle. pose proof open_git_marker_idle.
  pose proof open_git_common_dir_idle. idle_tac.
Qed.

Lemma jury_dir_clone_idle self : idle (jury_dir_clone self).
Proof.
  unfold jury_dir_clone. pose proof revalidate_worktree_idle. pose proof nofollow_directory_child_idle. idle_tac.
Qed.

Lemma repository_preview_shared_idle self : idle (repository_preview_shared self).
Proof. unfold repository_preview_shared. pose proof jury_dir_clone_idle. pose proof preview_idle. idle_tac. Qed.

Lemma repository_read_shared_idle self k : idle (repository_read_shared self k).
Proof.
  unfold repository_read_shared. pose proof jury_dir_clone_idle. pose proof read_with_permissions_idle. idle_tac.
Qed.

Lemma ensure_files_reference_storage_idle d : idle (ensure_files_reference_storage d).
Proof. unfold ensure_files_reference_storage. idle_tac. Qed.

Lemma follow_references_idle self depth visited r : idle (follow_references self depth visited r).
Proof.
  pose proof read_git_control_idle. revert visited r. induction depth as [|depth IH]; intros visited [name|]; cbn; idle_tac.
Qed.

Lemma ancestry_components_idle self : idle (ancestry_components self).
Proof.
  unfold ancestry_components. pose proof revalidate_worktree_idle. pose proof ensure_files_reference_storage_idle.
  pose proof read_git_control_idle. pose proof follow_references_idle. idle_tac.
Qed.

Lemma git_ancestry_digest_idle self : idle (repository_git_ancestry_digest self).
Proof. unfold repository_git_ancestry_digest. pose proof ancestry_components_idle. idle_tac. Qed.

(** ** What is read *)

(** The file a path of names leads to. *)
Fixpoint file_below (w : W) (d : N) (names : list bytes) : option bytes :=
  match names with
  | [] => None
  | [n] => file_at w d n
  | n :: names => entry w d n ≫= λ i, file_below w i names
  end.

Lemma same_files_below w w' d names : same_files w w' → file_below w' d names = file_below w d names.
Proof.
  intros Hs. revert d. induction names as [|n [|n' names] IH]; intros d; [done|by apply same_files_at|].
  cbn [file_below]. rewrite -> (sf_entry _ _ Hs). destruct (entry w d n); [|done]. apply IH.
Qed.

Lemma control_parent_loop_Ok names o d w r w' :
  control_parent_loop d (C_Normal <$> names) o w = (Ok r, w') →
  same_files w w' ∧
  match r with
  | None => file_below w (dir_ino d) names = None
  | Some (p, leaf) => file_below w (dir_ino d) names = file_at w (dir_ino p) leaf
  end.
Proof.
  revert d w. induction names as [|n [|n' names] IH]; intros d w Hrun; [done| |].
  { injection Hrun as <- <-. by split. }
  rewrite -> fmap_cons in Hrun. cbn [control_parent_loop] in Hrun. rewrite -> fmap_cons in Hrun.
  rewrite <- fmap_cons in Hrun.
  apply (bind_keeps same_files) in Hrun as (r0 & w1 & Ho & Hw1 & Hrun); [|keeps_tac].
  unfold attempt in Ho. destruct (open_dir_nofollow d n w) as [r1 w2] eqn:Hd. injection Ho as <- ->.
  destruct r1 as [c|e].
  - apply IH in Hrun as [Hs Hr]. split; [by etrans|]. apply open_dir_Ok in Hd.
    change (file_below w (dir_ino d) (n :: n' :: names)) with (entry w (dir_ino d) n ≫= λ i, file_below w i (n' :: names)).
    rewrite -> Hd. cbn [mbind option_bind]. rewrite -> (same_files_below _ _ _ _ Hw1) in Hr.
    destruct r as [[p leaf]|]; [|done]. by rewrite -> (same_files_at _ _ _ _ Hw1) in Hr.
  - case_match eqn:He; [|done]. injection Hrun as <- <-. split; [done|].
    apply andb_true_iff in He as [_ ->%bool_decide_eq_true]. apply open_dir_noent in Hd.
    cbn [file_below]. by rewrite -> Hd.
Qed.

Lemma read_control_file_Ok d n m k w bs w' :
  (k < 2 ^ 64 - 1)%N → read_control_file d n m k w = (Ok bs, w') →
  file_at w (dir_ino d) n = Some bs ∧ (len bs ≤ k)%N.
Proof.
  intros Hk Hrun. unfold read_control_file in Hrun. apply bind_lift_Ok in Hrun as (_ & _ & Hrun).
  apply (bind_keeps same_files) in Hrun as (f & w2 & Hf%map_errM_run%open_read_Ok & Hw2 & Hrun); [|keeps_tac].
  apply (bind_keeps same_files) in Hrun as (m1 & w3 & _ & Hw3 & Hrun); [|keeps_tac].
  apply bind_lift_Ok in Hrun as (_ & _ & Hrun).
  apply (bind_keeps same_files) in Hrun as (out & w4 & Ho%map_errM_run%read_Ok & _ & Hrun); [|keeps_tac].
  apply bind_lift_Ok in Hrun as (_ & Hlen%reject_if_Ok & Hrun). injection Hrun as -> _. apply N.ltb_ge in Hlen.
  split; [|done]. rewrite -> (sf_contents _ _ Hw3), (sf_contents _ _ Hw2) in Ho.
  unfold file_at. rewrite -> Hf. cbn. f_equal. subst bs. rewrite -> (saturating_succ _ Hk) in *. symmetry. by apply take_limit.
Qed.

(** A control file is read whole, or is missing. *)
Lemma read_git_control_Ok d n names k o w r w' :
  components n = C_Normal <$> names → (k < 2 ^ 64 - 1)%N → read_git_control d n k o w = (Ok r, w') →
  r = file_below w (dir_ino d) names ∧ from_option (λ bs, (len bs ≤ k)%N) True r.
Proof.
  intros Hn Hk Hrun. unfold read_git_control, control_parent in Hrun. rewrite -> Hn in Hrun.
  apply eff_bind_Ok in Hrun as (found & w2 & Hf & Hrun).
  apply (bind_keeps same_files) in Hf as (d' & w1 & Hd%map_errM_run%try_clone_Ok & Hw1 & Hf); [|keeps_tac].
  apply control_parent_loop_Ok in Hf as [Hw2 Hf]. rewrite -> Hd in Hf.
  rewrite -> (same_files_below _ _ _ _ Hw1) in Hf.
  destruct found as [[p leaf]|]; [|injection Hrun as <- _; by rewrite -> Hf].
  rewrite -> (same_files_at _ _ _ _ Hw1) in Hf. assert (same_files w w2) as Hww2 by by etrans.
  apply (bind_keeps same_files) in Hrun as (r0 & w3 & Hm & Hw3 & Hrun); [|keeps_tac].
  unfold attempt in Hm. destruct (symlink_metadata p leaf w2) as [[m|e] w4] eqn:Hs; injection Hm as <- ->.
  - apply eff_bind_Ok in Hrun as (bs & w5 & Hr & Hrun). injection Hrun as <- _.
    apply read_control_file_Ok in Hr as [Hr Hl]; [|done]. split; [|done].
    by rewrite -> Hf, <- (same_files_at _ _ _ _ Hww2), <- (same_files_at _ _ _ _ Hw3).
  - case_match eqn:He; [|done]. injection Hrun as <- _.
    apply andb_true_iff in He as [_ ->%bool_decide_eq_true]. apply symlink_metadata_noent in Hs. split; [|done].
    rewrite -> Hf. unfold file_at. by rewrite <- (sf_entry _ _ Hww2), Hs.
Qed.

(** ** The digest *)

Definition component_bounded (c : bytes * option bytes) : Prop :=
  (len c.1 < 256 ^ 4)%N ∧ from_option (λ bs, (len bs < 256 ^ 8)%N) True c.2.

Lemma component_bounded_le label o k :
  (len label < 256 ^ 4)%N → (k < 256 ^ 8)%N → from_option (λ bs, (len bs ≤ k)%N) True o → component_bounded (label, o).
Proof. intros Hl Hk Ho. split; [done|]. destruct o as [bs|]; [|done]. by eapply N.le_lt_trans. Qed.

Lemma pinj_hash_component : pinj component_bounded (λ c, hash_component c.1 c.2).
Proof.
  intros [l1 b1] [l2 b2] r s [Hl1 Hb1] [Hl2 Hb2]. unfold hash_component. cbn [fst snd] in *. rw -!(assoc_L (++)). intros Heq.
  apply (pinj_be_bytes 4) in Heq as [Hlen%len_eq Heq]; [|done..]. apply peel in Heq as [-> Heq]; [|done].
  destruct b1 as [b1|], b2 as [b2|]; rewrite <- ?(assoc_L (++)) in Heq; apply peel in Heq as [Htag Heq]; try done.
  apply (pinj_be_bytes 8) in Heq as [Hlen'%len_eq Heq]; [|done..]. by apply peel in Heq as [-> ->].
Qed.

Lemma hash_component_cons c : ∃ b bs, hash_component c.1 c.2 = b :: bs.
Proof. unfold hash_component. rewrite -> app_assoc. destruct (be_bytes 4 (len c.1)) eqn:Hb; [done|]. cbn. eauto. Qed.

Lemma ancestry_preimage_inj cs cs' :
  Forall component_bounded cs → Forall component_bounded cs' → ancestry_preimage cs = ancestry_preimage cs' → cs = cs'.
Proof.
  intros Hcs Hcs' Heq. apply app_inv_head in Heq. injection Heq as Heq.
  revert cs' Hcs' Heq. induction Hcs as [|c cs Hc Hcs IH]; intros [|c' cs'] Hcs'; rewrite -> ?fmap_cons;
    cbn [mjoin list_join]; [done| | |].
  - destruct (hash_component_cons c') as (b & bs & ->). done.
  - destruct (hash_component_cons c) as (b & bs & ->). done.
  - apply Forall_cons in Hcs' as [Hc' Hcs']. intros Heq. apply pinj_hash_component in Heq as [-> Heq]; [|done..].
    f_equal. by apply IH.
Qed.

Lemma read_git_control_bounded d n k o w r w' :
  (k < 2 ^ 64 - 1)%N → read_git_control d n k o w = (Ok r, w') → from_option (λ bs, (len bs ≤ k)%N) True r.
Proof.
  intros Hk Hrun. unfold read_git_control in Hrun. apply eff_bind_Ok in Hrun as ([[p leaf]|] & w1 & _ & Hrun);
    [|by injection Hrun as <- _].
  apply eff_bind_Ok in Hrun as ([m|e] & w2 & _ & Hrun); [|case_match; [by injection Hrun as <- _|done]].
  apply eff_bind_Ok in Hrun as (bs & w3 & Hr & Hrun). injection Hrun as <- _. by eapply read_control_file_Ok.
Qed.

Lemma follow_references_bounded self depth visited r w cs w' :
  from_option (λ n, (len n ≤ 1024)%N) True r → follow_references self depth visited r w = (Ok cs, w') →
  Forall component_bounded cs.
Proof.
  revert visited r w cs w'. induction depth as [|depth IH]; intros visited [name|] w cs w' Hr Hrun; cbn [follow_references] in Hrun;
    try done.
  1,3: by injection Hrun as <- _; case_match; repeat constructor.
  apply bind_lift_Ok in Hrun as (_ & _ & Hrun). apply eff_bind_Ok in Hrun as (found & w1 & Hf & Hrun).
  apply read_git_control_bounded in Hf; [|done]. apply eff_bind_Ok in Hrun as (next & w2 & Hn & Hrun).
  apply eff_bind_Ok in Hrun as (rest & w3 & Hrest & Hrun). injection Hrun as <- _.
  assert (from_option (λ n, (len n ≤ 1024)%N) True next) as Hnext.
  { destruct found as [bs|]; [|by injection Hn as <- _]. apply lift_Ok in Hn as [Hn _].
    destruct next as [x|]; [|done]. apply parse_git_reference_Ok in Hn as (_ & _ & _ & Hl). cbn in *. lia. }
  apply Forall_cons; split; [by apply (component_bounded_le _ _ 1024)|].
  apply Forall_cons; split; [by apply (component_bounded_le _ _ 1024)|].
  destruct next as [x|]; [eapply IH; [exact Hnext|exact Hrest]|]. injection Hrest as Hrest _. rewrite <- Hrest. apply Forall_nil_2.
Qed.

(** *** What a digest is made of

    The files of Git, said without the code that reads them: [HEAD], the references
    from it on, the packed references, the log and the index. *)

(** The reference a file names: the rest of its line after [ref: ]. *)
Definition points_to (bs : bytes) : option bytes :=
  let line := if last bs ==? Some line_feed then removelast bs else bs in
  if take 5 line ==? str "ref: " then Some (drop 5 line) else None.

(** Bisection, rewriting and worktree references belong to the worktree, all others
    to the directory that worktrees share. *)
Definition reference_directory (self : RepositoryLocation) (names : list bytes) : N :=
  if decide (hd_identity (rl_git_dir self) = hd_identity (rl_git_common_dir self) ∨
             take 2 names ∈ [[str "refs"; str "bisect"]; [str "refs"; str "rewritten"]; [str "refs"; str "worktree"]])
  then dir_ino (hd_dir (rl_git_dir self)) else dir_ino (hd_dir (rl_git_common_dir self)).

Definition reference_file (self : RepositoryLocation) (w : W) (name : bytes) : option bytes :=
  file_below w (reference_directory self (split_slash name)) (split_slash name).

(** The references from one on, with their files. *)
Fixpoint reference_files (self : RepositoryLocation) (w : W) (depth : nat) (reference : option bytes)
    : list (bytes * option bytes) :=
  match depth, reference with
  | S depth, Some name =>
      (name, reference_file self w name) :: reference_files self w depth (reference_file self w name ≫= points_to)
  | _, _ => []
  end.

Record GitFiles := {
  gf_head : option bytes;
  gf_references : list (bytes * option bytes);
  gf_packed : option bytes;
  gf_log : option bytes;
  gf_index : option bytes;
}.

Definition git_files (self : RepositoryLocation) (w : W) : GitFiles :=
  let git := dir_ino (hd_dir (rl_git_dir self)) in
  let head := file_below w git [str "HEAD"] in {|
    gf_head := head;
    gf_references := reference_files self w MAX_GIT_SYMBOLIC_REFERENCE_DEPTH (head ≫= points_to);
    gf_packed := file_below w (dir_ino (hd_dir (rl_git_common_dir self))) [str "packed-refs"];
    gf_log := file_below w git [str "logs"; str "HEAD"];
    gf_index := file_below w git [str "index"];
  |}.

Lemma parse_points_to bs op r : parse_git_reference bs op = Ok r → points_to bs = r.
Proof.
  unfold parse_git_reference. intros (line & Hline & Hp)%bind_Ok.
  assert (points_to bs = str_strip_prefix (str "ref: ") line) as ->.
  { unfold git_control_line in Hline. apply reject_if_bind in Hline as [_ Hline].
    apply reject_if_bind in Hline as [_ <-%Ok_inj]. done. }
  case_match eqn:Hhex.
  - apply Ok_inj in Hp as <-. apply andb_true_iff in Hhex as [_ Hhex]. unfold str_strip_prefix, str_starts_with.
    case_bool_decide as Hr; [|done]. destruct line as [|b line]; [done|]. injection Hr as -> _.
    by apply andb_true_iff in Hhex as [? _].
  - apply bind_Ok in Hp as (name & ->%ok_or_Ok & Hp). apply reject_if_bind in Hp as [_ Hp].
    case_match; [done|]. case_match; try done. by repeat inv_ok_step.
Qed.

Lemma path_starts_names name base names :
  components name = C_Normal <$> split_slash name → components base = C_Normal <$> names →
  path_starts_with name base = bool_decide (take (length names) (split_slash name) = names).
Proof.
  intros Hc Hb. unfold path_starts_with. rewrite -> Hc, Hb, length_fmap, <- fmap_take.
  apply bool_decide_ext. split; [|by intros ->]. apply list_fmap_eq_inj. by intros ? ? [= ->].
Qed.

(** The directory the code reads a reference from. *)
Lemma reference_directory_Ok self name :
  components name = C_Normal <$> split_slash name →
  dir_ino (if same_git_dir self || is_per_worktree_reference name
    then hd_dir (rl_git_dir self) else hd_dir (rl_git_common_dir self)) =
  reference_directory self (split_slash name).
Proof.
  intros Hc. unfold reference_directory, is_per_worktree_reference, same_git_dir. cbn [existsb].
  rewrite -> !(path_starts_names name _ [_; _] Hc) by reflexivity. cbn [length].
  repeat case_bool_decide; case_decide as Hd; try done; set_solver.
Qed.

(** What is hashed of the references. *)
Definition hashed_references (references : list (bytes * option bytes)) : list (bytes * option bytes) :=
  match references with
  | [] => [(str "REF", None)]
  | _ => mjoin ((λ x, [(str "REF_NAME", Some x.1); (str "REF", x.2)]) <$> references)
  end.

Definition hashed_components (g : GitFiles) : list (bytes * option bytes) :=
  (str "HEAD", gf_head g) :: hashed_references (gf_references g) ++
  [(str "PACKED", gf_packed g); (str "LOG", gf_log g); (str "INDEX", gf_index g)].

Lemma hashed_references_inj l l' : hashed_references l = hashed_references l' → l = l'.
Proof.
  assert (∀ k k' : list (bytes * option bytes),
    mjoin ((λ x, [(str "REF_NAME", Some x.1); (str "REF", x.2)]) <$> k) =
    mjoin ((λ x, [(str "REF_NAME", Some x.1); (str "REF", x.2)]) <$> k') → k = k') as Hj.
  { induction k as [|[n c] k IH]; intros [|[n' c'] k']; cbn; try done. intros [= -> -> Hk%IH]. by subst k'. }
  destruct l as [|x l], l' as [|x' l']; try done. apply Hj.
Qed.

Lemma hashed_components_inj g g' : hashed_components g = hashed_components g' → g = g'.
Proof.
  unfold hashed_components. intros [= Hh Happ]. apply app_inj_2 in Happ as [Hr%hashed_references_inj Ht]; [|done].
  destruct g, g'. cbn in *. congruence.
Qed.

Lemma same_files_references self w w' depth r :
  same_files w w' → reference_files self w' depth r = reference_files self w depth r.
Proof.
  intros Hs. revert r. induction depth as [|depth IH]; intros [name|]; cbn [reference_files]; [done..| |done].
  unfold reference_file. by rewrite -> (same_files_below _ _ _ _ Hs), IH.
Qed.

(** Once it succeeds, the loop over the references hashes them all. *)
Lemma follow_references_Ok self depth visited r w cs w' :
  from_option (λ n, components n = C_Normal <$> split_slash n) True r →
  follow_references self depth visited r w = (Ok cs, w') →
  cs = match reference_files self w depth r with
       | [] => if visited ==? [] then [(str "REF", None)] else []
       | l => mjoin ((λ x, [(str "REF_NAME", Some x.1); (str "REF", x.2)]) <$> l)
       end.
Proof.
  revert visited r w cs w'. induction depth as [|depth IH]; intros visited [name|] w cs w' Hr Hrun;
    cbn [follow_references reference_files] in *; try done.
  1,3: by injection Hrun as <- _.
  apply bind_lift_Ok in Hrun as (_ & _ & Hrun). cbv zeta in Hrun.
  apply (bind_keeps same_files) in Hrun as (found & w1 & Hf & Hw1 & Hrun); [|apply read_git_control_idle].
  apply (read_git_control_Ok _ _ _ _ _ _ _ _ Hr) in Hf as [Hf _]; [|done].
  rewrite -> (reference_directory_Ok _ _ Hr) in Hf. fold (reference_file self w name) in Hf.
  apply eff_bind_Ok in Hrun as (next & w2 & Hn & Hrun).
  assert (next = found ≫= points_to ∧ w2 = w1 ∧ from_option (λ n, components n = C_Normal <$> split_slash n) True next)
    as (Hnext & -> & Hvalid).
  { destruct found as [bs|]; [|by injection Hn as <- <-]. apply lift_Ok in Hn as [Hn ->]. cbn.
    rewrite -> (parse_points_to _ _ _ Hn). split_and!; [done..|]. destruct next as [x|]; [|done].
    apply parse_git_reference_Ok in Hn as (Hv & _). unfold is_valid_git_reference_name in Hv.
    apply andb_true_iff in Hv as [_ Hv]. by apply components_valid. }
  apply eff_bind_Ok in Hrun as (rest & w3 & Hrest & Hrun). injection Hrun as <- _. subst found next.
  destruct (reference_file self w name ≫= points_to) as [next|] eqn:Hp; cbn [mjoin list_join fmap list_fmap app];
    [|injection Hrest as <- _; by destruct depth].
  apply IH in Hrest as ->; [|done]. rewrite -> (same_files_references _ _ _ _ _ Hw1).
  destruct (reference_files self w depth (Some next)); [|done]. by rewrite -> bool_decide_false by (by destruct visited).
Qed.
Lemma ancestry_components_Ok self w cs w' :
  ancestry_components self w = (Ok cs, w') → Forall component_bounded cs ∧ cs = hashed_components (git_files self w).
Proof.
  intros Hrun. unfold ancestry_components in Hrun.
  apply (bind_keeps same_files) in Hrun as ([] & w1 & _ & Hw1 & Hrun); [|apply revalidate_worktree_idle].
  apply (bind_keeps same_files) in Hrun as ([] & w2 & _ & Hw2 & Hrun); [|apply ensure_files_reference_storage_idle].
  apply (bind_keeps same_files) in Hrun as ([] & w3 & _ & Hw3 & Hrun);
    [|case_match; [apply keeps_ret, _|apply ensure_files_reference_storage_idle]].
  apply (bind_keeps same_files) in Hrun as (h & w4 & Hh & Hw4 & Hrun); [|apply read_git_control_idle].
  apply bind_lift_Ok in Hrun as (head & ->%ok_or_Ok & Hrun). apply bind_lift_Ok in Hrun as (r & Hr & Hrun).
  apply (bind_keeps same_files) in Hrun as (refs & w5 & Hrefs & Hw5 & Hrun); [|apply follow_references_idle].
  apply (bind_keeps same_files) in Hrun as (packed & w6 & Hp & Hw6 & Hrun); [|apply read_git_control_idle].
  apply (bind_keeps same_files) in Hrun as (log & w7 & Hl & Hw7 & Hrun); [|apply read_git_control_idle].
  apply (bind_keeps same_files) in Hrun as (index & w8 & Hi & Hw8 & Hrun); [|apply read_git_control_idle].
  injection Hrun as <- _.
  apply (read_git_control_Ok _ _ [str "HEAD"]) in Hh as [Hh Bh]; [|done..].
  apply (read_git_control_Ok _ _ [str "packed-refs"]) in Hp as [Hp Bp]; [|done..].
  apply (read_git_control_Ok _ _ [str "logs"; str "HEAD"]) in Hl as [Hl Bl]; [|done..].
  apply (read_git_control_Ok _ _ [str "index"]) in Hi as [Hi Bi]; [|done..].
  assert (from_option (λ n, (len n ≤ 1024)%N ∧ components n = C_Normal <$> split_slash n) True r) as Hname.
  { destruct r as [x|]; [|done]. apply parse_git_reference_Ok in Hr as (Hv & _ & _ & Hlen).
    unfold is_valid_git_reference_name in Hv. apply andb_true_iff in Hv as [_ Hv]. cbn in *.
    split; [lia|by apply components_valid]. }
  split.
  - apply follow_references_bounded in Hrefs; [|by destruct r as [x|]; [apply Hname|]].
    apply Forall_cons. split; [by apply (component_bounded_le _ _ 1024)|].
    apply Forall_app. split; [done|]. repeat apply Forall_cons_2; [..|apply Forall_nil_2].
    + by apply (component_bounded_le _ _ MAX_GIT_CONTROL_BYTES).
    + by apply (component_bounded_le _ _ MAX_GIT_CONTROL_BYTES).
    + by apply (component_bounded_le _ _ MAX_GIT_INDEX_BYTES).
  - apply follow_references_Ok in Hrefs; [|by destruct r as [x|]; [apply Hname|]]. apply parse_points_to in Hr.
    assert (same_files w w3) as S3 by (etrans; [done|by etrans]). assert (same_files w w4) as S4 by by etrans.
    assert (same_files w w5) as S5 by by etrans. assert (same_files w w6) as S6 by by etrans.
    assert (same_files w w7) as S7 by by etrans.
    rewrite -> (same_files_below _ _ _ _ S3) in Hh. rewrite -> (same_files_below _ _ _ _ S5) in Hp.
    rewrite -> (same_files_below _ _ _ _ S6) in Hl. rewrite -> (same_files_below _ _ _ _ S7) in Hi.
    rewrite -> (same_files_references _ _ _ _ _ S4) in Hrefs.
    unfold hashed_components, git_files. cbn [gf_head gf_references gf_packed gf_log gf_index].
    rewrite <- Hh, <- Hp, <- Hl, <- Hi, Hrefs. cbn [mbind option_bind]. rewrite -> Hr.
    unfold hashed_references. by destruct (reference_files self w _ r).
Qed.

(** C22: the digest of Git's state binds it. Two runs that give the same digest, and
    whose preimages do not collide, are runs over the same files of Git, each of
    them whole: the same [HEAD], the same references from it on, by their names
    and by the contents of their files in the directory they belong to, the same
    packed references, log and index. The runs change nothing. *)
Theorem ancestry_digest_binds self w w' digest w1 w1' :
  repository_git_ancestry_digest self w = (Ok digest, w1) →
  repository_git_ancestry_digest self w' = (Ok digest, w1') →
  (∀ cs cs', (ancestry_components self w).1 = Ok cs → (ancestry_components self w').1 = Ok cs' →
    collision_free [ancestry_preimage cs; ancestry_preimage cs']) →
  git_files self w = git_files self w' ∧ (ancestry_components self w).1 = (ancestry_components self w').1 ∧
  same_files w w1 ∧ same_files w' w1'.
Proof.
  intros Hd Hd' Hcf. pose proof (keeps_run _ _ _ _ _ (git_ancestry_digest_idle self) Hd) as Hs.
  pose proof (keeps_run _ _ _ _ _ (git_ancestry_digest_idle self) Hd') as Hs'.
  apply eff_bind_Ok in Hd as (cs & w2 & Hcs & Hd). apply eff_bind_Ok in Hd' as (cs' & w2' & Hcs' & Hd').
  injection Hd as Hd _. injection Hd' as Hd' _. rewrite -> Hcs, Hcs' in Hcf |- *.
  assert (ancestry_preimage cs = ancestry_preimage cs') as Hp
    by (apply (Hcf cs cs'); [done|done|set_solver|set_solver|congruence]).
  apply ancestry_components_Ok in Hcs as [Hb Hcs]. apply ancestry_components_Ok in Hcs' as [Hb' Hcs'].
  apply ancestry_preimage_inj in Hp as <-; [|done..]. split_and!; [|done..].
  apply hashed_components_inj. congruence.
Qed.
End repository.
