(* ===== verification/Replay.v ===== *)
(** * Policy replay

    [crates/jury-core/src/policy/replay/core.rs], [operations.rs] and
    [signing.rs]: the twelve policy operations, key rotation, the check of the
    resulting state, replay of a signed journal, and the preparation of new
    journals and revisions. A function that mutates [&mut PolicyState] takes
    the state and returns it; on an error the caller drops the state. *)

From S2P Require Import Prelude VaultTypes Canonical Preimage Rollover Validate WitnessPolicy PolicyState Identifiers.
Local Open Scope jury_scope.

(** ** Assignments to fields of the state *)

Definition set_sequence (n : N) (s : PolicyState) : PolicyState :=
  {| ps_suite := ps_suite s; ps_vault_id := ps_vault_id s;
     ps_genesis_fingerprint := ps_genesis_fingerprint s; ps_sequence := n;
     ps_terminal_revision_hash := ps_terminal_revision_hash s;
     ps_revision_hashes := ps_revision_hashes s; ps_principals := ps_principals s;
     ps_historical_principal_descriptors := ps_historical_principal_descriptors s;
     ps_historical_principal_ids := ps_historical_principal_ids s;
     ps_historical_recipient_keys := ps_historical_recipient_keys s;
     ps_historical_verification_keys := ps_historical_verification_keys s;
     ps_owners := ps_owners s; ps_items := ps_items s;
     ps_historical_item_ids := ps_historical_item_ids s; ps_tombstones := ps_tombstones s;
     ps_witness_policies := ps_witness_policies s |}.

(** The terminal hash, which is also appended to the lineage. *)
Definition push_revision_hash (h : Digest32) (s : PolicyState) : PolicyState :=
  {| ps_suite := ps_suite s; ps_vault_id := ps_vault_id s;
     ps_genesis_fingerprint := ps_genesis_fingerprint s; ps_sequence := ps_sequence s;
     ps_terminal_revision_hash := h;
     ps_revision_hashes := ps_revision_hashes s ++ [h]; ps_principals := ps_principals s;
     ps_historical_principal_descriptors := ps_historical_principal_descriptors s;
     ps_historical_principal_ids := ps_historical_principal_ids s;
     ps_historical_recipient_keys := ps_historical_recipient_keys s;
     ps_historical_verification_keys := ps_historical_verification_keys s;
     ps_owners := ps_owners s; ps_items := ps_items s;
     ps_historical_item_ids := ps_historical_item_ids s; ps_tombstones := ps_tombstones s;
     ps_witness_policies := ps_witness_policies s |}.

Definition set_principals (m : gmap PrincipalId PrincipalPolicyState) (s : PolicyState) : PolicyState :=
  {| ps_suite := ps_suite s; ps_vault_id := ps_vault_id s;
     ps_genesis_fingerprint := ps_genesis_fingerprint s; ps_sequence := ps_sequence s;
     ps_terminal_revision_hash := ps_terminal_revision_hash s;
     ps_revision_hashes := ps_revision_hashes s; ps_principals := m;
     ps_historical_principal_descriptors := ps_historical_principal_descriptors s;
     ps_historical_principal_ids := ps_historical_principal_ids s;
     ps_historical_recipient_keys := ps_historical_recipient_keys s;
     ps_historical_verification_keys := ps_historical_verification_keys s;
     ps_owners := ps_owners s; ps_items := ps_items s;
     ps_historical_item_ids := ps_historical_item_ids s; ps_tombstones := ps_tombstones s;
     ps_witness_policies := ps_witness_policies s |}.

(** Records a descriptor's identifier and keys as used. *)
Definition record_descriptor (d : PrincipalDescriptorV1) (s : PolicyState) : PolicyState :=
  {| ps_suite := ps_suite s; ps_vault_id := ps_vault_id s;
     ps_genesis_fingerprint := ps_genesis_fingerprint s; ps_sequence := ps_sequence s;
     ps_terminal_revision_hash := ps_terminal_revision_hash s;
     ps_revision_hashes := ps_revision_hashes s; ps_principals := ps_principals s;
     ps_historical_principal_descriptors :=
       <[pd_principal_id d := d]> (ps_historical_principal_descriptors s);
     ps_historical_principal_ids := {[pd_principal_id d]} ∪ ps_historical_principal_ids s;
     ps_historical_recipient_keys :=
       set_insert (pd_recipient_public_key d) (ps_historical_recipient_keys s);
     ps_historical_verification_keys :=
       {[pd_verification_public_key d]} ∪ ps_historical_verification_keys s;
     ps_owners := ps_owners s; ps_items := ps_items s;
     ps_historical_item_ids := ps_historical_item_ids s; ps_tombstones := ps_tombstones s;
     ps_witness_policies := ps_witness_policies s |}.

Definition set_owners (o : gset PrincipalId) (s : PolicyState) : PolicyState :=
  {| ps_suite := ps_suite s; ps_vault_id := ps_vault_id s;
     ps_genesis_fingerprint := ps_genesis_fingerprint s; ps_sequence := ps_sequence s;
     ps_terminal_revision_hash := ps_terminal_revision_hash s;
     ps_revision_hashes := ps_revision_hashes s; ps_principals := ps_principals s;
     ps_historical_principal_descriptors := ps_historical_principal_descriptors s;
     ps_historical_principal_ids := ps_historical_principal_ids s;
     ps_historical_recipient_keys := ps_historical_recipient_keys s;
     ps_historical_verification_keys := ps_historical_verification_keys s;
     ps_owners := o; ps_items := ps_items s;
     ps_historical_item_ids := ps_historical_item_ids s; ps_tombstones := ps_tombstones s;
     ps_witness_policies := ps_witness_policies s |}.

(** The item records: live items, used identifiers, tombstones. *)
Definition set_items (m : gmap ItemId ItemPolicyState) (used : gset ItemId)
    (t : gmap ItemId TombstoneState) (s : PolicyState) : PolicyState :=
  {| ps_suite := ps_suite s; ps_vault_id := ps_vault_id s;
     ps_genesis_fingerprint := ps_genesis_fingerprint s; ps_sequence := ps_sequence s;
     ps_terminal_revision_hash := ps_terminal_revision_hash s;
     ps_revision_hashes := ps_revision_hashes s; ps_principals := ps_principals s;
     ps_historical_principal_descriptors := ps_historical_principal_descriptors s;
     ps_historical_principal_ids := ps_historical_principal_ids s;
     ps_historical_recipient_keys := ps_historical_recipient_keys s;
     ps_historical_verification_keys := ps_historical_verification_keys s;
     ps_owners := ps_owners s; ps_items := m;
     ps_historical_item_ids := used; ps_tombstones := t;
     ps_witness_policies := ps_witness_policies s |}.

Definition put_item (item_id : ItemId) (item : ItemPolicyState) (s : PolicyState) : PolicyState :=
  set_items (<[item_id := item]> (ps_items s)) (ps_historical_item_ids s) (ps_tombstones s) s.

Definition set_grants (g : gmap PrincipalId AccessRole) (item : ItemPolicyState) : ItemPolicyState :=
  {| it_item_kind := it_item_kind item; it_key_epoch := it_key_epoch item;
     it_descriptor := it_descriptor item;
     it_current_item_revision_hash := it_current_item_revision_hash item;
     it_grants := g; it_direct_slots := it_direct_slots item;
     it_witnessed_state := it_witnessed_state item |}.

(** [item.descriptor = d; item.current_item_revision_hash = h] *)
Definition set_descriptor (d : DescriptorMetadataV1) (h : Digest32) (item : ItemPolicyState)
    : ItemPolicyState :=
  {| it_item_kind := it_item_kind item; it_key_epoch := it_key_epoch item;
     it_descriptor := d; it_current_item_revision_hash := h;
     it_grants := it_grants item; it_direct_slots := it_direct_slots item;
     it_witnessed_state := it_witnessed_state item |}.

Definition set_slots (epoch : N) (direct : list DirectSlotV1) (witnessed : option WitnessedStateV1)
    (item : ItemPolicyState) : ItemPolicyState :=
  {| it_item_kind := it_item_kind item; it_key_epoch := epoch;
     it_descriptor := it_descriptor item;
     it_current_item_revision_hash := it_current_item_revision_hash item;
     it_grants := it_grants item; it_direct_slots := direct;
     it_witnessed_state := witnessed |}.

(** ** Operation keys *)

Inductive OperationKey :=
  | OK_Principal (tag : N) (principal_id : PrincipalId)
  | OK_Item (tag : N) (item_id : ItemId)
  | OK_ItemPrincipal (tag : N) (item_id : ItemId) (principal_id : PrincipalId).

Global Instance OperationKey_eq_dec : EqDecision OperationKey.
Proof. solve_decision. Defined.

Global Instance OperationKey_countable : Countable OperationKey.
Proof.
  refine (inj_countable'
    (λ k, match k with
          | OK_Principal t p => inl (t, p)
          | OK_Item t i => inr (inl (t, i))
          | OK_ItemPrincipal t i p => inr (inr (t, i, p))
          end)
    (λ x, match x with
          | inl (t, p) => OK_Principal t p
          | inr (inl (t, i)) => OK_Item t i
          | inr (inr (t, i, p)) => OK_ItemPrincipal t i p
          end) _).
  by intros [].
Defined.

Definition operation_key (operation : PolicyOperationV1) : OperationKey :=
  match operation with
  | PrincipalAdd descriptor _ _ => OK_Principal 1 (pd_principal_id descriptor)
  | PrincipalLabelChange principal_id _ _ => OK_Principal 2 principal_id
  | PrincipalRemove principal_id _ => OK_Principal 3 principal_id
  | OwnerGrant principal_id => OK_Principal 4 principal_id
  | OwnerRevoke principal_id => OK_Principal 5 principal_id
  | ItemCreate item_id _ _ _ _ _ _ => OK_Item 6 item_id
  | ItemRename item_id _ _ => OK_Item 7 item_id
  | ItemDelete item_id _ _ _ => OK_Item 8 item_id
  | ItemRoleChange item_id principal_id _ _ => OK_ItemPrincipal 9 item_id principal_id
  | ItemReaderSetChange item_id _ _ _ _ _ _ => OK_Item 10 item_id
  | ItemSlotsReplace item_id _ _ _ => OK_Item 11 item_id
  | PrincipalReplace prior_principal_id _ _ => OK_Principal 12 prior_principal_id
  end.

(** ** Operations on items *)

Definition grants_step (grants : gmap PrincipalId AccessRole) (slot : DirectSlotV1)
    : result PolicyErrorKind (gmap PrincipalId AccessRole) :=
  if ds_access_role slot !=? AR_Owner then
    reject_if (differs (grants !! ds_recipient_principal_id slot) (ds_access_role slot)) InvalidRole;;
    Ok (<[ds_recipient_principal_id slot := ds_access_role slot]> grants)
  else Ok grants.

Definition create_item (state : PolicyState) (item_id : ItemId) (item_kind : ItemKind)
    (key_epoch : N) (descriptor : DescriptorMetadataV1) (current_hash : Digest32)
    (direct_slots : list DirectSlotV1) (witnessed_state : option WitnessedStateV1)
    : result PolicyErrorKind PolicyState :=
  reject_if (item_id ∈? ps_historical_item_ids state) IdentifierReused;;
  grants ← foldE grants_step ∅ direct_slots;
  Ok (set_items
        (<[item_id := {|
           it_item_kind := item_kind;
           it_key_epoch := key_epoch;
           it_descriptor := descriptor;
           it_current_item_revision_hash := current_hash;
           it_grants := grants;
           it_direct_slots := direct_slots;
           it_witnessed_state := witnessed_state |}]> (ps_items state))
        ({[item_id]} ∪ ps_historical_item_ids state) (ps_tombstones state) state).

Definition rename_item (state : PolicyState) (item_id : ItemId) (prior_descriptor_revision : N)
    (next_descriptor : DescriptorMetadataV1) : result PolicyErrorKind PolicyState :=
  item ← ok_or (ps_items state !! item_id) UnknownItem;
  reject_if
    ((dm_revision (it_descriptor item) !=? prior_descriptor_revision) ||
     (dm_key_epoch next_descriptor !=? it_key_epoch item)) InvalidTransition;;
  Ok (put_item item_id (set_descriptor next_descriptor (it_current_item_revision_hash item) item)
        state).

Definition delete_item (state : PolicyState) (item_id : ItemId)
    (descriptor_digest revision_hash : Digest32) (sequence : N)
    : result PolicyErrorKind PolicyState :=
  item ← ok_or (ps_items state !! item_id) UnknownItem;
  reject_if
    ((dm_ciphertext_digest (it_descriptor item) !=? descriptor_digest) ||
     (it_current_item_revision_hash item !=? revision_hash)) InvalidTransition;;
  Ok (set_items (delete item_id (ps_items state)) (ps_historical_item_ids state)
        (<[item_id := {|
           ts_deletion_policy_sequence := sequence;
           ts_final_descriptor_digest := descriptor_digest;
           ts_final_item_revision_hash := revision_hash |}]> (ps_tombstones state)) state).

Definition is_human_or_machine (k : PrincipalKind) : bool :=
  match k with PK_Human | PK_Machine => true | _ => false end.

Definition change_role (state : PolicyState) (item_id : ItemId) (principal_id : PrincipalId)
    (prior_role next_role : option AccessRole) : result PolicyErrorKind PolicyState :=
  principal ← ok_or (ps_principals state !! principal_id) UnknownPrincipal;
  reject_if
    (negb (is_human_or_machine (pd_principal_kind (pp_descriptor principal))) ||
     (principal_id ∈? ps_owners state) ||
     (prior_role ==? Some AR_Owner) ||
     (next_role ==? Some AR_Owner)) InvalidRole;;
  item ← ok_or (ps_items state !! item_id) UnknownItem;
  reject_if ((it_grants item !! principal_id) !=? prior_role) InvalidTransition;;
  match next_role with
  | Some AR_Owner => Err InvalidRole
  | Some role => Ok (put_item item_id (set_grants (<[principal_id := role]> (it_grants item)) item) state)
  | None => Ok (put_item item_id (set_grants (delete principal_id (it_grants item)) item) state)
  end.

(** ** Operations on principals *)

Section with_crypto.
Context `{Crypto}.

(** [validate_descriptor] of [replay/operations.rs] *)
Definition replay_validate_descriptor (descriptor : PrincipalDescriptorV1)
    : result PolicyErrorKind unit :=
  reject_if (pd_descriptor_version descriptor !=? 1%N) InvalidFormat;;
  check_signature (pd_verification_public_key descriptor) (self_signature_preimage descriptor)
    (pd_self_signature descriptor).

(** The identifier or a key of the descriptor was used before. *)
Definition descriptor_reused (state : PolicyState) (d : PrincipalDescriptorV1) : bool :=
  (pd_principal_id d ∈? ps_historical_principal_ids state) ||
  (pd_recipient_public_key d ∈? ps_historical_recipient_keys state) ||
  (pd_verification_public_key d ∈? ps_historical_verification_keys state).

Definition add_principal (state : PolicyState) (descriptor : PrincipalDescriptorV1)
    (display_label : bytes) : result PolicyErrorKind PolicyState :=
  replay_validate_descriptor descriptor;;
  reject_if ((display_label ==? []) || (MAX_PUBLIC_LABEL_BYTES <? len display_label)%N)
    InvalidTransition;;
  reject_if (descriptor_reused state descriptor) IdentifierReused;;
  let state := record_descriptor descriptor state in
  Ok (set_principals
        (<[pd_principal_id descriptor := {|
           pp_descriptor := descriptor; pp_display_label := display_label |}]>
         (ps_principals state)) state).

Definition change_label (state : PolicyState) (principal_id : PrincipalId)
    (prior_label next_label : bytes) : result PolicyErrorKind PolicyState :=
  principal ← ok_or (ps_principals state !! principal_id) UnknownPrincipal;
  reject_if
    ((pp_display_label principal !=? prior_label) ||
     (next_label ==? []) ||
     (MAX_PUBLIC_LABEL_BYTES <? len next_label)%N ||
     (prior_label ==? next_label)) InvalidTransition;;
  Ok (set_principals
        (<[principal_id := {|
           pp_descriptor := pp_descriptor principal; pp_display_label := next_label |}]>
         (ps_principals state)) state).

Definition remove_principal (state : PolicyState) (principal_id : PrincipalId)
    : result PolicyErrorKind PolicyState :=
  reject_if (principal_id ∈? ps_owners state) InvalidRole;;
  reject_if (existsb (λ item, is_some (it_grants item !! principal_id)) (values (ps_items state)))
    InvalidTransition;;
  ok_or (ps_principals state !! principal_id) UnknownPrincipal;;
  Ok (set_principals (delete principal_id (ps_principals state)) state).

Definition grant_owner (state : PolicyState) (principal_id : PrincipalId)
    : result PolicyErrorKind PolicyState :=
  principal ← ok_or (ps_principals state !! principal_id) UnknownPrincipal;
  reject_if
    ((pd_principal_kind (pp_descriptor principal) !=? PK_Human) ||
     (principal_id ∈? ps_owners state)) InvalidRole;;
  Ok (set_owners ({[principal_id]} ∪ ps_owners state) state).

Definition revoke_owner (state : PolicyState) (principal_id : PrincipalId)
    : result PolicyErrorKind PolicyState :=
  reject_if (principal_id ∉? ps_owners state) InvalidRole;;
  let owners := ps_owners state ∖ {[principal_id]} in
  reject_if (owners ==? ∅) SoleOwner;;
  Ok (set_owners owners state).

Definition move_grant (prior_id next_id : PrincipalId) (item : ItemPolicyState) : ItemPolicyState :=
  match it_grants item !! prior_id with
  | Some role => set_grants (<[next_id := role]> (delete prior_id (it_grants item))) item
  | None => item
  end.

Definition replace_principal (state : PolicyState) (prior_id : PrincipalId)
    (next_descriptor : PrincipalDescriptorV1) : result PolicyErrorKind PolicyState :=
  replay_validate_descriptor next_descriptor;;
  prior ← ok_or (ps_principals state !! prior_id) UnknownPrincipal;
  reject_if (pd_principal_kind (pp_descriptor prior) !=? pd_principal_kind next_descriptor)
    InvalidRole;;
  reject_if (descriptor_reused state next_descriptor) IdentifierReused;;
  let next_id := pd_principal_id next_descriptor in
  let state := set_principals
    (<[next_id := {| pp_descriptor := next_descriptor; pp_display_label := pp_display_label prior |}]>
     (delete prior_id (ps_principals state))) state in
  let state := record_descriptor next_descriptor state in
  let state := if prior_id ∈? ps_owners state
               then set_owners ({[next_id]} ∪ (ps_owners state ∖ {[prior_id]})) state
               else state in
  Ok (set_items (move_grant prior_id next_id <$> ps_items state) (ps_historical_item_ids state)
        (ps_tombstones state) state).

(** ** Key rotation *)

Record ReaderRotation := {
  rr_prior_epoch : N;
  rr_next_epoch : N;
  rr_prior_reader_ids : list PrincipalId;
  rr_next_reader_ids : list PrincipalId;
  rr_replacement_descriptor : DescriptorMetadataV1;
  rr_replacement_current_item_revision_hash : Digest32;
}.

Record SlotRotation := {
  sl_next_epoch : N;
  sl_direct_slots : list DirectSlotV1;
  sl_witnessed_state : option WitnessedStateV1;
}.

Definition apply_reader_rotation (current_epoch expected_epoch : N)
    (prior_readers next_readers : list PrincipalId) (item_id : ItemId)
    (rotation : option ReaderRotation) (next : PolicyState) : result PolicyErrorKind PolicyState :=
  match rotation with
  | None => Ok next
  | Some rotation =>
      reject_if
        ((rr_prior_epoch rotation !=? current_epoch) ||
         (rr_next_epoch rotation !=? expected_epoch) ||
         (rr_prior_reader_ids rotation !=? prior_readers) ||
         (rr_next_reader_ids rotation !=? next_readers) ||
         (dm_key_epoch (rr_replacement_descriptor rotation) !=? expected_epoch))
        InvalidTransition;;
      item ← ok_or (ps_items next !! item_id) UnknownItem;
      Ok (put_item item_id
            (set_descriptor (rr_replacement_descriptor rotation)
               (rr_replacement_current_item_revision_hash rotation) item) next)
  end.

Definition apply_slot_rotation (expected_epoch : N) (readers_changed : bool) (item_id : ItemId)
    (rotation : option SlotRotation) (next : PolicyState) : result PolicyErrorKind PolicyState :=
  match rotation with
  | None => Ok next
  | Some rotation =>
      reject_if (sl_next_epoch rotation !=? expected_epoch) InvalidTransition;;
      item ← ok_or (ps_items next !! item_id) UnknownItem;
      reject_if
        (negb readers_changed &&
         (it_direct_slots item ==? sl_direct_slots rotation) &&
         (it_witnessed_state item ==? sl_witnessed_state rotation)) InvalidTransition;;
      reject_if (dm_key_epoch (it_descriptor item) !=? expected_epoch) IncompleteRotation;;
      Ok (put_item item_id
            (set_slots expected_epoch (sl_direct_slots rotation) (sl_witnessed_state rotation) item)
            next)
  end.

Abbreviation rotations := (gmap ItemId ReaderRotation * gmap ItemId SlotRotation)%type.

(** One turn of the loop over the items of both states. *)
Definition rotation_step (prior : PolicyState) (st : PolicyState * rotations) (item_id : ItemId)
    : result PolicyErrorKind (PolicyState * rotations) :=
  let '(next, (readers, slots)) := st in
  let prior_readers := effective_reader_ids prior item_id in
  let next_readers := effective_reader_ids next item_id in
  let readers_changed := prior_readers !=? next_readers in
  let reader_rotation := readers !! item_id in
  let slot_rotation := slots !! item_id in
  reject_if
    (readers_changed && (negb (is_some reader_rotation) || negb (is_some slot_rotation)))
    IncompleteRotation;;
  reject_if (is_some reader_rotation && negb (is_some slot_rotation)) IncompleteRotation;;
  prior_item ← ok_or (ps_items prior !! item_id) UnknownItem;
  let current_epoch := it_key_epoch prior_item in
  expected_epoch ← ok_or (checked_add_u64 current_epoch 1) CapacityExhausted;
  next ← apply_reader_rotation current_epoch expected_epoch prior_readers next_readers item_id
           reader_rotation next;
  next ← apply_slot_rotation expected_epoch readers_changed item_id slot_rotation next;
  Ok (next, (delete item_id readers, delete item_id slots)).

Definition apply_rotations (prior next : PolicyState) (readers : gmap ItemId ReaderRotation)
    (slots : gmap ItemId SlotRotation) : result PolicyErrorKind PolicyState :=
  let common_items :=
    List.filter (λ item_id, is_some (ps_items next !! item_id)) (keys (ps_items prior)) in
  st ← foldE (rotation_step prior) (next, (readers, slots)) common_items;
  let '(next, (readers, slots)) := st in
  reject_if (match map_to_list readers with [] => false | _ => true end ||
             match map_to_list slots with [] => false | _ => true end) UnknownItem;;
  Ok next.

(** ** The check of the resulting state *)

Definition grant_check (state : PolicyState) (g : PrincipalId * AccessRole)
    : result PolicyErrorKind unit :=
  let '(principal_id, role) := g in
  principal ← ok_or (ps_principals state !! principal_id) UnknownPrincipal;
  reject_if
    (negb (is_human_or_machine (pd_principal_kind (pp_descriptor principal))) ||
     (role ==? AR_Owner)) InvalidRole.

Definition slot_role_is_current (effective : option AccessRole) (slot_role : AccessRole) : bool :=
  (effective ==? Some slot_role) ||
  match effective, slot_role with
  | Some AR_Reader, AR_Reader | Some AR_Reader, AR_Writer
  | Some AR_Writer, AR_Reader | Some AR_Writer, AR_Writer => true
  | _, _ => false
  end.

Definition direct_slot_check (state : PolicyState) (item_id : ItemId) (item : ItemPolicyState)
    (mode : ItemAccessMode) (slot : DirectSlotV1) : result PolicyErrorKind unit :=
  principal ← ok_or (ps_principals state !! ds_recipient_principal_id slot) UnknownPrincipal;
  let effective := effective_role state item_id (ds_recipient_principal_id slot) in
  reject_if
    (negb (is_human_or_machine (pd_principal_kind (pp_descriptor principal))) ||
     negb (slot_role_is_current effective (ds_access_role slot)) ||
     (ds_recipient_public_key_fingerprint slot !=?
      recipient_public_key_fingerprint (pd_recipient_public_key (pp_descriptor principal))) ||
     (ds_item_access_mode slot !=? mode) ||
     (ds_key_epoch slot !=? it_key_epoch item) ||
     (ds_policy_sequence slot ==? 0%N) ||
     (ps_sequence state <? ds_policy_sequence slot)%N) InvalidRole.

Definition witnessed_slot_check (state : PolicyState) (item : ItemPolicyState)
    (mode : ItemAccessMode) (first slot : WitnessedSlotV1) : result PolicyErrorKind unit :=
  reject_if
    ((ws_item_access_mode slot !=? mode) ||
     (ws_key_epoch slot !=? it_key_epoch item) ||
     (ws_vault_policy_sequence slot ==? 0%N) ||
     (ps_sequence state <? ws_vault_policy_sequence slot)%N ||
     (ws_threshold slot !=? ws_threshold first) ||
     (ws_witness_policy_id slot !=? ws_witness_policy_id first) ||
     (ws_witness_policy_revision slot !=? ws_witness_policy_revision first) ||
     (ws_witness_policy_digest slot !=? ws_witness_policy_digest first) ||
     ((wc_witness_id <$> ws_capsules slot) !=? (wc_witness_id <$> ws_capsules first)))
    InvalidTransition.

Definition item_check (state : PolicyState) (e : ItemId * ItemPolicyState)
    : result PolicyErrorKind unit :=
  let '(item_id, item) := e in
  mode ← ok_or (access_mode item) InvalidTransition;
  forE (grant_check state) (entries (it_grants item));;
  forE (direct_slot_check state item_id item mode) (it_direct_slots item);;
  match it_witnessed_state item with
  | None => Ok tt
  | Some witnessed =>
      first ← ok_or (head (wst_slots witnessed)) InvalidFormat;
      forE (witnessed_slot_check state item mode first) (wst_slots witnessed);;
      forE (λ witness_id, reject_if (negb (has_kind state PK_Witness witness_id)) InvalidRole)
        (wc_witness_id <$> ws_capsules first);;
      validate_item_policy_binding state item_id witnessed
  end.

Definition validate_complete_state (state : PolicyState) : result PolicyErrorKind unit :=
  reject_if
    ((ps_owners state ==? ∅) ||
     existsb (λ owner, negb (has_kind state PK_Human owner)) (sorted_elements (ps_owners state)))
    SoleOwner;;
  forE (item_check state) (entries (ps_items state)).

(** The slots a recipient holds: their number and the content roles. *)
Definition coverage_step (coverage : gmap PrincipalId (N * bool * bool)) (slot : DirectSlotV1)
    : gmap PrincipalId (N * bool * bool) :=
  let '(n, d, b) := default (0%N, false, false) (coverage !! ds_recipient_principal_id slot) in
  <[ds_recipient_principal_id slot :=
    (saturating_add_u8 n 1, d || (ds_content_role slot ==? CR_Descriptor),
     b || (ds_content_role slot ==? CR_Body))]> coverage.

Definition owner_slots_check (state : PolicyState) (item : ItemPolicyState)
    : result PolicyErrorKind unit :=
  mode ← ok_or (access_mode item) InvalidTransition;
  if mode ==? AM_WitnessedOnly then Ok tt
  else
    let coverage := fold_left coverage_step (it_direct_slots item) ∅ in
    reject_if
      (existsb (λ owner_id, (coverage !! owner_id) !=? Some (2%N, true, true))
         (sorted_elements (ps_owners state))) IncompleteRotation.

Definition validate_complete_owner_slots (state : PolicyState) : result PolicyErrorKind unit :=
  forE (owner_slots_check state) (values (ps_items state)).

(** ** Applying the operations of a revision *)

Record op_scan := {
  os_next : PolicyState;
  os_readers : gmap ItemId ReaderRotation;
  os_slots : gmap ItemId SlotRotation;
  os_keys : gset OperationKey;
}.

Definition wrong_suite (suite : N) (operation : PolicyOperationV1) : bool :=
  match operation_slots operation with
  | None => false
  | Some (direct_slots, witnessed_state) =>
      existsb (λ slot, ds_suite slot !=? suite) direct_slots ||
      match witnessed_state with
      | Some state => existsb (λ slot, ws_suite slot !=? suite) (wst_slots state)
      | None => false
      end
  end.

(** The effect of an operation on the state; the two rotation operations only
    record what [apply_rotations] will do. *)
Definition apply_operation (next : PolicyState) (operation : PolicyOperationV1)
    : result PolicyErrorKind PolicyState :=
  match operation with
  | PrincipalAdd descriptor display_label _ => add_principal next descriptor display_label
  | PrincipalLabelChange principal_id prior_label next_label =>
      change_label next principal_id prior_label next_label
  | PrincipalRemove principal_id _ => remove_principal next principal_id
  | OwnerGrant principal_id => grant_owner next principal_id
  | OwnerRevoke principal_id => revoke_owner next principal_id
  | ItemCreate item_id item_kind key_epoch descriptor current_item_revision_hash direct_slots
      witnessed_state =>
      create_item next item_id item_kind key_epoch descriptor current_item_revision_hash
        direct_slots witnessed_state
  | ItemRename item_id prior_descriptor_revision next_descriptor =>
      rename_item next item_id prior_descriptor_revision next_descriptor
  | ItemDelete item_id final_descriptor_digest final_item_revision_hash deletion_policy_sequence =>
      delete_item next item_id final_descriptor_digest final_item_revision_hash
        deletion_policy_sequence
  | ItemRoleChange item_id principal_id prior_role next_role =>
      change_role next item_id principal_id prior_role next_role
  | ItemReaderSetChange _ _ _ _ _ _ _ => Ok next
  | ItemSlotsReplace _ _ _ _ => Ok next
  | PrincipalReplace prior_principal_id next_descriptor _ =>
      replace_principal next prior_principal_id next_descriptor
  end.

Definition record_readers (readers : gmap ItemId ReaderRotation) (operation : PolicyOperationV1)
    : gmap ItemId ReaderRotation :=
  match operation with
  | ItemReaderSetChange item_id prior_epoch next_epoch prior_reader_ids next_reader_ids
      replacement_descriptor replacement_current_item_revision_hash =>
      <[item_id := {|
        rr_prior_epoch := prior_epoch;
        rr_next_epoch := next_epoch;
        rr_prior_reader_ids := prior_reader_ids;
        rr_next_reader_ids := next_reader_ids;
        rr_replacement_descriptor := replacement_descriptor;
        rr_replacement_current_item_revision_hash := replacement_current_item_revision_hash |}]>
      readers
  | _ => readers
  end.

Definition record_slots (slots : gmap ItemId SlotRotation) (operation : PolicyOperationV1)
    : gmap ItemId SlotRotation :=
  match operation with
  | ItemSlotsReplace item_id next_epoch direct_slots witnessed_state =>
      <[item_id := {|
        sl_next_epoch := next_epoch;
        sl_direct_slots := direct_slots;
        sl_witnessed_state := witnessed_state |}]> slots
  | _ => slots
  end.

Definition operation_step (prior : PolicyState) (sequence : N) (st : op_scan)
    (operation : PolicyOperationV1) : result PolicyErrorKind op_scan :=
  reject_if (wrong_suite (ps_suite prior) operation) InvalidFormat;;
  map_err (λ _, InvalidFormat)
    (validate_operation operation sequence (ps_vault_id prior) (ps_genesis_fingerprint prior));;
  reject_if (operation_key operation ∈? os_keys st) AmbiguousMutation;;
  next ← apply_operation (os_next st) operation;
  Ok {| os_next := next;
        os_readers := record_readers (os_readers st) operation;
        os_slots := record_slots (os_slots st) operation;
        os_keys := {[operation_key operation]} ∪ os_keys st |}.

Definition apply_operations (prior : PolicyState) (sequence : N)
    (operations : list PolicyOperationV1) : result PolicyErrorKind PolicyState :=
  reject_if (match operations with [] => true | _ => false end) InvalidTransition;;
  st ← foldE (operation_step prior sequence)
         {| os_next := set_sequence sequence prior; os_readers := ∅; os_slots := ∅; os_keys := ∅ |}
         operations;
  next ← apply_rotations prior (os_next st) (os_readers st) (os_slots st);
  validate_complete_state next;;
  reject_if (MAX_ITEMS <? N.of_nat (size (ps_items next)))%N CapacityExhausted;;
  Ok next.

(** ** Replay of a journal *)

Definition genesis_state (genesis : PolicyGenesisV1) (genesis_fingerprint : Digest32)
    (witness_policies : gmap Digest32 WitnessPolicy) : PolicyState :=
  let owner := pg_owner genesis in
  let owner_id := pd_principal_id owner in
  {| ps_suite := pg_suite genesis;
     ps_vault_id := pg_vault_id genesis;
     ps_genesis_fingerprint := genesis_fingerprint;
     ps_sequence := 0;
     ps_terminal_revision_hash := genesis_fingerprint;
     ps_revision_hashes := [genesis_fingerprint];
     ps_principals := {[owner_id := {| pp_descriptor := owner; pp_display_label := str "owner" |}]};
     ps_historical_principal_descriptors := {[owner_id := owner]};
     ps_historical_principal_ids := {[owner_id]};
     ps_historical_recipient_keys := {[pd_recipient_public_key owner]};
     ps_historical_verification_keys := {[pd_verification_public_key owner]};
     ps_owners := {[owner_id]};
     ps_items := ∅;
     ps_historical_item_ids := ∅;
     ps_tombstones := ∅;
     ps_witness_policies := witness_policies |}.

Definition replay_genesis (journal : PolicyJournalV1)
    (witness_policies : gmap Digest32 WitnessPolicy) : result PolicyErrorKind PolicyState :=
  let genesis := pj_genesis journal in
  reject_if
    ((pg_policy_sequence genesis !=? 0%N) ||
     (pg_previous_policy_hash genesis !=? ZERO_DIGEST) ||
     negb ((pg_suite genesis ==? 1%N) || (pg_suite genesis ==? 2%N)) ||
     (pd_principal_kind (pg_owner genesis) !=? PK_Human) ||
     negb (match pg_item_inventory genesis with [] => true | _ => false end) ||
     negb (match pg_direct_grants genesis with [] => true | _ => false end) ||
     (MAX_POLICY_REVISIONS <? len (pj_revisions journal))%N) InvalidFormat;;
  replay_validate_descriptor (pg_owner genesis);;
  preimage ← map_err (λ _, InvalidFormat) (PolicyGenesisV1_signature_preimage genesis);
  check_signature (pd_verification_public_key (pg_owner genesis)) preimage
    (pg_owner_signature genesis);;
  fingerprint ← map_err (λ _, InvalidFormat) (PolicyGenesisV1_recomputed_fingerprint genesis);
  Ok (genesis_state genesis fingerprint witness_policies).

Record replay_scan := {
  rs_index : N;
  rs_state : PolicyState;
  rs_prior_timestamp : N;
}.

Definition replay_step (genesis : PolicyGenesisV1) (st : replay_scan)
    (revision : SignedPolicyRevisionV1) : result PolicyErrorKind replay_scan :=
  let state := rs_state st in
  let sequence := (rs_index st + 1)%N in
  let no_operations := match pr_operations revision with [] => true | _ => false end in
  reject_if
    ((pr_vault_id revision !=? ps_vault_id state) ||
     (pr_sequence revision !=? sequence) ||
     (pr_previous_revision_hash revision !=? ps_terminal_revision_hash state) ||
     (pr_timestamp_ms revision <? rs_prior_timestamp st)%N ||
     (no_operations &&
      negb ((rs_index st ==? 0%N) && permits_empty_rollover_bootstrap genesis)))
    InvalidAncestry;;
  reject_if (pr_author_principal_id revision ∉? ps_owners state) Unauthorized;;
  author ← ok_or (ps_principals state !! pr_author_principal_id revision) UnknownPrincipal;
  preimage ← map_err (λ _, InvalidFormat) (SignedPolicyRevisionV1_signature_preimage revision);
  check_signature (pd_verification_public_key (pp_descriptor author)) preimage
    (pr_signature revision);;
  next ← (if no_operations then Ok (set_sequence sequence state)
          else apply_operations state sequence (pr_operations revision));
  hash ← normalized_state_hash next;
  reject_if (hash !=? pr_resulting_policy_state_hash revision) StateHashMismatch;;
  validate_complete_owner_slots next;;
  terminal ← map_err (λ _, InvalidFormat) (SignedPolicyRevisionV1_recomputed_hash revision);
  Ok {| rs_index := sequence;
        rs_state := push_revision_hash terminal next;
        rs_prior_timestamp := pr_timestamp_ms revision |}.

Definition replay_policy_with_catalog (journal : PolicyJournalV1)
    (witness_policies : gmap Digest32 WitnessPolicy) : result PolicyErrorKind PolicyState :=
  state ← replay_genesis journal witness_policies;
  st ← foldE (replay_step (pj_genesis journal))
         {| rs_index := 0; rs_state := state;
            rs_prior_timestamp := pg_created_at_ms (pj_genesis journal) |}
         (pj_revisions journal);
  Ok (rs_state st).

Definition replay_policy (journal : PolicyJournalV1) : result PolicyErrorKind PolicyState :=
  replay_policy_with_catalog journal ∅.

Definition replay_policy_with_witness_policies (journal : PolicyJournalV1)
    (policies : list WitnessPolicy) : result PolicyErrorKind PolicyState :=
  catalog ← build_catalog policies;
  replay_policy_with_catalog journal catalog.

(** ** Preparing journals and revisions *)

(** [trait PolicySigner] *)
Class PolicySigner (S : Type) := {
  signer_principal_id : S → PrincipalId;
  signer_descriptor : S → result PolicyErrorKind PrincipalDescriptorV1;
  signer_sign : S → bytes → result PolicyErrorKind Signature64;
}.

Record PreparedPolicyRevision := {
  prep_revision : SignedPolicyRevisionV1;
  prep_state : PolicyState;
}.

Record CreatedPolicy := {
  cp_journal : PolicyJournalV1;
  cp_state : PolicyState;
}.

Definition set_revision_signature (signature : Signature64) (r : SignedPolicyRevisionV1)
    : SignedPolicyRevisionV1 :=
  {| pr_vault_id := pr_vault_id r;
     pr_sequence := pr_sequence r;
     pr_previous_revision_hash := pr_previous_revision_hash r;
     pr_timestamp_ms := pr_timestamp_ms r;
     pr_author_principal_id := pr_author_principal_id r;
     pr_operations := pr_operations r;
     pr_resulting_policy_state_hash := pr_resulting_policy_state_hash r;
     pr_signature := signature |}.

Definition prepare_with_signer {S} `{PolicySigner S} (state : PolicyState) (signer : S)
    (timestamp_ms : N) (operations : list PolicyOperationV1)
    : result PolicyErrorKind PreparedPolicyRevision :=
  let author_id := signer_principal_id signer in
  reject_if (author_id ∉? ps_owners state) Unauthorized;;
  active ← ok_or (ps_principals state !! author_id) UnknownPrincipal;
  descriptor ← signer_descriptor signer;
  reject_if (descriptor !=? pp_descriptor active) Unauthorized;;
  sequence ← ok_or (checked_add_u64 (ps_sequence state) 1) CapacityExhausted;
  reject_if (MAX_POLICY_REVISIONS <? sequence)%N CapacityExhausted;;
  next ← apply_operations state sequence operations;
  validate_complete_owner_slots next;;
  resulting_policy_state_hash ← normalized_state_hash next;
  let revision := {|
    pr_vault_id := ps_vault_id state;
    pr_sequence := sequence;
    pr_previous_revision_hash := ps_terminal_revision_hash state;
    pr_timestamp_ms := timestamp_ms;
    pr_author_principal_id := author_id;
    pr_operations := operations;
    pr_resulting_policy_state_hash := resulting_policy_state_hash;
    pr_signature := replicate 64 Byte.x00 |} in
  preimage ← map_err (λ _, InvalidFormat) (SignedPolicyRevisionV1_signature_preimage revision);
  signature ← signer_sign signer preimage;
  let revision := set_revision_signature signature revision in
  terminal ← map_err (λ _, InvalidFormat) (SignedPolicyRevisionV1_recomputed_hash revision);
  Ok {| prep_revision := revision; prep_state := push_revision_hash terminal next |}.

Definition map_identifier_error (e : IdentifierGenerationError) : PolicyErrorKind :=
  match e with
  | IG_EntropyUnavailable => EntropyUnavailable
  | IG_RetryExhausted => RetryExhausted
  end.

(** [PolicyCreator::create_with_signer]: the journal of a new vault, whose
    identifier is drawn from the random source. *)
Definition create_with_signer {S R} `{PolicySigner S, RandomSource R} (source : R)
    (suite : VaultSuite) (signer : S) (created_at_ms : N) (vault_is_known : VaultId → bool)
    : result PolicyErrorKind CreatedPolicy :=
  owner ← signer_descriptor signer;
  replay_validate_descriptor owner;;
  reject_if
    ((pd_principal_kind owner !=? PK_Human) ||
     (signer_principal_id signer !=? pd_principal_id owner)) InvalidRole;;
  vault_id ← map_err map_identifier_error (generate_identifier vault_is_known source).1;
  let genesis signature := {|
    pg_vault_id := vault_id;
    pg_policy_sequence := 0;
    pg_previous_policy_hash := ZERO_DIGEST;
    pg_created_at_ms := created_at_ms;
    pg_suite := VaultSuite_id suite;
    pg_owner := owner;
    pg_source_attestation := None;
    pg_item_inventory := [];
    pg_direct_grants := [];
    pg_owner_signature := signature |} in
  preimage ← map_err (λ _, InvalidFormat)
    (PolicyGenesisV1_signature_preimage (genesis (replicate 64 Byte.x00)));
  signature ← signer_sign signer preimage;
  let journal := {| pj_genesis := genesis signature; pj_revisions := [] |} in
  state ← replay_policy journal;
  Ok {| cp_journal := journal; cp_state := state |}.

(** [PolicyCreator::generate_item_id] *)
Definition generate_item_id {R} `{RandomSource R} (source : R) (state : PolicyState)
    : result PolicyErrorKind ItemId :=
  map_err map_identifier_error
    (generate_identifier (λ candidate, candidate ∈? ps_historical_item_ids state) source).1.
End with_crypto.
