(* ===== verification/ReplayRegistry.v ===== *)
(** * The registry of identifiers and keys

    Two facts about every operation: it keeps the registry of used identifiers
    and keys consistent ([registry]), and it only ever adds to the history
    ([extends]), so that no identifier, key or tombstone is forgotten. *)

From S2P Require Import Prelude VaultTypes Canonical Preimage Rollover Validate WitnessPolicy PolicyState Identifiers Replay.
Local Open Scope jury_scope.

(** ** Principals *)

Record principal_registry (s : PolicyState) : Prop := {
  reg_active : ∀ p v, ps_principals s !! p = Some v →
    ps_historical_principal_descriptors s !! p = Some (pp_descriptor v);
  reg_id : ∀ p d, ps_historical_principal_descriptors s !! p = Some d → pd_principal_id d = p;
  reg_ids : dom (ps_historical_principal_descriptors s) = ps_historical_principal_ids s;
  reg_recipient : ∀ p d, ps_historical_principal_descriptors s !! p = Some d →
    pd_recipient_public_key d ∈ ps_historical_recipient_keys s;
  reg_verification : ∀ p d, ps_historical_principal_descriptors s !! p = Some d →
    pd_verification_public_key d ∈ ps_historical_verification_keys s;
  reg_keys_distinct : ∀ p q d e,
    ps_historical_principal_descriptors s !! p = Some d →
    ps_historical_principal_descriptors s !! q = Some e →
    pd_verification_public_key d = pd_verification_public_key e ∨
    pd_recipient_public_key d = pd_recipient_public_key e → p = q;
}.

(** ** Items *)

Record item_registry (s : PolicyState) : Prop := {
  reg_items : dom (ps_items s) ⊆ ps_historical_item_ids s;
  reg_tombstones : dom (ps_tombstones s) ⊆ ps_historical_item_ids s;
  reg_disjoint : dom (ps_items s) ## dom (ps_tombstones s);
}.

Definition registry (s : PolicyState) : Prop := principal_registry s ∧ item_registry s.

(** ** Growth *)

Record extends (s s' : PolicyState) : Prop := {
  ext_suite : ps_suite s' = ps_suite s;
  ext_vault : ps_vault_id s' = ps_vault_id s;
  ext_genesis : ps_genesis_fingerprint s' = ps_genesis_fingerprint s;
  ext_catalog : ps_witness_policies s' = ps_witness_policies s;
  ext_hashes : ps_revision_hashes s `prefix_of` ps_revision_hashes s';
  ext_descriptors : ps_historical_principal_descriptors s ⊆ ps_historical_principal_descriptors s';
  ext_ids : ps_historical_principal_ids s ⊆ ps_historical_principal_ids s';
  ext_recipient : ps_historical_recipient_keys s ⊆ ps_historical_recipient_keys s';
  ext_verification : ps_historical_verification_keys s ⊆ ps_historical_verification_keys s';
  ext_item_ids : ps_historical_item_ids s ⊆ ps_historical_item_ids s';
  ext_tombstones : ps_tombstones s ⊆ ps_tombstones s';
}.

Global Instance extends_preorder : PreOrder extends.
Proof.
  split.
  - intros s. by split.
  - intros s1 s2 s3 [] []. split; etrans; done.
Qed.

(** The operations of this file keep the registry and extend the history. *)
Definition grows (s s' : PolicyState) : Prop := registry s → registry s' ∧ extends s s'.

Global Instance grows_preorder : PreOrder grows.
Proof.
  split.
  - intros s Hs. done.
  - intros s1 s2 s3 H12 H23 Hs. destruct (H12 Hs) as [H2 ?], (H23 H2) as [H3 ?].
    split; [done|by etrans].
Qed.

(** Assignments that leave the registry alone. *)
Lemma grows_same s s' :
  ps_suite s' = ps_suite s → ps_vault_id s' = ps_vault_id s →
  ps_genesis_fingerprint s' = ps_genesis_fingerprint s →
  ps_witness_policies s' = ps_witness_policies s →
  ps_revision_hashes s `prefix_of` ps_revision_hashes s' →
  ps_principals s' = ps_principals s →
  ps_historical_principal_descriptors s' = ps_historical_principal_descriptors s →
  ps_historical_principal_ids s' = ps_historical_principal_ids s →
  ps_historical_recipient_keys s' = ps_historical_recipient_keys s →
  ps_historical_verification_keys s' = ps_historical_verification_keys s →
  dom (ps_items s') = dom (ps_items s) →
  ps_historical_item_ids s' = ps_historical_item_ids s →
  ps_tombstones s' = ps_tombstones s → grows s s'.
Proof.
  intros Hs Hv Hg Hc Hh Hp Hd Hi Hr Hk Hit Hhi Ht [[] []].
  split; [split; split|split]; rw ?Hs ?Hv ?Hg ?Hc ?Hp ?Hd ?Hi ?Hr ?Hk ?Hit ?Hhi ?Ht; done.
Qed.

Lemma grows_set_sequence n s : grows s (set_sequence n s).
Proof. by apply grows_same. Qed.

Lemma grows_push_revision_hash h s : grows s (push_revision_hash h s).
Proof. apply grows_same; try done. by eexists. Qed.

Lemma grows_set_owners o s : grows s (set_owners o s).
Proof. by apply grows_same. Qed.

(** Replacing a live item. *)
Lemma grows_put_item id i j s : ps_items s !! id = Some i → grows s (put_item id j s).
Proof.
  intros Hi. apply grows_same; try done. cbn. rw dom_insert_L.
  apply elem_of_dom_2 in Hi. set_solver.
Qed.

Lemma grows_map_items f s :
  grows s (set_items (f <$> ps_items s) (ps_historical_item_ids s) (ps_tombstones s) s).
Proof. apply grows_same; try done. cbn. by rw dom_fmap_L. Qed.

(** Removing principals from, or relabelling them in, the active map. *)
Lemma grows_set_principals m s :
  (∀ p v, m !! p = Some v → ∃ w, ps_principals s !! p = Some w ∧ pp_descriptor w = pp_descriptor v) →
  grows s (set_principals m s).
Proof.
  intros Hm [[] []]. split; [|by split]. split; [|by split]. split; try done.
  cbn. intros p v (w & Hw & <-)%Hm. auto.
Qed.

(** Adding an unused descriptor. *)
Lemma grows_add_descriptor d label s :
  descriptor_reused s d = false →
  grows s (set_principals
    (<[pd_principal_id d := {| pp_descriptor := d; pp_display_label := label |}]>
      (ps_principals s)) (record_descriptor d s)).
Proof.
  unfold descriptor_reused. intros Hfresh [[Ha Hid Hids Hr Hv Hd] [Hi1 Hi2 Hi3]]. to_prop.
  assert (ps_historical_principal_descriptors s !! pd_principal_id d = None) as Hnone.
  { apply not_elem_of_dom. by rw Hids. }
  split; [split; [split|by split]|split]; cbn; rw ?set_insert_eq; try done; try apply union_subseteq_r.
  - intros p v. rw !lookup_insert_Some. naive_solver.
  - intros p e. rw lookup_insert_Some. naive_solver.
  - by rw dom_insert_L Hids.
  - intros p e. rw lookup_insert_Some. intros [[<- <-]|[_ He%Hr]]; apply elem_of_union; [left|by right].
    by apply elem_of_singleton.
  - intros p e. rw lookup_insert_Some. intros [[<- <-]|[_ He%Hv]]; apply elem_of_union; [left|by right].
    by apply elem_of_singleton.
  - intros p q e f. rw !lookup_insert_Some.
    intros [[<- <-]|[Hp He]] [[<- <-]|[Hq Hf]] Hk; [done|..|eauto].
    + apply Hr in Hf as Hf1. apply Hv in Hf as Hf2. destruct Hk as [Hk|Hk]; rw -Hk in Hf1 Hf2; done.
    + apply Hr in He as He1. apply Hv in He as He2. destruct Hk as [Hk|Hk]; rw Hk in He1 He2; done.
  - by apply insert_subseteq.
Qed.

(** ** Every operation grows *)

Section operations.
Context `{Crypto}.

Lemma add_principal_grows s d label s' : add_principal s d label = Ok s' → grows s s'.
Proof. unfold add_principal. intros Ha. repeat inv_ok_step. by apply (grows_add_descriptor d label s). Qed.

Lemma change_label_grows s p l1 l2 s' : change_label s p l1 l2 = Ok s' → grows s s'.
Proof.
  unfold change_label. intros Hc. repeat inv_ok_step. apply grows_set_principals.
  intros q v. rw lookup_insert_Some. intros [[<- <-]|[_ ?]]; eauto.
Qed.

Lemma remove_principal_grows s p s' : remove_principal s p = Ok s' → grows s s'.
Proof.
  unfold remove_principal. intros Hr. repeat inv_ok_step. apply grows_set_principals.
  intros q v [_ ?]%lookup_delete_Some. eauto.
Qed.

Lemma grant_owner_grows s p s' : grant_owner s p = Ok s' → grows s s'.
Proof. unfold grant_owner. intros Hg. repeat inv_ok_step. apply grows_set_owners. Qed.

Lemma revoke_owner_grows s p s' : revoke_owner s p = Ok s' → grows s s'.
Proof. unfold revoke_owner. intros Hg. repeat inv_ok_step. apply grows_set_owners. Qed.

Lemma create_item_grows s id k e d h sl w s' : create_item s id k e d h sl w = Ok s' → grows s s'.
Proof.
  unfold create_item. intros Hc. repeat inv_ok_step. to_prop. intros [[] [Hi Ht Hd]].
  split; [|by split; cbn; try done; apply union_subseteq_r]. split; [by split|].
  split; cbn; rw ?dom_insert_L; set_solver.
Qed.

Lemma rename_item_grows s id n d s' : rename_item s id n d = Ok s' → grows s s'.
Proof. unfold rename_item. intros Hr. repeat inv_ok_step. by eapply grows_put_item. Qed.

Lemma delete_item_grows s id d h n s' : delete_item s id d h n = Ok s' → grows s s'.
Proof.
  unfold delete_item. intros Hd. repeat inv_ok_step. intros [[] [Hi Ht Hdis]].
  match goal with H : ps_items s !! id = Some _ |- _ => apply elem_of_dom_2 in H end.
  split.
  - split; [by split|]. split; cbn; rw ?dom_delete_L ?dom_insert_L; set_solver.
  - split; cbn; try done. apply insert_subseteq, not_elem_of_dom. set_solver.
Qed.

Lemma change_role_grows s id p r1 r2 s' : change_role s id p r1 r2 = Ok s' → grows s s'.
Proof.
  unfold change_role. intros Hc. repeat inv_ok_step.
  destruct r2 as [[]|]; repeat inv_ok_step; by eapply grows_put_item.
Qed.

Lemma replace_principal_grows s p d s' : replace_principal s p d = Ok s' → grows s s'.
Proof.
  unfold replace_principal. intros Hr. repeat inv_ok_step.
  match goal with |- grows s (set_items _ _ _ ?m) => transitivity m; [|apply grows_map_items] end.
  match goal with |- grows s (if _ then set_owners _ ?m else _) =>
    transitivity m; [|case_match; [apply grows_set_owners|done]] end.
  transitivity (set_principals (delete p (ps_principals s)) s).
  - apply grows_set_principals. intros q v [_ ?]%lookup_delete_Some. eauto.
  - match goal with Hf : descriptor_reused s d = false |- _ =>
      exact (grows_add_descriptor d _ (set_principals (delete p (ps_principals s)) s) Hf) end.
Qed.

Lemma apply_operation_grows s op s' : apply_operation s op = Ok s' → grows s s'.
Proof.
  destruct op; cbn [apply_operation]; intros Ha;
    [by eapply add_principal_grows|by eapply change_label_grows|by eapply remove_principal_grows
    |by eapply grant_owner_grows|by eapply revoke_owner_grows|by eapply create_item_grows
    |by eapply rename_item_grows|by eapply delete_item_grows|by eapply change_role_grows
    |by inv_ok|by inv_ok|by eapply replace_principal_grows].
Qed.

Lemma apply_reader_rotation_grows c e r1 r2 id rot s s' :
  apply_reader_rotation c e r1 r2 id rot s = Ok s' → grows s s'.
Proof.
  destruct rot; cbn; intros Ha; repeat inv_ok_step; [by eapply grows_put_item|done].
Qed.

Lemma apply_slot_rotation_grows e c id rot s s' :
  apply_slot_rotation e c id rot s = Ok s' → grows s s'.
Proof.
  destruct rot; cbn; intros Ha; repeat inv_ok_step; [by eapply grows_put_item|done].
Qed.

Lemma rotation_step_grows prior st id st' :
  rotation_step prior st id = Ok st' → grows st.1 st'.1.
Proof.
  destruct st as [s [rs ss]]. cbn [rotation_step]. intros Hr. repeat inv_ok_step. cbn [fst].
  etrans; [by eapply apply_reader_rotation_grows|by eapply apply_slot_rotation_grows].
Qed.

Lemma apply_rotations_grows prior s rs ss s' : apply_rotations prior s rs ss = Ok s' → grows s s'.
Proof.
  unfold apply_rotations. intros Ha. apply bind_Ok in Ha as ([s1 [rs1 ss1]] & Hf & Ha).
  repeat inv_ok_step.
  eapply (foldE_preserves (λ st, grows s st.1)) in Hf; [done| |done].
  intros st id st' _ Hst Hstep. etrans; [exact Hst|by eapply rotation_step_grows].
Qed.

Lemma apply_operations_grows s n ops s' : apply_operations s n ops = Ok s' → grows s s'.
Proof.
  unfold apply_operations. intros Ha. repeat inv_ok_step.
  etrans; [|by eapply apply_rotations_grows].
  match goal with H : foldE _ _ _ = Ok _ |- _ =>
    eapply (foldE_preserves (λ st, grows s (os_next st))) in H; [done| |apply grows_set_sequence] end.
  intros st op st' _ Hst Hstep. unfold operation_step in Hstep. repeat inv_ok_step. cbn.
  etrans; [exact Hst|by eapply apply_operation_grows].
Qed.

Lemma replay_step_grows genesis st r st' :
  replay_step genesis st r = Ok st' → grows (rs_state st) (rs_state st').
Proof.
  unfold replay_step. intros Hr. repeat inv_ok_step. cbn [rs_state].
  etrans; [|apply grows_push_revision_hash].
  match goal with H : (if _ then Ok _ else _) = Ok _ |- _ => rename H into Hn end.
  case_match; repeat inv_ok_step; [apply grows_set_sequence|by eapply apply_operations_grows].
Qed.

Lemma genesis_registry genesis fp cat : registry (genesis_state genesis fp cat).
Proof.
  split; split; cbn; try set_solver.
  - intros p v. rw !lookup_singleton_Some. naive_solver.
  - intros p d. rw lookup_singleton_Some. naive_solver.
  - intros p d. rw lookup_singleton_Some. set_solver.
  - intros p d. rw lookup_singleton_Some. set_solver.
  - intros p q d e. rw !lookup_singleton_Some. naive_solver.
Qed.

Lemma replay_revisions_grow genesis revs st st' :
  foldE (replay_step genesis) st revs = Ok st' → grows (rs_state st) (rs_state st').
Proof.
  intros Hf. eapply (foldE_preserves (λ st1, grows (rs_state st) (rs_state st1))) in Hf; [done| |done].
  intros st1 r st2 _ H1 H2. etrans; [exact H1|by eapply replay_step_grows].
Qed.

Lemma replay_registry j cat s : replay_policy_with_catalog j cat = Ok s → registry s.
Proof.
  unfold replay_policy_with_catalog, replay_genesis. intros Hr. repeat inv_ok_step.
  match goal with H : foldE _ _ _ = Ok _ |- _ => apply replay_revisions_grow in H; apply H end.
  apply genesis_registry.
Qed.
End operations.
