(* ===== verification/ReplayState.v ===== *)
(** * What a checked state satisfies

    The consequences of [validate_complete_state] and
    [validate_complete_owner_slots], as propositions about the state. *)

From S2P Require Import Prelude VaultTypes Canonical Preimage Rollover Validate WitnessPolicy PolicyState Identifiers Replay.
Local Open Scope jury_scope.

Section complete.
Context `{Crypto}.

(** A direct slot held by a principal who may read the item now. *)
Record direct_slot_sound (s : PolicyState) (id : ItemId) (i : ItemPolicyState)
    (slot : DirectSlotV1) : Prop := {
  dss_principal : ∃ v, ps_principals s !! ds_recipient_principal_id slot = Some v ∧
    is_human_or_machine (pd_principal_kind (pp_descriptor v)) = true ∧
    ds_recipient_public_key_fingerprint slot =
      recipient_public_key_fingerprint (pd_recipient_public_key (pp_descriptor v));
  dss_role : ∃ role, effective_role s id (ds_recipient_principal_id slot) = Some role ∧
    (role = AR_Owner ↔ ds_access_role slot = AR_Owner);
  dss_mode : access_mode i = Some (ds_item_access_mode slot);
  dss_epoch : ds_key_epoch slot = it_key_epoch i;
  dss_sequence : (0 < ds_policy_sequence slot ≤ ps_sequence s)%N;
}.

(** A witness capsule of an item and the policy's descriptor of its witness. *)
Definition capsule_bound (s : PolicyState) (policy : WitnessPolicy) (c : WitnessShareCapsuleV1) : Prop :=
  ∃ d v, d ∈ active_witness_descriptors policy ∧ wd_witness_id d = wc_witness_id c ∧
    ps_principals s !! wc_witness_id c = Some v ∧
    pd_principal_kind (pp_descriptor v) = PK_Witness ∧
    pd_verification_public_key (pp_descriptor v) = wd_signing_public_key d ∧
    pd_recipient_public_key (pp_descriptor v) = wd_contribution_public_key d ∧
    wd_share_index d = wc_share_index c ∧
    wd_contribution_key_fingerprint d = wc_contribution_key_fingerprint c.

(** The witnessed slots of an item and the policy they name. *)
Record witnessed_sound (s : PolicyState) (id : ItemId) (i : ItemPolicyState)
    (w : WitnessedStateV1) : Prop := {
  wsd_policy : ∃ first policy, head (wst_slots w) = Some first ∧
    ps_witness_policies s !! ws_witness_policy_digest first = Some policy ∧
    wp_suite policy = ps_suite s ∧ wp_vault_id policy = ps_vault_id s ∧
    wp_genesis_fingerprint policy = ps_genesis_fingerprint s ∧
    (wp_vault_policy_sequence policy ≤ ps_sequence s)%N ∧
    (wd_witness_id <$> active_witness_descriptors policy) ≡ₚ (wc_witness_id <$> ws_capsules first) ∧
    Forall (capsule_bound s policy) (ws_capsules first) ∧
    Forall (λ slot, ws_suite slot = ps_suite s ∧ ws_key_epoch slot = it_key_epoch i ∧
      access_mode i = Some (ws_item_access_mode slot) ∧
      ws_threshold slot = wp_witness_threshold policy ∧
      ws_witness_policy_digest slot = ws_witness_policy_digest first ∧
      (wc_witness_id <$> ws_capsules slot) = (wc_witness_id <$> ws_capsules first)) (wst_slots w);
}.

Record item_sound (s : PolicyState) (id : ItemId) (i : ItemPolicyState) : Prop := {
  its_mode : is_Some (access_mode i);
  its_grants : ∀ p r, it_grants i !! p = Some r → r ≠ AR_Owner ∧
    ∃ v, ps_principals s !! p = Some v ∧
      is_human_or_machine (pd_principal_kind (pp_descriptor v)) = true;
  its_slots : Forall (direct_slot_sound s id i) (it_direct_slots i);
  its_witnessed : ∀ w, it_witnessed_state i = Some w → witnessed_sound s id i w;
}.

Record complete (s : PolicyState) : Prop := {
  co_owners : ps_owners s ≠ ∅;
  co_humans : ∀ o, o ∈ ps_owners s → has_kind s PK_Human o = true;
  co_items : ∀ id i, ps_items s !! id = Some i → item_sound s id i;
}.

Lemma grant_check_ok s p r u :
  grant_check s (p, r) = Ok u → r ≠ AR_Owner ∧
    ∃ v, ps_principals s !! p = Some v ∧
      is_human_or_machine (pd_principal_kind (pp_descriptor v)) = true.
Proof. cbn. intros Hg. repeat inv_ok_step. to_prop. eauto. Qed.

Lemma slot_role_is_current_ok e r :
  slot_role_is_current e r = true → ∃ role, e = Some role ∧ (role = AR_Owner ↔ r = AR_Owner).
Proof.
  unfold slot_role_is_current. destruct (bool_decide_reflect (e = Some r)) as [->|]; [eauto|].
  destruct e as [[]|], r; naive_solver.
Qed.

Lemma direct_slot_check_ok s id i mode slot u :
  access_mode i = Some mode → direct_slot_check s id i mode slot = Ok u →
  direct_slot_sound s id i slot.
Proof.
  unfold direct_slot_check. intros Hm Hd. repeat inv_ok_step. to_prop. subst mode.
  split; [by eexists|by apply slot_role_is_current_ok|done..|lia].
Qed.

Lemma find_Some_elem {A} (f : A → bool) l x : List.find f l = Some x → x ∈ l ∧ f x = true.
Proof. intros [? ?]%find_some. by rw list_elem_of_In. Qed.

Lemma binding_capsule_check_ok s policy c u :
  binding_capsule_check s (active_witness_descriptors policy) c = Ok u → capsule_bound s policy c.
Proof.
  unfold binding_capsule_check. intros Hb. repeat inv_ok_step. to_prop.
  match goal with H : List.find _ _ = Some _ |- _ => apply find_Some_elem in H as [? He] end.
  to_prop. rewrite -> He in *. by do 2 eexists.
Qed.

Lemma merge_sort_eq {A} `{OrdLaws A} (l k : list A) :
  merge_sort ord_le l = merge_sort ord_le k → l ≡ₚ k.
Proof. intros Heq. rw -(merge_sort_Permutation ord_le l) Heq. apply merge_sort_Permutation. Qed.

Lemma validate_item_policy_binding_ok s id i mode w first u :
  access_mode i = Some mode → head (wst_slots w) = Some first →
  forE (witnessed_slot_check s i mode first) (wst_slots w) = Ok tt →
  validate_item_policy_binding s id w = Ok u → witnessed_sound s id i w.
Proof.
  unfold validate_item_policy_binding. intros Hm Hfirst Hslots Hb. repeat inv_ok_step. to_prop.
  to_forall. simplify_eq.
  match goal with H : ps_witness_policies s !! _ = Some ?p |- _ => rename p into policy end.
  match goal with H : forE (binding_capsule_check _ _) _ = _ |- _ => rename H into Hcaps end.
  match goal with H : merge_sort _ _ = merge_sort _ _ |- _ => apply merge_sort_eq in H end.
  split. eexists _, policy. split_and!; try done.
  - apply Forall_forall. intros c Hc. eapply binding_capsule_check_ok, forE_Ok; done.
  - match goal with H : Forall _ (wst_slots w) |- _ => rename H into Hsuite end.
    rw Forall_forall in Hsuite. apply Forall_forall. intros slot Hs.
    apply Hsuite in Hs as Hs1. to_prop.
    eapply forE_Ok in Hslots; [|done]. unfold witnessed_slot_check in Hslots.
    apply reject_if_Ok in Hslots. to_prop. split_and!; congruence.
Qed.

Lemma item_check_ok s id i u : item_check s (id, i) = Ok u → item_sound s id i.
Proof.
  cbn [item_check]. intros Hi. repeat inv_ok_step.
  match goal with H : access_mode i = Some ?m |- _ => rename H into Hm end.
  split.
  - by eexists.
  - intros p role Hp%elem_of_entries.
    match goal with H : forE (grant_check _) _ = _ |- _ => eapply forE_Ok in H; [|done] end.
    by eapply grant_check_ok.
  - apply Forall_forall. intros slot Hs.
    match goal with H : forE (direct_slot_check _ _ _ _) _ = _ |- _ =>
      eapply forE_Ok in H; [|done] end.
    by eapply direct_slot_check_ok.
  - intros w Hw. rw Hw in Hi. repeat inv_ok_step. by eapply validate_item_policy_binding_ok.
Qed.

Lemma validate_complete_state_ok s u : validate_complete_state s = Ok u → complete s.
Proof.
  unfold validate_complete_state. intros Hv. repeat inv_ok_step. to_prop. to_forall. split.
  - done.
  - match goal with H : Forall _ (sorted_elements _) |- _ => rename H into Ho end.
    rw Forall_forall in Ho. intros o Hin%elem_of_sorted_elements. apply Ho in Hin. by to_prop.
  - intros id i Hi%elem_of_entries.
    match goal with H : forE (item_check _) _ = _ |- _ => eapply forE_Ok in H; [|done] end.
    by eapply item_check_ok.
Qed.

(** ** Owner slots *)

(** The direct slots of one recipient. *)
Definition slots_for (p : PrincipalId) (slots : list DirectSlotV1) : list DirectSlotV1 :=
  List.filter (λ slot, ds_recipient_principal_id slot ==? p) slots.

Definition has_role (role : ContentRole) (slots : list DirectSlotV1) : bool :=
  existsb (λ slot, ds_content_role slot ==? role) slots.

Lemma slots_for_snoc p slots slot :
  slots_for p (slots ++ [slot]) =
  slots_for p slots ++ (if ds_recipient_principal_id slot ==? p then [slot] else []).
Proof. unfold slots_for. rw List.filter_app. cbn. by case_match. Qed.

Lemma coverage_ok p slots :
  fold_left coverage_step slots ∅ !! p =
  match slots_for p slots with
  | [] => None
  | held => Some (N.min (len held) u8_max, has_role CR_Descriptor held, has_role CR_Body held)
  end.
Proof.
  induction slots as [|slot slots IH] using rev_ind; [done|].
  rw fold_left_app slots_for_snoc. cbn [fold_left]. unfold coverage_step at 1.
  destruct (decide (ds_recipient_principal_id slot = p)) as [Heq|Hne].
  - rw Heq (bool_decide_true (p = p)) // IH.
    destruct (slots_for p slots) as [|h held] eqn:E; cbn [default from_option].
    + rw lookup_insert_eq. cbn. by rw !orb_false_r.
    + rw lookup_insert_eq. cbn [app].
      assert (∀ role, has_role role (h :: held ++ [slot]) =
        has_role role (h :: held) || (ds_content_role slot ==? role)) as Hrole.
      { intros role. unfold has_role. rw app_comm_cons existsb_app. cbn. by rw orb_false_r. }
      rw !Hrole. do 3 f_equal. unfold saturating_add_u8, len. rw app_comm_cons length_app.
      change (length [slot]) with 1. lia.
  - rw (bool_decide_false (_ = p)) // app_nil_r -IH. repeat case_match; by rw lookup_insert_ne.
Qed.

(** Exactly one descriptor slot and one body slot. *)
Definition one_of_each (held : list DirectSlotV1) : Prop :=
  ∃ d b, held ≡ₚ [d; b] ∧ ds_content_role d = CR_Descriptor ∧ ds_content_role b = CR_Body.

Lemma coverage_two p slots :
  fold_left coverage_step slots ∅ !! p = Some (2%N, true, true) → one_of_each (slots_for p slots).
Proof.
  rw coverage_ok. destruct (slots_for p slots) as [|x held] eqn:E; [done|].
  intros [= Hn Hd Hb].
  assert (len (x :: held) = 2%N) as Hlen by (unfold u8_max in Hn; lia).
  apply (len_eq _ [(); ()]) in Hlen. destruct held as [|y [|]]; try done. clear Hn Hlen E.
  cbn in Hd, Hb. rw orb_false_r in Hd. rw orb_false_r in Hb.
  destruct (ds_content_role x) eqn:Ex, (ds_content_role y) eqn:Ey; try done.
  - by exists x, y.
  - exists y, x. by split; [apply perm_swap|].
Qed.

Definition owner_slots_ok (s : PolicyState) : Prop :=
  ∀ id i o, ps_items s !! id = Some i → o ∈ ps_owners s → it_direct_slots i ≠ [] →
    one_of_each (slots_for o (it_direct_slots i)).

Lemma validate_complete_owner_slots_ok s u :
  validate_complete_owner_slots s = Ok u → owner_slots_ok s.
Proof.
  unfold validate_complete_owner_slots. rw forE_Ok. intros Hall id i o Hi Ho Hne.
  assert (i ∈ values (ps_items s)) as Hv by (apply elem_of_values; eauto).
  apply Hall in Hv. unfold owner_slots_check in Hv. repeat inv_ok_step.
  match goal with H : access_mode i = Some ?m |- _ => destruct (decide (m = AM_WitnessedOnly)) as [->|Hm] end.
  - match goal with H : access_mode i = _ |- _ => unfold access_mode in H; repeat case_match; done end.
  - rw bool_decide_false // in Hv. apply reject_if_Ok in Hv. to_forall.
    rw Forall_forall in Hv. apply elem_of_sorted_elements, Hv in Ho. to_prop.
    by apply coverage_two.
Qed.
End complete.
