(* ===== verification/ReplayRotation.v ===== *)
(** * Key rotation

    How the items of a state change under a revision's operations: an item's
    access slots stay as they are while its readers stay the same, and a change
    of readers comes with the next key epoch and freshly checked slots. *)

From S2P Require Import Prelude VaultTypes Canonical Preimage Rollover Validate WitnessPolicy PolicyState Identifiers Replay ReplayRegistry.
Local Open Scope jury_scope.

(** Two records of an item with the same key epoch and the same slots. *)
Record same_keys (i j : ItemPolicyState) : Prop := {
  sk_epoch : it_key_epoch j = it_key_epoch i;
  sk_direct : it_direct_slots j = it_direct_slots i;
  sk_witnessed : it_witnessed_state j = it_witnessed_state i;
}.

Global Instance same_keys_equivalence : Equivalence same_keys.
Proof.
  split.
  - intros i. by split.
  - intros i j []. by split.
  - intros i j k [] []. split; by etrans.
Qed.

Section rotation.
Context `{Crypto}.

(** The slots of an item passed the format checks at sequence [n]. *)
Definition installed (s : PolicyState) (n : N) (id : ItemId) (i : ItemPolicyState) : Prop :=
  validate_access_paths (it_direct_slots i) (it_witnessed_state i) (ps_vault_id s)
    (ps_genesis_fingerprint s) id (it_key_epoch i) n = Ok tt.

(** ** Before rotation *)

(** Every item of [s] was in [prior] with the same slots, or is new. *)
Definition carried (prior : PolicyState) (n : N) (s : PolicyState) : Prop :=
  ∀ id j, ps_items s !! id = Some j →
    (∃ i, ps_items prior !! id = Some i ∧ same_keys i j) ∨
    ((id ∉ ps_historical_item_ids prior) ∧ installed prior n id j).

(** The effect of one operation, in the same terms. *)
Definition op_carries (s : PolicyState) (n : N) (v : VaultId) (fp : Digest32) (s' : PolicyState) : Prop :=
  ∀ id j, ps_items s' !! id = Some j →
    (∃ i, ps_items s !! id = Some i ∧ same_keys i j) ∨
    ((id ∉ ps_historical_item_ids s) ∧
     validate_access_paths (it_direct_slots j) (it_witnessed_state j) v fp id (it_key_epoch j) n = Ok tt).

Lemma op_carries_same s n v fp s' : ps_items s' = ps_items s → op_carries s n v fp s'.
Proof. intros Heq id j Hj. rw Heq in Hj. left. by exists j. Qed.

Lemma op_carries_put s n v fp id i j :
  ps_items s !! id = Some i → same_keys i j → op_carries s n v fp (put_item id j s).
Proof.
  intros Hi Hk id' j'. cbn. rw lookup_insert_Some. intros [[<- <-]|[_ ?]]; left; [by exists i|].
  by exists j'.
Qed.

Lemma move_grant_same_keys p q i : same_keys i (move_grant p q i).
Proof. unfold move_grant. by case_match. Qed.

Lemma apply_operation_carries s op n v fp s' :
  validate_operation op n v fp = Ok tt → apply_operation s op = Ok s' → op_carries s n v fp s'.
Proof.
  destruct op; cbn [apply_operation validate_operation]; intros Hv Ha;
    unfold add_principal, change_label, remove_principal, grant_owner, revoke_owner, create_item,
      rename_item, delete_item, change_role, replace_principal in Ha; repeat inv_ok_step;
    try by apply op_carries_same.
  - intros id j. cbn. rw lookup_insert_Some. to_prop.
    intros [[<- <-]|[_ ?]]; [by right|left; by exists j].
  - by eapply op_carries_put.
  - intros id j. cbn. rw lookup_delete_Some. intros [_ ?]. left. by exists j.
  - destruct next_role as [[]|]; repeat inv_ok_step; by eapply op_carries_put.
  - intros id j. cbn. rw lookup_fmap_Some. intros (i & <- & Hi). left. exists i.
    split; [by case_match|apply move_grant_same_keys].
Qed.

(** ** The recorded rotations *)

(** A recorded slot rotation passed the format checks. *)
Definition slots_checked (v : VaultId) (fp : Digest32) (n : N) (m : gmap ItemId SlotRotation) : Prop :=
  ∀ id rot, m !! id = Some rot →
    validate_access_paths (sl_direct_slots rot) (sl_witnessed_state rot) v fp id
      (sl_next_epoch rot) n = Ok tt.

Lemma record_slots_checked v fp n m op :
  validate_operation op n v fp = Ok tt → slots_checked v fp n m →
  slots_checked v fp n (record_slots m op).
Proof.
  destruct op; cbn [record_slots validate_operation]; try done. intros Hv Hm id rot.
  rw lookup_insert_Some. intros [[<- <-]|[_ ?]]; [|by apply Hm]. cbn. by inv_ok.
Qed.

(** The state after the operations, before the rotations. *)
Lemma operations_carry prior n ops st :
  registry prior →
  foldE (operation_step prior n)
    {| os_next := set_sequence n prior; os_readers := ∅; os_slots := ∅; os_keys := ∅ |} ops = Ok st →
  carried prior n (os_next st) ∧
  slots_checked (ps_vault_id prior) (ps_genesis_fingerprint prior) n (os_slots st).
Proof.
  intros Hreg Hf.
  eapply (foldE_preserves (λ st, (carried prior n (os_next st) ∧
    slots_checked (ps_vault_id prior) (ps_genesis_fingerprint prior) n (os_slots st)) ∧
    grows prior (os_next st))) in Hf; [by destruct Hf| |].
  - clear st Hf. intros st op st' _ [[Hc Hs] Hg] Hstep. unfold operation_step in Hstep.
    repeat inv_ok_step. cbn [os_next os_slots].
    match goal with H : validate_operation _ _ _ _ = Ok _ |- _ => rename H into Hv end.
    match goal with H : apply_operation _ _ = Ok _ |- _ => rename H into Ha end.
    split; [split; [|by apply record_slots_checked]|].
    + intros id j Hj. destruct (Hg Hreg) as [_ Hext].
      eapply apply_operation_carries in Hj as [(i & Hi & Hk)|[Hn Hi]]; [..|done|done].
      * apply Hc in Hi as [(i0 & ? & ?)|[? Hinst]]; [left; exists i0; split; [done|by etrans]|].
        right. split; [done|]. destruct Hk as [He Hd Hw]. unfold installed. by rw He Hd Hw.
      * right. split; [|done]. intros Hin. apply Hn. by apply (ext_item_ids _ _ Hext).
    + etrans; [done|by eapply apply_operation_grows].
  - split; [|apply grows_set_sequence]. split; [|by intros ??].
    intros id j Hj. left. by exists j.
Qed.

(** ** One rotation *)

Lemma put_item_put id i j s : put_item id j (put_item id i s) = put_item id j s.
Proof. unfold put_item, set_items. cbn. by rw insert_insert_eq. Qed.

Lemma effective_reader_ids_put id i j s id' :
  ps_items s !! id = Some i → it_grants j = it_grants i →
  effective_reader_ids (put_item id j s) id' = effective_reader_ids s id'.
Proof.
  intros Hi Hg. unfold effective_reader_ids. cbn. destruct (decide (id = id')) as [<-|Hne].
  - by rw lookup_insert_eq Hi Hg.
  - by rw lookup_insert_ne.
Qed.

(** One turn of the loop leaves the state alone, the readers being the same, or
    installs the recorded slots under the next epoch. *)
Lemma rotation_step_ok prior next rs ss id next' rs' ss' :
  rotation_step prior (next, (rs, ss)) id = Ok (next', (rs', ss')) →
  ss' = delete id ss ∧
  ((next' = next ∧ effective_reader_ids prior id = effective_reader_ids next id) ∨
   ∃ i j rot d h, ps_items prior !! id = Some i ∧ ps_items next !! id = Some j ∧
     ss !! id = Some rot ∧ sl_next_epoch rot = (it_key_epoch i + 1)%N ∧
     dm_key_epoch d = (it_key_epoch i + 1)%N ∧
     next' = put_item id (set_slots (it_key_epoch i + 1) (sl_direct_slots rot)
       (sl_witnessed_state rot) (set_descriptor d h j)) next).
Proof.
  cbn [rotation_step]. intros Hr. repeat inv_ok_step.
  match goal with H : (_, _) = (_, _) |- _ => injection H as <- <- <- end.
  match goal with H : checked_add_u64 _ _ = Some _ |- _ => apply checked_add_u64_Some in H as -> end.
  split; [done|].
  destruct (ss !! id) as [rot|]; [right|left].
  - destruct (rs !! id) as [rr|]; cbn [apply_reader_rotation apply_slot_rotation] in *;
      repeat inv_ok_step; to_prop.
    + match goal with Hx : ps_items (put_item _ _ _) !! _ = Some _ |- _ => rename Hx into Hput end.
      cbn in Hput. rw lookup_insert_eq in Hput. injection Hput as <-.
      do 5 eexists. split_and!; try done. by rw put_item_put.
    + match goal with
      | Hi : ps_items prior !! id = Some ?i, Hj : ps_items ?n !! id = Some ?j |- _ =>
          assert_fails (constr_eq n prior);
          exists i, j, rot, (it_descriptor j), (it_current_item_revision_hash j) end.
      by split_and!.
  - destruct (rs !! id) as [rr|]; cbn [is_some negb andb orb] in *; [done|].
    cbn [apply_reader_rotation apply_slot_rotation] in *. repeat inv_ok_step.
    split; [done|].
    match goal with Hx : _ && true = false |- _ => rename Hx into Hc end.
    rw andb_true_r in Hc. by to_prop.
Qed.

(** ** All rotations *)

(** An item that was given the next epoch and checked slots. *)
Definition renewed (prior : PolicyState) (n : N) (id : ItemId) (i j : ItemPolicyState) : Prop :=
  it_key_epoch j = (it_key_epoch i + 1)%N ∧ dm_key_epoch (it_descriptor j) = it_key_epoch j ∧
  installed prior n id j.

(** The loop's invariant: [mid] is the state before the loop, [pre] the items
    it has visited. *)
Record rotating (prior mid : PolicyState) (n : N) (pre : list ItemId)
    (st : PolicyState * (gmap ItemId ReaderRotation * gmap ItemId SlotRotation)) : Prop := {
  ro_readers : ∀ id, effective_reader_ids st.1 id = effective_reader_ids mid id;
  ro_items : ∀ id, ps_items st.1 !! id = ps_items mid !! id ∨
    ∃ i j, ps_items prior !! id = Some i ∧ ps_items st.1 !! id = Some j ∧ renewed prior n id i j;
  ro_visited : ∀ id, id ∈ pre → effective_reader_ids prior id = effective_reader_ids mid id ∨
    ∃ i j, ps_items prior !! id = Some i ∧ ps_items st.1 !! id = Some j ∧ renewed prior n id i j;
  ro_slots : slots_checked (ps_vault_id prior) (ps_genesis_fingerprint prior) n st.2.2;
}.

Lemma rotation_step_rotating prior mid n pre st id st' :
  rotating prior mid n pre st → rotation_step prior st id = Ok st' →
  rotating prior mid n (pre ++ [id]) st'.
Proof.
  intros [Hr Hi Hv Hs] Hstep. destruct st as [s [rs ss]], st' as [s' [rs' ss']].
  cbn [fst snd] in *.
  apply rotation_step_ok in Hstep as [-> [[-> Heq]|(i & j & rot & d & h & Hpi & Hj & Hrot & He & Hd & ->)]].
  - split; cbn [fst snd]; [done|done| |].
    + intros id'. rw elem_of_app list_elem_of_singleton. intros [?| ->]; [by apply Hv|left].
      by rw Heq Hr.
    + intros id' rot [_ ?]%lookup_delete_Some. by apply Hs.
  - set (j' := set_slots _ _ _ _).
    assert (renewed prior n id i j') as Hren.
    { split_and!; [done|done|]. unfold installed. cbn. rw -He. by apply Hs. }
    assert (∀ id', (ps_items (put_item id j' s) !! id' = ps_items s !! id' ∧ id' ≠ id) ∨
      (id' = id ∧ ps_items (put_item id j' s) !! id' = Some j')) as Hput.
    { intros id'. cbn. destruct (decide (id' = id)) as [->|]; [right|left].
      - by rw lookup_insert_eq.
      - by rw lookup_insert_ne. }
    split; cbn [fst snd].
    + intros id'. rw (effective_reader_ids_put _ j) //.
    + intros id'. destruct (Hput id') as [[-> _]|[-> Hp]]; [apply Hi|right; by exists i, j'].
    + intros id'. rw elem_of_app list_elem_of_singleton. intros Hin.
      destruct (Hput id') as [[-> Hne]|[-> Hp]]; [|right; by exists i, j'].
      destruct Hin; [by apply Hv|done].
    + intros id' rot' [_ ?]%lookup_delete_Some. by apply Hs.
Qed.

(** Every item that was live before and after a revision kept its slots and its
    readers, or was renewed; an item that is live only after it is new. *)
Lemma apply_operations_items prior n ops next :
  registry prior → apply_operations prior n ops = Ok next →
  ∀ id j, ps_items next !! id = Some j →
    (∃ i, ps_items prior !! id = Some i ∧
      ((same_keys i j ∧ effective_reader_ids prior id = effective_reader_ids next id) ∨
       renewed prior n id i j)) ∨
    ((id ∉ ps_historical_item_ids prior) ∧ installed prior n id j).
Proof.
  intros Hreg. unfold apply_operations, apply_rotations. intros Ha. repeat inv_ok_step.
  match goal with Hx : foldE (operation_step _ _) _ _ = Ok _ |- _ =>
    apply operations_carry in Hx as [Hc Hs]; [|done] end.
  match goal with Hx : foldE (rotation_step _) _ _ = Ok ?st |- _ =>
    destruct st as [s1 [rs1 ss1]]; rename Hx into Hf end.
  repeat inv_ok_step. set (mid := os_next _) in *.
  eapply (foldE_invariant (rotating prior mid n) _ (rotation_step_rotating prior mid n) _ []) in Hf;
    [|by split; [|left| intros ??%elem_of_nil|]].
  destruct Hf as [Hread Hi Hv _]. cbn [fst snd app] in *. intros id j Hj.
  destruct (Hi id) as [Heq|(i & j' & Hpi & Hj' & Hren)].
  2: { simplify_eq. left. exists i. auto. }
  rw Hj in Heq. symmetry in Heq. apply Hc in Heq as Hcar.
  destruct Hcar as [(i & Hpi & Hk)|Hnew]; [left; exists i|by right].
  split; [done|]. destruct (Hv id) as [Hsame|(i' & j' & ? & ? & ?)]; [|left|simplify_eq; by right].
  - apply list_elem_of_In, filter_In. rw -list_elem_of_In elem_of_keys Heq. split; [by eexists|done].
  - split; [done|]. by rw Hsame Hread.
Qed.
End rotation.
