(* ===== verification/ReplayLineage.v ===== *)
(** * Lineage: what a replayed journal establishes

    The invariant of the replay loop: the state's sequence and revision hashes
    mirror the journal read so far, the registry holds, and every state after
    the first revision with operations is complete. A step relation names what
    one accepted revision did. *)

From S2P Require Import Prelude VaultTypes Canonical Preimage Binding Rollover Validate WitnessPolicy PolicyState Identifiers Replay ReplayRegistry ReplayState ReplayRotation.
Local Open Scope jury_scope.

(** ** Operations leave the lineage alone *)

Record same_lineage (s s' : PolicyState) : Prop := {
  sl_sequence : ps_sequence s' = ps_sequence s;
  sl_terminal : ps_terminal_revision_hash s' = ps_terminal_revision_hash s;
  sl_hashes : ps_revision_hashes s' = ps_revision_hashes s;
}.

Global Instance same_lineage_equivalence : Equivalence same_lineage.
Proof.
  split.
  - intros s. by split.
  - intros s s' []. by split.
  - intros s1 s2 s3 [] []. split; by etrans.
Qed.

Section lineage.
Context `{Crypto}.

Lemma apply_operation_lineage s op s' : apply_operation s op = Ok s' → same_lineage s s'.
Proof.
  destruct op; cbn [apply_operation]; intros Ha;
    unfold add_principal, change_label, remove_principal, grant_owner, revoke_owner, create_item,
      rename_item, delete_item, change_role, replace_principal in Ha; repeat inv_ok_step;
    try by split.
  - destruct next_role as [[]|]; repeat inv_ok_step; by split.
  - case_match; by split.
Qed.

Lemma rotation_step_lineage prior st id st' :
  rotation_step prior st id = Ok st' → same_lineage st.1 st'.1.
Proof.
  destruct st as [s [rs ss]], st' as [s' [rs' ss']]. cbn [fst].
  intros [_ [[-> _]|(i & j & rot & d & h & _ & _ & _ & _ & _ & ->)]]%rotation_step_ok; by split.
Qed.

Lemma apply_operations_lineage s n ops s' :
  apply_operations s n ops = Ok s' → same_lineage (set_sequence n s) s'.
Proof.
  unfold apply_operations, apply_rotations. intros Ha. repeat inv_ok_step.
  match goal with Hx : foldE (operation_step _ _) _ _ = Ok ?st |- _ =>
    transitivity (os_next st);
    [eapply (foldE_preserves (λ st, same_lineage (set_sequence n s) (os_next st))) in Hx;
      [exact Hx| |done]|] end.
  - intros st op st' _ Hst Hstep. unfold operation_step in Hstep. repeat inv_ok_step. cbn.
    etrans; [exact Hst|by eapply apply_operation_lineage].
  - match goal with Hx : foldE (rotation_step _) (?m, _) _ = Ok ?st |- _ =>
      destruct st as [s1 [rs1 ss1]];
      eapply (foldE_preserves (λ st, same_lineage m st.1)) in Hx; [|clear..] end.
    + repeat inv_ok_step. done.
    + intros st id st' _ Hst Hstep. etrans; [exact Hst|by eapply rotation_step_lineage].
    + done.
Qed.

(** ** What one accepted revision did *)

(** The revision was signed by a then-current owner with the owner's key. *)
Definition authorised (s : PolicyState) (r : SignedPolicyRevisionV1) : Prop :=
  pr_author_principal_id r ∈ ps_owners s ∧
  ∃ v preimage, ps_principals s !! pr_author_principal_id r = Some v ∧
    SignedPolicyRevisionV1_signature_preimage r = Ok preimage ∧
    verify_bytes (pd_verification_public_key (pp_descriptor v)) preimage (pr_signature r) = true.

Record revision_step (genesis : PolicyGenesisV1) (s : PolicyState) (r : SignedPolicyRevisionV1)
    (s' : PolicyState) : Prop := {
  st_authorised : authorised s r;
  st_vault : pr_vault_id r = ps_vault_id s;
  st_previous : pr_previous_revision_hash r = ps_terminal_revision_hash s;
  st_hash : SignedPolicyRevisionV1_recomputed_hash r = Ok (ps_terminal_revision_hash s');
  st_owner_slots : owner_slots_ok s';
  st_effect : ∃ next h, s' = push_revision_hash h next ∧
    normalized_state_hash next = Ok (pr_resulting_policy_state_hash r) ∧
    ((pr_operations r = [] ∧ pr_sequence r = 1%N ∧ permits_empty_rollover_bootstrap genesis = true ∧
      next = set_sequence 1 s) ∨
     (pr_operations r ≠ [] ∧ apply_operations s (pr_sequence r) (pr_operations r) = Ok next));
}.

(** A run of the loop: the revisions consumed and the states between them. *)
Inductive replays (genesis : PolicyGenesisV1) (s0 : PolicyState)
    : list SignedPolicyRevisionV1 → PolicyState → Prop :=
  | replays_nil : replays genesis s0 [] s0
  | replays_snoc revs s r s' :
      replays genesis s0 revs s →
      pr_sequence r = (len revs + 1)%N →
      revision_step genesis s r s' →
      replays genesis s0 (revs ++ [r]) s'.

(** Timestamps do not go back along a journal. *)
Inductive sorted_timestamps (t0 : N) : list SignedPolicyRevisionV1 → N → Prop :=
  | sorted_timestamps_nil : sorted_timestamps t0 [] t0
  | sorted_timestamps_snoc revs t r :
      sorted_timestamps t0 revs t → (t ≤ pr_timestamp_ms r)%N →
      sorted_timestamps t0 (revs ++ [r]) (pr_timestamp_ms r).

Lemma replay_step_ok genesis st r st' :
  ps_sequence (rs_state st) = rs_index st → replay_step genesis st r = Ok st' →
  pr_sequence r = (rs_index st + 1)%N ∧ rs_index st' = (rs_index st + 1)%N ∧
  (rs_prior_timestamp st ≤ pr_timestamp_ms r)%N ∧ rs_prior_timestamp st' = pr_timestamp_ms r ∧
  revision_step genesis (rs_state st) r (rs_state st').
Proof.
  intros Hseq. unfold replay_step, check_signature. intros Hr. repeat inv_ok_step. to_prop.
  cbn [rs_index rs_prior_timestamp rs_state].
  split_and!; try done. split; try done.
  - split; [done|]. by do 2 eexists.
  - by eapply validate_complete_owner_slots_ok.
  - match goal with Hx : (if _ then Ok _ else _) = Ok ?n |- _ => eexists n, _; rename Hx into Hn end.
    split; [done|]. split; [congruence|].
    match goal with Hx : _ && negb _ = false |- _ => rename Hx into Hempty end.
    destruct (pr_operations r); repeat inv_ok_step; [left|right; split; [done|congruence]].
    cbn in Hempty. to_prop. split_and!; try done; congruence || lia || idtac.
    by match goal with Hx : rs_index st = 0%N |- _ => rw Hx end.
Qed.

(** ** The invariant *)

(** The slots of every item passed the format checks when they were installed. *)
Definition keyed (s : PolicyState) : Prop :=
  ∀ id i, ps_items s !! id = Some i → ∃ n, (0 < n ≤ ps_sequence s)%N ∧ installed s n id i.

Record sound (s : PolicyState) : Prop := {
  so_registry : registry s;
  so_complete : complete s;
  so_owner_slots : owner_slots_ok s;
  so_keyed : keyed s;
  so_capacity : (N.of_nat (size (ps_items s)) ≤ MAX_ITEMS)%N;
}.

(** A human owner and nothing else. *)
Lemma no_items_complete s :
  ps_items s = ∅ → ps_owners s ≠ ∅ → (∀ o, o ∈ ps_owners s → has_kind s PK_Human o = true) →
  complete s ∧ owner_slots_ok s ∧ keyed s ∧ (N.of_nat (size (ps_items s)) ≤ MAX_ITEMS)%N.
Proof.
  intros Hi Ho Hk. split_and!; [..|by rw Hi].
  - split; try done. intros id i. by rw Hi lookup_empty.
  - intros id i o. by rw Hi lookup_empty.
  - intros id i. by rw Hi lookup_empty.
Qed.

Lemma genesis_sound genesis fp cat :
  pd_principal_kind (pg_owner genesis) = PK_Human → sound (genesis_state genesis fp cat).
Proof.
  intros Hk. destruct (no_items_complete (genesis_state genesis fp cat)) as (? & ? & ? & ?);
    [done| |..].
  - cbn. set_solver.
  - cbn. intros o ->%elem_of_singleton. unfold has_kind. cbn. by rw lookup_singleton_eq /= bool_decide_true.
  - split; [apply genesis_registry|done..].
Qed.

Lemma apply_operations_checked s n ops s' : apply_operations s n ops = Ok s' →
  complete s' ∧ (N.of_nat (size (ps_items s')) ≤ MAX_ITEMS)%N.
Proof.
  unfold apply_operations. intros Ha. repeat inv_ok_step. to_prop.
  split; [by eapply validate_complete_state_ok|done].
Qed.

Lemma installed_extends s s' n id i : extends s s' → installed s n id i → installed s' n id i.
Proof. unfold installed. intros []. congruence. Qed.

Lemma installed_same_keys s n id i j : same_keys i j → installed s n id i → installed s n id j.
Proof. unfold installed. intros []. congruence. Qed.

Lemma apply_operations_keyed s n ops s' :
  registry s → keyed s → n = (ps_sequence s + 1)%N → apply_operations s n ops = Ok s' → keyed s'.
Proof.
  intros Hreg Hkey Hn Ha id j Hj.
  destruct (apply_operations_grows _ _ _ _ Ha Hreg) as [_ Hext].
  destruct (apply_operations_lineage _ _ _ _ Ha) as [Hseq _ _]. cbn in Hseq. rw Hseq.
  destruct (apply_operations_items _ _ _ _ Hreg Ha _ _ Hj) as [(i & Hi & [[Hk _]|(_ & _ & Hin)])|[_ Hin]].
  - destruct (Hkey id i Hi) as (m & Hm & Hin). exists m. split; [lia|].
    eapply installed_extends, installed_same_keys; done.
  - exists n. split; [lia|]. by eapply installed_extends.
  - exists n. split; [lia|]. by eapply installed_extends.
Qed.

Lemma item_sound_push h s id i : item_sound s id i → item_sound (push_revision_hash h s) id i.
Proof.
  intros [? ? Hs Hw]. split; [done|done| |].
  - eapply Forall_impl; [exact Hs|]. intros slot []. by split.
  - intros w Hi. destruct (Hw w Hi). by split.
Qed.

Lemma sound_push h s : sound s → sound (push_revision_hash h s).
Proof.
  intros [[[] []] [? ? Hi] Hos Hk Hc]. split; [by split; split| |done..].
  split; [done|done|]. intros id i Hl. by apply item_sound_push, Hi.
Qed.

Lemma revision_step_sound genesis s r s' :
  sound s → (pr_sequence r = 1%N → ps_items s = ∅) → pr_sequence r = (ps_sequence s + 1)%N →
  revision_step genesis s r s' → sound s' ∧ ps_sequence s' = pr_sequence r ∧ extends s s' ∧
    ps_revision_hashes s' = ps_revision_hashes s ++ [ps_terminal_revision_hash s'].
Proof.
  intros Hs Hfirst Hseq [_ _ _ _ Hos (next & h & -> & _ & Hn)].
  destruct Hn as [(_ & Hone & _ & ->)|[_ Ha]].
  - split_and!; [|cbn; lia| |done].
    + apply sound_push. destruct Hs as [? [] ? ? ?].
      destruct (no_items_complete (set_sequence 1 s)) as (? & ? & ? & ?); [by apply Hfirst|done..|].
      split; [|done..]. by apply (grows_set_sequence 1 s).
    + etrans; [by apply (grows_set_sequence 1 s), Hs|].
      apply grows_push_revision_hash, grows_set_sequence, Hs.
  - destruct (apply_operations_grows _ _ _ _ Ha (so_registry _ Hs)) as [Hreg Hext].
    destruct (apply_operations_lineage _ _ _ _ Ha) as [Hse Ht Hh]. cbn in Hse, Ht, Hh.
    split_and!; [|done| |cbn; by rw Hh].
    + apply apply_operations_checked in Ha as Hchk. destruct Hchk as [? ?].
      apply sound_push. split; [done|done|exact Hos| |done].
      by eapply apply_operations_keyed; [apply Hs|apply Hs|..].
    + etrans; [done|]. by apply grows_push_revision_hash.
Qed.

(** The states of a run, related to the revisions read. *)
Record lineage_of (s0 : PolicyState) (revs : list SignedPolicyRevisionV1) (s : PolicyState) : Prop := {
  lo_sound : sound s;
  lo_extends : extends s0 s;
  lo_sequence : ps_sequence s = len revs;
  lo_hashes : length (ps_revision_hashes s) = S (length revs);
  lo_last : last (ps_revision_hashes s) = Some (ps_terminal_revision_hash s);
  lo_prefixes : ∀ k, k ≤ length revs → ∃ h, ps_revision_hashes s !! k = Some h ∧
    linked (ps_genesis_fingerprint s0) (take k revs) h;
  lo_linked : linked (ps_genesis_fingerprint s0) revs (ps_terminal_revision_hash s);
}.

Lemma genesis_lineage genesis fp cat :
  pd_principal_kind (pg_owner genesis) = PK_Human →
  lineage_of (genesis_state genesis fp cat) [] (genesis_state genesis fp cat).
Proof. intros Hk. split; try done; [by apply genesis_sound| |constructor].
  intros k ->%Nat.le_0_r. exists fp. split; [done|constructor]. Qed.

(** Rule induction over a run. *)
Lemma replays_lineage genesis fp cat revs s :
  pd_principal_kind (pg_owner genesis) = PK_Human →
  replays genesis (genesis_state genesis fp cat) revs s →
  lineage_of (genesis_state genesis fp cat) revs s.
Proof.
  intros Hk. induction 1 as [|revs s r s' Hrun [Hsound Hext Hseq Hlen Hlast Hpre Hlink] Hr Hstep];
    [by apply genesis_lineage|].
  assert (pr_sequence r = 1%N → ps_items s = ∅) as Hfirst.
  { intros Hone. assert (revs = []) as -> by (apply len_nil_iff; lia).
    inversion Hrun as [|? ? ? ? ? ? ? Happ]; [done|]. by destruct revs. }
  destruct (revision_step_sound genesis s r s') as (? & Hseq' & ? & Hh); [done..|lia|done|].
  destruct Hstep as [_ _ Hprev Hhash _ _]. split.
  - done.
  - by etrans.
  - rw Hseq' len_app. done.
  - rw Hh !length_app Hlen /=. lia.
  - by rw Hh last_snoc.
  - intros k. rw length_app Nat.add_1_r. intros [Hle| ->]%Nat.le_succ_r.
    + destruct (Hpre k Hle) as (h & Hk' & Hl). exists h. rw Hh lookup_app_l; [|lia].
      by rw take_app_le.
    + exists (ps_terminal_revision_hash s'). rw Hh lookup_app_r; [|lia]. rw Hlen Nat.sub_diag.
      split; [done|]. rw take_ge; [|rw length_app /=; lia]. by eapply linked_snoc.
  - by eapply linked_snoc.
Qed.

(** The loop of [replay_policy_with_catalog] is such a run. *)
Lemma replay_loop_replays genesis fp cat revs st :
  pd_principal_kind (pg_owner genesis) = PK_Human →
  foldE (replay_step genesis)
    {| rs_index := 0; rs_state := genesis_state genesis fp cat;
       rs_prior_timestamp := pg_created_at_ms genesis |} revs = Ok st →
  replays genesis (genesis_state genesis fp cat) revs (rs_state st) ∧ rs_index st = len revs ∧
  sorted_timestamps (pg_created_at_ms genesis) revs (rs_prior_timestamp st).
Proof.
  intros Hk Hf.
  refine (foldE_invariant (λ revs st,
    replays genesis (genesis_state genesis fp cat) revs (rs_state st) ∧ rs_index st = len revs ∧
    sorted_timestamps (pg_created_at_ms genesis) revs (rs_prior_timestamp st)) _ _ revs [] _ _ _ Hf);
    [|by split; [constructor|split; [|constructor]]].
  clear Hf st revs. intros pre st r st' (Hrun & Hi & Ht) Hstep.
  apply replays_lineage in Hrun as Hl; [|done].
  apply replay_step_ok in Hstep as (Hr & Hi' & Hle & Ht' & Hstep); [|by rw Hi (lo_sequence _ _ _ Hl)].
  split_and!.
  - eapply replays_snoc; [done| |done]. by rw Hr Hi.
  - by rw Hi' Hi len_app.
  - rw Ht'. by econstructor.
Qed.

Lemma replay_genesis_ok j cat s :
  replay_genesis j cat = Ok s →
  pd_principal_kind (pg_owner (pj_genesis j)) = PK_Human ∧
  ∃ fp, PolicyGenesisV1_recomputed_fingerprint (pj_genesis j) = Ok fp ∧
    s = genesis_state (pj_genesis j) fp cat.
Proof.
  unfold replay_genesis. intros Hg. repeat inv_ok_step. to_prop. split; [done|]. by eexists.
Qed.

Lemma replay_ok j cat s :
  replay_policy_with_catalog j cat = Ok s →
  ∃ fp, PolicyGenesisV1_recomputed_fingerprint (pj_genesis j) = Ok fp ∧
    replays (pj_genesis j) (genesis_state (pj_genesis j) fp cat) (pj_revisions j) s ∧
    lineage_of (genesis_state (pj_genesis j) fp cat) (pj_revisions j) s ∧
    ∃ t, sorted_timestamps (pg_created_at_ms (pj_genesis j)) (pj_revisions j) t.
Proof.
  unfold replay_policy_with_catalog. intros Hr. repeat inv_ok_step.
  match goal with Hx : replay_genesis _ _ = Ok _ |- _ =>
    apply replay_genesis_ok in Hx as (Hk & fp & Hfp & ->) end.
  match goal with Hx : foldE _ _ _ = Ok ?st |- _ =>
    apply replay_loop_replays in Hx as (Hrun & _ & Ht); [|done] end.
  exists fp. split_and!; [done..|by apply replays_lineage|by eexists].
Qed.
End lineage.
