(* ===== verification/ReplayTheorems.v ===== *)
(** * Theorems about replayed journals

    The properties of [replay_policy] that its callers rely on: the state is
    sound, the history only grows, every revision was authorised by an owner
    of its time, readers change only with fresh keys, and the terminal hash
    commits to the whole journal. *)

From S2P Require Import Prelude VaultTypes Canonical Preimage Binding Rollover Validate WitnessPolicy PolicyState Identifiers Replay ReplayRegistry ReplayState ReplayRotation ReplayLineage.
Local Open Scope jury_scope.

(** The journal with the same genesis and other revisions. *)
Definition with_revisions (j : PolicyJournalV1) (revs : list SignedPolicyRevisionV1) : PolicyJournalV1 :=
  {| pj_genesis := pj_genesis j; pj_revisions := revs |}.

Section theorems.
Context `{Crypto}.
Implicit Types (j : PolicyJournalV1) (s : PolicyState) (cat : gmap Digest32 WitnessPolicy).

(** ** Prefixes of an accepted journal *)

Lemma replay_genesis_prefix j revs revs' cat s :
  (len revs ≤ len revs')%N →
  replay_genesis (with_revisions j revs') cat = Ok s → replay_genesis (with_revisions j revs) cat = Ok s.
Proof.
  unfold replay_genesis, with_revisions. cbn [pj_genesis pj_revisions]. intros Hle Hg.
  destruct (reject_if _ _) as [[]|] eqn:E in Hg; [|done]. apply reject_if_Ok in E.
  apply orb_false_iff in E as [E Hlen].
  assert ((MAX_POLICY_REVISIONS <? len revs)%N = false) as Hl by (split_guard; to_prop; lia).
  rw E Hl. exact Hg.
Qed.

(** A run over [revs ++ more] passes through the state that [revs] yields. *)
Lemma replay_app j revs more cat s' :
  replay_policy_with_catalog (with_revisions j (revs ++ more)) cat = Ok s' →
  ∃ st st', replay_policy_with_catalog (with_revisions j revs) cat = Ok (rs_state st) ∧
    ps_sequence (rs_state st) = rs_index st ∧ rs_index st = len revs ∧
    foldE (replay_step (pj_genesis j)) st more = Ok st' ∧ s' = rs_state st'.
Proof.
  unfold replay_policy_with_catalog. intros Hr. repeat inv_ok_step.
  match goal with Hx : replay_genesis _ _ = Ok _ |- _ => rename Hx into Hg end.
  match goal with Hx : foldE _ _ _ = Ok _ |- _ => rename Hx into Hf end.
  apply (replay_genesis_prefix j revs) in Hg as Hg'; [|rw len_app; lia].
  apply replay_genesis_ok in Hg as (Hk & fp & _ & ->). cbn [pj_revisions with_revisions pj_genesis] in *.
  rw foldE_app in Hf. apply bind_Ok in Hf as (st & Hst & Hf).
  apply replay_loop_replays in Hst as Hl; [|done]. destruct Hl as (Hrun & Hi & _).
  exists st. eexists. rw Hg' /= Hst. split_and!; try done.
  apply replays_lineage in Hrun as []; [|done]. congruence.
Qed.

Lemma replay_last j revs r cat s' :
  replay_policy_with_catalog (with_revisions j (revs ++ [r])) cat = Ok s' →
  ∃ s, replay_policy_with_catalog (with_revisions j revs) cat = Ok s ∧
    pr_sequence r = (len revs + 1)%N ∧ revision_step (pj_genesis j) s r s'.
Proof.
  intros (st & st' & Hr & Hseq & Hi & Hf & ->)%replay_app. cbn in Hf.
  apply bind_Ok in Hf as (st1 & Hstep & <-%Ok_inj).
  apply replay_step_ok in Hstep as (Hn & _ & _ & _ & Hstep); [|done].
  exists (rs_state st). rw Hi in Hn. done.
Qed.

Lemma replay_sound j cat s : replay_policy_with_catalog j cat = Ok s → sound s.
Proof. by intros (fp & _ & _ & [] & _)%replay_ok. Qed.

(** ** Readers *)

Lemma effective_role_reader s id p role :
  effective_role s id p = Some role → p ∈ effective_reader_ids s id.
Proof.
  unfold effective_role, effective_reader_ids. rw elem_of_sorted_elements elem_of_union.
  case_bool_decide; [by left|right]. destruct (ps_items s !! id) as [i|] eqn:E; [|done].
  cbn in *. by eapply elem_of_dom_2.
Qed.

Lemma sound_recipients s id i slot :
  sound s → ps_items s !! id = Some i → slot ∈ it_direct_slots i →
  ds_recipient_principal_id slot ∈ effective_reader_ids s id ∧ ds_key_epoch slot = it_key_epoch i.
Proof.
  intros [_ [_ _ Hi] _ _ _] [_ _ Hs _]%Hi Hslot. rw Forall_forall in Hs. apply Hs in Hslot as [].
  destruct dss_role as (role & ? & _). split; [by eapply effective_role_reader|done].
Qed.

Lemma revision_step_items genesis s r s' id i i' :
  registry s → revision_step genesis s r s' →
  ps_items s !! id = Some i → ps_items s' !! id = Some i' →
  (same_keys i i' ∧ effective_reader_ids s id = effective_reader_ids s' id) ∨
  renewed s (pr_sequence r) id i i'.
Proof.
  intros Hreg [_ _ _ _ _ (next & h & -> & _ & Hn)] Hi Hi'. cbn [push_revision_hash ps_items] in Hi'.
  destruct Hn as [(_ & _ & _ & ->)|[_ Ha]].
  - cbn in Hi'. simplify_eq. by left.
  - destruct (apply_operations_items _ _ _ _ Hreg Ha _ _ Hi') as [(i0 & ? & Hor)|[Hnew _]].
    + simplify_eq. done.
    + destruct Hnew. destruct Hreg as [_ [Hlive _ _]]. apply Hlive. by eapply elem_of_dom_2.
Qed.

(** ** Timestamps *)

Definition last_timestamp (j : PolicyJournalV1) : N :=
  match last (pj_revisions j) with
  | Some r => pr_timestamp_ms r
  | None => pg_created_at_ms (pj_genesis j)
  end.

Lemma sorted_timestamps_last g revs t :
  sorted_timestamps (pg_created_at_ms g) revs t →
  t = last_timestamp {| pj_genesis := g; pj_revisions := revs |}.
Proof. destruct 1 as [|revs t r]; unfold last_timestamp; cbn; [done|]. by rw last_snoc. Qed.

(** ** Extending an accepted journal *)

Lemma replay_snoc j r cat s :
  replay_policy_with_catalog j cat = Ok s →
  (len (pj_revisions j) + 1 ≤ MAX_POLICY_REVISIONS)%N →
  replay_policy_with_catalog (with_revisions j (pj_revisions j ++ [r])) cat =
  (rs_state <$> replay_step (pj_genesis j)
     {| rs_index := len (pj_revisions j); rs_state := s; rs_prior_timestamp := last_timestamp j |} r).
Proof.
  unfold replay_policy_with_catalog. intros Hr Hmax. repeat inv_ok_step.
  match goal with Hx : replay_genesis _ _ = Ok _ |- _ => rename Hx into Hg end.
  match goal with Hx : foldE _ _ _ = Ok ?st0 |- _ => rename Hx into Hf; rename st0 into st end.
  assert (replay_genesis (with_revisions j (pj_revisions j ++ [r])) cat = replay_genesis j cat) as ->.
  { rw Hg. revert Hg. unfold replay_genesis, with_revisions. cbn [pj_genesis pj_revisions].
    destruct (reject_if _ _) as [[]|] eqn:E at 1; [|done]. apply reject_if_Ok in E.
    apply orb_false_iff in E as [-> Hlen]. rw len_app.
    by replace (MAX_POLICY_REVISIONS <? len (pj_revisions j) + len [r])%N with false
      by (symmetry; split_guard; exact Hmax). }
  rw Hg. cbn [mbind result_bind with_revisions pj_genesis pj_revisions].
  apply replay_genesis_ok in Hg as (Hk & fp & _ & ->).
  rw foldE_app Hf. apply replay_loop_replays in Hf as (_ & Hi & Ht); [|done].
  apply sorted_timestamps_last in Ht. destruct st as [i s t]. cbn in Hi, Ht. subst i t.
  cbn. destruct j as [g revs]. cbn. by destruct (replay_step _ _ _).
Qed.

Lemma signature_preimage_unsigned sig r :
  SignedPolicyRevisionV1_signature_preimage (set_revision_signature sig r) =
  SignedPolicyRevisionV1_signature_preimage r.
Proof. done. Qed.

Lemma prepared_step {S} `{PolicySigner S} genesis s (signer : S) timestamp ops p prior :
  (∀ d m sig, signer_descriptor signer = Ok d → signer_sign signer m = Ok sig →
    verify_bytes (pd_verification_public_key d) m sig = true) →
  prepare_with_signer s signer timestamp ops = Ok p →
  (ps_sequence s + 1 ≤ MAX_POLICY_REVISIONS)%N ∧
  replay_step genesis
    {| rs_index := ps_sequence s; rs_state := s; rs_prior_timestamp := prior |} (prep_revision p) =
  if (prior <=? timestamp)%N
  then Ok {| rs_index := ps_sequence s + 1; rs_state := prep_state p; rs_prior_timestamp := timestamp |}
  else Err InvalidAncestry.
Proof.
  intros Hsigner. unfold prepare_with_signer. intros Hp. repeat inv_ok_step. to_prop.
  match goal with Hx : checked_add_u64 _ _ = Some _ |- _ => apply checked_add_u64_Some in Hx end.
  subst. cbn [prep_revision prep_state]. split; [done|]. unfold replay_step.
  cbn [set_revision_signature rs_state rs_index rs_prior_timestamp pr_vault_id pr_sequence
    pr_previous_revision_hash pr_timestamp_ms pr_operations pr_author_principal_id
    pr_resulting_policy_state_hash pr_signature].
  match goal with Hx : apply_operations _ _ ops = Ok _ |- _ => rename Hx into Ha end.
  destruct ops as [|op ops]; [by cbn in Ha|].
  cbn [andb]. rw !bool_decide_true //. cbn [negb orb]. rw orb_false_r.
  rw N.leb_antisym. destruct (timestamp <? prior)%N; [done|]. cbn [negb reject_if mbind result_bind].
  match goal with Hx : signer_sign _ ?m = Ok ?sig, Hd : signer_descriptor _ = Ok ?d |- _ =>
    pose proof (Hsigner d m sig Hd Hx) as Hv end.
  rw signature_preimage_unsigned. unfold check_signature.
  repeat (match goal with Hx : ?x = _ |- context [?x] =>
    rw Hx; cbn [ok_or map_err negb reject_if mbind result_bind] end).
  by rw bool_decide_true.
Qed.

(** ** Properties *)

(** C1: a journal that replays yields a sound state: the registry of used
    identifiers and keys is consistent, there is a human owner, every grant,
    direct slot and witnessed slot of every live item names active principals
    with the right kind, key and role, every owner holds exactly one descriptor
    and one body slot of every item that has direct slots, and the slots of
    every item passed the format checks at an earlier sequence. *)
Theorem replay_state_sound j cat s :
  replay_policy_with_catalog j cat = Ok s → sound s ∧ ps_sequence s = len (pj_revisions j).
Proof. intros (fp & _ & _ & [] & _)%replay_ok. done. Qed.

(** C5: history only grows. Every prefix of an accepted journal is accepted, the
    later state extends the earlier one, and an item that was deleted is never
    live again. *)
Theorem replay_history j revs more cat s' :
  replay_policy_with_catalog (with_revisions j (revs ++ more)) cat = Ok s' →
  ∃ s, replay_policy_with_catalog (with_revisions j revs) cat = Ok s ∧ extends s s' ∧
    ∀ id, id ∈ dom (ps_tombstones s) → ps_items s' !! id = None.
Proof.
  intros Hr. apply replay_sound in Hr as Hsound.
  apply replay_app in Hr as (st & st' & Hr & _ & _ & Hf & ->).
  exists (rs_state st). split; [done|].
  apply replay_revisions_grow in Hf. apply replay_sound in Hr as [Hreg _ _ _ _].
  destruct (Hf Hreg) as [[_ [_ _ Hdisj]] Hext]. split; [done|]. intros id Hid.
  apply not_elem_of_dom. destruct Hext. apply subseteq_dom in ext_tombstones. set_solver.
Qed.

(** C6: every revision of an accepted journal was signed by a principal who was
    an owner when it was applied, with the key that was registered then, and
    links to the revision before it. *)
Theorem replay_authorised j pre r post cat s' :
  pj_revisions j = pre ++ r :: post → replay_policy_with_catalog j cat = Ok s' →
  ∃ s, replay_policy_with_catalog (with_revisions j pre) cat = Ok s ∧ authorised s r ∧
    pr_sequence r = (len pre + 1)%N ∧ pr_previous_revision_hash r = ps_terminal_revision_hash s.
Proof.
  intros Hj Hr. destruct j as [g revs]. cbn in Hj. subst revs.
  rw cons_middle assoc_L in Hr.
  apply (replay_app {| pj_genesis := g; pj_revisions := [] |}) in Hr as (st & _ & Hr & _).
  apply replay_last in Hr as (s & Hs & Hn & []). by exists s.
Qed.

(** C7: revocation. Between an accepted journal and the same journal without
    its last revision, an item keeps its key epoch and slots only if its
    readers stayed the same; otherwise its epoch is the next one, its
    descriptor is of that epoch, and its slots were checked for that epoch.
    Every direct slot of the later state is addressed to a current reader. *)
Theorem replay_rotation j revs r cat s' :
  replay_policy_with_catalog (with_revisions j (revs ++ [r])) cat = Ok s' →
  ∃ s, replay_policy_with_catalog (with_revisions j revs) cat = Ok s ∧
    ∀ id i i', ps_items s !! id = Some i → ps_items s' !! id = Some i' →
      ((same_keys i i' ∧ effective_reader_ids s id = effective_reader_ids s' id) ∨
       renewed s (pr_sequence r) id i i') ∧
      ∀ slot, slot ∈ it_direct_slots i' →
        ds_recipient_principal_id slot ∈ effective_reader_ids s' id ∧
        ds_key_epoch slot = it_key_epoch i'.
Proof.
  intros Hr. apply replay_sound in Hr as Hsound.
  apply replay_last in Hr as (s & Hr & _ & Hstep). exists s. split; [done|].
  intros id i i' Hi Hi'. split.
  - eapply revision_step_items; [|done..]. by apply replay_sound in Hr as [].
  - intros slot Hslot. by eapply sound_recipients.
Qed.

(** A prepared revision replays. A revision prepared on the state of an
    accepted journal, by a signer whose signatures verify under its
    descriptor's key, extends the journal to one that replays to the prepared
    state, exactly when its timestamp is not before the journal's last. *)
Theorem prepared_revision_replays {S} `{PolicySigner S} (signer : S) j cat s timestamp ops p :
  replay_policy_with_catalog j cat = Ok s →
  (∀ d m sig, signer_descriptor signer = Ok d → signer_sign signer m = Ok sig →
    verify_bytes (pd_verification_public_key d) m sig = true) →
  prepare_with_signer s signer timestamp ops = Ok p →
  replay_policy_with_catalog (with_revisions j (pj_revisions j ++ [prep_revision p])) cat =
  if (last_timestamp j <=? timestamp)%N then Ok (prep_state p) else Err InvalidAncestry.
Proof.
  intros Hr Hsigner Hp. apply replay_ok in Hr as Hl.
  destruct Hl as (fp & _ & _ & [_ _ Hseq _ _ _ _] & _).
  pose proof (prepared_step (pj_genesis j) s signer timestamp ops p (last_timestamp j) Hsigner Hp)
    as [Hmax Hstep].
  rw (replay_snoc _ _ _ s) //; [|by rw -Hseq]. rw -Hseq Hstep. by case_match.
Qed.
End theorems.
