(* ===== verification/PolicyTheorems.v ===== *)
(** * Theorems about policy states and their lineage

    What the terminal hash and the lineage of a replayed state establish, what
    [PolicyState::access] answers on replayed states, and which sets of
    operations a revision may contain. *)

From S2P Require Import Prelude VaultTypes Canonical Preimage Binding Rollover Validate WitnessPolicy PolicyState Identifiers Replay ReplayRegistry ReplayState ReplayRotation ReplayLineage ReplayTheorems.
Local Open Scope jury_scope.

Section theorems.
Context `{Crypto}.
Implicit Types (j : PolicyJournalV1) (s : PolicyState) (cat : gmap Digest32 WitnessPolicy).

(** ** Lineage *)

Lemma replay_linked j cat s :
  replay_policy_with_catalog j cat = Ok s →
  journal_linked j (ps_terminal_revision_hash s) ∧
  ps_sequence s = len (pj_revisions j) ∧
  (len (pj_revisions j) ≤ MAX_POLICY_REVISIONS)%N ∧
  length (ps_revision_hashes s) = S (length (pj_revisions j)) ∧
  last (ps_revision_hashes s) = Some (ps_terminal_revision_hash s) ∧
  ∀ k, k ≤ length (pj_revisions j) → ∃ h, ps_revision_hashes s !! k = Some h ∧
    journal_linked (with_revisions j (take k (pj_revisions j))) h.
Proof.
  intros Hr. apply replay_ok in Hr as Hl.
  destruct Hl as (fp & Hfp & _ & [_ _ Hseq Hlen Hlast Hpre Hlink] & _).
  cbn in Hlink, Hpre. split_and!; try done.
  - by exists fp.
  - unfold replay_policy_with_catalog, replay_genesis in Hr. repeat inv_ok_step. to_prop. done.
  - intros k Hk. destruct (Hpre k Hk) as (h & Hh & Hl). exists h. split; [done|]. by exists fp.
Qed.

Lemma journal_preimages_take j k p :
  p ∈ journal_preimages (with_revisions j (take k (pj_revisions j))) → p ∈ journal_preimages j.
Proof.
  rw !elem_of_journal_preimages. intros [Hg|(r & Hr & Hp)]; [by left|right]. exists r.
  split; [|done]. cbn in Hr. by eapply elem_of_take in Hr as (? & ? & _); eapply list_elem_of_lookup_2.
Qed.

Lemma wt_take j k :
  PolicyJournalV1_wt j = true →
  PolicyJournalV1_wt (with_revisions j (take k (pj_revisions j))) = true.
Proof.
  unfold PolicyJournalV1_wt. intros Hw. to_prop. split_guard; [done|]. to_forall.
  apply forallb_eq_true. cbn. by apply Forall_take.
Qed.

Lemma saturating_succ_length {A B} (l : list A) (k : list B) :
  (len k ≤ MAX_POLICY_REVISIONS)%N → len k = saturating_add_u64 (len l) 1 → length k = S (length l).
Proof. unfold saturating_add_u64, u64_max, MAX_POLICY_REVISIONS, len. lia. Qed.

(** ** Access *)

(** A way to the item's keys: a direct slot of one's own, or the witnesses. *)
Definition reachable (i : ItemPolicyState) (p : PrincipalId) : bool :=
  has_direct_slot i p || is_some (it_witnessed_state i).

Lemma access_role_ok s id p c i v role :
  ps_items s !! id = Some i → ps_principals s !! p = Some v →
  effective_role s id p = Some role → role_permits role c = true → reachable i p = true →
  access s id p c =
    {| ax_allowed := true; ax_effective_role := Some role;
       ax_path := if has_direct_slot i p then
                    if it_witnessed_state i is Some _ then AP_Mixed else AP_Direct
                  else AP_Witnessed;
       ax_carries_quorum_claim := negb (has_direct_slot i p); ax_reason := AX_Allowed |}.
Proof.
  unfold access, reachable. intros -> -> -> -> Hp. cbn.
  destruct (has_direct_slot i p), (it_witnessed_state i); done.
Qed.

Lemma has_direct_slot_iff i p :
  has_direct_slot i p = true ↔ ∃ slot, slot ∈ it_direct_slots i ∧ ds_recipient_principal_id slot = p.
Proof.
  unfold has_direct_slot. rw existsb_exists. setoid_rewrite <- list_elem_of_In.
  by setoid_rewrite bool_decide_eq_true.
Qed.

Lemma sound_owner_reaches s id i o :
  sound s → ps_items s !! id = Some i → o ∈ ps_owners s → reachable i o = true.
Proof.
  intros [_ [_ _ Hit] Hos _ _] Hi Ho. unfold reachable.
  destruct (it_direct_slots i) as [|slot slots] eqn:E.
  - destruct (Hit id i Hi) as [[m Hm] _ _ _]. unfold access_mode in Hm. rw E in Hm.
    destruct (it_witnessed_state i); [by rw orb_true_r|done].
  - apply orb_true_iff. left. apply has_direct_slot_iff.
    destruct (Hos id i o Hi Ho) as (d & b & Hperm & _); [by rw E|]. exists d.
    assert (d ∈ slots_for o (it_direct_slots i)) as Hd by (rw Hperm; apply elem_of_cons; by left).
    unfold slots_for in Hd. rw list_elem_of_In filter_In -list_elem_of_In in Hd.
    destruct Hd as [? Hd]. by to_prop.
Qed.

Lemma has_kind_principal s k p :
  has_kind s k p = true →
  ∃ v, ps_principals s !! p = Some v ∧ pd_principal_kind (pp_descriptor v) = k.
Proof.
  unfold has_kind. destruct (ps_principals s !! p) as [v|]; [|done]. intros Hk. to_prop. eauto.
Qed.

(** ** Properties *)

(** C31: the terminal hash of a replayed state commits to the journal. Two
    accepted journals of well formed records whose states have the same
    terminal hash agree in everything but the fields no hash covers, when no
    two of the strings they hash collide. *)
Theorem replay_commits j1 j2 cat1 cat2 s1 s2 :
  replay_policy_with_catalog j1 cat1 = Ok s1 → replay_policy_with_catalog j2 cat2 = Ok s2 →
  ps_terminal_revision_hash s1 = ps_terminal_revision_hash s2 →
  PolicyJournalV1_wt j1 = true → PolicyJournalV1_wt j2 = true →
  collision_free (journal_preimages j1 ++ journal_preimages j2) →
  erase_journal j1 = erase_journal j2.
Proof.
  intros [Hl1 _]%replay_linked [Hl2 _]%replay_linked Heq Hw1 Hw2 Hcf. rw Heq in Hl1.
  by eapply journal_linked_inj.
Qed.

(** One more revision makes a direct descendant. *)
Theorem replay_descends j revs r cat s s' :
  replay_policy_with_catalog (with_revisions j revs) cat = Ok s →
  replay_policy_with_catalog (with_revisions j (revs ++ [r])) cat = Ok s' →
  is_direct_descendant_of s' s = true.
Proof.
  intros Hs Hs'. pose proof (replay_linked _ _ _ Hs) as (_ & Hseq & _ & Hlen & Hlast & _).
  pose proof (replay_linked _ _ _ Hs') as (_ & Hseq' & Hmax & Hlen' & Hlast' & _).
  apply replay_app in Hs' as (st & st' & Hst & _ & _ & Hf & ->).
  rw Hs in Hst. apply Ok_inj in Hst as ->. apply replay_sound in Hs as [Hreg _ _ _ _].
  destruct (replay_revisions_grow _ _ _ _ Hf Hreg) as [_ [_ Hv Hg _ [tl Hpre] _ _ _ _ _ _]].
  cbn [with_revisions pj_revisions] in *. rw len_app in Hmax. rw len_app in Hseq'.
  assert (len [r] = 1%N) as Hone by done. unfold MAX_POLICY_REVISIONS in Hmax.
  assert (len (ps_revision_hashes (rs_state st)) = (len revs + 1)%N) as Hl
    by (unfold len; rw Hlen; lia).
  assert (len (ps_revision_hashes (rs_state st')) = (len revs + 2)%N) as Hl'
    by (unfold len; rw Hlen' length_app /=; lia).
  unfold is_direct_descendant_of, starts_with_list, checked_add_u64, saturating_add_u64.
  rw Hv Hg Hseq Hseq' Hl Hl' Hlast Hlast' Hone Hpre take_app_length.
  unfold u64_max in *. assert ((len revs + 1 <=? 18446744073709551615)%N = true) as -> by (split_guard; lia).
  split_guard; done || (try f_equal; lia).
Qed.

(** [is_direct_descendant_of] recognises only such extensions. If it
    accepts the states of two accepted journals of well formed records, the
    later journal is the earlier one with one more revision, up to the fields
    no hash covers, when no two of the strings they hash collide. *)
Theorem descendant_extends j j' cat cat' s s' :
  replay_policy_with_catalog j cat = Ok s → replay_policy_with_catalog j' cat' = Ok s' →
  is_direct_descendant_of s' s = true →
  PolicyJournalV1_wt j = true → PolicyJournalV1_wt j' = true →
  collision_free (journal_preimages j ++ journal_preimages j') →
  ∃ revs r, pj_revisions j' = revs ++ [r] ∧
    erase_journal (with_revisions j' revs) = erase_journal j.
Proof.
  intros (Hlink & Hseq & _ & Hlen & Hlast & _)%replay_linked
    (_ & Hseq' & Hmax & Hlen' & _ & Hpre)%replay_linked Hd Hw Hw' Hcf.
  unfold is_direct_descendant_of, starts_with_list in Hd. to_prop.
  set (n := length (pj_revisions j)) in *.
  match goal with Hx : ps_sequence s' = saturating_add_u64 _ _ |- _ => rename Hx into Hn end.
  match goal with Hx : take _ _ = ps_revision_hashes s |- _ => rename Hx into Htake end.
  assert (length (pj_revisions j') = S n) as Hn'.
  { rw Hseq Hseq' in Hn. by apply saturating_succ_length in Hn. }
  destruct (Hpre n ltac:(lia)) as (h & Hh & Hl).
  assert (h = ps_terminal_revision_hash s) as ->.
  { rw last_lookup Hlen /= -Htake lookup_take_lt in Hlast; [|lia]. congruence. }
  destruct (pj_revisions j') as [|r revs _] eqn:E using rev_ind; [done|].
  rw length_app /= in Hn'. exists revs, r. split; [done|]. rw take_app_le in Hl; [|lia].
  rw take_ge in Hl; [|lia].
  replace revs with (take n (pj_revisions j')) in Hl |- * by (rw E take_app_le; [apply take_ge|]; lia).
  eapply journal_linked_inj; [by apply wt_take|done|done|done|].
  intros p q Hp Hq. apply Hcf; rw elem_of_app; rw elem_of_app in Hp; rw elem_of_app in Hq;
    naive_solver eauto using journal_preimages_take.
Qed.

(** Access is decided by activity, role and reachability: a capability is
    allowed exactly when the item is live, the principal is active, its
    effective role permits the capability, and it has a direct slot or the item
    is witnessed. The quorum claim is made exactly for an allowed principal
    without a direct slot. *)
Theorem access_allowed_iff s id p c :
  (ax_allowed (access s id p c) = true ↔
   ∃ i v role, ps_items s !! id = Some i ∧ ps_principals s !! p = Some v ∧
     effective_role s id p = Some role ∧ role_permits role c = true ∧ reachable i p = true) ∧
  (ax_carries_quorum_claim (access s id p c) = true ↔
   ax_allowed (access s id p c) = true ∧
     ∀ i, ps_items s !! id = Some i → has_direct_slot i p = false).
Proof.
  destruct (ps_items s !! id) as [i|] eqn:Ei;
    [|unfold access; rw Ei; cbn; split; [split; [done|naive_solver]|naive_solver]].
  destruct (ps_principals s !! p) as [v|] eqn:Ev;
    [|unfold access; rw Ei Ev; cbn; split; [split; [done|naive_solver]|naive_solver]].
  destruct (effective_role s id p) as [role|] eqn:Er;
    [|unfold access; rw Ei Ev Er; cbn; split; [split; [done|naive_solver]|naive_solver]].
  destruct (role_permits role c) eqn:Ep;
    [|unfold access; rw Ei Ev Er Ep; cbn; split; [split; [done|naive_solver congruence]|naive_solver]].
  destruct (reachable i p) eqn:Ea.
  - rw (access_role_ok s id p c i v role) //. cbn. split; [naive_solver|].
    rw negb_true_iff. naive_solver.
  - unfold access. rw Ei Ev Er Ep. unfold reachable in Ea. cbn.
    apply orb_false_iff in Ea as [Ed Ew]. unfold reachable. rw Ed Ew. cbn.
    split; [split; [done|]|naive_solver]. intros (i' & v' & r' & [= <-] & _ & _ & _ & Hx).
    by rw Ed Ew in Hx.
Qed.

(** In a replayed state an owner has every capability on every live item,
    and whoever holds a direct slot may read the item, without a quorum. *)
Theorem replay_access j cat s :
  replay_policy_with_catalog j cat = Ok s →
  (∀ id i o c, ps_items s !! id = Some i → o ∈ ps_owners s →
    ax_allowed (access s id o c) = true ∧ ax_effective_role (access s id o c) = Some AR_Owner) ∧
  (∀ id i slot, ps_items s !! id = Some i → slot ∈ it_direct_slots i →
    let a := access s id (ds_recipient_principal_id slot) Cap_Read in
    ax_allowed a = true ∧ ax_carries_quorum_claim a = false).
Proof.
  intros Hs%replay_sound. split.
  - intros id i o c Hi Ho. pose proof (sound_owner_reaches _ _ _ _ Hs Hi Ho) as Hreach.
    destruct Hs as [_ [_ Hhum _] _ _ _]. destruct (has_kind_principal s PK_Human o) as (v & Hv & _); [auto|].
    rw (access_role_ok s id o c i v AR_Owner) //. unfold effective_role. by rw bool_decide_true.
  - intros id i slot Hi Hslot. destruct Hs as [_ [_ _ Hit] _ _ _].
    destruct (Hit id i Hi) as [_ _ Hsl _]. rw Forall_forall in Hsl. apply Hsl in Hslot as Hss.
    destruct Hss as [(v & Hv & _) (role & Hrole & _) _ _ _].
    assert (has_direct_slot i (ds_recipient_principal_id slot) = true) as Hd
      by (apply has_direct_slot_iff; eauto).
    cbv zeta. rw (access_role_ok s id _ Cap_Read i v role) //; [by cbn; rw Hd|by destruct role|].
    unfold reachable. by rw Hd.
Qed.

(** A revision never mutates the same thing twice: the operations of an
    accepted list have pairwise distinct keys (an operation kind and the
    principal, the item, or the item and principal it changes). *)
Theorem operations_unambiguous s n ops s' :
  apply_operations s n ops = Ok s' → NoDup (operation_key <$> ops) ∧ ops ≠ [].
Proof.
  unfold apply_operations. intros Ha. repeat inv_ok_step. split; [|by destruct ops].
  match goal with Hx : foldE (operation_step _ _) ?st0 _ = Ok ?st |- _ =>
    refine (proj1 (foldE_invariant (λ pre st, NoDup (operation_key <$> pre) ∧
      os_keys st = list_to_set (operation_key <$> pre)) _ _ ops [] st0 st _ Hx)) end;
    [|split; [by apply NoDup_nil|done]].
  clear. intros pre st op st' [Hnd Hk] Hstep. unfold operation_step in Hstep. repeat inv_ok_step. to_prop.
  rw fmap_app NoDup_snoc. cbn [os_keys fmap list_fmap]. rw list_to_set_snoc -Hk.
  split; [split; [done|]|done]. match goal with Hx : (_ ∉ os_keys st) |- _ => by rw Hk elem_of_list_to_set in Hx end.
Qed.
End theorems.
