(* ===== verification/CatalogTheorems.v ===== *)
(** * Theorems about witness policies and their catalogue

    What [WitnessPolicy::validate] guarantees of a policy, what
    [replay_policy_with_witness_policies] guarantees of the set of policies it
    is given, and how the two reach the witnessed items of a replayed state. *)

From S2P Require Import Prelude VaultTypes Canonical Preimage Binding Rollover Validate WitnessPolicy PolicyState Identifiers Replay ReplayRegistry ReplayState ReplayRotation ReplayLineage ReplayTheorems.
Local Open Scope jury_scope.

Section theorems.
Context `{Crypto}.

(** ** A validated policy *)

Record approver_sound (d : ApproverPolicyDescriptor) : Prop := {
  as_fingerprint : ad_signing_key_fingerprint d =
    signing_key_fingerprint 2 (ad_approver_id d) (ad_signing_key_epoch d) (ad_signing_public_key d);
  as_signature : ∃ m, ApproverPolicyDescriptor_self_signature_preimage d = Ok m ∧
    verify_bytes (ad_signing_public_key d) m (ad_self_signature d) = true;
}.

Record witness_sound (d : WitnessPolicyDescriptor) : Prop := {
  wso_share : (1 ≤ wd_share_index d ≤ 32)%N;
  wso_fingerprint : wd_signing_key_fingerprint d =
    signing_key_fingerprint 3 (wd_witness_id d) (wd_signing_key_epoch d) (wd_signing_public_key d);
  wso_contribution : wd_contribution_key_fingerprint d =
    recipient_public_key_fingerprint (wd_contribution_public_key d);
  wso_signature : ∃ m, WitnessPolicyDescriptor_self_signature_preimage d = Ok m ∧
    verify_bytes (wd_signing_public_key d) m (wd_self_signature d) = true;
}.

Record rule_sound (p : WitnessPolicy) (r : OperationRule) : Prop := {
  rus_distinct : NoDup (rule_eligible_approver_ids r);
  rus_size : (len (rule_eligible_approver_ids r) ≤ 32)%N;
  rus_threshold : (rule_approval_threshold r ≤ len (rule_eligible_approver_ids r))%N;
  rus_eligible : ∀ a, a ∈ rule_eligible_approver_ids r →
    ∃ d, d ∈ wp_approver_descriptors p ∧ ad_approver_id d = a ∧ ad_status d = DS_Active ∧
      rule_operation r ∈ ad_allowed_operations d;
  rus_automatic : rule_approval_threshold r = 0%N ↔ rule_automatic_read_targets r ≠ [];
  rus_automatic_read : rule_approval_threshold r = 0%N → rule_operation r = WO_ReadStdout;
}.

Record policy_sound (p : WitnessPolicy) : Prop := {
  pso_quorum : (2 ≤ wp_witness_threshold p ≤ len (active_witness_descriptors p))%N;
  pso_size : (len (active_witness_descriptors p) ≤ 32)%N;
  pso_members : NoDup ((ad_approver_id <$> wp_approver_descriptors p) ++
    (wd_witness_id <$> wp_witness_descriptors p));
  pso_signing_keys : NoDup ((ad_signing_public_key <$> wp_approver_descriptors p) ++
    (wd_signing_public_key <$> wp_witness_descriptors p));
  pso_contribution_keys : NoDup (wd_contribution_public_key <$> wp_witness_descriptors p);
  pso_shares : NoDup (wd_share_index <$> active_witness_descriptors p);
  pso_approvers : Forall approver_sound (wp_approver_descriptors p);
  pso_witnesses : Forall witness_sound (wp_witness_descriptors p);
  pso_rules : NoDup (rule_operation <$> wp_operation_rules p) ∧
    Forall (rule_sound p) (wp_operation_rules p);
  pso_no_fallback : wp_direct_fallback p = false;
}.

Global Instance WitnessOperation_ord_laws : OrdLaws WitnessOperation.
Proof.
  split; unfold cmp, WitnessOperation_ord.
  - intros x y. rw N.compare_eq_iff. split; [|by intros ->]. by destruct x, y.
  - intros x y. apply N.compare_antisym.
  - intros x y z. rw !N.compare_lt_iff. lia.
Qed.

Lemma outside_false lo hi n : outside lo hi n = false → (lo ≤ n ≤ hi)%N.
Proof. unfold outside. intros Ho. to_prop. done. Qed.

Lemma approver_validate_ok d u : ApproverPolicyDescriptor_validate d = Ok u → approver_sound d.
Proof.
  unfold ApproverPolicyDescriptor_validate, check_signature. intros Hv. repeat inv_ok_step. to_prop.
  split; [done|eauto].
Qed.

Lemma witness_validate_ok d u : WitnessPolicyDescriptor_validate d = Ok u → witness_sound d.
Proof.
  unfold WitnessPolicyDescriptor_validate, check_signature. intros Hv. repeat inv_ok_step. to_prop.
  split; [by apply outside_false|done|done|eauto].
Qed.

Lemma active_approvers_lookup p a d :
  collect_map ((λ d, (ad_approver_id d, d)) <$> active_approver_descriptors p) !! a = Some d →
  d ∈ wp_approver_descriptors p ∧ ad_approver_id d = a ∧ ad_status d = DS_Active.
Proof.
  intros (d' & [= -> ->] & Hin)%collect_map_Some%list_elem_of_fmap.
  unfold active_approver_descriptors, is_active_approver in Hin.
  rw list_elem_of_In filter_In -list_elem_of_In in Hin. destruct Hin. by to_prop.
Qed.

Lemma rule_validate_ok p r u u' :
  OperationRule_validate r = Ok u →
  rule_approvers_check (collect_map ((λ d, (ad_approver_id d, d)) <$> active_approver_descriptors p)) r
    = Ok u' → rule_sound p r.
Proof.
  unfold OperationRule_validate, rule_approvers_check. intros Hv%reject_if_Ok Ha. to_prop.
  match goal with Hx : strictly_sorted_unique (rule_eligible_approver_ids r) = true |- _ =>
    apply sorted_by_key_NoDup in Hx; rw list_fmap_id in Hx end.
  destruct (bool_decide_reflect (rule_approval_threshold r = 0%N)) as [Hz|Hz]; cbn in *; to_prop.
  - split; try done. intros a Hin. eapply forE_Ok in Ha; [|done]. repeat inv_ok_step. to_prop.
    match goal with Hx : _ !! a = Some _ |- _ => apply active_approvers_lookup in Hx end. naive_solver.
  - split; try done. intros a Hin. eapply forE_Ok in Ha; [|done]. repeat inv_ok_step. to_prop.
    match goal with Hx : _ !! a = Some _ |- _ => apply active_approvers_lookup in Hx end. naive_solver.
Qed.

Lemma size_NoDup {K} `{Countable K} (l : list K) n :
  N.of_nat (size (collect_set l)) = n → n = len l → NoDup l.
Proof. intros <- Hl. apply size_collect_set. unfold len in Hl. lia. Qed.

Lemma policy_validate_ok p u : WitnessPolicy_validate p = Ok u → policy_sound p.
Proof.
  unfold WitnessPolicy_validate. intros Hv. repeat inv_ok_step. to_prop.
  repeat match goal with Hx : outside _ _ _ = false |- _ => apply outside_false in Hx end.
  repeat match goal with Hx : N.of_nat (size (collect_set ?l)) = ?n |- _ =>
    apply (size_NoDup l n) in Hx; [|unfold len; rw ?length_app ?length_fmap; lia] end.
  repeat match goal with Hx : forE _ _ = Ok _ |- _ => rw forE_Ok in Hx end.
  split; try done; try lia.
  - apply Forall_forall. intros d Hd. by eapply approver_validate_ok; auto.
  - apply Forall_forall. intros d Hd. by eapply witness_validate_ok; auto.
  - split; [by apply sorted_by_key_NoDup|]. apply Forall_forall. intros r Hr.
    eapply rule_validate_ok; eauto.
Qed.

(** ** The catalogue *)

(** The loop's invariant: the three maps describe the policies read. *)
Record catalogued (pre : list WitnessPolicy) (st : catalog_scan) : Prop := {
  ca_entry : ∀ d p, cat_catalog st !! d = Some p →
    p ∈ pre ∧ WitnessPolicy_validate p = Ok tt ∧ WitnessPolicy_digest p = Ok d ∧
    cat_lineage st !! (wp_witness_policy_id p, wp_revision p) = Some d ∧
    ((1 < wp_revision p)%N → cat_successors st !! wp_predecessor_policy_digest p = Some d);
  ca_all : ∀ p, p ∈ pre → ∃ d, cat_catalog st !! d = Some p;
}.

Lemma catalog_step_ok pre st p st' :
  catalogued pre st → catalog_step st p = Ok st' → catalogued (pre ++ [p]) st'.
Proof.
  intros [He Ha]. unfold catalog_step. intros Hs. repeat inv_ok_step. to_prop.
  match goal with Hx : WitnessPolicy_digest p = Ok ?x |- _ => rename x into d; rename Hx into Hd end.
  match goal with Hx : is_some (cat_catalog st !! d) = false |- _ =>
    destruct (cat_catalog st !! d) eqn:Hnew; [done|clear Hx] end.
  match goal with Hx : is_some (cat_lineage st !! ?k) = false |- _ =>
    destruct (cat_lineage st !! k) eqn:Hlin; [done|clear Hx] end.
  split; cbn [cat_catalog cat_lineage cat_successors].
  - intros d' q. rw lookup_insert_Some elem_of_app list_elem_of_singleton.
    intros [[<- <-]|[Hne (Hin & Hv & Hd' & Hl & Hsu)%He]].
    + rw lookup_insert_eq. split_and!; try done; [by right|]. intros Hlt%N.ltb_lt. rw Hlt.
      by rw lookup_insert_eq.
    + rw lookup_insert_ne; [|congruence]. split_and!; try done; [by left|]. intros Hlt.
      specialize (Hsu Hlt). case_match; [|done]. rw lookup_insert_ne; [done|]. intros Heq.
      match goal with Hx : (true && is_some _) = false |- _ => rw Heq Hsu in Hx end. done.
  - intros q. rw elem_of_app list_elem_of_singleton. intros [(d' & Hq)%Ha| ->].
    + exists d'. rw lookup_insert_ne; [done|congruence].
    + exists d. by rw lookup_insert_eq.
Qed.

Record catalog_sound (policies : list WitnessPolicy) (cat : gmap Digest32 WitnessPolicy) : Prop := {
  cs_entry : ∀ d p, cat !! d = Some p →
    p ∈ policies ∧ WitnessPolicy_validate p = Ok tt ∧ WitnessPolicy_digest p = Ok d;
  cs_all : ∀ p, p ∈ policies → ∃ d, cat !! d = Some p;
  cs_unique : ∀ d d' p p', cat !! d = Some p → cat !! d' = Some p' →
    wp_witness_policy_id p = wp_witness_policy_id p' → wp_revision p = wp_revision p' → d = d';
  cs_no_fork : ∀ d d' p p', cat !! d = Some p → cat !! d' = Some p' →
    (1 < wp_revision p)%N → (1 < wp_revision p')%N →
    wp_predecessor_policy_digest p = wp_predecessor_policy_digest p' → d = d';
  cs_predecessor : ∀ d p, cat !! d = Some p → (1 < wp_revision p)%N →
    ∃ q, cat !! wp_predecessor_policy_digest p = Some q ∧
      wp_witness_policy_id q = wp_witness_policy_id p ∧ (wp_revision q + 1 = wp_revision p)%N;
}.

Lemma build_catalog_ok policies cat : build_catalog policies = Ok cat → catalog_sound policies cat.
Proof.
  unfold build_catalog. intros Hb. repeat inv_ok_step.
  match goal with Hx : foldE catalog_step ?st0 _ = Ok ?st |- _ =>
    eapply (foldE_invariant catalogued _ catalog_step_ok policies [] st0 st) in Hx as [He Ha];
      [|split; [by intros ???|by intros ? ?%elem_of_nil]] end.
  cbn [app] in *. match goal with Hx : forE _ _ = Ok _ |- _ => rw forE_Ok in Hx; rename Hx into Hpre end.
  split; try done.
  - intros d p (? & ? & ? & _)%He. done.
  - intros d d' p p' (_ & _ & _ & Hl & _)%He (_ & _ & _ & Hl' & _)%He Hid Hrev.
    rw Hid Hrev Hl' in Hl. congruence.
  - intros d d' p p' (_ & _ & _ & _ & Hs)%He (_ & _ & _ & _ & Hs')%He H1 H2 Hp.
    specialize (Hs H1). specialize (Hs' H2). rw Hp Hs' in Hs. congruence.
  - intros d p (Hin & _)%He Hlt. specialize (Hpre p).
    assert (predecessor_check (cat_catalog r) p = Ok tt) as Hc.
    { apply Hpre. rw list_elem_of_In filter_In -list_elem_of_In. split; [done|by apply N.ltb_lt]. }
    unfold predecessor_check in Hc. repeat inv_ok_step. to_prop.
    match goal with Hx : checked_add_u64 _ _ = Some _ |- _ => apply checked_add_u64_Some in Hx end.
    eexists. split_and!; [done..|lia].
Qed.

(** Every earlier revision of a catalogued policy is catalogued. *)
Lemma catalog_lineage policies cat d p k :
  catalog_sound policies cat → cat !! d = Some p → (1 ≤ k ≤ wp_revision p)%N →
  ∃ d' q, cat !! d' = Some q ∧ wp_witness_policy_id q = wp_witness_policy_id p ∧ wp_revision q = k.
Proof.
  intros Hcat Hp Hk. remember (wp_revision p) as m eqn:Em. revert d p Em Hp Hk.
  induction m as [|m IH] using N.peano_ind; intros d p Em Hp Hk; [lia|].
  destruct (decide (k = wp_revision p)) as [->|Hne]; [by exists d, p|].
  destruct (cs_predecessor _ _ Hcat d p Hp) as (q & Hq & Hid & Hrev); [lia|].
  destruct (IH _ q ltac:(lia) Hq ltac:(lia)) as (d' & q' & ? & ? & ?). exists d', q'. by rw -Hid.
Qed.

(** ** Witnessed items *)

Lemma find_first_digest s id i w :
  witnessed_sound s id i w → ∃ first policy, head (wst_slots w) = Some first ∧
    ps_witness_policies s !! ws_witness_policy_digest first = Some policy ∧
    ws_threshold first = wp_witness_threshold policy ∧
    (wd_witness_id <$> active_witness_descriptors policy) ≡ₚ (wc_witness_id <$> ws_capsules first) ∧
    Forall (capsule_bound s policy) (ws_capsules first).
Proof.
  intros [(first & policy & Hhead & Hpol & _ & _ & _ & _ & Hperm & Hcaps & Hslots)].
  exists first, policy. split_and!; try done. rw Forall_forall in Hslots.
  destruct (Hslots first) as (_ & _ & _ & ? & _); [|done]. by destruct (wst_slots w); simplify_eq; set_solver.
Qed.

Lemma NoDup_fmap_filter {A B} (f : A → B) (g : A → bool) l :
  NoDup (f <$> l) → NoDup (f <$> List.filter g l).
Proof.
  induction l as [|x l IH]; [done|]. cbn. intros [Hx Hl]%NoDup_cons. case_match; [|auto].
  cbn. constructor; [|auto]. intros (y & Hy & Hin)%list_elem_of_fmap. apply Hx.
  rw list_elem_of_In filter_In -list_elem_of_In in Hin. destruct Hin. rw Hy.
  by apply list_elem_of_fmap_2.
Qed.

Lemma all_witnesses_active s policy caps :
  Forall (capsule_bound s policy) caps →
  List.filter (has_kind s PK_Witness) (wc_witness_id <$> caps) = wc_witness_id <$> caps.
Proof.
  induction 1 as [|c caps (d & v & _ & _ & Hv & Hk & _) Hall IH]; [done|]. cbn.
  unfold has_kind at 1. rw Hv bool_decide_true //. by f_equal.
Qed.

(** The policies of a replayed state passed validation. *)
Lemma replayed_policies_sound j policies s d p :
  replay_policy_with_witness_policies j policies = Ok s → ps_witness_policies s !! d = Some p → policy_sound p.
Proof.
  unfold replay_policy_with_witness_policies. intros Hr Hp. repeat inv_ok_step.
  match goal with Hx : build_catalog _ = Ok _ |- _ => apply build_catalog_ok in Hx as Hcat end.
  apply replay_ok in Hr as (fp & _ & _ & [_ Hext _ _ _ _ _] & _). rw (ext_catalog _ _ Hext) in Hp.
  apply (cs_entry _ _ Hcat) in Hp as (_ & Hv & _). by apply policy_validate_ok in Hv.
Qed.

(** ** Properties *)

(** A policy that passes validation has a sound quorum: at least two and
    at most thirty-two active witnesses with distinct identifiers, keys and
    share indexes, a threshold between two and their number, descriptors signed
    by their own keys, no identifier or key shared between members, one rule
    per operation whose approvers are active and allowed, and approval-free
    rules only for listed reads. *)
Theorem witness_policy_sound p : WitnessPolicy_validate p = Ok tt → policy_sound p.
Proof. apply policy_validate_ok. Qed.

(** An accepted set of policies is a set of complete, fork-free histories:
    every catalogued policy is valid and stored under its digest, policy and
    revision determine it, each policy has at most one successor, and every
    revision before a catalogued one is catalogued. *)
Theorem catalog_histories policies cat :
  build_catalog policies = Ok cat →
  catalog_sound policies cat ∧
  ∀ d p k, cat !! d = Some p → (1 ≤ k ≤ wp_revision p)%N →
    ∃ d' q, cat !! d' = Some q ∧ wp_witness_policy_id q = wp_witness_policy_id p ∧ wp_revision q = k.
Proof. intros Hc%build_catalog_ok. split; [done|]. intros d p k. by apply (catalog_lineage policies). Qed.

(** C34: in a state replayed with a set of policies, the witnesses of every
    witnessed item can serve it: its policy is in the set and valid, its
    threshold is between two and the number of capsules, every capsule is
    for a distinct active witness principal with the keys the policy names,
    and [witness_authority] reports the item reachable. *)
Theorem witnessed_items_served j policies s id i w :
  replay_policy_with_witness_policies j policies = Ok s →
  ps_items s !! id = Some i → it_witnessed_state i = Some w →
  ∃ policy first a, policy ∈ policies ∧ policy_sound policy ∧ head (wst_slots w) = Some first ∧
    WitnessPolicy_digest policy = Ok (ws_witness_policy_digest first) ∧
    (2 ≤ ws_threshold first ≤ len (ws_capsules first))%N ∧
    NoDup (wc_witness_id <$> ws_capsules first) ∧ Forall (capsule_bound s policy) (ws_capsules first) ∧
    witness_authority s id = Ok (Some a) ∧ wa_reachable a = true ∧
    wa_carries_quorum_claim a = bool_decide (it_direct_slots i = []).
Proof.
  unfold replay_policy_with_witness_policies. intros Hr Hi Hw. repeat inv_ok_step.
  match goal with Hx : build_catalog _ = Ok _ |- _ => apply build_catalog_ok in Hx as Hcat end.
  apply replay_ok in Hr as (fp & _ & _ & [Hsound Hext _ _ _ _ _] & _).
  destruct Hsound as [_ [_ _ Hit] _ _ _]. apply Hit in Hi as Hits.
  destruct (find_first_digest s id i w) as (first & policy & Hhead & Hpol & Hthr & Hperm & Hcaps);
    [by apply its_witnessed|].
  rw (ext_catalog _ _ Hext) in Hpol. cbn in Hpol. apply (cs_entry _ _ Hcat) in Hpol as (Hin & Hv & Hdig).
  apply policy_validate_ok in Hv. exists policy, first. eexists.
  assert (len (active_witness_descriptors policy) = len (ws_capsules first)) as Hlen.
  { unfold len. f_equal. apply Permutation_length in Hperm. by rw !length_fmap in Hperm. }
  assert (NoDup (wd_witness_id <$> active_witness_descriptors policy)) as Hnd.
  { apply NoDup_fmap_filter. by apply pso_members, NoDup_app in Hv as (_ & _ & ?). }
  pose proof (pso_quorum _ Hv) as Hq. rw Hthr -Hlen. split_and!; try done; try lia.
  - by rw -Hperm.
  - unfold witness_authority. rw Hi /= Hw Hhead /=. done.
  - cbn. rw (all_witnesses_active _ policy) //. apply N.leb_le. unfold len in *. rw length_fmap. lia.
  - cbn. by destruct (it_direct_slots i).
Qed.
End theorems.
