(* ===== verification/VaultTheorems.v ===== *)
(** * Theorems about vault files

    What [VaultFileV1::validate] guarantees of a file as a whole (its hash
    chains, the uniqueness of nonces, seals and slot identifiers), how the
    validated file relates to the replayed policy, and when [parse] and
    [to_json_bytes] are inverse to each other. *)

From S2P Require Import Prelude VaultTypes Canonical Preimage Binding Rollover Validate ValidateSlots ValidateVault WitnessPolicy PolicyState Replay ReplayLineage.
Local Open Scope jury_scope.

(** ** The slot inventory *)

(** The slots the operations of a journal install, in order. *)
Definition direct_of (op : PolicyOperationV1) : list DirectSlotV1 :=
  if operation_slots op is Some (direct, _) then direct else [].

Definition witnessed_of (op : PolicyOperationV1) : list WitnessedSlotV1 :=
  if operation_slots op is Some (_, Some state) then wst_slots state else [].

Definition journal_operations (j : PolicyJournalV1) : list PolicyOperationV1 :=
  pj_revisions j ≫= pr_operations.

Definition direct_scope (s : DirectSlotV1) : RevisionSealId * seal_scope :=
  (ds_revision_seal_id s, (ds_item_id s, ds_content_role s, ds_revision s)).

Definition witnessed_scope (s : WitnessedSlotV1) : RevisionSealId * seal_scope :=
  (ws_revision_seal_id s, (ws_item_id s, ws_content_role s, ws_revision s)).

Definition operation_scopes (op : PolicyOperationV1) : list (RevisionSealId * seal_scope) :=
  (direct_scope <$> direct_of op) ++ (witnessed_scope <$> witnessed_of op).

(** The scopes and slot identifiers read so far. *)
Record inventoried (scopes : list (RevisionSealId * seal_scope)) (ids : list SlotId)
    (st : inventory) : Prop := {
  iv_scopes : consistent scopes;
  iv_map : inv_seal_scopes st = collect_map scopes;
  iv_ids : NoDup ids;
  iv_dom : dom (inv_witnessed_slot_ids st) = list_to_set ids;
}.

Lemma register_scope_ok scopes m seal item role revision m' :
  consistent scopes → m = collect_map scopes →
  register_scope m seal item role revision = Ok m' →
  consistent (scopes ++ [(seal, (item, role, revision))]) ∧
  m' = collect_map (scopes ++ [(seal, (item, role, revision))]).
Proof.
  intros Hc ->. unfold register_scope. rw collect_map_snoc.
  destruct (collect_map scopes !! seal) as [old|] eqn:E.
  - intros [Hg <-%Ok_inj]%reject_if_bind. to_prop. subst old. split; [|by rw insert_id].
    apply consistent_snoc. split; [done|]. rw E. cbn. by rw bool_decide_true.
  - intros <-%Ok_inj. split; [|done]. apply consistent_snoc. by rw E.
Qed.

Lemma inventory_direct_ok suite scopes ids slots st m :
  inventoried scopes ids st →
  foldE (inventory_direct_step suite) (inv_seal_scopes st) slots = Ok m →
  Forall (λ s, ds_suite s = suite) slots ∧
  consistent (scopes ++ (direct_scope <$> slots)) ∧ m = collect_map (scopes ++ (direct_scope <$> slots)).
Proof.
  intros [Hc Hm _ _]. revert m. induction slots as [|s slots IH] using rev_ind; intros m.
  { cbn. intros <-%Ok_inj. by rw app_nil_r. }
  rw foldE_snoc_Ok. intros (m1 & (Hf & Hc1 & ->)%IH & [Hs Hreg]%reject_if_bind). to_prop.
  rw fmap_app (assoc_L (++)). apply (register_scope_ok _ _ _ _ _ _ _ Hc1 eq_refl) in Hreg as [? ?].
  split_and!; [by apply Forall_app; split; [|apply Forall_singleton]|done|done].
Qed.

Lemma inventory_witnessed_ok suite scopes ids slots st st' :
  inventoried scopes ids st →
  foldE (inventory_witnessed_step suite) st slots = Ok st' →
  Forall (λ s, ws_suite s = suite) slots ∧
  inventoried (scopes ++ (witnessed_scope <$> slots)) (ids ++ (ws_slot_id <$> slots)) st'.
Proof.
  intros Hst. revert st'. induction slots as [|s slots IH] using rev_ind; intros st'.
  { cbn. intros <-%Ok_inj. by rw !app_nil_r. }
  rw foldE_snoc_Ok. intros (st1 & [Hf [Hc Hm Hn Hd]]%IH & Hstep). unfold inventory_witnessed_step in Hstep.
  apply reject_if_bind in Hstep as [Hs (m & Hreg & [Hid <-%Ok_inj]%reject_if_bind)%bind_Ok]. to_prop.
  rw !fmap_app !(assoc_L (++)). apply (register_scope_ok _ _ _ _ _ _ _ Hc Hm) in Hreg as [? ?].
  split; [by apply Forall_app; split; [|apply Forall_singleton]|].
  split; cbn [inv_seal_scopes inv_witnessed_slot_ids]; try done.
  - apply NoDup_snoc. split; [done|]. rw -(elem_of_list_to_set (C := gset _)) -Hd elem_of_dom.
    intros [x Hx]. by rw Hx in Hid.
  - rw dom_insert_L list_to_set_snoc Hd. done.
Qed.

(** What the inventory shows of the operations read. *)
Record inventory_of (suite : N) (ops : list PolicyOperationV1) (st : inventory) : Prop := {
  io_scan : inventoried (ops ≫= operation_scopes) (ws_slot_id <$> (ops ≫= witnessed_of)) st;
  io_direct : Forall (λ s, ds_suite s = suite) (ops ≫= direct_of);
  io_witnessed : Forall (λ s, ws_suite s = suite) (ops ≫= witnessed_of);
}.

Lemma inventory_operation_ok suite ops st op st' :
  inventory_of suite ops st → inventory_operation_step suite st op = Ok st' →
  inventory_of suite (ops ++ [op]) st'.
Proof.
  intros [Hsc Hd Hw]. unfold inventory_operation_step.
  assert (inventory_of suite (ops ++ [op]) st' ↔
    inventoried ((ops ≫= operation_scopes) ++ operation_scopes op)
      ((ws_slot_id <$> (ops ≫= witnessed_of)) ++ (ws_slot_id <$> witnessed_of op)) st' ∧
    Forall (λ s, ds_suite s = suite) (direct_of op) ∧
    Forall (λ s, ws_suite s = suite) (witnessed_of op)) as ->.
  { split.
    - intros [Hs' Hd' Hw']. rw !bind_app /= !app_nil_r in Hs' Hd' Hw'. rw fmap_app in Hs'.
      apply Forall_app in Hd' as [_ ?], Hw' as [_ ?]. done.
    - intros (Hs' & ? & ?). split; rw !bind_app /= !app_nil_r; rw ?fmap_app; try done; by apply Forall_app. }
  destruct (operation_slots op) as [[direct witnessed]|] eqn:E.
  - assert (direct_of op = direct ∧ witnessed_of op = if witnessed is Some state then wst_slots state else [])
      as [Ed Ew] by (unfold direct_of, witnessed_of; rw E; by destruct witnessed).
    unfold operation_scopes at 2. rw Ed Ew (assoc_L (++)).
    intros Hf. repeat inv_ok_step.
    match goal with Hx : foldE (inventory_direct_step _) _ _ = Ok _ |- _ =>
      apply (inventory_direct_ok _ _ _ _ _ _ Hsc) in Hx as (? & ? & ->) end.
    apply (inventory_witnessed_ok _ ((ops ≫= operation_scopes) ++ (direct_scope <$> direct))
      (ws_slot_id <$> (ops ≫= witnessed_of))) in Hf as [? ?]; [|by destruct Hsc; split].
    done.
  - assert (direct_of op = [] ∧ witnessed_of op = []) as [Ed Ew]
      by (unfold direct_of, witnessed_of; by rw E).
    intros <-%Ok_inj. unfold operation_scopes at 2. rw Ed Ew. by rw !app_nil_r.
Qed.

Lemma validate_slot_inventory_ok `{Crypto} vault u :
  validate_slot_inventory vault = Ok u →
  ∃ st, inventory_of (vh_suite (vf_header vault)) (journal_operations (vf_policy vault)) st.
Proof.
  unfold validate_slot_inventory. intros Hv. apply bind_Ok in Hv as (st & Hf & _). exists st.
  refine (foldE_invariant (λ revs st, inventory_of (vh_suite (vf_header vault)) (revs ≫= pr_operations) st)
    _ _ (pj_revisions (vf_policy vault)) [] _ st _ Hf).
  - intros revs st1 r st2 Hst Hr. rw bind_app /= app_nil_r.
    exact (foldE_invariant (inventory_of _) _ (inventory_operation_ok _) _ _ _ _ Hst Hr).
  - split; [|by apply Forall_nil..]. split; cbn; [by intros ??? ?%elem_of_nil|done|by apply NoDup_nil|].
    by rw dom_empty_L.
Qed.

(** ** Conflict markers *)

Definition conflict_markers : list bytes := [str "<<<<<<<"; str "======="; str ">>>>>>>"].

Lemma starts_with_iff m line : starts_with m line = true ↔ m `prefix_of` line.
Proof.
  unfold starts_with. rw bool_decide_eq_true. split.
  - intros Ht. exists (drop (length m) line). rewrite <- Ht at 1. by rw take_drop.
  - intros [k ->]. by rw take_app_length.
Qed.

Lemma split_lines_cons b bs :
  split_lines (b :: bs) =
  if b ==? Byte.x0a then [] :: split_lines bs
  else (b :: default [] (head (split_lines bs))) :: tail (split_lines bs).
Proof.
  cbn [split_lines]. case_bool_decide; [done|]. destruct (split_lines bs) eqn:E; [|done].
  destruct bs as [|c bs]; [done|]. cbn in E. repeat case_match; done.
Qed.

Lemma split_lines_nonempty bs : split_lines bs ≠ [].
Proof. destruct bs as [|b bs]; [done|]. rw split_lines_cons. by case_bool_decide. Qed.

Lemma elem_of_conflict_markers m :
  m ∈ conflict_markers ↔ m = str "<<<<<<<" ∨ m = str "=======" ∨ m = str ">>>>>>>".
Proof. unfold conflict_markers. rw !elem_of_cons elem_of_nil. tauto. Qed.

Lemma conflict_markers_plain m : m ∈ conflict_markers → Byte.x0a ∉ m.
Proof.
  rw elem_of_conflict_markers. intros [->|[->| ->]]; by apply (bool_decide_unpack _).
Qed.

Lemma first_line_prefix m bs :
  (Byte.x0a ∉ m) → m `prefix_of` default [] (head (split_lines bs)) ↔ m `prefix_of` bs.
Proof.
  revert bs. induction m as [|c m IH]; intros bs Hm; [split; intros; apply prefix_nil|].
  apply not_elem_of_cons in Hm as [Hc Hm].
  destruct bs as [|b bs]; [done|]. rw split_lines_cons. case_bool_decide as Hb; cbn [head default].
  - subst b. split; [by intros ?%prefix_nil_not|]. by intros ?%prefix_cons_inv_1.
  - split.
    + intros Hp. apply prefix_cons_inv_1 in Hp as Heq. apply prefix_cons_inv_2 in Hp. subst.
      by apply prefix_cons, IH.
    + intros Hp. apply prefix_cons_inv_1 in Hp as Heq. apply prefix_cons_inv_2 in Hp. subst.
      by apply prefix_cons, IH.
Qed.

Lemma later_line_prefix m bs :
  (Byte.x0a ∉ m) →
  (∃ line, line ∈ tail (split_lines bs) ∧ m `prefix_of` line) ↔
  ∃ pre post, bs = pre ++ Byte.x0a :: m ++ post.
Proof.
  intros Hm. induction bs as [|b bs IH].
  { split; [by intros (? & ?%elem_of_nil & _)|by intros ([] & ? & ?)]. }
  rw split_lines_cons. case_bool_decide as Hb; cbn [tail].
  - subst b. split.
    + intros (line & Hin & Hp). destruct (split_lines bs) as [|l ls] eqn:E; [set_solver|].
      apply elem_of_cons in Hin as [->|Hin].
      * assert (m `prefix_of` bs) as [post ->] by (apply first_line_prefix; [done|by rw E]).
        by exists [], post.
      * destruct IH as [IH _]. destruct IH as (pre & post & ->); [by exists line|].
        by exists (Byte.x0a :: pre), post.
    + intros ([|b pre] & post & [= Hbs]).
      * exists (default [] (head (split_lines bs))). split; [|apply first_line_prefix; [done|by eexists]].
        destruct (split_lines bs) eqn:E; [by apply split_lines_nonempty in E|left].
      * destruct IH as [_ IH]. destruct IH as (line & Hin & Hp); [by exists pre, post|].
        exists line. split; [|done]. by destruct (split_lines bs); [|right].
  - rw IH. split.
    + intros (pre & post & ->). by exists (b :: pre), post.
    + intros ([|c pre] & post & [= ? ->]); [done|]. by exists pre, post.
Qed.

(** The three markers hold no newline and are looked for at line starts. *)
Lemma contains_conflict_marker_lines bs :
  contains_conflict_marker bs = true ↔
  ∃ m line, m ∈ conflict_markers ∧ line ∈ split_lines bs ∧ m `prefix_of` line.
Proof.
  unfold contains_conflict_marker. rw existsb_exists. setoid_rewrite <- list_elem_of_In.
  setoid_rewrite orb_true_iff. setoid_rewrite orb_true_iff. setoid_rewrite starts_with_iff.
  setoid_rewrite elem_of_conflict_markers. split.
  - intros (line & Hin & [[?|?]|?]); eexists _, line; eauto.
  - intros (m & line & [->|[->| ->]] & Hin & Hp); exists line; auto 6.
Qed.

(** A file is refused for conflict markers exactly when one of the three
    markers stands at the start of the file or right after a newline. *)
Theorem conflict_marker_iff bs :
  contains_conflict_marker bs = true ↔
  ∃ m, m ∈ conflict_markers ∧
    (m `prefix_of` bs ∨ ∃ pre post, bs = pre ++ Byte.x0a :: m ++ post).
Proof.
  rw contains_conflict_marker_lines. split.
  - intros (m & line & Hm & Hin & Hp). exists m. split; [done|].
    assert (Byte.x0a ∉ m) as Hnl by by eapply conflict_markers_plain.
    destruct (split_lines bs) as [|l ls] eqn:E; [set_solver|].
    apply elem_of_cons in Hin as [->|Hin]; [left|right].
    + apply first_line_prefix; [done|]. by rw E.
    + apply later_line_prefix; [done|]. exists line. by rw E.
  - intros (m & Hm & Hor). assert (Byte.x0a ∉ m) as Hnl by by eapply conflict_markers_plain.
    destruct Hor as [Hp|Hp].
    + exists m, (default [] (head (split_lines bs))). split; [done|].
      split; [|by apply first_line_prefix]. destruct (split_lines bs) eqn:E; [|left].
      by apply split_lines_nonempty in E.
    + apply later_line_prefix in Hp as (line & Hin & Hp); [|done]. exists m, line. split_and!; try done.
      by destruct (split_lines bs); [|right].
Qed.

Section properties.
Context `{Crypto}.

Lemma validate_header_ok vault u :
  validate_header vault = Ok u →
  vh_vault_id (vf_header vault) = pg_vault_id (pj_genesis (vf_policy vault)) ∧
  vh_created_at_ms (vf_header vault) = pg_created_at_ms (pj_genesis (vf_policy vault)) ∧
  vh_suite (vf_header vault) = pg_suite (pj_genesis (vf_policy vault)).
Proof. unfold validate_header. intros Hv. repeat inv_ok_step. to_prop. done. Qed.

(** The journal of a validated file is one hash chain from the genesis the
    header names: its revisions carry the sequences 1, 2, ... and the file's
    vault, each names the hash of the record before it, each of their
    operations is well formed at its sequence, and only the first revision of a
    rollover with an empty manifest has no operations. *)
Theorem validated_journal vault :
  VaultFileV1_validate vault = Ok tt →
  ∃ terminal, journal_linked (vf_policy vault) terminal ∧
    journal_prefix vault (pj_revisions (vf_policy vault))
      (len (pj_revisions (vf_policy vault)), terminal) ∧
    PolicyGenesisV1_recomputed_fingerprint (pj_genesis (vf_policy vault)) =
      Ok (vh_genesis_fingerprint (vf_header vault)).
Proof.
  intros (Hh & Hp & _)%validate_vault_parts. apply validate_header_fingerprint in Hh.
  apply validate_policy_ok in Hp as [terminal Hp]. exists terminal. split; [|done].
  destruct Hp as [_ Hl _ _ _ _]. by exists (vh_genesis_fingerprint (vf_header vault)).
Qed.

(** The items of a validated file are in order and intact: item
    identifiers increase, every ciphertext has the digest and the bucket length
    its metadata names, an item's revisions form a hash chain from zero, and no
    nonce and no revision seal occurs twice in the file. *)
Theorem validated_items vault :
  VaultFileV1_validate vault = Ok tt →
  sorted_by_key ie_item_id (vf_items vault) = true ∧ Forall (item_ok vault) (vf_items vault) ∧
  NoDup (vf_items vault ≫= item_seals) ∧ NoDup (vf_items vault ≫= item_nonces) ∧
  NoDup (ie_item_id <$> vf_items vault).
Proof.
  intros (_ & _ & Hi & _)%validate_vault_parts.
  apply validate_items_ok in Hi as (? & ? & ? & ? & _). split_and!; try done.
  by apply sorted_by_key_NoDup.
Qed.

(** The slots of a validated file agree with each other: every slot any
    operation installs is of the vault's suite, no witnessed slot identifier is
    used twice, and a revision seal always stands for the same item, content
    role and revision. *)
Theorem validated_slots vault :
  VaultFileV1_validate vault = Ok tt →
  let ops := journal_operations (vf_policy vault) in
  let suite := vh_suite (vf_header vault) in
  Forall (λ s, ds_suite s = suite) (ops ≫= direct_of) ∧
  Forall (λ s, ws_suite s = suite) (ops ≫= witnessed_of) ∧
  NoDup (ws_slot_id <$> (ops ≫= witnessed_of)) ∧ consistent (ops ≫= operation_scopes).
Proof.
  intros (_ & _ & _ & _ & Hs)%validate_vault_parts.
  apply validate_slot_inventory_ok in Hs as [st [[] ? ?]]. done.
Qed.

(** A validated file and its replayed policy describe the same lineage. *)
Theorem validated_replay vault cat s :
  VaultFileV1_validate vault = Ok tt → replay_policy_with_catalog (vf_policy vault) cat = Ok s →
  ps_vault_id s = vh_vault_id (vf_header vault) ∧ ps_suite s = vh_suite (vf_header vault) ∧
  ps_genesis_fingerprint s = vh_genesis_fingerprint (vf_header vault) ∧
  journal_linked (vf_policy vault) (ps_terminal_revision_hash s) ∧
  ps_sequence s = len (pj_revisions (vf_policy vault)).
Proof.
  intros (Hh & _)%validate_vault_parts (fp & Hfp & _ & [_ Hext Hseq _ _ _ Hl] & _)%replay_ok.
  apply validate_header_fingerprint in Hh as Hhf. apply validate_header_ok in Hh as (Hv & _ & Hs).
  rw Hfp in Hhf. apply Ok_inj in Hhf. destruct Hext as [Es Ev Eg _ _ _ _ _ _ _ _].
  cbn in Es, Ev, Eg, Hl. rw Es Ev Eg Hv Hs Hhf. split_and!; try done.
  by exists fp.
Qed.

(** [validate_direct_slots] accepts exactly the canonical slot lists: every
    slot in its context, distinct encapsulations, strictly increasing keys, one
    role per recipient, one seal per content role, and a descriptor and a body
    slot for every recipient. *)
Theorem direct_slots_exact slots vault_id item_id epoch sequence mode :
  validate_direct_slots slots vault_id item_id epoch sequence mode = Ok tt ↔
  direct_slots_spec vault_id item_id epoch sequence mode slots.
Proof. apply validate_direct_slots_ok. Qed.

(** A witnessed state that validates is a descriptor slot and a body slot,
    each with a quorum of two to thirty-two distinct witnesses whose capsules
    are bound to the slot by their digests, and no encapsulation is shared. *)
Theorem witnessed_state_sound state vault_id fingerprint item_id epoch sequence mode :
  validate_witnessed_state state vault_id fingerprint item_id epoch sequence mode = Ok tt →
  witnessed_state_spec vault_id fingerprint item_id epoch sequence mode state.
Proof. apply validate_witnessed_state_ok. Qed.

(** ** JSON *)

Section json.
Context (json_probe : bytes → option HeaderProbeFields).
Context (json_vault : bytes → option VaultFileV1).
Context (json_pretty : VaultFileV1 → option bytes).

Abbreviation parse := (parse json_probe json_vault json_pretty).
Abbreviation to_json_bytes := (to_json_bytes json_pretty).

Definition probe_of (h : VaultHeaderV1) : HeaderProbeFields := {|
  hp_magic := vh_magic h;
  hp_version := vh_version h;
  hp_suite := vh_suite h;
  hp_policy_schema := vh_policy_schema h;
  hp_item_schema := vh_item_schema h;
  hp_identity_schema := vh_identity_schema h |}.

Lemma parse_ok bs vault :
  parse bs = Ok vault → VaultFileV1_validate vault = Ok tt ∧ to_json_bytes vault = Ok bs ∧
    (len bs ≤ MAX_VAULT_BYTES)%N ∧ contains_conflict_marker bs = false.
Proof.
  unfold parse, validate_json_input. intros Hp. repeat inv_ok_step. to_prop. subst. done.
Qed.

(** A vault has one accepted text: two texts that parse to the same vault
    are equal, and that text is what the vault prints as. *)
Theorem parse_unique bs1 bs2 vault :
  parse bs1 = Ok vault → parse bs2 = Ok vault → bs1 = bs2 ∧ to_json_bytes vault = Ok bs1.
Proof.
  intros (_ & Hb1 & _)%parse_ok (_ & Hb2 & _)%parse_ok. rw Hb1 in Hb2. by apply Ok_inj in Hb2.
Qed.

(** What prints parses back. If the JSON reader returns a vault and its
    header fields from the text the JSON printer made of it, and that text has
    no line that starts with a conflict marker, then the printed bytes parse to
    the vault. *)
Theorem print_parse vault bs :
  to_json_bytes vault = Ok bs →
  json_vault bs = Some vault → json_probe bs = Some (probe_of (vf_header vault)) →
  contains_conflict_marker bs = false →
  parse bs = Ok vault.
Proof.
  intros Hb Hj Hprobe Hc. assert (VaultFileV1_validate vault = Ok tt ∧ (len bs ≤ MAX_VAULT_BYTES)%N)
    as [Hv Hlen].
  { revert Hb. unfold to_json_bytes, pretty_json_bytes. intros Hb. repeat inv_ok_step. by to_prop. }
  apply validate_vault_parts in Hv as Hp. destruct Hp as (Hh & _).
  assert (validate_header_discriminants (probe_of (vf_header vault)) = Ok tt) as Hd.
  { unfold validate_header in Hh. apply bind_Ok in Hh as ([] & ? & _). done. }
  unfold parse, validate_json_input. rw Hc (proj2 (N.ltb_ge _ _)) // Hprobe /= Hd /= Hj /= Hv /= Hb /=.
  by rw bool_decide_true.
Qed.
End json.
End properties.
