(* ===== verification/GenesisTheorems.v ===== *)
(** * Theorems about the start of a lineage

    What [PolicyCreator::create_with_signer] and [generate_item_id] return, and
    which record of the journal binds the suite: the genesis does not, the
    first revision does. *)

From S2P Require Import Prelude VaultTypes Canonical Preimage Binding Rollover Validate WitnessPolicy PolicyState StateHash Identifiers Replay ReplayRegistry ReplayState ReplayRotation ReplayLineage ReplayTheorems.
Local Open Scope jury_scope.

(** The journal with another suite in its genesis. *)
Definition with_suite (suite : N) (j : PolicyJournalV1) : PolicyJournalV1 :=
  {| pj_genesis := set_suite suite (pj_genesis j); pj_revisions := pj_revisions j |}.

Section theorems.
Context `{Crypto}.

(** The suite is all that changes in the genesis state. *)
Lemma replay_genesis_suite j cat s suite :
  (suite = 1 ∨ suite = 2)%N → replay_genesis j cat = Ok s →
  ∃ fp, s = genesis_state (pj_genesis j) fp cat ∧
    replay_genesis (with_suite suite j) cat = Ok (genesis_state (set_suite suite (pj_genesis j)) fp cat).
Proof.
  intros Hs Hg. apply replay_genesis_ok in Hg as Hok. destruct Hok as (_ & fp & Hfp & ->).
  exists fp. split; [done|]. revert Hg. unfold replay_genesis.
  cbn [with_suite pj_genesis pj_revisions set_suite pg_policy_sequence pg_previous_policy_hash pg_suite
    pg_owner pg_item_inventory pg_direct_grants pg_owner_signature].
  change (PolicyGenesisV1_signature_preimage (set_suite suite (pj_genesis j)))
    with (PolicyGenesisV1_signature_preimage (pj_genesis j)).
  change (PolicyGenesisV1_recomputed_fingerprint (set_suite suite (pj_genesis j)))
    with (PolicyGenesisV1_recomputed_fingerprint (pj_genesis j)).
  rw Hfp. intros Hg. apply reject_if_bind in Hg as [Hc Hg]. apply reject_if_bind.
  split.
  - to_prop. split_guard; try done. destruct Hs as [->| ->]; done.
  - repeat inv_ok_step.
    repeat match goal with Hx : ?x = Ok _ |- context [?x] => rw Hx; cbn [map_err mbind result_bind] end.
    done.
Qed.

(** The state the first revision of a journal leads to, whatever hash it claims. *)
Definition first_state (j : PolicyJournalV1) (cat : gmap Digest32 WitnessPolicy)
    : result PolicyErrorKind PolicyState :=
  s ← replay_policy_with_catalog (with_revisions j []) cat;
  match pj_revisions j with
  | [] => Ok s
  | r :: _ => if pr_operations r is [] then Ok (set_sequence 1 s)
              else apply_operations s (pr_sequence r) (pr_operations r)
  end.

(** The hashed string starts with the suite. *)
Lemma state_preimage_suite s1 s2 p :
  u16 (ps_suite s1) = true → u16 (ps_suite s2) = true →
  normalized_state_preimage s1 = Ok p → normalized_state_preimage s2 = Ok p → ps_suite s1 = ps_suite s2.
Proof.
  intros Hu1 Hu2 Hp Hq.
  apply normalized_preimage_form in Hp as (l1 & m1 & [-> _ _ _ _ _ _ _ _ _]).
  apply normalized_preimage_form in Hq as (l2 & m2 & [Heq _ _ _ _ _ _ _ _ _]).
  apply app_inv_head in Heq. peel_step. done.
Qed.

Lemma replay_suite j cat s :
  replay_policy_with_catalog j cat = Ok s →
  ps_suite s = pg_suite (pj_genesis j) ∧ u16 (ps_suite s) = true.
Proof.
  intros Hr. apply replay_ok in Hr as Hl. destruct Hl as (fp & _ & _ & [_ [-> _ _ _ _ _ _ _ _ _ _] _ _ _ _ _] & _).
  split; [done|]. cbn. unfold replay_policy_with_catalog, replay_genesis in Hr. repeat inv_ok_step. to_prop.
  match goal with Hx : (_ ==? _) || (_ ==? _) = true |- _ => apply orb_true_iff in Hx as [Hx|Hx] end;
    to_prop; match goal with Hx : pg_suite _ = _ |- _ => by rw Hx end.
Qed.

(** The first revision of a journal that replays commits to [first_state]. *)
Lemma replay_first j r revs cat s :
  replay_policy_with_catalog {| pj_genesis := j; pj_revisions := r :: revs |} cat = Ok s →
  ∃ s1 p, first_state {| pj_genesis := j; pj_revisions := r :: revs |} cat = Ok s1 ∧
    ps_suite s1 = pg_suite j ∧ u16 (ps_suite s1) = true ∧
    normalized_state_preimage s1 = Ok p ∧ sha256 p = pr_resulting_policy_state_hash r.
Proof.
  intros (st & _ & Hr & _)%(replay_app {| pj_genesis := j; pj_revisions := [] |} [r] revs).
  apply replay_suite in Hr as Hsu. destruct Hsu as [Es Hu].
  apply (replay_last {| pj_genesis := j; pj_revisions := [] |} []) in Hr
    as (s0 & Hs0 & _ & [_ _ _ _ _ (n & h & En & Hh & Hor)]).
  apply fmap_Ok in Hh as (p & Hp & Hsha). rw En in Es Hu. exists n, p. split_and!; try done.
  unfold first_state. cbn [with_revisions pj_genesis pj_revisions] in *. rw Hs0. cbn.
  destruct Hor as [(-> & _ & _ & ->)|[Hne Ha]]; [done|].
  destruct (pr_operations r); [done|exact Ha].
Qed.

Lemma grants_step_error m slot : grants_step m slot ≠ Err IdentifierReused.
Proof. unfold grants_step, reject_if. case_match; [|done]. by case_match. Qed.

(** ** Properties *)

(** C39: the genesis record does not bind the suite. If a journal without
    revisions replays, the same record with the other supported suite replays
    too, with the same signature, genesis fingerprint and terminal hash. *)
Theorem genesis_suite_unbound j cat s suite :
  pj_revisions j = [] → replay_policy_with_catalog j cat = Ok s → (suite = 1 ∨ suite = 2)%N →
  ∃ s', replay_policy_with_catalog (with_suite suite j) cat = Ok s' ∧ ps_suite s' = suite ∧
    pg_owner_signature (pj_genesis (with_suite suite j)) = pg_owner_signature (pj_genesis j) ∧
    ps_genesis_fingerprint s' = ps_genesis_fingerprint s ∧
    ps_terminal_revision_hash s' = ps_terminal_revision_hash s.
Proof.
  unfold replay_policy_with_catalog. intros Hj Hr Hs. cbn [with_suite pj_revisions pj_genesis].
  rw Hj in Hr |- *. repeat inv_ok_step.
  match goal with Hx : replay_genesis _ _ = Ok _ |- _ =>
    apply (replay_genesis_suite _ _ _ suite Hs) in Hx as (fp & -> & Hg) end.
  match goal with Hx : foldE _ _ [] = Ok _ |- _ => cbn in Hx; apply Ok_inj in Hx as <- end.
  rw Hg. eexists. split; [done|]. done.
Qed.

(** The first revision binds it. A journal with a revision that replays is
    refused with any other suite in its genesis, because the first revision
    names the hash of a state that contains the suite: the two states it leads
    to under the two suites hash differently, unless SHA-256 collides on them. *)
Theorem first_revision_binds_suite j cat s s1 s2 p q suite :
  replay_policy_with_catalog j cat = Ok s → pj_revisions j ≠ [] → suite ≠ pg_suite (pj_genesis j) →
  first_state j cat = Ok s1 → normalized_state_preimage s1 = Ok p →
  first_state (with_suite suite j) cat = Ok s2 → normalized_state_preimage s2 = Ok q →
  collision_free [p; q] →
  ∃ e, replay_policy_with_catalog (with_suite suite j) cat = Err e.
Proof.
  intros Hr Hne Hs Hs1 Hp Hs2 Hq Hcf. destruct j as [g [|r revs]]; [done|].
  destruct (replay_policy_with_catalog (with_suite _ _) cat) as [s'|e] eqn:Hr'; [|eauto]. exfalso.
  apply replay_first in Hr as (n1 & p1 & Hn1 & Es1 & Hu1 & Hp1 & Hh1).
  apply replay_first in Hr' as (n2 & p2 & Hn2 & Es2 & Hu2 & Hp2 & Hh2).
  cbn in Hs, Es1, Es2. unfold with_suite in Hs2. cbn [pj_genesis pj_revisions] in *.
  assert (n1 = s1) as -> by congruence. assert (n2 = s2) as -> by congruence.
  assert (p = q) as -> by (apply Hcf; set_solver || congruence).
  apply Hs. rw -Es1 -Es2. by apply (state_preimage_suite _ _ q).
Qed.

(** A created policy is a new lineage of its creator: the journal replays to
    the returned state, whose only principal and owner is the signer, at
    sequence zero and without items, and whose vault identifier is a nonzero
    32-byte value the caller does not know. *)
Theorem created_policy_fresh {S R} `{PolicySigner S, RandomSource R} (source : R) suite (signer : S)
    created_at known cp :
  create_with_signer source suite signer created_at known = Ok cp →
  replay_policy (cp_journal cp) = Ok (cp_state cp) ∧
  (∃ d, signer_descriptor signer = Ok d ∧ pd_principal_id d = signer_principal_id signer ∧
    ps_principals (cp_state cp) =
      {[signer_principal_id signer := {| pp_descriptor := d; pp_display_label := str "owner" |}]}) ∧
  ps_owners (cp_state cp) = {[signer_principal_id signer]} ∧ ps_items (cp_state cp) = ∅ ∧
  ps_sequence (cp_state cp) = 0%N ∧ ps_suite (cp_state cp) = VaultSuite_id suite ∧
  length (ps_vault_id (cp_state cp)) = 32 ∧ is_zero (ps_vault_id (cp_state cp)) = false ∧
  known (ps_vault_id (cp_state cp)) = false.
Proof.
  unfold create_with_signer, generate_identifier. intros Hc. repeat inv_ok_step. to_prop.
  cbn [cp_journal cp_state]. split; [done|].
  match goal with Hx : (generate_identifier_loop ?n ?k ?src).1 = Ok _ |- _ =>
    destruct (generate_identifier_loop n k src) as [o src'] eqn:Eg; cbn in Hx; subst o end.
  apply generate_identifier_loop_ok in Eg as (Hlen & Hz & Hk).
  match goal with Hx : replay_policy ?j = Ok _ |- _ =>
    unfold replay_policy, replay_policy_with_catalog in Hx; repeat inv_ok_step;
    match goal with Hy : replay_genesis _ _ = Ok _ |- _ =>
      apply replay_genesis_ok in Hy as (_ & fp & _ & ->) end;
    match goal with Hy : foldE _ _ _ = Ok _ |- _ => cbn in Hy; apply Ok_inj in Hy as <- end end.
  cbn. match goal with Hx : signer_principal_id _ = pd_principal_id ?d |- _ => rw Hx; split_and!; try done;
    exists d; split_and!; done end.
Qed.

(** A generated item identifier is new: a nonzero 32-byte value that no
    item of the lineage ever had, so that creating an item with it is never
    refused as a reuse. *)
Theorem generated_item_id_fresh {R} `{RandomSource R} (source : R) s id kind epoch d h slots w :
  generate_item_id source s = Ok id →
  (id ∉ ps_historical_item_ids s) ∧ length id = 32 ∧ is_zero id = false ∧
  create_item s id kind epoch d h slots w ≠ Err IdentifierReused.
Proof.
  unfold generate_item_id, generate_identifier. rw map_err_Ok.
  destruct (generate_identifier_loop _ _ source) as [o source'] eqn:Eg. cbn. intros ->.
  apply generate_identifier_loop_ok in Eg as (Hlen & Hz & Hk). to_prop. split_and!; try done.
  unfold create_item. rw bool_decide_false //. cbn.
  assert (∀ m, foldE grants_step m slots ≠ Err IdentifierReused) as Hg.
  { induction slots as [|slot slots IH]; intros m; cbn [foldE]; [done|].
    pose proof (grants_step_error m slot) as Hne.
    destruct (grants_step m slot) as [m'|e]; cbn; [apply IH|]. congruence. }
  specialize (Hg ∅). by destruct (foldE grants_step ∅ slots) as [|[]].
Qed.
End theorems.
