(* ===== verification/PolicySpec.v ===== *)
(** * An abstract access-control machine and its refinement

    What the policy journal promises its users, without slots, descriptors or
    hashes: who is active, who owns the vault, which role each principal has on
    each item, and how often an item's key was renewed. The replay of
    [Replay] refines it: every accepted list of operations is a sequence of
    abstract steps followed by a renewal of the keys whose readers changed. *)

From S2P Require Import Prelude VaultTypes Canonical Preimage Binding Rollover Validate WitnessPolicy PolicyState Identifiers Replay ReplayRegistry ReplayState ReplayRotation ReplayLineage.
Local Open Scope jury_scope.

(** ** The machine *)

Record access_state := {
  a_active : gmap PrincipalId PrincipalKind;
  a_used : gset PrincipalId;
  a_owners : gset PrincipalId;
  a_grants : gmap ItemId (gmap PrincipalId AccessRole);
  a_epochs : gmap ItemId N;
  a_used_items : gset ItemId;
}.

Definition a_readers (a : access_state) (id : ItemId) : gset PrincipalId :=
  a_owners a ∪ default ∅ (dom <$> (a_grants a !! id)).

Definition a_move (p q : PrincipalId) (g : gmap PrincipalId AccessRole) : gmap PrincipalId AccessRole :=
  match g !! p with Some r => <[q := r]> (delete p g) | None => g end.

Definition swap_owner (p q : PrincipalId) (o : gset PrincipalId) : gset PrincipalId :=
  if p ∈? o then {[q]} ∪ (o ∖ {[p]}) else o.

Inductive a_step : access_state → access_state → Prop :=
  | a_skip a : a_step a a
  | a_add p k act used o g e ui :
      (p ∉ used) →
      a_step (Build_access_state act used o g e ui)
        (Build_access_state (<[p := k]> act) ({[p]} ∪ used) o g e ui)
  | a_remove p act used o g e ui :
      (p ∉ o) → is_Some (act !! p) → (∀ id m, g !! id = Some m → m !! p = None) →
      a_step (Build_access_state act used o g e ui)
        (Build_access_state (delete p act) used o g e ui)
  | a_own p act used o g e ui :
      act !! p = Some PK_Human → (p ∉ o) →
      a_step (Build_access_state act used o g e ui) (Build_access_state act used ({[p]} ∪ o) g e ui)
  | a_disown p act used o g e ui :
      p ∈ o → o ∖ {[p]} ≠ ∅ →
      a_step (Build_access_state act used o g e ui) (Build_access_state act used (o ∖ {[p]}) g e ui)
  | a_create id m act used o g e ui :
      (id ∉ ui) → (∀ p r, m !! p = Some r → r ≠ AR_Owner) →
      a_step (Build_access_state act used o g e ui)
        (Build_access_state act used o (<[id := m]> g) (<[id := 1%N]> e) ({[id]} ∪ ui))
  | a_delete id act used o g e ui :
      is_Some (g !! id) →
      a_step (Build_access_state act used o g e ui)
        (Build_access_state act used o (delete id g) (delete id e) ui)
  | a_grant id p r m act used o g e ui :
      g !! id = Some m → is_Some (act !! p) → (p ∉ o) → r ≠ AR_Owner →
      a_step (Build_access_state act used o g e ui)
        (Build_access_state act used o (<[id := <[p := r]> m]> g) e ui)
  | a_revoke id p m act used o g e ui :
      g !! id = Some m → is_Some (act !! p) → (p ∉ o) →
      a_step (Build_access_state act used o g e ui)
        (Build_access_state act used o (<[id := delete p m]> g) e ui)
  | a_replace p q k act used o g e ui :
      act !! p = Some k → (q ∉ used) →
      a_step (Build_access_state act used o g e ui)
        (Build_access_state (<[q := k]> (delete p act)) ({[q]} ∪ used) (swap_owner p q o)
           (a_move p q <$> g) e ui).

(** The end of a revision: [a] before it, [m] after its steps, [b] after it. *)
Record a_renew (a m b : access_state) : Prop := {
  re_active : a_active b = a_active m;
  re_used : a_used b = a_used m;
  re_owners : a_owners b = a_owners m;
  re_grants : a_grants b = a_grants m;
  re_used_items : a_used_items b = a_used_items m;
  re_epochs : ∀ id n, a_epochs b !! id = Some n →
    (∃ n0, a_epochs a !! id = Some n0 ∧
       ((n = n0 ∧ a_readers a id = a_readers b id) ∨ n = (n0 + 1)%N)) ∨
    (id ∉ a_used_items a);
}.

Definition a_revision (a b : access_state) : Prop := ∃ m, rtc a_step a m ∧ a_renew a m b.

(** ** Invariants of the machine *)

Record a_ok (a : access_state) : Prop := {
  ok_used : dom (a_active a) ⊆ a_used a;
  ok_items : dom (a_grants a) ⊆ a_used_items a;
  ok_epochs : dom (a_epochs a) = dom (a_grants a);
  ok_owners : a_owners a ≠ ∅;
  ok_roles : ∀ id m p r, a_grants a !! id = Some m → m !! p = Some r → r ≠ AR_Owner;
}.

Lemma a_move_role p q g x r : a_move p q g !! x = Some r → ∃ y, g !! y = Some r.
Proof.
  unfold a_move. destruct (g !! p) eqn:E; [|by eexists].
  rw lookup_insert_Some lookup_delete_Some. naive_solver.
Qed.

Lemma a_step_roles a b :
  a_step a b →
  (∀ id m p r, a_grants a !! id = Some m → m !! p = Some r → r ≠ AR_Owner) →
  ∀ id m p r, a_grants b !! id = Some m → m !! p = Some r → r ≠ AR_Owner.
Proof.
  destruct 1 as [| | | | |id0 m0|id0| id0 p0 r0 m0| |]; cbn; intros Hr id' m' p' r'; try by apply Hr.
  - rw lookup_insert_Some. intros [[<- <-]|[_ ?]]; eauto.
  - rw lookup_delete_Some. intros [_ ?]. eauto.
  - rw lookup_insert_Some. intros [[<- <-]|[_ ?]]; [|by eapply Hr].
    rw lookup_insert_Some. intros [[<- <-]|[_ ?]]; eauto.
  - rw lookup_insert_Some. intros [[<- <-]|[_ ?]]; [|by eapply Hr].
    rw lookup_delete_Some. intros [_ ?]. eauto.
  - rw lookup_fmap_Some. intros (m1 & <- & Hm) (y & Hy)%a_move_role. eauto.
Qed.

Lemma a_step_ok a b : a_step a b → a_ok a → a_ok b.
Proof.
  intros Hstep [Hu Hi He Ho Hr]. pose proof (a_step_roles a b Hstep Hr) as Hr'. clear Hr.
  split; [..|exact Hr']; clear Hr'; revert Hu Hi He Ho; destruct Hstep; cbn; intros Hu Hi He Ho;
    rw ?dom_insert_L ?dom_delete_L ?dom_fmap_L; try done;
    try match goal with Hx : ?g !! ?i = Some _ |- _ => apply elem_of_dom_2 in Hx end;
    try (unfold swap_owner; case_bool_decide); set_solver.
Qed.

(** ** Refinement *)

Definition abstract (s : PolicyState) : access_state := {|
  a_active := (λ v, pd_principal_kind (pp_descriptor v)) <$> ps_principals s;
  a_used := ps_historical_principal_ids s;
  a_owners := ps_owners s;
  a_grants := it_grants <$> ps_items s;
  a_epochs := it_key_epoch <$> ps_items s;
  a_used_items := ps_historical_item_ids s;
|}.

Section refinement.
Context `{Crypto}.

Lemma a_readers_effective s id :
  a_readers (abstract s) id = list_to_set (effective_reader_ids s id).
Proof.
  apply set_eq. intros p. unfold a_readers, effective_reader_ids. rw elem_of_list_to_set elem_of_sorted_elements.
  cbn. rw lookup_fmap. by destruct (ps_items s !! id).
Qed.

(** An item put back with its grants and epoch. *)
Lemma abstract_put_item id i j s :
  ps_items s !! id = Some i → it_grants j = it_grants i → it_key_epoch j = it_key_epoch i →
  abstract (put_item id j s) = abstract s.
Proof.
  intros Hi Hg He. unfold abstract, put_item. cbn. rw !fmap_insert Hg He. f_equal; apply insert_id;
    by rw lookup_fmap Hi.
Qed.

Lemma grants_fold_roles slots m m' :
  foldE grants_step m slots = Ok m' → (∀ p r, m !! p = Some r → r ≠ AR_Owner) →
  ∀ p r, m' !! p = Some r → r ≠ AR_Owner.
Proof.
  intros Hf Hm. refine (foldE_preserves (λ m : gmap PrincipalId AccessRole,
    ∀ p r, m !! p = Some r → r ≠ AR_Owner) _ _ _ _ _ Hm Hf).
  clear m' Hf m Hm. intros m slot m' _ Hm. unfold grants_step.
  destruct (bool_decide_reflect (ds_access_role slot = AR_Owner)) as [|Hne]; cbn;
    [by intros <-%Ok_inj|].
  intros [_ <-%Ok_inj]%reject_if_bind p r. rw lookup_insert_Some. intros [[<- <-]|[_ ?]]; eauto.
Qed.

Lemma change_role_refines s id p r1 r2 s' :
  change_role s id p r1 r2 = Ok s' → a_step (abstract s) (abstract s').
Proof.
  unfold change_role. intros Hc. repeat inv_ok_step. to_prop.
  match goal with Hx : ps_items s !! id = Some ?x |- _ => rename Hx into Hi; rename x into i end.
  assert (is_Some (a_active (abstract s) !! p)) as Hact.
  { cbn. rw lookup_fmap. by match goal with Hx : ps_principals s !! p = Some _ |- _ => rw Hx; eexists end. }
  assert (a_grants (abstract s) !! id = Some (it_grants i)) as Hg by (cbn; by rw lookup_fmap Hi).
  assert (∀ g, a_grants (abstract (put_item id (set_grants g i) s)) = <[id := g]> (a_grants (abstract s)) ∧
    a_epochs (abstract (put_item id (set_grants g i) s)) = a_epochs (abstract s)) as Hput.
  { intros g. cbn. rw !fmap_insert. split; [done|]. cbn. apply insert_id. by rw lookup_fmap Hi. }
  destruct r2 as [[]|]; repeat inv_ok_step;
    match goal with |- a_step _ (abstract (put_item id (set_grants ?g i) s)) =>
      destruct (Hput g) as [Eg Ee]; unfold abstract in *; cbn in *; rewrite -> Eg, Ee end;
    by eapply a_grant || by eapply a_revoke.
Qed.

Lemma replace_principal_refines s p d s' :
  replace_principal s p d = Ok s' → a_step (abstract s) (abstract s').
Proof.
  unfold replace_principal. intros Hr. repeat inv_ok_step. unfold descriptor_reused in *. to_prop.
  match goal with Hx : ps_principals s !! p = Some ?x |- _ => rename Hx into Hv; rename x into v end.
  match goal with |- a_step _ (abstract ?s') =>
    assert (abstract s' = Build_access_state
      (<[pd_principal_id d := pd_principal_kind (pp_descriptor v)]> (delete p (a_active (abstract s))))
      ({[pd_principal_id d]} ∪ a_used (abstract s)) (swap_owner p (pd_principal_id d) (a_owners (abstract s)))
      (a_move p (pd_principal_id d) <$> a_grants (abstract s)) (a_epochs (abstract s))
      (a_used_items (abstract s))) as -> end.
  { unfold abstract, swap_owner. cbn. case_bool_decide; cbn; f_equal;
      rw ?fmap_insert ?fmap_delete -?map_fmap_compose; cbn; try congruence.
    all: apply map_fmap_ext; intros id i _; unfold compose, move_grant, a_move; by case_match. }
  unfold abstract. cbn. eapply a_replace; [by rw lookup_fmap Hv|done].
Qed.

Lemma abstract_epochs s : dom (a_epochs (abstract s)) = dom (a_grants (abstract s)).
Proof. cbn. by rw !dom_fmap_L. Qed.

Lemma abstract_same_principals m s :
  ((λ v, pd_principal_kind (pp_descriptor v)) <$> m =
   (λ v, pd_principal_kind (pp_descriptor v)) <$> ps_principals s) →
  abstract (set_principals m s) = abstract s.
Proof. intros Hm. unfold abstract. cbn. by rw Hm. Qed.

(** Every checked operation is a step of the machine. *)
Lemma apply_operation_refines s op n v fp s' :
  validate_operation op n v fp = Ok tt → apply_operation s op = Ok s' →
  a_step (abstract s) (abstract s').
Proof.
  destruct op; cbn [apply_operation validate_operation]; intros Hval Ha;
    [..|by eapply change_role_refines|by inv_ok; apply a_skip|by inv_ok; apply a_skip
    |by eapply replace_principal_refines];
    unfold add_principal, change_label, remove_principal, grant_owner, revoke_owner, create_item,
      rename_item, delete_item, descriptor_reused in Ha; repeat inv_ok_step; to_prop.
  - unfold abstract. cbn. rw fmap_insert. by apply a_add.
  - rw abstract_same_principals; [apply a_skip|]. rw fmap_insert. cbn. apply insert_id.
    by match goal with Hx : ps_principals s !! _ = Some _ |- _ => rw lookup_fmap Hx end.
  - unfold abstract. cbn. rw fmap_delete. apply a_remove; [done| |].
    + rw lookup_fmap. by match goal with Hx : ps_principals s !! _ = Some _ |- _ => rw Hx; eexists end.
    + intros id m. rw lookup_fmap_Some. intros (i & <- & Hi). to_forall.
      match goal with Hx : Forall _ (values _) |- _ => rw Forall_forall in Hx; rename Hx into Hall end.
      assert (i ∈ values (ps_items s)) as Hin by (apply elem_of_values; eauto).
      apply Hall in Hin. by destruct (it_grants i !! principal_id).
  - unfold abstract. cbn. apply a_own; [|done]. rw lookup_fmap.
    match goal with Hx : ps_principals s !! _ = Some _, Hk : _ = PK_Human |- _ => by rw Hx /= Hk end.
  - unfold abstract. cbn. by apply a_disown.
  - unfold abstract. cbn. rw !fmap_insert. cbn. subst. apply a_create; [done|].
    match goal with Hx : foldE grants_step _ _ = Ok _ |- _ => eapply (grants_fold_roles _ _ _ Hx) end.
    intros p r. by rw lookup_empty.
  - erewrite abstract_put_item; [apply a_skip|done..].
  - unfold abstract. cbn. rw !fmap_delete. apply a_delete. rw lookup_fmap.
    by match goal with Hx : ps_items s !! _ = Some _ |- _ => rw Hx; eexists end.
Qed.

(** Rotation changes nothing of the abstract state but epochs. *)
Record same_but_epochs (a b : access_state) : Prop := {
  sb_active : a_active b = a_active a;
  sb_used : a_used b = a_used a;
  sb_owners : a_owners b = a_owners a;
  sb_grants : a_grants b = a_grants a;
  sb_used_items : a_used_items b = a_used_items a;
}.

Lemma rotation_step_abstract prior st id st' :
  rotation_step prior st id = Ok st' → same_but_epochs (abstract st.1) (abstract st'.1).
Proof.
  destruct st as [s [rs ss]], st' as [s' [rs' ss']]. cbn [fst].
  intros [_ [[-> _]|(i & j & rot & d & h & _ & Hj & _ & _ & _ & ->)]]%rotation_step_ok; [done|].
  split; cbn; try done. rw fmap_insert. cbn. apply insert_id. by rw lookup_fmap Hj.
Qed.

Lemma apply_rotations_abstract prior s rs ss s' :
  apply_rotations prior s rs ss = Ok s' → same_but_epochs (abstract s) (abstract s').
Proof.
  unfold apply_rotations. intros Ha. apply bind_Ok in Ha as ([s1 [rs1 ss1]] & Hf & Ha).
  repeat inv_ok_step.
  refine (foldE_preserves (λ st, same_but_epochs (abstract s) (abstract st.1)) _ _ _ _ _ _ Hf); [|done].
  intros st id st' _ [] Hstep. apply rotation_step_abstract in Hstep as []. split; by etrans.
Qed.

Lemma operations_steps prior n ops st st' :
  foldE (operation_step prior n) st ops = Ok st' →
  rtc a_step (abstract (os_next st)) (abstract (os_next st')).
Proof.
  revert st. induction ops as [|op ops IH]; intros st; cbn [foldE].
  { by intros <-%Ok_inj. }
  intros (st1 & Hstep & Hf)%bind_Ok. unfold operation_step in Hstep. repeat inv_ok_step.
  eapply rtc_l; [|by apply IH]. cbn. by eapply apply_operation_refines.
Qed.

Lemma epochs_renewed prior n ops next :
  registry prior → apply_operations prior n ops = Ok next →
  ∀ id e, a_epochs (abstract next) !! id = Some e →
    (∃ e0, a_epochs (abstract prior) !! id = Some e0 ∧
       ((e = e0 ∧ a_readers (abstract prior) id = a_readers (abstract next) id) ∨ e = (e0 + 1)%N)) ∨
    (id ∉ a_used_items (abstract prior)).
Proof.
  intros Hreg Ha id e. cbn. rw lookup_fmap_Some. intros (j & <- & Hj).
  destruct (apply_operations_items _ _ _ _ Hreg Ha _ _ Hj) as [(i & Hi & Hor)|[Hnew _]]; [left|by right].
  exists (it_key_epoch i). rw lookup_fmap Hi. split; [done|].
  destruct Hor as [[[He _ _] Hr]|[He _]]; [left|by right]. split; [done|].
  by rw !a_readers_effective Hr.
Qed.

(** ** Property *)

(** C35: refinement. An accepted list of operations on a state with a consistent
    registry is a run of the abstract machine followed by a renewal: the
    machine's invariant carries over, an item's epoch stays only if its readers
    stay, and otherwise grows by one. *)
Theorem operations_refine s n ops s' :
  registry s → apply_operations s n ops = Ok s' →
  a_revision (abstract s) (abstract s') ∧ (a_ok (abstract s) → a_ok (abstract s')).
Proof.
  intros Hreg Ha. pose proof (epochs_renewed _ _ _ _ Hreg Ha) as Hep.
  unfold apply_operations in Ha. repeat inv_ok_step.
  match goal with Hx : foldE (operation_step _ _) _ _ = Ok _ |- _ => apply operations_steps in Hx as Hrun end.
  match goal with Hx : apply_rotations _ _ _ _ = Ok _ |- _ => apply apply_rotations_abstract in Hx as [] end.
  cbn [os_next] in Hrun.
  change (abstract (set_sequence n s)) with (abstract s) in Hrun.
  match type of Hrun with rtc _ _ ?m => assert (a_renew (abstract s) m (abstract s')) as Hre by done end.
  split; [by eexists|]. intros Hok.
  match type of Hrun with rtc _ _ ?m => assert (a_ok m) as [] by
    (clear -Hrun Hok; induction Hrun; eauto using a_step_ok) end.
  destruct Hre as [Ea Eu Eo Eg Ei _]. split; rewrite -> ?Ea, ?Eu, ?Eo, ?Eg, ?Ei; try done.
  rewrite <- Eg. apply abstract_epochs.
Qed.
End refinement.
