(* ===== verification/Plaintext.v ===== *)
(** * Item plaintexts

    [crates/jury-protocol/src/vault_v1/plaintext.rs]: the fixed-size item
    descriptor, the fields of an item and the padded frame they are encrypted
    in. The JSON reader and printer of an item state are parameters. *)

From S2P Require Import Prelude VaultTypes Text Canonical Preimage Binding Rollover Validate Identifiers.
Local Open Scope jury_scope.

Definition ITEM_DESCRIPTOR_PLAINTEXT_BYTES : nat := 256.
Definition MAX_FIELD_VALUE_BYTES : N := 1048576.
Definition MAX_ITEM_FIELDS : N := 1024.
Definition MIN_CONCEALED_VALUE_BYTES : N := 4.

Inductive PlaintextError :=
  | DescriptorLength | DescriptorPadding | InvalidName | UnknownSchema | UnknownBucket
  | BodyLength | BodyPadding | InvalidJson | NonCanonicalJson | TooManyFields | DuplicateField
  | ValueLength | ConcealedValueTooShort | TimestampOrder.

Global Instance PlaintextError_eq_dec : EqDecision PlaintextError.
Proof. solve_decision. Defined.

(** A 64-bit [usize]: [4096 << shift] for [shift < 64]. *)
Definition bucket_length (bucket_id : N) : result PlaintextError N :=
  if ((1 <=? bucket_id) && (bucket_id <=? 12))%N
  then Ok (N.shiftl 4096 (bucket_id - 1)) else Err UnknownBucket.

Definition is_name_byte (b : byte) : bool :=
  is_ascii_alphanumeric b || (b ==? Byte.x2d) || (b ==? Byte.x2e) || (b ==? Byte.x5f).

Definition validate_name (name : bytes) : result PlaintextError unit :=
  reject_if
    (match name with
     | [] => true
     | first :: _ =>
         (64 <? len name)%N || negb (is_ascii_alphanumeric first) ||
         negb (is_ascii_alphanumeric (List.last name first)) ||
         existsb (λ b, negb (is_name_byte b)) name
     end) InvalidName.

(** ** Descriptors *)

Record ItemDescriptorV1 := { idesc_name : bytes }.

Global Instance ItemDescriptorV1_eq_dec : EqDecision ItemDescriptorV1.
Proof. solve_decision. Defined.

Definition ItemDescriptorV1_new (name : bytes) : result PlaintextError ItemDescriptorV1 :=
  validate_name name;; Ok {| idesc_name := name |}.

(** [output[at..at + source.len()].copy_from_slice(source)], in range. *)
Definition copy_at (output : bytes) (at_ : nat) (source : bytes) : bytes :=
  take at_ output ++ source ++ drop (at_ + length source) output.

Definition ItemDescriptorV1_encode (d : ItemDescriptorV1) : bytes :=
  let output := replicate ITEM_DESCRIPTOR_PLAINTEXT_BYTES Byte.x00 in
  let output := copy_at output 0 [Byte.x01] in
  let output := copy_at output 1 (be_bytes 2 (len (idesc_name d))) in
  copy_at output 3 (idesc_name d).

Definition all_zero (bs : bytes) : bool := forallb (λ b, b ==? Byte.x00) bs.

Definition ItemDescriptorV1_decode (bs : bytes) : result PlaintextError ItemDescriptorV1 :=
  reject_if (negb (length bs =? ITEM_DESCRIPTOR_PLAINTEXT_BYTES)%nat) DescriptorLength;;
  reject_if (take 1 bs !=? [Byte.x01]) UnknownSchema;;
  let length := be_N (take 2 (drop 1 bs)) in
  reject_if (64 <? length)%N InvalidName;;
  reject_if (negb (all_zero (drop (3 + N.to_nat length) bs))) DescriptorPadding;;
  let name := take (N.to_nat length) (drop 3 bs) in
  reject_if (negb (from_utf8 name)) InvalidName;;
  ItemDescriptorV1_new name.

(** ** Item states *)

Inductive ItemFieldKind := FK_Text | FK_Concealed.

Global Instance ItemFieldKind_eq_dec : EqDecision ItemFieldKind.
Proof. solve_decision. Defined.

Record ItemFieldV1 := {
  if_name : bytes;
  if_field_id : FieldId;
  if_value : bytes;
  if_decoded_length : N;
  if_kind : ItemFieldKind;
  if_created_at_ms : N;
  if_updated_at_ms : N;
}.

Record ItemStateV1 := {
  is_plaintext_schema : N;
  is_fields : list ItemFieldV1;
}.

Global Instance ItemFieldV1_eq_dec : EqDecision ItemFieldV1.
Proof. solve_decision. Defined.
Global Instance ItemStateV1_eq_dec : EqDecision ItemStateV1.
Proof. solve_decision. Defined.

Record field_scan := {
  fsc_previous_name : option bytes;
  fsc_field_ids : gset FieldId;
}.

Definition field_step (st : field_scan) (field : ItemFieldV1) : result PlaintextError field_scan :=
  validate_name (if_name field);;
  reject_if
    ((if fsc_previous_name st is Some previous then geb previous (if_name field) else false) ||
     (if_field_id field ∈? fsc_field_ids st)) DuplicateField;;
  reject_if (if_decoded_length field !=? len (if_value field)) ValueLength;;
  reject_if ((if_kind field ==? FK_Concealed) && (len (if_value field) <? MIN_CONCEALED_VALUE_BYTES)%N)
    ConcealedValueTooShort;;
  reject_if (if_updated_at_ms field <? if_created_at_ms field)%N TimestampOrder;;
  Ok {| fsc_previous_name := Some (if_name field);
        fsc_field_ids := {[if_field_id field]} ∪ fsc_field_ids st |}.

Definition ItemStateV1_validate (s : ItemStateV1) : result PlaintextError unit :=
  reject_if (is_plaintext_schema s !=? 1%N) UnknownSchema;;
  reject_if (MAX_ITEM_FIELDS <? len (is_fields s))%N TooManyFields;;
  foldE field_step {| fsc_previous_name := None; fsc_field_ids := ∅ |} (is_fields s);;
  Ok tt.

Section json.
Context (json_state : bytes → option ItemStateV1).
Context (json_compact : ItemStateV1 → option bytes).

Definition to_canonical_bytes (s : ItemStateV1) : result PlaintextError bytes :=
  ItemStateV1_validate s;;
  ok_or (json_compact s) InvalidJson.

Definition parse_canonical (bs : bytes) : result PlaintextError ItemStateV1 :=
  state ← ok_or (json_state bs) InvalidJson;
  ItemStateV1_validate state;;
  canonical ← to_canonical_bytes state;
  reject_if (canonical !=? bs) NonCanonicalJson;;
  Ok state.

Definition frame (s : ItemStateV1) (bucket_id : N) : result PlaintextError bytes :=
  body ← to_canonical_bytes s;
  bucket ← bucket_length bucket_id;
  reject_if (negb (u32 (len body))) BodyLength;;
  reject_if (bucket <? saturating_add_u64 (len body) 4)%N BodyLength;;
  let output := replicate (N.to_nat bucket) Byte.x00 in
  let output := copy_at output 0 (be_bytes 4 (len body)) in
  Ok (copy_at output 4 body).

Definition parse_framed (bucket_id : N) (plaintext : bytes) : result PlaintextError ItemStateV1 :=
  bucket ← bucket_length bucket_id;
  reject_if ((len plaintext !=? bucket) || (len plaintext <? 4)%N) BodyLength;;
  let logical_length := be_N (take 4 plaintext) in
  end_ ← ok_or (match checked_add_u64 logical_length 4 with
                | Some end_ => if (end_ <=? len plaintext)%N then Some end_ else None
                | None => None
                end) BodyLength;
  reject_if (negb (all_zero (drop (N.to_nat end_) plaintext))) BodyPadding;;
  parse_canonical (take (N.to_nat end_ - 4) (drop 4 plaintext)).
End json.

(** ** Padded layouts *)

(** A header, a body and zeros up to [n] bytes. *)
Definition layout (n : nat) (header body : bytes) : bytes :=
  header ++ body ++ replicate (n - length header - length body) Byte.x00.

Lemma all_zero_iff bs : all_zero bs = true ↔ bs = replicate (length bs) Byte.x00.
Proof.
  unfold all_zero. induction bs as [|b bs IH]; [done|]. cbn [forallb length replicate].
  rw andb_true_iff bool_decide_eq_true IH. split; [intros [-> Hb]; by f_equal|].
  intros [= -> Hb]. split; [done|]. congruence.
Qed.

Lemma all_zero_replicate n : all_zero (replicate n Byte.x00) = true.
Proof. apply all_zero_iff. by rw length_replicate. Qed.

Lemma length_layout n h b : (length h + length b ≤ n)%nat → length (layout n h b) = n.
Proof. unfold layout. rw !length_app length_replicate. lia. Qed.

(** Writing a header and a body into zeros gives the layout. *)
Lemma copy_layout n h b :
  (length h + length b ≤ n)%nat →
  copy_at (copy_at (replicate n Byte.x00) 0 h) (length h) b = layout n h b.
Proof.
  intros Hn. unfold copy_at, layout. rw take_0 drop_replicate /=. rw take_app_length.
  f_equal. f_equal. rw drop_app_ge; [|lia]. rw drop_replicate. f_equal. lia.
Qed.

(** A string of [n] bytes that is zero after a header and a body is a layout. *)
Lemma layout_read n k l bs :
  length bs = n → (k + l ≤ n)%nat →
  all_zero (drop (k + l) bs) = true ↔ bs = layout n (take k bs) (take l (drop k bs)).
Proof.
  intros Hn Hl. assert (bs = take k bs ++ take l (drop k bs) ++ drop (k + l) bs) as Hbs.
  { by rw -drop_drop !take_drop. }
  assert (length (drop (k + l) bs) = (n - k - l)%nat) as Hd by (rw length_drop; lia).
  rw all_zero_iff Hd. unfold layout. rw !length_take length_drop Hn.
  replace (n - k `min` n - l `min` (n - k))%nat with (n - k - l)%nat by lia.
  split; [intros <-; exact Hbs|]. intros Heq. rw {1}Hbs in Heq.
  by apply app_inv_head, app_inv_head in Heq.
Qed.

Lemma layout_parts n h b :
  (length h + length b ≤ n)%nat →
  take (length h) (layout n h b) = h ∧ take (length b) (drop (length h) (layout n h b)) = b ∧
  all_zero (drop (length h + length b) (layout n h b)) = true.
Proof.
  intros Hn. unfold layout. rw take_app_length -drop_drop drop_app_length take_app_length drop_app_length.
  split_and!; try done. apply all_zero_replicate.
Qed.

(** ** Descriptors *)

Lemma validate_name_ok name :
  validate_name name = Ok tt → (len name ≤ 64)%N ∧ forallb is_ascii name = true.
Proof.
  unfold validate_name. rw reject_if_Ok. destruct name as [|b name]; [done|]. intros Hn. to_prop.
  split; [done|]. match goal with Hx : existsb _ _ = false |- _ => apply existsb_eq_false in Hx as Hall end.
  apply forallb_eq_true. eapply Forall_impl; [exact Hall|]. intros c Hc. apply negb_false_iff in Hc. unfold is_name_byte in Hc.
  do 3 (apply orb_true_iff in Hc as [Hc|Hc]; [|to_prop; by subst]). by apply alphanumeric_ascii.
Qed.

Lemma encode_layout d :
  (len (idesc_name d) ≤ 64)%N →
  ItemDescriptorV1_encode d =
    layout ITEM_DESCRIPTOR_PLAINTEXT_BYTES ([Byte.x01] ++ be_bytes 2 (len (idesc_name d))) (idesc_name d).
Proof.
  intros Hn. unfold ItemDescriptorV1_encode.
  assert (copy_at (copy_at (replicate ITEM_DESCRIPTOR_PLAINTEXT_BYTES Byte.x00) 0 [Byte.x01]) 1
    (be_bytes 2 (len (idesc_name d))) =
    copy_at (replicate ITEM_DESCRIPTOR_PLAINTEXT_BYTES Byte.x00) 0
      ([Byte.x01] ++ be_bytes 2 (len (idesc_name d)))) as -> by done.
  rw -copy_layout; [done|]. unfold len in Hn. rw length_app length_be_bytes /=.
  unfold ITEM_DESCRIPTOR_PLAINTEXT_BYTES. lia.
Qed.

Lemma length_encode d :
  (len (idesc_name d) ≤ 64)%N → length (ItemDescriptorV1_encode d) = ITEM_DESCRIPTOR_PLAINTEXT_BYTES.
Proof.
  intros Hn. rw encode_layout // length_layout // length_app length_be_bytes /=.
  unfold ITEM_DESCRIPTOR_PLAINTEXT_BYTES, len in *. lia.
Qed.

(** A descriptor plaintext has one form. [decode] accepts exactly the
    strings that [encode] makes of a valid name, and returns that name: the
    256 bytes are the schema, the length, the name and zeros, and nothing can
    be hidden in the padding. *)
Theorem descriptor_codec_exact bs d :
  ItemDescriptorV1_decode bs = Ok d ↔
  validate_name (idesc_name d) = Ok tt ∧ bs = ItemDescriptorV1_encode d.
Proof.
  split.
  - unfold ItemDescriptorV1_decode, ItemDescriptorV1_new. intros Hd. repeat inv_ok_step. to_prop.
    match goal with Hx : (_ =? _)%nat = true |- _ => apply Nat.eqb_eq in Hx as Hlen end.
    set (n := be_N (take 2 (drop 1 bs))) in *.
    assert (len (take (N.to_nat n) (drop 3 bs)) = n) as Hn.
    { unfold len. rw length_take length_drop Hlen /ITEM_DESCRIPTOR_PLAINTEXT_BYTES. lia. }
    cbn [idesc_name]. split; [done|]. rw encode_layout; cbn [idesc_name]; rw Hn //.
    match goal with Hx : all_zero _ = true |- _ =>
      apply (layout_read ITEM_DESCRIPTOR_PLAINTEXT_BYTES) in Hx; [rw {1}Hx|done|] end.
    + f_equal. rewrite <- (take_drop 1 (take 3 bs)), take_take. cbn [Nat.min]. f_equal; [done|].
      rw -(be_bytes_be_N (drop 1 (take 3 bs))) length_drop length_take Hlen /=.
      rw skipn_firstn_comm //.
    + unfold ITEM_DESCRIPTOR_PLAINTEXT_BYTES. lia.
  - intros [Hv ->]. apply validate_name_ok in Hv as Hn. destruct Hn as [Hn Hascii].
    pose proof (length_encode d Hn) as Hlen.
    unfold ItemDescriptorV1_decode. rw Hlen Nat.eqb_refl. cbn [negb reject_if mbind result_bind].
    rw encode_layout //. set (h := [Byte.x01] ++ be_bytes 2 (len (idesc_name d))).
    assert (length h = 3) as Hh by done.
    destruct (layout_parts ITEM_DESCRIPTOR_PLAINTEXT_BYTES h (idesc_name d)) as (Ht & Hb & Hz).
    { rw Hh. unfold ITEM_DESCRIPTOR_PLAINTEXT_BYTES, len in *. lia. }
    rw Hh in Ht, Hb, Hz. change (take 1 (layout _ h _)) with [Byte.x01].
    change (take 2 (drop 1 (layout _ h _))) with (be_bytes 2 (len (idesc_name d))).
    rw be_N_be_bytes; [|change (256 ^ N.of_nat 2)%N with 65536%N; lia].
    rw bool_decide_true //. cbn [negb reject_if mbind result_bind].
    destruct (N.ltb_ge 64 (len (idesc_name d))) as [_ ->]; [|done].
    cbn [negb reject_if mbind result_bind]. unfold len. rw Nat2N.id Hb Hz from_utf8_ascii //.
    cbn [negb reject_if mbind result_bind].
    unfold ItemDescriptorV1_new. rw Hv. by destruct d.
Qed.

(** ** Frames *)

Section frames.
Context (json_state : bytes → option ItemStateV1).
Context (json_compact : ItemStateV1 → option bytes).

Lemma parse_canonical_ok bs s :
  parse_canonical json_state json_compact bs = Ok s ↔
  json_state bs = Some s ∧ to_canonical_bytes json_compact s = Ok bs.
Proof.
  unfold parse_canonical. split.
  - intros Hp. repeat inv_ok_step. to_prop. subst. done.
  - intros [Hj Hc]. rw Hj. cbn. rw Hc. unfold to_canonical_bytes in Hc. repeat inv_ok_step.
    match goal with Hx : ItemStateV1_validate _ = _ |- _ => rw Hx end. cbn. by rw bool_decide_true.
Qed.

Lemma bucket_length_bounds bucket_id n :
  bucket_length bucket_id = Ok n →
  (4096 ≤ n ≤ 8388608)%N ∧ bucket_ciphertext_length bucket_id = Ok (n + 16)%N.
Proof.
  unfold bucket_length. case_match eqn:Hb; [|done]. to_prop. intros [= <-].
  assert (bucket_id ∈ [1;2;3;4;5;6;7;8;9;10;11;12]%N) as Hin.
  { rw !elem_of_cons. lia. }
  repeat (apply elem_of_cons in Hin as [->|Hin]; [done|]). by apply elem_of_nil in Hin.
Qed.

Lemma copy_frame bucket body :
  (len body + 4 ≤ bucket)%N →
  copy_at (copy_at (replicate (N.to_nat bucket) Byte.x00) 0 (be_bytes 4 (len body))) 4 body =
  layout (N.to_nat bucket) (be_bytes 4 (len body)) body.
Proof.
  intros Hle. rw -copy_layout; rw length_be_bytes //.
  unfold len in Hle. lia.
Qed.

Lemma frame_fits bucket (l : N) :
  (bucket ≤ 8388608)%N →
  (u32 l = true ∧ (bucket <? saturating_add_u64 l 4)%N = false) ↔ (l + 4 ≤ bucket)%N.
Proof.
  intros Hb. unfold u32, u32_max, saturating_add_u64, u64_max.
  rw N.leb_le N.ltb_ge. lia.
Qed.

Lemma frame_ok s bucket_id out :
  frame json_compact s bucket_id = Ok out ↔
  ∃ body bucket, to_canonical_bytes json_compact s = Ok body ∧ bucket_length bucket_id = Ok bucket ∧
    (len body + 4 ≤ bucket)%N ∧ out = layout (N.to_nat bucket) (be_bytes 4 (len body)) body.
Proof.
  unfold frame. rw bind_Ok. setoid_rewrite bind_Ok. setoid_rewrite reject_if_bind.
  setoid_rewrite reject_if_bind. setoid_rewrite negb_false_iff. split.
  - intros (body & Hc & bucket & Hb & Hu & Hl & Ho). exists body, bucket.
    pose proof (bucket_length_bounds _ _ Hb) as [Hbb _].
    assert (len body + 4 ≤ bucket)%N as Hle by (apply frame_fits; [lia|done]).
    split_and!; try done. apply Ok_inj in Ho as <-. by apply copy_frame.
  - intros (body & bucket & Hc & Hb & Hle & ->). pose proof (bucket_length_bounds _ _ Hb) as [Hbb _].
    apply frame_fits in Hle as Hf; [|lia]. destruct Hf as [Hu Hl].
    exists body. split; [done|]. exists bucket. split_and!; try done. f_equal. by apply copy_frame.
Qed.

Lemma parse_framed_layout bucket_id bucket body s :
  bucket_length bucket_id = Ok bucket → (len body + 4 ≤ bucket)%N →
  parse_framed json_state json_compact bucket_id
    (layout (N.to_nat bucket) (be_bytes 4 (len body)) body) = Ok s ↔
  parse_canonical json_state json_compact body = Ok s.
Proof.
  intros Hb Hle. pose proof (bucket_length_bounds _ _ Hb) as [Hbb _].
  set (h := be_bytes 4 (len body)). assert (length h = 4) as Hh by apply length_be_bytes.
  destruct (layout_parts (N.to_nat bucket) h body) as (Ht & Hbody & Hz).
  { rw Hh. unfold len in *. lia. }
  assert (len (layout (N.to_nat bucket) h body) = bucket) as Hlen.
  { unfold len in *. rw length_layout; lia. }
  rw Hh in Ht Hbody Hz. unfold parse_framed. rw Hb. cbn [mbind result_bind].
  rw Hlen bool_decide_true //. destruct (N.ltb_ge bucket 4) as [_ ->]; [|lia].
  cbn [negb orb reject_if mbind result_bind]. rw Ht. unfold h.
  rw be_N_be_bytes; [|change (256 ^ N.of_nat 4)%N with 4294967296%N; lia].
  unfold checked_add_u64. destruct (N.leb_le (len body + 4) u64_max) as [_ ->]; [|unfold u64_max; lia].
  destruct (N.leb_le (len body + 4) bucket) as [_ ->]; [|done]. cbn [ok_or mbind result_bind].
  assert (N.to_nat (len body + 4) = (4 + length body)%nat) as -> by (unfold len; lia).
  rw Hz. cbn [negb reject_if mbind result_bind]. assert (4 + length body - 4 = length body)%nat as -> by lia.
  by rw Hbody.
Qed.

(** An item body has one frame. For a JSON reader that reads back what the
    printer made of the state, [parse_framed] returns a state exactly on the
    bytes [frame] makes of it, so nothing can be hidden in the padding, and the
    frame has the length that, with the 16-byte tag, [validate] expects of
    the bucket's ciphertext. *)
Theorem frame_exact s bucket_id out :
  (∀ body, json_compact s = Some body → json_state body = Some s) →
  (parse_framed json_state json_compact bucket_id out = Ok s ↔ frame json_compact s bucket_id = Ok out) ∧
  (frame json_compact s bucket_id = Ok out → bucket_ciphertext_length bucket_id = Ok (len out + 16)%N).
Proof.
  intros Hjson. rw frame_ok. split; [split|].
  - unfold parse_framed. intros Hp. repeat inv_ok_step. to_prop.
    match goal with Hx : bucket_length _ = Ok ?b |- _ => rename Hx into Hb, b into bucket end.
    case_match eqn:He; [|done]. apply checked_add_u64_Some in He.
    match goal with Hx : (if _ then _ else _) = Some _ |- _ => case_match eqn:Hle; [|done]; injection Hx as <- end.
    subst n. set (l := be_N (take 4 out)) in *. to_prop.
    match goal with Hx : parse_canonical _ _ _ = Ok _ |- _ => apply parse_canonical_ok in Hx as [_ Hc] end.
    assert (N.to_nat (l + 4) = (4 + N.to_nat l)%nat) as Hn by lia. rw Hn in Hc.
    assert (4 + N.to_nat l - 4 = N.to_nat l)%nat as Hn' by lia. rw Hn' in Hc.
    exists (take (N.to_nat l) (drop 4 out)), bucket. unfold len in *.
    rw length_take length_drop. split_and!; [done..|lia|].
    match goal with Hx : all_zero _ = true |- _ => rw Hn in Hx;
      apply (layout_read (N.to_nat bucket)) in Hx; [rw {1}Hx|lia|lia] end.
    f_equal. rewrite <- (be_bytes_be_N (take 4 out)). rw length_take. fold l.
    assert (4 `min` length out = 4)%nat as -> by lia. f_equal. lia.
  - intros (body & bucket & Hc & Hb & Hle & ->). rw parse_framed_layout // parse_canonical_ok.
    split; [|done]. apply Hjson. unfold to_canonical_bytes in Hc. repeat inv_ok_step. done.
  - intros (body & bucket & Hc & Hb & Hle & ->). pose proof (bucket_length_bounds _ _ Hb) as [_ ->].
    f_equal. unfold len in *. rw length_layout; [lia|]. rw length_be_bytes. lia.
Qed.
End frames.
