(* ===== verification/AccessibleCatalog.v ===== *)
(** * Names and the accessible catalogue

    [jury-core/src/domain/name.rs], [selector.rs] and [catalog.rs]: the names of
    items and fields, what a caller selects by them, and the catalogue of the
    items that were decrypted for one principal. A [String] is the list of its
    bytes. The macro [canonical_name!] is expanded once, over its maximum; the
    wrappers of a name that is input or confirmed are the name. *)

From S2P Require Import Prelude VaultTypes Text PolicyState Plaintext.
Local Open Scope jury_scope.

(** ** Names *)

Definition MAX_ITEM_NAME_BYTES : N := 64.
Definition MAX_FIELD_NAME_BYTES : N := 64.

Inductive NameError :=
  | NE_Empty
  | NE_TooLong (maximum actual : N)
  | NE_NonAscii
  | NE_InvalidBoundary
  | NE_InvalidCharacter.

(** [bytes[0]] and [bytes[bytes.len() - 1]] are in range: the value is not empty. *)
Definition check_name (value : bytes) (maximum : N) : result NameError unit :=
  match value with
  | [] => Err NE_Empty
  | first :: _ =>
      reject_if (maximum <? len value)%N (NE_TooLong maximum (len value));;
      reject_if (negb (forallb is_ascii value)) NE_NonAscii;;
      reject_if (negb (is_ascii_alphanumeric first) || negb (is_ascii_alphanumeric (List.last value first)))
        NE_InvalidBoundary;;
      reject_if
        (existsb (λ b, negb (is_ascii_alphanumeric b) &&
                       negb ((b ==? Byte.x2d) || (b ==? Byte.x2e) || (b ==? Byte.x5f))) value)
        NE_InvalidCharacter
  end.

Record ItemName := { item_name_str : bytes }.
Record FieldName := { field_name_str : bytes }.

Global Instance ItemName_eq_dec : EqDecision ItemName.
Proof. solve_decision. Defined.
Global Instance FieldName_eq_dec : EqDecision FieldName.
Proof. solve_decision. Defined.

Definition ItemName_parse (value : bytes) : result NameError ItemName :=
  check_name value MAX_ITEM_NAME_BYTES;; Ok {| item_name_str := value |}.

Definition FieldName_parse (value : bytes) : result NameError FieldName :=
  check_name value MAX_FIELD_NAME_BYTES;; Ok {| field_name_str := value |}.

(** ** Selectors *)

Record ItemSelector := { isel_item : ItemName }.
Record FieldSelector := { fsel_item : ItemName; fsel_field : FieldName }.

Definition ItemSelector_parse (item : bytes) : result NameError ItemSelector :=
  item ← ItemName_parse item; Ok {| isel_item := item |}.

Definition FieldSelector_parse (item field : bytes) : result NameError FieldSelector :=
  item ← ItemName_parse item;
  field ← FieldName_parse field;
  Ok {| fsel_item := item; fsel_field := field |}.

Definition item_selector (selector : FieldSelector) : ItemSelector := {| isel_item := fsel_item selector |}.

(** ** The catalogue *)

Definition MAX_ACCESSIBLE_CATALOG_ITEMS : N := 1024.

Inductive ItemUnavailable := item_unavailable.

Inductive CatalogError :=
  | TooManyEntries (maximum actual : N)
  | DuplicateItemId
  | DuplicateItemName.

Record AccessibleCatalogEntry := { ace_item_id : ItemId; ace_name : ItemName; ace_role : AccessRole }.
Record AccessibleCatalog := { ac_entries : list AccessibleCatalogEntry }.

(** One round of the loop, with the two sets of what was seen. *)
Definition catalog_entry_step (seen : gset ItemId * gset bytes) (entry : AccessibleCatalogEntry)
    : result CatalogError (gset ItemId * gset bytes) :=
  reject_if (ace_item_id entry ∈? seen.1) DuplicateItemId;;
  reject_if (item_name_str (ace_name entry) ∈? seen.2) DuplicateItemName;;
  Ok ({[ace_item_id entry]} ∪ seen.1, {[item_name_str (ace_name entry)]} ∪ seen.2).

Definition AccessibleCatalog_try_new (entries : list AccessibleCatalogEntry) : result CatalogError AccessibleCatalog :=
  reject_if (MAX_ACCESSIBLE_CATALOG_ITEMS <? len entries)%N
    (TooManyEntries MAX_ACCESSIBLE_CATALOG_ITEMS (len entries));;
  foldE catalog_entry_step (∅, ∅) entries;;
  Ok {| ac_entries := entries |}.

Definition resolve (self : AccessibleCatalog) (selector : ItemSelector) : result ItemUnavailable AccessibleCatalogEntry :=
  ok_or (List.find (λ entry, ace_name entry ==? isel_item selector) (ac_entries self)) item_unavailable.

(** ** Names, exactly *)

(** The names there are. *)
Record canonical_name (maximum : N) (value : bytes) : Prop := {
  cn_length : (len value ≤ maximum)%N;
  cn_first : ∃ b rest, value = b :: rest ∧ is_ascii_alphanumeric b = true;
  cn_last : ∃ rest b, value = rest ++ [b] ∧ is_ascii_alphanumeric b = true;
  cn_bytes : Forall (λ b, is_name_byte b = true) value;
}.

Lemma name_byte_ascii b : is_name_byte b = true → is_ascii b = true.
Proof.
  unfold is_name_byte. intros Hc. do 3 (apply orb_true_iff in Hc as [Hc|Hc]; [|to_prop; by subst]).
  by apply alphanumeric_ascii.
Qed.

Lemma name_byte_negb b :
  negb (is_ascii_alphanumeric b) && negb ((b ==? Byte.x2d) || (b ==? Byte.x2e) || (b ==? Byte.x5f)) =
  negb (is_name_byte b).
Proof. unfold is_name_byte. rw -negb_orb. by rw !orb_assoc. Qed.

Lemma last_alphanumeric (value : bytes) d :
  value ≠ [] →
  is_ascii_alphanumeric (List.last value d) = true ↔ ∃ rest b, value = rest ++ [b] ∧ is_ascii_alphanumeric b = true.
Proof.
  intros Hv. destruct value as [|b rest _] using rev_ind; [done|]. rw List.last_last.
  split; [by exists rest, b|]. by intros (rest' & b' & [_ ->]%app_inj_tail & ?).
Qed.

Lemma check_name_Ok value maximum u : check_name value maximum = Ok u ↔ canonical_name maximum value.
Proof.
  destruct value as [|first rest]; [split; [done|by intros [_ (? & ? & ? & _)]]|]. unfold check_name.
  rw !reject_if_bind reject_if_Ok existsb_eq_false N.ltb_ge negb_false_iff forallb_eq_true orb_false_iff !negb_false_iff.
  rw last_alphanumeric; [|done]. setoid_rewrite name_byte_negb. setoid_rewrite negb_false_iff.
  split.
  - intros (Hlen & _ & [? Hlast] & Hall). split; [exact Hlen|by eexists _, _|exact Hlast|exact Hall].
  - intros [? (? & ? & [= -> ->] & ?) ? Hall]. split_and!; try done.
    eapply Forall_impl; [exact Hall|apply name_byte_ascii].
Qed.

Lemma validate_name_Ok name u : validate_name name = Ok u ↔ canonical_name MAX_ITEM_NAME_BYTES name.
Proof.
  unfold validate_name. rw reject_if_Ok. destruct name as [|first rest]; [split; [done|by intros [_ (? & ? & ? & _)]]|].
  rw !orb_false_iff N.ltb_ge !negb_false_iff existsb_eq_false. setoid_rewrite negb_false_iff.
  rw last_alphanumeric; [|done]. split.
  - intros [[[Hlen ?] Hlast] [Hfirst Hall]]. split; [exact Hlen|by eexists _, _|exact Hlast|by constructor].
  - intros [? (? & ? & [= -> ->] & ?) ? Hall]. by inv Hall.
Qed.

(** A name is parsed to itself or not at all, and exactly the canonical ones are. *)
Theorem name_parse_exact value name :
  ItemName_parse value = Ok name ↔ name = {| item_name_str := value |} ∧ canonical_name MAX_ITEM_NAME_BYTES value.
Proof.
  unfold ItemName_parse. rw bind_Ok. setoid_rewrite check_name_Ok. setoid_rewrite Ok_eq.
  split; [by intros ([] & ? & ?)|]. intros [-> ?]. by exists tt.
Qed.

(** The two crates agree on what a name is: a descriptor can be written for a name
    exactly when the name can be selected. *)
Theorem name_checks_agree value :
  is_ok (ItemDescriptorV1_new value) = is_ok (ItemSelector_parse value).
Proof.
  unfold ItemDescriptorV1_new, ItemSelector_parse, ItemName_parse.
  destruct (validate_name value) as [u|e] eqn:Hv, (check_name value MAX_ITEM_NAME_BYTES) as [u'|e'] eqn:Hc; try done.
  - apply validate_name_Ok, (check_name_Ok _ _ tt) in Hv. congruence.
  - apply check_name_Ok, (validate_name_Ok _ tt) in Hc. congruence.
Qed.

(** A name cannot be read as a path, an option, or more than one word: no byte of
    it is a slash, a backslash, a colon or blank, it is not [.] or [..] and does not
    begin with a dash. *)
Theorem name_is_no_path value name :
  ItemName_parse value = Ok name →
  Forall (λ b, b ∉ [Byte.x2f; Byte.x5c; Byte.x3a; Byte.x20; Byte.x0a; Byte.x00]) value ∧
  ¬ (∃ rest, value = Byte.x2d :: rest ∨ value = Byte.x2e :: rest).
Proof.
  rw name_parse_exact. intros [_ [_ (b & rest & -> & Hb) _ Hall]]. split.
  - eapply Forall_impl; [exact Hall|]. intros c Hc. cbn beta in Hc. intros Hin.
    repeat (apply elem_of_cons in Hin as [->|Hin]; [by vm_compute in Hc|]). by apply elem_of_nil in Hin.
  - by intros (r & [[= -> ->]|[= -> ->]]).
Qed.

(** ** The catalogue *)

Lemma catalog_entries_seen entries : ∀ ids names,
  (∃ seen, foldE catalog_entry_step (ids, names) entries = Ok seen) ↔
  NoDup (ace_item_id <$> entries) ∧ (∀ e, e ∈ entries → ace_item_id e ∉ ids) ∧
  NoDup (ace_name <$> entries) ∧ (∀ e, e ∈ entries → item_name_str (ace_name e) ∉ names).
Proof.
  induction entries as [|e entries IH]; intros ids names; cbn [foldE fmap list_fmap].
  { split; [intros _|by exists (ids, names)]. split_and!; try apply NoDup_nil_2; by intros ? ?%elem_of_nil. }
  unfold catalog_entry_step at 2. cbn [fst snd].
  destruct (ace_item_id e ∈? ids) eqn:Hi; to_prop; [split; [intros [? Hx]; discriminate Hx|intros (_ & Hn & _); by destruct (Hn e); [left|]]|].
  destruct (item_name_str (ace_name e) ∈? names) eqn:Hn; to_prop;
    [split; [intros [? Hx]; discriminate Hx|intros (_ & _ & _ & Hm); by destruct (Hm e); [left|]]|].
  cbn [reject_if mbind result_bind]. rw IH !NoDup_cons !list_elem_of_fmap. split.
  - intros (Hids & Hi' & Hnames & Hn'). split_and!; try done.
    + intros (e' & He' & Hin). specialize (Hi' _ Hin). set_solver.
    + intros e' [->|Hin]%elem_of_cons; [done|]. specialize (Hi' _ Hin). set_solver.
    + intros (e' & He' & Hin). specialize (Hn' _ Hin). rw He' in Hn'. set_solver.
    + intros e' [->|Hin]%elem_of_cons; [done|]. specialize (Hn' _ Hin). set_solver.
  - intros ([He Hids] & Hi' & [Hm Hnames] & Hn'). split_and!; try done.
    + intros e' Hin. rw elem_of_union elem_of_singleton. intros [Heq|Hx]; [apply He; by exists e'|].
      by apply (Hi' e'); [right|].
    + intros e' Hin. rw elem_of_union elem_of_singleton. intros [Heq|Hx]; [apply Hm; exists e'|].
      * split; [|done]. destruct (ace_name e), (ace_name e'); cbn in Heq; congruence.
      * by apply (Hn' e'); [right|].
Qed.

(** A catalogue is made of exactly the lists that fit and in which no identifier
    and no name stands twice. *)
Theorem catalog_exact entries catalog :
  AccessibleCatalog_try_new entries = Ok catalog ↔
  catalog = {| ac_entries := entries |} ∧ (len entries ≤ MAX_ACCESSIBLE_CATALOG_ITEMS)%N ∧
  NoDup (ace_item_id <$> entries) ∧ NoDup (ace_name <$> entries).
Proof.
  unfold AccessibleCatalog_try_new. rw reject_if_bind N.ltb_ge bind_Ok. setoid_rewrite Ok_eq.
  pose proof (catalog_entries_seen entries ∅ ∅) as Hseen. split.
  - intros (? & seen & Hs & ->). destruct (proj1 Hseen) as (? & _ & ? & _); [by exists seen|]. done.
  - intros (-> & ? & ? & ?). split; [done|]. destruct (proj2 Hseen) as [seen Hs]; [|by exists seen].
    split_and!; try done; set_solver.
Qed.

(** Looking a name up finds the one entry with that name, wherever it stands; and a
    name that no entry has is unavailable, whether or not an item has it that
    the principal cannot open. *)
Theorem catalog_lookup entries catalog selector r :
  AccessibleCatalog_try_new entries = Ok catalog →
  resolve catalog selector = r ↔
  match r with
  | Ok entry => entry ∈ entries ∧ ace_name entry = isel_item selector
  | Err _ => isel_item selector ∉ ace_name <$> entries
  end.
Proof.
  rw catalog_exact. intros (-> & _ & _ & Hnames). unfold resolve. cbn [ac_entries].
  destruct (List.find _ entries) as [found|] eqn:Hf; cbn [ok_or].
  - apply List.find_some in Hf as [Hin%list_elem_of_In Hname]. to_prop.
    destruct r as [entry|[]]; [split; [by intros [= <-]|]|split; [done|]].
    + intros [He Hsel]. f_equal. rw -Hsel in Hname.
      apply list_elem_of_lookup in Hin as [i Hi]. apply list_elem_of_lookup in He as [j Hj].
      assert (i = j) as ->; [|congruence].
      apply (NoDup_lookup _ _ _ (ace_name entry) Hnames); rw list_lookup_fmap; [by rw Hi -Hname|by rw Hj].
    + intros []. rw -Hname. by apply list_elem_of_fmap_2.
  - assert (isel_item selector ∉ ace_name <$> entries) as Hno.
    { intros (e & He & Hin)%list_elem_of_fmap. apply list_elem_of_In, (List.find_none _ _ Hf) in Hin. cbn beta in Hin.
      to_prop. congruence. }
    destruct r as [entry|[]]; [|done]. split; [done|]. intros [Hin Hname]. destruct Hno. rw -Hname. by apply list_elem_of_fmap_2.
Qed.
