(* ===== verification/Redaction.v ===== *)
(** * Redaction of known secrets

    [crates/jury-protected/src/redact.rs]: the spellings of a secret that are
    searched for, and their replacement in a text that is held as a whole. The
    crates [base64] and [serde_json] are parameters. *)

From S2P Require Import Prelude Text.
Local Open Scope jury_scope.

Definition MIN_REDACTABLE_LEN : N := 4.
Definition MAX_REDACTION_SECRETS : N := 128.
Definition MAX_REDACTION_SOURCE_BYTES : N := 131072.
Definition MAX_REDACTION_SECRET_LEN : N := 32768.
Definition MAX_REDACTION_INPUT_BYTES : N := 1048576.

Inductive RedactorError := TooManySecrets | SourceBytes | SecretLength | InputBytes.

Record TextNeedle := { tn_value : bytes; tn_marker : bytes }.

Record Redactor := {
  rd_text_needles : list TextNeedle;
  rd_raw_needles : list bytes;
}.

(** ** Searching and replacing *)

(** [input.windows(needle.len()).position(|window| window == needle)] *)
Fixpoint position (needle input : bytes) : option nat :=
  if (length input <? length needle)%nat then None
  else if bool_decide (take (length needle) input = needle) then Some O
  else match input with [] => None | _ :: rest => S <$> position needle rest end.

(** The loop of [replace_bytes]: what is left of the input from the cursor, and
    the output so far. [None] if the fuel does not suffice. *)
Fixpoint replace_loop (fuel : nat) (needle marker input output : bytes) : option bytes :=
  match position needle input with
  | None => Some (output ++ input)
  | Some offset =>
      match fuel with
      | O => None
      | S fuel' =>
          replace_loop fuel' needle marker (drop (offset + length needle) input)
            (output ++ take offset input ++ marker)
      end
  end.

(** Each round consumes a needle, which is not empty. *)
Definition replace_bytes (input needle marker : bytes) : option bytes :=
  if needle ==? [] then Some input else replace_loop (length input) needle marker input [].

(** ** Spellings *)

Definition HEX_LOWER : bytes := str "0123456789abcdef".
Definition HEX_UPPER : bytes := str "0123456789ABCDEF".

Definition hex_digit_of (upper : bool) (n : N) : byte :=
  default Byte.x00 ((if upper then HEX_UPPER else HEX_LOWER) !! N.to_nat n).

(** [{byte:02x}] and [{byte:02X}] *)
Definition hex_byte (upper : bool) (b : byte) : bytes :=
  [hex_digit_of upper (Byte.to_N b / 16); hex_digit_of upper (Byte.to_N b mod 16)].

Definition hex (bs : bytes) (upper : bool) : bytes := bs ≫= hex_byte upper.

(** Digits of a number in base [base], without leading zeros. *)
Fixpoint digits (fuel : nat) (base : N) (digit : N → byte) (n : N) : bytes :=
  match fuel with
  | O => []
  | S fuel' => (if (n <? base)%N then [] else digits fuel' base digit (n / base)) ++ [digit (n mod base)%N]
  end.

(** A [u32] has at most ten digits. *)
Definition format_u32 (n : N) : bytes := digits 10 10 (λ d, byte_of_N (48 + d)) n.
Definition format_u32_hex (upper : bool) (n : N) : bytes := digits 8 16 (hex_digit_of upper) n.

Definition BASE32_ALPHABET : bytes := str "ABCDEFGHIJKLMNOPQRSTUVWXYZ234567".

Definition base32_digit (n : N) : byte := default Byte.x00 (BASE32_ALPHABET !! N.to_nat (N.land n 31)).

(** The state of the loop: the [u16] buffer, the number of unread bits in it,
    and the output. *)
Record base32_state := { b32_buffer : N; b32_bits : N; b32_output : bytes }.

(** One round of [while bits >= 5]. *)
Definition base32_emit (st : base32_state) : base32_state :=
  if (5 <=? b32_bits st)%N then
    {| b32_buffer := b32_buffer st;
       b32_bits := b32_bits st - 5;
       b32_output := b32_output st ++ [base32_digit (N.shiftr (b32_buffer st) (b32_bits st - 5))] |}
  else st.

(** There are at most 12 bits in the buffer, so two rounds empty it. *)
Definition base32_step (st : base32_state) (b : byte) : base32_state :=
  base32_emit (base32_emit {|
    b32_buffer := N.lor (N.shiftl (b32_buffer st) 8 mod 65536) (Byte.to_N b);
    b32_bits := b32_bits st + 8;
    b32_output := b32_output st |}).

(** [while !output.len().is_multiple_of(8)] *)
Definition base32_padding (n : nat) : bytes := replicate ((8 - n mod 8) mod 8) Byte.x3d.

Definition base32 (bs : bytes) (padded : bool) : bytes :=
  let st := fold_left base32_step bs {| b32_buffer := 0; b32_bits := 0; b32_output := [] |} in
  let output :=
    if (0 <? b32_bits st)%N
    then b32_output st ++ [base32_digit (N.shiftl (b32_buffer st) (5 - b32_bits st) mod 65536)]
    else b32_output st in
  if padded then output ++ base32_padding (length output) else output.

Definition is_unreserved (b : byte) : bool :=
  is_ascii_alphanumeric b || (b ==? Byte.x2d) || (b ==? Byte.x5f) || (b ==? Byte.x2e) || (b ==? Byte.x7e).

Definition percent_encode (input : bytes) (upper : bool) : bytes :=
  input ≫= λ b, if is_unreserved b then [b] else Byte.x25 :: hex_byte upper b.

Definition double_url_encode (input : bytes) (upper : bool) : bytes :=
  percent_encode (percent_encode input upper) upper.

(** [replace('%', "%%")] *)
Definition doubled_percent_encode (input : bytes) (upper : bool) : bytes :=
  percent_encode input upper ≫= λ b, if b ==? Byte.x25 then [b; b] else [b].

Definition html_decimal_escape (cs : list N) : bytes :=
  cs ≫= λ c, str "&#" ++ format_u32 c ++ str ";".

Definition html_hex_escape (cs : list N) (upper_x upper_digits : bool) : bytes :=
  cs ≫= λ c, (if upper_x then str "&#X" else str "&#x") ++ format_u32_hex upper_digits c ++ str ";".

(** [\u{:04x}] of an ASCII character. *)
Definition unicode_escape (cs : list N) (upper : bool) : bytes :=
  cs ≫= λ c, if (c <? 128)%N
    then Byte.x5c :: Byte.x75 :: str "00" ++ hex_byte upper (byte_of_N c)
    else encode_utf8 c.

(** ** The redactor *)

(** [STANDARD], [STANDARD_NO_PAD], [URL_SAFE] and [URL_SAFE_NO_PAD] of the
    [base64] crate, and [serde_json::to_string] of a string. *)
Class Encoders := {
  b64 : bytes → bytes;
  b64_nopad : bytes → bytes;
  b64_url : bytes → bytes;
  b64_url_nopad : bytes → bytes;
  json_string : bytes → option bytes;
}.

Definition push_unique_text (needles : list TextNeedle) (value marker : bytes) : list TextNeedle :=
  if (len value <? MIN_REDACTABLE_LEN)%N then needles
  else if existsb (λ needle, tn_value needle ==? value) needles then needles
  else needles ++ [{| tn_value := value; tn_marker := marker |}].

Definition push_unique_raw (needles : list bytes) (value : bytes) : list bytes :=
  if (len value <? MIN_REDACTABLE_LEN)%N then needles
  else if existsb (λ needle, needle ==? value) needles then needles
  else needles ++ [value].

(** [strip_prefix('"')] and [strip_suffix('"')], or the string as it is. *)
Definition strip_quotes (quoted : bytes) : bytes :=
  match quoted with
  | Byte.x22 :: rest =>
      match rev rest with
      | Byte.x22 :: middle => rev middle
      | _ => quoted
      end
  | _ => quoted
  end.

Section redactor.
Context `{Encoders}.

Definition json_escape (input : bytes) : bytes := strip_quotes (default input (json_string input)).

(** The needles of one secret, in the order they are pushed. *)
Definition byte_spellings (value : bytes) : list (bytes * bytes) :=
  [(b64 value, str "[REDACTED_B64]"); (b64_nopad value, str "[REDACTED_B64]");
   (b64_url value, str "[REDACTED_B64URL]"); (b64_url_nopad value, str "[REDACTED_B64URL]");
   (hex value false, str "[REDACTED_HEX]"); (hex value true, str "[REDACTED_HEX]");
   (base32 value true, str "[REDACTED_BASE32]"); (base32 value false, str "[REDACTED_BASE32]");
   (to_ascii_lowercase <$> base32 value true, str "[REDACTED_BASE32]");
   (to_ascii_lowercase <$> base32 value false, str "[REDACTED_BASE32]")].

Definition text_spellings (raw : bytes) (cs : list N) : list (bytes * bytes) :=
  [(raw, str "[REDACTED]");
   (percent_encode raw true, str "[REDACTED_URL]"); (percent_encode raw false, str "[REDACTED_URL]");
   (double_url_encode raw true, str "[REDACTED_URL2]");
   (double_url_encode raw false, str "[REDACTED_URL2]");
   (doubled_percent_encode raw true, str "[REDACTED_DOUBLE_PERCENT]");
   (doubled_percent_encode raw false, str "[REDACTED_DOUBLE_PERCENT]");
   (json_escape raw, str "[REDACTED_JSON]");
   (html_decimal_escape cs, str "[REDACTED_HTML]");
   (html_hex_escape cs false false, str "[REDACTED_HTML]");
   (html_hex_escape cs false true, str "[REDACTED_HTML]");
   (html_hex_escape cs true false, str "[REDACTED_HTML]");
   (html_hex_escape cs true true, str "[REDACTED_HTML]");
   (unicode_escape cs false, str "[REDACTED_UNICODE]");
   (unicode_escape cs true, str "[REDACTED_UNICODE]")].

Definition spellings (value : bytes) : list (bytes * bytes) :=
  byte_spellings value ++ (if chars value is Some cs then text_spellings value cs else []).

Definition push_spelling (needles : list TextNeedle) (p : bytes * bytes) : list TextNeedle :=
  push_unique_text needles p.1 p.2.

Definition secret_step (acc : list TextNeedle * list bytes) (value : bytes) : list TextNeedle * list bytes :=
  if value ==? [] then acc
  else (fold_left push_spelling (spellings value) acc.1, push_unique_raw acc.2 value).

Definition source_step (source_bytes : N) (value : bytes) : result RedactorError N :=
  reject_if (MAX_REDACTION_SECRET_LEN <? len value)%N SecretLength;;
  source_bytes ← ok_or (checked_add_u64 source_bytes (len value)) SourceBytes;
  reject_if (MAX_REDACTION_SOURCE_BYTES <? source_bytes)%N SourceBytes;;
  Ok source_bytes.

(** [sort_by_key(|needle| Reverse(needle.value.len()))]: a stable sort. *)
Definition longer_first {A} (f : A → bytes) (x y : A) : Prop := (length (f y) ≤ length (f x))%nat.

Global Instance longer_first_dec {A} (f : A → bytes) : RelDecision (longer_first f).
Proof. intros x y. unfold longer_first. apply _. Defined.

Definition try_from_secret_slices (values : list bytes) : result RedactorError Redactor :=
  reject_if (MAX_REDACTION_SECRETS <? len values)%N TooManySecrets;;
  foldE source_step 0%N values;;
  let '(text, raw) := fold_left secret_step values ([], []) in
  Ok {| rd_text_needles := merge_sort (longer_first tn_value) text;
        rd_raw_needles := merge_sort (longer_first id) raw |}.
End redactor.

(** [output.replace(&needle.value, needle.marker)] of a string is the same
    replacement on its bytes: a match of UTF-8 text starts and ends between
    characters. *)
Definition redact_step (output : bytes) (needle : TextNeedle) : option bytes :=
  if tn_value needle ==? [] then Some output
  else replace_bytes output (tn_value needle) (tn_marker needle).

Definition foldO {S A} (f : S → A → option S) (s : S) (l : list A) : option S :=
  fold_left (λ acc x, acc ≫= λ s, f s x) l (Some s).

Definition redact_str (r : Redactor) (input : bytes) : result RedactorError (option bytes) :=
  reject_if (MAX_REDACTION_INPUT_BYTES <? len input)%N InputBytes;;
  Ok (foldO redact_step input (rd_text_needles r)).

Definition redact_raw_bytes (r : Redactor) (input : bytes) : option bytes :=
  foldO (λ output needle, replace_bytes output needle (str "[REDACTED]")) input (rd_raw_needles r).

Definition redact_bytes_lossy (r : Redactor) (input : bytes) : result RedactorError (option bytes) :=
  reject_if (MAX_REDACTION_INPUT_BYTES <? len input)%N InputBytes;;
  match redact_raw_bytes r input with
  | Some redacted => redact_str r (from_utf8_lossy redacted)
  | None => Ok None
  end.

(** ** Reference: one pass over the text

    At each position the longest pattern that starts there, if there is one, is
    replaced; [skip] counts the bytes of it that are still to be dropped. *)

Definition starts_with (pattern input : bytes) : bool :=
  bool_decide (take (length pattern) input = pattern).

Definition longest (patterns : list bytes) (input : bytes) : nat :=
  foldr (λ p n, if starts_with p input then Nat.max (length p) n else n) O patterns.

Fixpoint redact_ref (patterns : list bytes) (marker : bytes) (skip : nat) (input : bytes) : bytes :=
  match input with
  | [] => []
  | b :: rest =>
      match skip with
      | S skip' => redact_ref patterns marker skip' rest
      | O =>
          match longest patterns input with
          | O => b :: redact_ref patterns marker O rest
          | S n => marker ++ redact_ref patterns marker n rest
          end
      end
  end.

Section reference.
Context (patterns : list bytes) (marker : bytes).

Abbreviation redact := (redact_ref patterns marker).

Lemma redact_skip n input : redact n input = redact O (drop n input).
Proof. revert n. induction input as [|b input IH]; intros [|n]; try done. cbn [redact_ref drop]. apply IH. Qed.

Lemma starts_with_prefix p input : starts_with p input = true ↔ ∃ rest, input = p ++ rest.
Proof.
  unfold starts_with. rw bool_decide_eq_true. split.
  - intros Hp. exists (drop (length p) input). by rw -{1}Hp take_drop.
  - intros [rest ->]. apply take_app_length.
Qed.

Lemma longest_pos input n :
  longest patterns input = S n →
  ∃ p, p ∈ patterns ∧ starts_with p input = true ∧ length p = S n.
Proof.
  induction patterns as [|p ps IH]; cbn [longest foldr]; [done|]. fold (longest ps input).
  destruct (starts_with p input) eqn:Hp.
  - intros Hn. destruct (Nat.max_spec (length p) (longest ps input)) as [[? Hm]|[? Hm]]; rw Hm in Hn.
    + destruct (IH Hn) as (q & ? & ? & ?). exists q. set_solver.
    + exists p. set_solver.
  - intros Hn. destruct (IH Hn) as (q & ? & ? & ?). exists q. set_solver.
Qed.

Lemma longest_ge p input :
  p ∈ patterns → starts_with p input = true → (length p ≤ longest patterns input)%nat.
Proof.
  induction patterns as [|q ps IH]; [by intros ?%elem_of_nil|]. cbn [longest foldr].
  fold (longest ps input). intros [->|Hp]%elem_of_cons Hs; [rw Hs; lia|].
  specialize (IH Hp Hs). case_match; lia.
Qed.

Lemma longest_zero input p :
  longest patterns input = O → p ∈ patterns → p ≠ [] → starts_with p input = false.
Proof.
  intros Hl Hp Hne. destruct (starts_with p input) eqn:Hs; [|done].
  pose proof (longest_ge p input Hp Hs). destruct p; [done|]. cbn in *. lia.
Qed.

(** A stretch of text in which no pattern occurs. *)
Definition clean (text : bytes) : Prop :=
  ∀ p pre post, p ∈ patterns → p ≠ [] → text ≠ pre ++ p ++ post.

Lemma clean_nil : clean [].
Proof. intros p [|] post _ Hp; [|done]. by destruct p. Qed.

Lemma clean_cons b text rest :
  longest patterns (b :: text ++ rest) = O → clean text → clean (b :: text).
Proof.
  intros Hl Hc p [|c pre] post Hp Hne Heq; cbn in Heq.
  - assert (starts_with p (b :: text ++ rest) = true) as Hs.
    { apply starts_with_prefix. exists (post ++ rest). by rw app_comm_cons Heq assoc_L. }
    by rw (longest_zero _ _ Hl Hp Hne) in Hs.
  - injection Heq as _ Heq. by apply (Hc p pre post).
Qed.

(** The text and its redaction as copied stretches and replaced patterns. *)
Definition original (segments : list (bytes * bytes)) (tail : bytes) : bytes :=
  (segments ≫= λ s, s.1 ++ s.2) ++ tail.
Definition redacted (segments : list (bytes * bytes)) (tail : bytes) : bytes :=
  (segments ≫= λ s, s.1 ++ marker) ++ tail.

Definition well_redacted (input output : bytes) : Prop :=
  ∃ segments tail, input = original segments tail ∧ output = redacted segments tail ∧
    Forall (λ s, s.2 ∈ patterns ∧ clean s.1) segments ∧ clean tail.

Lemma redact_well_redacted input : well_redacted input (redact O input).
Proof.
  remember (length input) as n eqn:Hn. revert input Hn.
  induction n as [n IH] using lt_wf_ind. intros [|b input] Hn.
  { exists [], []. split_and!; try done. apply clean_nil. }
  cbn [redact_ref]. destruct (longest patterns (b :: input)) as [|k] eqn:El.
  - destruct (IH (length input)) with (input := input) as (segs & tail & Hi & Ho & Hs & Ht); [cbn in Hn; lia|done|].
    rw Ho. destruct segs as [|[g p] segs].
    + exists [], (b :: tail). cbn in Hi. subst. split_and!; try done.
      apply (clean_cons _ _ []); [by rw app_nil_r|done].
    + apply Forall_cons in Hs as [[Hp Hg] Hs]. exists ((b :: g, p) :: segs), tail.
      split_and!; try done; [by rw Hi|]. apply Forall_cons. split; [|done]. split; [done|].
      apply (clean_cons _ _ (p ++ original segs tail)); [|done].
      rw Hi in El. unfold original in *. cbn in El. by rw -!assoc_L in El.
  - destruct (longest_pos _ _ El) as (p & Hp & [rest Hr]%starts_with_prefix & Hlen).
    rw redact_skip. assert (drop k input = rest) as ->.
    { change (drop (S k) (b :: input) = rest). rw Hr -Hlen. by rw drop_app_length. }
    apply (f_equal length) in Hr as Hlr. rw length_app Hlen in Hlr.
    destruct (IH (length rest)) with (input := rest) as (segs & tail & Hi & Ho & Hs & Ht); [lia|done|].
    exists (([], p) :: segs), tail. split_and!; try done.
    + rw Hr Hi. unfold original. cbn. by rw -assoc_L.
    + rw Ho. unfold redacted. cbn. by rw -assoc_L.
    + apply Forall_cons. split; [|done]. split; [done|apply clean_nil].
Qed.
End reference.

(** ** [replace_bytes] is the reference for one pattern *)

Lemma longest_singleton needle input :
  longest [needle] input = if starts_with needle input then length needle else O.
Proof. cbn. case_match; lia. Qed.

Lemma redact_position needle marker input :
  needle ≠ [] →
  redact_ref [needle] marker O input =
  match position needle input with
  | None => input
  | Some offset => take offset input ++ marker ++
      redact_ref [needle] marker O (drop (offset + length needle) input)
  end.
Proof.
  intros Hne. induction input as [|b input IH].
  { cbn [position]. by destruct needle. }
  cbn [position redact_ref]. rw longest_singleton. unfold starts_with.
  destruct (_ <? _)%nat eqn:Hl.
  - apply Nat.ltb_lt in Hl. rw bool_decide_false.
    { f_equal. rw IH. assert (position needle input = None) as ->; [|done]. cbn in Hl.
      destruct input; cbn [position]; (assert ((_ <? length needle)%nat = true) as -> by (apply Nat.ltb_lt; cbn in *; lia)); done. }
    intros Heq. apply (f_equal length) in Heq. rw length_take in Heq. lia.
  - case_bool_decide as Hb.
    + destruct needle as [|c needle]; [done|]. cbn [length]. by rw redact_skip.
    + rw IH. by destruct (position needle input).
Qed.

Lemma replace_loop_total fuel needle marker input output :
  needle ≠ [] → (length input ≤ fuel)%nat →
  replace_loop fuel needle marker input output = Some (output ++ redact_ref [needle] marker O input).
Proof.
  intros Hne. revert input output. induction fuel as [|fuel IH]; intros input output Hf;
    cbn [replace_loop]; rw redact_position //; destruct (position needle input) as [i|] eqn:Hp; try done.
  - destruct input; [|cbn in Hf; lia]. by destruct needle.
  - rw IH; [by rw -!assoc_L|]. rw length_drop. destruct needle; [done|]. cbn. 
    destruct input; [|cbn in *; lia]. by cbn.
Qed.

(** C38: replacing in a whole text terminates and is one left-to-right pass. The
    loop of [replace_bytes], which restarts the search behind each match, always
    ends; its output is the text with the first, leftmost non-overlapping
    occurrences replaced by the marker, and the needle does not occur in
    anything that was copied. *)
Theorem replace_bytes_exact input needle marker :
  replace_bytes input needle marker = Some (redact_ref [needle] marker O input) ∧
  well_redacted [needle] marker input (redact_ref [needle] marker O input).
Proof.
  split; [|apply redact_well_redacted]. unfold replace_bytes. case_bool_decide as Hn.
  - subst. f_equal. induction input as [|b input IH]; [done|]. cbn in *. by rw -IH.
  - by rw replace_loop_total.
Qed.

(** ** The needles of a redactor

    Each secret, and each of its spellings, is a needle unless it is too short. *)

Section needles.
Context `{Encoders}.

Lemma push_unique_text_spec needles value marker v :
  v ∈ tn_value <$> push_unique_text needles value marker ↔
  v ∈ tn_value <$> needles ∨ v = value ∧ (MIN_REDACTABLE_LEN ≤ len v)%N.
Proof.
  unfold push_unique_text. destruct (_ <? _)%N eqn:Hl.
  { apply N.ltb_lt in Hl. split; [by left|]. intros [?|[-> ?]]; [done|lia]. }
  apply N.ltb_ge in Hl. destruct (existsb _ _) eqn:He.
  - apply existsb_exists in He as (x & Hx%list_elem_of_In & Hv). case_bool_decide; [|done].
    split; [by left|]. intros [?|[-> _]]; [done|]. apply list_elem_of_fmap. eauto.
  - rw fmap_app elem_of_app. cbn. rw list_elem_of_singleton. naive_solver.
Qed.

Lemma push_unique_raw_spec needles value v :
  v ∈ push_unique_raw needles value ↔ v ∈ needles ∨ v = value ∧ (MIN_REDACTABLE_LEN ≤ len v)%N.
Proof.
  unfold push_unique_raw. destruct (_ <? _)%N eqn:Hl.
  { apply N.ltb_lt in Hl. split; [by left|]. intros [?|[-> ?]]; [done|lia]. }
  apply N.ltb_ge in Hl. destruct (existsb _ _) eqn:He.
  - apply existsb_exists in He as (x & Hx%list_elem_of_In & Hv). case_bool_decide; [|done].
    split; [by left|]. intros [?|[-> _]]; [done|]. by subst.
  - rw elem_of_app list_elem_of_singleton. naive_solver.
Qed.

Lemma push_spellings l needles v :
  v ∈ tn_value <$> fold_left push_spelling l needles ↔
  v ∈ tn_value <$> needles ∨ v ∈ l.*1 ∧ (MIN_REDACTABLE_LEN ≤ len v)%N.
Proof.
  revert needles. induction l as [|[s m] l IH]; intros needles; cbn [fold_left fmap list_fmap].
  { rw elem_of_nil. naive_solver. }
  rw IH. unfold push_spelling at 1. rw push_unique_text_spec. cbn. rw elem_of_cons. naive_solver.
Qed.

Lemma secret_steps values acc v :
  let '(text, raw) := fold_left secret_step values acc in
  (v ∈ tn_value <$> text ↔ v ∈ tn_value <$> acc.1 ∨
     (MIN_REDACTABLE_LEN ≤ len v)%N ∧ ∃ s, s ∈ values ∧ s ≠ [] ∧ v ∈ (spellings s).*1) ∧
  (v ∈ raw ↔ v ∈ acc.2 ∨ (MIN_REDACTABLE_LEN ≤ len v)%N ∧ v ∈ values).
Proof.
  revert acc. induction values as [|s values IH]; intros acc; cbn [fold_left].
  { destruct acc. set_solver. }
  specialize (IH (secret_step acc s)). destruct (fold_left _ _ _) as [text raw]. destruct IH as [IH1 IH2].
  rw IH1 IH2. clear IH1 IH2. unfold secret_step. case_bool_decide as Hs; cbn [fst snd].
  - subst. setoid_rewrite elem_of_cons. split; [naive_solver|].
    split; [naive_solver|]. intros [?|[Hl [->|?]]]; [naive_solver| |naive_solver]. by cbn in Hl.
  - rw push_spellings push_unique_raw_spec. setoid_rewrite elem_of_cons. split; naive_solver.
Qed.

Lemma redactor_needles values r :
  try_from_secret_slices values = Ok r →
  ∀ v, v ∈ rd_raw_needles r ++ (tn_value <$> rd_text_needles r) ↔
       (MIN_REDACTABLE_LEN ≤ len v)%N ∧
       (v ∈ values ∨ ∃ s, s ∈ values ∧ s ≠ [] ∧ v ∈ (spellings s).*1).
Proof.
  unfold try_from_secret_slices. rw reject_if_bind. intros [_ (total & _ & Hr)%bind_Ok] v.
  pose proof (secret_steps values ([], []) v) as Hv.
  destruct (fold_left secret_step values ([], [])) as [text raw]. destruct Hv as [Ht Hw].
  injection Hr as <-. cbn [rd_raw_needles rd_text_needles]. cbn [fst snd fmap list_fmap] in Ht, Hw.
  rw elem_of_app !merge_sort_Permutation Ht Hw !elem_of_nil. naive_solver.
Qed.
End needles.
