(* ===== verification/StreamingRedaction.v ===== *)
(** * Redaction of a byte stream

    [crates/jury-protected/src/streaming_redaction.rs] and
    [Redactor::append_streaming_patterns] of [redact.rs]: output is redacted
    while it is produced, chunk by chunk, with the bytes that may still belong
    to a match held back. The automaton of the crate [aho_corasick], the memory
    that protects a value, and the writer are parameters. *)

From S2P Require Import Prelude Text Effects Redaction.
Local Open Scope jury_scope.

Definition REDACTION_MARKER : bytes := str "[REDACTED]".
Definition MAX_REDACTION_PATTERNS : N := 4096.
Definition MAX_REDACTION_PATTERN_BYTES : N := 16777216.
Definition MAX_REDACTION_PATTERN_LEN : N := 524288.
Definition MAX_OUTPUT_CHUNK_LEN : N := 65536.

Inductive StreamingRedactorError :=
  | PatternCount | PatternBytes | PatternLength | PatternTooShort | ProtectedMemory | Matcher.

(** An [io::Error]: the one of an oversized chunk, or one of the writer. *)
Inductive io_error := InvalidInput | WriterError (code : N).

(** [AhoCorasickBuilder] with [MatchKind::LeftmostLongest]: a matcher for a list
    of patterns, and the spans [find_iter] yields. *)
Class AhoCorasick := {
  automaton : Type;
  build : list bytes → option automaton;
  find_iter : automaton → bytes → list (nat * nat);
}.

(** [ProtectedMemory::expose]; [None] if the memory is not available. *)
Class ProtectedValues := {
  protected_memory : Type;
  expose : protected_memory → option bytes;
}.

(** [std::io::Write]. *)
Class Write (W : Type) := write_all : bytes → eff io_error W unit.

(** [impl Write for Vec<u8>]: it appends, and does not fail. *)
Global Instance Vec_write : Write bytes := λ data written, (Ok tt, written ++ data).

Section streaming.
Context `{AhoCorasick}.

Record StreamingRedactor := {
  sr_matcher : option automaton;
  sr_pattern_count : nat;
  sr_max_pattern_len : nat;
  sr_pending : bytes;
  sr_capacity : N;  (* what [pending] was allocated with *)
}.

Definition set_pending (pending : bytes) (r : StreamingRedactor) : StreamingRedactor :=
  {| sr_matcher := sr_matcher r; sr_pattern_count := sr_pattern_count r;
     sr_max_pattern_len := sr_max_pattern_len r; sr_pending := pending;
     sr_capacity := sr_capacity r |}.

(** ** Construction *)

Definition pattern_step (total : N) (pattern : bytes) : result StreamingRedactorError N :=
  reject_if (len pattern <? MIN_REDACTABLE_LEN)%N PatternTooShort;;
  reject_if (MAX_REDACTION_PATTERN_LEN <? len pattern)%N PatternLength;;
  total ← ok_or (checked_add_u64 total (len pattern)) PatternBytes;
  reject_if (MAX_REDACTION_PATTERN_BYTES <? total)%N PatternBytes;;
  Ok total.

Definition validate_patterns (patterns : list bytes) : result StreamingRedactorError unit :=
  reject_if (MAX_REDACTION_PATTERNS <? len patterns)%N PatternCount;;
  foldE pattern_step 0%N patterns;;
  Ok tt.

Definition max_len (patterns : list bytes) : nat :=
  foldr (λ p n, Nat.max (length p) n) O patterns.

Definition StreamingRedactor_new (patterns : list bytes) :
    result StreamingRedactorError StreamingRedactor :=
  validate_patterns patterns;;
  let patterns := dedup_by_key id (merge_sort ord_le patterns) in
  let max_pattern_len := max_len patterns in
  matcher ← (if patterns ==? [] then Ok None else Some <$> ok_or (build patterns) Matcher);
  capacity ← ok_or (checked_add_u64 (N.of_nat (max_pattern_len - 1)) MAX_OUTPUT_CHUNK_LEN)
    PatternBytes;
  Ok {| sr_matcher := matcher; sr_pattern_count := length patterns;
        sr_max_pattern_len := max_pattern_len; sr_pending := []; sr_capacity := capacity |}.

Definition from_patterns := StreamingRedactor_new.

(** The patterns collected so far and their total length. *)
Definition append_step (acc : list bytes * N) (value : bytes) :
    result StreamingRedactorError (list bytes * N) :=
  let '(patterns, total_bytes) := acc in
  reject_if (MAX_REDACTION_PATTERN_LEN <? len value)%N PatternLength;;
  total_bytes ← ok_or (checked_add_u64 total_bytes (len value)) PatternBytes;
  reject_if (MAX_REDACTION_PATTERN_BYTES <? total_bytes)%N PatternBytes;;
  reject_if (MAX_REDACTION_PATTERNS <=? len patterns)%N PatternCount;;
  Ok (patterns ++ [value], total_bytes).

Definition append_streaming_patterns (acc : list bytes * N) (r : Redactor) :
    result StreamingRedactorError (list bytes * N) :=
  foldE append_step acc (rd_raw_needles r ++ (tn_value <$> rd_text_needles r)).

Definition from_redactors (redactors : list Redactor) :
    result StreamingRedactorError StreamingRedactor :=
  acc ← foldE append_streaming_patterns ([], 0%N) redactors;
  StreamingRedactor_new acc.1.

Definition map_redactor_error (e : RedactorError) : StreamingRedactorError :=
  match e with
  | TooManySecrets => PatternCount
  | SourceBytes => PatternBytes
  | SecretLength => PatternLength
  | InputBytes => PatternBytes
  end.

Section values.
Context `{Encoders} `{ProtectedValues}.

Definition value_step (acc : list bytes * N) (value : N * protected_memory) :
    result StreamingRedactorError (list bytes * N) :=
  let '(index, value) := value in
  reject_if (MAX_REDACTION_SECRETS <=? index)%N PatternCount;;
  exposed ← ok_or (expose value) ProtectedMemory;
  redactor ← map_err map_redactor_error (try_from_secret_slices [exposed]);
  append_streaming_patterns acc redactor.

Definition from_protected_values (values : list protected_memory) :
    result StreamingRedactorError StreamingRedactor :=
  acc ← foldE value_step ([], 0%N) (imap (λ i v, (N.of_nat i, v)) values);
  StreamingRedactor_new acc.1.
End values.

(** Separate overlap state over the same automaton. *)
Definition independent_stream (r : StreamingRedactor) : StreamingRedactor := set_pending [] r.

(** ** Running *)

Section writer.
Context {W : Type} `{Write W}.

(** The loop over the matches: the cursor, and the length consumed. *)
Fixpoint emit_loop (input : bytes) (safe_start_limit : nat) (matches : list (nat * nat))
    (cursor consumed : nat) : eff io_error W (nat * nat) :=
  match matches with
  | [] => mret (cursor, consumed)
  | (start, stop) :: matches' =>
      if (safe_start_limit <=? start)%nat then mret (cursor, consumed)
      else
        write_all (take (start - cursor) (drop cursor input));;
        write_all REDACTION_MARKER;;
        emit_loop input safe_start_limit matches' stop (Nat.max consumed stop)
  end.

Definition emit_matches (matcher : automaton) (input : bytes) (safe_start_limit : nat) :
    eff io_error W nat :=
  '(cursor, consumed) ← emit_loop input safe_start_limit (find_iter matcher input) O safe_start_limit;
  (if (cursor <? safe_start_limit)%nat
   then write_all (take (safe_start_limit - cursor) (drop cursor input)) else mret tt);;
  mret consumed.

(** The bytes behind the prefix are moved to the front; the rest is zeroed and cut off. *)
Definition discard_prefix (buffer : bytes) (consumed : nat) : bytes := drop consumed buffer.

Definition push_chunk (chunk : bytes) : eff io_error (StreamingRedactor * W) unit :=
  λ '(self, writer),
  if (MAX_OUTPUT_CHUNK_LEN <? len chunk)%N then (Err InvalidInput, (self, writer)) else
  match sr_matcher self with
  | None => let '(r, writer) := write_all chunk writer in (r, (self, writer))
  | Some matcher =>
      if chunk ==? [] then (Ok tt, (self, writer)) else
      let self := set_pending (sr_pending self ++ chunk) self in
      let safe_start_limit := (length (sr_pending self) - (sr_max_pattern_len self - 1))%nat in
      if (safe_start_limit =? 0)%nat then (Ok tt, (self, writer)) else
      match emit_matches matcher (sr_pending self) safe_start_limit writer with
      | (Ok consumed, writer) =>
          (Ok tt, (set_pending (discard_prefix (sr_pending self) consumed) self, writer))
      | (Err e, writer) => (Err e, (self, writer))
      end
  end.

Definition finish : eff io_error (StreamingRedactor * W) unit := λ '(self, writer),
  match sr_matcher self with
  | Some matcher =>
      match emit_matches matcher (sr_pending self) (length (sr_pending self)) writer with
      | (Ok consumed, writer) =>
          (Ok tt, (set_pending (discard_prefix (sr_pending self) consumed) self, writer))
      | (Err e, writer) => (Err e, (self, writer))
      end
  | None => (Ok tt, (self, writer))
  end.

(** A stream as its callers run it: the chunks in turn, then the end. *)
Definition redact_stream (chunks : list bytes) : eff io_error (StreamingRedactor * W) unit :=
  forM push_chunk chunks;; finish.
End writer.
End streaming.

(** ** The documented behaviour of the automaton

    [find_iter] yields the leftmost-longest matches that do not overlap, as
    spans. *)

Fixpoint spans (patterns : list bytes) (skip pos : nat) (input : bytes) : list (nat * nat) :=
  match input with
  | [] => []
  | _ :: rest =>
      match skip with
      | S skip' => spans patterns skip' (S pos) rest
      | O =>
          match longest patterns input with
          | O => spans patterns O (S pos) rest
          | S n => (pos, pos + S n) :: spans patterns n (S pos) rest
          end
      end
  end.

Class AhoCorasickLaws `{AhoCorasick} : Prop :=
  find_iter_spans patterns matcher input :
    build patterns = Some matcher → find_iter matcher input = spans patterns O O input.

(** ** What one call emits

    A structural account of [emit_matches]: what is written for the matches that
    start before the limit, and what is left of the input. *)

Section emit.
Context (patterns : list bytes) (marker : bytes).

Fixpoint emit_ref (limit skip : nat) (input : bytes) : bytes * bytes :=
  match input with
  | [] => ([], [])
  | b :: rest =>
      match skip with
      | S skip' => emit_ref (limit - 1) skip' rest
      | O =>
          match limit with
          | O => ([], input)
          | S limit' =>
              match longest patterns input with
              | O => let '(out, kept) := emit_ref limit' O rest in (b :: out, kept)
              | S n => let '(out, kept) := emit_ref limit' n rest in (marker ++ out, kept)
              end
          end
      end
  end.

Lemma longest_bound input : (longest patterns input ≤ max_len patterns)%nat.
Proof. induction patterns as [|p ps IH]; cbn; [lia|]. case_match; unfold longest, max_len in *; lia. Qed.

Lemma longest_le input : (longest patterns input ≤ length input)%nat.
Proof.
  destruct (longest patterns input) as [|n] eqn:Hl; [lia|].
  destruct (longest_pos _ _ _ Hl) as (p & _ & [rest ->]%starts_with_prefix & Hp).
  rw length_app. lia.
Qed.

(** With as many bytes as the longest pattern at hand, the match is final. *)
Lemma longest_app input more :
  (max_len patterns ≤ length input)%nat → longest patterns (input ++ more) = longest patterns input.
Proof.
  induction patterns as [|p ps IH]; cbn [longest foldr max_len]; [done|]. intros Hl.
  fold (longest ps (input ++ more)) (longest ps input). fold (max_len ps) in Hl.
  rw IH; [|lia]. unfold starts_with. by rw take_app_le; [|lia].
Qed.

Lemma emit_ref_final limit skip input more :
  (skip ≤ length input)%nat →
  limit = O ∨ (limit + (max_len patterns - 1) ≤ length input)%nat →
  redact_ref patterns marker skip (input ++ more) =
  (emit_ref limit skip input).1 ++ redact_ref patterns marker O ((emit_ref limit skip input).2 ++ more).
Proof.
  revert limit skip. induction input as [|b input IH]; intros limit skip Hs Hl.
  { cbn in Hs. by assert (skip = O) as -> by lia. }
  cbn [length] in *. cbn [app redact_ref emit_ref]. destruct skip as [|skip]; [|apply IH; lia].
  destruct limit as [|limit]; [done|].
  rw app_comm_cons (longest_app (b :: input)); [|cbn; lia].
  pose proof (longest_le (b :: input)) as Hle. cbn [length] in Hle.
  destruct (longest patterns (b :: input)) as [|n]; rw (IH limit); try lia;
    destruct (emit_ref limit _ input) as [out kept]; cbn; by rw ?assoc_L.
Qed.

Lemma emit_ref_all limit skip input :
  (length input ≤ limit)%nat →
  emit_ref limit skip input = (redact_ref patterns marker skip input, []).
Proof.
  revert limit skip. induction input as [|b input IH]; intros limit skip Hl; [done|].
  cbn [length] in Hl. cbn [redact_ref emit_ref]. destruct skip as [|skip]; [|apply IH; lia].
  destruct limit as [|limit]; [lia|]. case_match; by rw IH; [|lia].
Qed.

Lemma emit_ref_left limit skip input :
  (length (emit_ref limit skip input).2 ≤ length input - limit)%nat.
Proof.
  revert limit skip. induction input as [|b input IH]; intros limit skip; [cbn; lia|].
  cbn [length emit_ref]. destruct skip as [|skip]; [|specialize (IH (limit - 1)%nat skip); lia].
  destruct limit as [|limit]; [cbn; lia|].
  destruct (longest _ _) as [|n]; [specialize (IH limit O)|specialize (IH limit n)];
    destruct (emit_ref limit _ input); cbn in *; lia.
Qed.
End emit.

(** The matches from a position on do not start before it. *)
Lemma emit_loop_beyond patterns input limit skip pos suffix c consumed (out : bytes) :
  (limit ≤ pos)%nat →
  emit_loop input limit (spans patterns skip pos suffix) c consumed out = (Ok (c, consumed), out).
Proof.
  revert skip pos. induction suffix as [|b suffix IH]; intros skip pos Hl; [done|].
  cbn [spans]. destruct skip as [|skip]; [|apply IH; lia].
  destruct (longest _ _) as [|n]; [apply IH; lia|].
  cbn [emit_loop]. by rw (proj2 (Nat.leb_le limit pos) Hl).
Qed.

Lemma take_gap (input : bytes) c pos b rest :
  (c ≤ pos)%nat → drop pos input = b :: rest →
  take (S pos - c) (drop c input) = take (pos - c) (drop c input) ++ [b].
Proof.
  intros Hc Hd. replace (S pos - c)%nat with (S (pos - c)) by lia. apply take_S_r.
  rw lookup_drop -(Nat.add_0_r (c + _)) -lookup_drop. by replace (c + (pos - c))%nat with pos by lia; rw Hd.
Qed.

Lemma drop_step (input : bytes) pos b rest : drop pos input = b :: rest → drop (S pos) input = rest.
Proof. intros Hd. by rw -Nat.add_1_r -drop_drop Hd. Qed.

(** The loop from a position on: what it writes, with the part up to the limit
    that is written behind it, is what [emit_ref] says. *)
Lemma emit_loop_spec patterns input limit suffix pos skip c (out : bytes) :
  drop pos input = suffix → (limit ≤ length input)%nat → (c ≤ length input)%nat →
  (skip = O ∧ c ≤ pos ∧ pos ≤ limit)%nat ∨ c = (pos + skip)%nat →
  ∃ c' out', emit_loop input limit (spans patterns skip pos suffix) c (Nat.max limit c) out
             = (Ok (c', Nat.max limit c'), out') ∧
    out' ++ take (limit - c') (drop c' input)
    = out ++ take (pos - c) (drop c input) ++ (emit_ref patterns REDACTION_MARKER (limit - pos) skip suffix).1 ∧
    drop (Nat.max limit c') input = (emit_ref patterns REDACTION_MARKER (limit - pos) skip suffix).2.
Proof.
  revert pos skip c out. induction suffix as [|b suffix IH]; intros pos skip c out Hd Hl Hc Hinv.
  { apply (f_equal length) in Hd as Hlen. rw length_drop in Hlen. cbn in Hlen.
    exists c, out. cbn. split; [done|]. rw app_nil_r. split.
    - f_equal. destruct Hinv as [(? & ? & ?)|?]; repeat (f_equal; try lia).
    - apply drop_ge. lia. }
  pose proof (drop_step _ _ _ _ Hd) as Hd'.
  destruct (decide (skip = O ∧ limit ≤ pos)%nat) as [[-> Hge]|Hnot].
  { rw emit_loop_beyond //. exists c, out. split; [done|].
    replace (limit - pos)%nat with O by lia. cbn. rw app_nil_r -Hd.
    destruct Hinv as [(_ & ? & ?)| ->]; split; repeat (f_equal; try lia). }
  cbn [spans emit_ref]. destruct skip as [|skip].
  2: { destruct (IH (S pos) skip c out) as (c' & out' & He & Ho & Hr); try done; [lia|].
       exists c', out'. replace (limit - pos - 1)%nat with (limit - S pos)%nat by lia.
       split; [done|]. split; [|done]. rw Ho. repeat (f_equal; try lia). }
  replace (limit - pos)%nat with (S (limit - S pos)) by lia.
  destruct (longest patterns (b :: suffix)) as [|n] eqn:Hlong.
  - destruct (IH (S pos) O c out) as (c' & out' & He & Ho & Hr); try done; [lia|].
    exists c', out'. split; [done|]. destruct (emit_ref _ _ _ _ suffix) as [e k]. cbn in *.
    split; [|done]. rw Ho (take_gap _ _ _ _ _ _ Hd); [by rw -!assoc_L|lia].
  - pose proof (longest_le patterns (b :: suffix)) as Hle. rw Hlong -Hd length_drop in Hle.
    cbn [emit_loop]. rw (proj2 (Nat.leb_gt limit pos)); [|lia].
    destruct (IH (S pos) n (pos + S n)%nat (out ++ take (pos - c) (drop c input) ++ REDACTION_MARKER))
      as (c' & out' & He & Ho & Hr); try done; [lia..|].
    exists c', out'. split.
    { rewrite <- He. unfold mbind, eff_bind, write_all, Vec_write. rw assoc_L. f_equal. lia. }
    destruct (emit_ref _ _ _ _ suffix) as [e k]. cbn [fst snd] in *. split; [|done].
    rw Ho. replace (S pos - (pos + S n))%nat with O by lia. cbn [take app]. by rw -!assoc_L.
Qed.

(** ** Sorting and removing duplicates does not change what is matched *)

Lemma elem_of_dedup (x : bytes) l : x ∈ dedup_by_key id l ↔ x ∈ l.
Proof.
  induction l as [|y l IH]; [done|]. cbn [dedup_by_key]. rw elem_of_cons -IH.
  destruct (dedup_by_key id l) as [|z l']; [by rw elem_of_cons|]. case_bool_decide as Hxy; cbn in Hxy; set_solver.
Qed.

Lemma elem_of_normalised (p : bytes) patterns : p ∈ dedup_by_key id (merge_sort ord_le patterns) ↔ p ∈ patterns.
Proof. by rw elem_of_dedup merge_sort_Permutation. Qed.

Lemma longest_mono ps qs input :
  (∀ p, p ∈ ps → p ∈ qs) → (longest ps input ≤ longest qs input)%nat.
Proof.
  intros Hsub. destruct (longest ps input) as [|n] eqn:Hl; [lia|].
  destruct (longest_pos _ _ _ Hl) as (p & Hp & Hs & <-). by apply longest_ge; [apply Hsub|].
Qed.

Lemma redact_ref_ext ps qs marker skip input :
  (∀ p, p ∈ ps ↔ p ∈ qs) → redact_ref ps marker skip input = redact_ref qs marker skip input.
Proof.
  intros Hiff. revert skip. induction input as [|b input IH]; intros skip; [done|].
  cbn [redact_ref]. assert (longest ps (b :: input) = longest qs (b :: input)) as ->.
  { apply Nat.le_antisymm; apply longest_mono; naive_solver. }
  destruct skip; [|done]. by case_match; rw IH.
Qed.

Lemma max_len_ge p ps : p ∈ ps → (length p ≤ max_len ps)%nat.
Proof. induction ps as [|q ps IH]; [by intros ?%elem_of_nil|]. cbn. intros [->|?%IH]%elem_of_cons; unfold max_len in *; lia. Qed.

Lemma max_len_bound ps n : (∀ p, p ∈ ps → (length p ≤ n)%nat) → (max_len ps ≤ n)%nat.
Proof.
  induction ps as [|q ps IH]; cbn; [lia|]. intros Hall. apply Nat.max_lub; [apply Hall|apply IH]; set_solver.
Qed.

Lemma validate_patterns_lengths patterns u p :
  validate_patterns patterns = Ok u → p ∈ patterns →
  (MIN_REDACTABLE_LEN ≤ len p ≤ MAX_REDACTION_PATTERN_LEN)%N.
Proof.
  unfold validate_patterns. rw reject_if_bind. intros [_ (total & Hf & _)%bind_Ok] Hp.
  assert (∀ q, q ∈ [] ++ patterns → (MIN_REDACTABLE_LEN ≤ len q ≤ MAX_REDACTION_PATTERN_LEN)%N) as Hall.
  { refine (foldE_invariant (λ l _, ∀ q, q ∈ l → (MIN_REDACTABLE_LEN ≤ len q ≤ MAX_REDACTION_PATTERN_LEN)%N)
      pattern_step _ patterns [] 0%N total _ Hf); [|by intros q ?%elem_of_nil].
    intros pre s x s' HI Hx q [Hq|[->|?%elem_of_nil]%elem_of_cons]%elem_of_app; [by apply HI| |done].
    unfold pattern_step in Hx. rewrite -> !reject_if_bind in Hx. 
    destruct Hx as (H1%N.ltb_ge & H2%N.ltb_ge & _). lia. }
  by apply Hall.
Qed.

(** ** A stream over its whole run *)

Section stream.
Context `{AhoCorasickLaws}.

(** The redactor matches these patterns, and was allocated for them. *)
Record serves (ps : list bytes) (r : StreamingRedactor) : Prop := {
  sv_max : sr_max_pattern_len r = max_len ps;
  sv_matcher : match sr_matcher r with
    | Some m => ∀ input, find_iter m input = spans ps O O input
    | None => ps = []
    end;
  sv_capacity : sr_capacity r = (N.of_nat (max_len ps - 1) + MAX_OUTPUT_CHUNK_LEN)%N;
}.

Lemma serves_pending ps r pending : serves ps r → serves ps (set_pending pending r).
Proof. by intros [??]. Qed.

Lemma new_serves patterns r :
  StreamingRedactor_new patterns = Ok r →
  serves (dedup_by_key id (merge_sort ord_le patterns)) r ∧ sr_pending r = [] ∧
  ∀ p, p ∈ patterns → (MIN_REDACTABLE_LEN ≤ len p ≤ MAX_REDACTION_PATTERN_LEN)%N.
Proof.
  unfold StreamingRedactor_new. intros ([] & Hv & Hn)%bind_Ok.
  apply bind_Ok in Hn as (m & Hm & Hn). apply bind_Ok in Hn as (c & Hc & [= <-]). cbn.
  apply ok_or_Ok in Hc as ->%checked_add_u64_Some.
  split_and!; [split; cbn; [done| |done]|done|intros p; by eapply validate_patterns_lengths].
  case_bool_decide as He; [by simplify_eq|].
  apply fmap_Ok in Hm as (a & Ha%ok_or_Ok & <-). intros input. by apply find_iter_spans.
Qed.

Lemma emit_matches_spec ps m limit input (out : bytes) :
  (∀ input, find_iter m input = spans ps O O input) → (limit ≤ length input)%nat →
  ∃ consumed, emit_matches m input limit out
              = (Ok consumed, out ++ (emit_ref ps REDACTION_MARKER limit O input).1) ∧
    drop consumed input = (emit_ref ps REDACTION_MARKER limit O input).2.
Proof.
  intros Hm Hl. destruct (emit_loop_spec ps input limit input O O O out) as (c & out' & He & Ho & Hr);
    try done; [lia|by right|].
  rw Nat.max_0_r in He. rw Nat.sub_0_r in Hr. rw !Nat.sub_0_r in Ho. exists (Nat.max limit c). split; [|done].
  unfold emit_matches, mbind, eff_bind. rw Hm He. cbn in Ho. rw -Ho.
  destruct (c <? limit)%nat eqn:Hc; [done|]. apply Nat.ltb_ge in Hc.
  replace (limit - c)%nat with O by lia. cbn. by rw app_nil_r.
Qed.

Definition chunk_ok (chunk : bytes) : Prop := (len chunk ≤ MAX_OUTPUT_CHUNK_LEN)%N.

(** Between two chunks, less than the longest pattern is held back, and what was
    written and what is held back determine the output for any continuation. *)
Definition at_most_overlap (ps : list bytes) (r : StreamingRedactor) : Prop :=
  (length (sr_pending r) ≤ max_len ps - 1)%nat.

Lemma redact_ref_none marker input : redact_ref [] marker O input = input.
Proof. induction input as [|b input IH]; [done|]. cbn in *. by rw IH. Qed.

Lemma push_chunk_spec ps r chunk (out : bytes) :
  serves ps r → at_most_overlap ps r → chunk_ok chunk →
  ∃ pending out', push_chunk chunk (r, out) = (Ok tt, (set_pending pending r, out')) ∧
    at_most_overlap ps (set_pending pending r) ∧
    ∀ more, out ++ redact_ref ps REDACTION_MARKER O (sr_pending r ++ chunk ++ more) =
            out' ++ redact_ref ps REDACTION_MARKER O (pending ++ more).
Proof.
  intros [Hmax Hm _] Hp Hc. unfold push_chunk. rw (proj2 (N.ltb_ge _ _) Hc).
  assert (set_pending (sr_pending r) r = r) as Hself by (by destruct r).
  destruct (sr_matcher r) as [m|].
  2: { subst. exists (sr_pending r), (out ++ chunk). rw Hself. split; [done|]. split; [done|]. intros more.
       unfold at_most_overlap in Hp. cbn in Hp. destruct (sr_pending r); [|cbn in Hp; lia].
       cbn. by rw !redact_ref_none assoc_L. }
  case_bool_decide as Hn; [subst; exists (sr_pending r), out; by rw Hself|].
  cbn [sr_pending set_pending sr_max_pattern_len]. rw Hmax.
  destruct (_ =? 0)%nat eqn:Hz.
  { apply Nat.eqb_eq in Hz. exists (sr_pending r ++ chunk), out. split; [done|].
    split; [unfold at_most_overlap; cbn; lia|]. intros more. by rw !assoc_L. }
  apply Nat.eqb_neq in Hz. set (limit := (_ - _)%nat) in *.
  destruct (emit_matches_spec ps m limit (sr_pending r ++ chunk) out Hm) as (k & He & Hk); [lia|].
  rw He. eexists _, _. split; [done|]. unfold discard_prefix. rw Hk. split.
  - unfold at_most_overlap. cbn [sr_pending set_pending].
    etrans; [apply emit_ref_left|]. unfold limit. lia.
  - intros more. rw assoc_L (emit_ref_final ps _ limit O); [by rw assoc_L|lia|]. right. unfold limit. lia.
Qed.

Lemma push_chunks_spec ps chunks r (out : bytes) :
  serves ps r → at_most_overlap ps r → Forall chunk_ok chunks →
  ∃ pending out', forM push_chunk chunks (r, out) = (Ok tt, (set_pending pending r, out')) ∧
    at_most_overlap ps (set_pending pending r) ∧
    ∀ more, out ++ redact_ref ps REDACTION_MARKER O (sr_pending r ++ concat chunks ++ more) =
            out' ++ redact_ref ps REDACTION_MARKER O (pending ++ more).
Proof.
  intros Hs Hp Hall. revert r out Hs Hp. induction Hall as [|chunk chunks Hc Hall IH]; intros r out Hs Hp.
  { exists (sr_pending r), out. cbn [concat app forM].
    assert (set_pending (sr_pending r) r = r) as Hself by (by destruct r). by rw Hself. }
  destruct (push_chunk_spec ps r chunk out Hs Hp Hc) as (pending & out' & Hpush & Hp' & Hmore).
  destruct (IH (set_pending pending r) out') as (pending' & out'' & Hrun & Hp'' & Hmore');
    [by apply serves_pending|done|].
  exists pending', out''. split; [|split; [done|]].
  - cbn [forM]. unfold mbind, eff_bind. rewrite -> Hpush. by rewrite -> Hrun.
  - intros more. cbn [concat]. rw -!assoc_L Hmore -Hmore'. done.
Qed.

Lemma finish_spec ps r (out : bytes) :
  serves ps r → at_most_overlap ps r →
  finish (r, out) = (Ok tt, (set_pending [] r, out ++ redact_ref ps REDACTION_MARKER O (sr_pending r))).
Proof.
  intros [Hmax Hm _] Hp. unfold finish. destruct (sr_matcher r) as [m|] eqn:Em.
  - destruct (emit_matches_spec ps m (length (sr_pending r)) (sr_pending r) out Hm) as (k & He & Hk); [lia|].
    rw He. unfold discard_prefix. rw Hk. rw emit_ref_all; [done|lia].
  - subst. unfold at_most_overlap in Hp. cbn in Hp. destruct r as [? ? ? pending ?]. cbn in *.
    destruct pending; [|cbn in Hp; lia]. cbn. by rw app_nil_r.
Qed.

Lemma redact_stream_spec patterns r chunks :
  StreamingRedactor_new patterns = Ok r → Forall chunk_ok chunks →
  redact_stream chunks (r, []) =
  (Ok tt, (set_pending [] r, redact_ref patterns REDACTION_MARKER O (concat chunks))).
Proof.
  intros (Hs & Hpend & _)%new_serves Hall. set (ps := dedup_by_key _ _) in *.
  assert (at_most_overlap ps r) as Hp by (unfold at_most_overlap; rw Hpend; cbn; lia).
  destruct (push_chunks_spec ps chunks r [] Hs Hp Hall) as (pending & out & Hrun & Hp' & Hmore).
  unfold redact_stream, mbind, eff_bind. rewrite -> Hrun.
  rewrite -> (finish_spec ps); [|by apply serves_pending|done].
  specialize (Hmore []). rw !app_nil_r Hpend in Hmore. cbn [app] in Hmore.
  cbn [sr_pending set_pending]. rw -Hmore. do 2 f_equal. apply redact_ref_ext. intros p. apply elem_of_normalised.
Qed.
End stream.

(** ** Collecting the patterns *)

Lemma append_spec acc r acc' :
  append_streaming_patterns acc r = Ok acc' →
  acc'.1 = acc.1 ++ rd_raw_needles r ++ (tn_value <$> rd_text_needles r).
Proof.
  intros Hf. refine (foldE_invariant (λ l s, s.1 = acc.1 ++ l) append_step _ _ [] acc acc' _ Hf);
    [|by rw app_nil_r].
  intros pre [ps t] x [ps' t'] Hps Hx. cbn [fst] in *. subst ps. unfold append_step in Hx.
  rewrite -> reject_if_bind in Hx. destruct Hx as [_ (? & _ & Hx)%bind_Ok].
  rewrite -> !reject_if_bind in Hx. destruct Hx as (_ & _ & [= <- _]). by rw assoc_L.
Qed.

Section secrets.
Context `{AhoCorasickLaws} `{Encoders} `{ProtectedValues}.

(** A secret that was given, or one of its spellings. *)
Definition gives_away (values : list protected_memory) (v : bytes) : Prop :=
  ∃ value secret, value ∈ values ∧ expose value = Some secret ∧
    (v = secret ∨ secret ≠ [] ∧ v ∈ (spellings secret).*1).

Lemma values_patterns l acc acc' :
  foldE value_step acc l = Ok acc' →
  ∀ v, v ∈ acc'.1 ↔ v ∈ acc.1 ∨ (MIN_REDACTABLE_LEN ≤ len v)%N ∧ gives_away l.*2 v.
Proof.
  revert acc. induction l as [|[i value] l IH]; intros acc.
  { intros [= <-] v. unfold gives_away. cbn. set_solver. }
  cbn [foldE]. intros (acc1 & Hx & Hl)%bind_Ok v. unfold value_step in Hx.
  rewrite -> reject_if_bind in Hx. destruct Hx as (_ & (secret & Hs%ok_or_Ok & Hx)%bind_Ok).
  apply bind_Ok in Hx as (r & Hr%map_err_Ok & Ha%append_spec).
  rw (IH _ Hl v) Ha elem_of_app (redactor_needles _ _ Hr v). unfold gives_away. cbn.
  setoid_rewrite elem_of_cons. setoid_rewrite elem_of_nil. naive_solver.
Qed.

Lemma imap_index (values : list protected_memory) : (imap (λ i v, (N.of_nat i, v)) values).*2 = values.
Proof.
  apply list_eq. intros i. rw list_lookup_fmap list_lookup_imap. by destruct (values !! i).
Qed.

Lemma protected_patterns values r :
  from_protected_values values = Ok r →
  ∃ patterns, StreamingRedactor_new patterns = Ok r ∧
    ∀ v, v ∈ patterns ↔ (MIN_REDACTABLE_LEN ≤ len v)%N ∧ gives_away values v.
Proof.
  unfold from_protected_values. intros ([ps total] & Hf & Hn)%bind_Ok. exists ps. split; [done|].
  intros v. rw (values_patterns _ _ _ Hf v) imap_index elem_of_nil. naive_solver.
Qed.
End secrets.

(** ** Theorems *)

(** C32: redaction does not depend on how the output is cut into chunks. For any
    accepted patterns, and with an automaton that finds the leftmost-longest
    matches, pushing chunks of at most 64 KiB and finishing succeeds on a writer
    that does not fail and has written exactly the one-pass redaction of the
    whole output: a pattern that spans chunks is replaced, and nothing is lost,
    repeated or written out of order. *)
Theorem streaming_redaction_exact `{AhoCorasickLaws} patterns r chunks :
  StreamingRedactor_new patterns = Ok r → Forall chunk_ok chunks →
  redact_stream chunks (r, []) =
  (Ok tt, (set_pending [] r, redact_ref patterns REDACTION_MARKER O (concat chunks))).
Proof. apply redact_stream_spec. Qed.

(** The overlap buffer stays within its allocation. After any chunks, the
    bytes held back and one more chunk fit in the capacity the constructor
    reserved, so that the buffer never grows and leaves no copy of a secret
    behind; the capacity itself is below 576 KiB. *)
Theorem pending_within_capacity `{AhoCorasickLaws} patterns r chunks chunk :
  StreamingRedactor_new patterns = Ok r → Forall chunk_ok chunks → chunk_ok chunk →
  ∃ r' out, forM push_chunk chunks (r, []) = (Ok tt, (r', out)) ∧
    sr_capacity r' = sr_capacity r ∧
    (len (sr_pending r' ++ chunk) ≤ sr_capacity r')%N ∧ (sr_capacity r < 576 * 1024)%N.
Proof.
  intros (Hs & Hpend & Hlen)%new_serves Hall Hc. set (ps := dedup_by_key _ _) in *.
  destruct (push_chunks_spec ps chunks r [] Hs) as (pending & out & Hrun & Hp' & _); [|done|].
  { unfold at_most_overlap. rw Hpend. cbn. lia. }
  exists (set_pending pending r), out. split; [done|]. split; [done|].
  destruct Hs as [_ _ Hcap]. cbn [sr_capacity set_pending sr_pending]. rw Hcap.
  unfold at_most_overlap in Hp'. cbn [sr_pending set_pending] in Hp'. unfold chunk_ok in Hc.
  assert (max_len ps ≤ N.to_nat MAX_REDACTION_PATTERN_LEN)%nat as Hm.
  { apply max_len_bound. intros p [_ ?]%elem_of_normalised%Hlen. unfold len in *. lia. }
  unfold MAX_OUTPUT_CHUNK_LEN, MAX_REDACTION_PATTERN_LEN in *. rw len_app. unfold len in *. lia.
Qed.

(** C33: no secret passes through. A redactor built from protected values
    replaces every value and every searched spelling of it that has at least
    four bytes, wherever the chunks are cut: what reaches the writer is the
    output with such occurrences replaced by the marker, and none occurs in any
    stretch that was copied. *)
Theorem stream_hides_secrets `{AhoCorasickLaws} `{Encoders} `{ProtectedValues} values r chunks :
  from_protected_values values = Ok r → Forall chunk_ok chunks →
  ∃ patterns r' out, redact_stream chunks (r, []) = (Ok tt, (r', out)) ∧
    well_redacted patterns REDACTION_MARKER (concat chunks) out ∧
    ∀ v, v ∈ patterns ↔ (MIN_REDACTABLE_LEN ≤ len v)%N ∧ gives_away values v.
Proof.
  intros (patterns & Hn & Hv)%protected_patterns Hall.
  exists patterns, (set_pending [] r), (redact_ref patterns REDACTION_MARKER O (concat chunks)).
  split; [by apply redact_stream_spec|]. split; [apply redact_well_redacted|done].
Qed.
