(* ===== verification/WitnessMessages.v ===== *)
(** * Messages of the witness protocol

    [crates/jury-protocol/src/witness_v1.rs] with [base.rs], [request.rs],
    [decision.rs], [encoding.rs] and the state records of
    [state_and_rotation.rs]: the action manifest, the request, approvals,
    cancellations, policy checkpoints, responses and the state a witness keeps;
    their shape checks, canonical bytes, signature preimages and digests; and
    the parser that reads a request back from its signature preimage.

    The model leaves out [Debug] output. A byte string of bounded length is a
    byte string, its bound an assumption of the lemmas that need it. *)

From S2P Require Import Prelude VaultTypes Canonical Preimage Identifiers Text Effects.
Local Open Scope jury_scope.

Abbreviation RequestId := bytes.
Abbreviation ApprovalId := bytes.
Abbreviation CancellationId := bytes.
Abbreviation ResponseId := bytes.

Definition PROTOCOL_VERSION : N := 1.
Definition CONSTRUCTION : N := 1.
Definition MAX_POLICY_ACTORS : N := 32.
Definition MAX_RECORDED_APPROVALS : N := MAX_POLICY_ACTORS * 2.
Definition MAX_MANIFEST_TARGETS : N := 64.
Definition MAX_ARGUMENTS : N := 128.
Definition MAX_ENVIRONMENT_NAMES : N := 64.
Definition MAX_LIFETIME_MS : N := 900000.  (* [MAX_REQUEST_LIFETIME_MS] *)
Definition ACCEPTED_CLOCK_SKEW_MS : N := 60000.
Definition REPLAY_RETENTION_MS : N := 86400000.
Definition MAX_REQUEST_BYTES : N := 32768.
Definition MAX_MANIFEST_BYTES : N := 65536.
Definition MAX_APPROVAL_BYTES : N := 16384.
Definition MAX_RESPONSE_BYTES : N := 16384.
Definition MAX_CANCELLATION_BYTES : N := 49152.
Definition MAX_REPLAY_RECORDS_PER_VAULT : N := 65536.
Definition MAX_REPLAY_RECORDS_PER_SERVICE : N := 1048576.

Inductive WitnessProtocolErrorKind :=
  | WP_InvalidFormat | WP_InvalidOrdering | WP_InvalidDigest | WP_InvalidScope | WP_InvalidTime
  | WP_CapacityExhausted.

Abbreviation proto := (result WitnessProtocolErrorKind).

(** The canonical encoders, with [capacity_exhausted] for their error. *)
Definition capacity {A} (r : result LengthOverflow A) : proto A := map_err (λ _, WP_CapacityExhausted) r.

(** ** Enumerations *)

Inductive WitnessOperationV1 :=
  | OP_ReadStdout | OP_WritePrivateFile | OP_TemplateInjection | OP_ChildEnvironment
  | OP_ChildStdin | OP_ItemMutation | OP_Backup | OP_Recovery | OP_AdministrativeRekey.

Definition WitnessOperationV1_tag (o : WitnessOperationV1) : N :=
  match o with
  | OP_ReadStdout => 1 | OP_WritePrivateFile => 2 | OP_TemplateInjection => 3
  | OP_ChildEnvironment => 4 | OP_ChildStdin => 5 | OP_ItemMutation => 6
  | OP_Backup => 7 | OP_Recovery => 8 | OP_AdministrativeRekey => 9
  end.

Inductive ApprovalModeV1 := MODE_Human | MODE_Automatic.

Definition ApprovalModeV1_tag (m : ApprovalModeV1) : N :=
  match m with MODE_Human => 1 | MODE_Automatic => 2 end.

Inductive ApprovalDecisionKindV1 := AD_Approve | AD_Deny.

Definition ApprovalDecisionKindV1_tag (d : ApprovalDecisionKindV1) : N :=
  match d with AD_Approve => 1 | AD_Deny => 2 end.

Inductive WitnessDecisionKindV1 := WD_Approve | WD_Deny | WD_Error.

Definition WitnessDecisionKindV1_tag (d : WitnessDecisionKindV1) : N :=
  match d with WD_Approve => 1 | WD_Deny => 2 | WD_Error => 3 end.

Inductive WitnessReasonV1 :=
  | R_None | R_PolicyDenied | R_MissingApproval | R_ApprovalDenied | R_ApprovalConflict
  | R_StalePolicy | R_WitnessBehind | R_CheckpointFork | R_ReplayConflict | R_Expired
  | R_NotYetValid | R_Cancelled | R_WrongScope | R_WrongOperation | R_WorkloadExceeded
  | R_DirectDowngrade | R_Invalid | R_UnsupportedVersion | R_InvalidSignature
  | R_InvalidContribution | R_InsufficientQuorum | R_Unavailable | R_UnsafeClock
  | R_AnchorConflict | R_CapacityExhausted | R_RestoredStateUnsafe | R_InternalFailure
  | R_CancellationTooLate.

Definition WitnessReasonV1_tag (r : WitnessReasonV1) : N :=
  match r with
  | R_None => 0 | R_PolicyDenied => 1 | R_MissingApproval => 2 | R_ApprovalDenied => 3
  | R_ApprovalConflict => 4 | R_StalePolicy => 5 | R_WitnessBehind => 6 | R_CheckpointFork => 7
  | R_ReplayConflict => 8 | R_Expired => 9 | R_NotYetValid => 10 | R_Cancelled => 11
  | R_WrongScope => 12 | R_WrongOperation => 13 | R_WorkloadExceeded => 14
  | R_DirectDowngrade => 15 | R_Invalid => 16 | R_UnsupportedVersion => 17
  | R_InvalidSignature => 18 | R_InvalidContribution => 19 | R_InsufficientQuorum => 20
  | R_Unavailable => 21 | R_UnsafeClock => 22 | R_AnchorConflict => 23
  | R_CapacityExhausted => 24 | R_RestoredStateUnsafe => 25 | R_InternalFailure => 26
  | R_CancellationTooLate => 27
  end.

Inductive PlatformAssuranceV1 := PLAT_NormalizedPathOnly | PLAT_StableExecutableIdentity.

Definition PlatformAssuranceV1_tag (a : PlatformAssuranceV1) : N :=
  match a with PLAT_NormalizedPathOnly => 1 | PLAT_StableExecutableIdentity => 2 end.

Inductive StdinModeV1 := SM_None | SM_SecretBytes | SM_PublicBytes.

Definition StdinModeV1_tag (m : StdinModeV1) : N :=
  match m with SM_None => 1 | SM_SecretBytes => 2 | SM_PublicBytes => 3 end.

Inductive OutputSinkV1 := OS_Stdout | OS_PrivateFile | OS_ChildStdin | OS_ChildEnvironment | OS_None.

Definition OutputSinkV1_tag (s : OutputSinkV1) : N :=
  match s with
  | OS_Stdout => 1 | OS_PrivateFile => 2 | OS_ChildStdin => 3 | OS_ChildEnvironment => 4 | OS_None => 5
  end.

Inductive OwnerChangeKindV1 := OC_Grant | OC_Revoke.

Definition OwnerChangeKindV1_tag (c : OwnerChangeKindV1) : N :=
  match c with OC_Grant => 1 | OC_Revoke => 2 end.

Inductive CancellerRoleV1 := CAN_OriginalRequester | CAN_CurrentOwner.

Definition CancellerRoleV1_tag (r : CancellerRoleV1) : N :=
  match r with CAN_OriginalRequester => 1 | CAN_CurrentOwner => 2 end.

Inductive ReplayStateV1 := RS_Reserved | RS_Approved | RS_Denied | RS_Cancelled.

Definition ReplayStateV1_tag (s : ReplayStateV1) : N :=
  match s with RS_Reserved => 1 | RS_Approved => 2 | RS_Denied => 3 | RS_Cancelled => 4 end.

Global Instance WitnessProtocolErrorKind_eq_dec : EqDecision WitnessProtocolErrorKind.
Proof. solve_decision. Defined.
Global Instance WitnessOperationV1_eq_dec : EqDecision WitnessOperationV1.
Proof. solve_decision. Defined.
Global Instance ApprovalModeV1_eq_dec : EqDecision ApprovalModeV1.
Proof. solve_decision. Defined.
Global Instance ApprovalDecisionKindV1_eq_dec : EqDecision ApprovalDecisionKindV1.
Proof. solve_decision. Defined.
Global Instance WitnessDecisionKindV1_eq_dec : EqDecision WitnessDecisionKindV1.
Proof. solve_decision. Defined.
Global Instance WitnessReasonV1_eq_dec : EqDecision WitnessReasonV1.
Proof. solve_decision. Defined.
Global Instance PlatformAssuranceV1_eq_dec : EqDecision PlatformAssuranceV1.
Proof. solve_decision. Defined.
Global Instance StdinModeV1_eq_dec : EqDecision StdinModeV1.
Proof. solve_decision. Defined.
Global Instance OutputSinkV1_eq_dec : EqDecision OutputSinkV1.
Proof. solve_decision. Defined.
Global Instance OwnerChangeKindV1_eq_dec : EqDecision OwnerChangeKindV1.
Proof. solve_decision. Defined.
Global Instance CancellerRoleV1_eq_dec : EqDecision CancellerRoleV1.
Proof. solve_decision. Defined.
Global Instance ReplayStateV1_eq_dec : EqDecision ReplayStateV1.
Proof. solve_decision. Defined.

(** ** Targets, arguments and operation contexts *)

Record WitnessTargetV1 := { tg_item_id : ItemId; tg_field_id : option FieldId }.

Definition WitnessTargetV1_canonical_bytes (t : WitnessTargetV1) : bytes :=
  optional_fixed (tg_item_id t) (tg_field_id t).

Inductive ManifestArgumentV1 :=
  | ARG_PublicLiteral (bytes_ : bytes)
  | ARG_SecretPlaceholder (target : WitnessTargetV1).

Definition ManifestArgumentV1_canonical_bytes (a : ManifestArgumentV1) : proto bytes :=
  match a with
  | ARG_PublicLiteral bs => capacity (bytes_field (push 1) bs)
  | ARG_SecretPlaceholder target => Ok (push 2 ++ WitnessTargetV1_canonical_bytes target)
  end.

Record EnvironmentInjectionV1 := { env_name : bytes; env_target : WitnessTargetV1 }.

Definition EnvironmentInjectionV1_canonical_bytes (e : EnvironmentInjectionV1) : proto bytes :=
  output ← capacity (bytes_field [] (env_name e));
  Ok (output ++ WitnessTargetV1_canonical_bytes (env_target e)).

Definition valid_name (e : EnvironmentInjectionV1) : bool :=
  match env_name e with
  | [] => false
  | first :: rest =>
      (len (env_name e) <=? 128)%N && (is_ascii_alphabetic first || (first ==? Byte.x5f)) &&
      forallb (λ b, is_ascii_alphanumeric b || (b ==? Byte.x5f)) rest
  end.

Inductive OperationContextV1 :=
  | CTX_ReadStdout
  | CTX_WritePrivateFile
  | CTX_TemplateInjection
  | CTX_ChildEnvironment
  | CTX_ChildStdin
  | CTX_ItemMutation (mutation_kind : N) (affected_field_ids : list FieldId)
      (proposed_public_revision_digest : Digest32)
  | CTX_Backup (scope archive_format : N) (destination_commitment : Digest32)
  | CTX_Recovery (mode : N) (destination_commitment : Digest32) (next_item_access_mode : ItemAccessMode)
  | CTX_OwnerChange (change : OwnerChangeKindV1) (target_principal_id : PrincipalId)
      (next_vault_policy_sequence : N)
  | CTX_AdministrativeRekey (next_vault_policy_sequence : N) (next_vault_policy_hash : Digest32)
      (next_witness_policy_id : WitnessPolicyId) (next_witness_policy_revision : N)
      (next_witness_policy_digest rotation_record_digest : Digest32).

Definition OperationContextV1_operation (c : OperationContextV1) : WitnessOperationV1 :=
  match c with
  | CTX_ReadStdout => OP_ReadStdout
  | CTX_WritePrivateFile => OP_WritePrivateFile
  | CTX_TemplateInjection => OP_TemplateInjection
  | CTX_ChildEnvironment => OP_ChildEnvironment
  | CTX_ChildStdin => OP_ChildStdin
  | CTX_ItemMutation _ _ _ => OP_ItemMutation
  | CTX_Backup _ _ _ => OP_Backup
  | CTX_Recovery _ _ _ => OP_Recovery
  | CTX_OwnerChange _ _ _ | CTX_AdministrativeRekey _ _ _ _ _ _ => OP_AdministrativeRekey
  end.

Definition context_suffix (c : OperationContextV1) : string :=
  match c with
  | CTX_ReadStdout => "read-stdout"
  | CTX_WritePrivateFile => "write-private-file"
  | CTX_TemplateInjection => "template-injection"
  | CTX_ChildEnvironment => "child-environment"
  | CTX_ChildStdin => "child-stdin"
  | CTX_ItemMutation _ _ _ => "item-mutation"
  | CTX_Backup _ _ _ => "backup"
  | CTX_Recovery _ _ _ => "recovery"
  | CTX_AdministrativeRekey _ _ _ _ _ _ => "administrative-rekey"
  | CTX_OwnerChange _ _ _ => "owner-change"
  end.

(** [(lo..=hi).contains(&n)] *)
Definition within (lo hi n : N) : bool := (lo <=? n)%N && (n <=? hi)%N.

Definition append_fixed (output value : bytes) : bytes := output ++ value.

Definition OperationContextV1_canonical_bytes (c : OperationContextV1) : proto bytes :=
  let output := jce_v1 ("jury-witness-v1/operation-context/" ++ context_suffix c) ++ u16be 1 in
  match c with
  | CTX_ItemMutation mutation_kind affected_field_ids proposed_public_revision_digest =>
      reject_if (negb (within 1 4 mutation_kind) || negb (strictly_sorted_unique affected_field_ids))
        WP_InvalidOrdering;;
      output ← capacity (list_fixed (output ++ push mutation_kind) affected_field_ids append_fixed);
      Ok (output ++ proposed_public_revision_digest)
  | CTX_Backup scope archive_format destination_commitment =>
      reject_if (negb (within 1 2 scope) || (archive_format ==? 0%N)) WP_InvalidFormat;;
      Ok (output ++ push scope ++ u16be archive_format ++ destination_commitment)
  | CTX_Recovery mode destination_commitment next_item_access_mode =>
      reject_if (negb (within 1 2 mode)) WP_InvalidFormat;;
      Ok (output ++ push mode ++ destination_commitment ++ push (ItemAccessMode_tag next_item_access_mode))
  | CTX_OwnerChange change target_principal_id next_vault_policy_sequence =>
      reject_if (next_vault_policy_sequence ==? 0%N) WP_InvalidFormat;;
      Ok (output ++ push (OwnerChangeKindV1_tag change) ++ target_principal_id ++
          u64be next_vault_policy_sequence)
  | CTX_AdministrativeRekey next_vault_policy_sequence next_vault_policy_hash next_witness_policy_id
      next_witness_policy_revision next_witness_policy_digest rotation_record_digest =>
      reject_if ((next_vault_policy_sequence ==? 0%N) || (next_witness_policy_revision ==? 0%N))
        WP_InvalidFormat;;
      Ok (output ++ u64be next_vault_policy_sequence ++ next_vault_policy_hash ++
          next_witness_policy_id ++ u64be next_witness_policy_revision ++
          next_witness_policy_digest ++ rotation_record_digest)
  | _ => Ok output
  end.

Record ApprovalTargetEntryV1 := {
  te_item_id : ItemId;
  te_field_id : option FieldId;
  te_presentation_commitment : Digest32;
}.

Definition ApprovalTargetEntryV1_canonical_bytes (e : ApprovalTargetEntryV1) : bytes :=
  optional_fixed (te_item_id e) (te_field_id e) ++ te_presentation_commitment e.

Record ApprovalTargetV1 := {
  at_entries : list ApprovalTargetEntryV1;
  at_presentation_digest : Digest32;
}.

Definition ApprovalTargetV1_canonical_bytes (t : ApprovalTargetV1) : proto bytes :=
  reject_if ((at_entries t ==? []) || (MAX_MANIFEST_TARGETS <? len (at_entries t))%N ||
             negb (sorted_by_key (λ e, (te_item_id e, te_field_id e)) (at_entries t)))
    WP_InvalidOrdering;;
  output ← capacity (list_bytes [] (ApprovalTargetEntryV1_canonical_bytes <$> at_entries t));
  Ok (output ++ at_presentation_digest t).

Definition valid_interval (issued_at_ms : N) (not_before_ms : option N) (expires_at_ms : N) : bool :=
  (0 <? issued_at_ms)%N &&
  ((issued_at_ms <=? expires_at_ms)%N && within 1 MAX_LIFETIME_MS (expires_at_ms - issued_at_ms)) &&
  match not_before_ms with
  | None => true
  | Some not_before => (issued_at_ms <=? not_before)%N && (not_before <=? expires_at_ms)%N
  end.

(** ** The action manifest *)

Record ActionManifestV1 := {
  mf_schema : N;
  mf_request_id : RequestId;
  mf_vault_id : VaultId;
  mf_genesis_fingerprint : Digest32;
  mf_item_id : ItemId;
  mf_key_epoch : N;
  mf_item_access_mode : ItemAccessMode;
  mf_slot_id : SlotId;
  mf_content_role : ContentRole;
  mf_revision : N;
  mf_revision_seal_id : RevisionSealId;
  mf_vault_policy_sequence : N;
  mf_vault_policy_hash : Digest32;
  mf_witness_policy_id : WitnessPolicyId;
  mf_witness_policy_revision : N;
  mf_witness_policy_digest : Digest32;
  mf_requester_principal_id : PrincipalId;
  mf_requested_access_role : AccessRole;
  mf_operation : WitnessOperationV1;
  mf_operation_context : OperationContextV1;
  mf_approval_target : ApprovalTargetV1;
  mf_approval_target_digest : Digest32;
  mf_executable_identity : option bytes;
  mf_arguments : list ManifestArgumentV1;
  mf_working_directory_commitment : option Digest32;
  mf_environment_injections : list EnvironmentInjectionV1;
  mf_stdin_target : option WitnessTargetV1;
  mf_stdin_mode : StdinModeV1;
  mf_output_sink : OutputSinkV1;
  mf_output_sink_commitment : option Digest32;
  mf_platform_assurance : PlatformAssuranceV1;
  mf_timeout_ms : N;
  mf_output_limit_bytes : N;
  mf_issued_at_ms : N;
  mf_not_before_ms : option N;
  mf_expires_at_ms : N;
  mf_presentation_digest : Digest32;
}.

Definition is_none {A} (o : option A) : bool := if o is Some _ then false else true.
Definition is_set {A} (o : option A) : bool := negb (is_none o).
Definition is_empty {A} (l : list A) : bool := if l is [] then true else false.

Definition target_is_approved (m : ActionManifestV1) (target : WitnessTargetV1) : bool :=
  existsb (λ e, (te_item_id e ==? tg_item_id target) && (te_field_id e ==? tg_field_id target))
    (at_entries (mf_approval_target m)).

Definition no_child (m : ActionManifestV1) : bool :=
  is_none (mf_executable_identity m) && is_empty (mf_arguments m) &&
  is_none (mf_working_directory_commitment m) && is_empty (mf_environment_injections m) &&
  is_none (mf_stdin_target m) && (mf_stdin_mode m ==? SM_None).

Definition secret_arguments_match (m : ActionManifestV1) : bool :=
  forallb (λ a, match a with
                | ARG_PublicLiteral _ => true
                | ARG_SecretPlaceholder target => target_is_approved m target
                end) (mf_arguments m).

Definition environment_matches (m : ActionManifestV1) : bool :=
  forallb (λ e, target_is_approved m (env_target e)) (mf_environment_injections m).

Definition sink_shape (m : ActionManifestV1) : bool :=
  match mf_output_sink m with
  | OS_PrivateFile => is_set (mf_output_sink_commitment m)
  | _ => is_none (mf_output_sink_commitment m)
  end.

Definition is_placeholder (a : ManifestArgumentV1) : bool :=
  if a is ARG_SecretPlaceholder _ then true else false.

(** [entries.len() == 1 && entries[0].field_id.is_none()] *)
Definition whole_item (m : ActionManifestV1) : bool :=
  if at_entries (mf_approval_target m) is [entry] then is_none (te_field_id entry) else false.

Definition commitment_is (m : ActionManifestV1) (destination : Digest32) : bool :=
  mf_output_sink_commitment m ==? Some destination.

Definition mutation_context_matches (m : ActionManifestV1) : bool :=
  match mf_operation_context m with
  | CTX_ItemMutation mutation_kind affected_field_ids _ =>
      (affected_field_ids ==? omap te_field_id (at_entries (mf_approval_target m))) &&
      Bool.eqb ((mutation_kind ==? 1%N) || (mutation_kind ==? 4%N)) (is_empty affected_field_ids)
  | _ => false
  end.

Definition validate_workload_shape (m : ActionManifestV1) : proto unit :=
  let sink := mf_output_sink m in
  reject_if (negb
    match mf_operation m with
    | OP_ReadStdout => no_child m && (sink ==? OS_Stdout) && is_none (mf_output_sink_commitment m)
    | OP_WritePrivateFile =>
        no_child m && (sink ==? OS_PrivateFile) && is_set (mf_output_sink_commitment m)
    | OP_TemplateInjection =>
        is_set (mf_executable_identity m) && negb (is_empty (mf_arguments m)) &&
        is_set (mf_working_directory_commitment m) && is_empty (mf_environment_injections m) &&
        is_none (mf_stdin_target m) && (mf_stdin_mode m ==? SM_None) && (sink !=? OS_None) &&
        sink_shape m && secret_arguments_match m && existsb is_placeholder (mf_arguments m)
    | OP_ChildEnvironment =>
        is_set (mf_executable_identity m) && negb (is_empty (mf_arguments m)) &&
        negb (is_empty (mf_environment_injections m)) && is_none (mf_stdin_target m) &&
        (mf_stdin_mode m ==? SM_None) && (sink !=? OS_None) && sink_shape m &&
        secret_arguments_match m && environment_matches m
    | OP_ChildStdin =>
        is_set (mf_executable_identity m) && negb (is_empty (mf_arguments m)) &&
        (len (at_entries (mf_approval_target m)) ==? 1%N) && is_empty (mf_environment_injections m) &&
        (if mf_stdin_target m is Some target then target_is_approved m target else false) &&
        (mf_stdin_mode m ==? SM_SecretBytes) && (sink !=? OS_None) && sink_shape m &&
        secret_arguments_match m
    | OP_ItemMutation =>
        no_child m && (sink ==? OS_None) && is_none (mf_output_sink_commitment m) &&
        mutation_context_matches m
    | OP_Backup =>
        no_child m && whole_item m && (sink ==? OS_PrivateFile) &&
        (if mf_operation_context m is CTX_Backup _ _ destination then commitment_is m destination else false)
    | OP_Recovery =>
        no_child m && whole_item m && (sink ==? OS_PrivateFile) &&
        (if mf_operation_context m is CTX_Recovery _ destination _ then commitment_is m destination else false)
    | OP_AdministrativeRekey =>
        no_child m && whole_item m && (sink ==? OS_None) && is_none (mf_output_sink_commitment m)
    end) WP_InvalidScope.

(** ** Hashing *)

Section with_crypto.
Context `{Crypto}.

Definition hash_bytes (domain : string) (body : bytes) : proto Digest32 :=
  output ← capacity (bytes_field (jce_v1 domain) body);
  Ok (sha256 output).

Definition hash_signed (domain : string) (signature_preimage : bytes) (signature : Signature64)
    : proto Digest32 :=
  output ← capacity (bytes_field (jce_v1 domain) signature_preimage);
  Ok (sha256 (output ++ signature)).

Definition witness_registration_digest (registration : bytes) : proto Digest32 :=
  reject_if (is_empty registration) WP_InvalidFormat;;
  hash_bytes "jury-witness-v1/registration/hash" registration.

Definition ApprovalTargetV1_digest (t : ApprovalTargetV1) : proto Digest32 :=
  body ← ApprovalTargetV1_canonical_bytes t;
  hash_bytes "jury-witness-v1/approval-target/hash" body.

Definition ActionManifestV1_validate_shape (m : ActionManifestV1) : proto unit :=
  reject_if
    ((mf_schema m !=? 1%N) || (mf_key_epoch m ==? 0%N) || (mf_revision m ==? 0%N) ||
     (mf_vault_policy_sequence m ==? 0%N) || (mf_witness_policy_revision m ==? 0%N) ||
     (mf_item_access_mode m ==? AM_DirectOnly) ||
     (mf_operation m !=? OperationContextV1_operation (mf_operation_context m))) WP_InvalidFormat;;
  target_digest ← ApprovalTargetV1_digest (mf_approval_target m);
  reject_if
    ((mf_approval_target_digest m !=? target_digest) ||
     (mf_presentation_digest m !=? at_presentation_digest (mf_approval_target m)) ||
     (MAX_ARGUMENTS <? len (mf_arguments m))%N ||
     (MAX_ENVIRONMENT_NAMES <? len (mf_environment_injections m))%N ||
     negb (valid_interval (mf_issued_at_ms m) (mf_not_before_ms m) (mf_expires_at_ms m)) ||
     existsb (λ e, te_item_id e !=? mf_item_id m) (at_entries (mf_approval_target m)) ||
     ((mf_content_role m ==? CR_Descriptor) &&
      existsb (λ e, is_set (te_field_id e)) (at_entries (mf_approval_target m))) ||
     existsb (λ e, negb (valid_name e)) (mf_environment_injections m) ||
     negb (sorted_by_key env_name (mf_environment_injections m))) WP_InvalidFormat;;
  validate_workload_shape m.

(** The part of the body and of the workload digest that the two share. *)
Definition append_workload (output : bytes) (m : ActionManifestV1) (arguments environment : list bytes)
    : proto bytes :=
  output ← capacity (optional_bytes output (mf_executable_identity m));
  output ← capacity (list_bytes output arguments);
  let output := optional_fixed output (mf_working_directory_commitment m) in
  output ← capacity (list_bytes output environment);
  output ← capacity (optional_bytes output (WitnessTargetV1_canonical_bytes <$> mf_stdin_target m));
  let output := output ++ push (StdinModeV1_tag (mf_stdin_mode m)) ++
                push (OutputSinkV1_tag (mf_output_sink m)) in
  let output := optional_fixed output (mf_output_sink_commitment m) in
  Ok (output ++ push (PlatformAssuranceV1_tag (mf_platform_assurance m)) ++
      u64be (mf_timeout_ms m) ++ be_bytes 4 (mf_output_limit_bytes m)).

Definition ActionManifestV1_canonical_body (m : ActionManifestV1) : proto bytes :=
  ActionManifestV1_validate_shape m;;
  context ← OperationContextV1_canonical_bytes (mf_operation_context m);
  target ← ApprovalTargetV1_canonical_bytes (mf_approval_target m);
  arguments ← mapE ManifestArgumentV1_canonical_bytes (mf_arguments m);
  environment ← mapE EnvironmentInjectionV1_canonical_bytes (mf_environment_injections m);
  output ← capacity (bytes_field
    (u16be (mf_schema m) ++ mf_request_id m ++ mf_vault_id m ++ mf_genesis_fingerprint m ++
     mf_item_id m ++ u64be (mf_key_epoch m) ++ push (ItemAccessMode_tag (mf_item_access_mode m)) ++
     mf_slot_id m ++ push (ContentRole_tag (mf_content_role m)) ++ u64be (mf_revision m) ++
     mf_revision_seal_id m ++ u64be (mf_vault_policy_sequence m) ++ mf_vault_policy_hash m ++
     mf_witness_policy_id m ++ u64be (mf_witness_policy_revision m) ++
     mf_witness_policy_digest m ++ mf_requester_principal_id m ++
     push (AccessRole_tag (mf_requested_access_role m)) ++
     push (WitnessOperationV1_tag (mf_operation m))) context);
  output ← capacity (bytes_field output target);
  output ← append_workload (output ++ mf_approval_target_digest m) m arguments environment;
  let output := optional_u64 (output ++ u64be (mf_issued_at_ms m)) (mf_not_before_ms m) ++
                u64be (mf_expires_at_ms m) ++ mf_presentation_digest m in
  reject_if (MAX_MANIFEST_BYTES <? len output)%N WP_CapacityExhausted;;
  Ok output.

Definition ActionManifestV1_digest (m : ActionManifestV1) : proto Digest32 :=
  body ← ActionManifestV1_canonical_body m;
  hash_bytes "jury-witness-v1/action-manifest/hash" body.

Definition workload_digest (m : ActionManifestV1) : proto Digest32 :=
  ActionManifestV1_validate_shape m;;
  context ← OperationContextV1_canonical_bytes (mf_operation_context m);
  arguments ← mapE ManifestArgumentV1_canonical_bytes (mf_arguments m);
  environment ← mapE EnvironmentInjectionV1_canonical_bytes (mf_environment_injections m);
  output ← capacity (bytes_field
    (jce_v1 "jury-witness-v1/workload/hash" ++ push (WitnessOperationV1_tag (mf_operation m))) context);
  output ← append_workload output m arguments environment;
  Ok (sha256 output).
End with_crypto.

(** ** Requests *)

Record IntendedWitnessV1 := {
  iw_witness_id : PrincipalId;
  iw_share_index : N;
  iw_signing_key_fingerprint : Digest32;
  iw_contribution_key_fingerprint : Digest32;
}.

Definition IntendedWitnessV1_canonical_bytes (w : IntendedWitnessV1) : bytes :=
  iw_witness_id w ++ push (iw_share_index w) ++ iw_signing_key_fingerprint w ++
  iw_contribution_key_fingerprint w.

Record WitnessRequestV1 := {
  wr_schema : N;
  wr_protocol_version : N;
  wr_construction : N;
  wr_request_id : RequestId;
  wr_client_nonce : RequestId;
  wr_vault_id : VaultId;
  wr_genesis_fingerprint : Digest32;
  wr_item_id : ItemId;
  wr_key_epoch : N;
  wr_item_access_mode : ItemAccessMode;
  wr_slot_id : SlotId;
  wr_content_role : ContentRole;
  wr_revision : N;
  wr_revision_seal_id : RevisionSealId;
  wr_vault_policy_sequence : N;
  wr_vault_policy_hash : Digest32;
  wr_policy_checkpoint_digest : Digest32;
  wr_witness_policy_id : WitnessPolicyId;
  wr_witness_policy_revision : N;
  wr_witness_policy_digest : Digest32;
  wr_requester_principal_id : PrincipalId;
  wr_requester_signing_key_fingerprint : Digest32;
  wr_requester_signing_key_epoch : N;
  wr_requested_access_role : AccessRole;
  wr_operation : WitnessOperationV1;
  wr_approval_target_digest : Digest32;
  wr_action_manifest_digest : Digest32;
  wr_workload_digest : Digest32;
  wr_issued_at_ms : N;
  wr_not_before_ms : option N;
  wr_expires_at_ms : N;
  wr_request_session_public_key : RecipientPublicKey1216;
  wr_request_session_key_fingerprint : Digest32;
  wr_intended_witness_set : list IntendedWitnessV1;
  wr_client_signature : Signature64;
}.

Global Instance IntendedWitnessV1_eq_dec : EqDecision IntendedWitnessV1.
Proof. solve_decision. Defined.
Global Instance WitnessRequestV1_eq_dec : EqDecision WitnessRequestV1.
Proof. solve_decision. Defined.

Definition append_witness (output : bytes) (w : IntendedWitnessV1) : bytes :=
  output ++ IntendedWitnessV1_canonical_bytes w.

Definition WitnessRequestV1_append_fields (r : WitnessRequestV1) (output : bytes) : proto bytes :=
  let output := output ++
    u16be (wr_schema r) ++ u16be (wr_protocol_version r) ++ u16be (wr_construction r) ++
    wr_request_id r ++ wr_client_nonce r ++ wr_vault_id r ++ wr_genesis_fingerprint r ++
    wr_item_id r ++ u64be (wr_key_epoch r) ++ push (ItemAccessMode_tag (wr_item_access_mode r)) ++
    wr_slot_id r ++ push (ContentRole_tag (wr_content_role r)) ++ u64be (wr_revision r) ++
    wr_revision_seal_id r ++ u64be (wr_vault_policy_sequence r) ++ wr_vault_policy_hash r ++
    wr_policy_checkpoint_digest r ++ wr_witness_policy_id r ++
    u64be (wr_witness_policy_revision r) ++ wr_witness_policy_digest r ++
    wr_requester_principal_id r ++ wr_requester_signing_key_fingerprint r ++
    u64be (wr_requester_signing_key_epoch r) ++
    push (AccessRole_tag (wr_requested_access_role r)) ++
    push (WitnessOperationV1_tag (wr_operation r)) ++ wr_approval_target_digest r ++
    wr_action_manifest_digest r ++ wr_workload_digest r ++ u64be (wr_issued_at_ms r) in
  let output := optional_u64 output (wr_not_before_ms r) ++
    u64be (wr_expires_at_ms r) ++ wr_request_session_public_key r ++
    wr_request_session_key_fingerprint r in
  capacity (list_fixed output (wr_intended_witness_set r) append_witness).

(** Some element and a later one are related. *)
Fixpoint exists_pair {A} (f : A → A → bool) (l : list A) : bool :=
  match l with
  | [] => false
  | x :: rest => existsb (f x) rest || exists_pair f rest
  end.

Definition shares_key (entry other : IntendedWitnessV1) : bool :=
  (iw_share_index entry ==? iw_share_index other) ||
  (iw_signing_key_fingerprint entry ==? iw_signing_key_fingerprint other) ||
  (iw_contribution_key_fingerprint entry ==? iw_contribution_key_fingerprint other).

Section requests.
Context `{Crypto}.

Definition WitnessRequestV1_validate_shape (r : WitnessRequestV1) : proto unit :=
  reject_if
    ((wr_schema r !=? 1%N) || (wr_protocol_version r !=? PROTOCOL_VERSION) ||
     (wr_construction r !=? CONSTRUCTION) || (wr_key_epoch r ==? 0%N) || (wr_revision r ==? 0%N) ||
     (wr_vault_policy_sequence r ==? 0%N) || (wr_witness_policy_revision r ==? 0%N) ||
     (wr_requester_signing_key_epoch r ==? 0%N) || (wr_item_access_mode r ==? AM_DirectOnly) ||
     negb (valid_interval (wr_issued_at_ms r) (wr_not_before_ms r) (wr_expires_at_ms r)) ||
     (len (wr_intended_witness_set r) <? 2)%N ||
     (MAX_POLICY_ACTORS <? len (wr_intended_witness_set r))%N ||
     negb (sorted_by_key iw_witness_id (wr_intended_witness_set r)) ||
     existsb (λ e, (iw_share_index e ==? 0%N) || (32 <? iw_share_index e)%N) (wr_intended_witness_set r) ||
     exists_pair shares_key (wr_intended_witness_set r) ||
     (wr_request_session_key_fingerprint r !=?
      recipient_public_key_fingerprint (wr_request_session_public_key r))) WP_InvalidFormat.

Definition WitnessRequestV1_signature_preimage (r : WitnessRequestV1) : proto bytes :=
  WitnessRequestV1_validate_shape r;;
  WitnessRequestV1_append_fields r (jce_v1 "jury-witness-v1/request/signature").

Definition WitnessRequestV1_canonical_bytes (r : WitnessRequestV1) : proto bytes :=
  WitnessRequestV1_validate_shape r;;
  output ← WitnessRequestV1_append_fields r [];
  let output := output ++ wr_client_signature r in
  reject_if (MAX_REQUEST_BYTES <? len output)%N WP_CapacityExhausted;;
  Ok output.

Definition WitnessRequestV1_digest (r : WitnessRequestV1) : proto Digest32 :=
  preimage ← WitnessRequestV1_signature_preimage r;
  hash_signed "jury-witness-v1/request/hash" preimage (wr_client_signature r).

Definition request_witness_set_digest (r : WitnessRequestV1) : proto Digest32 :=
  output ← capacity (list_fixed (jce_v1 "jury-witness-v1/intended-witness-set/hash")
                       (wr_intended_witness_set r) append_witness);
  Ok (sha256 output).
End requests.

(** ** Reading a request back *)

Record CanonicalInput := { ci_bytes : bytes; ci_offset : nat }.

Definition CanonicalInput_new (bs : bytes) : CanonicalInput := {| ci_bytes := bs; ci_offset := O |}.

Abbreviation reader := (eff WitnessProtocolErrorKind CanonicalInput).

Definition ci_take (length_ : nat) : reader bytes := λ i,
  let stop := (ci_offset i + length_)%nat in
  if (stop <=? length (ci_bytes i))%nat
  then (Ok (take length_ (drop (ci_offset i) (ci_bytes i))), {| ci_bytes := ci_bytes i; ci_offset := stop |})
  else (Err WP_InvalidFormat, i).

Definition ci_domain (domain : string) : reader unit :=
  let expected := jce_v1 domain in
  value ← ci_take (length expected);
  lift (reject_if (value !=? expected) WP_InvalidFormat).

(** An unsigned big-endian integer of so many bytes: [u8], [u16], [u32], [u64]. *)
Definition ci_uint (width : nat) : reader N :=
  value ← ci_take width;
  mret (be_N value).

Definition ci_optional_u64 : reader (option N) :=
  tag ← ci_uint 1;
  match tag with
  | 0%N => mret None
  | 1%N => value ← ci_uint 8; mret (Some value)
  | _ => lift (Err WP_InvalidFormat)
  end.

Definition ci_fixed (width : nat) : reader bytes := ci_take width.

(** [identifier(T::from_bytes)]: not all zero. *)
Definition ci_identifier : reader bytes :=
  value ← ci_take 32;
  lift (reject_if (is_zero value) WP_InvalidFormat;; Ok value).

Definition ci_length (maximum : N) : reader N :=
  length_ ← ci_uint 4;
  lift (reject_if (maximum <? length_)%N WP_CapacityExhausted;; Ok length_).

Definition ci_finish : reader unit := λ i,
  (reject_if (negb (ci_offset i =? length (ci_bytes i))%nat) WP_InvalidFormat, i).

Definition ci_tag {A} (table : list (N * A)) : reader A :=
  tag ← ci_uint 1;
  lift (ok_or (snd <$> List.find (λ e, e.1 ==? tag) table) WP_InvalidFormat).

Definition item_access_mode_tags : list (N * ItemAccessMode) :=
  [(1, AM_DirectOnly); (2, AM_WitnessedOnly); (3, AM_Mixed)]%N.
Definition content_role_tags : list (N * ContentRole) := [(1, CR_Descriptor); (2, CR_Body)]%N.
Definition access_role_tags : list (N * AccessRole) := [(1, AR_Reader); (2, AR_Writer); (3, AR_Owner)]%N.

Definition witness_operation_from_tag : list (N * WitnessOperationV1) :=
  [(1, OP_ReadStdout); (2, OP_WritePrivateFile); (3, OP_TemplateInjection); (4, OP_ChildEnvironment);
   (5, OP_ChildStdin); (6, OP_ItemMutation); (7, OP_Backup); (8, OP_Recovery);
   (9, OP_AdministrativeRekey)]%N.

Definition ci_intended_witness : reader IntendedWitnessV1 :=
  witness_id ← ci_identifier;
  share_index ← ci_uint 1;
  signing_key_fingerprint ← ci_fixed 32;
  contribution_key_fingerprint ← ci_fixed 32;
  mret {| iw_witness_id := witness_id; iw_share_index := share_index;
          iw_signing_key_fingerprint := signing_key_fingerprint;
          iw_contribution_key_fingerprint := contribution_key_fingerprint |}.

(** [for _ in 0..count] *)
Fixpoint ci_repeat {A} (read : reader A) (count : nat) : reader (list A) :=
  match count with
  | O => mret []
  | S count' => x ← read; rest ← ci_repeat read count'; mret (x :: rest)
  end.

Definition ci_request (client_signature : Signature64) : reader WitnessRequestV1 :=
  ci_domain "jury-witness-v1/request/signature";;
  schema ← ci_uint 2;
  protocol_version ← ci_uint 2;
  construction ← ci_uint 2;
  request_id ← ci_identifier;
  client_nonce ← ci_identifier;
  vault_id ← ci_identifier;
  genesis_fingerprint ← ci_fixed 32;
  item_id ← ci_identifier;
  key_epoch ← ci_uint 8;
  item_access_mode ← ci_tag item_access_mode_tags;
  slot_id ← ci_identifier;
  content_role ← ci_tag content_role_tags;
  revision ← ci_uint 8;
  revision_seal_id ← ci_identifier;
  vault_policy_sequence ← ci_uint 8;
  vault_policy_hash ← ci_fixed 32;
  policy_checkpoint_digest ← ci_fixed 32;
  witness_policy_id ← ci_identifier;
  witness_policy_revision ← ci_uint 8;
  witness_policy_digest ← ci_fixed 32;
  requester_principal_id ← ci_identifier;
  requester_signing_key_fingerprint ← ci_fixed 32;
  requester_signing_key_epoch ← ci_uint 8;
  requested_access_role ← ci_tag access_role_tags;
  operation ← ci_tag witness_operation_from_tag;
  approval_target_digest ← ci_fixed 32;
  action_manifest_digest ← ci_fixed 32;
  workload_digest ← ci_fixed 32;
  issued_at_ms ← ci_uint 8;
  not_before_ms ← ci_optional_u64;
  expires_at_ms ← ci_uint 8;
  request_session_public_key ← ci_fixed 1216;
  request_session_key_fingerprint ← ci_fixed 32;
  witness_count ← ci_length MAX_POLICY_ACTORS;
  intended_witness_set ← ci_repeat ci_intended_witness (N.to_nat witness_count);
  ci_finish;;
  mret {|
    wr_schema := schema;
    wr_protocol_version := protocol_version;
    wr_construction := construction;
    wr_request_id := request_id;
    wr_client_nonce := client_nonce;
    wr_vault_id := vault_id;
    wr_genesis_fingerprint := genesis_fingerprint;
    wr_item_id := item_id;
    wr_key_epoch := key_epoch;
    wr_item_access_mode := item_access_mode;
    wr_slot_id := slot_id;
    wr_content_role := content_role;
    wr_revision := revision;
    wr_revision_seal_id := revision_seal_id;
    wr_vault_policy_sequence := vault_policy_sequence;
    wr_vault_policy_hash := vault_policy_hash;
    wr_policy_checkpoint_digest := policy_checkpoint_digest;
    wr_witness_policy_id := witness_policy_id;
    wr_witness_policy_revision := witness_policy_revision;
    wr_witness_policy_digest := witness_policy_digest;
    wr_requester_principal_id := requester_principal_id;
    wr_requester_signing_key_fingerprint := requester_signing_key_fingerprint;
    wr_requester_signing_key_epoch := requester_signing_key_epoch;
    wr_requested_access_role := requested_access_role;
    wr_operation := operation;
    wr_approval_target_digest := approval_target_digest;
    wr_action_manifest_digest := action_manifest_digest;
    wr_workload_digest := workload_digest;
    wr_issued_at_ms := issued_at_ms;
    wr_not_before_ms := not_before_ms;
    wr_expires_at_ms := expires_at_ms;
    wr_request_session_public_key := request_session_public_key;
    wr_request_session_key_fingerprint := request_session_key_fingerprint;
    wr_intended_witness_set := intended_witness_set;
    wr_client_signature := client_signature;
  |}.

Definition from_signature_preimage `{Crypto} (preimage : bytes) (client_signature : Signature64)
    : proto WitnessRequestV1 :=
  reject_if (MAX_REQUEST_BYTES <? len preimage)%N WP_CapacityExhausted;;
  request ← (ci_request client_signature (CanonicalInput_new preimage)).1;
  expected ← WitnessRequestV1_signature_preimage request;
  reject_if (expected !=? preimage) WP_InvalidFormat;;
  Ok request.

(** ** Approvals *)

Record ApprovalDecisionV1 := {
  ap_schema : N;
  ap_approval_id : ApprovalId;
  ap_request_id : RequestId;
  ap_request_digest : Digest32;
  ap_action_manifest_digest : Digest32;
  ap_presentation_digest : Digest32;
  ap_witness_policy_id : WitnessPolicyId;
  ap_witness_policy_revision : N;
  ap_witness_policy_digest : Digest32;
  ap_approver_id : PrincipalId;
  ap_approver_key_fingerprint : Digest32;
  ap_approver_key_epoch : N;
  ap_approval_mode : ApprovalModeV1;
  ap_decision : ApprovalDecisionKindV1;
  ap_reason : WitnessReasonV1;
  ap_issued_at_ms : N;
  ap_not_before_ms : option N;
  ap_expires_at_ms : N;
  ap_nonce : ApprovalId;
  ap_intended_witness_set_digest : Digest32;
  ap_signature : Signature64;
}.

Global Instance ApprovalDecisionV1_eq_dec : EqDecision ApprovalDecisionV1.
Proof. solve_decision. Defined.

Definition ApprovalDecisionV1_append_fields (a : ApprovalDecisionV1) (output : bytes) : bytes :=
  let output := output ++
    u16be (ap_schema a) ++ ap_approval_id a ++ ap_request_id a ++ ap_request_digest a ++
    ap_action_manifest_digest a ++ ap_presentation_digest a ++ ap_witness_policy_id a ++
    u64be (ap_witness_policy_revision a) ++ ap_witness_policy_digest a ++ ap_approver_id a ++
    ap_approver_key_fingerprint a ++ u64be (ap_approver_key_epoch a) ++
    push (ApprovalModeV1_tag (ap_approval_mode a)) ++
    push (ApprovalDecisionKindV1_tag (ap_decision a)) ++ push (WitnessReasonV1_tag (ap_reason a)) ++
    u64be (ap_issued_at_ms a) in
  optional_u64 output (ap_not_before_ms a) ++
    u64be (ap_expires_at_ms a) ++ ap_nonce a ++ ap_intended_witness_set_digest a.

Definition ApprovalDecisionV1_validate_shape (a : ApprovalDecisionV1) : proto unit :=
  let reason_valid := match ap_decision a with
    | AD_Approve => ap_reason a ==? R_None
    | AD_Deny => ap_reason a !=? R_None
    end in
  reject_if
    ((ap_schema a !=? 1%N) || (ap_witness_policy_revision a ==? 0%N) ||
     (ap_approver_key_epoch a ==? 0%N) || negb reason_valid ||
     negb (valid_interval (ap_issued_at_ms a) (ap_not_before_ms a) (ap_expires_at_ms a)))
    WP_InvalidFormat.

Definition ApprovalDecisionV1_signature_preimage (a : ApprovalDecisionV1) : proto bytes :=
  ApprovalDecisionV1_validate_shape a;;
  Ok (ApprovalDecisionV1_append_fields a (jce_v1 "jury-witness-v1/approval-decision/signature")).

Definition ApprovalDecisionV1_canonical_bytes (a : ApprovalDecisionV1) : proto bytes :=
  ApprovalDecisionV1_validate_shape a;;
  let output := ApprovalDecisionV1_append_fields a [] ++ ap_signature a in
  reject_if (MAX_APPROVAL_BYTES <? len output)%N WP_CapacityExhausted;;
  Ok output.

(** ** Cancellations *)

Record RequestCancellationV1 := {
  cn_schema : N;
  cn_cancellation_id : CancellationId;
  cn_request_signature_preimage : bytes;
  cn_client_signature : Signature64;
  cn_request_id : RequestId;
  cn_request_digest : Digest32;
  cn_canceller_id : PrincipalId;
  cn_canceller_key_fingerprint : Digest32;
  cn_canceller_key_epoch : N;
  cn_canceller_role : CancellerRoleV1;
  cn_issued_at_ms : N;
  cn_reason : WitnessReasonV1;
  cn_nonce : CancellationId;
  cn_signature : Signature64;
}.

Definition RequestCancellationV1_append_fields (c : RequestCancellationV1) (output : bytes)
    : proto bytes :=
  output ← capacity (bytes_field (output ++ u16be (cn_schema c) ++ cn_cancellation_id c)
                       (cn_request_signature_preimage c));
  Ok (output ++ cn_client_signature c ++ cn_request_id c ++ cn_request_digest c ++
      cn_canceller_id c ++ cn_canceller_key_fingerprint c ++ u64be (cn_canceller_key_epoch c) ++
      push (CancellerRoleV1_tag (cn_canceller_role c)) ++ u64be (cn_issued_at_ms c) ++
      push (WitnessReasonV1_tag (cn_reason c)) ++ cn_nonce c).

Definition RequestCancellationV1_validate_shape (c : RequestCancellationV1) : proto unit :=
  reject_if
    ((cn_schema c !=? 1%N) || (cn_canceller_key_epoch c ==? 0%N) || (cn_issued_at_ms c ==? 0%N) ||
     (cn_reason c !=? R_Cancelled) || is_empty (cn_request_signature_preimage c)) WP_InvalidFormat.

Definition RequestCancellationV1_signature_preimage (c : RequestCancellationV1) : proto bytes :=
  RequestCancellationV1_validate_shape c;;
  RequestCancellationV1_append_fields c (jce_v1 "jury-witness-v1/cancellation/signature").

Definition RequestCancellationV1_canonical_bytes (c : RequestCancellationV1) : proto bytes :=
  RequestCancellationV1_validate_shape c;;
  output ← RequestCancellationV1_append_fields c [];
  let output := output ++ cn_signature c in
  reject_if (MAX_CANCELLATION_BYTES <? len output)%N WP_CapacityExhausted;;
  Ok output.

(** ** Policy checkpoints *)

Record VaultPolicyCheckpointV1 := {
  vc_schema : N;
  vc_vault_id : VaultId;
  vc_genesis_fingerprint : Digest32;
  vc_vault_policy_sequence : N;
  vc_vault_policy_hash : Digest32;
  vc_active_witness_policy_set_digest : Digest32;
  vc_predecessor_checkpoint_digest : Digest32;
  vc_issued_at_ms : N;
  vc_issuer_owner_id : PrincipalId;
  vc_issuer_key_fingerprint : Digest32;
  vc_issuer_key_epoch : N;
  vc_signature : Signature64;
}.

Global Instance VaultPolicyCheckpointV1_eq_dec : EqDecision VaultPolicyCheckpointV1.
Proof. solve_decision. Defined.

Definition VaultPolicyCheckpointV1_append_fields (c : VaultPolicyCheckpointV1) (output : bytes) : bytes :=
  output ++ u16be (vc_schema c) ++ vc_vault_id c ++ vc_genesis_fingerprint c ++
  u64be (vc_vault_policy_sequence c) ++ vc_vault_policy_hash c ++
  vc_active_witness_policy_set_digest c ++ vc_predecessor_checkpoint_digest c ++
  u64be (vc_issued_at_ms c) ++ vc_issuer_owner_id c ++ vc_issuer_key_fingerprint c ++
  u64be (vc_issuer_key_epoch c).

Definition VaultPolicyCheckpointV1_validate_shape (c : VaultPolicyCheckpointV1) : proto unit :=
  reject_if
    ((vc_schema c !=? 1%N) || (vc_vault_policy_sequence c ==? 0%N) ||
     (vc_issued_at_ms c ==? 0%N) || (vc_issuer_key_epoch c ==? 0%N)) WP_InvalidFormat.

Definition VaultPolicyCheckpointV1_signature_preimage (c : VaultPolicyCheckpointV1) : proto bytes :=
  VaultPolicyCheckpointV1_validate_shape c;;
  Ok (VaultPolicyCheckpointV1_append_fields c (jce_v1 "jury-witness-v1/checkpoint/signature")).

Definition VaultPolicyCheckpointV1_canonical_bytes (c : VaultPolicyCheckpointV1) : proto bytes :=
  VaultPolicyCheckpointV1_validate_shape c;;
  Ok (VaultPolicyCheckpointV1_append_fields c [] ++ vc_signature c).

(** ** Responses *)

Record WitnessContributionEnvelopeV1 := {
  ce_schema : N;
  ce_response_id : ResponseId;
  ce_share_index : N;
  ce_share_commitment : Digest32;
  ce_capsule_context_digest : Digest32;
  ce_capsule_set_digest : Digest32;
  ce_request_session_key_fingerprint : Digest32;
  ce_encapsulation : Encapsulation1120;
  ce_ciphertext : ShareCiphertext49;
}.

Definition WitnessContributionEnvelopeV1_canonical_bytes (e : WitnessContributionEnvelopeV1) : bytes :=
  u16be (ce_schema e) ++ ce_response_id e ++ push (ce_share_index e) ++ ce_share_commitment e ++
  ce_capsule_context_digest e ++ ce_capsule_set_digest e ++
  ce_request_session_key_fingerprint e ++ ce_encapsulation e ++ ce_ciphertext e.

Record WitnessDecisionV1 := {
  wdc_schema : N;
  wdc_response_id : ResponseId;
  wdc_request_id : RequestId;
  wdc_request_digest : Digest32;
  wdc_action_manifest_digest : Digest32;
  wdc_witness_id : PrincipalId;
  wdc_witness_signing_key_fingerprint : Digest32;
  wdc_witness_signing_key_epoch : N;
  wdc_witness_policy_id : WitnessPolicyId;
  wdc_witness_policy_revision : N;
  wdc_witness_policy_digest : Digest32;
  wdc_policy_checkpoint_digest : Digest32;
  wdc_state_generation : N;
  wdc_decision : WitnessDecisionKindV1;
  wdc_reason : WitnessReasonV1;
  wdc_issued_at_ms : N;
  wdc_expires_at_ms : N;
  wdc_contribution_digest : option Digest32;
  wdc_share_index : option N;
  wdc_share_commitment : option Digest32;
  wdc_signature : Signature64;
}.

Definition WitnessDecisionV1_append_fields (d : WitnessDecisionV1) (output : bytes) : bytes :=
  let output := output ++
    u16be (wdc_schema d) ++ wdc_response_id d ++ wdc_request_id d ++ wdc_request_digest d ++
    wdc_action_manifest_digest d ++ wdc_witness_id d ++ wdc_witness_signing_key_fingerprint d ++
    u64be (wdc_witness_signing_key_epoch d) ++ wdc_witness_policy_id d ++
    u64be (wdc_witness_policy_revision d) ++ wdc_witness_policy_digest d ++
    wdc_policy_checkpoint_digest d ++ u64be (wdc_state_generation d) ++
    push (WitnessDecisionKindV1_tag (wdc_decision d)) ++ push (WitnessReasonV1_tag (wdc_reason d)) ++
    u64be (wdc_issued_at_ms d) ++ u64be (wdc_expires_at_ms d) in
  optional_fixed (optional_u8 (optional_fixed output (wdc_contribution_digest d)) (wdc_share_index d))
    (wdc_share_commitment d).

Definition WitnessDecisionV1_validate_shape (d : WitnessDecisionV1) : proto unit :=
  let approving := wdc_decision d ==? WD_Approve in
  let contribution := is_set (wdc_contribution_digest d) && is_set (wdc_share_index d) &&
                      is_set (wdc_share_commitment d) in
  reject_if
    ((wdc_schema d !=? 1%N) || (wdc_witness_signing_key_epoch d ==? 0%N) ||
     (wdc_witness_policy_revision d ==? 0%N) || (wdc_state_generation d ==? 0%N) ||
     (wdc_issued_at_ms d ==? 0%N) || (wdc_expires_at_ms d ==? 0%N) ||
     (approving && (wdc_expires_at_ms d <=? wdc_issued_at_ms d)%N) ||
     negb (Bool.eqb approving contribution) ||
     (approving && (wdc_reason d !=? R_None)) ||
     (negb approving && (wdc_reason d ==? R_None)) ||
     (if wdc_share_index d is Some index then (index ==? 0%N) || (32 <? index)%N else false))
    WP_InvalidFormat.

Definition WitnessDecisionV1_signature_preimage (d : WitnessDecisionV1) : proto bytes :=
  WitnessDecisionV1_validate_shape d;;
  Ok (WitnessDecisionV1_append_fields d (jce_v1 "jury-witness-v1/decision/signature")).

Definition WitnessDecisionV1_canonical_bytes (d : WitnessDecisionV1) : proto bytes :=
  WitnessDecisionV1_validate_shape d;;
  Ok (WitnessDecisionV1_append_fields d [] ++ wdc_signature d).

Record WitnessResponseV1 := {
  resp_decision : WitnessDecisionV1;
  resp_contribution : option WitnessContributionEnvelopeV1;
}.

(** ** The state of a witness *)

Record VaultHighWatermarkV1 := {
  hw_vault_id : VaultId;
  hw_genesis_fingerprint : Digest32;
  hw_policy_sequence : N;
  hw_checkpoint_digest : Digest32;
  hw_highest_retained_request_expiry_ms : N;
}.

Definition VaultHighWatermarkV1_canonical_bytes (h : VaultHighWatermarkV1) : bytes :=
  hw_vault_id h ++ hw_genesis_fingerprint h ++ u64be (hw_policy_sequence h) ++
  hw_checkpoint_digest h ++ u64be (hw_highest_retained_request_expiry_ms h).

Record WitnessStateAnchorV1 := {
  sa_schema : N;
  sa_witness_id : PrincipalId;
  sa_witness_signing_key_fingerprint : Digest32;
  sa_witness_signing_key_epoch : N;
  sa_state_generation : N;
  sa_database_state_digest : Digest32;
  sa_vault_high_watermarks : list VaultHighWatermarkV1;
  sa_replay_retain_through_ms : N;
  sa_last_accepted_wall_time_ms : N;
  sa_predecessor_anchor_digest : Digest32;
  sa_issued_at_ms : N;
  sa_signature : Signature64;
}.

Global Instance VaultHighWatermarkV1_eq_dec : EqDecision VaultHighWatermarkV1.
Proof. solve_decision. Defined.
Global Instance WitnessStateAnchorV1_eq_dec : EqDecision WitnessStateAnchorV1.
Proof. solve_decision. Defined.

Definition append_watermark (output : bytes) (h : VaultHighWatermarkV1) : bytes :=
  output ++ VaultHighWatermarkV1_canonical_bytes h.

Definition WitnessStateAnchorV1_append_fields (a : WitnessStateAnchorV1) (output : bytes) : proto bytes :=
  output ← capacity (list_fixed
    (output ++ u16be (sa_schema a) ++ sa_witness_id a ++ sa_witness_signing_key_fingerprint a ++
     u64be (sa_witness_signing_key_epoch a) ++ u64be (sa_state_generation a) ++
     sa_database_state_digest a) (sa_vault_high_watermarks a) append_watermark);
  Ok (output ++ u64be (sa_replay_retain_through_ms a) ++ u64be (sa_last_accepted_wall_time_ms a) ++
      sa_predecessor_anchor_digest a ++ u64be (sa_issued_at_ms a)).

Definition WitnessStateAnchorV1_validate_shape (a : WitnessStateAnchorV1) : proto unit :=
  reject_if
    ((sa_schema a !=? 1%N) || (sa_witness_signing_key_epoch a ==? 0%N) ||
     (sa_state_generation a ==? 0%N) || (sa_issued_at_ms a ==? 0%N) ||
     negb (sorted_by_key hw_vault_id (sa_vault_high_watermarks a))) WP_InvalidFormat.

Definition WitnessStateAnchorV1_signature_preimage (a : WitnessStateAnchorV1) : proto bytes :=
  WitnessStateAnchorV1_validate_shape a;;
  WitnessStateAnchorV1_append_fields a (jce_v1 "jury-witness-v1/state-anchor/signature").

Definition WitnessStateAnchorV1_canonical_bytes (a : WitnessStateAnchorV1) : proto bytes :=
  WitnessStateAnchorV1_validate_shape a;;
  output ← WitnessStateAnchorV1_append_fields a [];
  Ok (output ++ sa_signature a).

Record WitnessCheckpointAcknowledgementV1 := {
  ack_schema : N;
  ack_witness_id : PrincipalId;
  ack_vault_id : VaultId;
  ack_checkpoint_digest : Digest32;
  ack_vault_policy_sequence : N;
  ack_active_witness_policy_set_digest : Digest32;
  ack_state_generation : N;
  ack_anchor_digest : Digest32;
  ack_exact_anchor : WitnessStateAnchorV1;
}.

Record WitnessReplayRecordV1 := {
  rec_schema : N;
  rec_vault_id : VaultId;
  rec_request_id : RequestId;
  rec_request_digest : Digest32;
  rec_request_message : bytes;
  rec_action_manifest_digest : Digest32;
  rec_state : ReplayStateV1;
  rec_expires_at_ms : N;
  rec_retain_through_ms : N;
  rec_approval_decisions : list bytes;
  rec_cancellation : option bytes;
  rec_witness_response : option bytes;
}.

Global Instance WitnessReplayRecordV1_eq_dec : EqDecision WitnessReplayRecordV1.
Proof. solve_decision. Defined.

Definition saturating_add_u64 (a b : N) : N := N.min (a + b) u64_max.

Definition WitnessReplayRecordV1_canonical_bytes (r : WitnessReplayRecordV1) : proto bytes :=
  reject_if
    ((rec_schema r !=? 1%N) ||
     (rec_retain_through_ms r <? saturating_add_u64 (rec_expires_at_ms r) REPLAY_RETENTION_MS)%N ||
     (MAX_RECORDED_APPROVALS <? len (rec_approval_decisions r))%N) WP_InvalidFormat;;
  output ← capacity (bytes_field
    (u16be (rec_schema r) ++ rec_vault_id r ++ rec_request_id r ++ rec_request_digest r)
    (rec_request_message r));
  output ← capacity (list_bytes
    (output ++ rec_action_manifest_digest r ++ push (ReplayStateV1_tag (rec_state r)) ++
     u64be (rec_expires_at_ms r) ++ u64be (rec_retain_through_ms r)) (rec_approval_decisions r));
  output ← capacity (optional_bytes output (rec_cancellation r));
  capacity (optional_bytes output (rec_witness_response r)).

Record WitnessVaultStateV1 := {
  vst_schema : N;
  vst_vault_id : VaultId;
  vst_genesis_fingerprint : Digest32;
  vst_accepted_registration : bytes;
  vst_current_checkpoint : bytes;
  vst_current_policy_material : bytes;
}.

Global Instance WitnessVaultStateV1_eq_dec : EqDecision WitnessVaultStateV1.
Proof. solve_decision. Defined.

Definition WitnessVaultStateV1_canonical_bytes (v : WitnessVaultStateV1) : proto bytes :=
  reject_if (vst_schema v !=? 1%N) WP_InvalidFormat;;
  output ← capacity (bytes_field
    (u16be (vst_schema v) ++ vst_vault_id v ++ vst_genesis_fingerprint v) (vst_accepted_registration v));
  output ← capacity (bytes_field output (vst_current_checkpoint v));
  capacity (bytes_field output (vst_current_policy_material v)).

Record WitnessDatabaseStateV1 := {
  db_schema : N;
  db_witness_id : PrincipalId;
  db_state_generation : N;
  db_vault_states : list WitnessVaultStateV1;
  db_replay_records : list WitnessReplayRecordV1;
  db_last_accepted_wall_time_ms : N;
}.

Global Instance WitnessDatabaseStateV1_eq_dec : EqDecision WitnessDatabaseStateV1.
Proof. solve_decision. Defined.

Definition WitnessDatabaseStateV1_canonical_body (d : WitnessDatabaseStateV1) : proto bytes :=
  reject_if
    ((db_schema d !=? 1%N) || negb (sorted_by_key vst_vault_id (db_vault_states d)) ||
     negb (sorted_by_key (λ r, (rec_vault_id r, rec_request_id r)) (db_replay_records d)) ||
     (MAX_REPLAY_RECORDS_PER_SERVICE <? len (db_replay_records d))%N) WP_InvalidOrdering;;
  vaults ← mapE WitnessVaultStateV1_canonical_bytes (db_vault_states d);
  records ← mapE WitnessReplayRecordV1_canonical_bytes (db_replay_records d);
  output ← capacity (list_bytes
    (u16be (db_schema d) ++ db_witness_id d ++ u64be (db_state_generation d)) vaults);
  output ← capacity (list_bytes output records);
  Ok (output ++ u64be (db_last_accepted_wall_time_ms d)).

Section digests.
Context `{Crypto}.

Definition ApprovalDecisionV1_digest (a : ApprovalDecisionV1) : proto Digest32 :=
  preimage ← ApprovalDecisionV1_signature_preimage a;
  hash_signed "jury-witness-v1/approval-decision/hash" preimage (ap_signature a).

Definition RequestCancellationV1_digest (c : RequestCancellationV1) : proto Digest32 :=
  preimage ← RequestCancellationV1_signature_preimage c;
  hash_signed "jury-witness-v1/cancellation/hash" preimage (cn_signature c).

Definition VaultPolicyCheckpointV1_digest (c : VaultPolicyCheckpointV1) : proto Digest32 :=
  preimage ← VaultPolicyCheckpointV1_signature_preimage c;
  hash_signed "jury-witness-v1/checkpoint/hash" preimage (vc_signature c).

Definition WitnessContributionEnvelopeV1_digest (e : WitnessContributionEnvelopeV1) : proto Digest32 :=
  reject_if ((ce_schema e !=? 1%N) || (ce_share_index e ==? 0%N) || (32 <? ce_share_index e)%N)
    WP_InvalidFormat;;
  hash_bytes "jury-witness-v1/contribution/hash" (WitnessContributionEnvelopeV1_canonical_bytes e).

Definition WitnessDecisionV1_digest (d : WitnessDecisionV1) : proto Digest32 :=
  preimage ← WitnessDecisionV1_signature_preimage d;
  hash_signed "jury-witness-v1/decision/hash" preimage (wdc_signature d).

Definition WitnessResponseV1_canonical_bytes (r : WitnessResponseV1) : proto bytes :=
  output ← WitnessDecisionV1_canonical_bytes (resp_decision r);
  output ← match wdc_contribution_digest (resp_decision r), resp_contribution r with
    | Some expected, Some contribution =>
        digest ← WitnessContributionEnvelopeV1_digest contribution;
        reject_if (digest !=? expected) WP_InvalidDigest;;
        Ok (output ++ WitnessContributionEnvelopeV1_canonical_bytes contribution)
    | None, None => Ok output
    | _, _ => Err WP_InvalidDigest
    end;
  reject_if (MAX_RESPONSE_BYTES <? len output)%N WP_CapacityExhausted;;
  Ok output.

Definition WitnessStateAnchorV1_digest (a : WitnessStateAnchorV1) : proto Digest32 :=
  preimage ← WitnessStateAnchorV1_signature_preimage a;
  hash_signed "jury-witness-v1/state-anchor/hash" preimage (sa_signature a).

Definition WitnessDatabaseStateV1_digest (d : WitnessDatabaseStateV1) : proto Digest32 :=
  body ← WitnessDatabaseStateV1_canonical_body d;
  hash_bytes "jury-witness-v1/database-state/hash" body.

Definition WitnessCheckpointAcknowledgementV1_validate_shape (a : WitnessCheckpointAcknowledgementV1)
    : proto unit :=
  let anchor := ack_exact_anchor a in
  WitnessStateAnchorV1_validate_shape anchor;;
  anchor_digest ← WitnessStateAnchorV1_digest anchor;
  let matching_watermark :=
    match List.find (λ h, hw_vault_id h ==? ack_vault_id a) (sa_vault_high_watermarks anchor) with
    | Some h => (hw_policy_sequence h ==? ack_vault_policy_sequence a) &&
                (hw_checkpoint_digest h ==? ack_checkpoint_digest a)
    | None => false
    end in
  reject_if
    ((ack_schema a !=? 1%N) || (ack_vault_policy_sequence a ==? 0%N) ||
     (ack_state_generation a ==? 0%N) || (ack_witness_id a !=? sa_witness_id anchor) ||
     (ack_state_generation a !=? sa_state_generation anchor) ||
     (ack_anchor_digest a !=? anchor_digest) || negb matching_watermark) WP_InvalidFormat.
End digests.
