(* ===== verification/WitnessCodec.v ===== *)
(** * The request parser inverts the request encoder

    What [CanonicalInput] reads back, for the request of [request.rs]: the
    parser accepts exactly the signature preimages of requests whose fields
    have the widths of their Rust types. *)

From S2P Require Import Prelude VaultTypes Canonical Preimage Identifiers Text Effects WitnessMessages.
Local Open Scope jury_scope.

(** The widths of the fields; an identifier is not zero. *)
Definition id32 (b : bytes) : bool := fixed 32 b && negb (is_zero b).

Definition IntendedWitnessV1_wt (w : IntendedWitnessV1) : bool :=
  id32 (iw_witness_id w) && u8 (iw_share_index w) && fixed 32 (iw_signing_key_fingerprint w) &&
  fixed 32 (iw_contribution_key_fingerprint w).

(** The fields an encoding of the request is made of. *)
Definition WitnessRequestV1_wt (r : WitnessRequestV1) : bool :=
  u16 (wr_schema r) && u16 (wr_protocol_version r) && u16 (wr_construction r) &&
  id32 (wr_request_id r) && id32 (wr_client_nonce r) && id32 (wr_vault_id r) &&
  fixed 32 (wr_genesis_fingerprint r) && id32 (wr_item_id r) && u64 (wr_key_epoch r) &&
  id32 (wr_slot_id r) && u64 (wr_revision r) && id32 (wr_revision_seal_id r) &&
  u64 (wr_vault_policy_sequence r) && fixed 32 (wr_vault_policy_hash r) &&
  fixed 32 (wr_policy_checkpoint_digest r) && id32 (wr_witness_policy_id r) &&
  u64 (wr_witness_policy_revision r) && fixed 32 (wr_witness_policy_digest r) &&
  id32 (wr_requester_principal_id r) && fixed 32 (wr_requester_signing_key_fingerprint r) &&
  u64 (wr_requester_signing_key_epoch r) && fixed 32 (wr_approval_target_digest r) &&
  fixed 32 (wr_action_manifest_digest r) && fixed 32 (wr_workload_digest r) &&
  u64 (wr_issued_at_ms r) && (if wr_not_before_ms r is Some n then u64 n else true) &&
  u64 (wr_expires_at_ms r) && fixed 1216 (wr_request_session_public_key r) &&
  fixed 32 (wr_request_session_key_fingerprint r) &&
  forallb IntendedWitnessV1_wt (wr_intended_witness_set r).

(** With its signature, a value of the Rust type. *)
Definition request_typed (r : WitnessRequestV1) : Prop :=
  WitnessRequestV1_wt r = true ∧ length (wr_client_signature r) = 64.

(** ** Reading back *)

(** At these bytes, whatever surrounds them, the reader returns this value and
    stands behind them. *)
Definition reads {A} (m : reader A) (bs : bytes) (a : A) : Prop :=
  ∀ pre rest,
    m {| ci_bytes := pre ++ bs ++ rest; ci_offset := length pre |} =
    (Ok a, {| ci_bytes := pre ++ bs ++ rest; ci_offset := length pre + length bs |}).

Lemma reads_bind {A B} (m : reader A) (k : A → reader B) bs bs' a b :
  reads m bs a → reads (k a) bs' b → reads (m ≫= k) (bs ++ bs') b.
Proof.
  intros Hm Hk pre rest. unfold mbind, eff_bind. rw -assoc_L Hm.
  specialize (Hk (pre ++ bs) rest). rw -!assoc_L length_app in Hk. rw Hk. f_equal. f_equal. rw length_app. lia.
Qed.

Lemma reads_ret {A} (a : A) : reads (mret a) [] a.
Proof. intros pre rest. cbn. by rw Nat.add_0_r. Qed.

Lemma reads_bind_nil {A B} (m : reader A) (k : A → reader B) bs a b :
  reads m bs a → reads (k a) [] b → reads (m ≫= k) bs b.
Proof. intros Hm Hk. rw -(app_nil_r bs). by eapply reads_bind. Qed.

(** The same at the end of the input, where [finish] is. *)
Definition reads_end {A} (m : reader A) (bs : bytes) (a : A) : Prop :=
  ∀ pre, m {| ci_bytes := pre ++ bs; ci_offset := length pre |} =
         (Ok a, {| ci_bytes := pre ++ bs; ci_offset := length pre + length bs |}).

Lemma reads_end_bind {A B} (m : reader A) (k : A → reader B) bs bs' a b :
  reads m bs a → reads_end (k a) bs' b → reads_end (m ≫= k) (bs ++ bs') b.
Proof.
  intros Hm Hk pre. unfold mbind, eff_bind. rw Hm.
  specialize (Hk (pre ++ bs)). rw -!assoc_L length_app in Hk. rw Hk. f_equal. f_equal. rw length_app. lia.
Qed.

Lemma reads_finish {B} (b : B) : reads_end (ci_finish;; mret b) [] b.
Proof.
  intros pre. unfold mbind, eff_bind, ci_finish. cbn. by rw app_nil_r Nat.eqb_refl Nat.add_0_r.
Qed.

Lemma reads_take bs : reads (ci_take (length bs)) bs bs.
Proof.
  intros pre rest. unfold ci_take. cbn [ci_bytes ci_offset].
  rw (proj2 (Nat.leb_le _ _)); [|rw !length_app; lia].
  by rw drop_app_length take_app_length.
Qed.

Lemma reads_lift {A} (r : proto A) a : r = Ok a → reads (lift r) [] a.
Proof. intros -> pre rest. unfold lift. cbn. by rw Nat.add_0_r. Qed.

Lemma reads_fixed n bs : fixed n bs = true → reads (ci_fixed n) bs bs.
Proof. unfold fixed. intros <-%bool_decide_eq_true. apply reads_take. Qed.

Lemma reads_identifier bs : id32 bs = true → reads ci_identifier bs bs.
Proof.
  intros [Hf Hz]%andb_true_iff. eapply reads_bind_nil; [by apply reads_fixed|]. apply reads_lift.
  by apply negb_true_iff in Hz as ->.
Qed.

Lemma reads_uint k n : (n < 256 ^ N.of_nat k)%N → reads (ci_uint k) (be_bytes k n) n.
Proof.
  intros Hn. eapply reads_bind_nil; [rw -{1}(length_be_bytes k n); apply reads_take|].
  rewrite -> be_N_be_bytes by done. apply reads_ret.
Qed.

Lemma reads_u16 n : u16 n = true → reads (ci_uint 2) (u16be n) n.
Proof. intros ?%u16_lt. by apply reads_uint. Qed.

Lemma reads_u64 n : u64 n = true → reads (ci_uint 8) (u64be n) n.
Proof. intros ?%u64_lt. by apply reads_uint. Qed.

Lemma reads_u8 n : u8 n = true → reads (ci_uint 1) (push n) n.
Proof. intros ?%u8_lt. by apply (reads_uint 1). Qed.

Lemma reads_tag {A} (table : list (N * A)) (tag : A → N) a :
  u8 (tag a) = true → snd <$> List.find (λ e, e.1 ==? tag a) table = Some a →
  reads (ci_tag table) (push (tag a)) a.
Proof.
  intros Hu Ha. eapply reads_bind_nil; [by apply reads_u8|]. apply reads_lift. by rw Ha.
Qed.

Lemma reads_optional_u64 o :
  (if o is Some n then u64 n else true) = true → reads ci_optional_u64 (optional_u64 [] o) o.
Proof.
  destruct o as [n|]; intros Hn; unfold ci_optional_u64, optional_u64.
  - change ([] ++ [Byte.x01] ++ be_bytes 8 n) with (push 1 ++ u64be n).
    eapply reads_bind; [by apply reads_u8|]. cbn. eapply reads_bind_nil; [by apply reads_u64|]. apply reads_ret.
  - eapply (reads_bind_nil _ _ _ 0%N); [by apply (reads_u8 0)|]. apply reads_ret.
Qed.

Lemma reads_witness w : IntendedWitnessV1_wt w = true → reads ci_intended_witness (IntendedWitnessV1_canonical_bytes w) w.
Proof.
  unfold IntendedWitnessV1_wt. intros Hw. to_prop. unfold ci_intended_witness, IntendedWitnessV1_canonical_bytes.
  eapply reads_bind; [by apply reads_identifier|]. eapply reads_bind; [by apply reads_u8|].
  eapply reads_bind; [by apply reads_fixed|]. eapply reads_bind_nil; [by apply reads_fixed|].
  destruct w. apply reads_ret.
Qed.

Lemma reads_repeat {A} (m : reader A) (e : A → bytes) l :
  (∀ x, x ∈ l → reads m (e x) x) → reads (ci_repeat m (length l)) (concat (e <$> l)) l.
Proof.
  induction l as [|x l IH]; intros Hl; [apply reads_ret|]. cbn [length ci_repeat fmap list_fmap concat].
  eapply reads_bind; [apply Hl; set_solver|]. eapply reads_bind_nil; [apply IH; set_solver|]. apply reads_ret.
Qed.

(** ** The encoding of a request as a sequence of fields *)

Definition request_fields (r : WitnessRequestV1) : bytes :=
  u16be (wr_schema r) ++ u16be (wr_protocol_version r) ++ u16be (wr_construction r) ++
  wr_request_id r ++ wr_client_nonce r ++ wr_vault_id r ++ wr_genesis_fingerprint r ++
  wr_item_id r ++ u64be (wr_key_epoch r) ++ push (ItemAccessMode_tag (wr_item_access_mode r)) ++
  wr_slot_id r ++ push (ContentRole_tag (wr_content_role r)) ++ u64be (wr_revision r) ++
  wr_revision_seal_id r ++ u64be (wr_vault_policy_sequence r) ++ wr_vault_policy_hash r ++
  wr_policy_checkpoint_digest r ++ wr_witness_policy_id r ++
  u64be (wr_witness_policy_revision r) ++ wr_witness_policy_digest r ++
  wr_requester_principal_id r ++ wr_requester_signing_key_fingerprint r ++
  u64be (wr_requester_signing_key_epoch r) ++
  push (AccessRole_tag (wr_requested_access_role r)) ++
  push (WitnessOperationV1_tag (wr_operation r)) ++ wr_approval_target_digest r ++
  wr_action_manifest_digest r ++ wr_workload_digest r ++ u64be (wr_issued_at_ms r) ++
  optional_u64 [] (wr_not_before_ms r) ++ u64be (wr_expires_at_ms r) ++
  wr_request_session_public_key r ++ wr_request_session_key_fingerprint r ++
  be_bytes 4 (len (wr_intended_witness_set r)) ++
  concat (IntendedWitnessV1_canonical_bytes <$> wr_intended_witness_set r).

Lemma optional_u64_app out o : optional_u64 out o = out ++ optional_u64 [] o.
Proof. by destruct o. Qed.

Lemma append_fields_Ok r out bs :
  WitnessRequestV1_append_fields r out = Ok bs ↔
  u32 (len (wr_intended_witness_set r)) = true ∧ bs = out ++ request_fields r.
Proof.
  unfold WitnessRequestV1_append_fields. cbv zeta. rw map_err_Ok. unfold append_witness.
  rw (list_fixed_Ok IntendedWitnessV1_canonical_bytes). rw optional_u64_app. unfold list_chunk, request_fields.
  rw -!assoc_L. done.
Qed.

Ltac reads_field :=
  first [apply reads_u16 | apply reads_identifier | apply reads_fixed | apply reads_u64
        | apply reads_optional_u64]; assumption.

Lemma reads_request r :
  WitnessRequestV1_wt r = true → (len (wr_intended_witness_set r) ≤ MAX_POLICY_ACTORS)%N →
  (ci_request (wr_client_signature r)
     (CanonicalInput_new (jce_v1 "jury-witness-v1/request/signature" ++ request_fields r))).1 = Ok r.
Proof.
  unfold WitnessRequestV1_wt. intros Hw Hn. to_prop. to_forall.
  enough (reads_end (ci_request (wr_client_signature r))
    (jce_v1 "jury-witness-v1/request/signature" ++ request_fields r) r) as Hr.
  { exact (f_equal fst (Hr [])). }
  unfold ci_request. eapply reads_end_bind.
  { unfold ci_domain. eapply reads_bind_nil; [apply reads_take|]. by apply reads_lift. }
  unfold request_fields. do 9 (eapply reads_end_bind; [reads_field|]).
  eapply reads_end_bind; [apply (reads_tag _ ItemAccessMode_tag); by destruct (wr_item_access_mode r)|].
  eapply reads_end_bind; [reads_field|].
  eapply reads_end_bind; [apply (reads_tag _ ContentRole_tag); by destruct (wr_content_role r)|].
  do 11 (eapply reads_end_bind; [reads_field|]).
  eapply reads_end_bind; [apply (reads_tag _ AccessRole_tag); by destruct (wr_requested_access_role r)|].
  eapply reads_end_bind; [apply (reads_tag _ WitnessOperationV1_tag); by destruct (wr_operation r)|].
  do 8 (eapply reads_end_bind; [reads_field|]).
  eapply reads_end_bind.
  { eapply reads_bind_nil; [apply (reads_uint 4)|apply reads_lift].
    - unfold MAX_POLICY_ACTORS in Hn. cbn. lia.
    - by rewrite -> (proj2 (N.ltb_ge _ _) Hn). }
  rw -(app_nil_r (concat _)). eapply reads_end_bind.
  { unfold len. rw Nat2N.id. apply reads_repeat. intros w Hin. apply reads_witness. by eapply Forall_forall in Hin; [|eassumption]. }
  destruct r. apply reads_finish.
Qed.

(** ** What the parser returns has the widths of its fields *)

Definition yields {A} (m : reader A) (P : A → Prop) : Prop := ∀ i a, (m i).1 = Ok a → P a.

Lemma yields_bind {A B} (m : reader A) (k : A → reader B) P Q :
  yields m P → (∀ a, P a → yields (k a) Q) → yields (m ≫= k) Q.
Proof.
  intros Hm Hk i b. unfold mbind, eff_bind. specialize (Hm i). destruct (m i) as [[a|x] i']; [|done].
  apply Hk. by apply Hm.
Qed.

Lemma yields_ret {A} (a : A) (P : A → Prop) : P a → yields (mret a) P.
Proof. by intros Ha i b [= <-]. Qed.

Lemma yields_lift {A} (r : proto A) (P : A → Prop) : (∀ a, r = Ok a → P a) → yields (lift r) P.
Proof. by intros Hr i. Qed.

Lemma yields_any {A} (m : reader A) : yields m (λ _, True).
Proof. by intros i a. Qed.

Lemma yields_take n : yields (ci_take n) (λ bs, fixed n bs = true).
Proof.
  intros i bs. unfold ci_take. destruct (_ <=? _)%nat eqn:Hle; [|done]. intros [= <-].
  apply Nat.leb_le in Hle. apply bool_decide_eq_true. rw length_take length_drop. lia.
Qed.

Lemma yields_identifier : yields ci_identifier (λ bs, id32 bs = true).
Proof.
  eapply yields_bind; [apply yields_take|]. intros bs Hb. apply yields_lift. intros ? Hz.
  rewrite -> reject_if_bind in Hz. destruct Hz as [Hz [= <-]]. unfold id32. by rw Hb Hz.
Qed.

Lemma yields_uint k : yields (ci_uint k) (λ n, (n < 256 ^ N.of_nat k)%N).
Proof.
  eapply yields_bind; [apply yields_take|]. intros bs Hb%bool_decide_eq_true. apply yields_ret.
  rw -Hb. apply be_N_lt.
Qed.

Lemma yields_u8 : yields (ci_uint 1) (λ n, u8 n = true).
Proof. intros i n Hn. apply yields_uint in Hn. apply N.leb_le. unfold u8_max. cbn in Hn. lia. Qed.

Lemma yields_u16 : yields (ci_uint 2) (λ n, u16 n = true).
Proof. intros i n Hn. apply yields_uint in Hn. apply N.leb_le. unfold u16_max. cbn in Hn. lia. Qed.

Lemma yields_u64 : yields (ci_uint 8) (λ n, u64 n = true).
Proof. intros i n Hn. apply yields_uint in Hn. apply N.leb_le. unfold u64_max. cbn in Hn. lia. Qed.

Lemma yields_optional_u64 : yields ci_optional_u64 (λ o, (if o is Some n then u64 n else true) = true).
Proof.
  eapply yields_bind; [apply yields_any|]. intros [|[| |]] _; try (apply yields_lift; done); [by apply yields_ret|].
  eapply yields_bind; [apply yields_u64|]. intros n Hn. by apply yields_ret.
Qed.

Lemma yields_witness : yields ci_intended_witness (λ w, IntendedWitnessV1_wt w = true).
Proof.
  eapply yields_bind; [apply yields_identifier|]. intros ? H1. eapply yields_bind; [apply yields_u8|]. intros ? H2.
  eapply yields_bind; [apply yields_take|]. intros ? H3. eapply yields_bind; [apply yields_take|]. intros ? H4.
  apply yields_ret. unfold IntendedWitnessV1_wt. cbn. by rw H1 H2 H3 H4.
Qed.

Lemma yields_repeat {A} (m : reader A) (P : A → Prop) n : yields m P → yields (ci_repeat m n) (Forall P).
Proof.
  intros Hm. induction n as [|n IH]; [by apply yields_ret|]. eapply yields_bind; [exact Hm|]. intros x Hx.
  eapply yields_bind; [exact IH|]. intros l Hl. apply yields_ret. by constructor.
Qed.

Ltac yields_field :=
  eapply yields_bind;
  [first [apply yields_identifier | apply yields_take | apply yields_u64 | apply yields_u16
         | apply yields_optional_u64 | apply yields_any]|];
  intros ? ?.

Lemma yields_request signature :
  yields (ci_request signature) (λ r, WitnessRequestV1_wt r = true ∧ wr_client_signature r = signature).
Proof.
  unfold ci_request. do 35 yields_field.
  eapply yields_bind; [apply yields_repeat, yields_witness|]. intros ws Hws. eapply yields_bind; [apply yields_any|]. intros ? _.
  apply yields_ret. split; [|done]. unfold WitnessRequestV1_wt. cbn.
  split_guard; try assumption. by apply forallb_eq_true.
Qed.

Section codec.
Context `{Crypto}.

Lemma shape_witness_count r :
  WitnessRequestV1_validate_shape r = Ok tt → (len (wr_intended_witness_set r) ≤ MAX_POLICY_ACTORS)%N.
Proof. unfold WitnessRequestV1_validate_shape. intros Hs%reject_if_Ok. by to_prop. Qed.

Lemma signature_preimage_Ok r p :
  WitnessRequestV1_signature_preimage r = Ok p ↔
  WitnessRequestV1_validate_shape r = Ok tt ∧
  p = jce_v1 "jury-witness-v1/request/signature" ++ request_fields r.
Proof.
  unfold WitnessRequestV1_signature_preimage. rw bind_Ok. split.
  - intros ([] & Hs & [_ ->]%append_fields_Ok). done.
  - intros [Hs ->]. exists tt. split; [done|]. apply append_fields_Ok. split; [|done].
    apply shape_witness_count in Hs. unfold MAX_POLICY_ACTORS in Hs. apply N.leb_le. unfold u32_max. lia.
Qed.

(** Requests that encode alike are alike. *)
Lemma request_fields_inj r r' :
  WitnessRequestV1_wt r = true → WitnessRequestV1_wt r' = true →
  WitnessRequestV1_validate_shape r = Ok tt → WitnessRequestV1_validate_shape r' = Ok tt →
  request_fields r = request_fields r' → wr_client_signature r = wr_client_signature r' → r = r'.
Proof.
  intros Hw Hw' Hs%shape_witness_count Hs'%shape_witness_count Hf Hsig.
  pose proof (reads_request r Hw Hs) as Hr. pose proof (reads_request r' Hw' Hs') as Hr'.
  rewrite -> Hf, Hsig, Hr' in Hr. by injection Hr.
Qed.

Lemma canonical_bytes_inj r r' bs :
  request_typed r → request_typed r' →
  WitnessRequestV1_canonical_bytes r = Ok bs → WitnessRequestV1_canonical_bytes r' = Ok bs → r = r'.
Proof.
  intros [Hw Hl] [Hw' Hl']. unfold WitnessRequestV1_canonical_bytes.
  intros ([] & Hs & (f & [_ ->]%append_fields_Ok & Hb)%bind_Ok)%bind_Ok.
  intros ([] & Hs' & (f' & [_ ->]%append_fields_Ok & Hb')%bind_Ok)%bind_Ok.
  rewrite -> reject_if_bind in Hb, Hb'. destruct Hb as [_ [= Hb]]. destruct Hb' as [_ [= Hb']].
  rewrite <- Hb' in Hb. apply app_inj_2 in Hb as [Hf Hsig]; [|lia]. by apply request_fields_inj.
Qed.

(** The request parser is the exact inverse of the request encoder. It
    returns a request if and only if the bytes are the signature preimage of
    that request, within the size limit, and the request's fields have their
    widths and no identifier is zero; so a signed request has one reading, and
    every request a client can sign is read back. *)
Theorem request_parser_exact preimage signature r :
  from_signature_preimage preimage signature = Ok r ↔
  WitnessRequestV1_signature_preimage r = Ok preimage ∧ wr_client_signature r = signature ∧
  WitnessRequestV1_wt r = true ∧ (len preimage ≤ MAX_REQUEST_BYTES)%N.
Proof.
  unfold from_signature_preimage. rw reject_if_bind N.ltb_ge bind_Ok. split.
  - intros (Hlen & r' & Hr & Hb). apply bind_Ok in Hb as (p & Hp & Hb). rewrite -> reject_if_bind in Hb.
    destruct Hb as [Heq [= <-]]. to_prop. subst p. by destruct (yields_request _ _ _ Hr).
  - intros (Hp & <- & Hw & Hlen). split; [done|]. exists r.
    apply signature_preimage_Ok in Hp as Hp'. destruct Hp' as [Hs Hpre]. split.
    + rewrite -> Hpre. by apply reads_request; [|apply shape_witness_count].
    + rw Hp. cbn. by rw bool_decide_true.
Qed.
End codec.
