(* ===== verification/WitnessValidation.v ===== *)
(** * Validation of witnessed requests

    The checks a witness makes against the policy it has: [jury-core]'s
    [witness_validation.rs] and [checkpoint_validation.rs], the bridge between
    policy and protocol enumerations ([policy/witness_v1_bridge.rs]), and the
    functions of [witness_engine/validation.rs] and [approval_validation.rs]
    that do not touch the engine's state. *)

From S2P Require Import Prelude VaultTypes Canonical Preimage WitnessPolicy PolicyState Text Effects WitnessMessages.
Local Open Scope jury_scope.

(** ** Errors *)

Inductive RequestPolicyError := RP_Invalid | RP_InvalidSignature | RP_PolicyDenied | RP_StalePolicy | RP_WrongScope.
Inductive CheckpointPolicyError := CK_Invalid | CK_ScopeMismatch | CK_MissingOwner | CK_InvalidSignature.

Inductive WitnessEngineErrorKind :=
  | Refused (reason : WitnessReasonV1)
  | StoreUnavailable
  | AnchorUnavailable.

Definition WitnessEngineError_reason (e : WitnessEngineErrorKind) : WitnessReasonV1 :=
  match e with
  | Refused reason => reason
  | StoreUnavailable => R_InternalFailure
  | AnchorUnavailable => R_Unavailable
  end.

Global Instance WitnessEngineErrorKind_eq_dec : EqDecision WitnessEngineErrorKind.
Proof. solve_decision. Defined.

Abbreviation checked := (result WitnessEngineErrorKind).

(** [.map_err(|_| refused(reason))] *)
Abbreviation or_refuse r reason := (map_err (λ _, Refused reason) r).

Abbreviation refuse_if bad reason := (reject_if bad (Refused reason)).

Definition map_request_policy_error (e : RequestPolicyError) : WitnessEngineErrorKind :=
  Refused match e with
    | RP_Invalid => R_Invalid
    | RP_InvalidSignature => R_InvalidSignature
    | RP_PolicyDenied => R_PolicyDenied
    | RP_StalePolicy => R_StalePolicy
    | RP_WrongScope => R_WrongScope
    end.

(** ** Policy and protocol enumerations *)

Definition protocol_approval_mode (m : ApprovalMode) : ApprovalModeV1 :=
  match m with APM_Human => MODE_Human | APM_Automatic => MODE_Automatic end.

Definition core_operation (o : WitnessOperationV1) : WitnessOperation :=
  match o with
  | OP_ReadStdout => WO_ReadStdout
  | OP_WritePrivateFile => WO_WritePrivateFile
  | OP_TemplateInjection => WO_TemplateInjection
  | OP_ChildEnvironment => WO_ChildEnvironment
  | OP_ChildStdin => WO_ChildStdin
  | OP_ItemMutation => WO_ItemMutation
  | OP_Backup => WO_Backup
  | OP_Recovery => WO_Recovery
  | OP_AdministrativeRekey => WO_AdministrativeRekey
  end.

Definition operation_capability (o : WitnessOperationV1) : Capability :=
  match o with
  | OP_ReadStdout | OP_WritePrivateFile | OP_TemplateInjection | OP_ChildEnvironment
  | OP_ChildStdin => Cap_Read
  | OP_ItemMutation | OP_Backup => Cap_Write
  | OP_Recovery | OP_AdministrativeRekey => Cap_Administer
  end.

Section validation.
Context `{Crypto}.

(** ** A request against the policy *)

Record ValidatedRequestPolicy := {
  vrp_rule : WitnessAccessRule;
  vrp_policy : WitnessPolicy;
  vrp_slot : WitnessedSlotV1;
}.

Definition map_rule_error (e : PolicyErrorKind) : RequestPolicyError :=
  match e with
  | UnknownItem => RP_WrongScope
  | Unauthorized => RP_WrongScope
  | MissingWitnessPolicy => RP_StalePolicy
  | _ => RP_PolicyDenied
  end.

Definition is_owner (policy : PolicyState) (id : PrincipalId) : bool := id ∈? ps_owners policy.

Definition intended_witness_of (d : WitnessPolicyDescriptor) : IntendedWitnessV1 := {|
  iw_witness_id := wd_witness_id d;
  iw_share_index := wd_share_index d;
  iw_signing_key_fingerprint := wd_signing_key_fingerprint d;
  iw_contribution_key_fingerprint := wd_contribution_key_fingerprint d;
|}.

Definition request_slot (request : WitnessRequestV1) (policy : WitnessPolicy) (slot : WitnessedSlotV1) : bool :=
  (ws_slot_id slot ==? wr_slot_id request) &&
  (ws_content_role slot ==? wr_content_role request) &&
  (ws_revision slot ==? wr_revision request) &&
  (ws_revision_seal_id slot ==? wr_revision_seal_id request) &&
  (ws_key_epoch slot ==? wr_key_epoch request) &&
  (ws_item_access_mode slot ==? wr_item_access_mode request) &&
  (ws_vault_policy_sequence slot ==? wp_vault_policy_sequence policy) &&
  (ws_witness_policy_id slot ==? wr_witness_policy_id request) &&
  (ws_witness_policy_revision slot ==? wr_witness_policy_revision request) &&
  (ws_witness_policy_digest slot ==? wr_witness_policy_digest request).

Definition validate_request_policy (policy : PolicyState) (request : WitnessRequestV1)
    : result RequestPolicyError ValidatedRequestPolicy :=
  map_err (λ _, RP_Invalid) (WitnessRequestV1_validate_shape request);;
  reject_if
    ((wr_vault_id request !=? ps_vault_id policy) ||
     (wr_genesis_fingerprint request !=? ps_genesis_fingerprint policy) ||
     (wr_vault_policy_sequence request !=? ps_sequence policy) ||
     (wr_vault_policy_hash request !=? ps_terminal_revision_hash policy)) RP_StalePolicy;;
  reject_if (wr_expires_at_ms request <? wr_issued_at_ms request)%N RP_Invalid;;
  let request_lifetime := (wr_expires_at_ms request - wr_issued_at_ms request)%N in
  rule ← map_err map_rule_error
    (witness_access_rule policy (wr_item_id request) (core_operation (wr_operation request)));
  reject_if
    ((wr_witness_policy_id request !=? war_policy_id rule) ||
     (wr_witness_policy_revision request !=? war_policy_revision rule) ||
     (wr_witness_policy_digest request !=? war_policy_digest rule)) RP_WrongScope;;
  reject_if (war_allowed_request_lifetime_ms rule <? request_lifetime)%N RP_StalePolicy;;
  let granted := access policy (wr_item_id request) (wr_requester_principal_id request)
                   (operation_capability (wr_operation request)) in
  reject_if (negb (ax_allowed granted) ||
             (ax_effective_role granted !=? Some (wr_requested_access_role request))) RP_PolicyDenied;;
  requester ← ok_or (ps_principals policy !! wr_requester_principal_id request) RP_PolicyDenied;
  let descriptor := pp_descriptor requester in
  reject_if
    ((pd_principal_kind descriptor ==? PK_Approver) || (pd_principal_kind descriptor ==? PK_Witness) ||
     (wr_requester_signing_key_epoch request !=? 1%N) ||
     (wr_requester_signing_key_fingerprint request !=?
      signing_key_fingerprint 1 (wr_requester_principal_id request) 1
        (pd_verification_public_key descriptor))) RP_InvalidSignature;;
  preimage ← map_err (λ _, RP_Invalid) (WitnessRequestV1_signature_preimage request);
  reject_if (negb (verify_bytes (pd_verification_public_key descriptor) preimage
                     (wr_client_signature request))) RP_InvalidSignature;;
  witness_policy ← ok_or (ps_witness_policies policy !! wr_witness_policy_digest request) RP_StalePolicy;
  reject_if
    ((wr_vault_policy_sequence request <? wp_vault_policy_sequence witness_policy)%N ||
     (predecessor_hash_for_sequence policy (wp_vault_policy_sequence witness_policy) !=?
      Some (wp_vault_policy_hash witness_policy))) RP_StalePolicy;;
  let expected_witnesses := intended_witness_of <$> active_witness_descriptors witness_policy in
  reject_if (wr_intended_witness_set request !=? expected_witnesses) RP_WrongScope;;
  requested_set ← map_err (λ _, RP_Invalid) (request_witness_set_digest request);
  policy_set ← map_err (λ _, RP_StalePolicy) (intended_witness_set_digest policy (wr_item_id request));
  reject_if (requested_set !=? policy_set) RP_WrongScope;;
  item ← ok_or (ps_items policy !! wr_item_id request) RP_WrongScope;
  reject_if ((it_key_epoch item !=? wr_key_epoch request) ||
             (access_mode item !=? Some (wr_item_access_mode request))) RP_WrongScope;;
  slot ← ok_or (List.find (request_slot request witness_policy) (slots_of item)) RP_WrongScope;
  reject_if ((ws_threshold slot !=? war_witness_threshold rule) ||
             (ws_member_count slot !=? len expected_witnesses)) RP_WrongScope;;
  Ok {| vrp_rule := rule; vrp_policy := witness_policy; vrp_slot := slot |}.

Definition validate_owner_change_context (policy : PolicyState) (requester : PrincipalId)
    (context : OperationContextV1) : result RequestPolicyError unit :=
  match context with
  | CTX_OwnerChange change target_principal_id next_vault_policy_sequence =>
      reject_if (checked_add_u64 (ps_sequence policy) 1 !=? Some next_vault_policy_sequence) RP_WrongScope;;
      reject_if
        (negb (is_owner policy requester) ||
         match ps_principals policy !! target_principal_id with
         | None => true
         | Some p => pd_principal_kind (pp_descriptor p) !=? PK_Human
         end) RP_PolicyDenied;;
      let target_is_owner := is_owner policy target_principal_id in
      reject_if
        match change with
        | OC_Grant => target_is_owner
        | OC_Revoke => negb target_is_owner || (requester ==? target_principal_id) ||
                       (N.of_nat (size (ps_owners policy)) <=? 1)%N
        end RP_PolicyDenied
  | _ => Ok tt
  end.

Definition validate_manifest_policy (policy : PolicyState) (request : WitnessRequestV1)
    (manifest : ActionManifestV1) : result RequestPolicyError ValidatedRequestPolicy :=
  validated ← validate_request_policy policy request;
  validate_owner_change_context policy (wr_requester_principal_id request) (mf_operation_context manifest);;
  Ok validated.

(** ** A checkpoint against the policy *)

Definition validate_checkpoint_policy (policy : PolicyState) (checkpoint : VaultPolicyCheckpointV1)
    : result CheckpointPolicyError (list WitnessPolicy) :=
  map_err (λ _, CK_Invalid) (VaultPolicyCheckpointV1_validate_shape checkpoint);;
  reject_if
    ((vc_vault_id checkpoint !=? ps_vault_id policy) ||
     (vc_genesis_fingerprint checkpoint !=? ps_genesis_fingerprint policy) ||
     (vc_vault_policy_sequence checkpoint !=? ps_sequence policy) ||
     (vc_vault_policy_hash checkpoint !=? ps_terminal_revision_hash policy)) CK_ScopeMismatch;;
  policies ← map_err (λ _, CK_Invalid) (active_witness_policy_entries policy);
  set_digest ← map_err (λ _, CK_Invalid) (witness_v1_active_policy_set_digest policies.*1);
  reject_if (vc_active_witness_policy_set_digest checkpoint !=? set_digest) CK_ScopeMismatch;;
  owner ← ok_or
    (if is_owner policy (vc_issuer_owner_id checkpoint)
     then ps_principals policy !! vc_issuer_owner_id checkpoint else None) CK_MissingOwner;
  let key := pd_verification_public_key (pp_descriptor owner) in
  reject_if
    ((vc_issuer_key_epoch checkpoint !=? 1%N) ||
     (vc_issuer_key_fingerprint checkpoint !=?
      signing_key_fingerprint 1 (vc_issuer_owner_id checkpoint) 1 key)) CK_InvalidSignature;;
  preimage ← map_err (λ _, CK_Invalid) (VaultPolicyCheckpointV1_signature_preimage checkpoint);
  reject_if (negb (verify_bytes key preimage (vc_signature checkpoint))) CK_InvalidSignature;;
  Ok policies.*2.

Definition validate_checkpoint_public (policy : PolicyState) (checkpoint : VaultPolicyCheckpointV1)
    : checked (list WitnessPolicy) :=
  map_err (λ e, Refused match e with
    | CK_Invalid => R_Invalid
    | CK_ScopeMismatch => R_CheckpointFork
    | CK_MissingOwner | CK_InvalidSignature => R_InvalidSignature
    end) (validate_checkpoint_policy policy checkpoint).

(** ** A request against its manifest and the clock *)

Definition validate_request_manifest (request : WitnessRequestV1) (manifest : ActionManifestV1)
    : checked unit :=
  refuse_if ((wr_schema request !=? 1%N) || (wr_protocol_version request !=? PROTOCOL_VERSION) ||
             (wr_construction request !=? CONSTRUCTION) || (mf_schema manifest !=? 1%N))
    R_UnsupportedVersion;;
  or_refuse (WitnessRequestV1_validate_shape request) R_Invalid;;
  or_refuse (ActionManifestV1_validate_shape manifest) R_WrongScope;;
  refuse_if
    (existsb (λ entry, (te_item_id entry !=? wr_item_id request) ||
                       ((wr_content_role request ==? CR_Descriptor) && is_set (te_field_id entry)))
       (at_entries (mf_approval_target manifest))) R_WrongScope;;
  manifest_digest ← or_refuse (ActionManifestV1_digest manifest) R_Invalid;
  workload_digest ← or_refuse (workload_digest manifest) R_Invalid;
  refuse_if
    ((wr_request_id request !=? mf_request_id manifest) ||
     (wr_vault_id request !=? mf_vault_id manifest) ||
     (wr_genesis_fingerprint request !=? mf_genesis_fingerprint manifest) ||
     (wr_item_id request !=? mf_item_id manifest) ||
     (wr_key_epoch request !=? mf_key_epoch manifest) ||
     (wr_item_access_mode request !=? mf_item_access_mode manifest) ||
     (wr_slot_id request !=? mf_slot_id manifest) ||
     (wr_content_role request !=? mf_content_role manifest) ||
     (wr_revision request !=? mf_revision manifest) ||
     (wr_revision_seal_id request !=? mf_revision_seal_id manifest) ||
     (wr_vault_policy_sequence request !=? mf_vault_policy_sequence manifest) ||
     (wr_vault_policy_hash request !=? mf_vault_policy_hash manifest) ||
     (wr_witness_policy_id request !=? mf_witness_policy_id manifest) ||
     (wr_witness_policy_revision request !=? mf_witness_policy_revision manifest) ||
     (wr_witness_policy_digest request !=? mf_witness_policy_digest manifest) ||
     (wr_requester_principal_id request !=? mf_requester_principal_id manifest) ||
     (wr_requested_access_role request !=? mf_requested_access_role manifest) ||
     (wr_operation request !=? mf_operation manifest) ||
     (wr_approval_target_digest request !=? mf_approval_target_digest manifest) ||
     (wr_action_manifest_digest request !=? manifest_digest) ||
     (wr_workload_digest request !=? workload_digest) ||
     (wr_issued_at_ms request !=? mf_issued_at_ms manifest) ||
     (wr_not_before_ms request !=? mf_not_before_ms manifest) ||
     (wr_expires_at_ms request !=? mf_expires_at_ms manifest)) R_WrongScope.

Definition skewed (now_ms : N) : N := saturating_add_u64 now_ms ACCEPTED_CLOCK_SKEW_MS.

Definition validate_request_time (request : WitnessRequestV1) (now_ms : N) : checked unit :=
  refuse_if (skewed now_ms <? wr_issued_at_ms request)%N R_NotYetValid;;
  refuse_if (if wr_not_before_ms request is Some not_before then (skewed now_ms <? not_before)%N else false)
    R_NotYetValid;;
  refuse_if (wr_expires_at_ms request <=? now_ms)%N R_Expired.

Definition validate_automatic_rule (manifest : ActionManifestV1) (rule : WitnessAccessRule) : checked unit :=
  if (war_approval_threshold rule =? 0)%N then
    let all_allowed := forallb (λ entry,
      existsb (λ target, (art_item_id target ==? te_item_id entry) &&
                         (art_content_role target ==? mf_content_role manifest) &&
                         (art_field_id target ==? te_field_id entry)) (war_automatic_read_targets rule))
      (at_entries (mf_approval_target manifest)) in
    refuse_if (negb all_allowed || (mf_operation manifest !=? OP_ReadStdout)) R_PolicyDenied
  else Ok tt.

(** The workload of a manifest is within what the rule allows. *)
Definition workload_exceeds (manifest : ActionManifestV1) (rule : WitnessAccessRule) : bool :=
  (war_max_timeout_ms rule <? mf_timeout_ms manifest)%N ||
  (war_max_output_bytes rule <? mf_output_limit_bytes manifest)%N ||
  (war_max_target_count rule <? len (at_entries (mf_approval_target manifest)))%N ||
  (PlatformAssuranceV1_tag (mf_platform_assurance manifest) <?
   platform_assurance_tag (war_required_platform_assurance rule))%N.

Definition validate_public_request (policy : PolicyState) (checkpoint : VaultPolicyCheckpointV1)
    (request : WitnessRequestV1) (manifest : ActionManifestV1) : checked ValidatedRequestPolicy :=
  validate_request_manifest request manifest;;
  validate_checkpoint_public policy checkpoint;;
  checkpoint_digest ← or_refuse (VaultPolicyCheckpointV1_digest checkpoint) R_Invalid;
  refuse_if
    ((wr_vault_id request !=? vc_vault_id checkpoint) ||
     (wr_genesis_fingerprint request !=? vc_genesis_fingerprint checkpoint) ||
     (wr_vault_policy_sequence request !=? vc_vault_policy_sequence checkpoint) ||
     (wr_vault_policy_hash request !=? vc_vault_policy_hash checkpoint) ||
     (wr_policy_checkpoint_digest request !=? checkpoint_digest)) R_WrongScope;;
  validated ← map_err map_request_policy_error (validate_manifest_policy policy request manifest);
  refuse_if (workload_exceeds manifest (vrp_rule validated)) R_WorkloadExceeded;;
  validate_automatic_rule manifest (vrp_rule validated);;
  Ok validated.

(** ** Approvals and cancellations *)

Definition validate_approval_against_policy (approval : ApprovalDecisionV1) (request : WitnessRequestV1)
    (manifest : ActionManifestV1) (rule : WitnessAccessRule) (policy : WitnessPolicy) : checked unit :=
  or_refuse (ApprovalDecisionV1_validate_shape approval) R_Invalid;;
  descriptor ← ok_or
    (List.find (λ d, (ad_status d ==? DS_Active) && (ad_approver_id d ==? ap_approver_id approval))
       (wp_approver_descriptors policy)) (Refused R_PolicyDenied);
  refuse_if ((ap_approver_id approval ∉? war_eligible_approver_ids rule) ||
             (ap_request_id approval !=? wr_request_id request)) R_Invalid;;
  request_digest ← or_refuse (WitnessRequestV1_digest request) R_Invalid;
  refuse_if (ap_request_digest approval !=? request_digest) R_Invalid;;
  manifest_digest ← or_refuse (ActionManifestV1_digest manifest) R_Invalid;
  refuse_if
    ((ap_action_manifest_digest approval !=? manifest_digest) ||
     (ap_presentation_digest approval !=? mf_presentation_digest manifest) ||
     (ap_witness_policy_id approval !=? wr_witness_policy_id request) ||
     (ap_witness_policy_revision approval !=? wr_witness_policy_revision request) ||
     (ap_witness_policy_digest approval !=? wr_witness_policy_digest request)) R_Invalid;;
  witness_set ← or_refuse (request_witness_set_digest request) R_Invalid;
  refuse_if
    ((ap_intended_witness_set_digest approval !=? witness_set) ||
     (ap_approver_key_fingerprint approval !=? ad_signing_key_fingerprint descriptor) ||
     (ap_approver_key_epoch approval !=? ad_signing_key_epoch descriptor) ||
     (ap_approval_mode approval !=? protocol_approval_mode (ad_approval_mode descriptor)) ||
     (ap_issued_at_ms approval <? wr_issued_at_ms request)%N ||
     (wr_expires_at_ms request <? ap_expires_at_ms approval)%N) R_Invalid;;
  preimage ← or_refuse (ApprovalDecisionV1_signature_preimage approval) R_Invalid;
  refuse_if (negb (verify_bytes (ad_signing_public_key descriptor) preimage (ap_signature approval)))
    R_InvalidSignature.

Definition approval_is_current (approval : ApprovalDecisionV1) (now_ms : N) : bool :=
  (ap_issued_at_ms approval <=? skewed now_ms)%N && (now_ms <? ap_expires_at_ms approval)%N &&
  (if ap_not_before_ms approval is Some not_before then (not_before <=? skewed now_ms)%N else true).

Definition validate_approval_decision (policy : PolicyState) (checkpoint : VaultPolicyCheckpointV1)
    (request : WitnessRequestV1) (manifest : ActionManifestV1) (approval : ApprovalDecisionV1) (now_ms : N)
    : checked unit :=
  validated ← validate_public_request policy checkpoint request manifest;
  validate_approval_against_policy approval request manifest (vrp_rule validated) (vrp_policy validated);;
  refuse_if (negb (approval_is_current approval now_ms)) R_Invalid.

Definition validate_request_cancellation (policy : PolicyState) (request : WitnessRequestV1)
    (cancellation : RequestCancellationV1) (now_ms : N) : checked unit :=
  or_refuse (RequestCancellationV1_validate_shape cancellation) R_Invalid;;
  request_preimage ← or_refuse (WitnessRequestV1_signature_preimage request) R_Invalid;
  refuse_if
    ((cn_request_signature_preimage cancellation !=? request_preimage) ||
     (cn_client_signature cancellation !=? wr_client_signature request) ||
     (cn_request_id cancellation !=? wr_request_id request)) R_Invalid;;
  request_digest ← or_refuse (WitnessRequestV1_digest request) R_Invalid;
  refuse_if
    ((cn_request_digest cancellation !=? request_digest) ||
     (skewed now_ms <? cn_issued_at_ms cancellation)%N ||
     (cn_issued_at_ms cancellation <? wr_issued_at_ms request)%N ||
     (cn_canceller_key_epoch cancellation !=? 1%N)) R_Invalid;;
  canceller ← ok_or (ps_principals policy !! cn_canceller_id cancellation) (Refused R_PolicyDenied);
  let key := pd_verification_public_key (pp_descriptor canceller) in
  let role_valid := match cn_canceller_role cancellation with
    | CAN_OriginalRequester => cn_canceller_id cancellation ==? wr_requester_principal_id request
    | CAN_CurrentOwner => is_owner policy (cn_canceller_id cancellation)
    end in
  refuse_if
    (negb role_valid ||
     (cn_canceller_key_fingerprint cancellation !=?
      signing_key_fingerprint 1 (cn_canceller_id cancellation) 1 key)) R_PolicyDenied;;
  preimage ← or_refuse (RequestCancellationV1_signature_preimage cancellation) R_Invalid;
  refuse_if (negb (verify_bytes key preimage (cn_signature cancellation))) R_InvalidSignature.

Definition keyed_approval (approval : ApprovalDecisionV1)
    : checked (PrincipalId * bytes * ApprovalDecisionV1) :=
  bs ← or_refuse (ApprovalDecisionV1_canonical_bytes approval) R_Invalid;
  Ok ((ap_approver_id approval, bs), approval).

(** [iter().rev().take_while(|prior| same approver).count()] *)
Fixpoint same_approver_count (id : PrincipalId) (latest_first : list (PrincipalId * bytes * ApprovalDecisionV1))
    : nat :=
  match latest_first with
  | prior :: rest => if prior.1.1 ==? id then S (same_approver_count id rest) else O
  | [] => O
  end.

Definition retain_two (retained : list (PrincipalId * bytes * ApprovalDecisionV1))
    (entry : PrincipalId * bytes * ApprovalDecisionV1) : list (PrincipalId * bytes * ApprovalDecisionV1) :=
  if (same_approver_count entry.1.1 (rev retained) <? 2)%nat then retained ++ [entry] else retained.

Definition normalize_approvals (approvals : list ApprovalDecisionV1) : checked (list ApprovalDecisionV1) :=
  keyed ← mapE keyed_approval approvals;
  let keyed := dedup_by_key fst (sort_by_key fst keyed) in
  let retained := fold_left retain_two keyed [] in
  refuse_if (MAX_RECORDED_APPROVALS <? len retained)%N R_CapacityExhausted;;
  Ok retained.*2.

Record ApprovalTally := { tally_approved : N; tally_undecided : N; tally_conflicted : bool }.

Definition decisions_of (approver_id : PrincipalId) (approvals : list ApprovalDecisionV1)
    : list ApprovalDecisionV1 :=
  List.filter (λ d, ap_approver_id d ==? approver_id) approvals.

Definition tally_step (approvals : list ApprovalDecisionV1) (t : ApprovalTally) (approver_id : PrincipalId)
    : ApprovalTally :=
  match decisions_of approver_id approvals with
  | [] => {| tally_approved := tally_approved t; tally_undecided := tally_undecided t + 1;
             tally_conflicted := tally_conflicted t |}
  | [decision] =>
      match ap_decision decision with
      | AD_Approve => {| tally_approved := tally_approved t + 1; tally_undecided := tally_undecided t;
                         tally_conflicted := tally_conflicted t |}
      | AD_Deny => t
      end
  | _ => {| tally_approved := tally_approved t; tally_undecided := tally_undecided t;
            tally_conflicted := true |}
  end.

Definition tally_approvals (approvals : list ApprovalDecisionV1) (rule : WitnessAccessRule) : ApprovalTally :=
  fold_left (tally_step approvals) (war_eligible_approver_ids rule)
    {| tally_approved := 0; tally_undecided := 0; tally_conflicted := false |}.

Definition same_request (a b : WitnessRequestV1) : checked bool :=
  x ← or_refuse (WitnessRequestV1_canonical_bytes a) R_Invalid;
  y ← or_refuse (WitnessRequestV1_canonical_bytes b) R_Invalid;
  Ok (x ==? y).

Definition exact_anchor_eq (a b : WitnessStateAnchorV1) : checked bool :=
  x ← or_refuse (WitnessStateAnchorV1_canonical_bytes a) R_Invalid;
  y ← or_refuse (WitnessStateAnchorV1_canonical_bytes b) R_Invalid;
  Ok (x ==? y).

(** ** A response against the request it answers *)

Definition validate_witness_response (policy : PolicyState) (checkpoint : VaultPolicyCheckpointV1)
    (request : WitnessRequestV1) (manifest : ActionManifestV1) (response : WitnessResponseV1) : checked unit :=
  validated ← validate_public_request policy checkpoint request manifest;
  request_digest ← or_refuse (WitnessRequestV1_digest request) R_Invalid;
  manifest_digest ← or_refuse (ActionManifestV1_digest manifest) R_Invalid;
  checkpoint_digest ← or_refuse (VaultPolicyCheckpointV1_digest checkpoint) R_Invalid;
  or_refuse (WitnessResponseV1_canonical_bytes response) R_InvalidContribution;;
  let decision := resp_decision response in
  refuse_if
    ((wdc_request_id decision !=? wr_request_id request) ||
     (wdc_request_digest decision !=? request_digest) ||
     (wdc_action_manifest_digest decision !=? manifest_digest) ||
     (wdc_witness_policy_id decision !=? wr_witness_policy_id request) ||
     (wdc_witness_policy_revision decision !=? wr_witness_policy_revision request) ||
     (wdc_witness_policy_digest decision !=? wr_witness_policy_digest request) ||
     (wdc_policy_checkpoint_digest decision !=? checkpoint_digest) ||
     (wdc_policy_checkpoint_digest decision !=? wr_policy_checkpoint_digest request) ||
     (wdc_issued_at_ms decision <? wr_issued_at_ms request)%N ||
     (wdc_expires_at_ms decision !=? wr_expires_at_ms request)) R_WrongScope;;
  descriptor ← ok_or
    (List.find (λ d, (wd_status d ==? DS_Active) && (wd_witness_id d ==? wdc_witness_id decision))
       (wp_witness_descriptors (vrp_policy validated))) (Refused R_PolicyDenied);
  refuse_if
    ((wdc_witness_signing_key_epoch decision !=? wd_signing_key_epoch descriptor) ||
     (wdc_witness_signing_key_fingerprint decision !=? wd_signing_key_fingerprint descriptor))
    R_InvalidSignature;;
  preimage ← or_refuse (WitnessDecisionV1_signature_preimage decision) R_Invalid;
  refuse_if (negb (verify_bytes (wd_signing_public_key descriptor) preimage (wdc_signature decision)))
    R_InvalidSignature;;
  if wdc_decision decision !=? WD_Approve then Ok tt else
  contribution ← ok_or (resp_contribution response) (Refused R_InvalidContribution);
  capsule ← ok_or (List.find (λ c, wc_witness_id c ==? wdc_witness_id decision)
                     (ws_capsules (vrp_slot validated))) (Refused R_InvalidContribution);
  refuse_if
    ((ce_response_id contribution !=? wdc_response_id decision) ||
     (wdc_share_index decision !=? Some (ce_share_index contribution)) ||
     (wdc_share_commitment decision !=? Some (ce_share_commitment contribution)) ||
     (ce_share_index contribution !=? wd_share_index descriptor) ||
     (ce_share_index contribution !=? wc_share_index capsule) ||
     (ce_share_commitment contribution !=? wc_share_commitment capsule) ||
     (ce_capsule_context_digest contribution !=? wc_context_digest capsule) ||
     (ce_capsule_set_digest contribution !=? ws_capsule_set_digest (vrp_slot validated)) ||
     (ce_request_session_key_fingerprint contribution !=? wr_request_session_key_fingerprint request))
    R_InvalidContribution.
End validation.
