(* ===== verification/WitnessReceipt.v ===== *)
(** * Receipts of witnessed decisions

    The portable record of a decision, [witness_v1/receipt.rs] of
    [jury-protocol], and its assembly and offline verification,
    [crates/jury-core/src/witness_receipt.rs]. A verifier needs nothing but the
    receipt: it carries the journal and the witness policies it is judged by. *)

From S2P Require Import Prelude Json VaultTypes Canonical Preimage WitnessPolicy PolicyState Identifiers Replay Text Effects WitnessMessages WitnessValidation.
Local Open Scope jury_scope.

(** ** What a receipt is made of *)

Abbreviation ReceiptId := bytes.

Definition MAX_POLICY_MATERIAL_BYTES : N := 16 * 1024 * 1024.  (* [PolicyMaterialBytes] *)

Inductive ReceiptOutcomeV1 := RO_Approved | RO_Denied.

Definition ReceiptOutcomeV1_tag (o : ReceiptOutcomeV1) : N :=
  match o with RO_Approved => 1 | RO_Denied => 2 end.

Global Instance ReceiptOutcomeV1_eq_dec : EqDecision ReceiptOutcomeV1.
Proof. solve_decision. Defined.

Record PublicReceiptScopeV1 := {
  sp_schema : N;
  sp_request_id : RequestId;
  sp_vault_id : VaultId;
  sp_genesis_fingerprint : Digest32;
  sp_item_id : ItemId;
  sp_key_epoch : N;
  sp_item_access_mode : ItemAccessMode;
  sp_slot_id : SlotId;
  sp_content_role : ContentRole;
  sp_revision : N;
  sp_revision_seal_id : RevisionSealId;
  sp_vault_policy_sequence : N;
  sp_vault_policy_hash : Digest32;
  sp_witness_policy_id : WitnessPolicyId;
  sp_witness_policy_revision : N;
  sp_witness_policy_digest : Digest32;
  sp_requester_principal_id : PrincipalId;
  sp_requested_access_role : AccessRole;
  sp_operation : WitnessOperationV1;
  sp_approval_target_digest : Digest32;
  sp_action_manifest_digest : Digest32;
  sp_workload_digest : Digest32;
  sp_issued_at_ms : N;
  sp_not_before_ms : option N;
  sp_expires_at_ms : N;
}.

Global Instance PublicReceiptScopeV1_eq_dec : EqDecision PublicReceiptScopeV1.
Proof. solve_decision. Defined.

Definition from_request (request : WitnessRequestV1) : PublicReceiptScopeV1 := {|
  sp_schema := 1;
  sp_request_id := wr_request_id request;
  sp_vault_id := wr_vault_id request;
  sp_genesis_fingerprint := wr_genesis_fingerprint request;
  sp_item_id := wr_item_id request;
  sp_key_epoch := wr_key_epoch request;
  sp_item_access_mode := wr_item_access_mode request;
  sp_slot_id := wr_slot_id request;
  sp_content_role := wr_content_role request;
  sp_revision := wr_revision request;
  sp_revision_seal_id := wr_revision_seal_id request;
  sp_vault_policy_sequence := wr_vault_policy_sequence request;
  sp_vault_policy_hash := wr_vault_policy_hash request;
  sp_witness_policy_id := wr_witness_policy_id request;
  sp_witness_policy_revision := wr_witness_policy_revision request;
  sp_witness_policy_digest := wr_witness_policy_digest request;
  sp_requester_principal_id := wr_requester_principal_id request;
  sp_requested_access_role := wr_requested_access_role request;
  sp_operation := wr_operation request;
  sp_approval_target_digest := wr_approval_target_digest request;
  sp_action_manifest_digest := wr_action_manifest_digest request;
  sp_workload_digest := wr_workload_digest request;
  sp_issued_at_ms := wr_issued_at_ms request;
  sp_not_before_ms := wr_not_before_ms request;
  sp_expires_at_ms := wr_expires_at_ms request;
|}.

Definition PublicReceiptScopeV1_canonical_bytes (s : PublicReceiptScopeV1) : proto bytes :=
  reject_if
    ((sp_schema s !=? 1%N) || (sp_key_epoch s ==? 0%N) || (sp_revision s ==? 0%N) ||
     (sp_vault_policy_sequence s ==? 0%N) || (sp_witness_policy_revision s ==? 0%N) ||
     negb ((sp_item_access_mode s ==? AM_WitnessedOnly) || (sp_item_access_mode s ==? AM_Mixed)) ||
     negb (valid_interval (sp_issued_at_ms s) (sp_not_before_ms s) (sp_expires_at_ms s)))
    WP_InvalidFormat;;
  let output :=
    u16be (sp_schema s) ++ sp_request_id s ++ sp_vault_id s ++ sp_genesis_fingerprint s ++
    sp_item_id s ++ u64be (sp_key_epoch s) ++ push (ItemAccessMode_tag (sp_item_access_mode s)) ++
    sp_slot_id s ++ push (ContentRole_tag (sp_content_role s)) ++ u64be (sp_revision s) ++
    sp_revision_seal_id s ++ u64be (sp_vault_policy_sequence s) ++ sp_vault_policy_hash s ++
    sp_witness_policy_id s ++ u64be (sp_witness_policy_revision s) ++ sp_witness_policy_digest s ++
    sp_requester_principal_id s ++ push (AccessRole_tag (sp_requested_access_role s)) ++
    push (WitnessOperationV1_tag (sp_operation s)) ++ sp_approval_target_digest s ++
    sp_action_manifest_digest s ++ sp_workload_digest s ++ u64be (sp_issued_at_ms s) in
  Ok (optional_u64 output (sp_not_before_ms s) ++ u64be (sp_expires_at_ms s)).

Record ReceiptAcknowledgementV1 := {
  ra_schema : N;
  ra_receipt_id : ReceiptId;
  ra_receipt_core_digest : Digest32;
  ra_request_digest : Digest32;
  ra_endpoint_principal_id : PrincipalId;
  ra_endpoint_key_fingerprint : Digest32;
  ra_endpoint_key_epoch : N;
  ra_started_at_ms : N;
  ra_signature : Signature64;
}.

Record ReceiptCompletionV1 := {
  rcm_schema : N;
  rcm_receipt_id : ReceiptId;
  rcm_receipt_core_digest : Digest32;
  rcm_acknowledgement_digest : option Digest32;
  rcm_endpoint_principal_id : PrincipalId;
  rcm_endpoint_key_fingerprint : Digest32;
  rcm_endpoint_key_epoch : N;
  rcm_outcome : ReceiptOutcomeV1;
  rcm_reason : WitnessReasonV1;
  rcm_completed_at_ms : N;
  rcm_signature : Signature64;
}.

Record WitnessReceiptV1 := {
  rc_schema : N;
  rc_receipt_id : ReceiptId;
  rc_request_signature_preimage : bytes;
  rc_client_signature : Signature64;
  rc_request_digest : Digest32;
  rc_action_manifest_digest : Digest32;
  rc_presentation_digest : Digest32;
  rc_public_scope : PublicReceiptScopeV1;
  rc_approval_decisions : list ApprovalDecisionV1;
  rc_witness_decisions : list WitnessDecisionV1;
  rc_policy_checkpoint : VaultPolicyCheckpointV1;
  rc_witness_policy_material : bytes;
  rc_approval_threshold : N;
  rc_witness_threshold : N;
  rc_counted_approver_ids : list PrincipalId;
  rc_counted_witness_ids : list PrincipalId;
  rc_outcome : ReceiptOutcomeV1;
  rc_reason : WitnessReasonV1;
  rc_issued_at_ms : N;
  rc_expires_at_ms : N;
  rc_endpoint_acknowledgement : option ReceiptAcknowledgementV1;
  rc_endpoint_completion : option ReceiptCompletionV1;
}.

Definition ReceiptAcknowledgementV1_append_fields (a : ReceiptAcknowledgementV1) (output : bytes) : bytes :=
  output ++ u16be (ra_schema a) ++ ra_receipt_id a ++ ra_receipt_core_digest a ++ ra_request_digest a ++
  ra_endpoint_principal_id a ++ ra_endpoint_key_fingerprint a ++ u64be (ra_endpoint_key_epoch a) ++
  u64be (ra_started_at_ms a).

Definition ReceiptAcknowledgementV1_validate_shape (a : ReceiptAcknowledgementV1) : proto unit :=
  reject_if ((ra_schema a !=? 1%N) || (ra_endpoint_key_epoch a ==? 0%N) || (ra_started_at_ms a ==? 0%N))
    WP_InvalidFormat.

Definition ReceiptAcknowledgementV1_signature_preimage (a : ReceiptAcknowledgementV1) : proto bytes :=
  ReceiptAcknowledgementV1_validate_shape a;;
  Ok (ReceiptAcknowledgementV1_append_fields a (jce_v1 "jury-witness-v1/receipt/acknowledgement")).

Definition ReceiptAcknowledgementV1_canonical_bytes (a : ReceiptAcknowledgementV1) : proto bytes :=
  ReceiptAcknowledgementV1_validate_shape a;;
  Ok (ReceiptAcknowledgementV1_append_fields a [] ++ ra_signature a).

(** The reason is given exactly when the outcome is a denial. *)
Definition outcome_matches (outcome : ReceiptOutcomeV1) (reason : WitnessReasonV1) : bool :=
  match outcome with
  | RO_Approved => reason ==? R_None
  | RO_Denied => reason !=? R_None
  end.

Definition ReceiptCompletionV1_append_fields (c : ReceiptCompletionV1) (output : bytes) : bytes :=
  let output := optional_fixed
    (output ++ u16be (rcm_schema c) ++ rcm_receipt_id c ++ rcm_receipt_core_digest c)
    (rcm_acknowledgement_digest c) in
  output ++ rcm_endpoint_principal_id c ++ rcm_endpoint_key_fingerprint c ++
  u64be (rcm_endpoint_key_epoch c) ++ push (ReceiptOutcomeV1_tag (rcm_outcome c)) ++
  push (WitnessReasonV1_tag (rcm_reason c)) ++ u64be (rcm_completed_at_ms c).

Definition ReceiptCompletionV1_validate_shape (c : ReceiptCompletionV1) : proto unit :=
  reject_if
    ((rcm_schema c !=? 1%N) || (rcm_endpoint_key_epoch c ==? 0%N) || (rcm_completed_at_ms c ==? 0%N) ||
     negb (outcome_matches (rcm_outcome c) (rcm_reason c))) WP_InvalidFormat.

Definition ReceiptCompletionV1_signature_preimage (c : ReceiptCompletionV1) : proto bytes :=
  ReceiptCompletionV1_validate_shape c;;
  Ok (ReceiptCompletionV1_append_fields c (jce_v1 "jury-witness-v1/receipt/completion")).

Definition ReceiptCompletionV1_canonical_bytes (c : ReceiptCompletionV1) : proto bytes :=
  ReceiptCompletionV1_validate_shape c;;
  Ok (ReceiptCompletionV1_append_fields c [] ++ rcm_signature c).

(** [.as_ref().map(f).transpose()] *)
Definition transposeE {E A B} (f : A → result E B) (o : option A) : result E (option B) :=
  match o with
  | None => Ok None
  | Some a => b ← f a; Ok (Some b)
  end.

Section receipts.
Context `{Crypto}.

Definition ReceiptAcknowledgementV1_digest (a : ReceiptAcknowledgementV1) : proto Digest32 :=
  preimage ← ReceiptAcknowledgementV1_signature_preimage a;
  hash_signed "jury-witness-v1/receipt/acknowledgement/hash" preimage (ra_signature a).

(** ** The encoding of a receipt *)

Definition core_bytes_unchecked (r : WitnessReceiptV1) : proto bytes :=
  approvals ← mapE ApprovalDecisionV1_canonical_bytes (rc_approval_decisions r);
  decisions ← mapE WitnessDecisionV1_canonical_bytes (rc_witness_decisions r);
  checkpoint ← VaultPolicyCheckpointV1_canonical_bytes (rc_policy_checkpoint r);
  public_scope ← PublicReceiptScopeV1_canonical_bytes (rc_public_scope r);
  output ← capacity (bytes_field (u16be (rc_schema r) ++ rc_receipt_id r) (rc_request_signature_preimage r));
  let output := output ++ rc_client_signature r ++ rc_request_digest r ++ rc_action_manifest_digest r ++
                rc_presentation_digest r in
  output ← capacity (bytes_field output public_scope);
  output ← capacity (list_bytes output approvals);
  output ← capacity (list_bytes output decisions);
  output ← capacity (bytes_field output checkpoint);
  output ← capacity (bytes_field output (rc_witness_policy_material r));
  let output := output ++ push (rc_approval_threshold r) ++ push (rc_witness_threshold r) in
  output ← capacity (list_fixed output (rc_counted_approver_ids r) append_fixed);
  output ← capacity (list_fixed output (rc_counted_witness_ids r) append_fixed);
  Ok (output ++ push (ReceiptOutcomeV1_tag (rc_outcome r)) ++ push (WitnessReasonV1_tag (rc_reason r)) ++
      u64be (rc_issued_at_ms r) ++ u64be (rc_expires_at_ms r)).

(** The checks before anything is encoded. *)
Definition receipt_shape (r : WitnessReceiptV1) : proto unit :=
  reject_if
    ((rc_schema r !=? 1%N) || is_empty (rc_request_signature_preimage r) ||
     is_empty (rc_witness_policy_material r) || (MAX_POLICY_ACTORS <? rc_approval_threshold r)%N ||
     negb (within 2 MAX_POLICY_ACTORS (rc_witness_threshold r)) ||
     (MAX_RECORDED_APPROVALS <? len (rc_approval_decisions r))%N ||
     (MAX_POLICY_ACTORS <? len (rc_witness_decisions r))%N ||
     (MAX_POLICY_ACTORS <? len (rc_counted_approver_ids r))%N ||
     (MAX_POLICY_ACTORS <? len (rc_counted_witness_ids r))%N ||
     negb (sorted_by_key ap_approver_id (rc_approval_decisions r)) ||
     negb (sorted_by_key wdc_witness_id (rc_witness_decisions r)) ||
     negb (sorted_by_key id (rc_counted_approver_ids r)) ||
     negb (sorted_by_key id (rc_counted_witness_ids r)) ||
     (rc_issued_at_ms r ==? 0%N) || (rc_expires_at_ms r ==? 0%N) ||
     ((rc_outcome r ==? RO_Approved) && (rc_expires_at_ms r <=? rc_issued_at_ms r)%N) ||
     negb (outcome_matches (rc_outcome r) (rc_reason r))) WP_InvalidFormat.

Definition check_acknowledgement (r : WitnessReceiptV1) (core_digest : Digest32) : proto unit :=
  match rc_endpoint_acknowledgement r with
  | None => Ok tt
  | Some acknowledgement =>
      ReceiptAcknowledgementV1_validate_shape acknowledgement;;
      reject_if
        ((ra_receipt_id acknowledgement !=? rc_receipt_id r) ||
         (ra_receipt_core_digest acknowledgement !=? core_digest) ||
         (ra_request_digest acknowledgement !=? rc_request_digest r)) WP_InvalidDigest
  end.

Definition check_completion (r : WitnessReceiptV1) (core_digest : Digest32) : proto unit :=
  match rc_endpoint_completion r with
  | None => Ok tt
  | Some completion =>
      ReceiptCompletionV1_validate_shape completion;;
      acknowledgement_digest ← transposeE ReceiptAcknowledgementV1_digest (rc_endpoint_acknowledgement r);
      reject_if
        ((rcm_receipt_id completion !=? rc_receipt_id r) ||
         (rcm_receipt_core_digest completion !=? core_digest) ||
         (rcm_acknowledgement_digest completion !=? acknowledgement_digest) ||
         (rcm_outcome completion !=? rc_outcome r) || (rcm_reason completion !=? rc_reason r)) WP_InvalidDigest
  end.

Definition validated_core (r : WitnessReceiptV1) : proto (bytes * Digest32) :=
  receipt_shape r;;
  core_bytes ← core_bytes_unchecked r;
  core_digest ← hash_bytes "jury-witness-v1/receipt/core-hash" core_bytes;
  check_acknowledgement r core_digest;;
  check_completion r core_digest;;
  Ok (core_bytes, core_digest).

Definition append_endpoint_records (r : WitnessReceiptV1) (output : bytes) : proto bytes :=
  acknowledgement ← transposeE ReceiptAcknowledgementV1_canonical_bytes (rc_endpoint_acknowledgement r);
  completion ← transposeE ReceiptCompletionV1_canonical_bytes (rc_endpoint_completion r);
  output ← capacity (optional_bytes output acknowledgement);
  capacity (optional_bytes output completion).

(** The digests of the core and of the whole receipt. *)
Definition validated_digests (r : WitnessReceiptV1) : proto (Digest32 * Digest32) :=
  '(complete, core_digest) ← validated_core r;
  complete ← append_endpoint_records r complete;
  complete_digest ← hash_bytes "jury-witness-v1/receipt/hash" complete;
  Ok (core_digest, complete_digest).
End receipts.

(** ** Verification *)

Inductive ReceiptVerificationErrorKind :=
  | RV_InvalidFormat
  | RV_InvalidPolicy
  | RV_InvalidScope
  | RV_InvalidDigest
  | RV_InvalidSignature
  | RV_InvalidQuorum
  | RV_CheckpointMismatch
  | RV_CapacityExhausted.

Abbreviation verifying := (result ReceiptVerificationErrorKind).

(** [.map_err(|_| invalid(kind))] *)
Abbreviation or_invalid r kind := (map_err (λ _, kind) r).

(** The journal and the policies a receipt is judged by. *)
Record ReceiptPolicyMaterialV1 := {
  pm_schema : N;
  pm_journal : PolicyJournalV1;
  pm_witness_policies : list WitnessPolicy;
}.

Record VerifiedWitnessGeneration := {
  vg_witness_id : PrincipalId;
  vg_state_generation : N;
  vg_decision : WitnessDecisionKindV1;
  vg_reason : WitnessReasonV1;
}.

Record VerifiedWitnessReceipt := {
  vrc_receipt_digest : Digest32;
  vrc_receipt_core_digest : Digest32;
  vrc_request_id : RequestId;
  vrc_request_digest : Digest32;
  vrc_vault_id : VaultId;
  vrc_genesis_fingerprint : Digest32;
  vrc_vault_policy_sequence : N;
  vrc_vault_policy_hash : Digest32;
  vrc_witness_policy_id : WitnessPolicyId;
  vrc_witness_policy_revision : N;
  vrc_witness_policy_digest : Digest32;
  vrc_policy_checkpoint_digest : Digest32;
  vrc_outcome : ReceiptOutcomeV1;
  vrc_reported_reason : WitnessReasonV1;
  vrc_reported_issued_at_ms : N;
  vrc_receipt_core_endpoint_authenticated : bool;
  vrc_retained_checkpoint_matched : bool;
  vrc_counted_approver_ids : list PrincipalId;
  vrc_counted_witness_ids : list PrincipalId;
  vrc_witness_generations : list VerifiedWitnessGeneration;
  vrc_endpoint_acknowledged : bool;
  vrc_endpoint_completion_recorded : bool;
}.

Record WitnessReceiptEvidence := {
  ev_receipt_id : ReceiptId;
  ev_presentation_digest : Digest32;
  ev_policy_material : bytes;
  ev_approval_decisions : list ApprovalDecisionV1;
  ev_witness_decisions : list WitnessDecisionV1;
  ev_reason : WitnessReasonV1;
  ev_issued_at_ms : N;
}.

Definition receipt_request_error (error : RequestPolicyError) : ReceiptVerificationErrorKind :=
  match error with
  | RP_Invalid => RV_InvalidFormat
  | RP_InvalidSignature => RV_InvalidSignature
  | RP_PolicyDenied | RP_WrongScope => RV_InvalidScope
  | RP_StalePolicy => RV_InvalidPolicy
  end.

Definition receipt_checkpoint_error (error : CheckpointPolicyError) : ReceiptVerificationErrorKind :=
  match error with
  | CK_Invalid => RV_InvalidFormat
  | CK_ScopeMismatch => RV_InvalidScope
  | CK_MissingOwner => RV_InvalidPolicy
  | CK_InvalidSignature => RV_InvalidSignature
  end.

Section verification.
Context `{Crypto} `{!Json ReceiptPolicyMaterialV1}.

Definition material_replay (material : ReceiptPolicyMaterialV1) : verifying PolicyState :=
  reject_if (pm_schema material !=? 1%N) RV_InvalidPolicy;;
  or_invalid (replay_policy_with_witness_policies (pm_journal material) (pm_witness_policies material))
    RV_InvalidPolicy.

Definition material_encode (material : ReceiptPolicyMaterialV1) : verifying bytes :=
  material_replay material;;
  bs ← ok_or (to_vec material) RV_InvalidPolicy;
  reject_if (MAX_POLICY_MATERIAL_BYTES <? len bs)%N RV_CapacityExhausted;;
  Ok bs.

Definition material_decode (encoded : bytes) : verifying ReceiptPolicyMaterialV1 :=
  material ← ok_or (json_parse encoded) RV_InvalidPolicy;
  bs ← material_encode material;
  reject_if (bs !=? encoded) RV_InvalidPolicy;;
  Ok material.

Definition receipt_validate_checkpoint (policy : PolicyState) (witness_policy : WitnessPolicy)
    (request : WitnessRequestV1) (checkpoint : VaultPolicyCheckpointV1) : verifying unit :=
  policies ← map_err receipt_checkpoint_error (validate_checkpoint_policy policy checkpoint);
  checkpoint_digest ← or_invalid (VaultPolicyCheckpointV1_digest checkpoint) RV_InvalidDigest;
  reject_if
    ((checkpoint_digest !=? wr_policy_checkpoint_digest request) ||
     (vc_vault_id checkpoint !=? wr_vault_id request) ||
     (vc_genesis_fingerprint checkpoint !=? wr_genesis_fingerprint request) ||
     (vc_vault_policy_sequence checkpoint !=? wr_vault_policy_sequence request) ||
     (vc_vault_policy_hash checkpoint !=? wr_vault_policy_hash request) ||
     (witness_policy ∉? policies)) RV_InvalidScope.

(** One turn of the loop over the approvals. *)
Definition check_approval (receipt : WitnessReceiptV1) (request : WitnessRequestV1)
    (witness_policy : WitnessPolicy) (intended_digest : Digest32) (decision : ApprovalDecisionV1)
    : verifying unit :=
  reject_if
    ((ap_request_id decision !=? wr_request_id request) ||
     (ap_request_digest decision !=? rc_request_digest receipt) ||
     (ap_action_manifest_digest decision !=? rc_action_manifest_digest receipt) ||
     (ap_presentation_digest decision !=? rc_presentation_digest receipt) ||
     (ap_witness_policy_id decision !=? wr_witness_policy_id request) ||
     (ap_witness_policy_revision decision !=? wr_witness_policy_revision request) ||
     (ap_witness_policy_digest decision !=? wr_witness_policy_digest request) ||
     (wr_expires_at_ms request <? ap_expires_at_ms decision)%N ||
     (saturating_add_u64 (ap_issued_at_ms decision) ACCEPTED_CLOCK_SKEW_MS <? wr_issued_at_ms request)%N ||
     (ap_intended_witness_set_digest decision !=? intended_digest)) RV_InvalidScope;;
  descriptor ← ok_or
    (List.find (λ d, (ad_status d ==? DS_Active) && (ad_approver_id d ==? ap_approver_id decision))
       (wp_approver_descriptors witness_policy)) RV_InvalidPolicy;
  reject_if
    ((ap_approval_mode decision !=? protocol_approval_mode (ad_approval_mode descriptor)) ||
     (core_operation (wr_operation request) ∉? ad_allowed_operations descriptor) ||
     (ad_signing_key_epoch descriptor !=? ap_approver_key_epoch decision) ||
     (ad_signing_key_fingerprint descriptor !=? ap_approver_key_fingerprint decision)) RV_InvalidSignature;;
  preimage ← or_invalid (ApprovalDecisionV1_signature_preimage decision) RV_InvalidFormat;
  reject_if (negb (verify_bytes (ad_signing_public_key descriptor) preimage (ap_signature decision)))
    RV_InvalidSignature.

Definition validate_approvals (receipt : WitnessReceiptV1) (request : WitnessRequestV1)
    (witness_policy : WitnessPolicy) : verifying (list PrincipalId) :=
  intended_digest ← or_invalid (request_witness_set_digest request) RV_InvalidDigest;
  foldE (λ counted decision,
    check_approval receipt request witness_policy intended_digest decision;;
    Ok (if ap_decision decision ==? AD_Approve then counted ++ [ap_approver_id decision] else counted))
    [] (rc_approval_decisions receipt).

Definition check_witness_decision (receipt : WitnessReceiptV1) (request : WitnessRequestV1)
    (witness_policy : WitnessPolicy) (decision : WitnessDecisionV1) : verifying unit :=
  reject_if
    ((wdc_request_id decision !=? wr_request_id request) ||
     (wdc_request_digest decision !=? rc_request_digest receipt) ||
     (wdc_action_manifest_digest decision !=? rc_action_manifest_digest receipt) ||
     (wdc_witness_policy_id decision !=? wr_witness_policy_id request) ||
     (wdc_witness_policy_revision decision !=? wr_witness_policy_revision request) ||
     (wdc_witness_policy_digest decision !=? wr_witness_policy_digest request) ||
     (wdc_policy_checkpoint_digest decision !=? wr_policy_checkpoint_digest request) ||
     (wr_expires_at_ms request <? wdc_expires_at_ms decision)%N ||
     (saturating_add_u64 (wdc_issued_at_ms decision) ACCEPTED_CLOCK_SKEW_MS <? wr_issued_at_ms request)%N)
    RV_InvalidScope;;
  descriptor ← ok_or
    (List.find (λ d, (wd_status d ==? DS_Active) && (wd_witness_id d ==? wdc_witness_id decision))
       (wp_witness_descriptors witness_policy)) RV_InvalidPolicy;
  reject_if
    ((wd_signing_key_epoch descriptor !=? wdc_witness_signing_key_epoch decision) ||
     (wd_signing_key_fingerprint descriptor !=? wdc_witness_signing_key_fingerprint decision) ||
     ((wdc_decision decision ==? WD_Approve) &&
      (wdc_share_index decision !=? Some (wd_share_index descriptor)))) RV_InvalidSignature;;
  preimage ← or_invalid (WitnessDecisionV1_signature_preimage decision) RV_InvalidFormat;
  reject_if (negb (verify_bytes (wd_signing_public_key descriptor) preimage (wdc_signature decision)))
    RV_InvalidSignature.

Definition generation_of (decision : WitnessDecisionV1) : VerifiedWitnessGeneration := {|
  vg_witness_id := wdc_witness_id decision;
  vg_state_generation := wdc_state_generation decision;
  vg_decision := wdc_decision decision;
  vg_reason := wdc_reason decision;
|}.

Definition validate_witness_decisions (receipt : WitnessReceiptV1) (request : WitnessRequestV1)
    (witness_policy : WitnessPolicy) : verifying (list PrincipalId * list VerifiedWitnessGeneration) :=
  foldE (λ '(counted, generations) decision,
    check_witness_decision receipt request witness_policy decision;;
    Ok (if wdc_decision decision ==? WD_Approve then counted ++ [wdc_witness_id decision] else counted,
        generations ++ [generation_of decision]))
    ([], []) (rc_witness_decisions receipt).

(** The endpoint is the requester, with the key the policy has for it. *)
Definition validate_acknowledgement (receipt : WitnessReceiptV1) (request : WitnessRequestV1)
    (key : VerificationPublicKey32) (expected_fingerprint : Digest32) : verifying unit :=
  match rc_endpoint_acknowledgement receipt with
  | None => Ok tt
  | Some acknowledgement =>
      reject_if
        ((ra_endpoint_principal_id acknowledgement !=? wr_requester_principal_id request) ||
         (ra_endpoint_key_epoch acknowledgement !=? 1%N) ||
         (ra_endpoint_key_fingerprint acknowledgement !=? expected_fingerprint) ||
         (ra_started_at_ms acknowledgement <? rc_issued_at_ms receipt)%N ||
         (rc_expires_at_ms receipt <? ra_started_at_ms acknowledgement)%N) RV_InvalidScope;;
      preimage ← or_invalid (ReceiptAcknowledgementV1_signature_preimage acknowledgement) RV_InvalidFormat;
      reject_if (negb (verify_bytes key preimage (ra_signature acknowledgement))) RV_InvalidSignature
  end.

Definition validate_completion (receipt : WitnessReceiptV1) (request : WitnessRequestV1)
    (key : VerificationPublicKey32) (expected_fingerprint : Digest32) : verifying unit :=
  match rc_endpoint_completion receipt with
  | None => Ok tt
  | Some completion =>
      let earliest := if rc_endpoint_acknowledgement receipt is Some acknowledgement
                      then ra_started_at_ms acknowledgement else rc_issued_at_ms receipt in
      reject_if
        ((rcm_endpoint_principal_id completion !=? wr_requester_principal_id request) ||
         (rcm_endpoint_key_epoch completion !=? 1%N) ||
         (rcm_endpoint_key_fingerprint completion !=? expected_fingerprint) ||
         (rcm_completed_at_ms completion <? earliest)%N) RV_InvalidScope;;
      preimage ← or_invalid (ReceiptCompletionV1_signature_preimage completion) RV_InvalidFormat;
      reject_if (negb (verify_bytes key preimage (rcm_signature completion))) RV_InvalidSignature
  end.

Definition validate_endpoint_records (receipt : WitnessReceiptV1) (request : WitnessRequestV1)
    (policy : PolicyState) : verifying unit :=
  requester ← ok_or (ps_principals policy !! wr_requester_principal_id request) RV_InvalidPolicy;
  let key := pd_verification_public_key (pp_descriptor requester) in
  let expected_fingerprint := signing_key_fingerprint 1 (wr_requester_principal_id request) 1 key in
  validate_acknowledgement receipt request key expected_fingerprint;;
  validate_completion receipt request key expected_fingerprint.

(** The receipt repeats what its request says, and was issued in time. *)
Definition receipt_out_of_scope (receipt : WitnessReceiptV1) (request : WitnessRequestV1)
    (request_digest : Digest32) : bool :=
  (request_digest !=? rc_request_digest receipt) ||
  (wr_action_manifest_digest request !=? rc_action_manifest_digest receipt) ||
  (wr_action_manifest_digest request !=? sp_action_manifest_digest (rc_public_scope receipt)) ||
  (rc_public_scope receipt !=? from_request request) ||
  (rc_expires_at_ms receipt !=? wr_expires_at_ms request) ||
  (saturating_add_u64 (rc_issued_at_ms receipt) ACCEPTED_CLOCK_SKEW_MS <? wr_issued_at_ms request)%N ||
  ((rc_outcome receipt ==? RO_Approved) && (wr_expires_at_ms request <=? rc_issued_at_ms receipt)%N).

(** Enough of each, as the rule demands. *)
Definition quorum_approved (rule : WitnessAccessRule) (approvers witnesses : list PrincipalId) : bool :=
  (war_approval_threshold rule <=? len approvers)%N && (war_witness_threshold rule <=? len witnesses)%N.

Definition quorum_invalid (receipt : WitnessReceiptV1) (rule : WitnessAccessRule)
    (counted_approvers counted_witnesses : list PrincipalId) : bool :=
  (counted_approvers !=? rc_counted_approver_ids receipt) ||
  (counted_witnesses !=? rc_counted_witness_ids receipt) ||
  existsb (λ id, id ∉? war_eligible_approver_ids rule) counted_approvers ||
  existsb (λ id, id ∉? war_witness_ids rule) counted_witnesses ||
  ((rc_outcome receipt ==? RO_Approved) !=? quorum_approved rule counted_approvers counted_witnesses).

Definition verify_witness_receipt_with_policy (receipt : WitnessReceiptV1) (policy : PolicyState)
    (checkpoint : option VaultPolicyCheckpointV1) : verifying VerifiedWitnessReceipt :=
  '(receipt_core_digest, receipt_digest) ← or_invalid (validated_digests receipt) RV_InvalidFormat;
  reject_if (if checkpoint is Some expected then expected !=? rc_policy_checkpoint receipt else false)
    RV_CheckpointMismatch;;
  request ← or_invalid (from_signature_preimage (rc_request_signature_preimage receipt)
                          (rc_client_signature receipt)) RV_InvalidFormat;
  request_digest ← or_invalid (WitnessRequestV1_digest request) RV_InvalidDigest;
  reject_if (receipt_out_of_scope receipt request request_digest) RV_InvalidScope;;
  validated ← map_err receipt_request_error (validate_request_policy policy request);
  let witness_policy := vrp_policy validated in
  receipt_validate_checkpoint policy witness_policy request (rc_policy_checkpoint receipt);;
  let rule := vrp_rule validated in
  reject_if ((rc_approval_threshold receipt !=? war_approval_threshold rule) ||
             (rc_witness_threshold receipt !=? war_witness_threshold rule)) RV_InvalidQuorum;;
  intended_digest ← or_invalid (request_witness_set_digest request) RV_InvalidDigest;
  expected_intended_digest ← or_invalid (intended_witness_set_digest policy (wr_item_id request)) RV_InvalidPolicy;
  reject_if (intended_digest !=? expected_intended_digest) RV_InvalidScope;;
  counted_approvers ← validate_approvals receipt request witness_policy;
  '(counted_witnesses, witness_generations) ← validate_witness_decisions receipt request witness_policy;
  reject_if (quorum_invalid receipt rule counted_approvers counted_witnesses) RV_InvalidQuorum;;
  validate_endpoint_records receipt request policy;;
  policy_checkpoint_digest ← or_invalid (VaultPolicyCheckpointV1_digest (rc_policy_checkpoint receipt))
                               RV_InvalidDigest;
  Ok {| vrc_receipt_digest := receipt_digest;
        vrc_receipt_core_digest := receipt_core_digest;
        vrc_request_id := wr_request_id request;
        vrc_request_digest := request_digest;
        vrc_vault_id := wr_vault_id request;
        vrc_genesis_fingerprint := wr_genesis_fingerprint request;
        vrc_vault_policy_sequence := wr_vault_policy_sequence request;
        vrc_vault_policy_hash := wr_vault_policy_hash request;
        vrc_witness_policy_id := wr_witness_policy_id request;
        vrc_witness_policy_revision := wr_witness_policy_revision request;
        vrc_witness_policy_digest := wr_witness_policy_digest request;
        vrc_policy_checkpoint_digest := policy_checkpoint_digest;
        vrc_outcome := rc_outcome receipt;
        vrc_reported_reason := rc_reason receipt;
        vrc_reported_issued_at_ms := rc_issued_at_ms receipt;
        vrc_receipt_core_endpoint_authenticated :=
          is_set (rc_endpoint_acknowledgement receipt) || is_set (rc_endpoint_completion receipt);
        vrc_retained_checkpoint_matched := is_set checkpoint;
        vrc_counted_approver_ids := counted_approvers;
        vrc_counted_witness_ids := counted_witnesses;
        vrc_witness_generations := witness_generations;
        vrc_endpoint_acknowledged := is_set (rc_endpoint_acknowledgement receipt);
        vrc_endpoint_completion_recorded := is_set (rc_endpoint_completion receipt) |}.

Definition verify_witness_receipt (receipt : WitnessReceiptV1) (checkpoint : option VaultPolicyCheckpointV1)
    : verifying VerifiedWitnessReceipt :=
  material ← material_decode (rc_witness_policy_material receipt);
  policy ← material_replay material;
  verify_witness_receipt_with_policy receipt policy checkpoint.

(** ** Assembly *)

(** A receipt before the endpoint has signed anything. *)
Definition receipt_of (request : WitnessRequestV1) (checkpoint : VaultPolicyCheckpointV1)
    (evidence : WitnessReceiptEvidence) (rule : WitnessAccessRule) (preimage : bytes) (request_digest : Digest32)
    (approvals : list ApprovalDecisionV1) (decisions : list WitnessDecisionV1)
    (counted_approver_ids counted_witness_ids : list PrincipalId) (outcome : ReceiptOutcomeV1)
    : WitnessReceiptV1 := {|
  rc_schema := 1;
  rc_receipt_id := ev_receipt_id evidence;
  rc_request_signature_preimage := preimage;
  rc_client_signature := wr_client_signature request;
  rc_request_digest := request_digest;
  rc_action_manifest_digest := wr_action_manifest_digest request;
  rc_presentation_digest := ev_presentation_digest evidence;
  rc_public_scope := from_request request;
  rc_approval_decisions := approvals;
  rc_witness_decisions := decisions;
  rc_policy_checkpoint := checkpoint;
  rc_witness_policy_material := ev_policy_material evidence;
  rc_approval_threshold := war_approval_threshold rule;
  rc_witness_threshold := war_witness_threshold rule;
  rc_counted_approver_ids := counted_approver_ids;
  rc_counted_witness_ids := counted_witness_ids;
  rc_outcome := outcome;
  rc_reason := ev_reason evidence;
  rc_issued_at_ms := ev_issued_at_ms evidence;
  rc_expires_at_ms := wr_expires_at_ms request;
  rc_endpoint_acknowledgement := None;
  rc_endpoint_completion := None;
|}.

Definition counted_approvers_of (approvals : list ApprovalDecisionV1) : list PrincipalId :=
  ap_approver_id <$> List.filter (λ decision, ap_decision decision ==? AD_Approve) approvals.

Definition counted_witnesses_of (decisions : list WitnessDecisionV1) : list PrincipalId :=
  wdc_witness_id <$> List.filter (λ decision, wdc_decision decision ==? WD_Approve) decisions.

(** The order that [sort_unstable_by_key] gives decisions of one signer does not
    matter: the verification at the end refuses two of them. *)
Definition assemble_witness_receipt (policy : PolicyState) (request : WitnessRequestV1)
    (checkpoint : VaultPolicyCheckpointV1) (evidence : WitnessReceiptEvidence) : verifying WitnessReceiptV1 :=
  embedded ← material_decode (ev_policy_material evidence);
  replayed ← material_replay embedded;
  reject_if (replayed !=? policy) RV_InvalidPolicy;;
  rule ← or_invalid (witness_access_rule policy (wr_item_id request) (core_operation (wr_operation request)))
           RV_InvalidPolicy;
  let approvals := sort_by_key ap_approver_id (ev_approval_decisions evidence) in
  let decisions := sort_by_key wdc_witness_id (ev_witness_decisions evidence) in
  let counted_approver_ids := counted_approvers_of approvals in
  let counted_witness_ids := counted_witnesses_of decisions in
  outcome ←
    (if quorum_approved rule counted_approver_ids counted_witness_ids then
       reject_if (ev_reason evidence !=? R_None) RV_InvalidQuorum;; Ok RO_Approved
     else
       reject_if (ev_reason evidence ==? R_None) RV_InvalidQuorum;; Ok RO_Denied);
  preimage ← or_invalid (WitnessRequestV1_signature_preimage request) RV_InvalidFormat;
  reject_if (MAX_REQUEST_BYTES <? len preimage)%N RV_InvalidFormat;;
  request_digest ← or_invalid (WitnessRequestV1_digest request) RV_InvalidDigest;
  let receipt := receipt_of request checkpoint evidence rule preimage request_digest approvals decisions
                   counted_approver_ids counted_witness_ids outcome in
  verify_witness_receipt_with_policy receipt policy (Some checkpoint);;
  Ok receipt.
End verification.
