(* ===== verification/WitnessEngine.v ===== *)
(** * The witness engine

    [crates/jury-core/src/witness_engine.rs] with [state.rs], [requests.rs] and
    [operations.rs]: the replay table of a witness, the anchor that commits to
    it, and the operations a witness serves. The store, the external anchor, the
    source of randomness and the identity are the engine's parameters, as they
    are type parameters of [WitnessEngine]; the wall clock is read once per
    operation and is an argument of it. Each operation is a computation on the
    store, the anchor and the random source that leaves them changed also when
    it fails. *)

From S2P Require Import Prelude VaultTypes Canonical Preimage WitnessPolicy PolicyState Identifiers Text Effects WitnessMessages WitnessValidation.
Local Open Scope jury_scope.

(** ** State *)

Record RegisteredWitnessVault := {
  rv_accepted_registration : bytes;
  rv_current_checkpoint : VaultPolicyCheckpointV1;
  rv_current_policy_material : bytes;
}.

Record WitnessReplayEntry := {
  re_request : WitnessRequestV1;
  re_action_manifest_digest : Digest32;
  re_state : ReplayStateV1;
  re_retain_through_ms : N;
  re_approvals : list ApprovalDecisionV1;
  re_cancellation : option bytes;
  re_response : option WitnessResponseV1;
}.

Abbreviation replay_key := (VaultId * RequestId)%type.

Record WitnessLogicalState := {
  ls_witness_id : PrincipalId;
  ls_state_generation : N;
  ls_vaults : gmap VaultId RegisteredWitnessVault;
  ls_replay : gmap replay_key WitnessReplayEntry;
  ls_last_accepted_wall_time_ms : N;
}.

Record PersistedWitnessState := {
  pw_logical : WitnessLogicalState;
  pw_published_anchor : option WitnessStateAnchorV1;
  pw_pending_anchor : option WitnessStateAnchorV1;
}.

Definition WitnessLogicalState_empty (witness_id : PrincipalId) : WitnessLogicalState := {|
  ls_witness_id := witness_id;
  ls_state_generation := 0;
  ls_vaults := ∅;
  ls_replay := ∅;
  ls_last_accepted_wall_time_ms := 0;
|}.

Definition PersistedWitnessState_empty (witness_id : PrincipalId) : PersistedWitnessState := {|
  pw_logical := WitnessLogicalState_empty witness_id;
  pw_published_anchor := None;
  pw_pending_anchor := None;
|}.

Definition set_vaults (vaults : gmap VaultId RegisteredWitnessVault) (s : PersistedWitnessState)
    : PersistedWitnessState :=
  let l := pw_logical s in
  {| pw_logical := {| ls_witness_id := ls_witness_id l; ls_state_generation := ls_state_generation l;
       ls_vaults := vaults; ls_replay := ls_replay l;
       ls_last_accepted_wall_time_ms := ls_last_accepted_wall_time_ms l |};
     pw_published_anchor := pw_published_anchor s; pw_pending_anchor := pw_pending_anchor s |}.

Definition set_replay (replay : gmap replay_key WitnessReplayEntry) (s : PersistedWitnessState)
    : PersistedWitnessState :=
  let l := pw_logical s in
  {| pw_logical := {| ls_witness_id := ls_witness_id l; ls_state_generation := ls_state_generation l;
       ls_vaults := ls_vaults l; ls_replay := replay;
       ls_last_accepted_wall_time_ms := ls_last_accepted_wall_time_ms l |};
     pw_published_anchor := pw_published_anchor s; pw_pending_anchor := pw_pending_anchor s |}.

(** The next generation, at the later of the two times. *)
Definition set_generation (generation wall_time : N) (s : PersistedWitnessState) : PersistedWitnessState :=
  let l := pw_logical s in
  {| pw_logical := {| ls_witness_id := ls_witness_id l; ls_state_generation := generation;
       ls_vaults := ls_vaults l; ls_replay := ls_replay l;
       ls_last_accepted_wall_time_ms := wall_time |};
     pw_published_anchor := pw_published_anchor s; pw_pending_anchor := pw_pending_anchor s |}.

Definition set_pending_anchor (anchor : option WitnessStateAnchorV1) (s : PersistedWitnessState)
    : PersistedWitnessState :=
  {| pw_logical := pw_logical s; pw_published_anchor := pw_published_anchor s; pw_pending_anchor := anchor |}.

(** ** The canonical database state *)

(** [BoundedBytes::new(bytes).map_err(..)] *)
Definition bounded (maximum : N) (bs : bytes) : checked bytes :=
  refuse_if (maximum <? len bs)%N R_CapacityExhausted;; Ok bs.

Section canonical.
Context `{Crypto}.

Definition vault_to_protocol (e : VaultId * RegisteredWitnessVault) : checked WitnessVaultStateV1 :=
  let '(vault_id, vault) := e in
  checkpoint ← or_refuse (VaultPolicyCheckpointV1_canonical_bytes (rv_current_checkpoint vault)) R_Invalid;
  checkpoint ← bounded 65536 checkpoint;
  Ok {| vst_schema := 1; vst_vault_id := vault_id;
        vst_genesis_fingerprint := vc_genesis_fingerprint (rv_current_checkpoint vault);
        vst_accepted_registration := rv_accepted_registration vault;
        vst_current_checkpoint := checkpoint;
        vst_current_policy_material := rv_current_policy_material vault |}.

Definition approval_to_protocol (a : ApprovalDecisionV1) : checked bytes :=
  bs ← or_refuse (ApprovalDecisionV1_canonical_bytes a) R_Invalid;
  bounded MAX_APPROVAL_BYTES bs.

Definition response_to_protocol (r : WitnessResponseV1) : checked bytes :=
  bs ← or_refuse (WitnessResponseV1_canonical_bytes r) R_Invalid;
  bounded MAX_RESPONSE_BYTES bs.

(** [Option::map(..).transpose()] *)
Definition transpose {E A B} (f : A → result E B) (o : option A) : result E (option B) :=
  match o with Some a => Some <$> f a | None => Ok None end.

Definition to_protocol (e : replay_key * WitnessReplayEntry) : checked WitnessReplayRecordV1 :=
  let '((vault_id, request_id), entry) := e in
  request_message ← or_refuse (WitnessRequestV1_canonical_bytes (re_request entry)) R_Invalid;
  request_message ← bounded MAX_REQUEST_BYTES request_message;
  approvals ← mapE approval_to_protocol (re_approvals entry);
  response ← transpose response_to_protocol (re_response entry);
  request_digest ← or_refuse (WitnessRequestV1_digest (re_request entry)) R_Invalid;
  Ok {| rec_schema := 1; rec_vault_id := vault_id; rec_request_id := request_id;
        rec_request_digest := request_digest; rec_request_message := request_message;
        rec_action_manifest_digest := re_action_manifest_digest entry; rec_state := re_state entry;
        rec_expires_at_ms := wr_expires_at_ms (re_request entry);
        rec_retain_through_ms := re_retain_through_ms entry; rec_approval_decisions := approvals;
        rec_cancellation := re_cancellation entry; rec_witness_response := response |}.

Definition canonical_database_state (s : WitnessLogicalState) : checked WitnessDatabaseStateV1 :=
  vault_states ← mapE vault_to_protocol (entries (ls_vaults s));
  replay_records ← mapE to_protocol (entries (ls_replay s));
  Ok {| db_schema := 1; db_witness_id := ls_witness_id s; db_state_generation := ls_state_generation s;
        db_vault_states := vault_states; db_replay_records := replay_records;
        db_last_accepted_wall_time_ms := ls_last_accepted_wall_time_ms s |}.

(** [canonical_database_state()?.digest().map_err(..)?] *)
Definition database_digest (s : WitnessLogicalState) : checked Digest32 :=
  db ← canonical_database_state s;
  or_refuse (WitnessDatabaseStateV1_digest db) R_Invalid.

(** [anchor.map(digest).transpose()?.unwrap_or(ZERO_DIGEST)] *)
Definition predecessor_digest (anchor : option WitnessStateAnchorV1) : checked Digest32 :=
  match anchor with
  | Some a => or_refuse (WitnessStateAnchorV1_digest a) R_Invalid
  | None => Ok ZERO_DIGEST
  end.
End canonical.

(** ** The engine's parameters *)

Inductive WitnessStoreErrorKind := ST_Unavailable | ST_CapacityExhausted.
Inductive WitnessAnchorErrorKind := AN_Unavailable | AN_CapacityExhausted.
Inductive AnchorCompareAndSwap := Published | Conflict.

Definition map_store_error (e : WitnessStoreErrorKind) : WitnessEngineErrorKind :=
  match e with ST_Unavailable => StoreUnavailable | ST_CapacityExhausted => Refused R_CapacityExhausted end.

Definition map_anchor_error (e : WitnessAnchorErrorKind) : WitnessEngineErrorKind :=
  match e with AN_Unavailable => AnchorUnavailable | AN_CapacityExhausted => Refused R_CapacityExhausted end.

Class WitnessStateStore (S : Type) := {
  load : eff WitnessStoreErrorKind S PersistedWitnessState;
  commit : N → PersistedWitnessState → eff WitnessStoreErrorKind S unit;
  mark_anchor_published : Digest32 → eff WitnessStoreErrorKind S unit;
}.

Class ExternalWitnessAnchor (A : Type) := {
  ensure_publishable : WitnessStateAnchorV1 → eff WitnessAnchorErrorKind A unit;
  read : eff WitnessAnchorErrorKind A (option WitnessStateAnchorV1);
  compare_and_swap : option WitnessStateAnchorV1 → WitnessStateAnchorV1 →
    eff WitnessAnchorErrorKind A AnchorCompareAndSwap;
}.

Record WitnessContributionTarget := {
  ct_request_digest : Digest32;
  ct_action_manifest_digest : Digest32;
  ct_response_id : ResponseId;
  ct_checkpoint_digest : Digest32;
  ct_capsule_set_digest : Digest32;
  ct_session_public_key : RecipientPublicKey1216;
  ct_session_fingerprint : Digest32;
  ct_expires_at_ms : N;
}.

(** The error carries nothing ([WitnessIdentityOperationError]). *)
Class WitnessEngineIdentity (I R : Type) := {
  principal_id : I → PrincipalId;
  public_descriptor : I → result unit PrincipalDescriptorV1;
  sign_witness_statement : I → bytes → result unit Signature64;
  seal_witness_contribution : I → VaultSuite → WitnessShareCapsuleV1 → WitnessContributionTarget →
    eff unit R WitnessContributionEnvelopeV1;
}.

Inductive WitnessProgress :=
  | Progress_Reserved
  | Progress_Pending
  | Progress_Stable (response : WitnessResponseV1).

Inductive CancellationProgress :=
  | Cancelled_ (response : WitnessResponseV1)
  | TooLate (response : WitnessResponseV1).

Record WitnessOperationalStatus := {
  os_witness_id : PrincipalId;
  os_state_generation : N;
  os_replay_record_count : N;
  os_compactable_replay_record_count : N;
  os_replay_retain_through_ms : N;
  os_published_anchor : option WitnessStateAnchorV1;
}.

Record ValidatedRequest := {
  vr_suite : VaultSuite;
  vr_rule : WitnessAccessRule;
  vr_policy : WitnessPolicy;
  vr_capsule : WitnessShareCapsuleV1;
  vr_capsule_set_digest : Digest32;
}.

(** What the engine borrows mutably. *)
Record Engine (S A R : Type) := { en_store : S; en_anchor : A; en_random : R }.

Arguments en_store {S A R}. 
Arguments en_anchor {S A R}.
Arguments en_random {S A R}.

(** ** The engine *)

Section engine.
Context `{Crypto}.
Context {S A R I : Type} `{WitnessStateStore S} `{ExternalWitnessAnchor A} `{RandomSource R}
  `{WitnessEngineIdentity I R}.
Context (identity : I).

Abbreviation engine := (eff WitnessEngineErrorKind (Engine S A R)).

Definition on_store {T} (m : eff WitnessStoreErrorKind S T) : engine T := λ e,
  let '(r, s) := m (en_store e) in
  (map_err map_store_error r, {| en_store := s; en_anchor := en_anchor e; en_random := en_random e |}).

Definition on_anchor {T} (m : eff WitnessAnchorErrorKind A T) : engine T := λ e,
  let '(r, a) := m (en_anchor e) in
  (map_err map_anchor_error r, {| en_store := en_store e; en_anchor := a; en_random := en_random e |}).

Definition on_random {E T} (m : eff E R T) (reason : WitnessReasonV1) : engine T := λ e,
  let '(r, x) := m (en_random e) in
  (or_refuse r reason, {| en_store := en_store e; en_anchor := en_anchor e; en_random := x |}).

(** *** Anchors *)

Definition validate_stored_identity (state : PersistedWitnessState) : checked unit :=
  let l := pw_logical state in
  refuse_if (ls_witness_id l !=? principal_id identity) R_RestoredStateUnsafe;;
  refuse_if
    ((ls_state_generation l =? 0)%N &&
     (negb (bool_decide (ls_vaults l = ∅)) || negb (bool_decide (ls_replay l = ∅)) ||
      (ls_last_accepted_wall_time_ms l !=? 0%N) || is_set (pw_published_anchor state) ||
      is_set (pw_pending_anchor state))) R_RestoredStateUnsafe.

Definition validate_anchor (anchor : WitnessStateAnchorV1) : checked unit :=
  descriptor ← or_refuse (public_descriptor identity) R_InternalFailure;
  refuse_if
    ((sa_witness_id anchor !=? pd_principal_id descriptor) ||
     (sa_witness_signing_key_epoch anchor !=? 1%N) ||
     (sa_witness_signing_key_fingerprint anchor !=?
      signing_key_fingerprint 3 (pd_principal_id descriptor) 1 (pd_verification_public_key descriptor)))
    R_RestoredStateUnsafe;;
  preimage ← or_refuse (WitnessStateAnchorV1_signature_preimage anchor) R_Invalid;
  refuse_if (negb (verify_bytes (pd_verification_public_key descriptor) preimage (sa_signature anchor)))
    R_RestoredStateUnsafe.

(** What the stored state and the anchor that was read have to satisfy. *)
Definition published_equality (state : PersistedWitnessState) (external : option WitnessStateAnchorV1)
    : checked unit :=
  match pw_published_anchor state, external with
  | None, None =>
      refuse_if (negb (ls_state_generation (pw_logical state) =? 0)%N) R_AnchorConflict
  | Some local, Some external =>
      equal ← exact_anchor_eq local external;
      refuse_if (negb equal || (sa_state_generation local !=? ls_state_generation (pw_logical state)))
        R_AnchorConflict;;
      digest ← database_digest (pw_logical state);
      refuse_if (sa_database_state_digest local !=? digest) R_AnchorConflict;;
      validate_anchor local
  | _, _ => Err (Refused R_AnchorConflict)
  end.

Definition require_published_equality (state : PersistedWitnessState) : engine unit :=
  external ← on_anchor read;
  lift (published_equality state external).

Definition mark_published (candidate : WitnessStateAnchorV1) : engine unit :=
  digest ← lift (or_refuse (WitnessStateAnchorV1_digest candidate) R_Invalid);
  on_store (mark_anchor_published digest).

(** [anchor.is_some_and(|a| exact_anchor_eq(a, candidate).unwrap_or(false))] *)
Definition is_candidate (anchor : option WitnessStateAnchorV1) (candidate : WitnessStateAnchorV1) : bool :=
  match anchor with
  | Some a => match exact_anchor_eq a candidate with Ok equal => equal | Err _ => false end
  | None => false
  end.

(** The anchor that is pending is the one for the stored state. *)
Definition validate_pending (state : PersistedWitnessState) : checked WitnessStateAnchorV1 :=
  candidate ← ok_or (pw_pending_anchor state) (Refused R_AnchorConflict);
  validate_anchor candidate;;
  digest ← database_digest (pw_logical state);
  expected_predecessor ← predecessor_digest (pw_published_anchor state);
  refuse_if
    ((sa_state_generation candidate !=? ls_state_generation (pw_logical state)) ||
     (sa_database_state_digest candidate !=? digest) ||
     (sa_predecessor_anchor_digest candidate !=? expected_predecessor)) R_AnchorConflict;;
  Ok candidate.

Definition predecessor_matches (published external : option WitnessStateAnchorV1) : checked bool :=
  match published, external with
  | None, None => Ok true
  | Some expected, Some actual => exact_anchor_eq expected actual
  | _, _ => Ok false
  end.

Definition publish_pending (state : PersistedWitnessState) : engine unit :=
  candidate ← lift (validate_pending state);
  external ← on_anchor read;
  if is_candidate external candidate then mark_published candidate else
  matches ← lift (predecessor_matches (pw_published_anchor state) external);
  lift (refuse_if (negb matches) R_AnchorConflict);;
  outcome ← on_anchor (compare_and_swap (pw_published_anchor state) candidate);
  match outcome with
  | Published => mret tt
  | Conflict =>
      observed ← on_anchor read;
      lift (refuse_if (negb (is_candidate observed candidate)) R_AnchorConflict)
  end;;
  readback ← on_anchor read;
  readback ← lift (ok_or readback (Refused R_AnchorConflict));
  equal ← lift (exact_anchor_eq readback candidate);
  lift (refuse_if (negb equal) R_AnchorConflict);;
  mark_published candidate.

Definition ready_state : engine PersistedWitnessState :=
  state ← on_store load;
  lift (validate_stored_identity state);;
  (if is_set (pw_pending_anchor state) then publish_pending state else require_published_equality state);;
  ready ← on_store load;
  lift (validate_stored_identity ready);;
  lift (refuse_if (is_set (pw_pending_anchor ready)) R_AnchorConflict);;
  require_published_equality ready;;
  mret ready.

Definition highest_expiry (l : WitnessLogicalState) (vault_id : VaultId) : N :=
  foldr N.max 0%N
    ((λ e, wr_expires_at_ms (re_request e.2)) <$>
     List.filter (λ e : replay_key * WitnessReplayEntry, e.1.1 ==? vault_id) (entries (ls_replay l))).

Definition watermark (l : WitnessLogicalState) (e : VaultId * RegisteredWitnessVault)
    : checked VaultHighWatermarkV1 :=
  let '(vault_id, vault) := e in
  let checkpoint := rv_current_checkpoint vault in
  digest ← or_refuse (VaultPolicyCheckpointV1_digest checkpoint) R_Invalid;
  Ok {| hw_vault_id := vault_id; hw_genesis_fingerprint := vc_genesis_fingerprint checkpoint;
        hw_policy_sequence := vc_vault_policy_sequence checkpoint; hw_checkpoint_digest := digest;
        hw_highest_retained_request_expiry_ms := highest_expiry l vault_id |}.

Definition replay_retain_through (l : WitnessLogicalState) : N :=
  foldr N.max 0%N (re_retain_through_ms <$> values (ls_replay l)).

Definition set_anchor_signature (signature : Signature64) (a : WitnessStateAnchorV1) : WitnessStateAnchorV1 := {|
  sa_schema := sa_schema a; sa_witness_id := sa_witness_id a;
  sa_witness_signing_key_fingerprint := sa_witness_signing_key_fingerprint a;
  sa_witness_signing_key_epoch := sa_witness_signing_key_epoch a;
  sa_state_generation := sa_state_generation a;
  sa_database_state_digest := sa_database_state_digest a;
  sa_vault_high_watermarks := sa_vault_high_watermarks a;
  sa_replay_retain_through_ms := sa_replay_retain_through_ms a;
  sa_last_accepted_wall_time_ms := sa_last_accepted_wall_time_ms a;
  sa_predecessor_anchor_digest := sa_predecessor_anchor_digest a;
  sa_issued_at_ms := sa_issued_at_ms a; sa_signature := signature |}.

Definition ZERO_SIGNATURE : Signature64 := replicate 64 Byte.x00.

Definition build_anchor (state : PersistedWitnessState) (now_ms : N) : checked WitnessStateAnchorV1 :=
  let l := pw_logical state in
  descriptor ← or_refuse (public_descriptor identity) R_InternalFailure;
  database_state_digest ← database_digest l;
  vault_high_watermarks ← mapE (watermark l) (entries (ls_vaults l));
  predecessor_anchor_digest ← predecessor_digest (pw_published_anchor state);
  let anchor := {|
    sa_schema := 1;
    sa_witness_id := pd_principal_id descriptor;
    sa_witness_signing_key_fingerprint :=
      signing_key_fingerprint 3 (pd_principal_id descriptor) 1 (pd_verification_public_key descriptor);
    sa_witness_signing_key_epoch := 1;
    sa_state_generation := ls_state_generation l;
    sa_database_state_digest := database_state_digest;
    sa_vault_high_watermarks := vault_high_watermarks;
    sa_replay_retain_through_ms := replay_retain_through l;
    sa_last_accepted_wall_time_ms := ls_last_accepted_wall_time_ms l;
    sa_predecessor_anchor_digest := predecessor_anchor_digest;
    sa_issued_at_ms := now_ms;
    sa_signature := ZERO_SIGNATURE |} in
  preimage ← or_refuse (WitnessStateAnchorV1_signature_preimage anchor) R_Invalid;
  signature ← or_refuse (sign_witness_statement identity preimage) R_InternalFailure;
  Ok (set_anchor_signature signature anchor).

Definition commit_and_publish (state : PersistedWitnessState) (now_ms : N) : engine PersistedWitnessState :=
  let expected_generation := ls_state_generation (pw_logical state) in
  generation ← lift (ok_or (checked_add_u64 expected_generation 1) (Refused R_CapacityExhausted));
  let state := set_generation generation
    (N.max (ls_last_accepted_wall_time_ms (pw_logical state)) now_ms) state in
  candidate ← lift (build_anchor state now_ms);
  on_anchor (ensure_publishable candidate);;
  on_store (commit expected_generation (set_pending_anchor (Some candidate) state));;
  ready_state.

Definition require_safe_clock (state : PersistedWitnessState) (now_ms : N) : checked unit :=
  refuse_if (skewed now_ms <? ls_last_accepted_wall_time_ms (pw_logical state))%N R_UnsafeClock.

(** *** Checkpoints and requests against the identity *)

Definition own_descriptor_matches (own : PrincipalDescriptorV1) (d : WitnessPolicyDescriptor) : bool :=
  (wd_status d ==? DS_Active) && (wd_witness_id d ==? pd_principal_id own) &&
  (wd_signing_public_key d ==? pd_verification_public_key own) &&
  (wd_contribution_public_key d ==? pd_recipient_public_key own).

Definition validate_checkpoint (policy : PolicyState) (checkpoint : VaultPolicyCheckpointV1) : checked unit :=
  policies ← validate_checkpoint_public policy checkpoint;
  own ← or_refuse (public_descriptor identity) R_InternalFailure;
  refuse_if (negb (existsb (own_descriptor_matches own) (policies ≫= wp_witness_descriptors))) R_PolicyDenied.

Definition validate_registered_checkpoint (policy : PolicyState) (checkpoint : VaultPolicyCheckpointV1)
    : checked unit :=
  refuse_if (vc_vault_policy_sequence checkpoint <? ps_sequence policy)%N R_WitnessBehind;;
  refuse_if (ps_sequence policy <? vc_vault_policy_sequence checkpoint)%N R_StalePolicy;;
  validate_checkpoint policy checkpoint.

Definition checkpoint_acknowledgement (state : PersistedWitnessState) (vault_id : VaultId)
    : checked WitnessCheckpointAcknowledgementV1 :=
  vault ← ok_or (ls_vaults (pw_logical state) !! vault_id) (Refused R_StalePolicy);
  exact_anchor ← ok_or (pw_published_anchor state) (Refused R_AnchorConflict);
  let checkpoint := rv_current_checkpoint vault in
  checkpoint_digest ← or_refuse (VaultPolicyCheckpointV1_digest checkpoint) R_Invalid;
  anchor_digest ← or_refuse (WitnessStateAnchorV1_digest exact_anchor) R_Invalid;
  let acknowledgement := {|
    ack_schema := 1;
    ack_witness_id := ls_witness_id (pw_logical state);
    ack_vault_id := vault_id;
    ack_checkpoint_digest := checkpoint_digest;
    ack_vault_policy_sequence := vc_vault_policy_sequence checkpoint;
    ack_active_witness_policy_set_digest := vc_active_witness_policy_set_digest checkpoint;
    ack_state_generation := ls_state_generation (pw_logical state);
    ack_anchor_digest := anchor_digest;
    ack_exact_anchor := exact_anchor |} in
  or_refuse (WitnessCheckpointAcknowledgementV1_validate_shape acknowledgement) R_InternalFailure;;
  Ok acknowledgement.

Definition validate_request (policy : PolicyState) (state : PersistedWitnessState)
    (request : WitnessRequestV1) (manifest : ActionManifestV1) (now_ms : N) : checked ValidatedRequest :=
  validate_request_manifest request manifest;;
  registered ← ok_or (ls_vaults (pw_logical state) !! wr_vault_id request) (Refused R_StalePolicy);
  validate_registered_checkpoint policy (rv_current_checkpoint registered);;
  checkpoint_digest ← or_refuse (VaultPolicyCheckpointV1_digest (rv_current_checkpoint registered)) R_Invalid;
  refuse_if (wr_policy_checkpoint_digest request !=? checkpoint_digest) R_StalePolicy;;
  validate_request_time request now_ms;;
  validated ← map_err map_request_policy_error (validate_manifest_policy policy request manifest);
  refuse_if (workload_exceeds manifest (vrp_rule validated)) R_WorkloadExceeded;;
  validate_automatic_rule manifest (vrp_rule validated);;
  capsule ← ok_or (List.find (λ c, wc_witness_id c ==? principal_id identity)
                     (ws_capsules (vrp_slot validated))) (Refused R_PolicyDenied);
  witness_descriptor ← ok_or
    (List.find (λ d, (wd_status d ==? DS_Active) && (wd_witness_id d ==? principal_id identity))
       (wp_witness_descriptors (vrp_policy validated))) (Refused R_PolicyDenied);
  own ← or_refuse (public_descriptor identity) R_InternalFailure;
  refuse_if
    ((wd_signing_public_key witness_descriptor !=? pd_verification_public_key own) ||
     (wd_contribution_public_key witness_descriptor !=? pd_recipient_public_key own) ||
     (wd_share_index witness_descriptor !=? wc_share_index capsule) ||
     (wd_contribution_key_fingerprint witness_descriptor !=? wc_contribution_key_fingerprint capsule))
    R_PolicyDenied;;
  suite ← ok_or (VaultSuite_from_id (ws_suite (vrp_slot validated))) (Refused R_Invalid);
  Ok {| vr_suite := suite; vr_rule := vrp_rule validated; vr_policy := vrp_policy validated;
        vr_capsule := capsule; vr_capsule_set_digest := ws_capsule_set_digest (vrp_slot validated) |}.

Definition validate_embedded_request (policy : PolicyState) (state : PersistedWitnessState)
    (request : WitnessRequestV1) (now_ms : N) : checked unit :=
  validate_request_time request now_ms;;
  registered ← ok_or (ls_vaults (pw_logical state) !! wr_vault_id request) (Refused R_StalePolicy);
  validate_registered_checkpoint policy (rv_current_checkpoint registered);;
  checkpoint_digest ← or_refuse (VaultPolicyCheckpointV1_digest (rv_current_checkpoint registered)) R_Invalid;
  refuse_if (wr_policy_checkpoint_digest request !=? checkpoint_digest) R_StalePolicy;;
  map_err map_request_policy_error (validate_request_policy policy request);;
  Ok tt.

Definition validate_approval_static (approval : ApprovalDecisionV1) (request : WitnessRequestV1)
    (manifest : ActionManifestV1) (validated : ValidatedRequest) : checked unit :=
  validate_approval_against_policy approval request manifest (vr_rule validated) (vr_policy validated).

Definition validate_approval (approval : ApprovalDecisionV1) (request : WitnessRequestV1)
    (manifest : ActionManifestV1) (validated : ValidatedRequest) (now_ms : N) : checked unit :=
  validate_approval_static approval request manifest validated;;
  refuse_if (negb (approval_is_current approval now_ms)) R_Invalid.

(** *** Responses *)

Definition random_response_id : engine ResponseId :=
  bs ← on_random (λ r, let '(o, r') := fill r 32 in (ok_or o tt, r')) R_InternalFailure;
  lift (refuse_if (is_zero bs) R_InternalFailure;; Ok bs).

Definition set_decision_signature (signature : Signature64) (d : WitnessDecisionV1) : WitnessDecisionV1 := {|
  wdc_schema := wdc_schema d; wdc_response_id := wdc_response_id d; wdc_request_id := wdc_request_id d;
  wdc_request_digest := wdc_request_digest d; wdc_action_manifest_digest := wdc_action_manifest_digest d;
  wdc_witness_id := wdc_witness_id d;
  wdc_witness_signing_key_fingerprint := wdc_witness_signing_key_fingerprint d;
  wdc_witness_signing_key_epoch := wdc_witness_signing_key_epoch d;
  wdc_witness_policy_id := wdc_witness_policy_id d;
  wdc_witness_policy_revision := wdc_witness_policy_revision d;
  wdc_witness_policy_digest := wdc_witness_policy_digest d;
  wdc_policy_checkpoint_digest := wdc_policy_checkpoint_digest d;
  wdc_state_generation := wdc_state_generation d; wdc_decision := wdc_decision d;
  wdc_reason := wdc_reason d; wdc_issued_at_ms := wdc_issued_at_ms d;
  wdc_expires_at_ms := wdc_expires_at_ms d; wdc_contribution_digest := wdc_contribution_digest d;
  wdc_share_index := wdc_share_index d; wdc_share_commitment := wdc_share_commitment d;
  wdc_signature := signature |}.

(** The decision both responses build, up to its contribution. *)
Definition unsigned_decision (response_id : ResponseId) (request : WitnessRequestV1)
    (request_digest action_manifest_digest : Digest32) (descriptor : PrincipalDescriptorV1)
    (state_generation now_ms : N) (decision : WitnessDecisionKindV1) (reason : WitnessReasonV1)
    (contribution : option (Digest32 * N * Digest32)) : WitnessDecisionV1 := {|
  wdc_schema := 1;
  wdc_response_id := response_id;
  wdc_request_id := wr_request_id request;
  wdc_request_digest := request_digest;
  wdc_action_manifest_digest := action_manifest_digest;
  wdc_witness_id := pd_principal_id descriptor;
  wdc_witness_signing_key_fingerprint :=
    signing_key_fingerprint 3 (pd_principal_id descriptor) 1 (pd_verification_public_key descriptor);
  wdc_witness_signing_key_epoch := 1;
  wdc_witness_policy_id := wr_witness_policy_id request;
  wdc_witness_policy_revision := wr_witness_policy_revision request;
  wdc_witness_policy_digest := wr_witness_policy_digest request;
  wdc_policy_checkpoint_digest := wr_policy_checkpoint_digest request;
  wdc_state_generation := state_generation;
  wdc_decision := decision;
  wdc_reason := reason;
  wdc_issued_at_ms := now_ms;
  wdc_expires_at_ms := wr_expires_at_ms request;
  wdc_contribution_digest := (λ c, c.1.1) <$> contribution;
  wdc_share_index := (λ c, c.1.2) <$> contribution;
  wdc_share_commitment := snd <$> contribution;
  wdc_signature := ZERO_SIGNATURE |}.

Definition sign_decision (decision : WitnessDecisionV1) : checked WitnessDecisionV1 :=
  preimage ← or_refuse (WitnessDecisionV1_signature_preimage decision) R_Invalid;
  signature ← or_refuse (sign_witness_statement identity preimage) R_InternalFailure;
  Ok (set_decision_signature signature decision).

Definition denial_response (request : WitnessRequestV1) (action_manifest_digest : Digest32)
    (reason : WitnessReasonV1) (state_generation now_ms : N) : engine WitnessResponseV1 :=
  response_id ← random_response_id;
  descriptor ← lift (or_refuse (public_descriptor identity) R_InternalFailure);
  request_digest ← lift (or_refuse (WitnessRequestV1_digest request) R_Invalid);
  decision ← lift (sign_decision (unsigned_decision response_id request request_digest
    action_manifest_digest descriptor state_generation now_ms WD_Deny reason None));
  mret {| resp_decision := decision; resp_contribution := None |}.

Definition approval_response (request : WitnessRequestV1) (manifest : ActionManifestV1)
    (validated : ValidatedRequest) (state_generation now_ms : N) : engine WitnessResponseV1 :=
  response_id ← random_response_id;
  request_digest ← lift (or_refuse (WitnessRequestV1_digest request) R_Invalid);
  action_manifest_digest ← lift (or_refuse (ActionManifestV1_digest manifest) R_Invalid);
  contribution ← on_random
    (seal_witness_contribution identity (vr_suite validated) (vr_capsule validated) {|
       ct_request_digest := request_digest;
       ct_action_manifest_digest := action_manifest_digest;
       ct_response_id := response_id;
       ct_checkpoint_digest := wr_policy_checkpoint_digest request;
       ct_capsule_set_digest := vr_capsule_set_digest validated;
       ct_session_public_key := wr_request_session_public_key request;
       ct_session_fingerprint := wr_request_session_key_fingerprint request;
       ct_expires_at_ms := wr_expires_at_ms request |}) R_InvalidContribution;
  contribution_digest ← lift (or_refuse (WitnessContributionEnvelopeV1_digest contribution) R_InvalidContribution);
  descriptor ← lift (or_refuse (public_descriptor identity) R_InternalFailure);
  decision ← lift (sign_decision (unsigned_decision response_id request request_digest
    action_manifest_digest descriptor state_generation now_ms WD_Approve R_None
    (Some (contribution_digest, ce_share_index contribution, ce_share_commitment contribution))));
  mret {| resp_decision := decision; resp_contribution := Some contribution |}.

(** *** Operations *)

(** [ready_state] and the clock check every operation starts with. *)
Definition begin (now_ms : N) : engine PersistedWitnessState :=
  state ← ready_state;
  lift (require_safe_clock state now_ms);;
  mret state.

Definition check_ready (now_ms : N) : engine unit :=
  begin now_ms;; mret tt.

Definition operational_status (now_ms : N) : engine WitnessOperationalStatus :=
  state ← begin now_ms;
  let l := pw_logical state in
  mret {| os_witness_id := ls_witness_id l;
          os_state_generation := ls_state_generation l;
          os_replay_record_count := N.of_nat (size (ls_replay l));
          os_compactable_replay_record_count :=
            len (List.filter (λ entry, (re_retain_through_ms entry <? now_ms)%N) (values (ls_replay l)));
          os_replay_retain_through_ms := replay_retain_through l;
          os_published_anchor := pw_published_anchor state |}.

Definition register_vault (now_ms : N) (policy : PolicyState) (accepted_registration : bytes)
    (checkpoint : VaultPolicyCheckpointV1) (current_policy_material : bytes)
    : engine WitnessCheckpointAcknowledgementV1 :=
  lift (refuse_if (is_empty accepted_registration || is_empty current_policy_material) R_Invalid);;
  state ← begin now_ms;
  lift (validate_checkpoint policy checkpoint);;
  lift (refuse_if (skewed now_ms <? vc_issued_at_ms checkpoint)%N R_NotYetValid);;
  let vaults := ls_vaults (pw_logical state) in
  let vault_id := vc_vault_id checkpoint in
  match vaults !! vault_id with
  | Some current =>
      if (rv_current_checkpoint current ==? checkpoint) &&
         (rv_accepted_registration current ==? accepted_registration) &&
         (rv_current_policy_material current ==? current_policy_material)
      then lift (checkpoint_acknowledgement state vault_id)
      else lift (Err (Refused R_CheckpointFork))
  | None =>
      let vault := {| rv_accepted_registration := accepted_registration;
                      rv_current_checkpoint := checkpoint;
                      rv_current_policy_material := current_policy_material |} in
      state ← commit_and_publish (set_vaults (<[vault_id := vault]> vaults) state) now_ms;
      lift (checkpoint_acknowledgement state vault_id)
  end.

Definition deny_entry (response : WitnessResponseV1) (e : WitnessReplayEntry) : WitnessReplayEntry := {|
  re_request := re_request e; re_action_manifest_digest := re_action_manifest_digest e;
  re_state := RS_Denied; re_retain_through_ms := re_retain_through_ms e;
  re_approvals := re_approvals e; re_cancellation := re_cancellation e; re_response := Some response |}.

Definition cancel_entry (cancellation : bytes) (response : WitnessResponseV1) (e : WitnessReplayEntry)
    : WitnessReplayEntry := {|
  re_request := re_request e; re_action_manifest_digest := re_action_manifest_digest e;
  re_state := RS_Cancelled; re_retain_through_ms := re_retain_through_ms e;
  re_approvals := re_approvals e; re_cancellation := Some cancellation; re_response := Some response |}.

Definition decide_entry (approvals : list ApprovalDecisionV1) (outcome : ReplayStateV1)
    (response : option WitnessResponseV1) (e : WitnessReplayEntry) : WitnessReplayEntry := {|
  re_request := re_request e; re_action_manifest_digest := re_action_manifest_digest e;
  re_state := outcome; re_retain_through_ms := re_retain_through_ms e;
  re_approvals := approvals; re_cancellation := re_cancellation e; re_response := response |}.

(** [replay.get_mut(&key).ok_or(..)?] and the assignments through it. *)
Definition update_entry (key : replay_key) (f : WitnessReplayEntry → WitnessReplayEntry)
    (state : PersistedWitnessState) : checked PersistedWitnessState :=
  let replay := ls_replay (pw_logical state) in
  entry ← ok_or (replay !! key) (Refused R_InternalFailure);
  Ok (set_replay (<[key := f entry]> replay) state).

Definition next_generation (state : PersistedWitnessState) : N :=
  saturating_add_u64 (ls_state_generation (pw_logical state)) 1.

Definition deny_stale (generation now_ms : N) (state : PersistedWitnessState)
    (stale : replay_key * WitnessReplayEntry) : engine PersistedWitnessState :=
  let '(key, entry) := stale in
  response ← denial_response (re_request entry) (re_action_manifest_digest entry) R_StalePolicy
    generation now_ms;
  lift (update_entry key (deny_entry response) state).

Definition advance_checkpoint (now_ms : N) (policy : PolicyState) (checkpoint : VaultPolicyCheckpointV1)
    (current_policy_material : bytes) : engine WitnessCheckpointAcknowledgementV1 :=
  lift (refuse_if (is_empty current_policy_material) R_Invalid);;
  state ← begin now_ms;
  lift (validate_checkpoint_public policy checkpoint);;
  lift (refuse_if (skewed now_ms <? vc_issued_at_ms checkpoint)%N R_NotYetValid);;
  let vault_id := vc_vault_id checkpoint in
  current ← lift (ok_or (ls_vaults (pw_logical state) !! vault_id) (Refused R_StalePolicy));
  let previous := rv_current_checkpoint current in
  if previous ==? checkpoint then
    if rv_current_policy_material current ==? current_policy_material
    then lift (checkpoint_acknowledgement state vault_id)
    else lift (Err (Refused R_CheckpointFork))
  else
  lift (refuse_if (vc_vault_policy_sequence checkpoint <? vc_vault_policy_sequence previous)%N R_StalePolicy);;
  lift (refuse_if (vc_vault_policy_sequence checkpoint ==? vc_vault_policy_sequence previous) R_CheckpointFork);;
  lift (refuse_if (vc_vault_policy_sequence checkpoint !=?
                   saturating_add_u64 (vc_vault_policy_sequence previous) 1) R_WitnessBehind);;
  predecessor ← lift (or_refuse (VaultPolicyCheckpointV1_digest previous) R_Invalid);
  lift (refuse_if ((vc_predecessor_checkpoint_digest checkpoint !=? predecessor) ||
                   (vc_issued_at_ms checkpoint <=? vc_issued_at_ms previous)%N) R_CheckpointFork);;
  let stale_requests := List.filter (λ e : replay_key * WitnessReplayEntry,
    (e.1.1 ==? vault_id) && (re_state e.2 ==? RS_Reserved)) (entries (ls_replay (pw_logical state))) in
  state ← foldM (deny_stale (next_generation state) now_ms) state stale_requests;
  let vaults := ls_vaults (pw_logical state) in
  current ← lift (ok_or (vaults !! vault_id) (Refused R_InternalFailure));
  let vault := {| rv_accepted_registration := rv_accepted_registration current;
                  rv_current_checkpoint := checkpoint;
                  rv_current_policy_material := current_policy_material |} in
  state ← commit_and_publish (set_vaults (<[vault_id := vault]> vaults) state) now_ms;
  lift (checkpoint_acknowledgement state vault_id).

Definition retain_through (request : WitnessRequestV1) : checked N :=
  ok_or (checked_add_u64 (wr_expires_at_ms request) REPLAY_RETENTION_MS) (Refused R_Invalid).

(** The part of [cancel] behind the replies that are already known. *)
Definition cancel_open (now_ms : N) (policy : PolicyState) (state : PersistedWitnessState)
    (request : WitnessRequestV1) (cancellation : RequestCancellationV1) : engine CancellationProgress :=
  let key := (wr_vault_id request, wr_request_id request) in
  let replay := ls_replay (pw_logical state) in
  lift (validate_embedded_request policy state request now_ms);;
  lift (validate_request_cancellation policy request cancellation now_ms);;
  cancellation_bytes ← lift (or_refuse (RequestCancellationV1_canonical_bytes cancellation) R_Invalid);
  cancellation_bytes ← lift (bounded MAX_CANCELLATION_BYTES cancellation_bytes);
  response ← denial_response request (wr_action_manifest_digest request) R_Cancelled
    (next_generation state) now_ms;
  retain_through_ms ← lift (retain_through request);
  let entry := match replay !! key with
    | Some entry => cancel_entry cancellation_bytes response entry
    | None => {| re_request := request; re_action_manifest_digest := wr_action_manifest_digest request;
                 re_state := RS_Cancelled; re_retain_through_ms := retain_through_ms; re_approvals := [];
                 re_cancellation := Some cancellation_bytes; re_response := Some response |}
    end in
  commit_and_publish (set_replay (<[key := entry]> replay) state) now_ms;;
  mret (Cancelled_ response).

Definition cancel (now_ms : N) (policy : PolicyState) (request : WitnessRequestV1)
    (cancellation : RequestCancellationV1) : engine CancellationProgress :=
  state ← begin now_ms;
  match ls_replay (pw_logical state) !! (wr_vault_id request, wr_request_id request) with
  | Some known =>
      same ← lift (same_request (re_request known) request);
      lift (refuse_if (negb same) R_ReplayConflict);;
      match re_response known with
      | Some response =>
          lift (validate_request_cancellation policy request cancellation now_ms);;
          mret (if re_state known ==? RS_Cancelled then Cancelled_ response else TooLate response)
      | None => cancel_open now_ms policy state request cancellation
      end
  | None => cancel_open now_ms policy state request cancellation
  end.

Definition compact_replay (now_ms : N) : engine N :=
  state ← begin now_ms;
  let replay := ls_replay (pw_logical state) in
  let kept := filter (λ e : replay_key * WitnessReplayEntry, (now_ms ≤ re_retain_through_ms e.2)%N) replay in
  let removed := (N.of_nat (size replay) - N.of_nat (size kept))%N in
  if (removed =? 0)%N then mret removed
  else commit_and_publish (set_replay kept state) now_ms;; mret removed.

Definition reserve (now_ms : N) (policy : PolicyState) (request : WitnessRequestV1)
    (manifest : ActionManifestV1) : engine WitnessProgress :=
  state ← begin now_ms;
  let key := (wr_vault_id request, wr_request_id request) in
  let replay := ls_replay (pw_logical state) in
  match replay !! key with
  | Some known =>
      same ← lift (same_request (re_request known) request);
      if same : bool then
        lift (validate_request_manifest request manifest);;
        digest ← lift (or_refuse (ActionManifestV1_digest manifest) R_Invalid);
        lift (refuse_if (re_action_manifest_digest known !=? digest) R_WrongScope);;
        mret match re_response known with
          | Some response => Progress_Stable response
          | None => Progress_Reserved
          end
      else
        lift (refuse_if (re_state known !=? RS_Reserved) R_ReplayConflict);;
        response ← denial_response (re_request known) (re_action_manifest_digest known) R_ReplayConflict
          (next_generation state) now_ms;
        state ← lift (update_entry key (deny_entry response) state);
        commit_and_publish state now_ms;;
        mret (Progress_Stable response)
  | None =>
      lift (validate_request policy state request manifest now_ms);;
      lift (refuse_if
        ((MAX_REPLAY_RECORDS_PER_SERVICE <=? N.of_nat (size replay))%N ||
         (MAX_REPLAY_RECORDS_PER_VAULT <=?
          len (List.filter (λ k : replay_key, k.1 ==? wr_vault_id request) (keys replay)))%N)
        R_CapacityExhausted);;
      action_manifest_digest ← lift (or_refuse (ActionManifestV1_digest manifest) R_Invalid);
      retain_through_ms ← lift (retain_through request);
      let entry := {| re_request := request; re_action_manifest_digest := action_manifest_digest;
                      re_state := RS_Reserved; re_retain_through_ms := retain_through_ms;
                      re_approvals := []; re_cancellation := None; re_response := None |} in
      commit_and_publish (set_replay (<[key := entry]> replay) state) now_ms;;
      mret Progress_Reserved
  end.

(** The approvals that count: those recorded that are still current, and the new ones. *)
Definition accepted_approvals (known new : list ApprovalDecisionV1) (request : WitnessRequestV1)
    (manifest : ActionManifestV1) (validated : ValidatedRequest) (now_ms : N)
    : checked (list ApprovalDecisionV1) :=
  forE (λ approval, validate_approval_static approval request manifest validated) known;;
  let accepted := List.filter (λ approval, approval_is_current approval now_ms) known in
  forE (λ approval, validate_approval approval request manifest validated now_ms) new;;
  normalize_approvals (accepted ++ new).

(** The part of [decide] behind the validation of the request. *)
Definition decide_validated (now_ms : N) (state : PersistedWitnessState) (known : WitnessReplayEntry)
    (request : WitnessRequestV1) (manifest : ActionManifestV1) (approvals : list ApprovalDecisionV1)
    (validated : ValidatedRequest) : engine WitnessProgress :=
  let key := (wr_vault_id request, wr_request_id request) in
  digest ← lift (or_refuse (ActionManifestV1_digest manifest) R_Invalid);
  lift (refuse_if (re_action_manifest_digest known !=? digest) R_WrongScope);;
  accepted ← lift (accepted_approvals (re_approvals known) approvals request manifest validated now_ms);
  let tally := tally_approvals accepted (vr_rule validated) in
  let threshold := war_approval_threshold (vr_rule validated) in
  if (threshold <=? tally_approved tally)%N then
    response ← approval_response request manifest validated (next_generation state) now_ms;
    state ← lift (update_entry key (decide_entry accepted RS_Approved (Some response)) state);
    commit_and_publish state now_ms;;
    mret (Progress_Stable response)
  else if (tally_approved tally + tally_undecided tally <? threshold)%N then
    response ← denial_response request (re_action_manifest_digest known)
      (if tally_conflicted tally then R_ApprovalConflict else R_ApprovalDenied)
      (next_generation state) now_ms;
    state ← lift (update_entry key (decide_entry accepted RS_Denied (Some response)) state);
    commit_and_publish state now_ms;;
    mret (Progress_Stable response)
  else if accepted !=? re_approvals known then
    state ← lift (update_entry key (λ e, decide_entry accepted (re_state e) (re_response e) e) state);
    commit_and_publish state now_ms;;
    mret Progress_Pending
  else mret Progress_Pending.

Definition decide_request (now_ms : N) (policy : PolicyState) (request : WitnessRequestV1)
    (manifest : ActionManifestV1) (approvals : list ApprovalDecisionV1) : engine WitnessProgress :=
  lift (refuse_if (MAX_RECORDED_APPROVALS <? len approvals)%N R_CapacityExhausted);;
  state ← begin now_ms;
  let key := (wr_vault_id request, wr_request_id request) in
  known ← lift (ok_or (ls_replay (pw_logical state) !! key) (Refused R_Invalid));
  same ← lift (same_request (re_request known) request);
  lift (refuse_if (negb same) R_ReplayConflict);;
  lift (validate_request_manifest request manifest);;
  digest ← lift (or_refuse (ActionManifestV1_digest manifest) R_Invalid);
  lift (refuse_if (re_action_manifest_digest known !=? digest) R_WrongScope);;
  match re_response known with
  | Some response => mret (Progress_Stable response)
  | None =>
      match validate_request policy state request manifest now_ms with
      | Ok validated => decide_validated now_ms state known request manifest approvals validated
      | Err e =>
          if WitnessEngineError_reason e ==? R_Expired then
            response ← denial_response request (re_action_manifest_digest known) R_Expired
              (next_generation state) now_ms;
            state ← lift (update_entry key (deny_entry response) state);
            commit_and_publish state now_ms;;
            mret (Progress_Stable response)
          else lift (Err e)
      end
  end.
End engine.
