(* ===== verification/WitnessEngineSpec.v ===== *)
(** * What the witness engine promises

    The documented behaviour of the engine's parameters, and an abstract account
    of the engine: how a committed state may follow another ([transition]),
    when a state is anchored, and which response a state holds for a request.
    The lemmas relate the engine's building blocks to it. *)

From S2P Require Import Prelude VaultTypes Canonical Preimage WitnessPolicy PolicyState Identifiers Text Effects WitnessMessages WitnessCodec WitnessValidation WitnessEngine.
Local Open Scope jury_scope.

(** ** The store and the external anchor

    A store holds one state. A commit replaces it if the generation is the
    expected one and no anchor is pending, and does so or not if it reports an
    error; marking promotes the pending anchor. The external anchor holds at most
    one anchor, which a compare-and-swap replaces if the expected one is there
    byte for byte. *)

Definition promoted (anchor : WitnessStateAnchorV1) (s : PersistedWitnessState) : PersistedWitnessState :=
  {| pw_logical := pw_logical s; pw_published_anchor := Some anchor; pw_pending_anchor := None |}.

Definition anchor_bytes (a : option WitnessStateAnchorV1) : option (proto bytes) :=
  WitnessStateAnchorV1_canonical_bytes <$> a.

Class StoreLaws `{Crypto} (S : Type) `{WitnessStateStore S} := {
  stored : S → PersistedWitnessState;
  load_keeps s : stored (load s).2 = stored s;
  load_result s st : (load s).1 = Ok st → st = stored s;
  commit_result g st s :
    (stored (commit g st s).2 = stored s ∧ (commit g st s).1 ≠ Ok tt) ∨
    (stored (commit g st s).2 = st ∧ ls_state_generation (pw_logical (stored s)) = g ∧
     pw_pending_anchor (stored s) = None);
  mark_result d s :
    (stored (mark_anchor_published d s).2 = stored s ∧ (mark_anchor_published d s).1 ≠ Ok tt) ∨
    (∃ a, pw_pending_anchor (stored s) = Some a ∧ WitnessStateAnchorV1_digest a = Ok d ∧
          stored (mark_anchor_published d s).2 = promoted a (stored s));
}.

(** A swap that took effect left the candidate there. The engine swaps only after
    it read the anchor it expects, so it needs no more of the comparison. *)
Class AnchorLaws (A : Type) `{ExternalWitnessAnchor A} := {
  external : A → option WitnessStateAnchorV1;
  ensure_keeps c a : external (ensure_publishable c a).2 = external a;
  read_keeps a : external (read a).2 = external a;
  read_result a v : (read a).1 = Ok v → v = external a;
  swap_result expected candidate a :
    (external (compare_and_swap expected candidate a).2 = external a ∧
     (compare_and_swap expected candidate a).1 ≠ Ok Published) ∨
    external (compare_and_swap expected candidate a).2 = Some candidate;
}.

(** ** The abstract account *)

(** An entry is that of a request of its type, open without a response, and kept for a day after its request
    expires. *)
Record entry_ok (key : replay_key) (e : WitnessReplayEntry) : Prop := {
  eo_key : key = (wr_vault_id (re_request e), wr_request_id (re_request e));
  eo_typed : request_typed (re_request e);
  eo_open : re_state e = RS_Reserved ↔ re_response e = None;
  eo_retain : re_retain_through_ms e = (wr_expires_at_ms (re_request e) + REPLAY_RETENTION_MS)%N;
}.

Definition table_ok (l : WitnessLogicalState) : Prop :=
  ∀ key e, ls_replay l !! key = Some e → entry_ok key e.

(** How an entry may change at a time: it is opened before its request expires,
    it is settled or gains approvals while it has no response, and it is dropped
    after its retention. *)
Definition entry_step (now_ms : N) (key : replay_key) (old new : option WitnessReplayEntry) : Prop :=
  match old, new with
  | None, None => True
  | None, Some e => entry_ok key e ∧ (now_ms < wr_expires_at_ms (re_request e))%N
  | Some e, None => (re_retain_through_ms e < now_ms)%N
  | Some e, Some e' =>
      e' = e ∨
      (re_response e = None ∧ entry_ok key e' ∧ re_request e' = re_request e ∧
       re_action_manifest_digest e' = re_action_manifest_digest e)
  end.

(** How a registered vault may change: its checkpoint is the next one. *)
Definition vault_step `{Crypto} (old new : option RegisteredWitnessVault) : Prop :=
  match old, new with
  | None, _ => True
  | Some _, None => False
  | Some v, Some v' =>
      v' = v ∨
      (rv_accepted_registration v' = rv_accepted_registration v ∧
       vc_vault_policy_sequence (rv_current_checkpoint v') =
         (vc_vault_policy_sequence (rv_current_checkpoint v) + 1)%N ∧
       VaultPolicyCheckpointV1_digest (rv_current_checkpoint v) =
         Ok (vc_predecessor_checkpoint_digest (rv_current_checkpoint v')))
  end.

Record committed `{Crypto} (now_ms : N) (l l' : WitnessLogicalState) : Prop := {
  cm_witness : ls_witness_id l' = ls_witness_id l;
  cm_generation : ls_state_generation l' = (ls_state_generation l + 1)%N;
  cm_clock : (ls_last_accepted_wall_time_ms l ≤ skewed now_ms)%N;
  cm_time : ls_last_accepted_wall_time_ms l' = N.max (ls_last_accepted_wall_time_ms l) now_ms;
  cm_vaults : ∀ v, vault_step (ls_vaults l !! v) (ls_vaults l' !! v);
  cm_entries : ∀ key, entry_step now_ms key (ls_replay l !! key) (ls_replay l' !! key);
}.

Definition transition `{Crypto} (now_ms : N) (l l' : WitnessLogicalState) : Prop :=
  l' = l ∨ committed now_ms l l'.

(** The stored state is the one the external anchor commits to. *)
Definition anchored `{Crypto} {I R : Type} `{WitnessEngineIdentity I R} (identity : I)
    (st : PersistedWitnessState) (ext : option WitnessStateAnchorV1) : Prop :=
  pw_pending_anchor st = None ∧
  match pw_published_anchor st, ext with
  | None, None => ls_state_generation (pw_logical st) = 0%N
  | Some a, Some x =>
      WitnessStateAnchorV1_canonical_bytes a = WitnessStateAnchorV1_canonical_bytes x ∧
      sa_state_generation a = ls_state_generation (pw_logical st) ∧
      database_digest (pw_logical st) = Ok (sa_database_state_digest a) ∧
      validate_anchor (R := R) identity a = Ok tt
  | _, _ => False
  end.

(** The state holds this response: under a key, and for exactly this request. *)
Definition settled (l : WitnessLogicalState) (key : replay_key) (response : WitnessResponseV1) : Prop :=
  ∃ e, ls_replay l !! key = Some e ∧ re_response e = Some response.

Definition answers `{Crypto} (l : WitnessLogicalState) (request : WitnessRequestV1)
    (response : WitnessResponseV1) : Prop :=
  ∃ e, ls_replay l !! (wr_vault_id request, wr_request_id request) = Some e ∧
       same_request (re_request e) request = Ok true ∧ re_response e = Some response.

(** ** The building blocks *)

Section blocks.
Context `{Crypto} {S A R I : Type} `{!WitnessStateStore S, !StoreLaws S, !ExternalWitnessAnchor A, !AnchorLaws A} `{RandomSource R}
  `{WitnessEngineIdentity I R} (identity : I).

Abbreviation eng := (Engine S A R).

Definition state_of (e : eng) : PersistedWitnessState := stored (en_store e).
Definition logical (e : eng) : WitnessLogicalState := pw_logical (state_of e).
Definition external_of (e : eng) : option WitnessStateAnchorV1 := external (en_anchor e).

Lemma load_spec (e : eng) :
  wp (on_store load) (λ r e', state_of e' = state_of e ∧ external_of e' = external_of e ∧
    ∀ st, r = Ok st → st = state_of e) e.
Proof.
  unfold wp, on_store. pose proof (load_keeps (en_store e)) as Hk.
  pose proof (load_result (en_store e)) as Hr. destruct (load (en_store e)) as [r s']. cbn in *.
  split_and!; try done. intros st Hst%map_err_Ok. by apply Hr.
Qed.

Lemma read_spec (e : eng) :
  wp (on_anchor read) (λ r e', state_of e' = state_of e ∧ external_of e' = external_of e ∧
    ∀ v, r = Ok v → v = external_of e) e.
Proof.
  unfold wp, on_anchor. pose proof (read_keeps (en_anchor e)) as Hk.
  pose proof (read_result (en_anchor e)) as Hr. destruct (read (en_anchor e)) as [r a']. cbn in *.
  split_and!; try done. intros v Hv%map_err_Ok. by apply Hr.
Qed.

Lemma mark_spec candidate (e : eng) :
  wp (mark_published candidate) (λ r e', logical e' = logical e ∧ external_of e' = external_of e) e.
Proof.
  unfold mark_published. apply wp_bind_lift; [|done]. intros d Hd. unfold wp, on_store.
  pose proof (mark_result d (en_store e)) as Hm.
  destruct (mark_anchor_published d (en_store e)) as [r s']. cbn in *.
  unfold logical, state_of, external_of. cbn.
  destruct Hm as [[-> _]|(a & _ & _ & ->)]; done.
Qed.

Lemma swap_spec expected candidate (e : eng) :
  wp (on_anchor (compare_and_swap expected candidate)) (λ r e', state_of e' = state_of e) e.
Proof. unfold wp, on_anchor. by destruct (compare_and_swap _ _ _). Qed.

Lemma exact_anchor_eq_true a b :
  exact_anchor_eq a b = Ok true →
  WitnessStateAnchorV1_canonical_bytes a = WitnessStateAnchorV1_canonical_bytes b.
Proof.
  unfold exact_anchor_eq. intros (x & Hx%map_err_Ok & (y & Hy%map_err_Ok & Heq)%bind_Ok)%bind_Ok.
  rw Hx Hy. by case_bool_decide; simplify_eq.
Qed.

Lemma published_equality_anchored st ext :
  pw_pending_anchor st = None → published_equality identity st ext = Ok tt → anchored identity st ext.
Proof.
  intros Hp Heq. split; [done|]. unfold published_equality in Heq.
  destruct (pw_published_anchor st) as [a|], ext as [x|]; try done.
  - apply bind_Ok in Heq as (equal & He & Heq). rewrite -> reject_if_bind in Heq. destruct Heq as [Hb Heq].
    apply bind_Ok in Heq as (d & Hd & Heq). rewrite -> reject_if_bind in Heq. destruct Heq as [Hd' Heq].
    destruct equal; [|done]. to_prop. apply exact_anchor_eq_true in He. subst. done.
  - apply reject_if_Ok in Heq. to_prop. done.
Qed.

Lemma require_published_spec st (e : eng) :
  wp (require_published_equality identity st) (λ r e', state_of e' = state_of e ∧ external_of e' = external_of e ∧
    (r = Ok tt → published_equality identity st (external_of e) = Ok tt)) e.
Proof.
  unfold require_published_equality. eapply wp_bind_mono; [apply read_spec|by intros x e' (? & ? & _)|].
  intros v e' (Hs & He & Hv). apply wp_lift. by rw (Hv v eq_refl).
Qed.

(** Publishing touches the anchors, never what the witness decided. *)
Lemma publish_pending_spec st (e : eng) :
  wp (publish_pending identity st) (λ r e', logical e' = logical e) e.
Proof.
  unfold publish_pending. apply wp_bind_lift; [|done]. intros c _.
  eapply wp_bind_mono; [apply read_spec|by intros ? e1 [Hs _]; unfold logical; rw Hs|].
  intros x e1 (Hs1 & _ & _). assert (logical e1 = logical e) as <- by (unfold logical; by rw Hs1).
  destruct (is_candidate x c); [eapply wp_mono; [apply mark_spec|naive_solver]|].
  apply wp_bind_lift; [|done]. intros m _. apply wp_bind_lift; [|done]. intros _ _.
  eapply wp_bind_mono; [apply swap_spec|by intros ? e2 Hs; unfold logical; rw Hs|].
  intros o e2 Hs2. assert (logical e2 = logical e1) as <- by (unfold logical; by rw Hs2).
  eapply (wp_bind_mono _ _ (λ _ e', state_of e' = state_of e2)).
  - destruct o; [done|]. eapply wp_bind_mono; [apply read_spec|naive_solver|].
    intros v e3 (Hs & _). by apply wp_lift.
  - by intros ? e3 Hs; unfold logical; rw Hs.
  - intros _ e3 Hs3. assert (logical e3 = logical e2) as <- by (unfold logical; by rw Hs3).
    eapply wp_bind_mono; [apply read_spec|by intros ? e4 [Hs _]; unfold logical; rw Hs|].
    intros v e4 (Hs4 & _ & _). assert (logical e4 = logical e3) as <- by (unfold logical; by rw Hs4).
    do 3 (apply wp_bind_lift; [|done]; intros ? _). eapply wp_mono; [apply mark_spec|naive_solver].
Qed.

Lemma ready_state_spec (e : eng) :
  wp (ready_state identity) (λ r e', logical e' = logical e ∧
    ∀ st, r = Ok st → st = state_of e' ∧ anchored identity st (external_of e')) e.
Proof.
  unfold ready_state. eapply wp_bind_mono; [apply load_spec|by intros ? e1 [Hs _]; unfold logical; rw Hs|].
  intros st e1 (Hs1 & _ & _). assert (logical e1 = logical e) as <- by (unfold logical; by rw Hs1).
  apply wp_bind_lift; [|done]. intros _ _.
  eapply (wp_bind_mono _ _ (λ _ e', logical e' = logical e1)).
  - destruct (is_set _); [apply publish_pending_spec|].
    eapply wp_mono; [apply require_published_spec|]. intros r e' (Hs & _). unfold logical. by rw Hs.
  - done.
  - intros _ e2 <-. eapply wp_bind_mono; [apply load_spec|by intros ? e3 [Hs _]; unfold logical; rw Hs|].
    intros st' e3 (Hs3 & _ & Hst). rewrite -> (Hst st' eq_refl) in *. clear Hst. apply wp_bind_lift; [|by unfold logical; rw Hs3]. intros _ _.
    apply wp_bind_lift; [|by unfold logical; rw Hs3]. intros [] Hp%reject_if_Ok.
    eapply wp_bind_mono; [apply require_published_spec|by intros ? e4 [Hs _]; unfold logical; rw Hs Hs3|].
    intros [] e4 (Hs4 & He4 & Heq). apply wp_ret. unfold logical. rw Hs4 Hs3. split; [done|].
    intros ? [= <-]. split; [done|]. rw He4. apply published_equality_anchored; [|by apply Heq].
    by destruct (pw_pending_anchor _).
Qed.

Lemma begin_spec now_ms (e : eng) :
  wp (begin identity now_ms) (λ r e', logical e' = logical e ∧
    ∀ st, r = Ok st → st = state_of e' ∧ anchored identity st (external_of e') ∧
      (ls_last_accepted_wall_time_ms (pw_logical st) ≤ skewed now_ms)%N) e.
Proof.
  unfold begin. eapply wp_bind_mono; [apply ready_state_spec|naive_solver|].
  intros st e' [Hl Hst]. apply wp_bind_lift; [|done]. intros [] Hc%reject_if_Ok. apply wp_ret.
  split; [done|]. intros st' [= <-]. destruct (Hst st eq_refl). split_and!; try done. by to_prop.
Qed.

(** The next state: one generation on, at the later of the two times. *)
Definition bumped (now_ms : N) (l : WitnessLogicalState) : WitnessLogicalState := {|
  ls_witness_id := ls_witness_id l;
  ls_state_generation := ls_state_generation l + 1;
  ls_vaults := ls_vaults l;
  ls_replay := ls_replay l;
  ls_last_accepted_wall_time_ms := N.max (ls_last_accepted_wall_time_ms l) now_ms |}.

Lemma commit_and_publish_spec st now_ms (e : eng) :
  wp (commit_and_publish identity st now_ms) (λ r e',
    (logical e' = logical e ∨ logical e' = bumped now_ms (pw_logical st)) ∧
    ∀ st', r = Ok st' → logical e' = bumped now_ms (pw_logical st) ∧ st' = state_of e' ∧
      anchored identity st' (external_of e')) e.
Proof.
  unfold commit_and_publish. apply wp_bind_lift; [|naive_solver]. intros g ->%ok_or_Ok%checked_add_u64_Some.
  apply wp_bind_lift; [|naive_solver]. intros c _.
  eapply (wp_bind_mono _ _ (λ _ e', state_of e' = state_of e)).
  { unfold wp, on_anchor. by destruct (ensure_publishable _ _). }
  { intros ? e' Hs. unfold logical. rw Hs. naive_solver. }
  intros _ e1 Hs1. assert (logical e1 = logical e) as <- by (unfold logical; by rw Hs1). clear Hs1.
  eapply (wp_bind_mono _ _ (λ r e',
    (logical e' = logical e1 ∧ r ≠ Ok tt) ∨ logical e' = bumped now_ms (pw_logical st))).
  - unfold wp, on_store. pose proof (commit_result (ls_state_generation (pw_logical st))
      (set_pending_anchor (Some c) (set_generation (ls_state_generation (pw_logical st) + 1)
        (N.max (ls_last_accepted_wall_time_ms (pw_logical st)) now_ms) st)) (en_store e1)) as Hc.
    destruct (commit _ _ _) as [r s']. unfold logical, state_of in *. cbn in *.
    destruct Hc as [[-> Hr]|[-> _]]; [left|by right].
    split; [done|]. by intros ?%map_err_Ok.
  - intros ? e2 [[? _]|?]; naive_solver.
  - intros [] e2 [[_ ?]|Hb]; [done|]. eapply wp_mono; [apply ready_state_spec|].
    intros r e3 [Hl Hst]. rw Hl Hb. split; [by right|]. intros st' Hr. by destruct (Hst st' Hr).
Qed.
End blocks.
