(* ===== verification/WitnessEngineRefinement.v ===== *)
(** * The engine implements its abstract account

    Every operation, on every branch and whatever the store and the anchor
    report, takes the stored state along a [transition]; what it returns is
    anchored and recorded. *)

From S2P Require Import Prelude VaultTypes Canonical Preimage WitnessPolicy PolicyState Identifiers Text Effects WitnessMessages WitnessCodec WitnessValidation WitnessEngine WitnessEngineSpec.
Local Open Scope jury_scope.

Ltac fold_logical e := change (pw_logical (state_of e)) with (logical e) in *.

Section refinement.
Context `{Crypto} {S A R I : Type} `{!WitnessStateStore S, !StoreLaws S, !ExternalWitnessAnchor A, !AnchorLaws A} `{RandomSource R}
  `{WitnessEngineIdentity I R} (identity : I).

Abbreviation eng := (Engine S A R).

(** What an operation at a time leaves, from a state it started in. *)
Definition op_post {T} (now_ms : N) (l : WitnessLogicalState) (recorded : T → WitnessLogicalState → Prop)
    (r : checked T) (e' : eng) : Prop :=
  transition now_ms l (logical e') ∧
  ∀ x, r = Ok x → anchored identity (state_of e') (external_of e') ∧ recorded x (logical e').

Lemma op_post_err {T} now_ms l (recorded : T → _ → Prop) x (e' : eng) :
  logical e' = l → op_post now_ms l recorded (Err x) e'.
Proof. intros Hl. split; [by left|done]. Qed.

Lemma wp_begin {T} now_ms (k : PersistedWitnessState → eff WitnessEngineErrorKind eng T) recorded (e : eng) :
  (∀ e', logical e' = logical e → anchored identity (state_of e') (external_of e') →
    (ls_last_accepted_wall_time_ms (logical e') ≤ skewed now_ms)%N →
    wp (k (state_of e')) (op_post now_ms (logical e') recorded) e') →
  wp (begin identity now_ms ≫= k) (op_post now_ms (logical e) recorded) e.
Proof.
  intros Hk. eapply wp_bind_mono; [apply begin_spec|intros x e' [Hl _]; by apply op_post_err|].
  intros st e' [Hl Hst]. destruct (Hst st eq_refl) as (-> & Ha & Hc). rw -Hl. by apply Hk.
Qed.

(** A step that leaves the store and the anchor alone. *)
Definition quiet {T} (m : eff WitnessEngineErrorKind eng T) (P : T → Prop) : Prop :=
  ∀ e, wp m (λ r e', state_of e' = state_of e ∧ external_of e' = external_of e ∧ ∀ x, r = Ok x → P x) e.

Lemma quiet_lift {T} (r : checked T) (P : T → Prop) : (∀ x, r = Ok x → P x) → quiet (lift r) P.
Proof. by intros ? e. Qed.

Lemma quiet_bind {T U} (m : eff WitnessEngineErrorKind eng T) (k : T → eff _ eng U) P Q :
  quiet m P → (∀ x, P x → quiet (k x) Q) → quiet (m ≫= k) Q.
Proof.
  intros Hm Hk e. eapply wp_bind_mono; [apply Hm|naive_solver|]. intros x e' (Hs & He & Hx).
  eapply wp_mono; [apply Hk; by apply Hx|]. intros r e'' (Hs' & He' & ?). by rw Hs' He'.
Qed.

Lemma quiet_random {E T} (m : eff E R T) reason : quiet (on_random m reason) (λ _, True).
Proof. intros e. unfold wp, on_random. by destruct (m _). Qed.

Lemma quiet_response_id : quiet random_response_id (λ _, True).
Proof. eapply quiet_bind; [apply quiet_random|]. intros. by apply quiet_lift. Qed.

Lemma sign_decision_keeps d d' : sign_decision identity d = Ok d' → wdc_decision d' = wdc_decision d.
Proof. unfold sign_decision. intros Hd. repeat inv_ok_step. done. Qed.

Lemma denial_quiet request digest reason generation now_ms :
  quiet (denial_response identity request digest reason generation now_ms)
    (λ r, wdc_decision (resp_decision r) = WD_Deny).
Proof.
  eapply quiet_bind; [apply quiet_response_id|]. intros id _.
  do 2 (eapply quiet_bind; [by apply (quiet_lift _ (λ _, True))|]; intros ? _).
  eapply quiet_bind; [apply (quiet_lift _ (λ d, wdc_decision d = WD_Deny))|].
  - intros d Hd. by rw (sign_decision_keeps _ _ Hd).
  - intros d Hd. by apply (quiet_lift (Ok _)); intros ? [= <-].
Qed.

Lemma approval_quiet request manifest validated generation now_ms :
  quiet (approval_response identity request manifest validated generation now_ms)
    (λ r, wdc_decision (resp_decision r) = WD_Approve).
Proof.
  eapply quiet_bind; [apply quiet_response_id|]. intros id _.
  do 2 (eapply quiet_bind; [by apply (quiet_lift _ (λ _, True))|]; intros ? _).
  eapply quiet_bind; [apply quiet_random|]. intros c _.
  do 2 (eapply quiet_bind; [by apply (quiet_lift _ (λ _, True))|]; intros ? _).
  eapply quiet_bind; [apply (quiet_lift _ (λ d, wdc_decision d = WD_Approve))|].
  - intros d Hd. by rw (sign_decision_keeps _ _ Hd).
  - intros d Hd. by apply (quiet_lift (Ok _)); intros ? [= <-].
Qed.

Lemma wp_quiet {T U} (m : eff WitnessEngineErrorKind eng T) (k : T → eff _ eng U) P now_ms recorded (e : eng) :
  quiet m P →
  (∀ x e', P x → state_of e' = state_of e → external_of e' = external_of e →
    wp (k x) (op_post now_ms (logical e) recorded) e') →
  wp (m ≫= k) (op_post now_ms (logical e) recorded) e.
Proof.
  intros Hm Hk. eapply wp_bind_mono; [apply Hm| |].
  - intros x e' (Hs & _). apply op_post_err. unfold logical. by rw Hs.
  - intros x e' (Hs & He & Hx). apply Hk; auto.
Qed.

(** ** Committing *)

Definition with_tables (vaults : gmap VaultId RegisteredWitnessVault) (replay : gmap replay_key WitnessReplayEntry)
    (l : WitnessLogicalState) : WitnessLogicalState := {|
  ls_witness_id := ls_witness_id l; ls_state_generation := ls_state_generation l; ls_vaults := vaults;
  ls_replay := replay; ls_last_accepted_wall_time_ms := ls_last_accepted_wall_time_ms l |}.

Lemma bumped_committed now_ms l vaults replay :
  (ls_last_accepted_wall_time_ms l ≤ skewed now_ms)%N →
  (∀ v, vault_step (ls_vaults l !! v) (vaults !! v)) →
  (∀ key, entry_step now_ms key (ls_replay l !! key) (replay !! key)) →
  committed now_ms l (bumped now_ms (with_tables vaults replay l)).
Proof. by split. Qed.

Lemma wp_commit {T} now_ms st vaults replay (k : PersistedWitnessState → eff WitnessEngineErrorKind eng T)
    recorded (e : eng) l :
  logical e = l → pw_logical st = with_tables vaults replay l →
  (ls_last_accepted_wall_time_ms l ≤ skewed now_ms)%N →
  (∀ v, vault_step (ls_vaults l !! v) (vaults !! v)) →
  (∀ key, entry_step now_ms key (ls_replay l !! key) (replay !! key)) →
  (∀ e', logical e' = bumped now_ms (with_tables vaults replay l) →
    anchored identity (state_of e') (external_of e') →
    wp (k (state_of e')) (λ r e'', logical e'' = logical e' ∧ external_of e'' = external_of e' ∧
      state_of e'' = state_of e' ∧ ∀ x, r = Ok x → recorded x (logical e')) e') →
  wp (commit_and_publish identity st now_ms ≫= k) (op_post now_ms l recorded) e.
Proof.
  intros Hl Hst Hc Hv He Hk. pose proof (bumped_committed now_ms l vaults replay Hc Hv He) as Hcm.
  eapply wp_bind_mono; [apply commit_and_publish_spec| |]; rw Hst Hl.
  - intros x e' [[Hs|Hs] _]; rw /op_post Hs; split; try done; [by left|by right].
  - intros st' e' [_ Hst']. destruct (Hst' st' eq_refl) as (Hs & -> & Ha).
    eapply wp_mono; [by apply Hk|]. intros r e'' (Hl' & He' & Hs' & Hr). unfold op_post. rw Hl' Hs.
    split; [by right|]. intros x Hx. rw He' Hs'. split; [done|]. rewrite <- Hs. by apply Hr.
Qed.

(** One entry changes. *)
Lemma entry_step_insert (now_ms : N) (replay : gmap replay_key WitnessReplayEntry) (key : replay_key) (e : WitnessReplayEntry) :
  entry_step now_ms key (replay !! key) (Some e) →
  ∀ key', entry_step now_ms key' (replay !! key') (<[key := e]> replay !! key').
Proof.
  intros Hs key'. destruct (decide (key = key')) as [<-|Hne]; [by rw lookup_insert_eq|].
  rw lookup_insert_ne; [|done]. unfold entry_step. by case_match; [left|].
Qed.

Lemma vault_step_same (vaults : gmap VaultId RegisteredWitnessVault) (v : VaultId) : vault_step (vaults !! v) (vaults !! v).
Proof. unfold vault_step. by case_match; [left|]. Qed.

(** ** Operations *)

Lemma op_post_ok {T} now_ms l (recorded : T → _ → Prop) x (e' : eng) :
  logical e' = l → anchored identity (state_of e') (external_of e') → recorded x l →
  op_post now_ms l recorded (Ok x) e'.
Proof. intros Hl Ha Hr. split; [by left|]. intros ? [= <-]. by rw Hl. Qed.

Lemma wp_lift_post {T} now_ms (recorded : T → _ → Prop) (r : checked T) (e : eng) :
  anchored identity (state_of e) (external_of e) → (∀ x, r = Ok x → recorded x (logical e)) →
  wp (lift r) (op_post now_ms (logical e) recorded) e.
Proof. intros Ha Hr. apply wp_lift. destruct r as [x|x]; [by apply op_post_ok; [| |apply Hr]|by apply op_post_err]. Qed.

Lemma wp_check {T U} (r : checked T) (k : T → eff WitnessEngineErrorKind eng U) now_ms recorded (e : eng) l :
  logical e = l → (∀ x, r = Ok x → wp (k x) (op_post now_ms l recorded) e) →
  wp (lift r ≫= k) (op_post now_ms l recorded) e.
Proof. intros Hl Hk. apply wp_bind_lift; [done|]. intros x _. by apply op_post_err. Qed.

Lemma check_ready_refines now_ms (e : eng) :
  wp (check_ready identity now_ms) (op_post now_ms (logical e) (λ _ _, True)) e.
Proof. apply wp_begin. intros e' _ Ha _. apply wp_ret. by apply op_post_ok. Qed.

Lemma operational_status_refines now_ms (e : eng) :
  wp (operational_status identity now_ms)
    (op_post now_ms (logical e) (λ s l, os_state_generation s = ls_state_generation l)) e.
Proof. apply wp_begin. intros e' _ Ha _. apply wp_ret. by apply op_post_ok. Qed.

Definition checkpoint_recorded (checkpoint : VaultPolicyCheckpointV1) (l : WitnessLogicalState) : Prop :=
  ∃ v, ls_vaults l !! vc_vault_id checkpoint = Some v ∧ rv_current_checkpoint v = checkpoint.

Lemma register_vault_refines now_ms policy registration checkpoint material (e : eng) :
  wp (register_vault identity now_ms policy registration checkpoint material)
    (op_post now_ms (logical e) (λ _, checkpoint_recorded checkpoint)) e.
Proof.
  unfold register_vault. apply wp_check; [done|]. intros _ _. apply wp_begin. intros e' _ Ha Hc.
  do 2 (apply wp_check; [done|]; intros ? _).
  destruct (ls_vaults _ !! _) as [v|] eqn:Hv.
  - destruct (_ && _) eqn:Hsame; [|by apply wp_lift_post]. to_prop. apply wp_lift_post; [done|].
    intros _ _. by exists v.
  - eapply (wp_commit now_ms _ _ (ls_replay (logical e'))); [done|done|done| | |].
    + intros v. destruct (decide (vc_vault_id checkpoint = v)) as [<-|Hne]; [unfold logical; by rw Hv|].
      rw lookup_insert_ne; [|done]. apply vault_step_same.
    + intros key. unfold entry_step. by case_match; [left|].
    + intros e'' Hl _. apply wp_lift. split_and!; try done. intros _ _. rw Hl. eexists. cbn.
      by rw lookup_insert_eq.
Qed.

Lemma entry_ok_settle key e e' :
  entry_ok key e → re_request e' = re_request e → re_retain_through_ms e' = re_retain_through_ms e →
  (re_state e' = RS_Reserved ↔ re_response e' = None) → entry_ok key e'.
Proof. intros [Hk Ht _ Hr] Hreq Hret Hop. split; [by rw Hreq|by rw Hreq|done|by rw Hreq Hret]. Qed.

(** An entry without a response may be denied, cancelled or decided. *)
Lemma settle_step now_ms key e e' :
  entry_ok key e → re_response e = None → re_request e' = re_request e →
  re_action_manifest_digest e' = re_action_manifest_digest e →
  re_retain_through_ms e' = re_retain_through_ms e →
  (re_state e' = RS_Reserved ↔ re_response e' = None) →
  entry_step now_ms key (Some e) (Some e').
Proof. intros Hok Hn Hreq Hd Hret Hop. right. split_and!; try done. by eapply entry_ok_settle. Qed.

Lemma update_entry_Ok key f st st' :
  update_entry key f st = Ok st' ↔
  ∃ e, ls_replay (pw_logical st) !! key = Some e ∧
       st' = set_replay (<[key := f e]> (ls_replay (pw_logical st))) st.
Proof.
  unfold update_entry. rw bind_Ok. setoid_rewrite ok_or_Ok. split.
  - intros (e & He & [= <-]). by exists e.
  - intros (e & He & ->). by exists e.
Qed.

Lemma compact_replay_refines now_ms (e : eng) :
  wp (compact_replay identity now_ms)
    (op_post now_ms (logical e) (λ _ l, ∀ key en, ls_replay l !! key = Some en → ls_replay (logical e) !! key = Some en)) e.
Proof.
  unfold compact_replay. apply wp_begin. intros e' Hl Ha Hc. cbv zeta.
  destruct (_ =? 0)%N; [apply wp_ret; apply op_post_ok; [done|done|by rw Hl]|].
  eapply (wp_commit now_ms _ (ls_vaults (logical e'))); [done|done|done|intros v; apply vault_step_same| |].
  - intros key. change (ls_replay (pw_logical (state_of e'))) with (ls_replay (logical e')).
    unfold entry_step. destruct (ls_replay (logical e') !! key) as [en|] eqn:He.
    + destruct (decide (now_ms ≤ re_retain_through_ms en)%N) as [Hle|Hgt].
      * rw (map_lookup_filter_Some_2 _ _ _ _ He Hle). by left.
      * rewrite -> map_lookup_filter_None_2; [lia|]. right. naive_solver.
    + by rewrite -> map_lookup_filter_None_2; [|left].
  - intros e'' Hl'' _. apply wp_ret. split_and!; try done. intros n _ key en. rw Hl'' -Hl. cbn.
    intros [He _]%map_lookup_filter_Some. exact He.
Qed.

Definition reserve_recorded (request : WitnessRequestV1) (p : WitnessProgress) (l : WitnessLogicalState) : Prop :=
  let key := (wr_vault_id request, wr_request_id request) in
  match p with
  | Progress_Stable response => settled l key response
  | Progress_Reserved => ∃ e, ls_replay l !! key = Some e ∧ re_response e = None
  | Progress_Pending => False
  end.

Lemma retain_through_Ok request n :
  retain_through request = Ok n → n = (wr_expires_at_ms request + REPLAY_RETENTION_MS)%N.
Proof. by intros ?%ok_or_Ok%checked_add_u64_Some. Qed.

Lemma validate_request_unexpired policy st request manifest now_ms v :
  validate_request identity policy st request manifest now_ms = Ok v → (now_ms < wr_expires_at_ms request)%N.
Proof.
  unfold validate_request. intros (? & _ & (? & _ & (? & _ & (? & _ & (? & _ & (? & Ht & _)%bind_Ok)%bind_Ok)%bind_Ok)%bind_Ok)%bind_Ok)%bind_Ok.
  unfold validate_request_time in Ht. rewrite -> !reject_if_bind in Ht. destruct Ht as (_ & _ & Ht%reject_if_Ok).
  by to_prop.
Qed.

Lemma reserve_refines now_ms policy request manifest (e : eng) :
  table_ok (logical e) → request_typed request →
  wp (reserve identity now_ms policy request manifest)
    (op_post now_ms (logical e) (reserve_recorded request)) e.
Proof.
  intros Hok Htyp. unfold reserve. apply wp_begin. intros e' Hl Ha Hc. rewrite <- Hl in Hok. clear Hl e. cbv zeta.
  fold_logical e'. set (key := (wr_vault_id request, wr_request_id request)).
  destruct (ls_replay (logical e') !! key) as [known|] eqn:Hk.
  - apply wp_check; [done|]. intros [] _.
    + do 3 (apply wp_check; [done|]; intros ? _). apply wp_ret. apply op_post_ok; [done|done|].
      destruct (re_response known) eqn:Hr; by exists known.
    + apply wp_check; [done|]. intros [] Hst%reject_if_Ok. to_prop.
      eapply wp_quiet; [apply denial_quiet|]. intros response e'' _ Hs He.
      apply wp_check; [unfold logical; by rw Hs|]. intros st (known' & Hk' & ->)%update_entry_Ok.
      fold_logical e'. rewrite -> Hk in Hk'. injection Hk' as <-.
      eapply (wp_commit now_ms _ (ls_vaults (logical e'))); [unfold logical; by rw Hs|done|done|intros v; apply vault_step_same| |].
      * apply entry_step_insert. fold_logical e'. rewrite -> Hk. apply settle_step; try done; [by apply Hok|].
        by apply (Hok _ _ Hk).
      * intros e3 Hl3 _. apply wp_ret. split_and!; try done. intros ? [= <-]. rw Hl3. eexists. cbn.
        by rw lookup_insert_eq.
  - apply wp_check; [done|]. intros v Hv%validate_request_unexpired.
    do 2 (apply wp_check; [done|]; intros ? _). apply wp_check; [done|]. intros retain Hret%retain_through_Ok.
    eapply (wp_commit now_ms _ (ls_vaults (logical e'))); [done|done|done|intros ?; apply vault_step_same| |].
    + apply entry_step_insert. fold_logical e'. rewrite -> Hk. by split.
    + intros e3 Hl3 _. apply wp_ret. split_and!; try done. intros ? [= <-]. rw Hl3. eexists. cbn.
      by rw lookup_insert_eq.
Qed.

Definition cancellation_response (p : CancellationProgress) : WitnessResponseV1 :=
  match p with Cancelled_ response | TooLate response => response end.

Lemma same_request_Ok a b :
  same_request a b = Ok true ↔
  ∃ bs, WitnessRequestV1_canonical_bytes a = Ok bs ∧ WitnessRequestV1_canonical_bytes b = Ok bs.
Proof.
  unfold same_request. split.
  - intros (x & Hx%map_err_Ok & (y & Hy%map_err_Ok & Heq)%bind_Ok)%bind_Ok.
    case_bool_decide as Hxy; [|done]. exists y. by rw Hx Hy Hxy.
  - intros (bs & Ha & Hb). rw Ha Hb. cbn. by rw bool_decide_true.
Qed.

(** An anchored state has been encoded: its requests have canonical bytes. *)
Lemma anchored_request st ext key en :
  anchored identity st ext → ls_state_generation (pw_logical st) ≠ 0%N →
  ls_replay (pw_logical st) !! key = Some en → same_request (re_request en) (re_request en) = Ok true.
Proof.
  intros [_ Ha] Hg Hk. destruct (pw_published_anchor st) as [a|], ext as [x|]; try done.
  destruct Ha as (_ & _ & Hd & _). unfold database_digest in Hd. apply bind_Ok in Hd as (db & Hdb & _).
  unfold canonical_database_state in Hdb. apply bind_Ok in Hdb as (vs & _ & Hdb).
  apply bind_Ok in Hdb as (rs & Hrs & _). apply mapE_Ok in Hrs. destruct key as [v r].
  apply elem_of_entries in Hk. destruct (list_elem_of_lookup_1 _ _ Hk) as [i Hi].
  destruct (Forall2_lookup_l _ _ _ _ _ Hrs Hi) as (rc & _ & Hrc). unfold to_protocol in Hrc.
  apply bind_Ok in Hrc as (bs & Hbs%map_err_Ok & _). apply same_request_Ok. by exists bs.
Qed.

Lemma cancel_open_refines now_ms policy request cancellation (e : eng) :
  table_ok (logical e) → request_typed request → anchored identity (state_of e) (external_of e) →
  (ls_last_accepted_wall_time_ms (logical e) ≤ skewed now_ms)%N →
  (∀ known, ls_replay (logical e) !! (wr_vault_id request, wr_request_id request) = Some known →
    re_response known = None ∧ same_request (re_request known) request = Ok true) →
  wp (cancel_open identity now_ms policy (state_of e) request cancellation)
    (op_post now_ms (logical e) (λ p l, answers l request (cancellation_response p))) e.
Proof.
  intros Hok Htyp Ha Hc Hkn. unfold cancel_open. cbv zeta. fold_logical e.
  set (key := (wr_vault_id request, wr_request_id request)) in *.
  apply wp_check; [done|]. intros [] Hv. do 3 (apply wp_check; [done|]; intros ? _).
  eapply wp_quiet; [apply denial_quiet|]. intros response e1 _ Hs He.
  assert (logical e1 = logical e) as Hl by (unfold logical; by rw Hs).
  apply wp_check; [done|]. intros retain Hret%retain_through_Ok.
  eapply (wp_commit now_ms _ (ls_vaults (logical e))); [done|done|done|intros ?; apply vault_step_same| |].
  - apply entry_step_insert. fold_logical e. destruct (ls_replay (logical e) !! key) as [known|] eqn:Hk.
    + destruct (Hkn known eq_refl). by apply settle_step; try done; apply Hok.
    + split; [by split|]. cbn. unfold validate_embedded_request in Hv. apply bind_Ok in Hv as ([] & Ht & _).
      unfold validate_request_time in Ht. rewrite -> !reject_if_bind in Ht.
      destruct Ht as (_ & _ & Ht%reject_if_Ok). by to_prop.
  - intros e3 Hl3 Ha3. apply wp_ret. split_and!; try done. intros ? [= <-].
    assert (ls_replay (logical e3) !! key = Some (match ls_replay (logical e) !! key with
      | Some entry => cancel_entry x1 response entry | None => _ end)) as Hk3 by (rw Hl3; by apply lookup_insert_eq).
    eexists. split; [exact Hk3|]. destruct (ls_replay (logical e) !! key) as [known|] eqn:Hk.
    + split; [|done]. by apply (Hkn known eq_refl).
    + split; [|done]. eapply (anchored_request (state_of e3)); [done| |exact Hk3].
      fold_logical e3. rw Hl3. cbn. lia.
Qed.

Lemma cancel_refines now_ms policy request cancellation (e : eng) :
  table_ok (logical e) → request_typed request →
  wp (cancel identity now_ms policy request cancellation)
    (op_post now_ms (logical e) (λ p l, answers l request (cancellation_response p))) e.
Proof.
  intros Hok Htyp. unfold cancel. apply wp_begin. intros e' Hl Ha Hc. rewrite <- Hl in Hok. fold_logical e'.
  destruct (ls_replay (logical e') !! _) as [known|] eqn:Hk; [|apply cancel_open_refines; by [|naive_solver]].
  apply wp_check; [done|]. intros same Hsame. apply wp_check; [done|]. intros [] Hst%reject_if_Ok.
  destruct same; [|done]. destruct (re_response known) as [response|] eqn:Hr.
  - apply wp_check; [done|]. intros [] _. apply wp_ret. apply op_post_ok; [done|done|].
    exists known. split_and!; [done|done|]. by destruct (bool_decide _).
  - apply cancel_open_refines; try done. intros known' Hk'. rewrite -> Hk in Hk'. by injection Hk' as <-.
Qed.

(** An approving response that was not there before rests on a validated request
    and enough approvals. *)
Definition approved_now (now_ms : N) (policy : PolicyState) (request : WitnessRequestV1)
    (manifest : ActionManifestV1) (approvals : list ApprovalDecisionV1) (l : WitnessLogicalState) : Prop :=
  ∃ st known validated accepted,
    pw_logical st = l ∧
    ls_replay l !! (wr_vault_id request, wr_request_id request) = Some known ∧ re_response known = None ∧
    same_request (re_request known) request = Ok true ∧
    validate_request identity policy st request manifest now_ms = Ok validated ∧
    accepted_approvals (re_approvals known) approvals request manifest validated now_ms = Ok accepted ∧
    (war_approval_threshold (vr_rule validated) ≤ tally_approved (tally_approvals accepted (vr_rule validated)))%N.

Definition decide_recorded (now_ms : N) (policy : PolicyState) (request : WitnessRequestV1)
    (manifest : ActionManifestV1) (approvals : list ApprovalDecisionV1) (l : WitnessLogicalState)
    (p : WitnessProgress) (l' : WitnessLogicalState) : Prop :=
  match p with
  | Progress_Stable response =>
      answers l' request response ∧
      (answers l request response ∨ wdc_decision (resp_decision response) = WD_Deny ∨
       approved_now now_ms policy request manifest approvals l)
  | Progress_Pending => ∃ e, ls_replay l' !! (wr_vault_id request, wr_request_id request) = Some e ∧
                             re_response e = None
  | Progress_Reserved => False
  end.

(** Updating the open entry of a request and committing. *)
Lemma wp_settle {T} now_ms request known f (x : T) recorded (e e1 : eng) :
  let key := (wr_vault_id request, wr_request_id request) in
  table_ok (logical e) → (ls_last_accepted_wall_time_ms (logical e) ≤ skewed now_ms)%N →
  state_of e1 = state_of e → ls_replay (logical e) !! key = Some known → re_response known = None →
  re_request (f known) = re_request known →
  re_action_manifest_digest (f known) = re_action_manifest_digest known →
  re_retain_through_ms (f known) = re_retain_through_ms known →
  (re_state (f known) = RS_Reserved ↔ re_response (f known) = None) →
  (∀ l', ls_replay l' !! key = Some (f known) → recorded x l') →
  wp (state ← lift (update_entry key f (state_of e)); commit_and_publish identity state now_ms;; mret x)
    (op_post now_ms (logical e) recorded) e1.
Proof.
  intros key Hok Hc Hs Hk Hn Hreq Hd Hret Hop Hrec.
  assert (logical e1 = logical e) as Hl by (unfold logical; by rw Hs).
  apply wp_check; [done|]. intros st (known' & Hk' & ->)%update_entry_Ok. fold_logical e.
  rewrite -> Hk in Hk'. injection Hk' as <-.
  eapply (wp_commit now_ms _ (ls_vaults (logical e))); [done|done|done|intros ?; apply vault_step_same| |].
  - apply entry_step_insert. fold_logical e. rewrite -> Hk. by apply settle_step; try done; apply Hok.
  - intros e3 Hl3 _. apply wp_ret. split_and!; try done. intros ? [= <-]. apply Hrec. rw Hl3. by apply lookup_insert_eq.
Qed.

Lemma decide_validated_refines now_ms policy request manifest approvals known validated (e : eng) :
  table_ok (logical e) → anchored identity (state_of e) (external_of e) →
  (ls_last_accepted_wall_time_ms (logical e) ≤ skewed now_ms)%N →
  ls_replay (logical e) !! (wr_vault_id request, wr_request_id request) = Some known →
  re_response known = None → same_request (re_request known) request = Ok true →
  validate_request identity policy (state_of e) request manifest now_ms = Ok validated →
  wp (decide_validated identity now_ms (state_of e) known request manifest approvals validated)
    (op_post now_ms (logical e) (decide_recorded now_ms policy request manifest approvals (logical e))) e.
Proof.
  intros Hok Ha Hc Hk Hn Hsame Hv. unfold decide_validated. cbv zeta.
  assert (re_state known = RS_Reserved) as Hst by (by apply (Hok _ _ Hk)).
  do 2 (apply wp_check; [done|]; intros ? _). apply wp_check; [done|]. intros accepted Hacc.
  destruct (_ <=? _)%N eqn:Hth; [|destruct (_ <? _)%N; [|destruct (negb _)]].
  - eapply wp_quiet; [apply approval_quiet|]. intros response e1 _ Hs _.
    apply (wp_settle _ _ known); try done. intros l' Hk'. split; [eexists; by split_and!|].
    right. right. exists (state_of e), known, validated, accepted. split_and!; try done. by to_prop.
  - eapply wp_quiet; [apply denial_quiet|]. intros response e1 Hdeny Hs _.
    apply (wp_settle _ _ known); try done. intros l' Hk'. split; [eexists; by split_and!|naive_solver].
  - apply (wp_settle _ _ known); try done. intros l' Hk'. eexists. split; [exact Hk'|done].
  - apply wp_ret. apply op_post_ok; [done|done|]. by exists known.
Qed.

Lemma decide_refines now_ms policy request manifest approvals (e : eng) :
  table_ok (logical e) →
  wp (decide_request identity now_ms policy request manifest approvals)
    (op_post now_ms (logical e) (decide_recorded now_ms policy request manifest approvals (logical e))) e.
Proof.
  intros Hok. unfold decide_request. apply wp_check; [done|]. intros [] _.
  apply wp_begin. intros e' Hl Ha Hc. rewrite <- Hl in *. clear Hl e. cbv zeta.
  apply wp_check; [done|]. intros known Hk%ok_or_Ok. fold_logical e'.
  apply wp_check; [done|]. intros same Hsame. apply wp_check; [done|]. intros [] Hs%reject_if_Ok.
  destruct same; [|done]. do 3 (apply wp_check; [done|]; intros ? _).
  destruct (re_response known) as [response|] eqn:Hr.
  { apply wp_ret. apply op_post_ok; [done|done|]. split; [by exists known|left; by exists known]. }
  destruct (validate_request _ _ _ _ _ _) as [validated|x'] eqn:Hv; [by apply decide_validated_refines|].
  case_bool_decide; [|by apply wp_lift_post].
  eapply wp_quiet; [apply denial_quiet|]. intros response e1 Hdeny Hs1 _.
  apply (wp_settle _ _ known); try done. intros l' Hk'. split; [eexists; by split_and!|naive_solver].
Qed.

(** While stale requests are denied, only the replay table changes, and each
    entry by a step. *)
Definition denying (now_ms : N) (l : WitnessLogicalState) (st : PersistedWitnessState) : Prop :=
  ∃ replay, pw_logical st = with_tables (ls_vaults l) replay l ∧
    ∀ key, entry_step now_ms key (ls_replay l !! key) (replay !! key).

Lemma deny_stale_refines now_ms generation l key en st (e : eng) :
  table_ok l → ls_replay l !! key = Some en → re_state en = RS_Reserved → denying now_ms l st →
  wp (deny_stale identity generation now_ms st (key, en))
    (λ r e', state_of e' = state_of e ∧ external_of e' = external_of e ∧
       ∀ st', r = Ok st' → denying now_ms l st') e.
Proof.
  intros Hok Hk Hst (replay & Hlog & Hrep). unfold deny_stale.
  eapply wp_bind_mono; [apply denial_quiet|naive_solver|]. intros response e1 (Hs & He & _).
  apply wp_lift. split_and!; try done. intros st' (cur & Hcur & ->)%update_entry_Ok.
  rewrite -> Hlog in *. exists (<[key := deny_entry response cur]> replay). cbn in Hcur. split; [cbn; by rw Hlog|].
  intros key'. destruct (decide (key = key')) as [<-|Hne]; [|by rw lookup_insert_ne; [apply Hrep|]].
  rw lookup_insert_eq Hk. specialize (Hrep key). rewrite -> Hk, Hcur in Hrep.
  assert (re_response en = None) as Hn by (by apply (Hok _ _ Hk)).
  destruct Hrep as [->|(_ & Hok' & Hreq & Hd)]; [by apply settle_step; try done; apply Hok|].
  right. split_and!; try done. by eapply entry_ok_settle.
Qed.

Lemma advance_checkpoint_refines now_ms policy checkpoint material (e : eng) :
  table_ok (logical e) →
  wp (advance_checkpoint identity now_ms policy checkpoint material)
    (op_post now_ms (logical e) (λ _, checkpoint_recorded checkpoint)) e.
Proof.
  intros Hok. unfold advance_checkpoint. apply wp_check; [done|]. intros _ _. apply wp_begin.
  intros e' Hl Ha Hc. rewrite <- Hl in *. clear Hl e. do 2 (apply wp_check; [done|]; intros ? _). cbv zeta.
  apply wp_check; [done|]. intros current Hcur%ok_or_Ok. fold_logical e'.
  case_bool_decide as Hsame.
  { destruct (bool_decide _); [|by apply wp_lift_post]. apply wp_lift_post; [done|]. intros _ _. by exists current. }
  apply wp_check; [done|]. intros [] Hlt%reject_if_Ok. apply wp_check; [done|]. intros [] Heq%reject_if_Ok.
  apply wp_check; [done|]. intros [] Hnext%reject_if_Ok. apply wp_check; [done|]. intros pre Hpre%map_err_Ok.
  apply wp_check; [done|]. intros [] Hfork%reject_if_Ok. to_prop.
  eapply (wp_bind_mono _ _ (λ r e1, state_of e1 = state_of e' ∧ external_of e1 = external_of e' ∧
    ∀ st, r = Ok st → denying now_ms (logical e') st)).
  - apply (wp_foldM _ (λ st e1, state_of e1 = state_of e' ∧ external_of e1 = external_of e' ∧
      denying now_ms (logical e') st)).
    + split_and!; try done. exists (ls_replay (logical e')). split; [by unfold logical; destruct (pw_logical _)|].
      intros key. unfold entry_step. by case_match; [left|].
    + intros st e1 (? & ? & ?). split_and!; try done. by intros ? [= <-].
    + intros [key en] st e1 Hin (Hs1 & He1 & Hd). apply list_elem_of_In, List.filter_In in Hin as [Hin Hst].
      apply list_elem_of_In, elem_of_entries in Hin. to_prop.
      eapply wp_mono; [by eapply (deny_stale_refines _ _ (logical e'))|].
      intros [st'|?] e2 (Hs2 & He2 & Hd2); rw Hs2 He2; split_and!; try done. by apply Hd2.
  - intros ? e1 (Hs1 & _). apply op_post_err. unfold logical. by rw Hs1.
  - intros st e1 (Hs1 & _ & Hd). destruct (Hd st eq_refl) as (replay & Hlog & Hrep).
    apply wp_check; [unfold logical; by rw Hs1|]. intros cur' Hcur'%ok_or_Ok. rewrite -> Hlog in Hcur'. cbn in Hcur'.
    rewrite -> Hcur in Hcur'. injection Hcur' as <-.
    eapply (wp_commit now_ms _ _ replay); [unfold logical; by rw Hs1|unfold set_vaults; cbn; by rw Hlog|done| |done|].
    + intros v. destruct (decide (vc_vault_id checkpoint = v)) as [<-|Hne];
        [|rw lookup_insert_ne; [apply vault_step_same|done]].
      rw lookup_insert_eq Hcur. right. cbn. split_and!; [done| |].
      * rewrite -> Hnext. unfold saturating_add_u64. unfold saturating_add_u64 in Hnext. lia.
      * congruence.
    + intros e3 Hl3 _. apply wp_lift. split_and!; try done. intros _ _. rw Hl3. eexists. cbn.
      by rw lookup_insert_eq.
Qed.
End refinement.
