(* ===== verification/WitnessEngineTheorems.v ===== *)
(** * Guarantees of the witness engine

    Theorems on single operations and on runs: any sequence of operations, each
    with its own arguments, time and identity, any of which may fail where the
    store, the anchor, the identity or the random source fails, as it does when
    the process stops in the middle. *)

From S2P Require Import Prelude VaultTypes Canonical Preimage WitnessPolicy PolicyState Identifiers Text Effects WitnessMessages WitnessCodec WitnessValidation WitnessEngine WitnessEngineSpec WitnessEngineRefinement.
Local Open Scope jury_scope.

(** ** The operations as one type *)

Inductive operation :=
  | Op_check_ready
  | Op_status
  | Op_register (policy : PolicyState) (registration : bytes) (checkpoint : VaultPolicyCheckpointV1)
      (material : bytes)
  | Op_advance (policy : PolicyState) (checkpoint : VaultPolicyCheckpointV1) (material : bytes)
  | Op_cancel (policy : PolicyState) (request : WitnessRequestV1) (cancellation : RequestCancellationV1)
  | Op_compact
  | Op_reserve (policy : PolicyState) (request : WitnessRequestV1) (manifest : ActionManifestV1)
  | Op_decide (policy : PolicyState) (request : WitnessRequestV1) (manifest : ActionManifestV1)
      (approvals : list ApprovalDecisionV1).

Inductive reply :=
  | Reply_ready
  | Reply_status (status : WitnessOperationalStatus)
  | Reply_acknowledged (acknowledgement : WitnessCheckpointAcknowledgementV1)
  | Reply_cancellation (progress : CancellationProgress)
  | Reply_compacted (removed : N)
  | Reply_progress (progress : WitnessProgress).

(** The requests an operation is given are values of their Rust type. *)
Definition operation_typed (op : operation) : Prop :=
  match op with
  | Op_cancel _ request _ | Op_reserve _ request _ | Op_decide _ request _ _ => request_typed request
  | _ => True
  end.

Section theorems.
Context `{Crypto} {S A R I : Type} `{!WitnessStateStore S, !StoreLaws S, !ExternalWitnessAnchor A, !AnchorLaws A}
  `{RandomSource R} `{WitnessEngineIdentity I R}.

Abbreviation eng := (Engine S A R).

Definition exec (identity : I) (now_ms : N) (op : operation) : eff WitnessEngineErrorKind eng reply :=
  match op with
  | Op_check_ready => check_ready identity now_ms;; mret Reply_ready
  | Op_status => s ← operational_status identity now_ms; mret (Reply_status s)
  | Op_register policy registration checkpoint material =>
      a ← register_vault identity now_ms policy registration checkpoint material; mret (Reply_acknowledged a)
  | Op_advance policy checkpoint material =>
      a ← advance_checkpoint identity now_ms policy checkpoint material; mret (Reply_acknowledged a)
  | Op_cancel policy request cancellation =>
      p ← cancel identity now_ms policy request cancellation; mret (Reply_cancellation p)
  | Op_compact => n ← compact_replay identity now_ms; mret (Reply_compacted n)
  | Op_reserve policy request manifest =>
      p ← reserve identity now_ms policy request manifest; mret (Reply_progress p)
  | Op_decide policy request manifest approvals =>
      p ← decide_request identity now_ms policy request manifest approvals; mret (Reply_progress p)
  end.

(** What a reply says is in the state behind it. *)
Definition reply_recorded (op : operation) (rp : reply) (l : WitnessLogicalState) : Prop :=
  match op, rp with
  | Op_register _ _ checkpoint _, Reply_acknowledged _
  | Op_advance _ checkpoint _, Reply_acknowledged _ => checkpoint_recorded checkpoint l
  | Op_cancel _ request _, Reply_cancellation p => answers l request (cancellation_response p)
  | Op_reserve _ request _, Reply_progress (Progress_Stable response) =>
      settled l (wr_vault_id request, wr_request_id request) response
  | Op_decide _ request _ _, Reply_progress (Progress_Stable response) => answers l request response
  | _, _ => True
  end.

Lemma wp_reply {T} identity now_ms l (m : eff WitnessEngineErrorKind eng T) (f : T → reply) recorded recorded' (e : eng) :
  wp m (op_post identity now_ms l recorded) e → (∀ x l', recorded x l' → recorded' (f x) l') →
  wp (x ← m; mret (f x)) (op_post identity now_ms l recorded') e.
Proof.
  intros Hm Hf. eapply wp_bind_mono; [exact Hm|by intros x e' [Ht _]; split|].
  intros x e' [Ht Hx]. apply wp_ret. split; [done|]. intros ? [= <-]. destruct (Hx x eq_refl). auto.
Qed.

Lemma exec_refines identity now_ms op (e : eng) :
  table_ok (logical e) → operation_typed op →
  wp (exec identity now_ms op) (op_post identity now_ms (logical e) (reply_recorded op)) e.
Proof.
  intros Hok Ht. destruct op; cbn [exec];
    (eapply wp_reply;
     [first [apply check_ready_refines|apply operational_status_refines|apply register_vault_refines
            |by apply advance_checkpoint_refines|by apply cancel_refines|apply compact_replay_refines
            |by apply reserve_refines|by apply decide_refines]|]); try done.
  - by intros [].
  - intros [] l' Hr; try done. apply Hr.
Qed.

Lemma exec_run identity now_ms op (e e' : eng) r :
  table_ok (logical e) → operation_typed op → exec identity now_ms op e = (r, e') →
  op_post identity now_ms (logical e) (reply_recorded op) r e'.
Proof. intros Hok Ht. apply wp_run. by apply exec_refines. Qed.

(** ** Runs *)

(** Any operations one after the other, whether they succeed or fail, by
    identities of a set. *)
Inductive run (who : I → Prop) : eng → eng → Prop :=
  | run_refl e : run who e e
  | run_step identity now_ms op e r e1 e2 :
      who identity → operation_typed op → exec identity now_ms op e = (r, e1) → run who e1 e2 → run who e e2.

Lemma transition_table_ok now_ms l l' : table_ok l → transition now_ms l l' → table_ok l'.
Proof.
  intros Hok [->|Hc] key e He; [by apply Hok|]. pose proof (cm_entries _ _ _ Hc key) as Hs. rewrite -> He in Hs.
  unfold entry_step in Hs. destruct (ls_replay l !! key) as [e0|] eqn:Hold; [|by destruct Hs].
  destruct Hs as [->|(_ & ? & _)]; [by apply Hok|done].
Qed.

(** C8: every operation of the engine implements the abstract account of it.
    Whatever the store, the anchor, the identity and the random source report,
    the stored state either stays or takes one step: one generation further, its
    time not behind and within the allowed skew, checkpoints replaced only by
    their successors, replay entries opened only before their request expires,
    settled at most once and dropped only after their retention; and the table
    stays well formed. An operation that succeeds leaves the store and the
    external anchor in agreement, and what it replied is in the state they agree
    on. *)
Theorem engine_refines identity now_ms op (e e' : eng) r :
  table_ok (logical e) → operation_typed op → exec identity now_ms op e = (r, e') →
  transition now_ms (logical e) (logical e') ∧ table_ok (logical e') ∧
  ∀ rp, r = Ok rp → anchored identity (state_of e') (external_of e') ∧ reply_recorded op rp (logical e').
Proof.
  intros Hok Ht Hx. destruct (exec_run _ _ _ _ _ _ Hok Ht Hx) as [Htr Hr]. split_and!; try done.
  by eapply transition_table_ok.
Qed.

(** What every transition keeps, every run keeps. *)
Lemma run_invariant (P : WitnessLogicalState → Prop) who (e e' : eng) :
  (∀ now_ms l l', table_ok l → P l → transition now_ms l l' → P l') →
  run who e e' → table_ok (logical e) → P (logical e) → table_ok (logical e') ∧ P (logical e').
Proof.
  intros Hstep Hrun. induction Hrun as [|identity now_ms op e r e1 e2 _ Ht Hx _ IH]; [done|]. intros Hok HP.
  destruct (exec_run _ _ _ _ _ _ Hok Ht Hx) as [Htr _].
  apply IH; [by eapply transition_table_ok|by eapply Hstep].
Qed.

(** *** One response to a request *)

(** The request has this response if any, and once its entry is gone it can no
    longer be opened: the clock is past its retention. *)
Definition final (q : WitnessRequestV1) (response : WitnessResponseV1) (l : WitnessLogicalState) : Prop :=
  let entry := ls_replay l !! (wr_vault_id q, wr_request_id q) in
  (∀ e, entry = Some e → re_request e = q → re_response e = Some response) ∧
  ((∃ e, entry = Some e ∧ re_request e = q) ∨
   (wr_expires_at_ms q + REPLAY_RETENTION_MS < ls_last_accepted_wall_time_ms l)%N).

Lemma skewed_le now_ms : (skewed now_ms ≤ now_ms + ACCEPTED_CLOCK_SKEW_MS)%N.
Proof. unfold skewed, saturating_add_u64. lia. Qed.

Lemma final_step q response now_ms l l' :
  table_ok l → final q response l → transition now_ms l l' → final q response l'.
Proof.
  intros Hok [Hr Hw] [->|Hc]; [done|]. unfold final. cbv zeta.
  pose proof (cm_entries _ _ _ Hc (wr_vault_id q, wr_request_id q)) as Hs.
  pose proof (cm_clock _ _ _ Hc) as Hclock. pose proof (skewed_le now_ms) as Hskew. rw (cm_time _ _ _ Hc).
  destruct (ls_replay l !! _) as [e|] eqn:He.
  - destruct (ls_replay l' !! _) as [e'|]; cbn in Hs.
    + assert (re_request e' = re_request e) as Hreq by (by destruct Hs as [->|(_ & _ & ? & _)]).
      split.
      * intros ? [= <-] Hq. rewrite -> Hreq in Hq. destruct Hs as [->|(Hn & _)]; [by apply Hr|].
        by rewrite -> (Hr e) in Hn.
      * destruct Hw as [(? & [= <-] & Hq)|Hw]; [left; exists e'; by rw Hreq|right; lia].
    + split; [done|]. right. destruct Hw as [(? & [= <-] & <-)|Hw]; [|lia].
      rewrite -> (eo_retain _ _ (Hok _ _ He)) in Hs. lia.
  - destruct Hw as [(? & ? & _)|Hw]; [done|]. split; [|right; lia].
    intros e' He' Hq. rewrite -> He' in Hs. destruct Hs as [_ Hlt]. rewrite -> Hq in Hlt.
    unfold ACCEPTED_CLOCK_SKEW_MS, REPLAY_RETENTION_MS in *. lia.
Qed.

Lemma answers_request l q response :
  table_ok l → request_typed q → answers l q response →
  ∃ e, ls_replay l !! (wr_vault_id q, wr_request_id q) = Some e ∧ re_request e = q ∧ re_response e = Some response.
Proof.
  intros Hok Hq (e & He & (bs & Hb & Hb')%same_request_Ok & Hr). exists e. split_and!; try done.
  apply (canonical_bytes_inj _ _ bs); try done. by apply (Hok _ _ He).
Qed.

Lemma answers_final l q response :
  table_ok l → request_typed q → answers l q response → final q response l.
Proof.
  intros Hok Hq (e & He & Hreq & Hr)%answers_request; [|done|done]. unfold final. cbv zeta. rw He. split.
  - by intros ? [= <-].
  - left. by exists e.
Qed.

(** C2: a witness answers a request once. Whatever operations follow, by
    whichever identities, at whatever times and with whatever failures of the
    store, the anchor and the random source, compaction and reuse of the request
    identifier included: when a state of the witness holds a response to a
    request, every later state that holds a response to that same request holds
    the same one. *)
Theorem one_response who (e e' : eng) q response response' :
  table_ok (logical e) → request_typed q → answers (logical e) q response → run who e e' →
  answers (logical e') q response' → response' = response.
Proof.
  intros Hok Hq Ha Hrun Ha'.
  destruct (run_invariant _ _ _ _ (final_step q response) Hrun Hok (answers_final _ _ _ Hok Hq Ha)) as [Hok' [Hr _]].
  apply answers_request in Ha' as (en & He & Hreq & Hres); try done. rewrite -> (Hr en He Hreq) in Hres. by injection Hres.
Qed.

(** *** Rollback *)

(** The external anchor is neither of the anchors the stored state knows. *)
Definition stale (e : eng) : Prop :=
  anchor_bytes (external_of e) ≠ anchor_bytes (pw_published_anchor (state_of e)) ∧
  ∀ c, pw_pending_anchor (state_of e) = Some c → anchor_bytes (external_of e) ≠ anchor_bytes (Some c).

Definition refused {T} (e : eng) (r : checked T) (e' : eng) : Prop :=
  is_ok r = false ∧ state_of e' = state_of e ∧ external_of e' = external_of e.

Lemma predecessor_matches_true published ext :
  predecessor_matches published ext = Ok true → anchor_bytes ext = anchor_bytes published.
Proof.
  destruct published as [a|], ext as [x|]; try done. intros Heq%exact_anchor_eq_true. cbn. by rw Heq.
Qed.

Lemma is_candidate_true ext c : is_candidate ext c = true → anchor_bytes ext = anchor_bytes (Some c).
Proof.
  destruct ext as [x|]; [|done]. cbn. destruct (exact_anchor_eq x c) as [[]|] eqn:Heq; try done.
  intros _. by rw (exact_anchor_eq_true _ _ Heq).
Qed.

Lemma publish_pending_refused identity (e : eng) :
  stale e → wp (publish_pending identity (state_of e)) (refused e) e.
Proof.
  intros [Hp Hc]. unfold publish_pending. apply wp_bind_lift; [|done]. intros c Hv.
  assert (pw_pending_anchor (state_of e) = Some c) as Hpc.
  { unfold validate_pending in Hv. repeat inv_ok_step. done. }
  eapply wp_bind_mono; [apply read_spec|by intros ? e1 (? & ? & _)|]. intros x e1 (Hs & He & Hx).
  rw (Hx x eq_refl). destruct (is_candidate _ c) eqn:Hcand; [by destruct (Hc c Hpc); apply is_candidate_true|].
  apply wp_bind_lift; [|done]. intros [] Hm; [by destruct Hp; apply predecessor_matches_true|].
  by apply wp_bind_lift.
Qed.

Lemma ready_state_refused identity (e : eng) : stale e → wp (ready_state identity) (refused e) e.
Proof.
  intros Hst. unfold ready_state. eapply wp_bind_mono; [apply load_spec|by intros ? e1 (? & ? & _)|].
  intros st e1 (Hs & He & Hv). rw (Hv st eq_refl). apply wp_bind_lift; [|done]. intros [] _.
  eapply (wp_bind_mono _ _ (refused e)); [|done|by intros ? ? [? _]].
  destruct (is_set _) eqn:Hp.
  - assert (stale e1) as Hst1 by (unfold stale; by rw Hs He).
    eapply wp_mono; [rw -Hs; by apply publish_pending_refused|]. intros r e2 (? & Hs2 & He2). by rw /refused Hs2 He2.
  - eapply wp_mono; [apply require_published_spec|]. intros r e2 (Hs2 & He2 & Heq). rw /refused Hs2 He2. split; [|done].
    destruct r as [[]|]; [|done]. specialize (Heq eq_refl). destruct Hst as [Hne _]. destruct Hne.
    apply published_equality_anchored in Heq as [_ Ha]; [|by destruct (pw_pending_anchor _)].
    rewrite -> He in Ha. unfold anchor_bytes. destruct (pw_published_anchor _), (external_of e); try done.
    cbn. by destruct Ha as [-> _].
Qed.

Lemma wp_begin_refused {T} identity now_ms (k : PersistedWitnessState → eff WitnessEngineErrorKind eng T) (e : eng) :
  stale e → wp (begin identity now_ms ≫= k) (refused e) e.
Proof.
  intros Hst. eapply (wp_bind_mono _ _ (refused e)); [|done|by intros ? ? [? _]]. unfold begin.
  eapply (wp_bind_mono _ _ (refused e)); [by apply ready_state_refused|done|by intros ? ? [? _]].
Qed.

Lemma exec_refused identity now_ms op (e : eng) : stale e → wp (exec identity now_ms op) (refused e) e.
Proof.
  intros Hst. destruct op; cbn [exec]; (eapply (wp_bind_mono _ _ (refused e)); [|done|by intros ? ? [? _]]);
    try (apply wp_bind_lift; [intros ? _|done]); by apply wp_begin_refused.
Qed.

(** An anchor's bytes name its generation. *)
Definition anchor_head (a : WitnessStateAnchorV1) : bytes :=
  u16be (sa_schema a) ++ sa_witness_id a ++ sa_witness_signing_key_fingerprint a ++
  u64be (sa_witness_signing_key_epoch a) ++ u64be (sa_state_generation a).

Definition anchor_tail (a : WitnessStateAnchorV1) : bytes :=
  sa_database_state_digest a ++ list_chunk VaultHighWatermarkV1_canonical_bytes (sa_vault_high_watermarks a) ++
  u64be (sa_replay_retain_through_ms a) ++ u64be (sa_last_accepted_wall_time_ms a) ++
  sa_predecessor_anchor_digest a ++ u64be (sa_issued_at_ms a).

Lemma anchor_fields_Ok a output o :
  WitnessStateAnchorV1_append_fields a output = Ok o ↔
  u32 (len (sa_vault_high_watermarks a)) = true ∧ o = output ++ anchor_head a ++ anchor_tail a.
Proof.
  unfold WitnessStateAnchorV1_append_fields, capacity, append_watermark. rw bind_Ok.
  setoid_rewrite map_err_Ok. setoid_rewrite (list_fixed_Ok VaultHighWatermarkV1_canonical_bytes).
  unfold anchor_head, anchor_tail. split.
  - intros (? & [? ->] & [= <-]). split; [done|]. by rw -!(assoc_L (++)).
  - intros [? ->]. eexists. split; [by split|]. by rw -!(assoc_L (++)).
Qed.

(** Once an anchor is valid it has bytes. *)
Lemma validate_anchor_bytes identity a :
  validate_anchor (R := R) identity a = Ok tt →
  WitnessStateAnchorV1_canonical_bytes a = Ok (anchor_head a ++ anchor_tail a ++ sa_signature a) ∧
  ∃ d, public_descriptor (R := R) identity = Ok d ∧ sa_schema a = 1%N ∧ sa_witness_id a = pd_principal_id d ∧
    sa_witness_signing_key_epoch a = 1%N ∧
    sa_witness_signing_key_fingerprint a =
      signing_key_fingerprint 3 (pd_principal_id d) 1 (pd_verification_public_key d).
Proof.
  unfold validate_anchor. intros (d & Hd%map_err_Ok & Hv)%bind_Ok. rewrite -> reject_if_bind in Hv.
  destruct Hv as [Hid (p & Hp%map_err_Ok & _)%bind_Ok]. unfold WitnessStateAnchorV1_signature_preimage in Hp.
  apply bind_Ok in Hp as ([] & Hs & [Hf _]%anchor_fields_Ok). unfold WitnessStateAnchorV1_canonical_bytes. split.
  - rw Hs. cbn. apply bind_Ok. eexists. split; [apply anchor_fields_Ok; by split|]. by rw /= -(assoc_L (++)).
  - exists d. unfold WitnessStateAnchorV1_validate_shape in Hs. apply reject_if_Ok in Hs. to_prop. done.
Qed.

Lemma anchor_generation_inj identity a b :
  validate_anchor (R := R) identity a = Ok tt → validate_anchor (R := R) identity b = Ok tt →
  (sa_state_generation a < 2 ^ 64)%N → (sa_state_generation b < 2 ^ 64)%N →
  WitnessStateAnchorV1_canonical_bytes a = WitnessStateAnchorV1_canonical_bytes b →
  sa_state_generation a = sa_state_generation b.
Proof.
  intros (Ha & d & Hd & Hs & Hi & He & Hf)%validate_anchor_bytes (Hb & d' & Hd' & Hs' & Hi' & He' & Hf')%validate_anchor_bytes.
  intros Hga Hgb. rewrite -> Hd in Hd'. injection Hd' as <-. rewrite -> Ha, Hb. intros Heq%Ok_inj.
  apply app_inj_1 in Heq as [Heq _].
  - unfold anchor_head in Heq. rewrite -> Hs, Hi, He, Hf, Hs', Hi', He', Hf' in Heq.
    do 4 apply app_inv_head in Heq. by apply (be_bytes_inj 8).
  - unfold anchor_head, u64be. rewrite -> Hs, Hi, He, Hf, Hs', Hi', He', Hf', !length_app, !length_be_bytes. done.
Qed.

Lemma run_generation who (e e' : eng) :
  run who e e' → table_ok (logical e) → (ls_state_generation (logical e) ≤ ls_state_generation (logical e'))%N.
Proof.
  intros Hrun Hok.
  apply (run_invariant (λ l, ls_state_generation (logical e) ≤ ls_state_generation l)%N _ _ _) with (2 := Hrun); try done.
  intros now_ms l l' _ Hle [->|Hc]; [done|]. rw (cm_generation _ _ _ Hc). lia.
Qed.

(** Two anchored states of one witness with different generations have different
    anchors. *)
Lemma anchored_generation identity st st' ext ext' :
  anchored (R := R) identity st ext → anchored (R := R) identity st' ext' →
  (ls_state_generation (pw_logical st) < ls_state_generation (pw_logical st') < 2 ^ 64)%N →
  anchor_bytes ext' ≠ anchor_bytes (pw_published_anchor st).
Proof.
  intros [_ Ha] [_ Ha'] Hg. destruct (pw_published_anchor st) as [a|], ext as [x|]; try done.
  - destruct ext' as [x'|]; [|done]. destruct (pw_published_anchor st') as [a'|]; [|done].
    destruct Ha as (_ & Hga & _ & Hv). destruct Ha' as (Hb' & Hga' & _ & Hv'). cbn. rw -Hb'. intros Heq%(inj Some).
    apply (anchor_generation_inj identity) in Heq; try done; lia.
  - destruct ext' as [x'|]; [done|]. destruct (pw_published_anchor st'); [done|]. lia.
Qed.

(** C4: a restored copy of the store is refused. Take a state the external
    anchor vouched for and a later one of the same witness, with at least one
    commit in between. Whoever puts the earlier store back beside the later
    external anchor gets an error from every operation, at any time and with any
    identity and arguments, and neither the store nor the anchor changes. *)
Theorem rollback_refused who (identity identity' : I) now_ms op (e0 e1 e e' : eng) r :
  anchored identity (state_of e0) (external_of e0) → table_ok (logical e0) → run who e0 e1 →
  anchored identity (state_of e1) (external_of e1) →
  ls_state_generation (logical e0) ≠ ls_state_generation (logical e1) →
  (ls_state_generation (logical e1) < 2 ^ 64)%N →
  state_of e = state_of e0 → external_of e = external_of e1 →
  exec identity' now_ms op e = (r, e') →
  is_ok r = false ∧ state_of e' = state_of e0 ∧ external_of e' = external_of e1.
Proof.
  intros Ha Hok Hrun Ha' Hne Hlt Hs He Hx. pose proof (run_generation _ _ _ Hrun Hok) as Hle.
  rewrite <- Hs, <- He. refine (wp_run _ (refused e) _ _ _ _ Hx). apply exec_refused. split.
  - rw Hs He. eapply (anchored_generation identity (state_of e0) (state_of e1)); [done|done|]. unfold logical in *. lia.
  - rw Hs. by destruct Ha as [-> _].
Qed.
End theorems.
