(* ===== verification/WitnessQuorum.v ===== *)
(** * Approvals and the quorum behind an approving response

    What [normalize_approvals] keeps and what [tally_approvals] counts, and from
    these: a witness approves a request only if enough distinct approvers of the
    rule approved it, none of them with a second opinion. *)

From S2P Require Import Prelude VaultTypes Canonical Preimage WitnessPolicy PolicyState Identifiers Replay CatalogTheorems Text Effects WitnessMessages WitnessCodec WitnessValidation WitnessEngine WitnessEngineSpec WitnessEngineRefinement.
Local Open Scope jury_scope.

(** ** Normalisation *)

Lemma dedup_by_key_incl {A K} `{EqDecision K} (key : A → K) l x : x ∈ dedup_by_key key l → x ∈ l.
Proof.
  revert x. induction l as [|y l IH]; intros x; [done|]. cbn. destruct (dedup_by_key key l) as [|z d]; [set_solver|].
  case_bool_decide; set_solver.
Qed.

Lemma dedup_by_key_complete {A K} `{EqDecision K} (key : A → K) l x :
  x ∈ l → ∃ y, y ∈ dedup_by_key key l ∧ key y = key x.
Proof.
  induction l as [|y l IH]; [by intros ?%elem_of_nil|]. intros [->|Hx]%elem_of_cons.
  - exists y. split; [|done]. cbn. destruct (dedup_by_key key l) as [|z d]; [set_solver|]. case_bool_decide; set_solver.
  - destruct (IH Hx) as (z & Hz & Hk). cbn. destruct (dedup_by_key key l) as [|u d]; [set_solver|].
    case_bool_decide as Hyu; [|exists z; set_solver]. apply elem_of_cons in Hz as [->|Hz]; [|exists z; set_solver].
    exists y. split; [set_solver|congruence].
Qed.

Section approvals.
Context `{Crypto}.

Abbreviation keyed := (PrincipalId * bytes * ApprovalDecisionV1)%type.

Definition of_approver (id : PrincipalId) (l : list keyed) : list keyed := List.filter (λ k, k.1.1 ==? id) l.

Lemma same_approver_count_le id (l : list keyed) : same_approver_count id l ≤ length (of_approver id l).
Proof.
  unfold of_approver. induction l as [|k l IH]; [done|]. cbn. case_bool_decide; cbn; lia.
Qed.

Lemma of_approver_app id l l' : of_approver id (l ++ l') = of_approver id l ++ of_approver id l'.
Proof. apply List.filter_app. Qed.

Lemma of_approver_rev id (l : list keyed) : length (of_approver id (rev l)) = length (of_approver id l).
Proof. induction l as [|k l IH]; [done|]. cbn [rev]. rw of_approver_app length_app IH. unfold of_approver. cbn. case_bool_decide; cbn; lia. Qed.

(** Nothing is dropped but a third and later decision of an approver. *)
Lemma retain_two_spec l (retained : list keyed) :
  (∀ k, k ∈ fold_left retain_two l retained → k ∈ retained ∨ k ∈ l) ∧
  (∀ id, length (of_approver id retained) ≤ length (of_approver id (fold_left retain_two l retained))) ∧
  (∀ k, k ∈ retained ∨ k ∈ l →
    k ∈ fold_left retain_two l retained ∨ 2 ≤ length (of_approver k.1.1 (fold_left retain_two l retained))).
Proof.
  revert retained. induction l as [|x l IH]; intros retained; [cbn; split_and!; [tauto|done|intros k [?|?%elem_of_nil]; [tauto|done]]|].
  cbn [fold_left]. destruct (IH (retain_two retained x)) as (Hin & Hmono & Hkeep). unfold retain_two in *.
  destruct (_ <? 2)%nat eqn:Hc; split_and!.
  - intros k Hk. apply Hin in Hk. set_solver.
  - intros id. etrans; [|apply Hmono]. rw of_approver_app length_app. lia.
  - intros k Hk. apply Hkeep. set_solver.
  - intros k Hk. apply Hin in Hk. set_solver.
  - intros id. apply Hmono.
  - intros k [Hk|[->|Hk]%elem_of_cons]; [apply Hkeep; by left| |apply Hkeep; by right].
    right. etrans; [|apply Hmono]. etrans; [|by rw -of_approver_rev; apply same_approver_count_le].
    by apply Nat.ltb_ge in Hc.
Qed.

Lemma keyed_approval_Ok a k :
  keyed_approval a = Ok k ↔ ∃ bs, ApprovalDecisionV1_canonical_bytes a = Ok bs ∧ k = (ap_approver_id a, bs, a).
Proof.
  unfold keyed_approval. rw bind_Ok. setoid_rewrite map_err_Ok. split.
  - intros (bs & Hb & [= <-]). eauto.
  - intros (bs & Hb & ->). eauto.
Qed.

Lemma decisions_of_keyed id (l : list keyed) :
  Forall (λ k, k.1.1 = ap_approver_id k.2) l → decisions_of id l.*2 = (of_approver id l).*2.
Proof.
  unfold decisions_of, of_approver. induction 1 as [|k l Hk Hl IH]; [done|]. cbn. rw -Hk. case_match; cbn; by rw IH.
Qed.

(** The retained approvals are among the given ones, and an approver with one
    retained decision gave no other. *)
Lemma normalize_approvals_Ok approvals accepted :
  normalize_approvals approvals = Ok accepted →
  (∀ a, a ∈ accepted → a ∈ approvals) ∧
  ∀ a d, a ∈ approvals → decisions_of (ap_approver_id a) accepted = [d] →
    ApprovalDecisionV1_canonical_bytes a = ApprovalDecisionV1_canonical_bytes d.
Proof.
  unfold normalize_approvals. intros (ks & Hks%mapE_Ok & Hn)%bind_Ok. cbv zeta in Hn. rewrite -> reject_if_bind in Hn.
  destruct Hn as [_ [= <-]]. set (sorted := dedup_by_key fst (sort_by_key fst ks)).
  destruct (retain_two_spec sorted []) as (Hin & _ & Hkeep). set (kept := fold_left retain_two sorted []) in *.
  assert (∀ k, k ∈ sorted → ∃ a bs, a ∈ approvals ∧ ApprovalDecisionV1_canonical_bytes a = Ok bs ∧
    k = (ap_approver_id a, bs, a)) as Hsorted.
  { intros k Hk%dedup_by_key_incl. unfold sort_by_key in Hk. rewrite -> merge_sort_Permutation in Hk.
    apply list_elem_of_lookup_1 in Hk as [i Hi]. destruct (Forall2_lookup_r _ _ _ _ _ Hks Hi) as (a & Ha & Hk).
    apply keyed_approval_Ok in Hk as (bs & Hb & ->). exists a, bs. split_and!; try done. by eapply list_elem_of_lookup_2. }
  assert (∀ k, k ∈ kept → k ∈ sorted) as Hkept by (intros k Hk; by apply Hin in Hk as [?%elem_of_nil|]).
  split.
  - intros a (k & -> & Hk)%list_elem_of_fmap. by apply Hkept, Hsorted in Hk as (a & bs & Ha & _ & ->).
  - intros a d Ha. rw decisions_of_keyed.
    2:{ apply Forall_forall. intros k Hk. by apply Hkept, Hsorted in Hk as (a' & bs & _ & _ & ->). }
    intros Hone. apply list_elem_of_lookup_1 in Ha as [i Hi]. destruct (Forall2_lookup_l _ _ _ _ _ Hks Hi) as (k & Hki & Hk).
    apply keyed_approval_Ok in Hk as (bs & Hb & ->). apply list_elem_of_lookup_2 in Hki.
    destruct (dedup_by_key_complete fst (sort_by_key fst ks) (ap_approver_id a, bs, a)) as (y & Hy & Hky).
    { unfold sort_by_key. by rewrite -> merge_sort_Permutation. }
    fold sorted in Hy. destruct (Hsorted y Hy) as (a' & bs' & _ & Hb' & ->). cbn in Hky. injection Hky as Hid ->.
    destruct (Hkeep _ (or_intror Hy)) as [Hyk|Htwo]; cbn in *.
    + assert (a' ∈ [d]) as Had; [|apply list_elem_of_singleton in Had as ->; congruence].
      rewrite <- Hone. apply (list_elem_of_fmap_2 snd _ (ap_approver_id a', bs, a')).
      apply list_elem_of_In, List.filter_In. rewrite <- list_elem_of_In. split; [done|]. cbn. by rw Hid bool_decide_true.
    + apply (f_equal length) in Hone. rewrite -> length_fmap in Hone. rewrite -> Hid in Htwo. cbn in Hone. lia.
Qed.
End approvals.

(** ** The tally *)

(** The approver has one decision, and it approves. *)
Definition approving (approvals : list ApprovalDecisionV1) (id : PrincipalId) : bool :=
  match decisions_of id approvals with [d] => ap_decision d ==? AD_Approve | _ => false end.

Lemma tally_step_approved approvals t id :
  tally_approved (tally_step approvals t id) = (tally_approved t + (if approving approvals id then 1 else 0))%N.
Proof.
  unfold tally_step, approving. destruct (decisions_of id approvals) as [|d [|]]; cbn; try lia.
  destruct (ap_decision d); cbn; case_bool_decide; try done; lia.
Qed.

Lemma tally_approved_count approvals rule :
  tally_approved (tally_approvals approvals rule) = len (List.filter (approving approvals) (war_eligible_approver_ids rule)).
Proof.
  unfold tally_approvals. generalize (war_eligible_approver_ids rule). intros ids.
  assert (∀ t, tally_approved (fold_left (tally_step approvals) ids t) =
    (tally_approved t + len (List.filter (approving approvals) ids))%N) as ->; [|cbn; lia].
  induction ids as [|id ids IH]; intros t; cbn; [unfold len; cbn; lia|].
  rw IH tally_step_approved. destruct (approving approvals id); unfold len; cbn; lia.
Qed.

Lemma approving_decision approvals id :
  approving approvals id = true →
  ∃ d, decisions_of id approvals = [d] ∧ d ∈ approvals ∧ ap_approver_id d = id ∧ ap_decision d = AD_Approve.
Proof.
  unfold approving. destruct (decisions_of id approvals) as [|d [|]] eqn:Hd; try done. intros Happ. to_prop.
  assert (d ∈ decisions_of id approvals) as Hin by (rw Hd; set_solver).
  apply list_elem_of_In, List.filter_In in Hin as [Hin Hid]. to_prop. exists d. split_and!; try done. by apply list_elem_of_In.
Qed.

(** ** The quorum *)

Section quorum.
Context `{Crypto}.

(** An approver whose current decisions on a request all are one valid approval. *)
Definition approves (now_ms : N) (request : WitnessRequestV1) (manifest : ActionManifestV1)
    (validated : ValidatedRequest) (decisions : list ApprovalDecisionV1) (id : PrincipalId) : Prop :=
  ∃ a, a ∈ decisions ∧ ap_approver_id a = id ∧ ap_decision a = AD_Approve ∧
    validate_approval a request manifest validated now_ms = Ok tt ∧
    ∀ b, b ∈ decisions → ap_approver_id b = id → approval_is_current b now_ms = true →
      ApprovalDecisionV1_canonical_bytes b = ApprovalDecisionV1_canonical_bytes a.

Lemma accepted_approvals_Ok known new request manifest validated now_ms accepted :
  accepted_approvals known new request manifest validated now_ms = Ok accepted →
  ∀ id, approving accepted id = true → approves now_ms request manifest validated (known ++ new) id.
Proof.
  unfold accepted_approvals. intros (u & Hst & Hacc)%bind_Ok. apply bind_Ok in Hacc as (u' & Hnew & Hn).
  rewrite -> forE_Ok in Hst. rewrite -> forE_Ok in Hnew. apply normalize_approvals_Ok in Hn as [Hin Hone].
  assert (∀ a, a ∈ List.filter (λ approval, approval_is_current approval now_ms) known ++ new →
    a ∈ known ++ new ∧ validate_approval a request manifest validated now_ms = Ok tt) as Hvalid.
  { intros a [Ha|Ha]%elem_of_app.
    - apply list_elem_of_In, List.filter_In in Ha as [Ha Hc]. apply list_elem_of_In in Ha.
      split; [set_solver|]. unfold validate_approval. rw (Hst a Ha). cbn. by rw Hc.
    - split; [set_solver|]. by apply Hnew. }
  intros id (a & Hd & Ha & Hid & Happ)%approving_decision. destruct (Hvalid a (Hin a Ha)) as [Hka Hv].
  exists a. split_and!; try done. intros b Hb Hidb Hc. apply Hone; [|by rw Hidb].
  apply elem_of_app in Hb as [Hb|Hb]; apply elem_of_app; [left|by right].
  apply list_elem_of_In, List.filter_In. split; [by apply list_elem_of_In|done].
Qed.

Lemma request_policy_rule policy request v :
  validate_request_policy policy request = Ok v →
  witness_access_rule policy (wr_item_id request) (core_operation (wr_operation request)) = Ok (vrp_rule v).
Proof. unfold validate_request_policy. intros Hv. repeat inv_ok_step. done. Qed.

Lemma access_rule_distinct j policies policy item op rule :
  replay_policy_with_witness_policies j policies = Ok policy → witness_access_rule policy item op = Ok rule →
  NoDup (war_eligible_approver_ids rule).
Proof.
  intros Hrep. unfold witness_access_rule.
  intros (a & _ & (a' & _ & (p & Hp%ok_or_Ok & (r & Hr%ok_or_Ok & [= <-])%bind_Ok)%bind_Ok)%bind_Ok)%bind_Ok.
  pose proof (replayed_policies_sound _ _ _ _ _ Hrep Hp) as Hs. apply pso_rules in Hs as [_ Hs].
  apply List.find_some in Hr as [Hr _]. apply list_elem_of_In in Hr. rewrite -> Forall_forall in Hs. by apply (Hs r Hr).
Qed.

Context {S A R I : Type} `{!WitnessStateStore S, !StoreLaws S, !ExternalWitnessAnchor A, !AnchorLaws A}
  `{RandomSource R} `{WitnessEngineIdentity I R} (identity : I).

Lemma validate_request_rule policy st request manifest now_ms validated :
  validate_request (R := R) identity policy st request manifest now_ms = Ok validated →
  witness_access_rule policy (wr_item_id request) (core_operation (wr_operation request)) = Ok (vr_rule validated).
Proof.
  unfold validate_request. intros Hv. do 6 (apply bind_Ok in Hv as (? & _ & Hv)). apply bind_Ok in Hv as (v & Hm%map_err_Ok & Hv).
  unfold validate_manifest_policy in Hm. apply bind_Ok in Hm as (v' & Hp & Hm).
  apply bind_Ok in Hm as (_ & _ & [= <-]). apply request_policy_rule in Hp. rw Hp.
  do 7 (apply bind_Ok in Hv as (? & _ & Hv)). by injection Hv as <-.
Qed.

(** C3: a witness approves a request only on a quorum. Whenever [decide] returns
    an approving response to a request that had no response yet, under a policy
    that was replayed from a journal, the request was reserved before, it passes
    validation against that policy now, and there are as many distinct
    approvers as the policy's rule for its operation demands, all eligible under
    the rule, each of whom gave a valid approval, signed for exactly this request
    and manifest and in force now, and no other decision that is in force. *)
Theorem approval_quorum j policies policy now_ms request manifest approvals (e e' : Engine S A R) response :
  replay_policy_with_witness_policies j policies = Ok policy → table_ok (logical e) →
  (∀ response, ¬ answers (logical e) request response) →
  decide_request identity now_ms policy request manifest approvals e = (Ok (Progress_Stable response), e') →
  wdc_decision (resp_decision response) = WD_Approve →
  ∃ st known validated approvers,
    pw_logical st = logical e ∧ validate_request identity policy st request manifest now_ms = Ok validated ∧
    ls_replay (logical e) !! (wr_vault_id request, wr_request_id request) = Some known ∧
    same_request (re_request known) request = Ok true ∧
    witness_access_rule policy (wr_item_id request) (core_operation (wr_operation request)) = Ok (vr_rule validated) ∧
    NoDup approvers ∧ (war_approval_threshold (vr_rule validated) ≤ len approvers)%N ∧
    ∀ id, id ∈ approvers → id ∈ war_eligible_approver_ids (vr_rule validated) ∧
      approves now_ms request manifest validated (re_approvals known ++ approvals) id.
Proof.
  intros Hrep Hok Hnew Hx Happ.
  destruct (wp_run _ _ _ _ _ (decide_refines identity now_ms policy request manifest approvals e Hok) Hx) as [_ Hr].
  destruct (Hr _ eq_refl) as [_ [_ Hd]]. rewrite -> Happ in Hd.
  destruct Hd as [Hd|[Hd|(st & known & validated & accepted & Hst & Hk & _ & Hsame & Hv & Hacc & Hth)]];
    [by destruct (Hnew response)|done|].
  exists st, known, validated, (List.filter (approving accepted) (war_eligible_approver_ids (vr_rule validated))).
  apply validate_request_rule in Hv as Hrule. rewrite -> tally_approved_count in Hth. split_and!; try done.
  - apply NoDup_ListNoDup, List.NoDup_filter, NoDup_ListNoDup. by eapply access_rule_distinct.
  - intros id [Hid Hap]%list_elem_of_In%List.filter_In. split; [by apply list_elem_of_In|].
    by eapply accepted_approvals_Ok.
Qed.
End quorum.
