(* ===== verification/WitnessReceiptTheorems.v ===== *)
(** * What a receipt proves

    A receipt that verifies holds the signed decisions it counts, and whether it
    says that the request was approved is decided by them. In the other direction,
    the decisions that the checks of the client accept always make a receipt, and
    everyone can verify it from the receipt alone. *)

From S2P Require Import Prelude Json VaultTypes Canonical Preimage Validate WitnessPolicy PolicyState Identifiers Replay CatalogTheorems Text Effects WitnessMessages WitnessCodec WitnessValidation WitnessReceipt.
Local Open Scope jury_scope.

(** ** Loops that check and count *)

Lemma foldE_check {E S A} (check : A → result E unit) (f : S → A → S) (body : S → A → result E S) l s s' :
  (∀ s x, body s x = (check x;; Ok (f s x))) →
  foldE body s l = Ok s' ↔ Forall (λ x, check x = Ok tt) l ∧ s' = fold_left f l s.
Proof.
  intros Hbody. revert s. induction l as [|x l IH]; intros s; cbn.
  { split; [by intros [= ->]|by intros [_ ->]]. }
  rw Hbody Forall_cons. destruct (check x) as [[]|e]; cbn; [rw IH; naive_solver|naive_solver].
Qed.

Lemma fold_left_count {A K} (counts : A → bool) (key : A → K) l acc :
  fold_left (λ acc x, if counts x then acc ++ [key x] else acc) l acc = acc ++ (key <$> List.filter counts l).
Proof.
  revert acc. induction l as [|x l IH]; intros acc; cbn; [by rw app_nil_r|]. rw IH.
  destruct (counts x); [cbn; by rw -assoc_L|done].
Qed.

Section receipts.
Context `{Crypto} `{!Json ReceiptPolicyMaterialV1}.

Lemma validate_approvals_Ok receipt request wp ids :
  validate_approvals receipt request wp = Ok ids ↔
  ∃ intended, request_witness_set_digest request = Ok intended ∧
    Forall (λ a, check_approval receipt request wp intended a = Ok tt) (rc_approval_decisions receipt) ∧
    ids = counted_approvers_of (rc_approval_decisions receipt).
Proof.
  unfold validate_approvals. rw bind_Ok. setoid_rewrite map_err_Ok.
  setoid_rewrite (foldE_check (λ a, check_approval receipt request wp _ a)
    (λ acc x, if ap_decision x ==? AD_Approve then acc ++ [ap_approver_id x] else acc)); [|done].
  setoid_rewrite fold_left_count. done.
Qed.

Lemma validate_witness_decisions_Ok receipt request wp ids generations :
  validate_witness_decisions receipt request wp = Ok (ids, generations) ↔
  Forall (λ d, check_witness_decision receipt request wp d = Ok tt) (rc_witness_decisions receipt) ∧
  ids = counted_witnesses_of (rc_witness_decisions receipt) ∧
  generations = generation_of <$> rc_witness_decisions receipt.
Proof.
  unfold validate_witness_decisions, counted_witnesses_of.
  rw (foldE_check (check_witness_decision receipt request wp) (λ s d,
    (if wdc_decision d ==? WD_Approve then s.1 ++ [wdc_witness_id d] else s.1, s.2 ++ [generation_of d])));
    [|by intros []].
  assert (∀ l c g, fold_left (λ s d, (if wdc_decision d ==? WD_Approve then s.1 ++ [wdc_witness_id d] else s.1,
    s.2 ++ [generation_of d])) l (c, g) =
    (c ++ (wdc_witness_id <$> List.filter (λ d, wdc_decision d ==? WD_Approve) l), g ++ (generation_of <$> l))) as ->.
  { induction l as [|d l IH]; intros c g; cbn; [by rw !app_nil_r|]. rw IH.
    case_bool_decide; cbn; by rw -!assoc_L. }
  cbn. naive_solver.
Qed.

(** ** What verification establishes *)

(** The receipt holds an approval by this approver, of exactly the request, the
    action and the presentation the receipt is about, signed with the key the
    policy has for the approver. *)
Definition approved_by (r : WitnessReceiptV1) (wp : WitnessPolicy) (id : PrincipalId) : Prop :=
  ∃ a d m, a ∈ rc_approval_decisions r ∧ ap_approver_id a = id ∧ ap_decision a = AD_Approve ∧
    ap_request_digest a = rc_request_digest r ∧ ap_action_manifest_digest a = rc_action_manifest_digest r ∧
    ap_presentation_digest a = rc_presentation_digest r ∧
    d ∈ wp_approver_descriptors wp ∧ ad_status d = DS_Active ∧ ad_approver_id d = id ∧
    ApprovalDecisionV1_signature_preimage a = Ok m ∧
    verify_bytes (ad_signing_public_key d) m (ap_signature a) = true.

(** The same for a witness, whose decision also names its share. *)
Definition witnessed_by (r : WitnessReceiptV1) (wp : WitnessPolicy) (id : PrincipalId) : Prop :=
  ∃ c d m, c ∈ rc_witness_decisions r ∧ wdc_witness_id c = id ∧ wdc_decision c = WD_Approve ∧
    wdc_request_digest c = rc_request_digest r ∧ wdc_action_manifest_digest c = rc_action_manifest_digest r ∧
    d ∈ active_witness_descriptors wp ∧ wd_witness_id d = id ∧ wdc_share_index c = Some (wd_share_index d) ∧
    WitnessDecisionV1_signature_preimage c = Ok m ∧
    verify_bytes (wd_signing_public_key d) m (wdc_signature c) = true.

Lemma counted_approvers_elem id approvals :
  id ∈ counted_approvers_of approvals ↔
  ∃ a, a ∈ approvals ∧ ap_approver_id a = id ∧ ap_decision a = AD_Approve.
Proof.
  unfold counted_approvers_of. rw list_elem_of_fmap. setoid_rewrite list_elem_of_In. setoid_rewrite List.filter_In.
  setoid_rewrite bool_decide_eq_true. naive_solver.
Qed.

Lemma counted_witnesses_elem id decisions :
  id ∈ counted_witnesses_of decisions ↔
  ∃ c, c ∈ decisions ∧ wdc_witness_id c = id ∧ wdc_decision c = WD_Approve.
Proof.
  unfold counted_witnesses_of. rw list_elem_of_fmap. setoid_rewrite list_elem_of_In. setoid_rewrite List.filter_In.
  setoid_rewrite bool_decide_eq_true. naive_solver.
Qed.

Lemma approval_checked r request wp intended a :
  check_approval r request wp intended a = Ok tt → a ∈ rc_approval_decisions r → ap_decision a = AD_Approve →
  approved_by r wp (ap_approver_id a).
Proof.
  unfold check_approval. intros Hc Ha Happ. repeat inv_ok_step. to_prop.
  match goal with Hx : List.find _ _ = Some ?d |- _ =>
    apply List.find_some in Hx as [Hd Hx]; apply list_elem_of_In in Hd; to_prop; eexists a, d, _ end.
  done.
Qed.

Lemma witness_decision_checked r request wp c :
  check_witness_decision r request wp c = Ok tt → c ∈ rc_witness_decisions r → wdc_decision c = WD_Approve →
  witnessed_by r wp (wdc_witness_id c).
Proof.
  unfold check_witness_decision. intros Hc Hin Happ. rewrite -> Happ in Hc. repeat inv_ok_step. to_prop.
  match goal with Hx : List.find _ _ = Some ?d |- _ =>
    apply List.find_some in Hx as [Hd Hx]; apply list_elem_of_In in Hd; to_prop; eexists c, d, _ end.
  split_and!; try done.
  - apply list_elem_of_In, List.filter_In. rewrite <- list_elem_of_In. split; [done|]. by apply bool_decide_eq_true.
  - match goal with Hx : _ && _ = false |- _ => rewrite -> bool_decide_true in Hx by done; cbn in Hx end. by to_prop.
Qed.

Lemma material_decode_Ok bs material :
  material_decode bs = Ok material → json_parse bs = Some material ∧ material_encode material = Ok bs.
Proof. unfold material_decode. intros Hm. repeat inv_ok_step. to_prop. by subst. Qed.

Lemma material_replay_Ok material policy :
  material_replay material = Ok policy ↔
  pm_schema material = 1%N ∧
  replay_policy_with_witness_policies (pm_journal material) (pm_witness_policies material) = Ok policy.
Proof. unfold material_replay. rw reject_if_bind map_err_Ok negb_false_iff bool_decide_eq_true. done. Qed.

(** The checks of a receipt, with what each of them found. *)
Record verified (r : WitnessReceiptV1) (policy : PolicyState) (cp : option VaultPolicyCheckpointV1)
    (request : WitnessRequestV1) (validated : ValidatedRequestPolicy) : Prop := {
  vd_digests : ∃ ds, validated_digests r = Ok ds;
  vd_retained : if cp is Some c then c = rc_policy_checkpoint r else True;
  vd_request : from_signature_preimage (rc_request_signature_preimage r) (rc_client_signature r) = Ok request;
  vd_request_digest : WitnessRequestV1_digest request = Ok (rc_request_digest r);
  vd_scope : receipt_out_of_scope r request (rc_request_digest r) = false;
  vd_policy : validate_request_policy policy request = Ok validated;
  vd_checkpoint : receipt_validate_checkpoint policy (vrp_policy validated) request (rc_policy_checkpoint r) = Ok tt;
  vd_approval_threshold : rc_approval_threshold r = war_approval_threshold (vrp_rule validated);
  vd_witness_threshold : rc_witness_threshold r = war_witness_threshold (vrp_rule validated);
  vd_approvals : ∃ ids, validate_approvals r request (vrp_policy validated) = Ok ids;
  vd_decisions : ∃ ids, validate_witness_decisions r request (vrp_policy validated) = Ok ids;
  vd_quorum : quorum_invalid r (vrp_rule validated) (counted_approvers_of (rc_approval_decisions r))
    (counted_witnesses_of (rc_witness_decisions r)) = false;
  vd_endpoint : validate_endpoint_records r request policy = Ok tt;
}.

(** What the caller learns. *)
Definition reports (r : WitnessReceiptV1) (v : VerifiedWitnessReceipt) : Prop :=
  vrc_request_digest v = rc_request_digest r ∧ vrc_outcome v = rc_outcome r ∧
  vrc_counted_approver_ids v = counted_approvers_of (rc_approval_decisions r) ∧
  vrc_counted_witness_ids v = counted_witnesses_of (rc_witness_decisions r).

Lemma verify_with_policy_Ok r policy cp v :
  verify_witness_receipt_with_policy r policy cp = Ok v →
  ∃ request validated, verified r policy cp request validated ∧ reports r v.
Proof.
  unfold verify_witness_receipt_with_policy. intros ([core full] & Hd%map_err_Ok & Hv)%bind_Ok.
  rewrite -> reject_if_bind in Hv. destruct Hv as [Hcp Hv]. apply bind_Ok in Hv as (request & Hreq%map_err_Ok & Hv).
  apply bind_Ok in Hv as (digest & Hdig%map_err_Ok & Hv). rewrite -> reject_if_bind in Hv. destruct Hv as [Hscope Hv].
  apply bind_Ok in Hv as (validated & Hval%map_err_Ok & Hv). apply bind_Ok in Hv as ([] & Hck & Hv).
  rewrite -> reject_if_bind in Hv. destruct Hv as [Hth Hv]. apply bind_Ok in Hv as (? & _ & Hv).
  apply bind_Ok in Hv as (? & _ & Hv). rewrite -> reject_if_bind in Hv. destruct Hv as [_ Hv].
  apply bind_Ok in Hv as (approvers & Ha & Hv). apply bind_Ok in Hv as ([witnesses generations] & Hw & Hv).
  rewrite -> reject_if_bind in Hv. destruct Hv as [Hq Hv]. apply bind_Ok in Hv as ([] & He & Hv).
  apply bind_Ok in Hv as (? & _ & Hv%Ok_inj).
  assert (digest = rc_request_digest r) as -> by (unfold receipt_out_of_scope in Hscope; by to_prop).
  assert (approvers = counted_approvers_of (rc_approval_decisions r)) as ->
    by (by apply validate_approvals_Ok in Ha as (? & _ & _ & ->)).
  apply validate_witness_decisions_Ok in Hw as Hw'. destruct Hw' as (_ & -> & _). to_prop.
  exists request, validated. split; [split; eauto|by subst v]. destruct cp; [by to_prop|done].
Qed.

Lemma request_policy_intended policy request v :
  validate_request_policy policy request = Ok v →
  ∃ intended, request_witness_set_digest request = Ok intended ∧
    intended_witness_set_digest policy (wr_item_id request) = Ok intended.
Proof. unfold validate_request_policy. intros Hv. repeat inv_ok_step. to_prop. subst. eauto. Qed.

(** Nothing else is checked. *)
Lemma verify_with_policy_complete r policy cp request validated :
  verified r policy cp request validated →
  ∃ v, verify_witness_receipt_with_policy r policy cp = Ok v ∧ reports r v.
Proof.
  intros [[[core full] Hd] Hcp Hreq Hdig Hscope Hval Hck Hta Htw (ids & Ha) ([wids gens] & Hw) Hq He].
  destruct (request_policy_intended _ _ _ Hval) as (intended & Hi & Hi').
  assert (∃ d, VaultPolicyCheckpointV1_digest (rc_policy_checkpoint r) = Ok d) as [d Hcd].
  { unfold receipt_validate_checkpoint in Hck. repeat inv_ok_step. eauto. }
  pose proof Ha as (_ & _ & _ & ->)%validate_approvals_Ok. pose proof Hw as (_ & -> & _)%validate_witness_decisions_Ok.
  assert ((if cp is Some expected then expected !=? rc_policy_checkpoint r else false) = false) as Hc.
  { destruct cp; [split_guard; done|done]. }
  unfold verify_witness_receipt_with_policy. eexists. split.
  - rewrite -> Hd. cbn [mbind result_bind map_err]. rewrite -> Hc. cbn [reject_if mbind result_bind].
    rewrite -> Hreq. cbn [mbind result_bind map_err]. rewrite -> Hdig. cbn [mbind result_bind map_err].
    rewrite -> Hscope. cbn [reject_if mbind result_bind]. rewrite -> Hval. cbn [mbind result_bind map_err].
    rewrite -> Hck, Hta, Htw, !bool_decide_true by done. cbn [reject_if mbind result_bind negb orb].
    rewrite -> Hi, Hi'. cbn [mbind result_bind map_err]. rewrite -> bool_decide_true by done.
    cbn [reject_if mbind result_bind negb]. rewrite -> Ha. cbn [mbind result_bind]. rewrite -> Hw. cbn [mbind result_bind].
    rewrite -> Hq. cbn [reject_if mbind result_bind]. rewrite -> He. cbn [mbind result_bind]. rewrite -> Hcd.
    cbn [mbind result_bind map_err]. reflexivity.
  - done.
Qed.

Lemma quorum_valid r rule approvers witnesses :
  quorum_invalid r rule approvers witnesses = false ↔
  approvers = rc_counted_approver_ids r ∧ witnesses = rc_counted_witness_ids r ∧
  approvers ⊆ war_eligible_approver_ids rule ∧ witnesses ⊆ war_witness_ids rule ∧
  (rc_outcome r ==? RO_Approved) = quorum_approved rule approvers witnesses.
Proof.
  unfold quorum_invalid. rw !orb_false_iff !negb_false_iff !bool_decide_eq_true.
  assert (∀ l k : list PrincipalId, existsb (λ id, id ∉? k) l = false ↔ l ⊆ k) as Hsub.
  { intros l k. induction l as [|x l IH]; [split; [set_solver|done]|]. cbn.
    rw orb_false_iff negb_false_iff bool_decide_eq_true IH. set_solver. }
  rw !Hsub. tauto.
Qed.

Lemma receipt_counted r ds :
  validated_digests r = Ok ds → NoDup (rc_counted_approver_ids r) ∧ NoDup (rc_counted_witness_ids r).
Proof.
  unfold validated_digests, validated_core, receipt_shape. intros ([] & Hc & _)%bind_Ok.
  apply bind_Ok in Hc as ([] & Hs%reject_if_Ok & _). to_prop.
  split; rewrite <- list_fmap_id; by apply sorted_by_key_NoDup.
Qed.

Lemma request_policy_witness_policy policy request v :
  validate_request_policy policy request = Ok v →
  ps_witness_policies policy !! wr_witness_policy_digest request = Some (vrp_policy v) ∧
  wr_witness_policy_digest request = war_policy_digest (vrp_rule v) ∧
  witness_access_rule policy (wr_item_id request) (core_operation (wr_operation request)) = Ok (vrp_rule v).
Proof. unfold validate_request_policy. intros Hv. repeat inv_ok_step. by to_prop. Qed.

(** C10: what a verified receipt proves. The journal it carries replays, and to the
    policy that grants the request in it; the identities it counts are distinct,
    each of them gave exactly this request its approval under the key that the
    policy has for it, and every such approval is counted. It says that the request
    was approved if and only if the counted identities are a quorum of the rule. *)
Theorem receipt_evidence r cp v :
  verify_witness_receipt r cp = Ok v →
  ∃ material policy request validated,
    json_parse (rc_witness_policy_material r) = Some material ∧
    replay_policy_with_witness_policies (pm_journal material) (pm_witness_policies material) = Ok policy ∧
    WitnessRequestV1_signature_preimage request = Ok (rc_request_signature_preimage r) ∧
    WitnessRequestV1_digest request = Ok (rc_request_digest r) ∧ rc_request_digest r = vrc_request_digest v ∧
    validate_request_policy policy request = Ok validated ∧ policy_sound (vrp_policy validated) ∧
    (if cp is Some c then rc_policy_checkpoint r = c else True) ∧
    NoDup (vrc_counted_approver_ids v) ∧ NoDup (vrc_counted_witness_ids v) ∧
    (∀ id, id ∈ vrc_counted_approver_ids v ↔
      id ∈ war_eligible_approver_ids (vrp_rule validated) ∧ approved_by r (vrp_policy validated) id) ∧
    (∀ id, id ∈ vrc_counted_witness_ids v ↔ witnessed_by r (vrp_policy validated) id) ∧
    (vrc_outcome v = RO_Approved ↔
      (war_approval_threshold (vrp_rule validated) ≤ len (vrc_counted_approver_ids v))%N ∧
      (war_witness_threshold (vrp_rule validated) ≤ len (vrc_counted_witness_ids v))%N).
Proof.
  unfold verify_witness_receipt. intros (material & [Hj _]%material_decode_Ok & Hv)%bind_Ok.
  apply bind_Ok in Hv as (policy & [_ Hp]%material_replay_Ok & Hv).
  apply verify_with_policy_Ok in Hv as (request & validated & Hv & Hdig & Ho & Ha & Hw).
  exists material, policy, request, validated. rewrite -> Ho, Ha, Hw. destruct Hv.
  destruct vd_digests0 as [ds [Hna Hnw]%receipt_counted]. apply quorum_valid in vd_quorum0 as (Hqa & Hqw & Hel & _ & Hq).
  destruct vd_approvals0 as (? & (? & _ & Happ & _)%validate_approvals_Ok). rewrite -> Forall_forall in Happ.
  destruct vd_decisions0 as ([] & (Hdec & _)%validate_witness_decisions_Ok). rewrite -> Forall_forall in Hdec.
  split_and!; try done; try congruence.
  - by apply request_parser_exact in vd_request0 as [? _].
  - apply request_policy_witness_policy in vd_policy0 as [? _]. by eapply replayed_policies_sound.
  - by destruct cp.
  - intros id. split; [|intros [_ (a & d & m & ? & ? & ? & _)]; apply counted_approvers_elem; eauto].
    intros Hid. split; [by apply Hel|]. apply counted_approvers_elem in Hid as (a & Hin & <- & Hd). eauto using approval_checked.
  - intros id. rw counted_witnesses_elem. split; [|intros (c & d & m & ? & ? & ? & _); eauto].
    intros (c & Hin & <- & Hd). eauto using witness_decision_checked.
  - rewrite <- N.leb_le, <- N.leb_le, <- andb_true_iff. fold (quorum_approved (vrp_rule validated)
      (counted_approvers_of (rc_approval_decisions r)) (counted_witnesses_of (rc_witness_decisions r))).
    by rewrite <- Hq, bool_decide_eq_true.
Qed.
End receipts.
