(* ===== verification/WitnessReceiptAssembly.v ===== *)
(** * Every collected decision makes a receipt

    The decisions that a client's checks accept, assembled into a receipt, pass the
    verification of the receipt: the sizes suffice, the order is the canonical one,
    and no check of the verifier asks for more than the client's did. *)

From S2P Require Import Prelude Json VaultTypes Canonical Preimage Validate WitnessPolicy PolicyState Identifiers Replay CatalogTheorems Text Effects WitnessMessages WitnessCodec WitnessValidation WitnessReceipt WitnessReceiptTheorems.
Local Open Scope jury_scope.

(** ** Order *)

Section sorting.
Context {A K : Type} `{OrdLaws K} (key : A → K).

#[local] Instance key_le_trans : Transitive (key_le key).
Proof. intros x y z. unfold key_le. apply ord_le_trans. Qed.

#[local] Instance key_le_total : Total (key_le key).
Proof. intros x y. unfold key_le. apply ord_le_total. Qed.

Lemma sort_by_key_perm l : sort_by_key key l ≡ₚ l.
Proof. apply merge_sort_Permutation. Qed.

Lemma sort_by_key_sorted l : NoDup (key <$> l) → sorted_by_key key (sort_by_key key l) = true.
Proof.
  intros Hn. assert (StronglySorted (key_le key) (sort_by_key key l)) as Hs.
  { apply (StronglySorted_merge_sort _). }
  rewrite <- (sort_by_key_perm l) in Hn. induction Hs as [|x k Hk IH Hx]; [done|].
  rewrite -> fmap_cons in Hn. apply NoDup_cons in Hn as [Hxk Hn]. apply sorted_by_key_cons. split; [|by apply IH].
  intros y Hy. rewrite -> Forall_forall in Hx. apply ord_le_ltb; [by apply Hx|]. intros Heq. apply Hxk. rewrite -> Heq.
  by apply list_elem_of_fmap_2.
Qed.
End sorting.

(** ** Sizes *)

(** The byte strings of a record have the lengths of their Rust types. *)
Definition ApprovalDecisionV1_sized (a : ApprovalDecisionV1) : bool :=
  fixed 32 (ap_approval_id a) && fixed 32 (ap_request_id a) && fixed 32 (ap_request_digest a) &&
  fixed 32 (ap_action_manifest_digest a) && fixed 32 (ap_presentation_digest a) &&
  fixed 32 (ap_witness_policy_id a) && fixed 32 (ap_witness_policy_digest a) && fixed 32 (ap_approver_id a) &&
  fixed 32 (ap_approver_key_fingerprint a) && fixed 32 (ap_nonce a) &&
  fixed 32 (ap_intended_witness_set_digest a) && fixed 64 (ap_signature a).

Definition optional_sized (o : option bytes) : bool := if o is Some b then fixed 32 b else true.

Definition WitnessDecisionV1_sized (d : WitnessDecisionV1) : bool :=
  fixed 32 (wdc_response_id d) && fixed 32 (wdc_request_id d) && fixed 32 (wdc_request_digest d) &&
  fixed 32 (wdc_action_manifest_digest d) && fixed 32 (wdc_witness_id d) &&
  fixed 32 (wdc_witness_signing_key_fingerprint d) && fixed 32 (wdc_witness_policy_id d) &&
  fixed 32 (wdc_witness_policy_digest d) && fixed 32 (wdc_policy_checkpoint_digest d) &&
  optional_sized (wdc_contribution_digest d) && optional_sized (wdc_share_commitment d) &&
  fixed 64 (wdc_signature d).

Definition VaultPolicyCheckpointV1_sized (c : VaultPolicyCheckpointV1) : bool :=
  fixed 32 (vc_vault_id c) && fixed 32 (vc_genesis_fingerprint c) && fixed 32 (vc_vault_policy_hash c) &&
  fixed 32 (vc_active_witness_policy_set_digest c) && fixed 32 (vc_predecessor_checkpoint_digest c) &&
  fixed 32 (vc_issuer_owner_id c) && fixed 32 (vc_issuer_key_fingerprint c) && fixed 64 (vc_signature c).

Lemma fixed_size n b : fixed n b = true → length b = n.
Proof. apply bool_decide_eq_true. Qed.

Lemma id32_length b : id32 b = true → length b = 32.
Proof. unfold id32. intros Hb. to_prop. by apply fixed_size. Qed.

(** What an optional field adds. *)
Definition optional_length {A} (width : A → nat) (o : option A) : nat :=
  if o is Some a then S (width a) else 1.

Lemma length_optional_u64 out o : length (optional_u64 out o) = length out + optional_length (λ _, 8) o.
Proof. destruct o; cbn [optional_u64 optional_length]; by autorewrite with jury_len. Qed.

Lemma length_optional_u8 out o : length (optional_u8 out o) = length out + optional_length (λ _, 1) o.
Proof. destruct o; cbn [optional_u8 optional_length]; by autorewrite with jury_len. Qed.

Lemma length_optional_fixed out o : length (optional_fixed out o) = length out + optional_length length o.
Proof. destruct o; cbn [optional_fixed optional_length]; by autorewrite with jury_len. Qed.

#[local] Hint Rewrite length_optional_u64 length_optional_u8 length_optional_fixed : jury_len.

Lemma optional_length_le {A} (width : A → nat) o n :
  (if o is Some a then width a ≤ n else True) → optional_length width o ≤ S n.
Proof. destruct o; cbn; lia. Qed.

Lemma optional_sized_length o : optional_sized o = true → optional_length length o ≤ 33.
Proof. destruct o as [b|]; cbn [optional_sized optional_length]; [intros ->%fixed_size|]; lia. Qed.

(** Turns the widths in the context into lengths. *)
Ltac to_lengths :=
  to_prop;
  repeat match goal with
  | Hx : fixed _ _ = true |- _ => apply fixed_size in Hx
  | Hx : id32 _ = true |- _ => apply id32_length in Hx
  end.

(** Adds up the lengths of a string, given those of its parts. *)
Ltac add_lengths :=
  unfold push, u16be, u64be;
  repeat first [progress autorewrite with jury_len
               |match goal with Hx : length ?b = _ |- context [length ?b] => rewrite -> Hx end].

Lemma len_concat_le {A} (e : A → bytes) l n k :
  Forall (λ x, (len (e x) ≤ k)%N) l → (len l ≤ n)%N → (len (concat (e <$> l)) ≤ n * k)%N.
Proof.
  intros Hl Hn. transitivity (len l * k)%N; [|nia]. clear Hn.
  induction Hl as [|x l Hx Hl IH]; [done|]. cbn [fmap list_fmap concat]. rewrite -> len_app. unfold len in *. cbn [length]. lia.
Qed.

Lemma approval_bytes a :
  ApprovalDecisionV1_sized a = true → ApprovalDecisionV1_validate_shape a = Ok tt →
  ∃ bs, ApprovalDecisionV1_canonical_bytes a = Ok bs ∧ (len bs ≤ 1024)%N.
Proof.
  unfold ApprovalDecisionV1_sized, ApprovalDecisionV1_canonical_bytes. intros Hs Hv. rewrite -> Hv. cbn [mbind result_bind].
  set (bs := ApprovalDecisionV1_append_fields a [] ++ ap_signature a).
  assert (len bs ≤ 1024)%N as Hl.
  { unfold bs, ApprovalDecisionV1_append_fields, len. cbv zeta. to_lengths. add_lengths.
    pose proof (optional_length_le (λ _, 8) (ap_not_before_ms a) 8 ltac:(by case_match)). lia. }
  rewrite -> (proj2 (N.ltb_ge _ _)) by (unfold MAX_APPROVAL_BYTES; lia). eauto.
Qed.

Lemma decision_bytes d :
  WitnessDecisionV1_sized d = true → WitnessDecisionV1_validate_shape d = Ok tt →
  ∃ bs, WitnessDecisionV1_canonical_bytes d = Ok bs ∧ (len bs ≤ 1024)%N.
Proof.
  unfold WitnessDecisionV1_sized, WitnessDecisionV1_canonical_bytes. intros Hs Hv. rewrite -> Hv. cbn [mbind result_bind].
  eexists. split; [done|]. unfold WitnessDecisionV1_append_fields, len. cbv zeta. to_lengths. add_lengths.
  pose proof (optional_length_le (λ _, 1) (wdc_share_index d) 1 ltac:(by case_match)).
  repeat match goal with Hx : optional_sized _ = true |- _ => apply optional_sized_length in Hx end. lia.
Qed.

Lemma checkpoint_bytes c :
  VaultPolicyCheckpointV1_sized c = true → VaultPolicyCheckpointV1_validate_shape c = Ok tt →
  ∃ bs, VaultPolicyCheckpointV1_canonical_bytes c = Ok bs ∧ (len bs ≤ 1024)%N.
Proof.
  unfold VaultPolicyCheckpointV1_sized, VaultPolicyCheckpointV1_canonical_bytes. intros Hs Hv. rewrite -> Hv.
  cbn [mbind result_bind]. eexists. split; [done|]. unfold VaultPolicyCheckpointV1_append_fields, len. to_lengths. add_lengths. lia.
Qed.

Section with_crypto.
Context `{Crypto}.

Lemma scope_bytes request :
  WitnessRequestV1_wt request = true → WitnessRequestV1_validate_shape request = Ok tt →
  ∃ bs, PublicReceiptScopeV1_canonical_bytes (from_request request) = Ok bs ∧ (len bs ≤ 1024)%N.
Proof.
  unfold WitnessRequestV1_wt, WitnessRequestV1_validate_shape, PublicReceiptScopeV1_canonical_bytes.
  intros Hw Hs%reject_if_Ok. to_prop. unfold from_request. cbn [
    sp_schema sp_request_id sp_vault_id sp_genesis_fingerprint sp_item_id sp_key_epoch sp_item_access_mode
    sp_slot_id sp_content_role sp_revision sp_revision_seal_id sp_vault_policy_sequence sp_vault_policy_hash
    sp_witness_policy_id sp_witness_policy_revision sp_witness_policy_digest sp_requester_principal_id
    sp_requested_access_role sp_operation sp_approval_target_digest sp_action_manifest_digest sp_workload_digest
    sp_issued_at_ms sp_not_before_ms sp_expires_at_ms sp_schema sp_request_id sp_vault_id sp_genesis_fingerprint
    sp_item_id sp_key_epoch sp_item_access_mode sp_slot_id sp_content_role sp_revision sp_revision_seal_id
    sp_vault_policy_sequence sp_vault_policy_hash sp_witness_policy_id sp_witness_policy_revision
    sp_witness_policy_digest sp_requester_principal_id sp_requested_access_role sp_operation
    sp_approval_target_digest sp_action_manifest_digest sp_workload_digest sp_issued_at_ms sp_not_before_ms
    sp_expires_at_ms].
  assert ((wr_item_access_mode request ==? AM_WitnessedOnly) || (wr_item_access_mode request ==? AM_Mixed) = true) as Hm
    by (by destruct (wr_item_access_mode request)).
  rewrite -> (proj2 (reject_if_Ok _ _ tt)).
  - cbn [mbind result_bind]. eexists. split; [done|]. unfold len. to_lengths. add_lengths.
    pose proof (optional_length_le (λ _, 8) (wr_not_before_ms request) 8 ltac:(by case_match)). lia.
  - split_guard; by try done.
Qed.

Lemma request_bytes request preimage :
  WitnessRequestV1_wt request = true → WitnessRequestV1_signature_preimage request = Ok preimage →
  (len preimage ≤ MAX_REQUEST_BYTES)%N.
Proof.
  intros Hw [Hs%shape_witness_count ->]%signature_preimage_Ok. unfold WitnessRequestV1_wt in Hw.
  assert (len (concat (IntendedWitnessV1_canonical_bytes <$> wr_intended_witness_set request)) ≤ MAX_POLICY_ACTORS * 97)%N as Hc.
  { apply len_concat_le; [|done]. to_prop. to_forall.
    eapply Forall_impl; [eassumption|]. intros w Hx. unfold IntendedWitnessV1_wt in Hx.
    unfold IntendedWitnessV1_canonical_bytes, len. to_lengths. add_lengths. lia. }
  unfold request_fields, len, MAX_REQUEST_BYTES, MAX_POLICY_ACTORS in *. to_lengths. add_lengths.
  pose proof (optional_length_le (λ _, 8) (wr_not_before_ms request) 8 ltac:(by case_match)).
  change (length (jce_v1 "jury-witness-v1/request/signature")) with 36. cbn [length]. lia.
Qed.

(** ** The encoding of a receipt succeeds *)

(** The step appends at most [k] bytes. *)
Definition appends (m : bytes → proto bytes) (k : N) : Prop :=
  ∀ out, ∃ out', m out = Ok out' ∧ (len out' ≤ len out + k)%N.

Lemma small_u32 {A} (l : list A) n : (len l ≤ n)%N → (n <=? u32_max = true)%N → u32 (len l) = true.
Proof. unfold u32. intros Hl Hn%N.leb_le. apply N.leb_le. lia. Qed.

Lemma len_field_chunk v : len (field_chunk v) = (4 + len v)%N.
Proof. unfold field_chunk, len. autorewrite with jury_len. lia. Qed.

Lemma len_list_chunk {A} (e : A → bytes) l : len (list_chunk e l) = (4 + len (concat (e <$> l)))%N.
Proof. unfold list_chunk, len. autorewrite with jury_len. lia. Qed.

(** Runs the next step of an encoder whose growth is known. *)
Ltac append_step lemma output Hlen :=
  match goal with
  | |- context [capacity (bytes_field ?out _)] => destruct (lemma out) as (output & -> & Hlen)
  | |- context [capacity (list_bytes ?out _)] => destruct (lemma out) as (output & -> & Hlen)
  | |- context [capacity (list_fixed ?out _ _)] => destruct (lemma out) as (output & -> & Hlen)
  end; cbn [mbind result_bind].

Lemma appends_field v n :
  (len v ≤ n)%N → (n <=? u32_max = true)%N → appends (λ out, capacity (bytes_field out v)) (4 + n).
Proof.
  intros Hv Hn out. exists (out ++ field_chunk v). split.
  - apply map_err_Ok, bytes_field_Ok. split; [exact (small_u32 v n Hv Hn)|done].
  - rewrite -> len_app, len_field_chunk. lia.
Qed.

Lemma appends_list_bytes vs n k :
  (len vs ≤ n)%N → Forall (λ v, (len v ≤ k)%N) vs → (n <=? u32_max = true)%N → (k <=? u32_max = true)%N →
  appends (λ out, capacity (list_bytes out vs)) (4 + n * (4 + k)).
Proof.
  intros Hl Hv Hn Hk out. exists (out ++ list_chunk field_chunk vs). split.
  - apply map_err_Ok, list_bytes_Ok. split_and!; [exact (small_u32 vs n Hl Hn)| |done].
    eapply Forall_impl; [exact Hv|]. intros v Hlv. exact (small_u32 v k Hlv Hk).
  - rewrite -> len_app, len_list_chunk. enough (len (concat (field_chunk <$> vs)) ≤ n * (4 + k))%N by lia.
    apply len_concat_le; [|done]. eapply Forall_impl; [exact Hv|]. intros v Hlv. cbn in Hlv. rewrite -> len_field_chunk. lia.
Qed.

Lemma appends_ids (ids : list PrincipalId) n :
  (len ids ≤ n)%N → Forall (λ i, len i = 32%N) ids → (n <=? u32_max = true)%N →
  appends (λ out, capacity (list_fixed out ids append_fixed)) (4 + n * 32).
Proof.
  intros Hl Hi Hn out. exists (out ++ list_chunk id ids). split.
  - apply map_err_Ok. unfold append_fixed. apply (list_fixed_Ok id). split; [exact (small_u32 ids n Hl Hn)|done].
  - rewrite -> len_app, len_list_chunk. enough (len (concat (id <$> ids)) ≤ n * 32)%N by lia.
    apply len_concat_le; [|done]. eapply Forall_impl; [exact Hi|]. intros i Hx. cbn in *. lia.
Qed.

Lemma mapE_bounded {A} (f : A → proto bytes) l k :
  (∀ x, x ∈ l → ∃ bs, f x = Ok bs ∧ (len bs ≤ k)%N) →
  ∃ bss, mapE f l = Ok bss ∧ len bss = len l ∧ Forall (λ bs, (len bs ≤ k)%N) bss.
Proof.
  induction l as [|x l IH]; intros Hl; [by exists []|].
  destruct (Hl x ltac:(set_solver)) as (bs & Hb & Hk). destruct IH as (bss & Hm & Hlen & Hall); [set_solver|].
  exists (bs :: bss). cbn. rewrite -> Hb. cbn. rewrite -> Hm. cbn. split_and!; [done|unfold len in *; cbn; lia|].
  by constructor.
Qed.

(** The parts of a receipt are small enough. *)
Record receipt_fits (r : WitnessReceiptV1) : Prop := {
  rf_shape : receipt_shape r = Ok tt;
  rf_approvals : ∀ a, a ∈ rc_approval_decisions r →
    ApprovalDecisionV1_sized a = true ∧ ApprovalDecisionV1_validate_shape a = Ok tt;
  rf_decisions : ∀ d, d ∈ rc_witness_decisions r →
    WitnessDecisionV1_sized d = true ∧ WitnessDecisionV1_validate_shape d = Ok tt;
  rf_checkpoint : VaultPolicyCheckpointV1_sized (rc_policy_checkpoint r) = true ∧
    VaultPolicyCheckpointV1_validate_shape (rc_policy_checkpoint r) = Ok tt;
  rf_scope : ∃ bs, PublicReceiptScopeV1_canonical_bytes (rc_public_scope r) = Ok bs ∧ (len bs ≤ 1024)%N;
  rf_preimage : (len (rc_request_signature_preimage r) ≤ MAX_REQUEST_BYTES)%N;
  rf_material : (len (rc_witness_policy_material r) ≤ MAX_POLICY_MATERIAL_BYTES)%N;
  rf_fixed : len (rc_receipt_id r) = 32%N ∧ len (rc_client_signature r) = 64%N ∧ len (rc_request_digest r) = 32%N ∧
    len (rc_action_manifest_digest r) = 32%N ∧ len (rc_presentation_digest r) = 32%N;
  rf_counted : Forall (λ i, len i = 32%N) (rc_counted_approver_ids r ++ rc_counted_witness_ids r);
}.

Lemma core_bytes_Ok r :
  receipt_fits r → ∃ core, core_bytes_unchecked r = Ok core ∧ (len core ≤ 2 ^ 31)%N.
Proof.
  intros [Hs Ha Hd [Hcs Hcv] (scope & Hscope & Hsl) Hp Hm (H1 & H2 & H3 & H4 & H5) [Hca Hcw]%Forall_app].
  unfold receipt_shape in Hs. apply reject_if_Ok in Hs. to_prop.
  destruct (mapE_bounded ApprovalDecisionV1_canonical_bytes (rc_approval_decisions r) 1024) as (as' & Ha' & Hal & Haf).
  { intros a [? ?]%Ha. by apply approval_bytes. }
  destruct (mapE_bounded WitnessDecisionV1_canonical_bytes (rc_witness_decisions r) 1024) as (ds & Hd' & Hdl & Hdf).
  { intros d [? ?]%Hd. by apply decision_bytes. }
  destruct (checkpoint_bytes _ Hcs Hcv) as (cp & Hcp & Hcl). unfold core_bytes_unchecked.
  rewrite -> Ha', Hd', Hcp, Hscope. cbn [mbind result_bind].
  rewrite <- Hal in *. rewrite <- Hdl in *.
  append_step (appends_field _ _ Hp eq_refl) o1 L1. append_step (appends_field _ _ Hsl eq_refl) o2 L2.
  append_step (appends_list_bytes as' MAX_RECORDED_APPROVALS 1024 ltac:(done) Haf eq_refl eq_refl) o3 L3.
  append_step (appends_list_bytes ds MAX_POLICY_ACTORS 1024 ltac:(done) Hdf eq_refl eq_refl) o4 L4.
  append_step (appends_field _ _ Hcl eq_refl) o5 L5. append_step (appends_field _ _ Hm eq_refl) o6 L6.
  append_step (appends_ids (rc_counted_approver_ids r) MAX_POLICY_ACTORS ltac:(done) Hca eq_refl) o7 L7.
  append_step (appends_ids (rc_counted_witness_ids r) MAX_POLICY_ACTORS ltac:(done) Hcw eq_refl) o8 L8.
  eexists. split; [done|].
  assert (∀ n, len (push n) = 1%N) as Hw1 by done.
  assert (∀ n, len (u16be n) = 2%N) as Hw2 by (intros; unfold u16be, len; by rewrite -> length_be_bytes).
  assert (∀ n, len (u64be n) = 8%N) as Hw8 by (intros; unfold u64be, len; by rewrite -> length_be_bytes).
  rewrite -> !len_app in *. rewrite -> !Hw1, !Hw8. rewrite -> Hw2 in L1. rewrite -> !Hw1 in L7.
  unfold MAX_RECORDED_APPROVALS, MAX_POLICY_ACTORS, MAX_REQUEST_BYTES, MAX_POLICY_MATERIAL_BYTES in *. lia.
Qed.

Lemma hash_bytes_Ok domain body :
  (len body ≤ 2 ^ 31 + 2)%N → ∃ d, hash_bytes domain body = Ok d.
Proof.
  intros Hb. unfold hash_bytes. destruct (appends_field body (2 ^ 31 + 2)%N Hb eq_refl (jce_v1 domain)) as (o & -> & _).
  cbn. eauto.
Qed.

(** A receipt that the endpoint has not signed yet. *)
Lemma fresh_digests r :
  receipt_fits r → rc_endpoint_acknowledgement r = None → rc_endpoint_completion r = None →
  ∃ ds, validated_digests r = Ok ds.
Proof.
  intros Hr Ha Hc. destruct (core_bytes_Ok r Hr) as (core & Hcore & Hl). apply rf_shape in Hr.
  unfold validated_digests, validated_core, check_acknowledgement, check_completion, append_endpoint_records.
  rewrite -> Hr, Hcore, Ha, Hc. cbn [mbind result_bind transposeE].
  destruct (hash_bytes_Ok "jury-witness-v1/receipt/core-hash" core) as [d ->]; [lia|]. unfold capacity. cbn [mbind result_bind optional_bytes map_err].
  match goal with |- context [hash_bytes ?domain ?body] => destruct (hash_bytes_Ok domain body) as [d' ->] end; [|cbn; eauto].
  rewrite -> !len_app. change (len [Byte.x00]) with 1%N. lia.
Qed.

(** ** What the client's checks established *)

Lemma saturating_later a b n : (b ≤ a)%N → u64 b = true → (b ≤ saturating_add_u64 a n)%N.
Proof. unfold saturating_add_u64, u64. intros Hb Hu%N.leb_le. lia. Qed.

(** A rule's approver has one active descriptor, which allows the operation. *)
Lemma eligible_descriptor p r a d :
  policy_sound p → r ∈ wp_operation_rules p → a ∈ rule_eligible_approver_ids r →
  d ∈ wp_approver_descriptors p → ad_approver_id d = a → rule_operation r ∈ ad_allowed_operations d.
Proof.
  intros Hp Hr Ha Hd Hid. destruct (pso_rules p Hp) as [_ Hrules]. rewrite -> Forall_forall in Hrules.
  destruct (rus_eligible _ _ (Hrules r Hr) a Ha) as (d' & Hd' & Hid' & _ & Hop).
  pose proof (pso_members p Hp) as [Hn _]%NoDup_app.
  assert (d' = d) as ->; [|done].
  apply list_elem_of_lookup in Hd as [i Hi]. apply list_elem_of_lookup in Hd' as [j Hj].
  assert (i = j) as ->; [|congruence].
  eapply (NoDup_lookup _ i j a Hn); rewrite -> list_lookup_fmap; [rewrite -> Hi|rewrite -> Hj]; cbn; congruence.
Qed.

(** The rule a request is judged by is one of its policy. *)
Lemma access_rule_of policy item op rule p :
  witness_access_rule policy item op = Ok rule → ps_witness_policies policy !! war_policy_digest rule = Some p →
  ∃ r, r ∈ wp_operation_rules p ∧ rule_operation r = op ∧
    war_eligible_approver_ids rule = rule_eligible_approver_ids r ∧
    war_approval_threshold rule = rule_approval_threshold r ∧
    war_witness_ids rule = wd_witness_id <$> active_witness_descriptors p ∧
    war_witness_threshold rule = wp_witness_threshold p.
Proof.
  unfold witness_access_rule. intros Hr Hp. repeat inv_ok_step. cbn in *.
  match goal with Hx : List.find _ _ = Some ?q |- _ => apply List.find_some in Hx as [Hq Hx]; exists q end.
  apply list_elem_of_In in Hq. to_prop. simplify_eq. done.
Qed.

(** The policy of every witnessed slot is an active one. *)
Lemma active_policy_covered policy policies id item slot p :
  active_witness_policy_entries policy = Ok policies → ps_items policy !! id = Some item → slot ∈ slots_of item →
  ps_witness_policies policy !! ws_witness_policy_digest slot = Some p → p ∈ policies.*2.
Proof.
  unfold active_witness_policy_entries. intros Hent Hitem Hslot Hp. repeat inv_ok_step.
  assert (ws_witness_policy_digest slot ∈ active_policy_digests policy) as Hdg.
  { unfold active_policy_digests. rewrite -> elem_of_sorted_elements, collect_set_eq, elem_of_list_to_set.
    apply list_elem_of_bind. exists item. split; [by apply list_elem_of_fmap_2|].
    unfold values. apply list_elem_of_fmap. exists (id, item). split; [done|]. by apply elem_of_entries. }
  match goal with Hx : mapE _ _ = Ok _ |- _ => apply mapE_Ok in Hx; rename Hx into Hm end.
  apply list_elem_of_lookup in Hdg as [i Hi]. destruct (Forall2_lookup_l _ _ _ _ _ Hm Hi) as (e & He & Hent).
  unfold active_policy_entry in Hent. repeat inv_ok_step. to_prop. simplify_eq.
  apply list_elem_of_fmap. eexists. split; [|by eapply list_elem_of_lookup_2]. done.
Qed.

Section accepted.
Context (r : WitnessReceiptV1) (policy : PolicyState) (checkpoint : VaultPolicyCheckpointV1)
  (request : WitnessRequestV1) (manifest : ActionManifestV1) (validated : ValidatedRequestPolicy).
Hypothesis Hpublic : validate_public_request policy checkpoint request manifest = Ok validated.
Hypothesis Hsound : policy_sound (vrp_policy validated).
Hypothesis Htyped : WitnessRequestV1_wt request = true.
Hypothesis Hdigest : WitnessRequestV1_digest request = Ok (rc_request_digest r).
Hypothesis Haction : wr_action_manifest_digest request = rc_action_manifest_digest r.
Hypothesis Hpresentation : mf_presentation_digest manifest = rc_presentation_digest r.

Lemma public_request_Ok :
  validate_request_policy policy request = Ok validated ∧
  ActionManifestV1_digest manifest = Ok (wr_action_manifest_digest request) ∧
  VaultPolicyCheckpointV1_digest checkpoint = Ok (wr_policy_checkpoint_digest request) ∧
  ∃ policies, validate_checkpoint_policy policy checkpoint = Ok policies.
Proof.
  unfold validate_public_request, validate_request_manifest, validate_checkpoint_public, validate_manifest_policy in Hpublic.
  repeat inv_ok_step. to_prop. split_and!; [done|congruence|congruence|eauto].
Qed.

Lemma request_shape : WitnessRequestV1_validate_shape request = Ok tt.
Proof.
  destruct public_request_Ok as [Hp _]. unfold validate_request_policy in Hp.
  apply bind_Ok in Hp as ([] & Hs%map_err_Ok & _). done.
Qed.

Lemma approval_accepted a intended :
  validate_approval_against_policy a request manifest (vrp_rule validated) (vrp_policy validated) = Ok tt →
  request_witness_set_digest request = Ok intended →
  check_approval r request (vrp_policy validated) intended a = Ok tt ∧
  ApprovalDecisionV1_validate_shape a = Ok tt ∧ ap_approver_id a ∈ war_eligible_approver_ids (vrp_rule validated).
Proof.
  destruct public_request_Ok as (Hp & Hm & _). apply request_policy_witness_policy in Hp as (Hwp & Hwd & Hrule).
  rewrite -> Hwd in Hwp. destruct (access_rule_of _ _ _ _ _ Hrule Hwp) as (q & Hq & Hop & Hel & _).
  unfold validate_approval_against_policy. intros Hv Hi. repeat inv_ok_step. to_prop.
  match goal with Hx : List.find _ _ = Some ?e |- _ => rename e into d, Hx into Hfind end.
  apply List.find_some in Hfind as Hd. destruct Hd as [Hd Hda]. apply list_elem_of_In in Hd. to_prop.
  split_and!; [|done|done]. unfold check_approval. simplify_eq.
  assert (u64 (wr_issued_at_ms request) = true) as Hu by (unfold WitnessRequestV1_wt in Htyped; by to_prop).
  apply reject_if_bind. split; [split_guard; solve [congruence|lia|by apply saturating_later]|].
  rewrite -> Hfind. cbn [mbind result_bind ok_or]. apply reject_if_bind. split.
  - split_guard; try congruence. rewrite <- Hop. eapply eligible_descriptor; eauto. by rewrite <- Hel.
  - match goal with Hx : ApprovalDecisionV1_signature_preimage a = Ok _ |- _ => rewrite -> Hx end. cbn. by rewrite -> Hv.
Qed.

Lemma decision_accepted response :
  validate_witness_response policy checkpoint request manifest response = Ok tt →
  check_witness_decision r request (vrp_policy validated) (resp_decision response) = Ok tt ∧
  WitnessDecisionV1_validate_shape (resp_decision response) = Ok tt ∧
  wdc_witness_id (resp_decision response) ∈ war_witness_ids (vrp_rule validated).
Proof.
  destruct public_request_Ok as (Hp & Hm & Hck & _). apply request_policy_witness_policy in Hp as (Hwp & Hwd & Hrule).
  rewrite -> Hwd in Hwp. destruct (access_rule_of _ _ _ _ _ Hrule Hwp) as (q & _ & _ & _ & _ & Hids & _).
  unfold validate_witness_response. rewrite -> Hpublic, Hm, Hck. cbn [mbind result_bind map_err].
  set (c := resp_decision response). intros Hv. rewrite -> Hdigest in Hv. cbn [mbind result_bind map_err] in Hv.
  apply bind_Ok in Hv as (? & _ & Hv). apply reject_if_bind in Hv as [Hs Hv].
  apply bind_Ok in Hv as (d & Hfind%ok_or_Ok & Hv). apply reject_if_bind in Hv as [Hk Hv].
  apply bind_Ok in Hv as (m & Hpre%map_err_Ok & Hv). apply reject_if_bind in Hv as [Hsig Hv]. to_prop.
  apply List.find_some in Hfind as Hd. destruct Hd as [Hd Hda]. to_prop.
  assert (d ∈ active_witness_descriptors (vrp_policy validated)) as Hact.
  { apply list_elem_of_In, List.filter_In. split; [done|]. by apply bool_decide_eq_true. }
  assert (u64 (wr_issued_at_ms request) = true) as Hu by (unfold WitnessRequestV1_wt in Htyped; by to_prop).
  split_and!.
  - unfold check_witness_decision. apply reject_if_bind.
    split; [split_guard; solve [congruence|lia|by apply saturating_later]|].
    rewrite -> Hfind. cbn [mbind result_bind ok_or]. apply reject_if_bind. split.
    + split_guard; try congruence. destruct (bool_decide_reflect (wdc_decision c = WD_Approve)) as [Ha|Ha]; [|done].
      cbn in Hv. repeat inv_ok_step. to_prop. cbn. split_guard. congruence.
    + rewrite -> Hpre. cbn. by rewrite -> Hsig.
  - unfold WitnessDecisionV1_signature_preimage in Hpre. apply bind_Ok in Hpre as ([] & Hx & _). done.
  - rewrite -> Hids. apply list_elem_of_fmap. exists d. split; [congruence|done].
Qed.

(** The checkpoint covers the policy of every witnessed item. *)
Lemma checkpoint_accepted :
  receipt_validate_checkpoint policy (vrp_policy validated) request checkpoint = Ok tt.
Proof using Hpublic.
  clear Hsound Htyped Hdigest Haction Hpresentation.
  destruct public_request_Ok as (Hp & _ & Hck & policies & Hpol). unfold receipt_validate_checkpoint.
  rewrite -> Hpol, Hck. cbn [mbind result_bind map_err]. apply reject_if_Ok.
  apply request_policy_witness_policy in Hp as Hp'. destruct Hp' as (Hwp & _ & _).
  unfold validate_request_policy in Hp. unfold validate_checkpoint_policy in Hpol. repeat inv_ok_step. to_prop.
  split_guard; try congruence.
  match goal with Hx : List.find _ (slots_of _) = Some _ |- _ => apply List.find_some in Hx as [Hslot Hx] end.
  apply list_elem_of_In in Hslot. unfold request_slot in *. to_prop.
  eapply active_policy_covered; [eassumption|eassumption|exact Hslot|]. congruence.
Qed.
End accepted.

(** ** The receipt *)

Lemma counted_sorted {A K} `{OrdLaws K} (key : A → K) (f : A → bool) l :
  sorted_by_key key l = true → sorted_by_key id (key <$> List.filter f l) = true.
Proof.
  induction l as [|x l IH]; [done|]. rewrite -> sorted_by_key_cons. intros [Hx Hl]. cbn. destruct (f x); [|by apply IH].
  rewrite -> fmap_cons. apply sorted_by_key_cons. split; [|by apply IH]. intros y (z & -> & Hz)%list_elem_of_fmap.
  apply list_elem_of_In, List.filter_In in Hz as [Hz _]. by apply Hx, list_elem_of_In.
Qed.

Lemma filter_perm {A} (f : A → bool) (l k : list A) : l ≡ₚ k → List.filter f l ≡ₚ List.filter f k.
Proof.
  induction 1 as [|x l k _ IH|x y l|l k m _ IH _ IH']; cbn; [done| | |by etrans].
  - destruct (f x); by rewrite -> IH.
  - destruct (f x), (f y); [apply perm_swap|done..].
Qed.

Lemma filter_incl {A K} (key : A → K) (f : A → bool) l x : x ∈ key <$> List.filter f l → x ∈ key <$> l.
Proof.
  intros (y & -> & Hy)%list_elem_of_fmap. apply list_elem_of_In, List.filter_In in Hy as [Hy _].
  apply list_elem_of_fmap_2. by apply list_elem_of_In.
Qed.

Lemma len_filter_le {A K} (key : A → K) (f : A → bool) l : (len (key <$> List.filter f l) ≤ len l)%N.
Proof. unfold len. rewrite -> length_fmap. pose proof (List.filter_length_le f l). lia. Qed.

Lemma quorum_perm rule a a' w w' :
  a ≡ₚ a' → w ≡ₚ w' → quorum_approved rule a w = quorum_approved rule a' w'.
Proof. unfold quorum_approved, len. intros Ha Hw. by rewrite -> Ha, Hw. Qed.

Lemma distinct_bounded (l k : list PrincipalId) n : NoDup l → l ⊆ k → (len k ≤ n)%N → (len l ≤ n)%N.
Proof. unfold len. intros Hn Hs Hk. pose proof (submseteq_length _ _ (NoDup_submseteq _ _ Hn Hs)). lia. Qed.
End with_crypto.

Section assembly.
Context `{Crypto} `{!Json ReceiptPolicyMaterialV1} `{!JsonLine ReceiptPolicyMaterialV1}.

Lemma material_roundtrip m bs :
  material_encode m = Ok bs →
  material_decode bs = Ok m ∧ bs ≠ [] ∧ (len bs ≤ MAX_POLICY_MATERIAL_BYTES)%N.
Proof.
  intros Hm. pose proof Hm as He. unfold material_encode in He. repeat inv_ok_step. to_prop.
  match goal with Hx : to_vec m = Some _ |- _ => rename Hx into Hv end.
  split_and!; [|by eapply json_nonempty|done]. unfold material_decode. rewrite -> (to_vec_parse _ _ Hv). cbn.
  rewrite -> Hm. cbn. by rewrite -> bool_decide_true.
Qed.

(** What a client has when it has collected the decisions on its request: the
    policy it replayed and its encoding, and for every decision the check that
    accepted it. *)
Record collected (policy : PolicyState) (checkpoint : VaultPolicyCheckpointV1) (request : WitnessRequestV1)
    (manifest : ActionManifestV1) (validated : ValidatedRequestPolicy) (e : WitnessReceiptEvidence) : Prop := {
  cl_material : ∃ m, material_encode m = Ok (ev_policy_material e) ∧ material_replay m = Ok policy;
  cl_request : validate_public_request policy checkpoint request manifest = Ok validated;
  cl_typed : request_typed request;
  cl_checkpoint : VaultPolicyCheckpointV1_sized checkpoint = true;
  cl_receipt_id : fixed 32 (ev_receipt_id e) = true;
  cl_presentation : fixed 32 (ev_presentation_digest e) = true ∧ mf_presentation_digest manifest = ev_presentation_digest e;
  cl_approvals : ∀ a, a ∈ ev_approval_decisions e → ApprovalDecisionV1_sized a = true ∧
    ∃ now_ms, validate_approval_decision policy checkpoint request manifest a now_ms = Ok tt;
  cl_decisions : ∀ d, d ∈ ev_witness_decisions e → WitnessDecisionV1_sized d = true ∧
    ∃ response, resp_decision response = d ∧
      validate_witness_response policy checkpoint request manifest response = Ok tt;
  cl_approvers : NoDup (ap_approver_id <$> ev_approval_decisions e);
  cl_witnesses : NoDup (wdc_witness_id <$> ev_witness_decisions e);
}.

(** The decisions are a quorum of the rule. *)
Definition evidence_approves (rule : WitnessAccessRule) (e : WitnessReceiptEvidence) : bool :=
  quorum_approved rule (counted_approvers_of (ev_approval_decisions e)) (counted_witnesses_of (ev_witness_decisions e)).

(** What the client adds itself: a reason that fits the decisions, and the time. A
    receipt is not issued before its request, up to the accepted difference of
    clocks, and an approved one not after its request has expired. *)
Record issuable (rule : WitnessAccessRule) (request : WitnessRequestV1) (e : WitnessReceiptEvidence) : Prop := {
  iss_reason : ev_reason e = R_None ↔ evidence_approves rule e = true;
  iss_issued : ev_issued_at_ms e ≠ 0%N;
  iss_not_early : (wr_issued_at_ms request ≤ saturating_add_u64 (ev_issued_at_ms e) ACCEPTED_CLOCK_SKEW_MS)%N;
  iss_not_late : evidence_approves rule e = true → (ev_issued_at_ms e < wr_expires_at_ms request)%N;
}.

Section receipt.
Context (policy : PolicyState) (checkpoint : VaultPolicyCheckpointV1) (request : WitnessRequestV1)
  (manifest : ActionManifestV1) (validated : ValidatedRequestPolicy) (e : WitnessReceiptEvidence).
Hypothesis Hc : collected policy checkpoint request manifest validated e.
Hypothesis Ht : issuable (vrp_rule validated) request e.
Context (preimage : bytes) (digest : Digest32).
Hypothesis Hpreimage : WitnessRequestV1_signature_preimage request = Ok preimage.
Hypothesis Hdigest : WitnessRequestV1_digest request = Ok digest.

Let approvals := sort_by_key ap_approver_id (ev_approval_decisions e).
Let decisions := sort_by_key wdc_witness_id (ev_witness_decisions e).
Let rule := vrp_rule validated.
Let outcome := if quorum_approved rule (counted_approvers_of approvals) (counted_witnesses_of decisions)
               then RO_Approved else RO_Denied.
Let r := receipt_of request checkpoint e rule preimage digest approvals decisions (counted_approvers_of approvals)
           (counted_witnesses_of decisions) outcome.

Lemma collected_sound : policy_sound (vrp_policy validated).
Proof.
  destruct (cl_material _ _ _ _ _ _ Hc) as (m & _ & [_ Hm]%material_replay_Ok).
  destruct (public_request_Ok _ _ _ _ _ (cl_request _ _ _ _ _ _ Hc)) as [Hp _].
  apply request_policy_witness_policy in Hp as [Hw _]. by eapply replayed_policies_sound.
Qed.

Lemma collected_approval a intended :
  a ∈ approvals → request_witness_set_digest request = Ok intended →
  check_approval r request (vrp_policy validated) intended a = Ok tt ∧ ApprovalDecisionV1_sized a = true ∧
  ApprovalDecisionV1_validate_shape a = Ok tt ∧ ap_approver_id a ∈ war_eligible_approver_ids rule.
Proof.
  intros Ha Hi. unfold approvals in Ha. rewrite -> sort_by_key_perm in Ha.
  destruct (cl_approvals _ _ _ _ _ _ Hc a Ha) as [Hs [now Hv]]. unfold validate_approval_decision in Hv.
  rewrite -> (cl_request _ _ _ _ _ _ Hc) in Hv. cbn [mbind result_bind] in Hv. apply bind_Ok in Hv as ([] & Hv & _).
  destruct (approval_accepted r policy checkpoint request manifest validated (cl_request _ _ _ _ _ _ Hc) collected_sound
    (proj1 (cl_typed _ _ _ _ _ _ Hc)) Hdigest eq_refl (proj2 (cl_presentation _ _ _ _ _ _ Hc)) a intended Hv Hi)
    as (? & ? & ?). done.
Qed.

Lemma collected_decision d :
  d ∈ decisions →
  check_witness_decision r request (vrp_policy validated) d = Ok tt ∧ WitnessDecisionV1_sized d = true ∧
  WitnessDecisionV1_validate_shape d = Ok tt ∧ wdc_witness_id d ∈ war_witness_ids rule.
Proof.
  intros Hd. unfold decisions in Hd. rewrite -> sort_by_key_perm in Hd.
  destruct (cl_decisions _ _ _ _ _ _ Hc d Hd) as (Hs & response & <- & Hv).
  destruct (decision_accepted r policy checkpoint request manifest validated (cl_request _ _ _ _ _ _ Hc)
    (proj1 (cl_typed _ _ _ _ _ _ Hc)) Hdigest eq_refl response Hv) as (? & ? & ?). done.
Qed.

Lemma collected_bounds :
  (len approvals ≤ MAX_POLICY_ACTORS)%N ∧ (len decisions ≤ MAX_POLICY_ACTORS)%N ∧
  (war_approval_threshold rule ≤ MAX_POLICY_ACTORS)%N ∧ (2 ≤ war_witness_threshold rule ≤ MAX_POLICY_ACTORS)%N.
Proof.
  destruct (public_request_Ok _ _ _ _ _ (cl_request _ _ _ _ _ _ Hc)) as [Hp _].
  destruct (request_policy_intended _ _ _ Hp) as (intended & Hi & _).
  apply request_policy_witness_policy in Hp as (Hw & Hd & Hr). rewrite -> Hd in Hw.
  destruct (access_rule_of _ _ _ _ _ Hr Hw) as (q & Hq & _ & Hel & Hat & Hids & Hwt).
  pose proof collected_sound as Hs. destruct (pso_rules _ Hs) as [_ Hrules]. rewrite -> Forall_forall in Hrules.
  specialize (Hrules q Hq). pose proof (rus_size _ _ Hrules). pose proof (rus_threshold _ _ Hrules).
  pose proof (pso_quorum _ Hs). pose proof (pso_size _ Hs). unfold MAX_POLICY_ACTORS. fold rule in Hel, Hat, Hids, Hwt.
  split_and!; [| |lia..].
  - enough (len (ap_approver_id <$> approvals) ≤ 32)%N as Hl by (unfold len in *; by rewrite -> length_fmap in Hl).
    eapply distinct_bounded; [|intros i (a & -> & Ha)%list_elem_of_fmap; by apply (collected_approval a intended)|by rewrite -> Hel].
    unfold approvals. rewrite -> sort_by_key_perm. apply (cl_approvers _ _ _ _ _ _ Hc).
  - enough (len (wdc_witness_id <$> decisions) ≤ 32)%N as Hl by (unfold len in *; by rewrite -> length_fmap in Hl).
    eapply distinct_bounded; [|intros i (a & -> & Ha)%list_elem_of_fmap; by apply collected_decision|].
    + unfold decisions. rewrite -> sort_by_key_perm. apply (cl_witnesses _ _ _ _ _ _ Hc).
    + rewrite -> Hids. unfold len in *. by rewrite -> length_fmap.
Qed.

Lemma collected_counted :
  counted_approvers_of approvals ≡ₚ counted_approvers_of (ev_approval_decisions e) ∧
  counted_witnesses_of decisions ≡ₚ counted_witnesses_of (ev_witness_decisions e).
Proof. split; apply fmap_Permutation, filter_perm, sort_by_key_perm. Qed.

Lemma collected_outcome :
  outcome_matches outcome (ev_reason e) = true ∧
  (outcome = RO_Approved → (ev_issued_at_ms e < wr_expires_at_ms request)%N) ∧
  (outcome ==? RO_Approved) = quorum_approved rule (counted_approvers_of approvals) (counted_witnesses_of decisions).
Proof.
  destruct Ht as [Hr _ _ Hl]. destruct collected_counted as [Ha Hd]. unfold outcome.
  fold rule in Hr, Hl. unfold evidence_approves in Hr, Hl. rewrite <- (quorum_perm _ _ _ _ _ Ha Hd) in Hr, Hl.
  destruct (quorum_approved rule _ _); cbn [outcome_matches]; split_and!; try done; try (split_guard; by rewrite -> Hr).
  intros _. by apply Hl.
Qed.

Lemma collected_shape : receipt_shape r = Ok tt.
Proof.
  destruct collected_bounds as (Ha & Hd & Hta & Htw). unfold receipt_shape. apply reject_if_Ok.
  destruct (cl_material _ _ _ _ _ _ Hc) as (m & (_ & Hne & _)%material_roundtrip & _).
  apply signature_preimage_Ok in Hpreimage as Hpre. destruct Hpre as [Hs Hpre]. unfold WitnessRequestV1_validate_shape in Hs.
  apply reject_if_Ok in Hs. unfold valid_interval in Hs. to_prop.
  pose proof (iss_issued _ _ _ Ht). destruct collected_outcome as (Hom & Hoe & _).
  assert (sorted_by_key ap_approver_id approvals = true) as Hsa by apply sort_by_key_sorted, (cl_approvers _ _ _ _ _ _ Hc).
  assert (sorted_by_key wdc_witness_id decisions = true) as Hsd by apply sort_by_key_sorted, (cl_witnesses _ _ _ _ _ _ Hc).
  pose proof (len_filter_le ap_approver_id (λ d, ap_decision d ==? AD_Approve) approvals) as Hla.
  pose proof (len_filter_le wdc_witness_id (λ d, wdc_decision d ==? WD_Approve) decisions) as Hld.
  unfold MAX_RECORDED_APPROVALS, r, receipt_of. cbn [rc_schema rc_request_signature_preimage rc_witness_policy_material
    rc_approval_threshold rc_witness_threshold rc_approval_decisions rc_witness_decisions rc_counted_approver_ids
    rc_counted_witness_ids rc_issued_at_ms rc_expires_at_ms rc_outcome rc_reason].
  split_guard; try done; try lia.
  - by rewrite -> Hpre.
  - by destruct (ev_policy_material e).
  - unfold within. split_guard; lia.
  - unfold counted_approvers_of. lia.
  - unfold counted_witnesses_of. lia.
  - by apply counted_sorted.
  - by apply counted_sorted.
  - destruct (bool_decide_reflect (outcome = RO_Approved)) as [Ho|]; [|done]. cbn. split_guard. by apply Hoe.
Qed.

Lemma collected_fits : receipt_fits r.
Proof.
  pose proof collected_shape as Hshape. destruct (cl_typed _ _ _ _ _ _ Hc) as [Hw Hsig].
  destruct (public_request_Ok _ _ _ _ _ (cl_request _ _ _ _ _ _ Hc)) as (Hp & _ & _ & policies & Hpol).
  destruct (request_policy_intended _ _ _ Hp) as (intended & Hi & _).
  pose proof (request_shape _ _ _ _ _ (cl_request _ _ _ _ _ _ Hc)) as Hs.
  destruct (cl_material _ _ _ _ _ _ Hc) as (m & (_ & _ & Hlen)%material_roundtrip & _).
  destruct (cl_presentation _ _ _ _ _ _ Hc) as [Hpd _]. pose proof (cl_receipt_id _ _ _ _ _ _ Hc) as Hid.
  split; unfold r, receipt_of; cbn [rc_approval_decisions rc_witness_decisions rc_policy_checkpoint rc_public_scope
    rc_request_signature_preimage rc_witness_policy_material rc_receipt_id rc_client_signature rc_request_digest
    rc_action_manifest_digest rc_presentation_digest rc_counted_approver_ids rc_counted_witness_ids].
  - exact Hshape.
  - intros a Ha. by destruct (collected_approval a intended Ha Hi) as (_ & ? & ? & _).
  - intros d Hd. by destruct (collected_decision d Hd) as (_ & ? & ? & _).
  - split; [apply (cl_checkpoint _ _ _ _ _ _ Hc)|]. unfold validate_checkpoint_policy in Hpol.
    apply bind_Ok in Hpol as ([] & Hx%map_err_Ok & _). done.
  - by apply scope_bytes.
  - by eapply request_bytes.
  - done.
  - assert (length digest = 32) as Hdl.
    { unfold WitnessRequestV1_digest, hash_signed in Hdigest. apply bind_Ok in Hdigest as (? & _ & Hd).
      apply bind_Ok in Hd as (? & _ & Hd%Ok_inj). rewrite <- Hd. apply sha256_length. }
    unfold WitnessRequestV1_wt in Hw. unfold len. to_lengths. split_and!; lia.
  - apply Forall_app. split; apply Forall_forall; intros i Hx.
    + apply filter_incl, list_elem_of_fmap in Hx as (a & -> & Ha).
      destruct (collected_approval a intended Ha Hi) as (_ & Hz & _). unfold ApprovalDecisionV1_sized in Hz.
      unfold len. to_lengths. lia.
    + apply filter_incl, list_elem_of_fmap in Hx as (d & -> & Hd).
      destruct (collected_decision d Hd) as (_ & Hz & _). unfold WitnessDecisionV1_sized in Hz. unfold len. to_lengths. lia.
Qed.

Lemma collected_verified : verified r policy (Some checkpoint) request validated.
Proof.
  destruct (cl_typed _ _ _ _ _ _ Hc) as [Hw Hsig].
  destruct (public_request_Ok _ _ _ _ _ (cl_request _ _ _ _ _ _ Hc)) as (Hp & _).
  destruct (request_policy_intended _ _ _ Hp) as (intended & Hi & _).
  pose proof (iss_not_early _ _ _ Ht). destruct collected_outcome as (_ & Hoe & Hq).
  split; try done.
  - apply fresh_digests; [apply collected_fits|done|done].
  - apply request_parser_exact. split_and!; try done. by eapply request_bytes.
  - unfold receipt_out_of_scope. split_guard; try done.
    cbn. destruct (bool_decide_reflect (outcome = RO_Approved)) as [Ho|]; [|done]. cbn. split_guard. by apply Hoe.
  - by eapply checkpoint_accepted, (cl_request _ _ _ _ _ _ Hc).
  - eexists. apply validate_approvals_Ok. exists intended. split_and!; [done| |done]. apply Forall_forall.
    intros a Ha. by destruct (collected_approval a intended Ha Hi).
  - eexists (_, _). apply validate_witness_decisions_Ok. split_and!; [|done|done]. apply Forall_forall.
    intros d Hd. by destruct (collected_decision d Hd).
  - apply quorum_valid. split_and!; try done.
    + intros i (a & -> & Ha)%filter_incl%list_elem_of_fmap. by apply (collected_approval a intended).
    + intros i (d & -> & Hd)%filter_incl%list_elem_of_fmap. by apply (collected_decision d).
  - unfold validate_endpoint_records, validate_request_policy in *. repeat inv_ok_step.
    match goal with Hx : ps_principals policy !! _ = Some _ |- _ => rewrite -> Hx end. done.
Qed.
End receipt.

Lemma request_encodes policy request validated :
  validate_request_policy policy request = Ok validated → WitnessRequestV1_wt request = true →
  ∃ preimage digest, WitnessRequestV1_signature_preimage request = Ok preimage ∧
    WitnessRequestV1_digest request = Ok digest ∧ (len preimage ≤ MAX_REQUEST_BYTES)%N.
Proof.
  intros Hp Hw. unfold validate_request_policy in Hp. repeat inv_ok_step.
  match goal with Hx : WitnessRequestV1_signature_preimage request = Ok ?p |- _ => rename Hx into Hpre, p into pre end.
  pose proof (request_bytes _ _ Hw Hpre) as Hl. unfold WitnessRequestV1_digest, hash_signed. rewrite -> Hpre. cbn [mbind result_bind].
  destruct (appends_field _ _ Hl eq_refl (jce_v1 "jury-witness-v1/request/hash")) as (o & -> & _). cbn. eauto.
Qed.

(** An assembled receipt was verified, and says what the decisions say. *)
Lemma assembled_verified policy request checkpoint e r :
  assemble_witness_receipt policy request checkpoint e = Ok r →
  ∃ rule request' validated, witness_access_rule policy (wr_item_id request) (core_operation (wr_operation request)) = Ok rule ∧
    verified r policy (Some checkpoint) request' validated ∧ receipt_shape r = Ok tt ∧
    rc_outcome r = (if evidence_approves rule e then RO_Approved else RO_Denied) ∧
    rc_reason r = ev_reason e ∧ rc_issued_at_ms r = ev_issued_at_ms e ∧ rc_expires_at_ms r = wr_expires_at_ms request ∧
    rc_public_scope r = from_request request.
Proof.
  unfold assemble_witness_receipt. intros (? & _ & (? & _ & Ha)%bind_Ok)%bind_Ok. apply reject_if_bind in Ha as [_ Ha].
  apply bind_Ok in Ha as (rule & Hrule%map_err_Ok & Ha). cbv zeta in Ha. apply bind_Ok in Ha as (outcome & Ho & Ha).
  apply bind_Ok in Ha as (preimage & _ & Ha). apply reject_if_bind in Ha as [_ Ha]. apply bind_Ok in Ha as (digest & _ & Ha).
  apply bind_Ok in Ha as (v & (request' & validated & Hv & _)%verify_with_policy_Ok & <-%Ok_inj).
  exists rule, request', validated. split_and!; try done.
  - destruct (vd_digests _ _ _ _ _ Hv) as [ds Hd]. unfold validated_digests in Hd.
    apply bind_Ok in Hd as ([core digest'] & Hd & _). unfold validated_core in Hd. by apply bind_Ok in Hd as ([] & Hd & _).
  - cbn [rc_outcome receipt_of]. unfold evidence_approves. pose proof (collected_counted e) as [Hca Hcw].
    rewrite -> (quorum_perm _ _ _ _ _ Hca Hcw) in Ho.
    destruct (quorum_approved _ _ _); apply reject_if_bind in Ho as [_ Ho%Ok_inj]; by rewrite <- Ho.
Qed.

Lemma assembled_issuable policy request checkpoint e r rule :
  witness_access_rule policy (wr_item_id request) (core_operation (wr_operation request)) = Ok rule →
  assemble_witness_receipt policy request checkpoint e = Ok r → issuable rule request e.
Proof.
  intros Hrule (rule' & request' & validated & Hrule' & Hv & Hs & Ho & Hr & Hi & He & Hsc)%assembled_verified.
  rewrite -> Hrule in Hrule'. apply Ok_inj in Hrule' as <-. pose proof (vd_scope _ _ _ _ _ Hv) as Hscope.
  unfold receipt_out_of_scope in Hscope. unfold receipt_shape in Hs. apply reject_if_Ok in Hs.
  rewrite -> Ho, Hr, Hi, He in *. to_prop.
  assert (wr_issued_at_ms request = wr_issued_at_ms request') as Hw
    by (match goal with Hx : rc_public_scope r = from_request request' |- _ => rewrite -> Hsc in Hx; by injection Hx end).
  split; [|done|by rewrite -> Hw|].
  - destruct (evidence_approves rule e); unfold outcome_matches in *; to_prop; naive_solver.
  - intros Hq. match goal with Hx : _ && (wr_expires_at_ms request <=? _)%N = false |- _ => rename Hx into Hlate end.
    rewrite -> Hq, bool_decide_true in Hlate by done. by apply N.leb_gt in Hlate.
Qed.

(** C11: a client can make a receipt of the decisions it collected, if it makes it in
    time. Let the request and every decision have passed the client's own checks,
    and no signer have decided twice. If the client then gives a reason exactly when
    the decisions are no quorum, not before the request was issued (up to the
    accepted difference of clocks) and, where they are a quorum, before the
    request expires, then the receipt can be assembled and verifies offline, from
    the receipt alone and against the client's checkpoint; it counts exactly the
    approving decisions, and says approved exactly when they are a quorum. With
    another reason or at another time it is refused. *)
Theorem receipt_complete policy checkpoint request manifest validated e :
  collected policy checkpoint request manifest validated e →
  (issuable (vrp_rule validated) request e →
   ∃ r v, assemble_witness_receipt policy request checkpoint e = Ok r ∧
     verify_witness_receipt r (Some checkpoint) = Ok v ∧
     vrc_outcome v = (if evidence_approves (vrp_rule validated) e then RO_Approved else RO_Denied) ∧
     vrc_counted_approver_ids v ≡ₚ counted_approvers_of (ev_approval_decisions e) ∧
     vrc_counted_witness_ids v ≡ₚ counted_witnesses_of (ev_witness_decisions e)) ∧
  (¬ issuable (vrp_rule validated) request e →
   is_ok (assemble_witness_receipt policy request checkpoint e) = false).
Proof.
  intros Hc. pose proof (cl_request _ _ _ _ _ _ Hc) as Hpub.
  destruct (public_request_Ok _ _ _ _ _ Hpub) as (Hp & _). pose proof (request_policy_witness_policy _ _ _ Hp) as (_ & _ & Hrule).
  split; last first.
  { intros Hn. destruct (assemble_witness_receipt _ _ _ _) as [r|] eqn:Hr; [|done]. destruct Hn.
    by eapply assembled_issuable. }
  intros Ht. destruct (cl_material _ _ _ _ _ _ Hc) as (m & (Hm & _)%material_roundtrip & Hrep).
  destruct (request_encodes _ _ _ Hp (proj1 (cl_typed _ _ _ _ _ _ Hc))) as (preimage & digest & Hpre & Hd & Hl).
  pose proof (collected_verified _ _ _ _ _ _ Hc Ht _ _ Hpre Hd) as Hver.
  pose proof (collected_outcome checkpoint _ _ _ Ht preimage digest) as (Hom & _). pose proof (collected_counted e) as [Ha Hw].
  match type of Hver with verified ?r _ _ _ _ => set (R := r) in * end.
  destruct (verify_with_policy_complete _ _ _ _ _ Hver) as (v & Hv & _ & Ho & Hva & Hvw).
  exists R, v. split_and!.
  - unfold assemble_witness_receipt. rewrite -> Hm. cbn [mbind result_bind]. rewrite -> Hrep. cbn [mbind result_bind].
    rewrite -> (bool_decide_true (policy = policy)) by done. cbn [reject_if mbind result_bind negb]. rewrite -> Hrule.
    cbn [mbind result_bind map_err].
    match goal with |- (if ?q then ?x else ?y) ≫= _ = _ =>
      assert ((if q then x else y) = Ok (if q then RO_Approved else RO_Denied)) as -> end.
    { destruct (quorum_approved _ _ _); cbn [outcome_matches] in Hom; [|apply negb_true_iff in Hom]; by rewrite -> Hom. }
    cbn [mbind result_bind]. rewrite -> Hpre. cbn [mbind result_bind map_err]. rewrite -> (proj2 (N.ltb_ge _ _) Hl).
    cbn [reject_if mbind result_bind]. rewrite -> Hd. cbn [mbind result_bind map_err]. fold R. by rewrite -> Hv.
  - unfold verify_witness_receipt. cbn [rc_witness_policy_material receipt_of R]. rewrite -> Hm. cbn [mbind result_bind].
    by rewrite -> Hrep.
  - rewrite -> Ho. cbn [rc_outcome receipt_of R]. unfold evidence_approves. by rewrite -> (quorum_perm _ _ _ _ _ Ha Hw).
  - by rewrite -> Hva.
  - by rewrite -> Hvw.
Qed.
End assembly.
