(* ===== verification/WitnessRecovery.v ===== *)
(** * Recovery of the witness engine

    A commit writes the new state together with the anchor to publish, and any
    later step may fail. The states this leaves are [recoverable], every
    operation keeps them so, and once the store and the anchor work again the
    next operation finishes the publication. *)

From S2P Require Import Prelude VaultTypes Canonical Preimage WitnessPolicy PolicyState Identifiers Text Effects WitnessMessages WitnessCodec WitnessValidation WitnessEngine WitnessEngineSpec WitnessEngineRefinement WitnessEngineTheorems.
Local Open Scope jury_scope.

(** A store and an anchor that work: calls that are in order succeed, and the
    store or anchor keeps working. *)
Class StoreRecovery `{Crypto} (S : Type) `{!WitnessStateStore S, !StoreLaws S} := {
  store_up : S → Prop;
  load_up s : store_up s → (load s).1 = Ok (stored s) ∧ store_up (load s).2;
  mark_up d s a : store_up s → pw_pending_anchor (stored s) = Some a → WitnessStateAnchorV1_digest a = Ok d →
    (mark_anchor_published d s).1 = Ok tt ∧ store_up (mark_anchor_published d s).2;
}.

(** The anchor that comes after another, or the first. *)
Definition follows `{Crypto} (expected : option WitnessStateAnchorV1) (candidate : WitnessStateAnchorV1) : Prop :=
  predecessor_digest expected = Ok (sa_predecessor_anchor_digest candidate) ∧
  sa_state_generation candidate = (default 0 (sa_state_generation <$> expected) + 1)%N.

(** [fits]: the limits an implementation has for candidates. *)
Class AnchorRecovery `{Crypto} (A : Type) `{!ExternalWitnessAnchor A, !AnchorLaws A} := {
  anchor_up : A → Prop;
  fits : A → WitnessStateAnchorV1 → Prop;
  read_up a : anchor_up a → (read a).1 = Ok (external a) ∧ anchor_up (read a).2;
  read_fits a c : fits a c → fits (read a).2 c;
  swap_up expected candidate a :
    anchor_up a → fits a candidate → follows expected candidate → anchor_bytes (external a) = anchor_bytes expected →
    (compare_and_swap expected candidate a).1 = Ok Published ∧
    anchor_up (compare_and_swap expected candidate a).2;
}.

Section recovery.
Context `{Crypto} {S A R I : Type} `{!WitnessStateStore S, !StoreLaws S, !ExternalWitnessAnchor A, !AnchorLaws A}
  `{RandomSource R} `{WitnessEngineIdentity I R} (identity : I).

Abbreviation eng := (Engine S A R).

(** The identity signs with the key of its descriptor. *)
Definition signs : Prop :=
  ∀ d m signature, public_descriptor (R := R) identity = Ok d →
    sign_witness_statement (R := R) identity m = Ok signature →
    verify_bytes (pd_verification_public_key d) m signature = true.

Record recoverable (st : PersistedWitnessState) (ext : option WitnessStateAnchorV1) : Prop := {
  rc_identity : validate_stored_identity (R := R) identity st = Ok tt;
  rc_published : pw_pending_anchor st = None → published_equality (R := R) identity st ext = Ok tt;
  rc_valid : ∀ a, pw_published_anchor st = Some a → validate_anchor (R := R) identity a = Ok tt;
  rc_pending : ∀ c, pw_pending_anchor st = Some c →
    validate_pending (R := R) identity st = Ok c ∧
    (anchor_bytes ext = anchor_bytes (Some c) ∨ anchor_bytes ext = anchor_bytes (pw_published_anchor st)) ∧
    follows (pw_published_anchor st) c;
}.

Definition recovers (e : eng) : Prop := recoverable (state_of e) (external_of e).

(** ** Anchors *)

Lemma exact_anchor_eq_intro a b :
  validate_anchor (R := R) identity a = Ok tt → anchor_bytes (Some b) = anchor_bytes (Some a) →
  exact_anchor_eq a b = Ok true.
Proof.
  intros [Ha _]%validate_anchor_bytes Hb. cbn in Hb. injection Hb as Hb. unfold exact_anchor_eq. rw Hb Ha. cbn.
  by rw bool_decide_true.
Qed.

Lemma exact_anchor_eq_comm a b : exact_anchor_eq a b = Ok true → exact_anchor_eq b a = Ok true.
Proof.
  unfold exact_anchor_eq. intros (x & Hx & (y & Hy & Heq)%bind_Ok)%bind_Ok. rw Hx Hy. cbn.
  injection Heq as Heq. to_prop. subst. by rw bool_decide_true.
Qed.

Lemma validate_pending_Ok st c :
  validate_pending (R := R) identity st = Ok c →
  pw_pending_anchor st = Some c ∧ validate_anchor (R := R) identity c = Ok tt ∧
  database_digest (pw_logical st) = Ok (sa_database_state_digest c) ∧
  sa_state_generation c = ls_state_generation (pw_logical st).
Proof.
  unfold validate_pending. intros (c' & Hc%ok_or_Ok & ([] & Hv & (d & Hd & (p & Hp & Hr)%bind_Ok)%bind_Ok)%bind_Ok)%bind_Ok.
  rewrite -> reject_if_bind in Hr. destruct Hr as [Hr [= <-]]. to_prop. subst. done.
Qed.

Lemma build_anchor_Ok st now_ms c :
  signs → build_anchor (R := R) identity st now_ms = Ok c →
  validate_anchor (R := R) identity c = Ok tt ∧ sa_state_generation c = ls_state_generation (pw_logical st) ∧
  database_digest (pw_logical st) = Ok (sa_database_state_digest c) ∧
  predecessor_digest (pw_published_anchor st) = Ok (sa_predecessor_anchor_digest c).
Proof.
  intros Hsig. unfold build_anchor. intros (d & Hd%map_err_Ok & (db & Hdb & (ws & Hws & (p & Hp & Hb)%bind_Ok)%bind_Ok)%bind_Ok)%bind_Ok.
  cbv zeta in Hb. apply bind_Ok in Hb as (pre & Hpre%map_err_Ok & (sig & Hs%map_err_Ok & Hc)%bind_Ok). injection Hc as <-.
  split_and!; try done. unfold validate_anchor. rw Hd. cbn.
  rw !bool_decide_true //. cbn.
  match goal with |- context [WitnessStateAnchorV1_signature_preimage ?a] =>
    change (WitnessStateAnchorV1_signature_preimage a) with
      (WitnessStateAnchorV1_signature_preimage (set_anchor_signature ZERO_SIGNATURE a)) end.
  unfold set_anchor_signature. cbn. rw Hpre. cbn. by rw (Hsig d pre sig Hd Hs).
Qed.

(** ** Marking and publishing *)

Lemma recoverable_promoted st ext c :
  recoverable st ext → pw_pending_anchor st = Some c → anchor_bytes ext = anchor_bytes (Some c) →
  recoverable (promoted c st) ext.
Proof.
  intros [Hid _ _ Hp] Hc He. destruct (Hp c Hc) as ((_ & Hv & Hd & Hg)%validate_pending_Ok & _). split.
  - unfold validate_stored_identity in *. cbn. apply bind_Ok in Hid as ([] & Hw & Hid). rw Hw. cbn.
    rewrite -> Hc in Hid. destruct (_ =? 0)%N; [|done]. cbn in Hid. by rewrite -> !orb_true_r in Hid.
  - intros _. unfold published_equality. cbn. destruct ext as [x|]; [|done].
    rw (exact_anchor_eq_intro _ _ Hv He). cbn. rw Hg bool_decide_true //. cbn. rw Hd. cbn.
    by rw bool_decide_true.
  - by intros a [= <-].
  - done.
Qed.

Lemma mark_keeps c (e : eng) :
  recovers e → pw_pending_anchor (state_of e) = Some c → anchor_bytes (external_of e) = anchor_bytes (Some c) →
  wp (mark_published c) (λ _ e', recovers e') e.
Proof.
  intros Hrec Hc He. unfold mark_published. apply wp_bind_lift; [|done]. intros d _. unfold wp, on_store.
  pose proof (mark_result d (en_store e)) as Hm. destruct (mark_anchor_published d (en_store e)) as [r s'].
  unfold recovers, state_of, external_of in *. cbn in *. destruct Hm as [[-> _]|(a & Ha & _ & ->)]; [done|].
  rewrite -> Hc in Ha. injection Ha as <-. by apply recoverable_promoted.
Qed.

Lemma recovers_same (e e' : eng) :
  state_of e' = state_of e → external_of e' = external_of e → recovers e → recovers e'.
Proof. unfold recovers. by intros -> ->. Qed.

Lemma swap_keeps c (e : eng) :
  recovers e → pw_pending_anchor (state_of e) = Some c →
  wp (on_anchor (compare_and_swap (pw_published_anchor (state_of e)) c))
    (λ _ e', recovers e' ∧ state_of e' = state_of e) e.
Proof.
  intros [Hid Hpub Hval Hp] Hc. unfold wp, on_anchor.
  pose proof (swap_result (pw_published_anchor (state_of e)) c (en_anchor e)) as Hs.
  destruct (compare_and_swap _ _ _) as [r a']. cbn in *. split; [|done].
  unfold recovers, state_of, external_of in *. cbn.
  destruct Hs as [[-> _]| ->]; [done|]. split; try done.
  - intros Hn. by rewrite -> Hc in Hn.
  - intros c' Hc'. rewrite -> Hc in Hc'. injection Hc' as <-. destruct (Hp c Hc) as (? & _ & ?). split_and!; [done|by left|done].
Qed.

Lemma read_keeps_recovers (e : eng) :
  recovers e → wp (on_anchor read) (λ r e', recovers e' ∧ state_of e' = state_of e ∧
    ∀ v, r = Ok v → v = external_of e') e.
Proof.
  intros Hrec. eapply wp_mono; [apply read_spec|]. intros r e' (Hs & He & Hv). split_and!; [|done|by rw He].
  by eapply recovers_same.
Qed.

Lemma publish_pending_keeps (e : eng) :
  recovers e → wp (publish_pending identity (state_of e)) (λ _ e', recovers e') e.
Proof.
  intros Hrec. unfold publish_pending. apply wp_bind_lift; [|done]. intros c Hv.
  apply validate_pending_Ok in Hv as (Hc & Hv & _).
  eapply wp_bind_mono; [by apply read_keeps_recovers|by intros ? ? [? _]|]. intros x e1 (Hrec1 & Hs1 & Hx).
  specialize (Hx x eq_refl). destruct (is_candidate x c) eqn:Hcand.
  { apply mark_keeps; [done|by rw Hs1|]. rw -Hx. by apply is_candidate_true. }
  do 2 (apply wp_bind_lift; [intros ? _|done]). rewrite <- Hs1 in *.
  eapply wp_bind_mono; [by apply swap_keeps|by intros ? ? [? _]|]. intros o e2 [Hrec2 Hs2].
  eapply (wp_bind_mono _ _ (λ _ e', recovers e' ∧ state_of e' = state_of e2)); [|by intros ? ? [? _]|].
  { destruct o; [done|]. eapply wp_bind_mono; [by apply read_keeps_recovers|naive_solver|].
    intros v e3 (? & ? & _). by apply wp_lift. }
  intros _ e3 [Hrec3 Hs3]. eapply wp_bind_mono; [by apply read_keeps_recovers|by intros ? ? [? _]|].
  intros v e4 (Hrec4 & Hs4 & Hx4). specialize (Hx4 v eq_refl).
  apply wp_bind_lift; [|done]. intros y Hy%ok_or_Ok. apply wp_bind_lift; [|done]. intros equal Heq.
  apply wp_bind_lift; [|done]. intros [] Hb%reject_if_Ok. destruct equal; [|done].
  apply mark_keeps; [done|by rw Hs4 Hs3 Hs2|]. rw -Hx4 Hy. cbn. by rw (exact_anchor_eq_true _ _ Heq).
Qed.

Lemma load_keeps_recovers (e : eng) :
  recovers e → wp (on_store load) (λ r e', recovers e' ∧ ∀ st, r = Ok st → st = state_of e') e.
Proof.
  intros Hrec. eapply wp_mono; [apply load_spec|]. intros r e' (Hs & He & Hv). rw Hs. split; [|done].
  by eapply recovers_same.
Qed.

Lemma require_keeps st (e : eng) : recovers e → wp (require_published_equality identity st) (λ _ e', recovers e') e.
Proof.
  intros Hrec. eapply wp_mono; [apply require_published_spec|]. intros r e' (Hs & He & _). by eapply recovers_same.
Qed.

Lemma ready_state_keeps (e : eng) : recovers e → wp (ready_state identity) (λ _ e', recovers e') e.
Proof.
  intros Hrec. unfold ready_state. eapply wp_bind_mono; [by apply load_keeps_recovers|by intros ? ? [? _]|].
  intros st e1 [Hrec1 Hst]. rewrite -> (Hst st eq_refl). apply wp_bind_lift; [intros ? _|done].
  eapply (wp_bind_mono _ _ (λ _ e', recovers e')); [|done|].
  { destruct (is_set _); [by apply publish_pending_keeps|by apply require_keeps]. }
  intros _ e2 Hrec2. eapply wp_bind_mono; [by apply load_keeps_recovers|by intros ? ? [? _]|]. intros ready e3 [Hrec3 _].
  do 2 (apply wp_bind_lift; [intros ? _|done]). eapply wp_bind_mono; [by apply require_keeps|done|].
  intros. by apply wp_ret.
Qed.

(** ** Committing *)

(** The tables may differ; the rest is that of the stored state. *)
Definition same_frame (st st0 : PersistedWitnessState) : Prop :=
  pw_published_anchor st = pw_published_anchor st0 ∧ pw_pending_anchor st = pw_pending_anchor st0 ∧
  ls_witness_id (pw_logical st) = ls_witness_id (pw_logical st0) ∧
  ls_state_generation (pw_logical st) = ls_state_generation (pw_logical st0).

Lemma recoverable_next st st0 ext generation time now_ms c :
  signs → recoverable st0 ext → pw_pending_anchor st0 = None → same_frame st st0 →
  generation = (ls_state_generation (pw_logical st) + 1)%N →
  build_anchor (R := R) identity (set_generation generation time st) now_ms = Ok c →
  recoverable (set_pending_anchor (Some c) (set_generation generation time st)) ext.
Proof.
  intros Hsig [Hid Hpub Hval _] Hn (Hfp & _ & Hfw & Hfg) Hg Hc. specialize (Hpub Hn).
  apply build_anchor_Ok in Hc as (Hv & Hgen & Hdb & Hpre); [|done]. cbn in Hgen, Hdb, Hpre. split.
  - unfold validate_stored_identity in *. cbn. apply bind_Ok in Hid as ([] & Hw & _). rw Hfw Hw. cbn.
    by rewrite -> (proj2 (N.eqb_neq generation 0) ltac:(lia)).
  - done.
  - cbn. by rw Hfp.
  - intros ? [= <-]. apply published_equality_anchored in Hpub as [_ Ha]; [|done]. split_and!.
    + unfold validate_pending. cbn. rw Hv. cbn. rw Hdb. cbn. rw Hpre. cbn. by rw Hgen !bool_decide_true.
    + right. cbn. rw Hfp. destruct (pw_published_anchor st0), ext; try done. cbn. by destruct Ha as [-> _].
    + cbn. split; [done|]. rw Hfp Hgen Hg Hfg. destruct (pw_published_anchor st0), ext; try done; cbn;
        [by destruct Ha as (_ & -> & _)|by rw Ha].
Qed.

Lemma commit_keeps st now_ms (e : eng) :
  signs → recovers e → pw_pending_anchor (state_of e) = None → same_frame st (state_of e) →
  wp (commit_and_publish identity st now_ms) (λ _ e', recovers e') e.
Proof.
  intros Hsig Hrec Hn Hf. unfold commit_and_publish. apply wp_bind_lift; [|done]. intros g Hg%ok_or_Ok%checked_add_u64_Some.
  apply wp_bind_lift; [|done]. intros c Hc.
  eapply (wp_bind_mono _ _ (λ _ e', state_of e' = state_of e ∧ external_of e' = external_of e)).
  { unfold wp, on_anchor. pose proof (ensure_keeps c (en_anchor e)) as Hk. by destruct (ensure_publishable _ _). }
  { intros ? e' [? ?]. by eapply recovers_same. }
  intros _ e1 [Hs He]. eapply (wp_bind_mono _ _ (λ _ e', recovers e')); [|done|intros; by apply ready_state_keeps].
  unfold wp, on_store. match goal with |- context [commit ?g ?st' ?s] => pose proof (commit_result g st' s) as Hcm;
    destruct (commit g st' s) as [r s'] end. unfold recovers, state_of, external_of in *. cbn in *. rw He.
  destruct Hcm as [[-> _]|[-> _]]; [by rw Hs|]. by eapply recoverable_next.
Qed.

(** ** Operations *)

(** A computation that starts in a stored state without a pending anchor. *)
Definition preserves {T} (st0 : PersistedWitnessState) (m : eff WitnessEngineErrorKind eng T) : Prop :=
  ∀ e, state_of e = st0 → recovers e → wp m (λ _ e', recovers e') e.

Lemma preserves_ret {T} st0 (x : T) : preserves st0 (mret x).
Proof. by intros e _ Hrec. Qed.

Lemma preserves_lift {T} st0 (r : checked T) : preserves st0 (lift r).
Proof. by intros e _ Hrec. Qed.

Lemma preserves_check {T U} st0 (r : checked T) (k : T → eff WitnessEngineErrorKind eng U) :
  (∀ x, r = Ok x → preserves st0 (k x)) → preserves st0 (lift r ≫= k).
Proof. intros Hk e Hs Hrec. apply wp_bind_lift; [|done]. intros x Hx. by apply Hk. Qed.

Lemma preserves_quiet {T U} st0 (m : eff WitnessEngineErrorKind eng T) (k : T → eff _ eng U) P :
  quiet m P → (∀ x, P x → preserves st0 (k x)) → preserves st0 (m ≫= k).
Proof.
  intros Hm Hk e Hs Hrec. eapply wp_bind_mono; [apply Hm|intros ? e' (? & ? & _); by eapply recovers_same|].
  intros x e' (Hs' & He' & HP). apply Hk; [by apply HP|by rw Hs'|by eapply recovers_same].
Qed.

Lemma preserves_commit {T} st0 st now_ms (k : PersistedWitnessState → eff WitnessEngineErrorKind eng T) :
  signs → pw_pending_anchor st0 = None → same_frame st st0 → (∀ st1 st', preserves st1 (k st')) →
  preserves st0 (commit_and_publish identity st now_ms ≫= k).
Proof.
  intros Hsig Hn Hf Hk e <- Hrec. eapply wp_bind_mono; [by apply commit_keeps|done|].
  intros st' e' Hrec'. by eapply Hk.
Qed.

Lemma preserves_begin {T} now_ms (k : PersistedWitnessState → eff WitnessEngineErrorKind eng T) (e : eng) :
  (∀ st, pw_pending_anchor st = None → preserves st (k st)) → recovers e →
  wp (begin identity now_ms ≫= k) (λ _ e', recovers e') e.
Proof.
  intros Hk Hrec. unfold begin. eapply (wp_bind_mono _ _ (λ r e', recovers e' ∧ ∀ st, r = Ok st →
    st = state_of e' ∧ pw_pending_anchor st = None)).
  - eapply (wp_bind_mono _ _ (λ r e', recovers e' ∧ ∀ st, r = Ok st → st = state_of e' ∧ pw_pending_anchor st = None)).
    + split; [by apply ready_state_keeps|]. intros st Hst. destruct (ready_state_spec identity e) as [_ Hr].
      destruct (Hr st Hst) as (? & ? & _). done.
    + by intros ? ? [? _].
    + intros st e' [Hr Hst]. apply wp_bind_lift; [|done]. intros _ _. apply wp_ret. split; [done|]. intros ? [= <-]. by apply Hst.
  - by intros ? ? [? _].
  - intros st e' [Hr Hst]. destruct (Hst st eq_refl) as [-> Hn]. by apply Hk.
Qed.

Lemma same_frame_update key f st st' :
  update_entry key f st = Ok st' → same_frame st' st.
Proof. by intros (? & _ & ->)%update_entry_Ok. Qed.

Lemma deny_all_quiet generation now_ms st0 l st :
  same_frame st st0 →
  quiet (foldM (deny_stale (S := S) (A := A) identity generation now_ms) st l) (λ st', same_frame st' st0).
Proof.
  revert st. induction l as [|[key en] l IH]; intros st Hf; [by intros e; split_and!; try done; intros ? [= <-]|].
  cbn [foldM]. eapply quiet_bind; [|intros st' Hst'; by apply IH, Hst'].
  eapply quiet_bind; [apply denial_quiet|]. intros response _. apply (quiet_lift _ (λ st', same_frame st' st0)).
  intros st' (? & ? & ? & ?)%same_frame_update. destruct Hf as (? & ? & ? & ?). unfold same_frame. split_and!; congruence.
Qed.

Ltac preserves_steps :=
  repeat first
    [ apply preserves_ret | apply preserves_lift
    | apply preserves_commit; [done|done|first [eassumption|done]|]; intros ? ?
    | apply preserves_check; intros ? ?
    | eapply preserves_quiet; [first [apply denial_quiet | apply approval_quiet]|]; intros ? _
    | match goal with Hu : update_entry _ _ _ = Ok _ |- _ => apply same_frame_update in Hu end
    | case_match ].

Lemma exec_keeps now_ms op (e : eng) :
  signs → recovers e → wp (exec identity now_ms op) (λ _ e', recovers e') e.
Proof.
  intros Hsig Hrec. destruct op; cbn [exec]; (eapply (wp_bind_mono _ _ (λ _ e', recovers e')); [|done|by intros; apply wp_ret]);
    try (apply wp_bind_lift; [intros ? _|done]); apply preserves_begin; try done; intros st Hn; cbv zeta.
  - preserves_steps.
  - preserves_steps.
  - preserves_steps.
  - preserves_steps; eapply preserves_quiet; [by apply deny_all_quiet|]; intros ? ?; preserves_steps.
  - unfold cancel_open. cbv zeta. preserves_steps.
  - preserves_steps.
  - preserves_steps.
  - unfold decide_validated. cbv zeta. preserves_steps.
Qed.

(** ** Progress *)

Context `{!StoreRecovery S, !AnchorRecovery A}.

Definition up (e : eng) : Prop := store_up (en_store e) ∧ anchor_up (en_anchor e).

Definition within (e : eng) : Prop := ∀ c, pw_pending_anchor (state_of e) = Some c → fits (en_anchor e) c.

Lemma load_up_spec (e : eng) :
  up e → wp (on_store load) (λ r e', r = Ok (state_of e) ∧ state_of e' = state_of e ∧
    en_anchor e' = en_anchor e ∧ up e') e.
Proof.
  intros [Hu Ha]. unfold wp, on_store. destruct (load_up _ Hu) as [Hr Hu']. pose proof (load_keeps (en_store e)) as Hk.
  destruct (load (en_store e)) as [r s']. cbn in *. subst r. done.
Qed.

Lemma read_up_spec (e : eng) :
  up e → wp (on_anchor read) (λ r e', r = Ok (external_of e) ∧ state_of e' = state_of e ∧
    external_of e' = external_of e ∧ up e' ∧ (within e → within e')) e.
Proof.
  intros [Hu Ha]. unfold wp, on_anchor. destruct (read_up _ Ha) as [Hr Ha']. pose proof (read_keeps (en_anchor e)) as Hk.
  pose proof (read_fits (en_anchor e)) as Hf. unfold within. destruct (read (en_anchor e)) as [r a']. cbn in *. subst r.
  split_and!; try done. intros Hw c Hc. by apply Hf, Hw.
Qed.

Lemma swap_up_spec c (e : eng) :
  up e → fits (en_anchor e) c → follows (pw_published_anchor (state_of e)) c →
  anchor_bytes (external_of e) = anchor_bytes (pw_published_anchor (state_of e)) →
  wp (on_anchor (compare_and_swap (pw_published_anchor (state_of e)) c)) (λ r e', r = Ok Published ∧
    state_of e' = state_of e ∧ external_of e' = Some c ∧ up e') e.
Proof.
  intros [Hu Ha] Hf Hn He. unfold wp, on_anchor. destruct (swap_up _ c _ Ha Hf Hn He) as [Hr Ha'].
  pose proof (swap_result (pw_published_anchor (state_of e)) c (en_anchor e)) as Hs.
  destruct (compare_and_swap _ _ _) as [r a']. cbn in *. subst r. unfold external_of. cbn.
  by destruct Hs as [[_ ?]| ->].
Qed.

Lemma mark_up_spec c d (e : eng) :
  up e → pw_pending_anchor (state_of e) = Some c → WitnessStateAnchorV1_digest c = Ok d →
  wp (mark_published c) (λ r e', r = Ok tt ∧ state_of e' = promoted c (state_of e) ∧ up e') e.
Proof.
  intros [Hu Ha] Hc Hd. unfold mark_published. rw Hd. apply wp_bind_lift; [|done]. intros ? [= <-]. unfold wp, on_store.
  destruct (mark_up d (en_store e) c Hu Hc Hd) as [Hr Hu']. pose proof (mark_result d (en_store e)) as Hm.
  destruct (mark_anchor_published d (en_store e)) as [r s']. unfold state_of in *. cbn in *. subst r.
  destruct Hm as [[_ ?]|(a & Ha' & _ & ->)]; [done|]. rewrite -> Hc in Ha'. by injection Ha' as <-.
Qed.

Lemma is_candidate_intro ext c :
  validate_anchor (R := R) identity c = Ok tt → anchor_bytes ext = anchor_bytes (Some c) → is_candidate ext c = true.
Proof.
  intros Hv He. destruct ext as [x|]; [|done]. cbn. by rw (exact_anchor_eq_comm _ _ (exact_anchor_eq_intro _ _ Hv He)).
Qed.

Lemma predecessor_matches_intro published ext :
  (∀ a, published = Some a → validate_anchor (R := R) identity a = Ok tt) →
  anchor_bytes ext = anchor_bytes published → predecessor_matches published ext = Ok true.
Proof.
  intros Hv He. destruct published as [a|], ext as [x|]; try done. apply exact_anchor_eq_intro; [by apply Hv|done].
Qed.

Lemma publish_pending_up c d (e : eng) :
  recovers e → up e → within e → pw_pending_anchor (state_of e) = Some c → WitnessStateAnchorV1_digest c = Ok d →
  wp (publish_pending identity (state_of e)) (λ r e', r = Ok tt ∧ state_of e' = promoted c (state_of e) ∧ up e') e.
Proof.
  intros Hrec Hup Hw Hc Hd. destruct (rc_pending _ _ Hrec c Hc) as (Hp & Hext & Hn). apply validate_pending_Ok in Hp as Hp'.
  destruct Hp' as (_ & Hv & _). unfold publish_pending. rw Hp. apply wp_bind_lift; [|done]. intros ? [= <-].
  eapply wp_bind_mono; [by apply read_up_spec|naive_solver|]. intros x e1 ([= ->] & Hs1 & He1 & Hup1 & Hw1). specialize (Hw1 Hw).
  destruct (is_candidate _ c) eqn:Hcand; [eapply wp_mono; [eapply mark_up_spec; [done|by rw Hs1|done]|by rw Hs1]|].
  destruct Hext as [Hext|Hext]; [by rewrite -> (is_candidate_intro _ _ Hv Hext) in Hcand|].
  rw (predecessor_matches_intro _ _ (rc_valid _ _ Hrec) Hext). do 2 (apply wp_bind_lift; [intros ? [= <-]|done]).
  rewrite <- Hs1, <- He1 in Hext. rewrite <- Hs1 in *.
  eapply wp_bind_mono; [apply swap_up_spec; try done; by apply Hw1|naive_solver|]. intros o e2 ([= ->] & Hs2 & He2 & Hup2).
  eapply (wp_bind_mono _ _ (λ r e', r = Ok tt ∧ e' = e2)); [done|by intros ? ? [? _]|]. intros _ e3 [_ ->].
  eapply wp_bind_mono; [by apply read_up_spec|naive_solver|]. intros v e3 ([= ->] & Hs3 & He3 & Hup3 & _).
  rw He2. apply wp_bind_lift; [|done]. intros ? [= <-]. rw (exact_anchor_eq_intro _ _ Hv eq_refl).
  do 2 (apply wp_bind_lift; [intros ? [= <-]|done]).
  eapply wp_mono; [eapply mark_up_spec; [done|by rw Hs3 Hs2|done]|]. by rw Hs3 Hs2.
Qed.

(** The pending anchor, if any, has a digest: it is shorter than 4 GiB. *)
Definition digestible (st : PersistedWitnessState) : Prop :=
  ∀ c, pw_pending_anchor st = Some c → is_ok (WitnessStateAnchorV1_digest c) = true.

Lemma require_up st (e : eng) :
  up e → published_equality (R := R) identity st (external_of e) = Ok tt →
  wp (require_published_equality identity st) (λ r e', r = Ok tt ∧ state_of e' = state_of e ∧ up e') e.
Proof.
  intros Hup Heq. unfold require_published_equality. eapply wp_bind_mono; [by apply read_up_spec|naive_solver|].
  intros v e1 ([= ->] & Hs & _ & Hup1 & _). apply wp_lift. done.
Qed.

(** The first half of [ready_state]: nothing is pending any more. *)
Lemma settle_up (e : eng) :
  recovers e → up e → within e → digestible (state_of e) →
  wp (if is_set (pw_pending_anchor (state_of e)) then publish_pending identity (state_of e)
      else require_published_equality identity (state_of e))
    (λ r e', r = Ok tt ∧ pw_pending_anchor (state_of e') = None ∧ up e') e.
Proof.
  intros Hrec Hup Hw Hd. destruct (pw_pending_anchor (state_of e)) as [c|] eqn:Hc; cbn.
  - specialize (Hd c Hc). destruct (WitnessStateAnchorV1_digest c) as [d|] eqn:Hdig; [|done].
    eapply wp_mono; [by eapply publish_pending_up|]. by intros r e' (-> & -> & ?).
  - eapply wp_mono; [apply require_up; [done|by apply rc_published]|]. intros r e' (-> & -> & ?). done.
Qed.

Lemma ready_state_up (e : eng) :
  recovers e → up e → within e → digestible (state_of e) → wp (ready_state identity) (λ r e', is_ok r = true) e.
Proof.
  intros Hrec Hup Hw Hd. unfold ready_state. eapply wp_bind_mono; [by apply load_up_spec|naive_solver|].
  intros st e1 ([= ->] & Hs1 & He1 & Hup1). rw (rc_identity _ _ Hrec). apply wp_bind_lift; [|done]. intros [] _.
  assert (recovers e1) as Hrec1 by (eapply recovers_same; [done|unfold external_of; by rw He1|done]).
  assert (within e1) as Hw1 by (unfold within; by rw Hs1 He1). rewrite <- Hs1 in *.
  eapply (wp_bind_mono _ _ (λ r e', (r = Ok tt ∧ pw_pending_anchor (state_of e') = None ∧ up e') ∧ recovers e')).
  { split; [by apply settle_up|]. destruct (is_set _); [by apply publish_pending_keeps|by apply require_keeps]. }
  { by intros ? ? [[? _] _]. }
  intros _ e2 [(_ & Hn & Hup2) Hrec2]. eapply wp_bind_mono; [by apply load_up_spec|naive_solver|].
  intros st e3 ([= ->] & Hs3 & He3 & Hup3). rw (rc_identity _ _ Hrec2) Hn.
  do 2 (apply wp_bind_lift; [intros ? _|done]).
  eapply wp_bind_mono; [apply require_up; [done|unfold external_of; rw He3; by apply rc_published]|naive_solver|]. intros. by apply wp_ret.
Qed.

Lemma run_recovers (e e' : eng) : signs → run (λ i, i = identity) e e' → recovers e → recovers e'.
Proof.
  intros Hsig Hrun. induction Hrun as [|i now_ms op e r e1 e2 -> _ Hx _ IH]; [done|]. intros Hrec. apply IH.
  by apply (wp_run _ _ _ _ _ (exec_keeps now_ms op e Hsig Hrec) Hx).
Qed.

Lemma recovers_new (e : eng) :
  state_of e = PersistedWitnessState_empty (principal_id (R := R) identity) → external_of e = None → recovers e.
Proof.
  intros Hs He. unfold recovers. rw Hs He. split; try done. unfold validate_stored_identity. cbn.
  by rw !bool_decide_true.
Qed.

(** C9: a witness recovers. Start from a new witness and let any operations run,
    any of whose calls to the store, the anchor, the signer or the random source
    may fail, before or after its effect. As soon as the store and the anchor
    work again, accept the pending anchor's size, and the clock is not behind, [check_ready] succeeds: it finishes
    the publication that was cut off, keeps every decision that was committed,
    and leaves the store and the external anchor in agreement. *)
Theorem witness_recovers now_ms (e0 e : eng) :
  signs → state_of e0 = PersistedWitnessState_empty (principal_id (R := R) identity) → external_of e0 = None →
  run (λ i, i = identity) e0 e → up e → within e → digestible (state_of e) →
  (ls_last_accepted_wall_time_ms (logical e) ≤ skewed now_ms)%N →
  ∃ e', check_ready identity now_ms e = (Ok tt, e') ∧ logical e' = logical e ∧
        anchored identity (state_of e') (external_of e').
Proof.
  intros Hsig Hs He Hrun Hup Hw Hd Hclock. apply run_recovers in Hrun as Hrec; [|done|by apply recovers_new].
  pose proof (ready_state_up e Hrec Hup Hw Hd) as Hok. destruct (ready_state_spec identity e) as [Hl Hst].
  unfold wp in Hok. unfold check_ready, begin. unfold mbind, eff_bind.
  destruct (ready_state identity e) as [[st|x] e'] eqn:Hr; cbn in *; [|done].
  destruct (Hst st eq_refl) as [-> Ha]. exists e'. unfold lift, require_safe_clock. fold_logical e'. rw Hl.
  assert ((skewed now_ms <? ls_last_accepted_wall_time_ms (logical e))%N = false) as -> by (apply N.ltb_ge; lia).
  done.
Qed.
End recovery.
