(* ===== verification/WitnessStorage.v ===== *)
(** * The witness's database

    [crates/jury-witness/src/persistence/implementation.rs],
    [persisted_json.rs] and [state_codec.rs]: the state of the engine as one row
    of an SQLite database. SQLite and serde_json are libraries: classes with
    their documented behaviour as laws. The store implements the interface the
    engine was proved against. *)

From S2P Require Import Prelude VaultTypes Canonical Preimage WitnessPolicy PolicyState Identifiers Text Effects WitnessMessages WitnessCodec WitnessValidation WitnessEngine WitnessEngineSpec.
Local Open Scope jury_scope.

Inductive AdapterErrorKind :=
  | AE_InvalidConfiguration | AE_InvalidCredential | AE_InvalidIdentity | AE_InvalidPolicyMaterial
  | AE_InvalidState | AE_DatabaseUnavailable | AE_AnchorUnavailable | AE_AuthenticationFailed
  | AE_Conflict | AE_CapacityExhausted | AE_TargetExists | AE_Io.

Global Instance AdapterErrorKind_eq_dec : EqDecision AdapterErrorKind.
Proof. solve_decision. Defined.

(** ** SQLite

    A connection holds committed contents. A transaction borrows the connection,
    sees the contents with its own changes, and gives the connection back when
    it is committed or dropped. Statements are functions on the contents. *)

(** What connections and transactions share: a statement that reads, the busy timeout, and the clock beside them. *)
Class SqlHandle (H T : Type) := {
  sql_query {U} : (T → U) → eff unit H U;
  sql_busy_timeout : N → eff unit H unit;
  instant_now : H → N * H;
}.

Class Sqlite (C X T : Type) := {
  connection_handle :: SqlHandle C T;
  transaction_handle :: SqlHandle X T;
  sql_begin : C → result C X;
  sql_execute {U} : (T → T * U) → eff unit X U;
  sql_commit : X → result unit unit * C;
  sql_rollback : X → C;
}.

Class HandleLaws (H T : Type) `{!SqlHandle H T} (contents : H → T) (base : H → T) : Prop := {
  query_keeps {U} (f : T → U) h : contents (sql_query f h).2 = contents h ∧ base (sql_query f h).2 = base h;
  query_result {U} (f : T → U) h u : (sql_query f h).1 = Ok u → u = f (contents h);
  busy_keeps n h : contents (sql_busy_timeout n h).2 = contents h ∧ base (sql_busy_timeout n h).2 = base h;
  now_keeps h : contents (instant_now h).2 = contents h ∧ base (instant_now h).2 = base h;
}.

Class SqliteLaws (C X T : Type) `{!Sqlite C X T} := {
  committed : C → T;
  visible : X → T;
  beneath : X → T;
  connection_laws :: HandleLaws C T committed committed;
  transaction_laws :: HandleLaws X T visible beneath;
  begin_ok c x : sql_begin c = Ok x → beneath x = committed c ∧ visible x = committed c;
  begin_err c c' : sql_begin c = Err c' → committed c' = committed c;
  execute_keeps {U} (f : T → T * U) x : beneath (sql_execute f x).2 = beneath x;
  execute_result {U} (f : T → T * U) x u :
    (sql_execute f x).1 = Ok u → visible (sql_execute f x).2 = (f (visible x)).1 ∧ u = (f (visible x)).2;
  commit_either x : committed (sql_commit x).2 = beneath x ∨ committed (sql_commit x).2 = visible x;
  commit_ok x : (sql_commit x).1 = Ok tt → committed (sql_commit x).2 = visible x;
  rollback_keeps x : committed (sql_rollback x) = beneath x;
}.

(** A transaction that is dropped on an error and committed otherwise. *)
Definition in_transaction {C X T E U : Type} `{!Sqlite C X T} (unavailable : E) (body : eff E X U) : eff E C U := λ c,
  match sql_begin c with
  | Err c' => (Err unavailable, c')
  | Ok x =>
      match body x with
      | (Ok u, x') =>
          match sql_commit x' with
          | (Ok _, c') => (Ok u, c')
          | (Err _, c') => (Err unavailable, c')
          end
      | (Err e, x') => (Err e, sql_rollback x')
      end
  end.

(** ** Deadlines *)

Definition MAXIMUM_SQLITE_BUSY_TIMEOUT : N := 5000000000.

Section deadlines.
Context {H T : Type} `{!SqlHandle H T}.

Definition remaining_busy_timeout (deadline : option N) : eff AdapterErrorKind H N := λ h,
  match deadline with
  | None => (Ok MAXIMUM_SQLITE_BUSY_TIMEOUT, h)
  | Some deadline =>
      let '(now, h') := instant_now h in
      (if (now <? deadline)%N then Ok (N.min (deadline - now) MAXIMUM_SQLITE_BUSY_TIMEOUT)
       else Err AE_DatabaseUnavailable, h')
  end.

Definition ensure_adapter_deadline (deadline : option N) : eff AdapterErrorKind H unit :=
  remaining_busy_timeout deadline;; mret tt.

Definition set_busy_timeout (timeout : N) : eff AdapterErrorKind H unit :=
  map_errM (λ _, AE_DatabaseUnavailable) (sql_busy_timeout timeout).
End deadlines.

(** ** The stored form of the state *)

Definition MAX_PERSISTED_WITNESS_STATE_BYTES : N := 67108864.

Inductive StateCodecError := SC_Invalid | SC_CapacityExhausted.

Definition map_codec_adapter_error (e : StateCodecError) : AdapterErrorKind :=
  match e with SC_Invalid => AE_InvalidState | SC_CapacityExhausted => AE_CapacityExhausted end.

Definition map_codec_store_error (e : StateCodecError) : WitnessStoreErrorKind :=
  match e with SC_Invalid => ST_Unavailable | SC_CapacityExhausted => ST_CapacityExhausted end.

(** [StoredState] with [StoredLogicalState]: the fields that are written, in
    their order, with the replay table as [Records]. *)
Record Snapshot (Records : Type) := {
  sn_witness_id : PrincipalId;
  sn_state_generation : N;
  sn_vaults : gmap VaultId RegisteredWitnessVault;
  sn_replay : Records;
  sn_last_accepted_wall_time_ms : N;
  sn_published_anchor : option WitnessStateAnchorV1;
  sn_pending_anchor : option WitnessStateAnchorV1;
}.

Arguments sn_witness_id {Records}.
Arguments sn_state_generation {Records}.
Arguments sn_vaults {Records}.
Arguments sn_replay {Records}.
Arguments sn_last_accepted_wall_time_ms {Records}.
Arguments sn_published_anchor {Records}.
Arguments sn_pending_anchor {Records}.

Definition with_records {A B} (records : B) (s : Snapshot A) : Snapshot B := {|
  sn_witness_id := sn_witness_id s; sn_state_generation := sn_state_generation s; sn_vaults := sn_vaults s;
  sn_replay := records; sn_last_accepted_wall_time_ms := sn_last_accepted_wall_time_ms s;
  sn_published_anchor := sn_published_anchor s; sn_pending_anchor := sn_pending_anchor s |}.

Definition snapshot_of {A} (records : A) (s : PersistedWitnessState) : Snapshot A :=
  let l := pw_logical s in {|
  sn_witness_id := ls_witness_id l; sn_state_generation := ls_state_generation l; sn_vaults := ls_vaults l;
  sn_replay := records; sn_last_accepted_wall_time_ms := ls_last_accepted_wall_time_ms l;
  sn_published_anchor := pw_published_anchor s; sn_pending_anchor := pw_pending_anchor s |}.

Definition state_of_snapshot (s : Snapshot (gmap replay_key WitnessReplayEntry)) : PersistedWitnessState := {|
  pw_logical := {|
    ls_witness_id := sn_witness_id s; ls_state_generation := sn_state_generation s; ls_vaults := sn_vaults s;
    ls_replay := sn_replay s; ls_last_accepted_wall_time_ms := sn_last_accepted_wall_time_ms s |};
  pw_published_anchor := sn_published_anchor s;
  pw_pending_anchor := sn_pending_anchor s |}.

(** serde_json: the pieces it hands to the writer, and whether it got to the end;
    a table that reports an error does not. What it wrote to the end it reads
    back. *)
Class StateJson := {
  to_json : Snapshot (result unit (list WitnessReplayEntry)) → list bytes * bool;
  from_json : bytes → option (Snapshot (list WitnessReplayEntry));
  to_json_records s : (to_json s).2 = true → is_ok (sn_replay s) = true;
  from_to_json s records :
    (to_json s).2 = true → sn_replay s = Ok records →
    from_json (concat (to_json s).1) = Some (with_records records s);
}.

Definition record_key (record : WitnessReplayEntry) : replay_key :=
  (wr_vault_id (re_request record), wr_request_id (re_request record)).

(** [replay_records::serialize] and [replay_records::deserialize] *)
Definition replay_records_serialize (records : gmap replay_key WitnessReplayEntry)
    : result unit (list WitnessReplayEntry) :=
  reject_if (MAX_REPLAY_RECORDS_PER_SERVICE <? N.of_nat (size records))%N tt;;
  mapE (λ e : replay_key * WitnessReplayEntry, reject_if (e.1 !=? record_key e.2) tt;; Ok e.2) (entries records).

Definition insert_record (records : gmap replay_key WitnessReplayEntry) (record : WitnessReplayEntry)
    : result unit (gmap replay_key WitnessReplayEntry) :=
  reject_if (MAX_REPLAY_RECORDS_PER_SERVICE <=? N.of_nat (size records))%N tt;;
  reject_if (is_set (records !! record_key record)) tt;;
  Ok (<[record_key record := record]> records).

Definition replay_records_deserialize (records : list WitnessReplayEntry)
    : result unit (gmap replay_key WitnessReplayEntry) :=
  foldE insert_record ∅ records.

Record BoundedJsonWriter := { bw_bytes : bytes; bw_maximum_bytes : N; bw_capacity_exhausted : bool }.

Definition BoundedJsonWriter_new (maximum_bytes : N) : BoundedJsonWriter :=
  {| bw_bytes := []; bw_maximum_bytes := maximum_bytes; bw_capacity_exhausted := false |}.

Definition bounded_write (input : bytes) : eff unit BoundedJsonWriter unit := λ w,
  let remaining := (bw_maximum_bytes w - len (bw_bytes w))%N in
  if (remaining <? len input)%N then
    (Err tt, {| bw_bytes := bw_bytes w; bw_maximum_bytes := bw_maximum_bytes w; bw_capacity_exhausted := true |})
  else
    (Ok tt, {| bw_bytes := bw_bytes w ++ input; bw_maximum_bytes := bw_maximum_bytes w;
               bw_capacity_exhausted := bw_capacity_exhausted w |}).

(** [serde_json::to_writer] on the pieces of a value. *)
Definition encode_json_bounded (value : list bytes * bool) (maximum_bytes : N) : result StateCodecError bytes :=
  match forM bounded_write value.1 (BoundedJsonWriter_new maximum_bytes) with
  | (Ok _, writer) => if value.2 then Ok (bw_bytes writer) else
                      if bw_capacity_exhausted writer then Err SC_CapacityExhausted else Err SC_Invalid
  | (Err _, writer) => if bw_capacity_exhausted writer then Err SC_CapacityExhausted else Err SC_Invalid
  end.

Section codec.
Context `{StateJson}.

Definition encode_persisted_state (state : PersistedWitnessState) : result StateCodecError bytes :=
  encode_json_bounded (to_json (snapshot_of (replay_records_serialize (ls_replay (pw_logical state))) state))
    MAX_PERSISTED_WITNESS_STATE_BYTES.

Definition decode_persisted_state (bs : bytes) : result StateCodecError PersistedWitnessState :=
  reject_if (MAX_PERSISTED_WITNESS_STATE_BYTES <? len bs)%N SC_CapacityExhausted;;
  snapshot ← ok_or (from_json bs) SC_Invalid;
  records ← map_err (λ _, SC_Invalid) (replay_records_deserialize (sn_replay snapshot));
  Ok (state_of_snapshot (with_records records snapshot)).
End codec.

(** ** The tables *)

(** [initialize_schema]: the row of [witness_state] and the rows of [anchors]. *)
Record AnchorRow := { ar_generation : Z; ar_digest : bytes; ar_anchor_json : bytes }.

Record Database := { db_witness_state : option (Z * bytes); db_anchors : gmap PrincipalId AnchorRow }.

Definition with_witness_state (row : option (Z * bytes)) (db : Database) : Database :=
  {| db_witness_state := row; db_anchors := db_anchors db |}.

(** [i64::try_from] on a [u64] and [u64::try_from] on an [i64] *)
Definition i64_of_u64 (n : N) : option Z := if (n <? 2 ^ 63)%N then Some (Z.of_N n) else None.

Definition u64_of_i64 (z : Z) : option N := if (0 <=? z)%Z then Some (Z.to_N z) else None.

Definition validate_state_length (serialized_length : Z) : result AdapterErrorKind unit :=
  serialized_length ← ok_or (u64_of_i64 serialized_length) AE_InvalidState;
  reject_if (MAX_PERSISTED_WITNESS_STATE_BYTES <? serialized_length)%N AE_CapacityExhausted.

Definition map_adapter_store_error (e : AdapterErrorKind) : WitnessStoreErrorKind :=
  match e with AE_CapacityExhausted => ST_CapacityExhausted | _ => ST_Unavailable end.

Section rows.
Context `{Crypto} `{StateJson} {D : Type} `{!SqlHandle D Database}.

(** A query for one row; no row is an error. *)
Definition query_row {U} (select : Database → option U) : eff AdapterErrorKind D U :=
  map_errM (λ _, AE_DatabaseUnavailable) (sql_query select ≫= λ row, lift (ok_or row tt)).

Definition ensure_store_deadline (deadline : option N) : eff WitnessStoreErrorKind D unit :=
  map_errM map_adapter_store_error (ensure_adapter_deadline deadline).

Definition load_witness_state (witness_id : PrincipalId) : eff AdapterErrorKind D PersistedWitnessState :=
  serialized_length ← query_row (λ db, (λ row : Z * bytes, Z.of_N (len row.2)) <$> db_witness_state db);
  lift (validate_state_length serialized_length);;
  row ← query_row (λ db,
    row ← db_witness_state db;
    if (len row.2 <=? MAX_PERSISTED_WITNESS_STATE_BYTES)%N then Some row else None);
  let '(generation, state_json) := (row : Z * bytes) in
  state ← lift (map_err map_codec_adapter_error (decode_persisted_state state_json));
  generation ← lift (ok_or (u64_of_i64 generation) AE_InvalidState);
  lift (reject_if ((ls_witness_id (pw_logical state) !=? witness_id) ||
                   (ls_state_generation (pw_logical state) !=? generation)) AE_InvalidState);;
  lift (map_err (λ _, AE_InvalidState) (canonical_database_state (pw_logical state)));;
  mret state.
End rows.

(** ** The store *)

Record SqliteWitnessStore (C : Type) := {
  sw_connection : C;
  sw_witness_id : PrincipalId;
  sw_deadline : option N;
}.

Arguments sw_connection {C}.
Arguments sw_witness_id {C}.
Arguments sw_deadline {C}.

Definition with_sw_connection {C} (c : C) (s : SqliteWitnessStore C) : SqliteWitnessStore C :=
  {| sw_connection := c; sw_witness_id := sw_witness_id s; sw_deadline := sw_deadline s |}.

(** A statement that changes the row of a generation, and how many rows it changed. *)
Definition update_witness_state (generation : Z) (set : Z * bytes → Z * bytes) (db : Database) : Database * N :=
  match db_witness_state db with
  | Some row => if (row.1 =? generation)%Z then (with_witness_state (Some (set row)) db, 1%N) else (db, 0%N)
  | None => (db, 0%N)
  end.

Record WitnessAuditVaultV1 := {
  av_vault_id : VaultId;
  av_genesis_fingerprint : Digest32;
  av_policy_sequence : N;
  av_checkpoint_digest : Digest32;
}.

(** [WitnessAuditSnapshotV1] without the constant [scope]. *)
Record WitnessAuditSnapshotV1 := {
  au_schema : N;
  au_witness_id : PrincipalId;
  au_state_generation : N;
  au_published_anchor_digest : option Digest32;
  au_published_anchor_generation : option N;
  au_pending_anchor_candidate : bool;
  au_vaults : list WitnessAuditVaultV1;
  au_replay_record_count : N;
  au_reserved_replay_record_count : N;
  au_stable_replay_record_count : N;
  au_replay_retain_through_ms : N;
  au_external_anchor_compared : bool;
  au_contribution_readiness_claimed : bool;
}.

Section store.
Context `{Crypto} `{StateJson} {C X : Type} `{!Sqlite C X Database}.

Definition on_connection {E A} (m : PrincipalId → option N → eff E C A) : eff E (SqliteWitnessStore C) A :=
  λ s, zoom sw_connection with_sw_connection (m (sw_witness_id s) (sw_deadline s)) s.

Definition load_validated (witness_id : PrincipalId) (deadline : option N)
    : eff AdapterErrorKind C PersistedWitnessState :=
  ensure_adapter_deadline deadline;;
  state ← load_witness_state witness_id;
  ensure_adapter_deadline deadline;;
  mret state.

Definition prepare_store (deadline : option N) : eff WitnessStoreErrorKind C unit :=
  ensure_store_deadline deadline;;
  timeout ← map_errM map_adapter_store_error (remaining_busy_timeout deadline);
  map_errM map_adapter_store_error (set_busy_timeout timeout).

Definition commit_transaction (witness_id : PrincipalId) (deadline : option N) (expected_generation : N)
    (replacement : PersistedWitnessState) : eff WitnessStoreErrorKind X unit :=
  current ← map_errM map_adapter_store_error (load_witness_state witness_id);
  ensure_store_deadline deadline;;
  lift (reject_if ((ls_state_generation (pw_logical current) !=? expected_generation) ||
                   is_set (pw_pending_anchor current)) ST_Unavailable);;
  state_json ← lift (map_err map_codec_store_error (encode_persisted_state replacement));
  ensure_store_deadline deadline;;
  replacement_generation ← lift (ok_or (i64_of_u64 (ls_state_generation (pw_logical replacement))) ST_Unavailable);
  expected_generation ← lift (ok_or (i64_of_u64 expected_generation) ST_Unavailable);
  changed ← map_errM (λ _, ST_Unavailable)
    (sql_execute (update_witness_state expected_generation (λ _, (replacement_generation, state_json))));
  lift (reject_if (changed !=? 1%N) ST_Unavailable);;
  ensure_store_deadline deadline.

Definition sqlite_commit (expected_generation : N) (replacement : PersistedWitnessState)
    (witness_id : PrincipalId) (deadline : option N) : eff WitnessStoreErrorKind C unit :=
  prepare_store deadline;;
  lift (reject_if ((ls_witness_id (pw_logical replacement) !=? witness_id) ||
                   (ls_state_generation (pw_logical replacement) !=? saturating_add_u64 expected_generation 1) ||
                   is_none (pw_pending_anchor replacement)) ST_Unavailable);;
  in_transaction ST_Unavailable (commit_transaction witness_id deadline expected_generation replacement).

Definition mark_transaction (candidate_digest : Digest32) (witness_id : PrincipalId) (deadline : option N)
    : eff WitnessStoreErrorKind X unit :=
  current ← map_errM map_adapter_store_error (load_witness_state witness_id);
  ensure_store_deadline deadline;;
  candidate ← lift (ok_or (pw_pending_anchor current) ST_Unavailable);
  digest ← lift (map_err (λ _, ST_Unavailable) (WitnessStateAnchorV1_digest candidate));
  lift (reject_if (digest !=? candidate_digest) ST_Unavailable);;
  let current := {| pw_logical := pw_logical current; pw_published_anchor := Some candidate;
                    pw_pending_anchor := None |} in
  state_json ← lift (map_err map_codec_store_error (encode_persisted_state current));
  ensure_store_deadline deadline;;
  generation ← lift (ok_or (i64_of_u64 (ls_state_generation (pw_logical current))) ST_Unavailable);
  changed ← map_errM (λ _, ST_Unavailable)
    (sql_execute (update_witness_state generation (λ row, (row.1, state_json))));
  lift (reject_if (changed !=? 1%N) ST_Unavailable);;
  ensure_store_deadline deadline.

Definition sqlite_mark (candidate_digest : Digest32) (witness_id : PrincipalId) (deadline : option N)
    : eff WitnessStoreErrorKind C unit :=
  prepare_store deadline;;
  in_transaction ST_Unavailable (mark_transaction candidate_digest witness_id deadline).

(** *** The offline inventory *)

Definition audit_vault (entry : VaultId * RegisteredWitnessVault) : result AdapterErrorKind WitnessAuditVaultV1 :=
  let checkpoint := rv_current_checkpoint entry.2 in
  checkpoint_digest ← map_err (λ _, AE_InvalidState) (VaultPolicyCheckpointV1_digest checkpoint);
  Ok {| av_vault_id := entry.1; av_genesis_fingerprint := vc_genesis_fingerprint checkpoint;
        av_policy_sequence := vc_vault_policy_sequence checkpoint; av_checkpoint_digest := checkpoint_digest |}.

(** [audit_witness_database] on the opened connection. *)
Definition audit_witness_database (witness_id : PrincipalId) : eff AdapterErrorKind C WitnessAuditSnapshotV1 :=
  state ← load_witness_state witness_id;
  published_anchor_digest ← lift
    match pw_published_anchor state with
    | Some anchor => Some <$> map_err (λ _, AE_InvalidState) (WitnessStateAnchorV1_digest anchor)
    | None => Ok None
    end;
  let l := pw_logical state in
  vaults ← lift (mapE audit_vault (entries (ls_vaults l)));
  let reserved := filter (λ entry, re_state entry = RS_Reserved) (values (ls_replay l)) in
  let replay_record_count := N.of_nat (size (ls_replay l)) in
  mret {|
    au_schema := 1;
    au_witness_id := ls_witness_id l;
    au_state_generation := ls_state_generation l;
    au_published_anchor_digest := published_anchor_digest;
    au_published_anchor_generation := sa_state_generation <$> pw_published_anchor state;
    au_pending_anchor_candidate := is_set (pw_pending_anchor state);
    au_vaults := vaults;
    au_replay_record_count := replay_record_count;
    au_reserved_replay_record_count := len reserved;
    au_stable_replay_record_count := replay_record_count - len reserved;
    au_replay_retain_through_ms := foldr N.max 0%N (re_retain_through_ms <$> values (ls_replay l));
    au_external_anchor_compared := false;
    au_contribution_readiness_claimed := false |}.

Global Instance sqlite_witness_store : WitnessStateStore (SqliteWitnessStore C) := {
  load := on_connection (λ witness_id deadline, map_errM map_adapter_store_error (load_validated witness_id deadline));
  commit expected_generation replacement := on_connection (sqlite_commit expected_generation replacement);
  mark_anchor_published candidate_digest := on_connection (sqlite_mark candidate_digest);
}.
End store.

(** * The stored form reads back *)

Lemma list_to_map_entries {V} (m : gmap replay_key V) : list_to_map (entries m) = m.
Proof.
  rw -{2}(list_to_map_to_list m). apply list_to_map_proper; [apply NoDup_keys|].
  apply merge_sort_Permutation.
Qed.

Lemma replay_records_serialize_Ok records l :
  replay_records_serialize records = Ok l ↔
  (N.of_nat (size records) ≤ MAX_REPLAY_RECORDS_PER_SERVICE)%N ∧
  entries records = (λ record, (record_key record, record)) <$> l.
Proof.
  unfold replay_records_serialize. rw reject_if_bind N.ltb_ge. apply and_iff_compat_l.
  rw mapE_Ok. generalize (entries records) as es. intros es. split.
  - induction 1 as [|[key record] y es l Hy _ IH]; [done|]. cbn [fmap list_fmap]. rewrite <- IH.
    apply reject_if_bind in Hy as [Hk Hy]. apply Ok_inj in Hy. cbn in Hk, Hy. subst y. to_prop. by subst key.
  - intros ->. induction l as [|r l IH]; constructor; [|done].
    apply reject_if_bind. split; [|done]. cbn. apply negb_false_iff. by apply bool_decide_eq_true.
Qed.

Lemma insert_records l records :
  NoDup (record_key <$> l) → (∀ record, record ∈ l → records !! record_key record = None) →
  (N.of_nat (size records) + len l ≤ MAX_REPLAY_RECORDS_PER_SERVICE)%N →
  foldE insert_record records l =
    Ok (list_to_map ((λ record, (record_key record, record)) <$> l) ∪ records).
Proof.
  revert records. induction l as [|r l IH]; intros records Hd Hn Hs; cbn [foldE fmap list_fmap list_to_map foldr].
  - by rw left_id_L.
  - apply NoDup_cons in Hd as [Hr Hd]. unfold len in *. cbn [length] in Hs. cbn.
    assert (records !! record_key r = None) as Hnone by (apply Hn; set_solver).
    assert (insert_record records r = Ok (<[record_key r := r]> records)) as Hi.
    { apply reject_if_bind. split; [apply N.leb_gt; lia|]. apply reject_if_bind. by rw Hnone. }
    rewrite -> Hi. cbn. rw IH; [|exact Hd| |rw map_size_insert_None; [lia|done]].
    + f_equal. rw -insert_union_r; [by rw insert_union_l|].
      apply not_elem_of_list_to_map_1. by rw -list_fmap_compose.
    + intros record Hin. rw lookup_insert_ne; [apply Hn; set_solver|].
      intros Heq. apply Hr. rewrite -> Heq. by apply list_elem_of_fmap_2.
Qed.

Lemma replay_records_roundtrip records l :
  replay_records_serialize records = Ok l → replay_records_deserialize l = Ok records.
Proof.
  intros [Hs He]%replay_records_serialize_Ok. pose proof (NoDup_keys records) as Hd.
  pose proof (list_to_map_entries records) as Hm. unfold keys in Hd. rewrite -> He in Hd, Hm.
  rewrite <- list_fmap_compose in Hd.
  unfold replay_records_deserialize. rw insert_records; [|exact Hd|by intros; apply lookup_empty|].
  - rewrite -> Hm. by rw right_id_L.
  - rewrite -> map_size_empty. unfold len. rewrite <- (length_fmap (λ record, (record_key record, record)) l).
    rewrite <- He. unfold entries. rewrite -> merge_sort_Permutation. by rw length_map_to_list.
Qed.

(** What [BoundedJsonWriter] accepts: everything, up to its capacity. *)
Lemma bounded_write_all pieces w u w' :
  (len (bw_bytes w) ≤ bw_maximum_bytes w)%N →
  forM bounded_write pieces w = (Ok u, w') ↔
  (len (bw_bytes w ++ concat pieces) ≤ bw_maximum_bytes w)%N ∧
  w' = {| bw_bytes := bw_bytes w ++ concat pieces; bw_maximum_bytes := bw_maximum_bytes w;
          bw_capacity_exhausted := bw_capacity_exhausted w |}.
Proof.
  destruct u. revert w. induction pieces as [|p pieces IH]; intros w Hw; cbn [forM concat].
  - rw app_nil_r. destruct w; cbn in *. unfold mret, eff_ret. naive_solver.
  - rw eff_bind_Ok. unfold bounded_write at 1.
    destruct (N.ltb_spec (bw_maximum_bytes w - len (bw_bytes w)) (len p)) as [Hp|Hp].
    + split; [naive_solver|]. intros [Hl _]. unfold len in *. rewrite -> !length_app in Hl. lia.
    + split.
      * intros (a & w1 & [= <- <-] & Hrest). apply IH in Hrest; cbn in *; [by rw (assoc_L (++))|].
        unfold len in *. rw length_app. lia.
      * intros [Hl ->]. eexists _, _. split; [reflexivity|]. apply IH; cbn; [|by rw -(assoc_L (++))].
        unfold len in *. rewrite -> !length_app in Hl |- *. lia.
Qed.

Lemma encode_json_bounded_Ok value maximum_bytes bs :
  encode_json_bounded value maximum_bytes = Ok bs ↔
  value.2 = true ∧ bs = concat value.1 ∧ (len bs ≤ maximum_bytes)%N.
Proof.
  unfold encode_json_bounded.
  assert (len ([] : bytes) ≤ maximum_bytes)%N as H0 by (unfold len; cbn; lia).
  pose proof (λ u w', bounded_write_all value.1 (BoundedJsonWriter_new maximum_bytes) u w' H0) as Hall. cbn in Hall.
  destruct (forM bounded_write value.1 _) as [[u|e] w'].
  - destruct (proj1 (Hall u w') eq_refl) as [Hl ->]. cbn. repeat case_match; naive_solver.
  - split; [repeat case_match; done|]. intros (_ & -> & Hl).
    pose proof (proj2 (Hall tt _) (conj Hl eq_refl)). done.
Qed.

Lemma state_roundtrip `{StateJson} state bs :
  encode_persisted_state state = Ok bs → decode_persisted_state bs = Ok state.
Proof.
  intros (Hj & -> & Hl)%encode_json_bounded_Ok. unfold decode_persisted_state.
  destruct (replay_records_serialize (ls_replay (pw_logical state))) as [l|e] eqn:Hs;
    [|by apply to_json_records in Hj].
  apply reject_if_bind. split; [by apply N.ltb_ge|]. apply bind_Ok.
  exists (with_records l (snapshot_of l state)). split; [apply ok_or_Ok; exact (from_to_json _ l Hj eq_refl)|].
  apply bind_Ok. exists (ls_replay (pw_logical state)). split; [|by destruct state as [[] ? ?]].
  apply map_err_Ok. exact (replay_records_roundtrip _ _ Hs).
Qed.

(** C30: a state that is stored is read back as it was. Whatever
    [encode_persisted_state] prints within its 64 MiB decodes to the same state,
    with its replay table under the keys its requests carry. *)
Theorem stored_state_roundtrip `{StateJson} state bs :
  encode_persisted_state state = Ok bs →
  decode_persisted_state bs = Ok state ∧ (len bs ≤ MAX_PERSISTED_WITNESS_STATE_BYTES)%N ∧
  ∀ key record, ls_replay (pw_logical state) !! key = Some record → key = record_key record.
Proof.
  intros He. split; [by apply state_roundtrip|]. apply encode_json_bounded_Ok in He as (Hj & _ & Hl). split; [done|].
  intros key record Hk. destruct (replay_records_serialize (ls_replay (pw_logical state))) as [l|e] eqn:Hs;
    [|by apply to_json_records in Hj].
  apply replay_records_serialize_Ok in Hs as [_ Hs]. apply elem_of_entries in Hk. rewrite -> Hs in Hk.
  apply list_elem_of_fmap in Hk as (r & [= -> ->] & _). done.
Qed.

(** * What statements change *)

(** A computation on a handle that changes neither what it sees nor what lies
    beneath, and whose results are about what it sees. *)
Definition observes {D T E A} (contents base : D → T) (m : eff E D A) (R : T → A → Prop) : Prop :=
  ∀ d, contents (m d).2 = contents d ∧ base (m d).2 = base d ∧ ∀ a, (m d).1 = Ok a → R (contents d) a.

Section observes.
Context {D T : Type} `{!SqlHandle D T} (contents base : D → T) `{!HandleLaws D T contents base}.

Lemma observes_lift {E A} (r : result E A) : observes contents base (lift r) (λ _ a, r = Ok a).
Proof. intros d. done. Qed.

Lemma observes_weaken {E A} (m : eff E D A) (R R' : T → A → Prop) :
  observes contents base m R → (∀ t a, R t a → R' t a) → observes contents base m R'.
Proof. intros Hm HR d. destruct (Hm d) as (? & ? & Hr). split_and!; naive_solver. Qed.

Lemma observes_bind {E A B} (m : eff E D A) (f : A → eff E D B) R Q :
  observes contents base m R → (∀ a, observes contents base (f a) (λ t b, R t a → Q t b)) →
  observes contents base (m ≫= f) Q.
Proof.
  intros Hm Hf d. destruct (Hm d) as (Hc & Hb & Hr). unfold mbind, eff_bind.
  destruct (m d) as [[a|e] d']; cbn in *; [|done].
  destruct (Hf a d') as (Hc' & Hb' & Hr'). rewrite -> Hc', Hb', Hc, Hb. split_and!; [done|done|].
  intros b Hb1. rewrite <- Hc in Hr |- *. by apply Hr', Hr.
Qed.

Lemma observes_map_err {E E' A} (f : E → E') (m : eff E D A) R :
  observes contents base m R → observes contents base (map_errM f m) R.
Proof.
  intros Hm d. destruct (Hm d) as (Hc & Hb & Hr). unfold map_errM.
  destruct (m d) as [[a|e] d']; cbn in *; split_and!; naive_solver.
Qed.

Lemma observes_query {U} (f : T → U) : observes contents base (sql_query f) (λ t u, u = f t).
Proof. intros d. destruct (query_keeps (HandleLaws := HandleLaws0) f d). split_and!; eauto using query_result. Qed.

Lemma observes_timeout deadline : observes contents base (remaining_busy_timeout deadline) (λ _ _, True).
Proof.
  intros d. unfold remaining_busy_timeout. destruct deadline; [|done].
  pose proof (now_keeps (HandleLaws := HandleLaws0) d) as Hk. destruct (instant_now d); naive_solver.
Qed.

Lemma observes_deadline deadline : observes contents base (ensure_adapter_deadline deadline) (λ _ _, True).
Proof. eapply observes_bind; [apply observes_timeout|]. intros _ d. done. Qed.

Lemma observes_busy timeout : observes contents base (set_busy_timeout timeout) (λ _ _, True).
Proof.
  apply observes_map_err. intros d. destruct (busy_keeps (HandleLaws := HandleLaws0) timeout d).
  split_and!; done.
Qed.

Lemma wp_observes {E A} (m : eff E D A) R (Q : result E A → D → Prop) d :
  observes contents base m R →
  (∀ r d', contents d' = contents d → base d' = base d → (∀ a, r = Ok a → R (contents d) a) → Q r d') →
  wp m Q d.
Proof. intros Hm HQ. destruct (Hm d) as (? & ? & ?). by apply HQ. Qed.
End observes.

Section load.
Context `{Crypto} `{StateJson} {D : Type} `{!SqlHandle D Database} (contents base : D → Database)
  `{!HandleLaws D Database contents base}.

Lemma observes_query_row {U} (select : Database → option U) :
  observes contents base (query_row select) (λ db u, select db = Some u).
Proof.
  apply observes_map_err. eapply observes_bind; [by apply observes_query|].
  intros row. eapply observes_weaken; [by apply observes_lift|]. intros db u Hu ->. by apply ok_or_Ok in Hu.
Qed.

Lemma observes_store_deadline deadline : observes contents base (ensure_store_deadline deadline) (λ _ _, True).
Proof. apply observes_map_err. by apply observes_deadline. Qed.

(** A state that is loaded is the one whose encoding the row holds, with the
    generation of the row and for the witness that asks. *)
Definition row_holds (witness_id : PrincipalId) (db : Database) (state : PersistedWitnessState) : Prop :=
  ∃ generation state_json,
    db_witness_state db = Some (generation, state_json) ∧ decode_persisted_state state_json = Ok state ∧
    ls_witness_id (pw_logical state) = witness_id ∧
    generation = Z.of_N (ls_state_generation (pw_logical state)).

Lemma observes_load witness_id :
  observes contents base (load_witness_state witness_id) (row_holds witness_id).
Proof.
  eapply observes_bind; [apply observes_query_row|]. intros l.
  eapply observes_bind; [apply observes_lift|]. intros ?.
  eapply observes_bind; [apply observes_query_row|]. intros [generation state_json].
  eapply observes_bind; [apply observes_lift|]. intros state.
  eapply observes_bind; [apply observes_lift|]. intros n.
  eapply observes_bind; [apply observes_lift|]. intros ?.
  eapply observes_bind; [apply observes_lift|]. intros ?.
  intros d. split_and!; [done|done|]. intros st Hst _ Hg Hn Hd Hrow _ _. apply Ok_inj in Hst. subst st.
  inv_ok. to_prop. unfold u64_of_i64 in Hn. destruct (0 <=? generation)%Z eqn:Hz; [|done].
  apply (inj Some) in Hn. apply bind_Some in Hrow as (row & Hrow & Hi).
  destruct (len row.2 <=? _)%N; [|done]. apply (inj Some) in Hi. subst row.
  exists generation, state_json. split_and!; try done. lia.
Qed.
End load.

(** What an operation of the store observes of its handle. *)
Ltac observe :=
  lazymatch goal with
  | |- observes _ _ (lift _) _ => apply observes_lift
  | |- observes _ _ (map_errM _ _) _ => apply observes_map_err; observe
  | |- observes _ _ (sql_query _) _ => apply observes_query; apply _
  | |- observes _ _ (query_row _) _ => apply observes_query_row; apply _
  | |- observes _ _ (remaining_busy_timeout _) _ => apply observes_timeout; apply _
  | |- observes _ _ (ensure_adapter_deadline _) _ => apply observes_deadline; apply _
  | |- observes _ _ (ensure_store_deadline _) _ => apply observes_store_deadline; apply _
  | |- observes _ _ (set_busy_timeout _) _ => apply observes_busy; apply _
  | |- observes _ _ (load_witness_state _) _ => apply observes_load; apply _
  end.

(** * The store keeps the engine's contract *)

Section laws.
Context `{Crypto} `{StateJson} {C X : Type} `{!Sqlite C X Database, !SqliteLaws C X Database}.

(** A transaction leaves the contents, or what its body made of them. *)
Lemma wp_in_transaction {E U} (unavailable : E) (body : eff E X U) (P : U → Database → Prop) c :
  (∀ x, beneath x = committed c → visible x = committed c →
    wp body (λ r x', beneath x' = committed c ∧ ∀ u, r = Ok u → P u (visible x')) x) →
  wp (in_transaction unavailable body)
    (λ r c', (committed c' = committed c ∧ is_ok r = false) ∨
             (∃ u, P u (committed c') ∧ ∀ u', r = Ok u' → u' = u)) c.
Proof.
  intros Hb. unfold wp, in_transaction. destruct (sql_begin c) as [x|c'] eqn:Hx; [|left; split; [|done]; by eapply begin_err].
  destruct (begin_ok _ _ Hx) as [Hx1 Hx2]. specialize (Hb x Hx1 Hx2). unfold wp in Hb.
  destruct (body x) as [[u|e] x']; cbn in *; destruct Hb as [Hb HP];
    [|left; split; [|done]; by rw rollback_keeps].
  specialize (HP u eq_refl). pose proof (commit_either x') as He. pose proof (commit_ok x') as Ho.
  destruct (sql_commit x') as [[[]|e] c']; cbn in *.
  - right. exists u. rewrite -> Ho by done. naive_solver.
  - destruct He as [He|He]; rewrite -> He; [left; by rewrite -> Hb|]. right. exists u. naive_solver.
Qed.

(** What the engine's account calls the stored state: the one the row decodes to. *)
Definition stored_in (witness_id : PrincipalId) (db : Database) : PersistedWitnessState :=
  match db_witness_state db with
  | Some (_, state_json) =>
      match decode_persisted_state state_json with
      | Ok state => state
      | Err _ => PersistedWitnessState_empty witness_id
      end
  | None => PersistedWitnessState_empty witness_id
  end.

Lemma row_holds_stored witness_id db state : row_holds witness_id db state → state = stored_in witness_id db.
Proof. intros (g & j & Hrow & Hd & _). unfold stored_in. by rewrite -> Hrow, Hd. Qed.

Lemma stored_update witness_id generation set db db' state bs :
  update_witness_state generation set db = (db', 1%N) → (∀ row, (set row).2 = bs) →
  encode_persisted_state state = Ok bs → stored_in witness_id db' = state.
Proof.
  unfold update_witness_state, stored_in. intros Hu Hs He. destruct (db_witness_state db) as [row|]; [|done].
  destruct (row.1 =? generation)%Z; [|done]. inversion Hu. cbn. specialize (Hs row).
  destruct (set row) as [g j]. cbn in Hs. subst j. by rewrite -> (state_roundtrip _ _ He).
Qed.

Lemma wp_execute {E U} (unavailable : E) (f : Database → Database * U) (x : X) :
  wp (map_errM (λ _, unavailable) (sql_execute f))
    (λ r x', beneath x' = beneath x ∧ ∀ u, r = Ok u → f (visible x) = (visible x', u)) x.
Proof.
  unfold wp, map_errM. pose proof (execute_keeps f x) as Hk. pose proof (execute_result f x) as Hr.
  destruct (sql_execute f x) as [[u|e] x']; cbn in *; split; try done.
  intros u' Hu. apply Ok_inj in Hu. subst u'. destruct (Hr u eq_refl) as [-> ->]. apply surjective_pairing.
Qed.

Lemma observes_prepare deadline : observes committed committed (prepare_store deadline) (λ _ _, True).
Proof.
  eapply observes_bind; [observe|]. intros [].
  eapply observes_bind; [observe|]. intros timeout.
  eapply observes_weaken; [observe|]. done.
Qed.

(** How both transactions end. *)
Lemma wp_update witness_id deadline generation set bs state (x : X) :
  (∀ row, (set row).2 = bs) → encode_persisted_state state = Ok bs →
  wp (changed ← map_errM (λ _, ST_Unavailable) (sql_execute (update_witness_state generation set));
      lift (reject_if (changed !=? 1%N) ST_Unavailable);;
      ensure_store_deadline deadline)
    (λ r x', beneath x' = beneath x ∧ ∀ u : unit, r = Ok u → stored_in witness_id (visible x') = state) x.
Proof.
  intros Hs He. eapply wp_bind_mono; [apply wp_execute|naive_solver|]. intros changed x1 [Hb Hu].
  apply wp_bind_lift; [|done]. intros u Hc. inv_ok. to_prop. subst changed.
  eapply wp_observes; [observe|]. intros r x2 Hv Hb2 _. rewrite -> Hb2, Hv. split; [done|].
  intros u _. eapply stored_update; [by apply Hu|done|done].
Qed.

(** A transaction that ended on an error. *)
Local Ltac ended := intros; split; [congruence|done].

Lemma commit_transaction_spec witness_id deadline g replacement (x : X) :
  wp (commit_transaction witness_id deadline g replacement)
    (λ r x', beneath x' = beneath x ∧ ∀ u : unit, r = Ok u →
      stored_in witness_id (visible x') = replacement ∧
      ls_state_generation (pw_logical (stored_in witness_id (visible x))) = g ∧
      pw_pending_anchor (stored_in witness_id (visible x)) = None) x.
Proof.
  unfold commit_transaction. apply wp_bind. eapply wp_observes; [observe|].
  intros [current|e] x1 Hv1 Hb1 Hr; [|done]. specialize (Hr _ eq_refl). apply row_holds_stored in Hr.
  apply wp_bind. eapply wp_observes; [observe|]. intros [[]|e] x2 Hv2 Hb2 _; [|ended].
  apply wp_bind_lift; [|ended]. intros [] Hg. inv_ok. to_prop.
  apply wp_bind_lift; [|ended]. intros bs He. inv_ok.
  apply wp_bind. eapply wp_observes; [observe|]. intros [[]|e] x3 Hv3 Hb3 _; [|ended].
  apply wp_bind_lift; [|ended]. intros g' _. apply wp_bind_lift; [|ended]. intros g0 _.
  eapply wp_mono; [by apply wp_update with (bs := bs)|]. intros r x4 [Hb4 Hs]. split; [congruence|].
  intros u Hu. split_and!; [by eapply Hs|by subst current|]. subst current. by destruct (pw_pending_anchor _).
Qed.

Lemma mark_transaction_spec d witness_id deadline (x : X) :
  wp (mark_transaction d witness_id deadline)
    (λ r x', beneath x' = beneath x ∧ ∀ u : unit, r = Ok u →
      ∃ a, pw_pending_anchor (stored_in witness_id (visible x)) = Some a ∧ WitnessStateAnchorV1_digest a = Ok d ∧
           stored_in witness_id (visible x') = promoted a (stored_in witness_id (visible x))) x.
Proof.
  unfold mark_transaction. apply wp_bind. eapply wp_observes; [observe|].
  intros [current|e] x1 Hv1 Hb1 Hr; [|done]. specialize (Hr _ eq_refl). apply row_holds_stored in Hr.
  apply wp_bind. eapply wp_observes; [observe|]. intros [[]|e] x2 Hv2 Hb2 _; [|ended].
  apply wp_bind_lift; [|ended]. intros a Ha. inv_ok.
  apply wp_bind_lift; [|ended]. intros d' Hd. inv_ok.
  apply wp_bind_lift; [|ended]. intros [] Hd'. inv_ok. to_prop. subst d'.
  apply wp_bind_lift; [|ended]. intros bs He. inv_ok.
  apply wp_bind. eapply wp_observes; [observe|]. intros [[]|e] x3 Hv3 Hb3 _; [|ended].
  apply wp_bind_lift; [|ended]. intros g' _.
  eapply wp_mono; [by apply wp_update with (bs := bs)|]. intros r x4 [Hb4 Hs]. split; [congruence|].
  intros u Hu. exists a. subst current. split_and!; [done|done|]. by eapply Hs.
Qed.

Definition sqlite_stored (s : SqliteWitnessStore C) : PersistedWitnessState :=
  stored_in (sw_witness_id s) (committed (sw_connection s)).

Lemma on_connection_wp {E A} (m : PrincipalId → option N → eff E C A) (Q : result E A → PersistedWitnessState → Prop) s :
  wp (m (sw_witness_id s) (sw_deadline s)) (λ r c, Q r (stored_in (sw_witness_id s) (committed c))) (sw_connection s) →
  wp (on_connection m) (λ r s', Q r (sqlite_stored s')) s.
Proof. unfold wp, on_connection, zoom. by destruct (m _ _ _). Qed.

Lemma sqlite_load_spec (s : SqliteWitnessStore C) :
  wp load (λ r s', sqlite_stored s' = sqlite_stored s ∧ ∀ st, r = Ok st → st = sqlite_stored s) s.
Proof.
  apply (on_connection_wp _ (λ r st', st' = sqlite_stored s ∧ ∀ st, r = Ok st → st = sqlite_stored s)).
  eapply (wp_observes _ _ _ (row_holds (sw_witness_id s))).
  - apply observes_map_err. eapply observes_bind; [observe|]. intros [].
    eapply observes_bind; [observe|]. intros st. eapply observes_bind; [observe|]. intros [] c.
    split_and!; [done|done|]. by intros st' [= ->].
  - intros r c' -> _ Hr. split; [done|]. intros st Hst. by apply row_holds_stored, Hr.
Qed.

Lemma sqlite_commit_spec g st (s : SqliteWitnessStore C) :
  wp (commit g st)
    (λ r s', (sqlite_stored s' = sqlite_stored s ∧ r ≠ Ok tt) ∨
             (sqlite_stored s' = st ∧ ls_state_generation (pw_logical (sqlite_stored s)) = g ∧
              pw_pending_anchor (sqlite_stored s) = None)) s.
Proof.
  apply (on_connection_wp _ (λ r st', (st' = sqlite_stored s ∧ r ≠ Ok tt) ∨ (st' = st ∧ _ ∧ _))).
  unfold sqlite_commit. apply wp_bind. eapply wp_observes; [apply observes_prepare|].
  intros [[]|e] c Hc _ _; [|left; by rw Hc]. apply wp_bind_lift; [|left; by rw Hc]. intros [] _.
  eapply wp_mono; [apply (wp_in_transaction _ _ (λ _ db, stored_in (sw_witness_id s) db = st ∧
    ls_state_generation (pw_logical (stored_in (sw_witness_id s) (committed c))) = g ∧
    pw_pending_anchor (stored_in (sw_witness_id s) (committed c)) = None)); intros x Hx Hv|].
  - eapply wp_mono; [apply commit_transaction_spec|]. intros r x' [Hb Hr]. rewrite -> Hv in Hr. split; [by rewrite -> Hb|].
    intros u. apply Hr.
  - intros r c' [[Hc' Hr]|(u & Hp & _)]; [left|right].
    + unfold sqlite_stored. rewrite -> Hc', Hc. split; [done|]. by intros ->.
    + unfold sqlite_stored. by rewrite <- Hc.
Qed.

Lemma sqlite_mark_spec d (s : SqliteWitnessStore C) :
  wp (mark_anchor_published d)
    (λ r s', (sqlite_stored s' = sqlite_stored s ∧ r ≠ Ok tt) ∨
             (∃ a, pw_pending_anchor (sqlite_stored s) = Some a ∧ WitnessStateAnchorV1_digest a = Ok d ∧
                   sqlite_stored s' = promoted a (sqlite_stored s))) s.
Proof.
  apply (on_connection_wp _ (λ r st', (st' = sqlite_stored s ∧ r ≠ Ok tt) ∨ (∃ a, _ ∧ _ ∧ st' = _))).
  unfold sqlite_mark. apply wp_bind. eapply wp_observes; [apply observes_prepare|].
  intros [[]|e] c Hc _ _; [|left; by rw Hc].
  eapply wp_mono; [apply (wp_in_transaction _ _ (λ _ db,
    ∃ a, pw_pending_anchor (stored_in (sw_witness_id s) (committed c)) = Some a ∧ WitnessStateAnchorV1_digest a = Ok d ∧
         stored_in (sw_witness_id s) db = promoted a (stored_in (sw_witness_id s) (committed c)))); intros x Hx Hv|].
  - eapply wp_mono; [apply mark_transaction_spec|]. intros r x' [Hb Hr]. rewrite -> Hv in Hr. split; [by rewrite -> Hb|].
    intros u. apply Hr.
  - intros r c' [[Hc' Hr]|(u & Hp & _)]; [left|right].
    + unfold sqlite_stored. rewrite -> Hc', Hc. split; [done|]. by intros ->.
    + unfold sqlite_stored. by rewrite <- Hc.
Qed.

(** C13: the SQLite store is the store the engine was proved against. A load
    answers the stored state; a commit leaves it or replaces it by the new state,
    and then it had the expected generation and nothing pending; a mark leaves it
    or turns its pending anchor, of the given digest, into the published one.
    What did not take effect is reported as an error; what took effect may be
    too, when the connection breaks while it commits. *)
Theorem sqlite_store_refines g st d (s : SqliteWitnessStore C) :
  wp load (λ r s', sqlite_stored s' = sqlite_stored s ∧ ∀ st, r = Ok st → st = sqlite_stored s) s ∧
  wp (commit g st)
    (λ r s', (sqlite_stored s' = sqlite_stored s ∧ r ≠ Ok tt) ∨
             (sqlite_stored s' = st ∧ ls_state_generation (pw_logical (sqlite_stored s)) = g ∧
              pw_pending_anchor (sqlite_stored s) = None)) s ∧
  wp (mark_anchor_published d)
    (λ r s', (sqlite_stored s' = sqlite_stored s ∧ r ≠ Ok tt) ∨
             (∃ a, pw_pending_anchor (sqlite_stored s) = Some a ∧ WitnessStateAnchorV1_digest a = Ok d ∧
                   sqlite_stored s' = promoted a (sqlite_stored s))) s.
Proof. split_and!; [apply sqlite_load_spec|apply sqlite_commit_spec|apply sqlite_mark_spec]. Qed.

Lemma foldr_max_ge l n : n ∈ l → (n ≤ foldr N.max 0 l)%N.
Proof. induction 1; cbn; lia. Qed.

Lemma length_values {V} (m : gmap replay_key V) : length (values m) = size m.
Proof. unfold values, entries. by rw length_fmap merge_sort_Permutation length_map_to_list. Qed.

(** The inventory is that of the stored state, and opening it changes nothing: no
    record is counted twice, and none is kept longer than the inventory says. *)
Lemma audit_spec witness_id :
  observes committed committed (audit_witness_database witness_id) (λ db a,
    let l := pw_logical (stored_in witness_id db) in
    au_witness_id a = witness_id ∧ au_state_generation a = ls_state_generation l ∧
    au_replay_record_count a = N.of_nat (size (ls_replay l)) ∧
    (au_reserved_replay_record_count a + au_stable_replay_record_count a = au_replay_record_count a)%N ∧
    ∀ key e, ls_replay l !! key = Some e → (re_retain_through_ms e ≤ au_replay_retain_through_ms a)%N).
Proof.
  eapply observes_bind; [observe|]. intros state. eapply observes_bind; [observe|]. intros digest. cbv zeta.
  eapply observes_bind; [observe|]. intros vaults c. split_and!; [done|done|]. intros a Ha _ _ Hrow.
  apply Ok_inj in Ha. subst a. cbn [au_witness_id au_state_generation au_replay_record_count
    au_reserved_replay_record_count au_stable_replay_record_count au_replay_retain_through_ms].
  pose proof (row_holds_stored _ _ _ Hrow) as <-. destruct Hrow as (_ & _ & _ & _ & Hw & _). split_and!; [done|done|done| |].
  - pose proof (length_filter (λ entry, re_state entry = RS_Reserved) (values (ls_replay (pw_logical state)))) as Hl.
    rewrite -> length_values in Hl. unfold len. lia.
  - intros key e He. apply foldr_max_ge, list_elem_of_fmap_2, elem_of_values. by exists key.
Qed.

#[export] Instance sqlite_store_laws : StoreLaws (SqliteWitnessStore C).
Proof.
  refine {| stored := sqlite_stored |}.
  - intros s. exact (proj1 (sqlite_load_spec s)).
  - intros s. exact (proj2 (sqlite_load_spec s)).
  - intros g st s. exact (sqlite_commit_spec g st s).
  - intros d s. exact (sqlite_mark_spec d s).
Defined.
End laws.
