(* ===== verification/WitnessAnchor.v ===== *)
(** * The external anchor

    [crates/jury-witness/src/anchor.rs] and the two handlers of [server.rs] that
    serve it: a repository that replaces an anchor only by its successor, the
    HTTP service in front of it, and the client that is the engine's
    [ExternalWitnessAnchor], whose requests may run after their calls timed out. serde_json and reqwest are classes. *)

From S2P Require Import Prelude Json VaultTypes Canonical Preimage WitnessPolicy PolicyState Identifiers Text Effects WitnessMessages WitnessCodec WitnessValidation WitnessEngine WitnessEngineSpec WitnessStorage.
Local Open Scope jury_scope.

Definition MAX_ANCHOR_HTTP_BYTES : N := 1048576.

Inductive AnchorCasResult :=
  | Applied (anchor : WitnessStateAnchorV1)
  | CasConflict (current : option WitnessStateAnchorV1).

Inductive AnchorCasOutcome := OutcomeApplied | OutcomeConflict.

Record AnchorCasRequest := {
  cq_expected_anchor_digest : option Digest32;
  cq_next_exact_anchor : WitnessStateAnchorV1;
}.

Record AnchorCasResponse := {
  cr_outcome : AnchorCasOutcome;
  cr_exact_anchor : option WitnessStateAnchorV1;
}.

Definition anchor_deadline_exceeded : AdapterErrorKind := AE_AnchorUnavailable.

Definition validate_candidate (witness_id : PrincipalId) (candidate : WitnessStateAnchorV1)
    : result AdapterErrorKind unit :=
  map_err (λ _, AE_InvalidState) (WitnessStateAnchorV1_validate_shape candidate);;
  reject_if (sa_witness_id candidate !=? witness_id) AE_InvalidState.

(** ** The repository *)

Section rows.
Context `{Crypto} `{!Json WitnessStateAnchorV1} {D : Type} `{!SqlHandle D Database}.

Definition prepare_anchor_deadline (deadline : option N) : eff AdapterErrorKind D unit :=
  timeout ← map_errM (λ _, anchor_deadline_exceeded) (remaining_busy_timeout deadline);
  map_errM (λ _, anchor_deadline_exceeded) (set_busy_timeout timeout).

Definition ensure_anchor_deadline (deadline : option N) : eff AdapterErrorKind D unit :=
  map_errM (λ _, anchor_deadline_exceeded) (ensure_adapter_deadline deadline).

(** The checks of [load_anchor] on a row. *)
Definition anchor_of_row (witness_id : PrincipalId) (row : AnchorRow) : result AdapterErrorKind WitnessStateAnchorV1 :=
  anchor ← ok_or (json_parse (ar_anchor_json row)) AE_InvalidState;
  validate_candidate witness_id anchor;;
  generation ← ok_or (u64_of_i64 (ar_generation row)) AE_InvalidState;
  reject_if (sa_state_generation anchor !=? generation) AE_InvalidState;;
  digest ← map_err (λ _, AE_InvalidState) (WitnessStateAnchorV1_digest anchor);
  reject_if (digest !=? ar_digest row) AE_InvalidState;;
  Ok anchor.

Definition load_anchor (witness_id : PrincipalId) : eff AdapterErrorKind D (option WitnessStateAnchorV1) :=
  row ← map_errM (λ _, AE_AnchorUnavailable) (sql_query (λ db, db_anchors db !! witness_id));
  match row with
  | None => mret None
  | Some row => anchor ← lift (anchor_of_row witness_id row); mret (Some anchor)
  end.

Definition read_with_deadline (witness_id : PrincipalId) (deadline : option N)
    : eff AdapterErrorKind D (option WitnessStateAnchorV1) :=
  prepare_anchor_deadline deadline;;
  anchor ← load_anchor witness_id;
  ensure_anchor_deadline deadline;;
  mret anchor.
End rows.

(** The insertion that replaces the row of a witness. *)
Definition upsert_anchor (witness_id : PrincipalId) (row : AnchorRow) (db : Database) : Database * unit :=
  ({| db_witness_state := db_witness_state db; db_anchors := <[witness_id := row]> (db_anchors db) |}, tt).

Definition anchor_digest `{Crypto} (anchor : option WitnessStateAnchorV1) : result AdapterErrorKind (option Digest32) :=
  match anchor with
  | None => Ok None
  | Some anchor => Some <$> map_err (λ _, AE_InvalidState) (WitnessStateAnchorV1_digest anchor)
  end.

Record SqliteAnchorRepository (C : Type) := { rp_connection : C; rp_witness_id : PrincipalId }.

Arguments rp_connection {C}.
Arguments rp_witness_id {C}.

Section repository.
Context `{Crypto} `{!Json WitnessStateAnchorV1} {C X : Type} `{!Sqlite C X Database}.

(** Up to the commit: what was answered there, or nothing where the row was written. *)
Definition cas_transaction (witness_id : PrincipalId) (expected_digest : option Digest32)
    (candidate : WitnessStateAnchorV1) (deadline : option N) : eff AdapterErrorKind X (option AnchorCasResult) :=
  current ← load_anchor witness_id;
  ensure_anchor_deadline deadline;;
  if current ==? Some candidate then mret (Some (Applied candidate))
  else
    current_digest ← lift (anchor_digest current);
    let predecessor := default ZERO_DIGEST expected_digest in
    let generation := match current with Some anchor => saturating_add_u64 (sa_state_generation anchor) 1 | None => 1%N end in
    if (current_digest !=? expected_digest) || (sa_predecessor_anchor_digest candidate !=? predecessor) ||
       (sa_state_generation candidate !=? generation)
    then mret (Some (CasConflict current))
    else
      digest ← lift (map_err (λ _, AE_InvalidState) (WitnessStateAnchorV1_digest candidate));
      encoded ← lift (ok_or (to_vec candidate) AE_InvalidState);
      ensure_anchor_deadline deadline;;
      generation ← lift (ok_or (i64_of_u64 (sa_state_generation candidate)) AE_CapacityExhausted);
      map_errM (λ _, AE_AnchorUnavailable) (sql_execute
        (upsert_anchor witness_id {| ar_generation := generation; ar_digest := digest; ar_anchor_json := encoded |}));;
      ensure_anchor_deadline deadline;;
      mret None.

Definition compare_and_swap_with_deadline (witness_id : PrincipalId) (expected_digest : option Digest32)
    (candidate : WitnessStateAnchorV1) (deadline : option N) : eff AdapterErrorKind C AnchorCasResult :=
  prepare_anchor_deadline deadline;;
  lift (validate_candidate witness_id candidate);;
  answered ← in_transaction AE_AnchorUnavailable (cas_transaction witness_id expected_digest candidate deadline);
  match answered with
  | Some result => mret result
  | None =>
      readback ← read_with_deadline witness_id deadline;
      readback ← lift (ok_or readback AE_AnchorUnavailable);
      lift (reject_if (readback !=? candidate) AE_Conflict);;
      mret (Applied readback)
  end.

Definition on_repository {E A} (m : PrincipalId → eff E C A) : eff E (SqliteAnchorRepository C) A := λ s,
  let '(r, c) := m (rp_witness_id s) (rp_connection s) in
  (r, {| rp_connection := c; rp_witness_id := rp_witness_id s |}).

Definition read_until (deadline : N) : eff AdapterErrorKind (SqliteAnchorRepository C) (option WitnessStateAnchorV1) :=
  on_repository (λ witness_id, read_with_deadline witness_id (Some deadline)).

Definition compare_and_swap_until (expected_digest : option Digest32) (candidate : WitnessStateAnchorV1) (deadline : N)
    : eff AdapterErrorKind (SqliteAnchorRepository C) AnchorCasResult :=
  on_repository (λ witness_id, compare_and_swap_with_deadline witness_id expected_digest candidate (Some deadline)).
End repository.

(** ** The service *)

Definition parse_principal_id (value : bytes) : result unit PrincipalId := map_err (λ _, tt) (decode_hex value).

Definition hex_id (id : PrincipalId) : bytes := encode_hex id.

Record AnchorApiState (C : Type) := { as_repository : SqliteAnchorRepository C; as_witness_id : PrincipalId }.

Arguments as_repository {C}.
Arguments as_witness_id {C}.

(** A status and a body; [StatusCode] by its number. *)
Record Response := { rs_status : N; rs_body : bytes }.

Definition status_response (status : N) : Response := {| rs_status := status; rs_body := [] |}.

(** A 200 with a JSON body; a value that cannot be printed is a 500. *)
Definition json_response {V} `{!Json V} (value : V) : Response :=
  match to_vec value with
  | Some body => {| rs_status := 200; rs_body := body |}
  | None => status_response 500
  end.

Section service.
Context `{Crypto} `{!Json WitnessStateAnchorV1, !Json AnchorCasRequest, !Json AnchorCasResponse}.
Context {C X : Type} `{!Sqlite C X Database}.

(** The worker thread applies a command to its repository. *)
Definition on_worker {E A} (m : eff E (SqliteAnchorRepository C) A) (state : AnchorApiState C)
    : result E A * AnchorApiState C :=
  let '(r, repository) := m (as_repository state) in
  (r, {| as_repository := repository; as_witness_id := as_witness_id state |}).

(** [refusal] bodies carry no anchor; they are left empty. *)
Definition read_anchor (witness_id : bytes) (deadline : N) (state : AnchorApiState C) : Response * AnchorApiState C :=
  match parse_principal_id witness_id with
  | Err _ => (status_response 404, state)
  | Ok witness_id =>
      if witness_id !=? as_witness_id state then (status_response 404, state)
      else
        match on_worker (read_until deadline) state with
        | (Ok (Some anchor), state') => (json_response anchor, state')
        | (Ok None, state') => (status_response 404, state')
        | (Err _, state') => (status_response 503, state')
        end
  end.

Definition cas_response (r : result AdapterErrorKind AnchorCasResult) : Response :=
  match r with
  | Ok (Applied anchor) => json_response {| cr_outcome := OutcomeApplied; cr_exact_anchor := Some anchor |}
  | Ok (CasConflict anchor) => json_response {| cr_outcome := OutcomeConflict; cr_exact_anchor := anchor |}
  | Err AE_InvalidState => status_response 400
  | Err _ => status_response 503
  end.

Definition compare_and_swap_anchor (witness_id payload : bytes) (deadline : N) (state : AnchorApiState C)
    : Response * AnchorApiState C :=
  match parse_principal_id witness_id with
  | Err _ => (status_response 400, state)
  | Ok witness_id =>
      if witness_id !=? as_witness_id state then (status_response 400, state)
      else
        match json_parse payload with
        | None => (status_response 400, state)
        | Some payload =>
            let '(r, state') := on_worker (compare_and_swap_until (cq_expected_anchor_digest payload)
                                             (cq_next_exact_anchor payload) deadline) state in
            (cas_response r, state')
        end
  end.
End service.

(** ** The client *)

(** What reqwest gives back: the declared length may be missing and the body may break off. *)
Record HttpAnswer := {
  ha_status : N;
  ha_content_length : option N;
  ha_body : result unit bytes;
}.

(** reqwest, with the network and the clock: a request names the last segment of
    the endpoint and a timeout. *)
Class HttpClient (W : Type) := {
  http_now : W → N * W;
  http_get : bytes → N → eff unit W HttpAnswer;
  http_post : bytes → N → bytes → eff unit W HttpAnswer;
}.

Record JsonSizeWriter := { jw_written : N; jw_capacity_exhausted : bool }.

Definition size_write (input : bytes) : eff unit JsonSizeWriter unit := λ w,
  match checked_add_u64 (jw_written w) (len input) with
  | None => (Err tt, {| jw_written := jw_written w; jw_capacity_exhausted := true |})
  | Some written =>
      if (MAX_ANCHOR_HTTP_BYTES <? written)%N
      then (Err tt, {| jw_written := jw_written w; jw_capacity_exhausted := true |})
      else (Ok tt, {| jw_written := written; jw_capacity_exhausted := jw_capacity_exhausted w |})
  end.

Definition ensure_bounded_json {V} `{!Json V} (value : V) : result WitnessAnchorErrorKind unit :=
  let '(written, writer) := forM size_write (json_pieces value).1 {| jw_written := 0; jw_capacity_exhausted := false |} in
  if is_ok written && (json_pieces value).2 then Ok tt
  else if jw_capacity_exhausted writer then Err AN_CapacityExhausted
  else Err AN_Unavailable.

Definition bounded_json {V} `{!Json V} (answer : HttpAnswer) : result AdapterErrorKind V :=
  reject_if (match ha_content_length answer with Some length => (MAX_ANCHOR_HTTP_BYTES <? length)%N | None => false end)
    AE_CapacityExhausted;;
  body ← map_err (λ _, AE_AnchorUnavailable) (ha_body answer);
  let bytes := take (N.to_nat (MAX_ANCHOR_HTTP_BYTES + 1)) body in
  reject_if (MAX_ANCHOR_HTTP_BYTES <? len bytes)%N AE_CapacityExhausted;;
  ok_or (json_parse bytes) AE_InvalidState.

Definition remaining_timeout (request_timeout : N) (operation_deadline : option N) (now : N)
    : result AdapterErrorKind N :=
  match operation_deadline with
  | None => Ok request_timeout
  | Some deadline =>
      if (now <? deadline)%N then Ok (N.min (deadline - now) request_timeout) else Err AE_AnchorUnavailable
  end.

Record HttpExternalAnchor (W : Type) := {
  hx_client : W;
  hx_witness_id : PrincipalId;
  hx_request_timeout : N;
  hx_operation_deadline : option N;
}.

Arguments hx_client {W}.
Arguments hx_witness_id {W}.
Arguments hx_request_timeout {W}.
Arguments hx_operation_deadline {W}.

Section client.
Context `{Crypto} `{!Json WitnessStateAnchorV1, !Json AnchorCasRequest, !Json AnchorCasResponse}.
Context {W : Type} `{!HttpClient W}.

(** A call with the remaining time; the configuration of the client stays. *)
Definition with_timeout {A} (m : PrincipalId → N → eff AdapterErrorKind W A) : eff AdapterErrorKind (HttpExternalAnchor W) A := λ a,
  let '(now, w) := http_now (hx_client a) in
  let '(r, w') :=
    (timeout ← lift (remaining_timeout (hx_request_timeout a) (hx_operation_deadline a) now); m (hx_witness_id a) timeout) w in
  (r, {| hx_client := w'; hx_witness_id := hx_witness_id a; hx_request_timeout := hx_request_timeout a;
         hx_operation_deadline := hx_operation_deadline a |}).

Definition send {A} (m : eff unit W A) : eff AdapterErrorKind W A := map_errM (λ _, AE_AnchorUnavailable) m.

Definition read_remote : eff AdapterErrorKind (HttpExternalAnchor W) (option WitnessStateAnchorV1) :=
  with_timeout (λ witness_id timeout,
    response ← send (http_get (hex_id witness_id) timeout);
    if ha_status response =? 404 then mret None
    else if ha_status response =? 200 then
      anchor ← lift (bounded_json response);
      lift (validate_candidate witness_id anchor);;
      mret (Some anchor)
    else lift (Err AE_AnchorUnavailable))%N.

Definition unavailable_anchor (_ : AdapterErrorKind) : WitnessAnchorErrorKind := AN_Unavailable.

Definition http_ensure_publishable (witness_id : PrincipalId) (candidate : WitnessStateAnchorV1)
    : result WitnessAnchorErrorKind unit :=
  map_err unavailable_anchor (validate_candidate witness_id candidate);;
  ensure_bounded_json {| cq_expected_anchor_digest := Some ZERO_DIGEST; cq_next_exact_anchor := candidate |};;
  ensure_bounded_json {| cr_outcome := OutcomeApplied; cr_exact_anchor := Some candidate |}.

Definition post_swap (request : AnchorCasRequest) : eff AdapterErrorKind (HttpExternalAnchor W) AnchorCompareAndSwap :=
  with_timeout (λ witness_id timeout,
    body ← lift (ok_or (to_vec request) AE_AnchorUnavailable);
    response ← send (http_post (hex_id witness_id) timeout body);
    lift (reject_if (ha_status response !=? 200%N) AE_AnchorUnavailable);;
    response ← lift (bounded_json response);
    lift match cr_outcome response with
         | OutcomeApplied =>
             if cr_exact_anchor response ==? Some (cq_next_exact_anchor request) then Ok Published
             else Err AE_AnchorUnavailable
         | OutcomeConflict => Ok Conflict
         end).

Definition http_compare_and_swap (expected : option WitnessStateAnchorV1) (candidate : WitnessStateAnchorV1)
    : eff WitnessAnchorErrorKind (HttpExternalAnchor W) AnchorCompareAndSwap := λ a,
  (lift (map_err unavailable_anchor (validate_candidate (hx_witness_id a) candidate));;
   expected_anchor_digest ← lift (map_err unavailable_anchor (anchor_digest expected));
   let request := {| cq_expected_anchor_digest := expected_anchor_digest; cq_next_exact_anchor := candidate |} in
   lift (ensure_bounded_json request);;
   map_errM unavailable_anchor (post_swap request)) a.

Global Instance http_external_anchor : ExternalWitnessAnchor (HttpExternalAnchor W) := {
  ensure_publishable candidate := λ a, lift (http_ensure_publishable (hx_witness_id a) candidate) a;
  read := map_errM unavailable_anchor read_remote;
  compare_and_swap := http_compare_and_swap;
}.
End client.

(** * A repository only moves to the next anchor *)

Section repository_proofs.
Context `{Crypto} `{!Json WitnessStateAnchorV1} {C X : Type} `{!Sqlite C X Database, !SqliteLaws C X Database}.

(** The anchor a row stands for. *)
Definition anchor_in (witness_id : PrincipalId) (db : Database) : option WitnessStateAnchorV1 :=
  row ← db_anchors db !! witness_id;
  match anchor_of_row witness_id row with Ok anchor => Some anchor | Err _ => None end.

(** The candidate carries the digest and the generation of what it replaces. *)
Definition succeeds (old : option WitnessStateAnchorV1) (candidate : WitnessStateAnchorV1) : Prop :=
  match old with
  | None => sa_predecessor_anchor_digest candidate = ZERO_DIGEST ∧ sa_state_generation candidate = 1%N
  | Some a => WitnessStateAnchorV1_digest a = Ok (sa_predecessor_anchor_digest candidate) ∧
              sa_state_generation candidate = (sa_state_generation a + 1)%N
  end.

Section observed.
Context {D : Type} `{!SqlHandle D Database} (contents base : D → Database) `{!HandleLaws D Database contents base}.

Lemma observes_load_anchor witness_id :
  observes contents base (load_anchor witness_id) (λ db r, r = anchor_in witness_id db).
Proof.
  eapply observes_bind; [apply observes_map_err, observes_query; apply _|]. intros [row|].
  - eapply observes_bind; [apply observes_lift|]. intros a d. split_and!; [done|done|].
    intros r [= <-] Ha Hrow. unfold anchor_in. rw -Hrow. cbn. by rw Ha.
  - intros d. split_and!; [done|done|]. intros r [= <-] Hrow. unfold anchor_in. by rw -Hrow.
Qed.

Lemma observes_anchor_deadline deadline : observes contents base (ensure_anchor_deadline deadline) (λ _ _, True).
Proof. apply observes_map_err, observes_deadline. apply _. Qed.

Lemma observes_prepare_anchor deadline : observes contents base (prepare_anchor_deadline deadline) (λ _ _, True).
Proof.
  eapply observes_bind; [observe|]. intros timeout. eapply observes_weaken; [observe|done].
Qed.

Lemma observes_read witness_id deadline :
  observes contents base (read_with_deadline witness_id deadline) (λ db r, r = anchor_in witness_id db).
Proof.
  eapply observes_bind; [apply observes_prepare_anchor|]. intros [].
  eapply observes_bind; [apply observes_load_anchor|]. intros a.
  eapply observes_bind; [apply observes_anchor_deadline|]. intros [] d. split_and!; [done|done|].
  by intros r [= <-] _ Ha.
Qed.
End observed.

Lemma anchor_of_new_row witness_id candidate digest encoded generation :
  validate_candidate witness_id candidate = Ok tt → WitnessStateAnchorV1_digest candidate = Ok digest →
  to_vec candidate = Some encoded → i64_of_u64 (sa_state_generation candidate) = Some generation →
  anchor_of_row witness_id {| ar_generation := generation; ar_digest := digest; ar_anchor_json := encoded |} = Ok candidate.
Proof.
  intros Hv Hd He Hg. unfold anchor_of_row. cbn. rw (to_vec_parse _ _ He). cbn. rw Hv. cbn.
  unfold i64_of_u64 in Hg. destruct (_ <? _)%N; [|done]. injection Hg as <-.
  unfold u64_of_i64. rewrite -> (proj2 (Z.leb_le 0 (Z.of_N (sa_state_generation candidate))) ltac:(lia)). cbn.
  rw N2Z.id bool_decide_true //. cbn. rw Hd. cbn. by rw bool_decide_true.
Qed.

Lemma anchor_in_upsert witness_id row db candidate :
  anchor_of_row witness_id row = Ok candidate → anchor_in witness_id (upsert_anchor witness_id row db).1 = Some candidate.
Proof. intros Hr. unfold anchor_in. cbn. rw lookup_insert_eq. cbn. by rw Hr. Qed.

(** What a transaction answers and leaves. *)
Definition cas_effect (witness_id : PrincipalId) (candidate : WitnessStateAnchorV1) (db db' : Database)
    (answered : option AnchorCasResult) : Prop :=
  match answered with
  | Some (Applied a) => db' = db ∧ a = candidate ∧ anchor_in witness_id db = Some candidate
  | Some (CasConflict current) => db' = db ∧ current = anchor_in witness_id db
  | None =>
      anchor_in witness_id db' = Some candidate ∧ succeeds (anchor_in witness_id db) candidate ∧
      ∃ row, db' = (upsert_anchor witness_id row db).1
  end.

Lemma saturating_exact n : (saturating_add_u64 n 1 < 2 ^ 63 → saturating_add_u64 n 1 = n + 1)%N.
Proof. unfold saturating_add_u64, u64_max. lia. Qed.

Lemma anchor_succeeds current digest expected candidate :
  anchor_digest current = Ok digest → digest = expected →
  sa_predecessor_anchor_digest candidate = default ZERO_DIGEST expected →
  sa_state_generation candidate =
    match current with Some anchor => saturating_add_u64 (sa_state_generation anchor) 1 | None => 1%N end →
  is_set (i64_of_u64 (sa_state_generation candidate)) = true → succeeds current candidate.
Proof.
  unfold anchor_digest, succeeds. intros Hd <- Hp Hg Hi. destruct current as [a|].
  - apply fmap_Ok in Hd as (d & Hd%map_err_Ok & <-). rewrite -> Hp. split; [exact Hd|].
    unfold i64_of_u64 in Hi. destruct (N.ltb_spec (sa_state_generation candidate) (2 ^ 63)) as [Hlt|]; [|done].
    rewrite -> Hg in Hlt |- *. revert Hlt. apply saturating_exact.
  - apply Ok_inj in Hd. subst digest. done.
Qed.

Lemma cas_transaction_spec witness_id expected candidate deadline (x : X) :
  validate_candidate witness_id candidate = Ok tt →
  wp (cas_transaction witness_id expected candidate deadline)
    (λ r x', beneath x' = beneath x ∧ ∀ o, r = Ok o → cas_effect witness_id candidate (visible x) (visible x') o) x.
Proof.
  intros Hv. unfold cas_transaction.
  apply wp_bind. eapply wp_observes; [apply observes_load_anchor; apply _|].
  intros [current|e] x1 Hv1 Hb1 Hr; [|done]. specialize (Hr _ eq_refl).
  apply wp_bind. eapply wp_observes; [apply observes_anchor_deadline; apply _|].
  intros [[]|e] x2 Hv2 Hb2 _; [|split; [congruence|done]].
  case_bool_decide as Hcur; [apply wp_ret; split; [congruence|]; intros o [= <-]; cbn; rewrite -> Hv2, Hv1, <- Hr; done|].
  apply wp_bind_lift; [|intros; split; [congruence|done]]. intros digest Hdig. cbv zeta.
  destruct (_ || _) eqn:Hg; [apply wp_ret; split; [congruence|]; intros o [= <-]; cbn; rewrite -> Hv2, Hv1, <- Hr; done|].
  to_prop. apply wp_bind_lift; [|intros; split; [congruence|done]]. intros d Hd%map_err_Ok.
  apply wp_bind_lift; [|intros; split; [congruence|done]]. intros encoded He%ok_or_Ok.
  apply wp_bind. eapply wp_observes; [apply observes_anchor_deadline; apply _|].
  intros [[]|e] x3 Hv3 Hb3 _; [|split; [congruence|done]].
  apply wp_bind_lift; [|intros; split; [congruence|done]]. intros generation Hgen%ok_or_Ok.
  eapply wp_bind_mono; [apply wp_execute|intros ? ? [? _]; split; [congruence|done]|]. intros [] x4 [Hb4 Hu].
  specialize (Hu tt eq_refl). apply wp_bind. eapply wp_observes; [apply observes_anchor_deadline; apply _|].
  intros [[]|e] x5 Hv5 Hb5 _; [|split; [congruence|done]].
  apply wp_ret. split; [congruence|]. intros o [= <-]. rewrite -> Hv3, Hv2, Hv1 in Hu. rewrite -> Hv5.
  apply (f_equal fst) in Hu. cbn [fst] in Hu. rewrite <- Hu. split_and!; [|rewrite <- Hr|by eexists].
  - by apply anchor_in_upsert, anchor_of_new_row.
  - eapply anchor_succeeds; try done. by rw Hgen.
Qed.

(** A compare-and-swap leaves the database, and then it answers what is there, or
    it replaces the anchor by its successor. *)
Definition swap_outcome (witness_id : PrincipalId) (candidate : WitnessStateAnchorV1) (db db' : Database)
    (r : result AdapterErrorKind AnchorCasResult) : Prop :=
  (db' = db ∧ ∀ a, r = Ok (Applied a) → a = candidate ∧ anchor_in witness_id db = Some candidate) ∨
  (anchor_in witness_id db' = Some candidate ∧ succeeds (anchor_in witness_id db) candidate ∧
   (∃ row, db' = (upsert_anchor witness_id row db).1) ∧ ∀ result, r = Ok result → result = Applied candidate).

Lemma compare_and_swap_spec witness_id expected candidate deadline (c : C) :
  wp (compare_and_swap_with_deadline witness_id expected candidate deadline)
    (λ r c', swap_outcome witness_id candidate (committed c) (committed c') r) c.
Proof.
  unfold compare_and_swap_with_deadline, swap_outcome. apply wp_bind.
  eapply wp_observes; [apply observes_prepare_anchor; apply _|]. intros [[]|e] c1 Hc1 _ _; [|by left].
  apply wp_bind_lift; [|by left]. intros [] Hv. rewrite <- Hc1. apply wp_bind.
  eapply wp_mono; [apply (wp_in_transaction _ _ (λ o db', cas_effect witness_id candidate (committed c1) db' o))|].
  - intros x Hb Hx. eapply wp_mono; [by apply cas_transaction_spec|]. intros r x' [Hb' He]. by rewrite -> Hx, Hb', Hb in *.
  - intros r c2 [[Hc2 Hr]|(o & Ho & Hr)]; [destruct r; [done|by left]|]. destruct r as [o'|e].
    + specialize (Hr o' eq_refl). subst o'. destruct o as [[a|current]|].
      * apply wp_ret. left. destruct Ho as (-> & -> & Ha). split; [done|]. by intros a [= <-].
      * apply wp_ret. left. destruct Ho as [-> _]. done.
      * destruct Ho as (Ha & Hs & Hrow). apply wp_bind. eapply wp_observes; [apply observes_read; apply _|].
        intros [readback|e] c3 Hc3 _ Hrb; [|rewrite -> Hc3; by right].
        specialize (Hrb _ eq_refl). apply wp_bind_lift; [|intros; rewrite -> Hc3; by right]. intros a Hra%ok_or_Ok.
        apply wp_bind_lift; [|intros; rewrite -> Hc3; by right]. intros [] _. apply wp_ret. rewrite -> Hc3. right. split_and!; [done..|].
        intros result Hres. congruence.
    + destruct o as [[a|current]|]; [left; by destruct Ho as [-> _]|left; by destruct Ho as [-> _]|right].
      by destruct Ho as (? & ? & ?).
Qed.
End repository_proofs.

(** * The service *)

Section service_proofs.
Context `{Crypto} `{!Json WitnessStateAnchorV1, !Json AnchorCasRequest, !Json AnchorCasResponse}.
Context {C X : Type} `{!Sqlite C X Database, !SqliteLaws C X Database}.

Definition service_db (state : AnchorApiState C) : Database := committed (rp_connection (as_repository state)).

Definition current_anchor (state : AnchorApiState C) : option WitnessStateAnchorV1 :=
  anchor_in (rp_witness_id (as_repository state)) (service_db state).

(** The parts of the state that no request changes. *)
Definition same_service (state state' : AnchorApiState C) : Prop :=
  as_witness_id state' = as_witness_id state ∧
  rp_witness_id (as_repository state') = rp_witness_id (as_repository state).

Lemma read_until_spec deadline (state : AnchorApiState C) :
  same_service state (on_worker (read_until deadline) state).2 ∧
  service_db (on_worker (read_until deadline) state).2 = service_db state ∧
  ∀ a, (on_worker (read_until deadline) state).1 = Ok a → a = current_anchor state.
Proof.
  unfold on_worker, read_until, on_repository, same_service, service_db, current_anchor.
  pose proof (observes_read committed committed (rp_witness_id (as_repository state)) (Some deadline)
    (rp_connection (as_repository state))) as (Hc & _ & Hr).
  destruct (read_with_deadline _ _ _) as [r c']. done.
Qed.

Lemma swap_until_spec expected candidate deadline (state : AnchorApiState C) :
  let out := on_worker (compare_and_swap_until expected candidate deadline) state in
  same_service state out.2 ∧
  swap_outcome (rp_witness_id (as_repository state)) candidate (service_db state) (service_db out.2) out.1.
Proof.
  unfold on_worker, compare_and_swap_until, on_repository, same_service, service_db.
  pose proof (compare_and_swap_spec (rp_witness_id (as_repository state)) expected candidate (Some deadline)
    (rp_connection (as_repository state))) as Hs. unfold wp in Hs.
  destruct (compare_and_swap_with_deadline _ _ _ _ _) as [r c']. done.
Qed.

(** A body of a 200 is what was printed. *)
Lemma json_response_200 {V} `{!Json V} (v : V) :
  rs_status (json_response v) = 200%N → json_parse (rs_body (json_response v)) = Some v.
Proof. unfold json_response. destruct (to_vec v) eqn:Hv; [|done]. intros _. by apply to_vec_parse. Qed.

Lemma cas_response_applied r response :
  rs_status (cas_response r) = 200%N → json_parse (rs_body (cas_response r)) = Some response →
  cr_outcome response = OutcomeApplied → ∃ a, r = Ok (Applied a).
Proof.
  unfold cas_response. intros Hs Hp Ho. destruct r as [[a|current]|[]]; try done; [by eexists|].
  rewrite -> (json_response_200 _ Hs) in Hp. by injection Hp as <-.
Qed.

(** What a handler does to the state, with what it answers. *)
Lemma read_anchor_spec segment deadline (state : AnchorApiState C) :
  same_service state (read_anchor segment deadline state).2 ∧
  service_db (read_anchor segment deadline state).2 = service_db state.
Proof.
  unfold read_anchor. destruct (parse_principal_id segment) as [id|] eqn:Hp; [|done].
  case_bool_decide as Hid; [|done]. cbn [negb]. destruct (read_until_spec deadline state) as (Hs & Hd & _).
  by destruct (on_worker _ _) as [[[a|]|e] state'].
Qed.

Lemma read_anchor_answer segment deadline (state : AnchorApiState C) :
  parse_principal_id segment = Ok (as_witness_id state) →
  let response := (read_anchor segment deadline state).1 in
  (rs_status response = 404%N → current_anchor state = None) ∧
  (rs_status response = 200%N → json_parse (rs_body response) = current_anchor state).
Proof.
  intros Hp. unfold read_anchor. rw Hp bool_decide_true //. cbn [negb].
  destruct (read_until_spec deadline state) as (_ & _ & Hr).
  destruct (on_worker _ _) as [[[a|]|e] state']; cbn [fst snd] in *; split; try done.
  - unfold json_response. by destruct (to_vec a).
  - intros Hs. rewrite -> (json_response_200 _ Hs). by apply Hr.
  - intros _. by rewrite <- (Hr _ eq_refl).
Qed.

Lemma swap_anchor_spec segment payload deadline (state : AnchorApiState C) :
  let out := compare_and_swap_anchor segment payload deadline state in
  same_service state out.2 ∧
  (service_db out.2 = service_db state ∨
   ∃ request, parse_principal_id segment = Ok (as_witness_id state) ∧ json_parse payload = Some request ∧
     current_anchor out.2 = Some (cq_next_exact_anchor request) ∧
     succeeds (current_anchor state) (cq_next_exact_anchor request) ∧
     ∃ row, service_db out.2 = (upsert_anchor (rp_witness_id (as_repository state)) row (service_db state)).1).
Proof.
  unfold compare_and_swap_anchor. destruct (parse_principal_id segment) as [id|] eqn:Hp; [|by split; [|left]].
  case_bool_decide as Hid; [|by split; [|left]]. cbn [negb].
  destruct (json_parse payload) as [request|] eqn:Hpay; [|by split; [|left]].
  destruct (swap_until_spec (cq_expected_anchor_digest request) (cq_next_exact_anchor request) deadline state) as [Hs Ho].
  destruct (on_worker _ _) as [r state']. cbn [fst snd] in *. split; [done|].
  destruct Ho as [[Hdb _]|(Ha & Hn & Hrow & _)]; [by left|right]. exists request. unfold current_anchor.
  destruct Hs as [_ ->]. split_and!; try done. by rw Hid.
Qed.

Lemma swap_anchor_answer segment payload deadline request response (state : AnchorApiState C) :
  let out := compare_and_swap_anchor segment payload deadline state in
  json_parse payload = Some request → rs_status out.1 = 200%N →
  json_parse (rs_body out.1) = Some response → cr_outcome response = OutcomeApplied →
  current_anchor out.2 = Some (cq_next_exact_anchor request).
Proof.
  unfold compare_and_swap_anchor. cbv zeta. intros Hpay.
  destruct (parse_principal_id segment) as [id|]; [|done]. case_bool_decide; [|done]. cbn [negb]. rewrite -> Hpay.
  destruct (swap_until_spec (cq_expected_anchor_digest request) (cq_next_exact_anchor request) deadline state) as [Hs Ho].
  destruct (on_worker _ _) as [r state']. cbn [fst snd] in *. intros H200 Hbody Happ.
  destruct (cas_response_applied r response H200 Hbody Happ) as [a ->]. unfold current_anchor.
  destruct Hs as [_ ->]. destruct Ho as [[-> Ha]|(Ha & _)]; [|done]. by destruct (Ha a eq_refl).
Qed.

(** ** Any number of requests *)

Inductive anchor_request :=
  | GetAnchor (segment : bytes)
  | SwapAnchor (segment payload : bytes).

Definition serve (request : anchor_request) (deadline : N) (state : AnchorApiState C) : Response * AnchorApiState C :=
  match request with
  | GetAnchor segment => read_anchor segment deadline state
  | SwapAnchor segment payload => compare_and_swap_anchor segment payload deadline state
  end.

Definition serve_all (requests : list (anchor_request * N)) (state : AnchorApiState C) : AnchorApiState C :=
  foldl (λ state r, (serve r.1 r.2 state).2) state requests.

Inductive anchor_chain : option WitnessStateAnchorV1 → option WitnessStateAnchorV1 → Prop :=
  | chain_here old : anchor_chain old old
  | chain_next old a new : succeeds old a → anchor_chain (Some a) new → anchor_chain old new.

Lemma chain_generation old new a :
  anchor_chain old new → old = Some a →
  ∃ b, new = Some b ∧ (b = a ∨ (sa_state_generation a < sa_state_generation b)%N).
Proof.
  intros Hc. revert a. induction Hc as [old|old x new Hx _ IH]; intros a ->; [by exists a; split; [|left]|].
  destruct (IH x eq_refl) as (b & -> & Hb). exists b. split; [done|right]. destruct Hx as [_ Hg].
  destruct Hb as [->|Hb]; lia.
Qed.

(** One request keeps everything but the anchor, which it keeps or moves to the next. *)
Lemma serve_step request deadline (state : AnchorApiState C) :
  let state' := (serve request deadline state).2 in
  same_service state state' ∧ db_witness_state (service_db state') = db_witness_state (service_db state) ∧
  (∀ w, w ≠ rp_witness_id (as_repository state) →
     db_anchors (service_db state') !! w = db_anchors (service_db state) !! w) ∧
  (current_anchor state' = current_anchor state ∨
   ∃ a, current_anchor state' = Some a ∧ succeeds (current_anchor state) a).
Proof.
  assert (∀ s' : AnchorApiState C, same_service state s' → service_db s' = service_db state →
    current_anchor s' = current_anchor state) as Hsame.
  { intros s' [_ Hw] Hdb. unfold current_anchor. by rw Hw Hdb. }
  destruct request as [segment|segment payload]; cbn [serve]; cbv zeta.
  - destruct (read_anchor_spec segment deadline state) as [Hs Hd]. rewrite -> Hd. split_and!; try done. left. by apply Hsame.
  - destruct (swap_anchor_spec segment payload deadline state) as [Hs [Hd|(request & _ & _ & Ha & Hn & row & Hrow)]].
    + rewrite -> Hd. split_and!; try done. left. by apply Hsame.
    + rewrite -> Hrow. split_and!; [done|done| |right; by eexists]. intros w Hw. cbn. by rw lookup_insert_ne.
Qed.

(** C15: the anchor service only moves forward. Whatever requests arrive, from
    whomever and with any payload, and whichever of their database calls fail, the
    anchor of the served witness goes through a chain in which every anchor names
    the digest and the next generation of the one it replaced; an anchor never
    disappears or goes back to an earlier generation; and the rows of other
    witnesses and the witness state are not touched. *)
Theorem anchor_service_chain requests (state : AnchorApiState C) :
  let state' := serve_all requests state in
  anchor_chain (current_anchor state) (current_anchor state') ∧
  (∀ a, current_anchor state = Some a →
     ∃ b, current_anchor state' = Some b ∧ (b = a ∨ (sa_state_generation a < sa_state_generation b)%N)) ∧
  (∀ w, w ≠ rp_witness_id (as_repository state) →
     db_anchors (service_db state') !! w = db_anchors (service_db state) !! w) ∧
  db_witness_state (service_db state') = db_witness_state (service_db state).
Proof.
  cbv zeta. assert (anchor_chain (current_anchor state) (current_anchor (serve_all requests state)) ∧
    (∀ w, w ≠ rp_witness_id (as_repository state) →
       db_anchors (service_db (serve_all requests state)) !! w = db_anchors (service_db state) !! w) ∧
    db_witness_state (service_db (serve_all requests state)) = db_witness_state (service_db state)) as (Hc & Hw & Hd).
  { revert state. induction requests as [|r requests IH]; intros state; [by split; [constructor|]|].
    cbn [serve_all foldl]. destruct (serve_step r.1 r.2 state) as ([_ Hr] & Hd & Hw & Hstep).
    destruct (IH (serve r.1 r.2 state).2) as (Hc' & Hw' & Hd'). split_and!.
    - destruct Hstep as [Heq|(a & Ha & Hn)]; [by rewrite <- Heq|]. eapply chain_next; [exact Hn|]. by rewrite <- Ha.
    - intros w Hne. rewrite <- Hw by done. apply Hw'. by rewrite -> Hr.
    - by rewrite <- Hd. }
  split_and!; [done| |done|done]. intros a Ha. by eapply chain_generation.
Qed.
End service_proofs.

(** * The client at a network that may be late *)

(** An answer carries a response: its status, and its body unless that broke off. *)
Definition carries (answer : HttpAnswer) (response : Response) : Prop :=
  ha_status answer = rs_status response ∧ ∀ body, ha_body answer = Ok body → body = rs_body response.

(** What a call is told: nothing that looks like the handler's answer, where it did
    not wait for the handler; or what one run of the handler answered, which may be
    lost. *)
Definition served {S} (handler : N → S → Response * S) (before : S) (r : result unit HttpAnswer) (after : S) : Prop :=
  (after = before ∧ ∀ answer, r = Ok answer → ha_status answer ≠ 200%N ∧ ha_status answer ≠ 404%N) ∨
  (∃ deadline, after = (handler deadline before).2 ∧
     ∀ answer, r = Ok answer → carries answer (handler deadline before).1).

Section network.
Context `{Crypto} `{!Json WitnessStateAnchorV1, !Json AnchorCasRequest, !Json AnchorCasResponse}.
Context {C X : Type} `{!Sqlite C X Database}.

(** Requests that are under way run, each any number of times, in any order. *)
Inductive late (pending : list anchor_request) : AnchorApiState C → AnchorApiState C → Prop :=
  | late_none state : late pending state state
  | late_run request deadline state state' :
      request ∈ pending → late pending (serve request deadline state).2 state' → late pending state state'.

(** A call of a network with requests under way: its own request joins them and may stay
    when the call has returned. *)
Definition exchanged (request : anchor_request) (pending : list anchor_request) (state : AnchorApiState C)
    (r : result unit HttpAnswer) (pending' : list anchor_request) (state' : AnchorApiState C) : Prop :=
  pending' ⊆ request :: pending ∧
  ∃ before after, late (request :: pending) state before ∧ served (serve request) before r after ∧
    late (request :: pending) after state'.
End network.

(** The requests under way are those of the client that may still run, those whose calls
    timed out among them; nobody else sends any. *)
Class HttpLaws `{Crypto} `{!Json WitnessStateAnchorV1, !Json AnchorCasRequest, !Json AnchorCasResponse}
    (C X W : Type) `{!Sqlite C X Database, !HttpClient W} := {
  service : W → AnchorApiState C;
  outstanding : W → list anchor_request;
  http_now_late w :
    outstanding (http_now w).2 ⊆ outstanding w ∧ late (outstanding w) (service w) (service (http_now w).2);
  http_get_exchanged segment timeout w :
    exchanged (GetAnchor segment) (outstanding w) (service w) (http_get segment timeout w).1
      (outstanding (http_get segment timeout w).2) (service (http_get segment timeout w).2);
  http_post_exchanged segment timeout payload w :
    exchanged (SwapAnchor segment payload) (outstanding w) (service w) (http_post segment timeout payload w).1
      (outstanding (http_post segment timeout payload w).2) (service (http_post segment timeout payload w).2);
}.

(** A network where no request outlives its call. *)
Class PromptNetwork (C X W : Type) `{HttpLaws C X W} : Prop := {
  nothing_outstanding (w : W) : outstanding w = [];
}.

(** An anchor goes from successor to successor, each of them allowed. *)
Inductive moves `{Crypto} (allowed : WitnessStateAnchorV1 → Prop)
    : option WitnessStateAnchorV1 → option WitnessStateAnchorV1 → Prop :=
  | moves_here old : moves allowed old old
  | moves_next old a new : succeeds old a → allowed a → moves allowed (Some a) new → moves allowed old new.

Section moved.
Context `{Crypto} (allowed : WitnessStateAnchorV1 → Prop).

Lemma moves_trans a b c : moves allowed a b → moves allowed b c → moves allowed a c.
Proof. induction 1; [done|]. intros. eapply moves_next; eauto. Qed.

(** Where nothing allowed follows, it stays. *)
Lemma moves_settled a b : (∀ c, allowed c → ¬ succeeds a c) → moves allowed a b → b = a.
Proof. intros Hn. destruct 1 as [|old c new Hs Hc]; [done|]. by destruct (Hn c Hc). Qed.

Lemma succeeds_irreflexive c : ¬ succeeds (Some c) c.
Proof. intros [_ Hg]. lia. Qed.

(** With one candidate there is at most one move. *)
Lemma moves_once candidate a b :
  (∀ c, allowed c → c = candidate) → moves allowed a b → b = a ∨ b = Some candidate.
Proof.
  intros Hc. destruct 1 as [|old c new Hs Ha Hm]; [by left|right]. apply Hc in Ha as ->.
  eapply moves_settled; [|exact Hm]. intros c ->%Hc. apply succeeds_irreflexive.
Qed.
End moved.

Section client_proofs.
Context `{Crypto} `{!Json WitnessStateAnchorV1, !Json AnchorCasRequest, !Json AnchorCasResponse}.
Context {C X W : Type} `{!Sqlite C X Database, !SqliteLaws C X Database, !HttpClient W, !HttpLaws C X W}.

(** The anchor a client of a witness sees at a service. *)
Definition seen (id : PrincipalId) (state : AnchorApiState C) : option WitnessStateAnchorV1 :=
  if parse_principal_id (hex_id id) ==? Ok (as_witness_id state) then current_anchor state else None.

Definition http_external (a : HttpExternalAnchor W) : option WitnessStateAnchorV1 :=
  seen (hx_witness_id a) (service (hx_client a)).

Definition candidate_of (request : anchor_request) : option WitnessStateAnchorV1 :=
  match request with
  | GetAnchor _ => None
  | SwapAnchor _ payload => cq_next_exact_anchor <$> json_parse payload
  end.

(** A request that would publish the anchor is under way. *)
Definition candidate_in (pending : list anchor_request) (c : WitnessStateAnchorV1) : Prop :=
  ∃ request, request ∈ pending ∧ candidate_of request = Some c.

Definition in_flight (a : HttpExternalAnchor W) : WitnessStateAnchorV1 → Prop := candidate_in (outstanding (hx_client a)).

(** A service for the same identifier is reached. *)
Lemma seen_own id (state : AnchorApiState C) :
  fixed 32 id = true → is_zero id = false → as_witness_id state = id → seen id state = current_anchor state.
Proof.
  intros Hf Hz Hw. unfold seen, parse_principal_id, hex_id.
  assert (decode_hex (encode_hex id) = Ok id) as -> by (by apply decode_hex_exact).
  by rw Hw bool_decide_true.
Qed.

Lemma bounded_json_Ok {V} `{!Json V} answer response (v : V) :
  carries answer response → bounded_json answer = Ok v → json_parse (rs_body response) = Some v.
Proof.
  intros [_ Hb]. unfold bounded_json. rw reject_if_bind. intros [_ (body & Hbody%map_err_Ok & Hv)%bind_Ok]. cbv zeta in Hv.
  apply reject_if_bind in Hv as [Hl Hv%ok_or_Ok]. apply Hb in Hbody as ->. rewrite <- Hv. f_equal.
  symmetry. apply take_ge. to_prop. unfold len in Hl. rewrite -> length_take in Hl. lia.
Qed.

Lemma seen_same id (state state' : AnchorApiState C) :
  same_service state state' → service_db state' = service_db state → seen id state' = seen id state.
Proof. intros [Hw Hr] Hdb. unfold seen, current_anchor. by rw Hw Hr Hdb. Qed.

(** A request leaves what is seen, or makes its candidate follow it. *)
Lemma serve_seen id request deadline (state : AnchorApiState C) :
  seen id (serve request deadline state).2 = seen id state ∨
  ∃ c, candidate_of request = Some c ∧ succeeds (seen id state) c ∧ seen id (serve request deadline state).2 = Some c.
Proof.
  destruct request as [segment|segment payload]; cbn [serve candidate_of].
  - left. destruct (read_anchor_spec segment deadline state). by apply seen_same.
  - destruct (swap_anchor_spec segment payload deadline state) as [Hs [Hd|(request & _ & Hb & Ha & Hn & _)]];
      [left; by apply seen_same|].
    unfold seen. destruct Hs as [-> _]. case_bool_decide; [right|by left].
    exists (cq_next_exact_anchor request). by rewrite -> Hb.
Qed.

Lemma late_moves pending allowed id (state state' : AnchorApiState C) :
  (∀ c, candidate_in pending c → allowed c) → late pending state state' →
  moves allowed (seen id state) (seen id state').
Proof.
  intros Hp. induction 1 as [|request deadline state state' Hin _ IH]; [constructor|].
  destruct (serve_seen id request deadline state) as [Heq|(c & Hc & Hn & Heq)]; rewrite -> Heq in IH; [done|].
  eapply moves_next; [exact Hn| |exact IH]. apply Hp. by exists request.
Qed.

Lemma candidate_in_cons request pending c :
  candidate_in (request :: pending) c ↔ candidate_of request = Some c ∨ candidate_in pending c.
Proof. unfold candidate_in. setoid_rewrite elem_of_cons. naive_solver. Qed.

Lemma candidate_in_subset pending pending' c : pending ⊆ pending' → candidate_in pending c → candidate_in pending' c.
Proof. intros Hs (request & Hr & Hc). exists request. split; [by apply Hs|done]. Qed.

(** What a call of the client did: what is under way is allowed, and what the service
    held went to [m], the point the answer speaks of, and further. *)
Record accounted (allowed : WitnessStateAnchorV1 → Prop) (a : HttpExternalAnchor W) (m : option WitnessStateAnchorV1)
    (a' : HttpExternalAnchor W) : Prop := {
  ac_witness : hx_witness_id a' = hx_witness_id a;
  ac_flight c : in_flight a' c → allowed c;
  ac_before : moves allowed (http_external a) m;
  ac_after : moves allowed m (http_external a');
}.

Lemma accounted_settled allowed a m a' :
  accounted allowed a m a' → (∀ c, allowed c → ¬ succeeds m c) → http_external a' = m.
Proof. intros [_ _ _ Hm] Hn. by eapply moves_settled. Qed.

Lemma accounted_here allowed a : (∀ c, in_flight a c → allowed c) → accounted allowed a (http_external a) a.
Proof. by split; [| |constructor..]. Qed.

(** One request, sent after the clock was read. *)
Lemma with_timeout_wp {A} (m : PrincipalId → N → eff AdapterErrorKind W A) allowed
    (Q : result AdapterErrorKind A → option WitnessStateAnchorV1 → Prop) a :
  (∀ c, in_flight a c → allowed c) → (∀ e v, Q (Err e) v) →
  (∀ timeout w, (∀ c, candidate_in (outstanding w) c → allowed c) →
     wp (m (hx_witness_id a) timeout) (λ r w', (∀ c, candidate_in (outstanding w') c → allowed c) ∧
       ∃ v, moves allowed (seen (hx_witness_id a) (service w)) v ∧
         moves allowed v (seen (hx_witness_id a) (service w')) ∧ Q r v) w) →
  wp (with_timeout m) (λ r a', ∃ v, accounted allowed a v a' ∧ Q r v) a.
Proof.
  intros Hf He Hm. unfold wp, with_timeout. pose proof (http_now_late (hx_client a)) as [Ho Hl].
  destruct (http_now (hx_client a)) as [now w]. cbn [snd] in Ho, Hl. unfold mbind, eff_bind, lift.
  apply (late_moves _ allowed (hx_witness_id a)) in Hl; [|exact Hf].
  assert (∀ c, candidate_in (outstanding w) c → allowed c) as Hw by (intros c Hc; eapply Hf, candidate_in_subset; eauto).
  destruct (remaining_timeout _ _ _) as [timeout|e]; cbn.
  - specialize (Hm timeout w Hw). unfold wp in Hm. destruct (m _ timeout w) as [r w'].
    destruct Hm as (Hw' & v & H1 & H2 & Hq). exists v. split; [|done]. split; try done. by eapply moves_trans.
  - exists (http_external a). split; [|apply He]. split; [done|done|constructor|done].
Qed.

Lemma exchanged_seen request allowed id w r w' :
  exchanged request (outstanding w) (service w) r (outstanding w') (service w') →
  (∀ c, candidate_in (outstanding w) c → allowed c) → (∀ c, candidate_of request = Some c → allowed c) →
  (∀ c, candidate_in (outstanding w') c → allowed c) ∧
  ∃ before after, served (serve request) before r after ∧
    moves allowed (seen id (service w)) (seen id before) ∧ moves allowed (seen id before) (seen id after) ∧
    moves allowed (seen id after) (seen id (service w')).
Proof.
  intros (Ho & before & after & H1 & Hs & H2) Hw Hr.
  assert (∀ c, candidate_in (request :: outstanding w) c → allowed c) as Hall.
  { intros c [Hc|Hc]%candidate_in_cons; [by apply Hr|by apply Hw]. }
  split; [intros c Hc; eapply Hall, candidate_in_subset; eauto|]. exists before, after.
  split_and!; [done|by eapply late_moves| |by eapply late_moves].
  destruct Hs as [[-> _]|(deadline & -> & _)]; [constructor|].
  destruct (serve_seen id request deadline before) as [->|(c & Hc & Hn & ->)]; [constructor|].
  eapply moves_next; [exact Hn|by apply Hr|constructor].
Qed.

Lemma parse_not_seen id (state : AnchorApiState C) deadline :
  parse_principal_id (hex_id id) ≠ Ok (as_witness_id state) →
  read_anchor (hex_id id) deadline state = (status_response 404, state).
Proof.
  intros Hp. unfold read_anchor. destruct (parse_principal_id _) as [w|]; [|done].
  case_bool_decide; [|done]. by subst w.
Qed.

(** What a client makes of a handler's answer is what it sees at the service. *)
Lemma read_answer id deadline answer (state : AnchorApiState C) :
  carries answer (read_anchor (hex_id id) deadline state).1 →
  (ha_status answer = 404%N → seen id state = None) ∧
  (∀ v, ha_status answer = 200%N → bounded_json answer = Ok v → seen id state = Some v).
Proof.
  intros Hc. unfold seen. case_bool_decide as Hp.
  - destruct (read_anchor_answer (hex_id id) deadline state Hp) as [H404 H200]. pose proof Hc as [Hst _]. cbv zeta in *. rewrite <- Hst in H404, H200.
    split; [done|]. intros v Hs Hv. rewrite <- (H200 Hs). by eapply bounded_json_Ok.
  - rewrite -> (parse_not_seen id state deadline Hp) in Hc. destruct Hc as [Hs _]. split; [done|]. intros v H200. by rewrite -> H200 in Hs.
Qed.

Lemma swap_seen_applied id body deadline request answer response (state : AnchorApiState C) :
  json_parse body = Some request → carries answer (compare_and_swap_anchor (hex_id id) body deadline state).1 →
  ha_status answer = 200%N → bounded_json answer = Ok response → cr_outcome response = OutcomeApplied →
  seen id (compare_and_swap_anchor (hex_id id) body deadline state).2 = Some (cq_next_exact_anchor request).
Proof.
  intros Hb Hc H200 Hj Ho. pose proof (bounded_json_Ok _ _ _ Hc Hj) as Hp. destruct Hc as [Hs _]. rewrite -> H200 in Hs.
  pose proof (swap_anchor_answer _ _ _ _ _ state Hb (eq_sym Hs) Hp Ho) as Ha. unfold seen.
  destruct (swap_anchor_spec (hex_id id) body deadline state) as [[Hw _] _]. rw Hw. case_bool_decide as Hid; [done|].
  clear Ha Hp Hw. unfold compare_and_swap_anchor in Hs. destruct (parse_principal_id _) as [w|]; [|done].
  case_bool_decide; [|done]. by subst w.
Qed.


Lemma http_read_spec (a : HttpExternalAnchor W) :
  wp read (λ r a', ∃ v, accounted (in_flight a) a v a' ∧ ∀ v', r = Ok v' → v' = v) a.
Proof.
  assert (wp read_remote (λ r a', ∃ v, accounted (in_flight a) a v a' ∧ ∀ v', r = Ok v' → v' = v) a) as Hr;
    [|unfold wp in *; cbn [read http_external_anchor]; unfold map_errM; destruct (read_remote a) as [[v|e] a']; naive_solver].
  apply (with_timeout_wp _ (in_flight a) (λ r v, ∀ v', r = Ok v' → v' = v)); [done|done|].
  intros timeout w Hf. set (id := hx_witness_id a). apply wp_bind. unfold wp at 1, send, map_errM.
  pose proof (http_get_exchanged (hex_id id) timeout w) as Hg.
  destruct (http_get _ timeout w) as [r w']. cbn [fst snd] in *.
  destruct (exchanged_seen _ (in_flight a) id _ _ _ Hg Hf) as (Hf' & before & after & Hs & H1 & H2 & H3); [done|].
  pose proof (moves_trans _ _ _ _ H2 H3) as H4.
  destruct r as [answer|[]]; cbn; [|by split; [|exists (seen id before)]].
  destruct (N.eqb_spec (ha_status answer) 404) as [H404|H404];
    [apply wp_ret|destruct (N.eqb_spec (ha_status answer) 200) as [H200|H200]; [|by apply wp_lift; split; [|exists (seen id before)]]].
  - split; [done|]. exists (seen id before). split_and!; [done..|]. intros v [= <-].
    destruct Hs as [[_ Ha]|(deadline & _ & Ha)]; [by destruct (Ha _ eq_refl)|].
    symmetry. by apply (read_answer _ _ _ _ (Ha _ eq_refl)).
  - apply wp_bind_lift; [|by split; [|exists (seen id before)]]. intros anchor Hb.
    apply wp_bind_lift; [|by split; [|exists (seen id before)]]. intros _ _. apply wp_ret.
    split; [done|]. exists (seen id before). split_and!; [done..|]. intros v [= <-].
    destruct Hs as [[_ Ha]|(deadline & _ & Ha)]; [by destruct (Ha _ eq_refl)|].
    symmetry. by eapply (read_answer _ _ _ _ (Ha _ eq_refl)).
Qed.

(** What may be under way once a candidate was sent. *)
Definition in_flight_or (a : HttpExternalAnchor W) (candidate c : WitnessStateAnchorV1) : Prop :=
  in_flight a c ∨ c = candidate.

Lemma post_swap_spec request (a : HttpExternalAnchor W) :
  wp (post_swap request) (λ r a', ∃ v, accounted (in_flight_or a (cq_next_exact_anchor request)) a v a' ∧
    (r = Ok Published → v = Some (cq_next_exact_anchor request))) a.
Proof.
  apply (with_timeout_wp _ _ (λ r v, r = Ok Published → v = Some (cq_next_exact_anchor request))); [by left|done|].
  intros timeout w Hf. set (id := hx_witness_id a).
  apply wp_bind_lift; [|by split; [|exists (seen id (service w)); split_and!; [constructor..|]]].
  intros body Hbody%ok_or_Ok%to_vec_parse. apply wp_bind. unfold wp at 1, send, map_errM.
  pose proof (http_post_exchanged (hex_id id) timeout body w) as Hg.
  destruct (http_post _ timeout body w) as [r w']. cbn [fst snd] in *.
  destruct (exchanged_seen _ _ id _ _ _ Hg Hf) as (Hf' & before & after & Hs & H1 & H2 & H3).
  { cbn. rewrite -> Hbody. intros c [= <-]. by right. }
  pose proof (moves_trans _ _ _ _ H1 H2) as H4.
  destruct r as [answer|[]]; cbn; [|by split; [|exists (seen id after)]].
  apply wp_bind_lift; [|by split; [|exists (seen id after)]]. intros [] H200%reject_if_Ok.
  apply wp_bind_lift; [|by split; [|exists (seen id after)]]. intros response Hj. apply wp_lift.
  split; [done|]. exists (seen id after). split_and!; [done..|].
  destruct (cr_outcome response) eqn:Ho; [|done]. intros _. to_prop.
  destruct Hs as [[_ Ha]|(deadline & Hsv & Ha)]; [by destruct (Ha _ eq_refl)|].
  rewrite -> Hsv. eapply swap_seen_applied; [done|by apply Ha|done|done|done].
Qed.

Lemma http_swap_spec expected candidate (a : HttpExternalAnchor W) :
  wp (compare_and_swap expected candidate) (λ r a', ∃ v, accounted (in_flight_or a candidate) a v a' ∧
    (r = Ok Published → v = Some candidate)) a.
Proof.
  assert (accounted (in_flight_or a candidate) a (http_external a) a) as Hh by (apply accounted_here; by left).
  cbn [compare_and_swap http_external_anchor]. unfold http_compare_and_swap.
  change (wp ?m ?Q a) with (Q (m a).1 (m a).2). cbv beta.
  match goal with |- context [(?m a).1] => change (wp m (λ r a', ∃ v, accounted (in_flight_or a candidate) a v a' ∧
    (r = Ok Published → v = Some candidate)) a) end.
  apply wp_bind_lift; [|by exists (http_external a)]. intros [] _.
  apply wp_bind_lift; [|by exists (http_external a)]. intros digest _. cbv zeta.
  apply wp_bind_lift; [|by exists (http_external a)]. intros [] _. unfold wp, map_errM.
  pose proof (post_swap_spec {| cq_expected_anchor_digest := digest; cq_next_exact_anchor := candidate |} a) as Hp.
  unfold wp in Hp. destruct (post_swap _ a) as [[o|e] a']; cbn in *; destruct Hp as (v & Hv & Hp); exists v; split; [done| |done|done].
  intros Ho. apply Ok_inj in Ho. subst o. by apply Hp.
Qed.

(** With nothing under way, at most the candidate is published. *)
Lemma swap_quiet candidate (a a' : HttpExternalAnchor W) m (r : result WitnessAnchorErrorKind AnchorCompareAndSwap) :
  (∀ c, ¬ in_flight a c) → accounted (in_flight_or a candidate) a m a' → (r = Ok Published → m = Some candidate) →
  (http_external a' = http_external a ∧ r ≠ Ok Published) ∨ http_external a' = Some candidate.
Proof.
  intros Hn Hm Hr. assert (∀ c, in_flight_or a candidate c → c = candidate) as Hc by (by intros c [?%Hn| ->]).
  assert (r = Ok Published ∨ r ≠ Ok Published) as [Hpub|Hpub] by (destruct r as [[]|]; by auto).
  - right. rewrite <- (Hr Hpub). eapply accounted_settled; [exact Hm|]. rewrite -> (Hr Hpub).
    intros c ->%Hc. apply succeeds_irreflexive.
  - destruct (moves_once _ candidate _ _ Hc (moves_trans _ _ _ _ (ac_before _ _ _ _ Hm) (ac_after _ _ _ _ Hm)));
      [by left|by right].
Qed.

Lemma read_quiet (a a' : HttpExternalAnchor W) m :
  (∀ c, ¬ in_flight a c) → accounted (in_flight a) a m a' → m = http_external a ∧ http_external a' = http_external a.
Proof.
  intros Hn Hm. assert (m = http_external a) as -> by (eapply moves_settled, ac_before, Hm; by intros c ?%Hn).
  split; [done|]. eapply accounted_settled; [exact Hm|]. by intros c ?%Hn.
Qed.

(** C14: what the HTTP anchor promises when a request may run after its call has
    returned. The check before a commit changes nothing. The anchor moves, during any
    call, only from successor to successor by candidates that are under way or that the
    call itself sends, and after the call nothing else is under way. A read answers what
    the service held at a moment of the call, and where nothing under way follows the
    answer, the service still holds it. A compare-and-swap that reports publication
    published its candidate at a moment of the call, and where nothing under way follows
    the candidate, the service still holds it. Where nothing was under way, this is the
    contract the engine was proved against: a read answers the anchor there and keeps
    it, and a swap keeps it, and then does not report publication, or makes it the
    candidate, whether or not the answer arrives. *)
Theorem http_anchor_refines expected candidate (a : HttpExternalAnchor W) :
  wp (ensure_publishable candidate) (λ _ a', a' = a) a ∧
  wp read (λ r a', ∃ m, accounted (in_flight a) a m a' ∧ (∀ v, r = Ok v → v = m) ∧
    ((∀ c, in_flight a c → ¬ succeeds m c) → http_external a' = m) ∧
    ((∀ c, ¬ in_flight a c) → m = http_external a ∧ http_external a' = http_external a)) a ∧
  wp (compare_and_swap expected candidate) (λ r a', ∃ m, accounted (in_flight_or a candidate) a m a' ∧
    (r = Ok Published → m = Some candidate ∧
      ((∀ c, in_flight a c → ¬ succeeds (Some candidate) c) → http_external a' = Some candidate)) ∧
    ((∀ c, ¬ in_flight a c) →
      (http_external a' = http_external a ∧ r ≠ Ok Published) ∨ http_external a' = Some candidate)) a.
Proof.
  split_and!; [done|eapply wp_mono; [apply http_read_spec|]|eapply wp_mono; [apply http_swap_spec|]]; cbv beta.
  - intros r a' (m & Hm & Hr). exists m. split_and!; [done|done|intros Hn; by eapply accounted_settled|].
    intros Hn. by eapply read_quiet.
  - intros r a' (m & Hm & Hr). exists m. split_and!; [done| |intros Hn; by eapply swap_quiet].
    intros Hpub. split; [by apply Hr|]. intros Hn. rewrite <- (Hr Hpub). eapply accounted_settled; [exact Hm|].
    rewrite -> (Hr Hpub). intros c [Hc| ->]; [by apply Hn|apply succeeds_irreflexive].
Qed.

(** Over a network where no request outlives its call, the engine's theorems apply. *)
#[export] Instance http_anchor_laws `{!PromptNetwork C X W} : AnchorLaws (HttpExternalAnchor W).
Proof.
  assert (∀ a c, ¬ in_flight a c) as Hn.
  { intros a c (request & Hr & _). rewrite -> nothing_outstanding in Hr. by apply elem_of_nil in Hr. }
  refine {| external := http_external |}.
  - done.
  - intros a. destruct (http_read_spec a) as (m & Hm & _). by eapply read_quiet.
  - intros a v Hv. destruct (http_read_spec a) as (m & Hm & Hr). rewrite -> (Hr v Hv). by eapply read_quiet.
  - intros expected candidate a. destruct (http_swap_spec expected candidate a) as (m & Hm & Hr). by eapply swap_quiet.
Defined.
End client_proofs.
