(* ===== verification/LocalAudit.v ===== *)
(** * The local audit log

    [crates/jury-core/src/local_state/audit.rs] and the shared parts of
    [local_state.rs]: errors, scopes, message authentication, and the log of
    events that each principal keeps. An event's MAC covers the MAC of the event
    before it. HMAC is a class, the keys are its type [MacKey]; running out of
    memory is not modelled. *)

From S2P Require Import Prelude Json VaultTypes Canonical Preimage Effects.
Local Open Scope jury_scope.

Definition MAX_AUDIT_BYTES : N := 268435456.
Definition MAX_AUDIT_EVENT_BYTES : N := 4096.
Definition MAX_AUDIT_EVENTS : N := 524288.
Definition MAX_CHECKPOINT_BYTES : N := 4194304.
Definition MAX_RECEIPTS_BYTES : N := 262144.
Definition MAX_PERMITTED_ITEM_NAME_BYTES : N := 256.

(** ** Errors *)

Inductive CryptoError :=
  | CE_EntropyUnavailable
  | CE_MemoryProtection
  | CE_ResourceUnavailable
  | CE_ProviderFailure
  | CE_AuthenticationFailed.

Inductive LocalStateErrorKind :=
  | LS_InvalidFormat
  | LS_ScopeMismatch
  | LS_AuthenticationFailed
  | LS_AuditTampered
  | LS_CheckpointRollback
  | LS_CheckpointDiverged
  | LS_IncompleteState
  | LS_CapacityExhausted
  | LS_ProtectionUnavailable
  | LS_ProviderFailure.

Global Instance LocalStateErrorKind_eq_dec : EqDecision LocalStateErrorKind.
Proof. solve_decision. Defined.

Definition map_crypto_error (e : CryptoError) : LocalStateErrorKind :=
  match e with
  | CE_MemoryProtection => LS_ProtectionUnavailable
  | CE_AuthenticationFailed => LS_AuthenticationFailed
  | _ => LS_ProviderFailure
  end.

(** ** Message authentication

    HMAC-SHA-256 under a key in protected memory: it may be impossible to read
    the key, and a tag has 32 bytes. *)
Class Hmac := {
  MacKey : Type;
  hmac_sha256 : MacKey → bytes → result CryptoError Digest32;
  hmac_length key m t : hmac_sha256 key m = Ok t → length t = 32;
}.

Definition verify_hmac_sha256 `{Hmac} (key : MacKey) (message expected : bytes)
    : result CryptoError unit :=
  actual ← hmac_sha256 key message;
  if actual ==? expected then Ok () else Err CE_AuthenticationFailed.

(** ** Scopes *)

Record LocalStateScope := {
  sc_vault_id : VaultId;
  sc_genesis_fingerprint : Digest32;
  sc_principal_id : PrincipalId;
}.

Global Instance LocalStateScope_eq_dec : EqDecision LocalStateScope.
Proof. solve_decision. Defined.

Definition key_info (domain : string) (scope : LocalStateScope) : bytes :=
  jce_v1 domain ++ sc_vault_id scope ++ sc_genesis_fingerprint scope ++ sc_principal_id scope.

Definition append_digest (output : bytes) (digest : Digest32) : bytes := output ++ digest.

Definition append_optional_digest (output : bytes) (digest : option Digest32) : bytes :=
  match digest with
  | Some digest => append_digest (output ++ push 1) digest
  | None => output ++ push 0
  end.

Definition digest_is_zero (digest : Digest32) : bool := digest ==? ZERO_DIGEST.

(** ** Documents *)

Definition serialize_local_document {T} `{!Json T, !JsonPretty T} (document : T) (maximum_bytes : N)
    : result LocalStateErrorKind bytes :=
  text ← ok_or (to_vec_pretty document) LS_ProviderFailure;
  let out := text ++ [newline] in
  reject_if (maximum_bytes <? len out)%N LS_CapacityExhausted ;;
  Ok out.

Definition parse_local_document {T} `{!Json T, !JsonPretty T} (text : bytes) (maximum_bytes : N)
    : result LocalStateErrorKind T :=
  reject_if ((text ==? []) || (maximum_bytes <? len text)%N) LS_InvalidFormat ;;
  document ← ok_or (json_parse text) LS_InvalidFormat;
  again ← serialize_local_document document maximum_bytes;
  reject_if (again !=? text) LS_InvalidFormat ;;
  Ok document.

(** The new value of [mac]. *)
Definition authenticate_local_document `{Hmac} (key : MacKey) (preimage : bytes)
    : result LocalStateErrorKind Digest32 :=
  map_err map_crypto_error (hmac_sha256 key preimage).

Definition verify_local_document `{Hmac} (mac : Digest32) (key : MacKey) (preimage : bytes)
    : result LocalStateErrorKind unit :=
  map_err map_crypto_error (verify_hmac_sha256 key preimage mac).

(** ** Events *)

Inductive AuditAction :=
  | VaultCreateOrImport
  | IdentityAction
  | PolicyMutation
  | ItemMutation
  | ItemRead
  | Transfer
  | Backup
  | Restore
  | ExecuteOrInject
  | WitnessRequest
  | Verification
  | PrivacyCover.

Inductive AuditFailureStage :=
  | PublicSyntax
  | Authorization
  | PrivateAuthentication
  | Execution
  | Mutation
  | DurableCommit.

Inductive AuditOutcome :=
  | Success
  | Denied
  | Cancelled
  | Failed (stage : AuditFailureStage).

Record AuditItemScope := {
  ai_item_id : ItemId;
  ai_permitted_item_name : option bytes;
}.

Record WitnessAuditLink := {
  wl_request_digest : Digest32;
  wl_decision_digest : option Digest32;
  wl_receipt_digest : option Digest32;
  wl_policy_revision_hash : Digest32;
  wl_revision_seal_id : RevisionSealId;
}.

Record AuditEventDraft := {
  dr_timestamp_ms : N;
  dr_operation_id : Digest32;
  dr_policy_sequence : N;
  dr_action : AuditAction;
  dr_outcome : AuditOutcome;
  dr_item : option AuditItemScope;
  dr_witness : option WitnessAuditLink;
}.

Record AuditEvent := {
  ev_version : N;
  ev_sequence : N;
  ev_operation_id : Digest32;
  ev_principal_id : PrincipalId;
  ev_vault_id : VaultId;
  ev_genesis_fingerprint : Digest32;
  ev_policy_sequence : N;
  ev_action : AuditAction;
  ev_item : option AuditItemScope;
  ev_outcome : AuditOutcome;
  ev_witness : option WitnessAuditLink;
  ev_previous_mac : Digest32;
  ev_mac : Digest32;
}.

Global Instance AuditAction_eq_dec : EqDecision AuditAction.
Proof. solve_decision. Defined.
Global Instance AuditFailureStage_eq_dec : EqDecision AuditFailureStage.
Proof. solve_decision. Defined.
Global Instance AuditOutcome_eq_dec : EqDecision AuditOutcome.
Proof. solve_decision. Defined.
Global Instance AuditItemScope_eq_dec : EqDecision AuditItemScope.
Proof. solve_decision. Defined.
Global Instance WitnessAuditLink_eq_dec : EqDecision WitnessAuditLink.
Proof. solve_decision. Defined.
Global Instance AuditEvent_eq_dec : EqDecision AuditEvent.
Proof. solve_decision. Defined.

(** [event.mac = mac] *)
Definition with_mac (e : AuditEvent) (mac : Digest32) : AuditEvent := {|
  ev_version := ev_version e;
  ev_sequence := ev_sequence e;
  ev_operation_id := ev_operation_id e;
  ev_principal_id := ev_principal_id e;
  ev_vault_id := ev_vault_id e;
  ev_genesis_fingerprint := ev_genesis_fingerprint e;
  ev_policy_sequence := ev_policy_sequence e;
  ev_action := ev_action e;
  ev_item := ev_item e;
  ev_outcome := ev_outcome e;
  ev_witness := ev_witness e;
  ev_previous_mac := ev_previous_mac e;
  ev_mac := mac;
|}.

Definition action_tag (a : AuditAction) : N :=
  match a with
  | VaultCreateOrImport => 1
  | IdentityAction => 2
  | PolicyMutation => 3
  | ItemMutation => 4
  | ItemRead => 5
  | Transfer => 6
  | Backup => 7
  | Restore => 8
  | ExecuteOrInject => 9
  | WitnessRequest => 10
  | Verification => 11
  | PrivacyCover => 12
  end.

Definition failure_stage_tag (s : AuditFailureStage) : N :=
  match s with
  | PublicSyntax => 1
  | Authorization => 2
  | PrivateAuthentication => 3
  | Mutation => 4
  | DurableCommit => 5
  | Execution => 6
  end.

Definition outcome_tags (o : AuditOutcome) : N * N :=
  match o with
  | Success => (1, 0)
  | Denied => (2, 0)
  | Cancelled => (3, 0)
  | Failed stage => (4, failure_stage_tag stage)
  end%N.

(** [name.len() as u32] keeps the low 32 bits, as [be_bytes 4] does. *)
Definition event_mac_preimage (version : N) (principal_id vault_id genesis_fingerprint : bytes)
    (policy_sequence : N) (operation_id : bytes) (action : AuditAction)
    (item : option AuditItemScope) (outcome : AuditOutcome) (previous_mac : bytes) : bytes :=
  jce_v1 "jury-v1/audit/event-mac" ++
  u16be version ++
  principal_id ++
  vault_id ++
  genesis_fingerprint ++
  u64be policy_sequence ++
  operation_id ++
  push (action_tag action) ++
  (match item with
   | Some item => push 1 ++ ai_item_id item
   | None => push 0
   end) ++
  (match item ≫= ai_permitted_item_name with
   | Some name => push 1 ++ be_bytes 4 (len name) ++ name
   | None => push 0
   end) ++
  push (outcome_tags outcome).1 ++
  push (outcome_tags outcome).2 ++
  previous_mac.

Definition AuditEvent_mac_preimage (e : AuditEvent) : bytes :=
  event_mac_preimage (ev_version e) (ev_principal_id e) (ev_vault_id e) (ev_genesis_fingerprint e)
    (ev_policy_sequence e) (ev_operation_id e) (ev_action e) (ev_item e) (ev_outcome e)
    (ev_previous_mac e).

Definition AuditEvent_matches_scope (e : AuditEvent) (scope : LocalStateScope) : bool :=
  (ev_vault_id e ==? sc_vault_id scope) &&
  (ev_genesis_fingerprint e ==? sc_genesis_fingerprint scope) &&
  (ev_principal_id e ==? sc_principal_id scope).

Section audit.
Context `{Crypto} `{Hmac} `{!Json AuditEvent}.

Definition operation_id_preimage (l : WitnessAuditLink) : bytes :=
  let preimage := jce_v1 "jury-v1/audit/witness-link" ++ wl_request_digest l in
  let preimage := append_optional_digest preimage (wl_decision_digest l) in
  let preimage := append_optional_digest preimage (wl_receipt_digest l) in
  preimage ++ wl_policy_revision_hash l ++ wl_revision_seal_id l.

(** [WitnessAuditLink::operation_id] *)
Definition link_operation_id (l : WitnessAuditLink) : Digest32 :=
  sha256 (operation_id_preimage l).

Definition permitted_name_bad (item : AuditItemScope) : bool :=
  if ai_permitted_item_name item is Some name then
    (name ==? []) || (MAX_PERMITTED_ITEM_NAME_BYTES <? len name)%N
  else false.

Definition action_shape_bad (e : AuditEvent) : bool :=
  match ev_action e with
  | VaultCreateOrImport =>
      negb (ev_sequence e =? 1)%N || (ev_outcome e !=? Success) ||
      bool_decide (is_Some (ev_item e)) || bool_decide (is_Some (ev_witness e)) ||
      (ev_previous_mac e !=? ZERO_DIGEST)
  | ItemRead => (ev_item e ==? None) || bool_decide (is_Some (ev_witness e))
  | Verification =>
      if (ev_item e ==? None) && (ev_witness e ==? None) then false
      else (ev_witness e ==? None) || (ev_item e ==? None) ||
           bool_decide (is_Some (ev_item e ≫= ai_permitted_item_name))
  | WitnessRequest =>
      (ev_witness e ==? None) || (ev_item e ==? None) ||
      bool_decide (is_Some (ev_item e ≫= ai_permitted_item_name))
  | _ => bool_decide (is_Some (ev_witness e))
  end.

Definition some_digest_is_zero (d : option Digest32) : bool :=
  if d is Some d then digest_is_zero d else false.

Definition witness_link_bad (e : AuditEvent) (w : WitnessAuditLink) : bool :=
  digest_is_zero (wl_request_digest w) || digest_is_zero (wl_policy_revision_hash w) ||
  some_digest_is_zero (wl_decision_digest w) || some_digest_is_zero (wl_receipt_digest w) ||
  (ev_operation_id e !=? link_operation_id w).

Definition AuditEvent_validate_shape (e : AuditEvent) : result LocalStateErrorKind unit :=
  reject_if (negb (ev_version e =? 1)%N || (ev_sequence e =? 0)%N ||
    digest_is_zero (ev_operation_id e)) LS_InvalidFormat ;;
  reject_if (if ev_item e is Some item then permitted_name_bad item else false) LS_InvalidFormat ;;
  reject_if (action_shape_bad e) LS_InvalidFormat ;;
  reject_if (if ev_witness e is Some w then witness_link_bad e w else false) LS_InvalidFormat.

Definition event_mac (e : AuditEvent) (key : MacKey) : result LocalStateErrorKind Digest32 :=
  map_err map_crypto_error (hmac_sha256 key (AuditEvent_mac_preimage e)).

Definition verify_event_mac (e : AuditEvent) (key : MacKey) : result LocalStateErrorKind unit :=
  map_err map_crypto_error (verify_hmac_sha256 key (AuditEvent_mac_preimage e) (ev_mac e)).

(** ** The log

    [AuditLog] has the one field [events]. *)

Definition AuditLog_initialize (scope : LocalStateScope) (policy_sequence : N)
    (audit_genesis_digest : Digest32) (key : MacKey) : result LocalStateErrorKind (list AuditEvent) :=
  reject_if (digest_is_zero audit_genesis_digest) LS_InvalidFormat ;;
  let event := {|
    ev_version := 1;
    ev_sequence := 1;
    ev_operation_id := audit_genesis_digest;
    ev_principal_id := sc_principal_id scope;
    ev_vault_id := sc_vault_id scope;
    ev_genesis_fingerprint := sc_genesis_fingerprint scope;
    ev_policy_sequence := policy_sequence;
    ev_action := VaultCreateOrImport;
    ev_item := None;
    ev_outcome := Success;
    ev_witness := None;
    ev_previous_mac := ZERO_DIGEST;
    ev_mac := ZERO_DIGEST;
  |} in
  mac ← event_mac event key;
  Ok [with_mac event mac].

(** [bytes.split_inclusive(|byte| *byte == b'\n')] *)
Fixpoint split_inclusive (text : bytes) : list bytes :=
  match text with
  | [] => []
  | b :: rest =>
      if b ==? newline then [b] :: split_inclusive rest
      else match split_inclusive rest with
           | line :: lines => (b :: line) :: lines
           | [] => [[b]]
           end
  end.

(** The loop's variables: the events so far and the MAC of the last. *)
Definition parse_line (scope : LocalStateScope) (key : MacKey)
    (acc : list AuditEvent * Digest32) (line_with_ending : bytes)
    : result LocalStateErrorKind (list AuditEvent * Digest32) :=
  let '(events, previous_mac) := acc in
  reject_if ((last line_with_ending !=? Some newline) || (len line_with_ending <=? 1)%N ||
    (MAX_AUDIT_EVENT_BYTES <? len line_with_ending)%N || (MAX_AUDIT_EVENTS <=? len events)%N)
    LS_AuditTampered ;;
  let line := take (length line_with_ending - 1) line_with_ending in
  event ← ok_or (json_parse line) LS_AuditTampered;
  canonical ← ok_or (to_vec event) LS_ProviderFailure;
  reject_if ((canonical !=? line) || negb (ev_sequence event =? len events + 1)%N ||
    (ev_previous_mac event !=? previous_mac) || negb (AuditEvent_matches_scope event scope) ||
    negb (is_ok (AuditEvent_validate_shape event))) LS_AuditTampered ;;
  map_err (λ _, LS_AuditTampered) (verify_event_mac event key) ;;
  Ok (events ++ [event], ev_mac event).

Definition AuditLog_parse (text : bytes) (scope : LocalStateScope) (key : MacKey)
    : result LocalStateErrorKind (list AuditEvent) :=
  reject_if ((text ==? []) || (MAX_AUDIT_BYTES <? len text)%N) LS_InvalidFormat ;;
  '(events, _) ← foldE (parse_line scope key) ([], ZERO_DIGEST) (split_inclusive text);
  match events with
  | [] => Err LS_AuditTampered
  | first :: _ =>
      reject_if ((ev_action first !=? VaultCreateOrImport) || (ev_outcome first !=? Success))
        LS_AuditTampered ;;
      Ok events
  end.

(** A [usize] has 64 bits. *)
Definition encoded_len_step (length : N) (event : AuditEvent) : result LocalStateErrorKind N :=
  text ← ok_or (to_vec event) LS_ProviderFailure;
  ok_or (checked_add_u64 length (saturating_add_u64 (len text) 1)) LS_CapacityExhausted.

Definition AuditLog_encoded_len (events : list AuditEvent) : result LocalStateErrorKind N :=
  foldE encoded_len_step 0%N events.

Definition AuditLog_to_bytes (events : list AuditEvent) : result LocalStateErrorKind bytes :=
  AuditLog_encoded_len events ;;
  foldE (λ output event,
    text ← ok_or (to_vec event) LS_ProviderFailure;
    Ok (output ++ text ++ [newline])) [] events.

(** The source indexes, which panics on an empty log; a log is never empty
    ([log_ok]). *)
Definition latest_mac (events : list AuditEvent) : Digest32 :=
  default ZERO_DIGEST (ev_mac <$> last events).

Definition audit_genesis_digest (events : list AuditEvent) : Digest32 :=
  default ZERO_DIGEST (ev_operation_id <$> head events).

Definition mac_index (events : list AuditEvent) (mac : Digest32) : option nat :=
  fst <$> list_find (λ e, ev_mac e = mac) events.

Definition contains_operation (events : list AuditEvent) (operation_id : Digest32) : bool :=
  existsb (λ e, ev_operation_id e ==? operation_id) events.

Definition AuditLog_matches_scope (events : list AuditEvent) (scope : LocalStateScope) : bool :=
  if head events is Some event then AuditEvent_matches_scope event scope else false.

(** The event [append] makes of a draft. *)
Definition draft_event (events : list AuditEvent) (draft : AuditEventDraft) (scope : LocalStateScope)
    (sequence : N) : AuditEvent := {|
  ev_version := 1;
  ev_sequence := sequence;
  ev_operation_id := dr_operation_id draft;
  ev_principal_id := sc_principal_id scope;
  ev_vault_id := sc_vault_id scope;
  ev_genesis_fingerprint := sc_genesis_fingerprint scope;
  ev_policy_sequence := dr_policy_sequence draft;
  ev_action := dr_action draft;
  ev_item := dr_item draft;
  ev_outcome := dr_outcome draft;
  ev_witness := dr_witness draft;
  ev_previous_mac := latest_mac events;
  ev_mac := ZERO_DIGEST;
|}.

(** The part of [append] before the first write. *)
Definition append_checked (events : list AuditEvent) (draft : AuditEventDraft)
    (scope : LocalStateScope) (key : MacKey) : result LocalStateErrorKind AuditEvent :=
  reject_if ((MAX_AUDIT_EVENTS <=? len events)%N || (dr_timestamp_ms draft =? 0)%N ||
    digest_is_zero (dr_operation_id draft) || (dr_action draft ==? VaultCreateOrImport))
    LS_InvalidFormat ;;
  sequence ← ok_or (checked_add_u64 (len events) 1) LS_CapacityExhausted;
  let event := draft_event events draft scope sequence in
  AuditEvent_validate_shape event ;;
  mac ← event_mac event key;
  let event := with_mac event mac in
  encoded ← ok_or (to_vec event) LS_ProviderFailure;
  reject_if (MAX_AUDIT_EVENT_BYTES <? saturating_add_u64 (len encoded) 1)%N LS_CapacityExhausted ;;
  Ok event.

(** The event is pushed before the length of the whole is known, and popped when
    the log became too long. *)
Definition AuditLog_append (draft : AuditEventDraft) (scope : LocalStateScope) (key : MacKey)
    : eff LocalStateErrorKind (list AuditEvent) unit := λ events,
  match append_checked events draft scope key with
  | Err e => (Err e, events)
  | Ok event =>
      let pushed := events ++ [event] in
      match AuditLog_encoded_len pushed with
      | Err e => (Err e, pushed)
      | Ok length =>
          if (MAX_AUDIT_BYTES <? length)%N then (Err LS_CapacityExhausted, events)
          else (Ok (), pushed)
      end
  end.

End audit.
