(* ===== verification/LocalAuditLog.v ===== *)
(** * What an audit log establishes

    [audit_chain] is the chain of MACs that parsing checks; [log_ok] adds the
    limits. The parser accepts exactly the text of such logs, [initialize] and
    [append] make them, and the MAC of an event commits to the log up to it. *)

From S2P Require Import Prelude Json VaultTypes Canonical Preimage Binding Effects LocalAudit.
Local Open Scope jury_scope.

(** ** Lines *)

Lemma split_inclusive_concat text : concat (split_inclusive text) = text.
Proof.
  induction text as [|b text IH]; cbn [split_inclusive]; [done|].
  case_bool_decide; [cbn; by rw IH|].
  destruct (split_inclusive text) as [|line lines]; cbn in *; by rw -IH.
Qed.

Lemma split_inclusive_line line rest :
  newline ∉ line → split_inclusive (line ++ newline :: rest) = (line ++ [newline]) :: split_inclusive rest.
Proof.
  induction line as [|b line IH]; intros Hn; cbn [split_inclusive app].
  - by rw bool_decide_eq_true_2.
  - rw bool_decide_eq_false_2; [|set_solver]. by rw IH; [|set_solver].
Qed.

Lemma split_inclusive_lines lines :
  Forall (λ line, newline ∉ line) lines →
  split_inclusive (concat ((λ line, line ++ [newline]) <$> lines)) = (λ line, line ++ [newline]) <$> lines.
Proof.
  induction 1 as [|line lines Hl _ IH]; [done|]. rw !fmap_cons. cbn [concat].
  rw -app_assoc. cbn [app]. by rw split_inclusive_line // IH.
Qed.

Lemma is_ok_iff {E} (r : result E unit) : is_ok r = true ↔ r = Ok ().
Proof. destruct r as [[]|]; naive_solver. Qed.

(** ** What Rust's types promise *)

Definition LocalStateScope_wt (s : LocalStateScope) : bool :=
  fixed 32 (sc_vault_id s) && fixed 32 (sc_genesis_fingerprint s) && fixed 32 (sc_principal_id s).

Definition optional_digest_wt (d : option Digest32) : bool :=
  if d is Some d then fixed 32 d else true.

Definition WitnessAuditLink_wt (w : WitnessAuditLink) : bool :=
  fixed 32 (wl_request_digest w) && optional_digest_wt (wl_decision_digest w) &&
  optional_digest_wt (wl_receipt_digest w) && fixed 32 (wl_policy_revision_hash w) &&
  fixed 32 (wl_revision_seal_id w).

Definition AuditEvent_wt (e : AuditEvent) : bool :=
  u16 (ev_version e) && u64 (ev_sequence e) && fixed 32 (ev_operation_id e) &&
  fixed 32 (ev_principal_id e) && fixed 32 (ev_vault_id e) && fixed 32 (ev_genesis_fingerprint e) &&
  u64 (ev_policy_sequence e) && (if ev_item e is Some i then fixed 32 (ai_item_id i) else true) &&
  (if ev_witness e is Some w then WitnessAuditLink_wt w else true) &&
  fixed 32 (ev_previous_mac e) && fixed 32 (ev_mac e).

(** An event without a name and a witness link has a dozen fields of fixed size;
    [initialize] relies on its text being short. *)
Class EventJson `{!Json AuditEvent} := creation_fits e text :
  to_vec e = Some text → AuditEvent_wt e = true → ev_item e = None → ev_witness e = None →
  (len text + 1 ≤ MAX_AUDIT_EVENT_BYTES)%N.

Section log.
Context `{Crypto} `{Hmac} `{!Json AuditEvent, !JsonLine AuditEvent}.
Implicit Types (e : AuditEvent) (l : list AuditEvent).

(** ** The chain *)

Definition mac_ok (key : MacKey) e : Prop := hmac_sha256 key (AuditEvent_mac_preimage e) = Ok (ev_mac e).

(** What parsing checks of the event after [l]. *)
Record event_ok (scope : LocalStateScope) (key : MacKey) l e : Prop := {
  eo_sequence : ev_sequence e = (len l + 1)%N;
  eo_previous : ev_previous_mac e = latest_mac l;
  eo_scope : AuditEvent_matches_scope e scope = true;
  eo_shape : AuditEvent_validate_shape e = Ok ();
  eo_mac : mac_ok key e;
  eo_line line : to_vec e = Some line → (len line + 1 ≤ MAX_AUDIT_EVENT_BYTES)%N;
}.

Inductive audit_chain (scope : LocalStateScope) (key : MacKey) : list AuditEvent → Prop :=
  | audit_chain_nil : audit_chain scope key []
  | audit_chain_snoc l e :
      audit_chain scope key l → event_ok scope key l e → audit_chain scope key (l ++ [e]).

Definition starts_with_creation l : Prop :=
  ∀ e, head l = Some e → ev_action e = VaultCreateOrImport ∧ ev_outcome e = Success.

Record log_ok (scope : LocalStateScope) (key : MacKey) l : Prop := {
  lo_chain : audit_chain scope key l;
  lo_nonempty : l ≠ [];
  lo_first : starts_with_creation l;
  lo_events : (len l ≤ MAX_AUDIT_EVENTS)%N;
  lo_bytes n : AuditLog_encoded_len l = Ok n → (n ≤ MAX_AUDIT_BYTES)%N;
}.

Lemma latest_mac_snoc l e : latest_mac (l ++ [e]) = ev_mac e.
Proof. unfold latest_mac. by rw last_snoc. Qed.

Lemma audit_chain_inv scope key l :
  audit_chain scope key l →
  l = [] ∨ ∃ l' e, l = l' ++ [e] ∧ audit_chain scope key l' ∧ event_ok scope key l' e.
Proof. destruct 1 as [|l e]; [by left|right; eauto]. Qed.

Lemma audit_chain_snoc_iff scope key l e :
  audit_chain scope key (l ++ [e]) ↔ audit_chain scope key l ∧ event_ok scope key l e.
Proof.
  split; [|intros []; by constructor].
  intros [?|(l' & e' & (-> & ->)%app_inj_tail & ? & ?)]%audit_chain_inv; [|done].
  by destruct (app_cons_not_nil l [] e).
Qed.

Lemma audit_chain_take scope key l n : audit_chain scope key l → audit_chain scope key (take n l).
Proof.
  induction l as [|e l IH] using rev_ind; [by rw take_nil|].
  intros Hc. destruct (decide (length (l ++ [e]) ≤ n)); [by rw take_ge|].
  rw length_app /= in n0. rw take_app_le; [|lia]. apply IH. by apply audit_chain_snoc_iff in Hc as [].
Qed.

(** ** Parsing and printing *)

Definition log_lines l : option (list bytes) := mapM to_vec l.

Lemma log_lines_snoc l e texts :
  log_lines (l ++ [e]) = Some texts ↔
  ∃ ts t, log_lines l = Some ts ∧ to_vec e = Some t ∧ texts = ts ++ [t].
Proof.
  unfold log_lines. rw mapM_Some. setoid_rewrite mapM_Some. split.
  - intros (ts & t' & Hl & Ht & ->)%Forall2_app_inv_l.
    apply Forall2_cons_inv_l in Ht as (t & ts' & Ht & ->%Forall2_nil_inv_l & ->). eauto.
  - intros (ts & t & Hl & Ht & ->). apply Forall2_app; [done|]. by constructor.
Qed.

Lemma audit_chain_lines scope key l lines :
  audit_chain scope key l → log_lines l = Some lines →
  Forall (λ line, (len line + 1 ≤ MAX_AUDIT_EVENT_BYTES)%N ∧ newline ∉ line) lines.
Proof.
  intros Hc. revert lines. induction Hc as [|l e Hl IH He]; intros lines Hm; [by injection Hm as <-|].
  apply log_lines_snoc in Hm as (ts & t & Hts & Ht & ->). apply Forall_app. split; [by apply IH|].
  constructor; [|done]. split; [by eapply eo_line|by eapply json_line].
Qed.

Lemma encoded_len_lines l n : AuditLog_encoded_len l = Ok n → ∃ lines, log_lines l = Some lines.
Proof.
  unfold AuditLog_encoded_len. revert n. induction l as [|e l IH] using rev_ind; intros n.
  { by exists []. }
  rw foldE_snoc_Ok. intros (m & (ts & Hts)%IH & He). unfold encoded_len_step in He.
  apply bind_Ok in He as (t & Ht%ok_or_Ok & _). exists (ts ++ [t]). apply log_lines_snoc. eauto.
Qed.

Lemma to_bytes_lines l lines n :
  log_lines l = Some lines → AuditLog_encoded_len l = Ok n →
  AuditLog_to_bytes l = Ok (concat ((λ line, line ++ [newline]) <$> lines)).
Proof.
  unfold AuditLog_to_bytes. intros Hm ->. cbn [mbind result_bind]. clear n.
  assert (∀ out, foldE (λ output event, text ← ok_or (to_vec event) LS_ProviderFailure;
      Ok (output ++ text ++ [newline])) out l =
    Ok (out ++ concat ((λ line, line ++ [newline]) <$> lines))) as Hf; [|by rw Hf].
  unfold log_lines in Hm. apply mapM_Some in Hm.
  induction Hm as [|e line l lines He _ IH]; intros out; cbn [foldE].
  { by rw app_nil_r. }
  rw He. cbn. rw IH. by rw -!app_assoc.
Qed.

Lemma verify_event_mac_Ok key e u : verify_event_mac e key = Ok u ↔ mac_ok key e.
Proof.
  unfold verify_event_mac, verify_hmac_sha256, mac_ok. destruct u. rw map_err_Ok bind_Ok.
  split; [|intros ->; eexists; split; [done|by rw bool_decide_eq_true_2]].
  intros (t & -> & Ht). case_bool_decide; [by subst|done].
Qed.

Lemma last_newline (line : bytes) :
  last line = Some newline ↔ ∃ line', line = line' ++ [newline].
Proof. by rw last_Some. Qed.

Lemma parse_line_Ok scope key l line l' p :
  parse_line scope key (l, latest_mac l) line = Ok (l', p) ↔
  ∃ e text, to_vec e = Some text ∧ line = text ++ [newline] ∧ l' = l ++ [e] ∧ p = ev_mac e ∧
    event_ok scope key l e ∧ (len l < MAX_AUDIT_EVENTS)%N.
Proof.
  unfold parse_line. rw reject_if_bind bind_Ok. setoid_rewrite bind_Ok. setoid_rewrite reject_if_bind.
  setoid_rewrite bind_Ok. setoid_rewrite ok_or_Ok. setoid_rewrite map_err_Ok.
  setoid_rewrite verify_event_mac_Ok. split.
  - intros (Hg & e & He & c & Hc & Hg' & u & Hm & [= <- <-]). to_prop.
    match goal with Hn : last line = _ |- _ => apply last_newline in Hn as [text ->] end.
    rw length_app /= Nat.add_sub take_app_length in He.
    match goal with Hn : c = _ |- _ => rw length_app /= Nat.add_sub take_app_length in Hn; subst c end.
    match goal with Hn : is_ok _ = true |- _ => apply is_ok_iff in Hn end.
    rewrite -> len_app in *. exists e, text. split_and!; [done..|constructor; try done|lia].
    intros text' Ht'. match goal with Hn : to_vec e = Some text |- _ => rw Hn in Ht' end.
    injection Ht' as <-. by change (len [newline]) with 1%N in *.
  - intros (e & text & Hv & -> & -> & -> & [Hs Hp Hsc Hsh Hm Hlen%(λ h, h text Hv)] & Hmax). pose proof (json_nonempty _ _ Hv) as Hne.
    rw length_app /= Nat.add_sub take_app_length len_app last_snoc.
    change (len [newline]) with 1%N. assert (len text ≠ 0%N).
    { unfold len. destruct text; [done|simpl; lia]. }
    split; [split_guard; [done|lia..]|].
    exists e. split; [by apply to_vec_parse|]. exists text. split; [done|]. split; [|by exists ()].
    rw Hsc Hsh. split_guard; done.
Qed.

Definition with_endings (texts : list bytes) : list bytes := (λ text, text ++ [newline]) <$> texts.

Lemma with_endings_snoc ts t : with_endings (ts ++ [t]) = with_endings ts ++ [t ++ [newline]].
Proof. unfold with_endings. by rw fmap_app. Qed.

(** The loop of [parse] accepts the lines of a chain and nothing else. *)
Lemma parse_lines_Ok scope key lines l p :
  foldE (parse_line scope key) ([], ZERO_DIGEST) lines = Ok (l, p) ↔
  audit_chain scope key l ∧ (len l ≤ MAX_AUDIT_EVENTS)%N ∧ p = latest_mac l ∧
  ∃ texts, log_lines l = Some texts ∧ lines = with_endings texts.
Proof.
  revert l p. induction lines as [|line lines IH] using rev_ind; intros l p.
  - cbn [foldE]. split.
    + intros [= <- <-]. split_and!; [constructor|done|done|by exists []].
    + intros (Hc & _ & -> & texts & Ht & He). destruct l as [|e l]; [done|].
      destruct texts; [|done]. unfold log_lines in Ht. apply mapM_Some in Ht. by inversion Ht.
  - rw foldE_snoc_Ok. split.
    + intros ([l0 p0] & (Hc & Hmax & -> & ts & Ht & ->)%IH & Hp).
      apply parse_line_Ok in Hp as (e & t & Hv & -> & -> & -> & He & Hlt).
      split_and!; [by constructor|rw len_app; unfold len in *; simpl; lia|by rw latest_mac_snoc|].
      exists (ts ++ [t]). split; [apply log_lines_snoc; eauto|by rw with_endings_snoc].
    + intros (Hc & Hmax & -> & texts & Ht & He).
      apply audit_chain_inv in Hc as [->|(l0 & e & -> & Hc & Hev)].
      { injection Ht as <-. by destruct (app_cons_not_nil lines [] line). }
      apply log_lines_snoc in Ht as (ts & t & Ht & Hv & ->). rw with_endings_snoc in He.
      apply app_inj_tail in He as [-> ->]. rw len_app in Hmax.
      change (len [e]) with 1%N in Hmax.
      exists (l0, latest_mac l0). split; [apply IH; split_and!; [done|lia|done|eauto]|].
      apply parse_line_Ok. exists e, t. rw latest_mac_snoc. split_and!; try done. lia.
Qed.

Lemma encoded_len_Ok l texts n :
  log_lines l = Some texts → Forall (λ t, (len t + 1 ≤ MAX_AUDIT_EVENT_BYTES)%N) texts →
  AuditLog_encoded_len l = Ok n ↔ n = len (concat (with_endings texts)) ∧ (n ≤ u64_max)%N.
Proof.
  unfold AuditLog_encoded_len. revert texts n.
  induction l as [|e l IH] using rev_ind; intros texts n Ht Hall.
  { injection Ht as <-. cbn. split; [by intros [= <-]|by intros [-> _]]. }
  apply log_lines_snoc in Ht as (ts & t & Ht & Hv & ->). apply Forall_app in Hall as [Hall Hlast].
  apply Forall_cons in Hlast as [Hlast _]. rw foldE_snoc_Ok.
  setoid_rewrite (IH ts _ Ht Hall). unfold encoded_len_step. rw Hv.
  rw with_endings_snoc concat_app len_app. cbn [concat]. rw app_nil_r len_app.
  change (len [newline]) with 1%N. set (m := len (concat (with_endings ts))).
  cbn [ok_or mbind result_bind]. unfold saturating_add_u64, checked_add_u64, MAX_AUDIT_EVENT_BYTES, u64_max in *.
  rw N.min_l; [|lia]. split.
  - intros (? & [-> Hm] & Hc). destruct (_ <=? _)%N eqn:Hle; [|done]. injection Hc as <-. to_prop. lia.
  - intros [-> Hn]. exists m. split; [lia|]. destruct (_ <=? _)%N eqn:Hle; [done|]. to_prop. lia.
Qed.

(** A chain's text. *)
Lemma audit_chain_text scope key l texts :
  audit_chain scope key l → log_lines l = Some texts →
  split_inclusive (concat (with_endings texts)) = with_endings texts ∧
  (∀ n, AuditLog_encoded_len l = Ok n ↔ n = len (concat (with_endings texts)) ∧ (n ≤ u64_max)%N) ∧
  (∀ n, AuditLog_encoded_len l = Ok n → AuditLog_to_bytes l = Ok (concat (with_endings texts))).
Proof.
  intros Hc Ht. pose proof (audit_chain_lines _ _ _ _ Hc Ht) as Hall. split_and!.
  - apply split_inclusive_lines. eapply Forall_impl; [done|]. naive_solver.
  - intros n. apply encoded_len_Ok; [done|]. eapply Forall_impl; [done|]. naive_solver.
  - intros n Hn. by eapply to_bytes_lines.
Qed.

Lemma text_nonempty l texts : log_lines l = Some texts → l ≠ [] → concat (with_endings texts) ≠ [].
Proof.
  intros Ht%mapM_Some Hne. destruct Ht as [|e t l texts _ _]; [done|]. by destruct t.
Qed.

(** [parse] reads back what [to_bytes] prints of a well formed log, and accepts
    nothing else. *)
Lemma audit_parse_Ok scope key text l :
  AuditLog_parse text scope key = Ok l ↔ log_ok scope key l ∧ AuditLog_to_bytes l = Ok text.
Proof.
  unfold AuditLog_parse. rw reject_if_bind bind_Ok. split.
  - intros (Hg & [l' p] & Hf & Hfirst). to_prop. apply parse_lines_Ok in Hf as (Hc & Hmax & _ & ts & Hts & Hsp).
    assert (l' = l ∧ l ≠ [] ∧ starts_with_creation l) as (-> & Hne & Hst).
    { destruct l' as [|e l']; [done|]. apply reject_if_bind in Hfirst as [Hg [= <-]]. to_prop.
      split_and!; [done|done|]. by intros ? [= <-]. }
    destruct (audit_chain_text _ _ _ _ Hc Hts) as (_ & Hn & Hb). rw -Hsp split_inclusive_concat in Hn Hb.
    assert (AuditLog_encoded_len l = Ok (len text)) as Henc.
    { apply Hn. unfold MAX_AUDIT_BYTES, u64_max in *. split; [done|lia]. }
    split; [|by eapply Hb]. constructor; [done..|]. intros n. rw Henc. by intros [= <-].
  - intros [[Hc Hne Hst Hmax Hle] Hb]. unfold AuditLog_to_bytes in Hb.
    apply bind_Ok in Hb as (n & Hn & Hb). destruct (encoded_len_lines _ _ Hn) as [ts Hts].
    destruct (audit_chain_text _ _ _ _ Hc Hts) as (Hsp & Henc & Hb').
    specialize (Hb' _ Hn). unfold AuditLog_to_bytes in Hb'. rw Hn in Hb'.
    assert (text = concat (with_endings ts)) as -> by (cbn [mbind result_bind] in *; congruence).
    pose proof (Hle _ Hn) as Hmx. destruct (proj1 (Henc n) Hn) as [Hlen _]. rw Hlen in Hmx. split.
    { split_guard; [by eapply text_nonempty|done]. }
    exists (l, latest_mac l). split; [apply parse_lines_Ok; split_and!; [done..|by exists ts]|].
    destruct l as [|e l]; [done|]. destruct (Hst e) as [Ha Ho]; [done|]. cbn. by rw Ha Ho.
Qed.

(** ** Making logs *)

Lemma with_mac_preimage e m : AuditEvent_mac_preimage (with_mac e m) = AuditEvent_mac_preimage e.
Proof. done. Qed.

Lemma event_mac_Ok key e m : event_mac e key = Ok m ↔ mac_ok key (with_mac e m).
Proof. unfold event_mac, mac_ok. by rw map_err_Ok. Qed.

Lemma scope_event_matches scope e :
  ev_vault_id e = sc_vault_id scope → ev_genesis_fingerprint e = sc_genesis_fingerprint scope →
  ev_principal_id e = sc_principal_id scope → AuditEvent_matches_scope e scope = true.
Proof. unfold AuditEvent_matches_scope. intros -> -> ->. by split_guard. Qed.

Lemma shape_with_mac e m : AuditEvent_validate_shape (with_mac e m) = AuditEvent_validate_shape e.
Proof. done. Qed.

Lemma checked_add_Some a b c : checked_add_u64 a b = Some c ↔ c = (a + b)%N ∧ (a + b ≤ u64_max)%N.
Proof.
  unfold checked_add_u64. destruct (_ <=? _)%N eqn:Hle; to_prop; split; try done.
  - by intros [= <-].
  - by intros [-> _].
  - intros [_ ?]. lia.
Qed.

Lemma append_checked_inv l draft scope key e :
  append_checked l draft scope key = Ok e →
  ((MAX_AUDIT_EVENTS <=? len l)%N || (dr_timestamp_ms draft =? 0)%N ||
    digest_is_zero (dr_operation_id draft) || (dr_action draft ==? VaultCreateOrImport)) = false ∧
  ∃ m text, AuditEvent_validate_shape (draft_event l draft scope (len l + 1)) = Ok () ∧
    event_mac (draft_event l draft scope (len l + 1)) key = Ok m ∧
    e = with_mac (draft_event l draft scope (len l + 1)) m ∧ to_vec e = Some text ∧
    (MAX_AUDIT_EVENT_BYTES <? saturating_add_u64 (len text) 1)%N = false.
Proof.
  unfold append_checked. intros [Hg Hk]%reject_if_bind. split; [done|].
  apply bind_Ok in Hk as (n & [-> _]%ok_or_Ok%checked_add_Some & Hk).
  apply bind_Ok in Hk as ([] & Hs & Hk). apply bind_Ok in Hk as (m & Hm & Hk).
  apply bind_Ok in Hk as (text & Ht%ok_or_Ok & Hk).
  apply reject_if_bind in Hk as [Hlen Hk%Ok_inj]. exists m, text. by subst.
Qed.

Lemma saturating_add_le a b n :
  (n < u64_max)%N → (saturating_add_u64 a b ≤ n)%N → (a + b ≤ n)%N.
Proof. unfold saturating_add_u64. lia. Qed.

Lemma append_checked_Ok l draft scope key e :
  append_checked l draft scope key = Ok e →
  event_ok scope key l e ∧ dr_timestamp_ms draft ≠ 0%N ∧ (len l < MAX_AUDIT_EVENTS)%N ∧
  ∃ m, e = with_mac (draft_event l draft scope (len l + 1)) m.
Proof.
  intros (Hg & m & text & Hs & Hm & -> & Ht & Hlen)%append_checked_inv. to_prop.
  split_and!; [|done|done|by exists m]. constructor.
  - done.
  - done.
  - by apply scope_event_matches.
  - by rw shape_with_mac.
  - by apply event_mac_Ok.
  - intros text'. rw Ht. intros [= <-]. by apply saturating_add_le.
Qed.

Lemma append_Ok draft scope key l u l' :
  AuditLog_append draft scope key l = (Ok u, l') → log_ok scope key l →
  log_ok scope key l' ∧ dr_timestamp_ms draft ≠ 0%N ∧
  ∃ m, l' = l ++ [with_mac (draft_event l draft scope (len l + 1)) m].
Proof.
  unfold AuditLog_append. intros Ha [Hc Hne Hst Hmax Hb].
  destruct (append_checked _ _ _ _) as [e|] eqn:He; [|done].
  apply append_checked_Ok in He as (Hev & Hts & Hlt & m & Hm).
  destruct (AuditLog_encoded_len _) as [n|] eqn:Hn; [|done]. destruct (_ <? _)%N eqn:Hle; [done|].
  injection Ha as _ <-. to_prop. split_and!; [|done|exists m; by rw -Hm]. constructor.
  - by constructor.
  - intros Hnil. by destruct (app_cons_not_nil l [] e).
  - unfold starts_with_creation in *. by destruct l.
  - rw len_app. change (len [e]) with 1%N. lia.
  - intros n'. rw Hn. by intros [= <-].
Qed.


Lemma digest_is_zero_false d : digest_is_zero d = false ↔ d ≠ ZERO_DIGEST.
Proof. unfold digest_is_zero. by rw bool_decide_eq_false. Qed.

Lemma fixed_length n b : fixed n b = true ↔ length b = n.
Proof. unfold fixed. by rw bool_decide_eq_true. Qed.

Lemma creation_shape e :
  ev_version e = 1%N → ev_sequence e = 1%N → digest_is_zero (ev_operation_id e) = false →
  ev_action e = VaultCreateOrImport → ev_item e = None → ev_outcome e = Success →
  ev_witness e = None → ev_previous_mac e = ZERO_DIGEST → AuditEvent_validate_shape e = Ok ().
Proof.
  unfold AuditEvent_validate_shape, action_shape_bad. intros -> -> -> -> -> -> -> ->. done.
Qed.

Lemma single_event_log `{!EventJson} scope key e :
  event_ok scope key [] e → AuditEvent_wt e = true → ev_item e = None → ev_witness e = None →
  ev_action e = VaultCreateOrImport → ev_outcome e = Success → log_ok scope key [e].
Proof.
  intros He Hw Hi Hl Ha Ho.
  assert (audit_chain scope key [e]) as Hc by (apply (audit_chain_snoc scope key []); [constructor|done]).
  constructor; [done|done|by intros ? [= <-]|done|].
  intros n Hn. destruct (encoded_len_lines _ _ Hn) as [ts Hts].
  destruct (audit_chain_text _ _ _ _ Hc Hts) as (_ & Henc & _).
  destruct (proj1 (Henc n) Hn) as [-> _].
  apply (log_lines_snoc []) in Hts as (ts' & t & [= <-] & Ht & ->).
  cbn. rw app_nil_r len_app. change (len [newline]) with 1%N.
  pose proof (creation_fits _ _ Ht Hw Hi Hl). unfold MAX_AUDIT_EVENT_BYTES, MAX_AUDIT_BYTES in *. lia.
Qed.

Lemma initialize_Ok `{!EventJson} scope seq digest key l :
  AuditLog_initialize scope seq digest key = Ok l →
  LocalStateScope_wt scope = true → u64 seq = true → fixed 32 digest = true →
  log_ok scope key l ∧ audit_genesis_digest l = digest ∧ length l = 1.
Proof.
  unfold AuditLog_initialize. intros [Hz Hk]%reject_if_bind Hs Hq Hd.
  apply bind_Ok in Hk as (m & Hm & Hl%Ok_inj). subst l. split_and!; [|done|done].
  assert (fixed 32 m = true) as Hml.
  { apply fixed_length. apply map_err_Ok in Hm. by eapply hmac_length. }
  unfold LocalStateScope_wt in Hs. to_prop.
  apply single_event_log; try done.
  - constructor; [done|done|by apply scope_event_matches|rw shape_with_mac; by apply creation_shape|..].
    + by apply event_mac_Ok.
    + intros text Ht. eapply creation_fits; [exact Ht| |done|done].
      unfold AuditEvent_wt. by split_guard.
  - unfold AuditEvent_wt. by split_guard.
Qed.

(** ** What a MAC commits to *)

Definition mac_collision_free (key : MacKey) (ps : list bytes) : Prop :=
  ∀ p q t, p ∈ ps → q ∈ ps → hmac_sha256 key p = Ok t → hmac_sha256 key q = Ok t → p = q.

Definition log_preimages l : list bytes := AuditEvent_mac_preimage <$> l.

Definition link_preimages l : list bytes := omap (λ e, operation_id_preimage <$> ev_witness e) l.

Lemma action_tag_inj a b : action_tag a = action_tag b → a = b.
Proof. by destruct a, b. Qed.
Lemma action_tag_u8 a : u8 (action_tag a) = true.
Proof. by destruct a. Qed.
Lemma outcome_tags_inj a b : outcome_tags a = outcome_tags b → a = b.
Proof. by destruct a as [| | |[]], b as [| | |[]]. Qed.
Lemma outcome_tags_u8 a : u8 (outcome_tags a).1 = true ∧ u8 (outcome_tags a).2 = true.
Proof. by destruct a as [| | |[]]. Qed.

Lemma shape_facts e :
  AuditEvent_validate_shape e = Ok () →
  ev_version e = 1%N ∧ ev_sequence e ≠ 0%N ∧
  (∀ i, ev_item e = Some i → permitted_name_bad i = false) ∧ action_shape_bad e = false ∧
  (∀ w, ev_witness e = Some w → ev_operation_id e = link_operation_id w).
Proof.
  unfold AuditEvent_validate_shape. intros [Hg [Hi [Ha Hw%reject_if_Ok]%reject_if_bind]%reject_if_bind]%reject_if_bind.
  to_prop. split_and!; [done|done|intros i Hs; by rewrite -> Hs in Hi|done|].
  intros w Hs. rewrite -> Hs in Hw. unfold witness_link_bad in Hw. by to_prop.
Qed.

Lemma permitted_name_fits i name :
  permitted_name_bad i = false → ai_permitted_item_name i = Some name → fits_u32 name = true.
Proof.
  unfold permitted_name_bad. intros Hb Hn. rewrite -> Hn in Hb. to_prop.
  unfold fits_u32, u32, MAX_PERMITTED_ITEM_NAME_BYTES, u32_max in *. split_guard. lia.
Qed.

Definition item_chunk (i : option AuditItemScope) : bytes :=
  option_chunk ai_item_id i ++ option_chunk field_chunk (i ≫= ai_permitted_item_name).

Definition item_chunk_ok (i : option AuditItemScope) : Prop :=
  ∀ x, i = Some x → fixed 32 (ai_item_id x) = true ∧
    ∀ name, ai_permitted_item_name x = Some name → fits_u32 name = true.

Lemma pinj_item : pinj item_chunk_ok item_chunk.
Proof.
  unfold item_chunk. intros [[i m]|] [[j n]|] r s Hx Hy Heq; try discriminate; [|by injection Heq].
  destruct (Hx _ eq_refl) as [Hi Hm], (Hy _ eq_refl) as [Hj Hn]. cbn [ai_item_id ai_permitted_item_name] in *.
  cbn [option_chunk mbind option_bind ai_item_id ai_permitted_item_name] in Heq.
  rw -!app_assoc in Heq. injection Heq as Heq.
  apply (peel_fixed 32) in Heq as [-> Heq]; [|done..].
  apply (pinj_option _ _ pinj_field) in Heq as [-> ->]; [done| |]; case_match; subst; eauto.
Qed.

Lemma event_mac_preimage_chunks e :
  AuditEvent_mac_preimage e =
  jce_v1 "jury-v1/audit/event-mac" ++ u16be (ev_version e) ++ ev_principal_id e ++ ev_vault_id e ++
  ev_genesis_fingerprint e ++ u64be (ev_policy_sequence e) ++ ev_operation_id e ++
  push (action_tag (ev_action e)) ++ item_chunk (ev_item e) ++ push (outcome_tags (ev_outcome e)).1 ++
  push (outcome_tags (ev_outcome e)).2 ++ ev_previous_mac e.
Proof.
  unfold AuditEvent_mac_preimage, event_mac_preimage, item_chunk, field_chunk.
  destruct (ev_item e) as [[i [n|]]|]; cbn [mbind option_bind ai_item_id ai_permitted_item_name option_chunk];
    by rw -?app_assoc.
Qed.

Lemma event_item_ok e : AuditEvent_wt e = true → AuditEvent_validate_shape e = Ok () → item_chunk_ok (ev_item e).
Proof.
  intros Hw (_ & _ & Hn & _)%shape_facts x Hx. unfold AuditEvent_wt in Hw. rewrite -> Hx in Hw. to_prop.
  split; [done|]. intros name. apply permitted_name_fits. auto.
Qed.

(** The fields of an event that its MAC covers. *)
Lemma event_preimage_inj e f :
  AuditEvent_wt e = true → AuditEvent_wt f = true →
  AuditEvent_validate_shape e = Ok () → AuditEvent_validate_shape f = Ok () →
  AuditEvent_mac_preimage e = AuditEvent_mac_preimage f →
  ev_version e = ev_version f ∧ ev_principal_id e = ev_principal_id f ∧ ev_vault_id e = ev_vault_id f ∧
  ev_genesis_fingerprint e = ev_genesis_fingerprint f ∧ ev_policy_sequence e = ev_policy_sequence f ∧
  ev_operation_id e = ev_operation_id f ∧ ev_action e = ev_action f ∧ ev_item e = ev_item f ∧
  ev_outcome e = ev_outcome f ∧ ev_previous_mac e = ev_previous_mac f.
Proof.
  intros Hwe Hwf Hse Hsf. rw !event_mac_preimage_chunks.
  pose proof (event_item_ok _ Hwe Hse) as Hie. pose proof (event_item_ok _ Hwf Hsf) as Hif.
  pose proof (outcome_tags_u8 (ev_outcome e)) as [??]. pose proof (outcome_tags_u8 (ev_outcome f)) as [??].
  pose proof (action_tag_u8 (ev_action e)). pose proof (action_tag_u8 (ev_action f)).
  unfold AuditEvent_wt in *. to_prop. intros Heq. apply app_inv_head in Heq. repeat peel_step.
  apply pinj_item in Heq as [? Heq]; [|done..]. repeat peel_step.
  split_and!; try done; [by apply action_tag_inj|]. apply outcome_tags_inj.
  destruct (outcome_tags (ev_outcome e)), (outcome_tags (ev_outcome f)). cbn in *. by subst.
Qed.

Lemma optional_digest_chunk output d : append_optional_digest output d = output ++ option_chunk id d.
Proof. unfold append_optional_digest, append_digest. destruct d; cbn; by rw -?app_assoc. Qed.

Lemma peel_optional_digest d1 d2 r s :
  option_chunk id d1 ++ r = option_chunk id d2 ++ s →
  optional_digest_wt d1 = true → optional_digest_wt d2 = true → d1 = d2 ∧ r = s.
Proof.
  intros Heq H1 H2. apply (pinj_option _ _ (pinj_fixed 32)) in Heq; [done|by destruct d1|by destruct d2].
Qed.

Lemma link_preimage_inj w v :
  WitnessAuditLink_wt w = true → WitnessAuditLink_wt v = true →
  operation_id_preimage w = operation_id_preimage v → w = v.
Proof.
  unfold WitnessAuditLink_wt, operation_id_preimage. rw !optional_digest_chunk. rewrite <- !app_assoc.
  intros Hw Hv Heq. to_prop. apply app_inv_head in Heq. repeat peel_step.
  apply peel_optional_digest in Heq as [? Heq]; [|done..].
  apply peel_optional_digest in Heq as [? Heq]; [|done..]. repeat peel_step.
  destruct w, v; cbn in *; congruence.
Qed.

(** Whether there is a link is a matter of the action and the item. *)
Lemma action_shape_link e f :
  action_shape_bad e = false → action_shape_bad f = false → ev_action e = ev_action f →
  ev_item e = ev_item f → ev_witness e = None ↔ ev_witness f = None.
Proof.
  unfold action_shape_bad. intros He Hf Ha Hi. rewrite <- Ha, <- Hi in Hf.
  destruct (ev_action e), (ev_item e), (ev_witness e), (ev_witness f); cbn in *; to_prop; done.
Qed.

Lemma elem_of_link_preimages l e w :
  e ∈ l → ev_witness e = Some w → operation_id_preimage w ∈ link_preimages l.
Proof. intros He Hw. apply list_elem_of_omap. exists e. by rw Hw. Qed.

Lemma event_ext e f :
  ev_version e = ev_version f → ev_sequence e = ev_sequence f → ev_operation_id e = ev_operation_id f →
  ev_principal_id e = ev_principal_id f → ev_vault_id e = ev_vault_id f →
  ev_genesis_fingerprint e = ev_genesis_fingerprint f → ev_policy_sequence e = ev_policy_sequence f →
  ev_action e = ev_action f → ev_item e = ev_item f → ev_outcome e = ev_outcome f →
  ev_witness e = ev_witness f → ev_previous_mac e = ev_previous_mac f → ev_mac e = ev_mac f → e = f.
Proof. destruct e, f. cbn. by intros -> -> -> -> -> -> -> -> -> -> -> -> ->. Qed.

Lemma event_witness_wt e w : AuditEvent_wt e = true → ev_witness e = Some w → WitnessAuditLink_wt w = true.
Proof. unfold AuditEvent_wt. intros Hw He. rewrite -> He in Hw. by to_prop. Qed.

Lemma event_inj e f :
  AuditEvent_wt e = true → AuditEvent_wt f = true →
  AuditEvent_validate_shape e = Ok () → AuditEvent_validate_shape f = Ok () →
  AuditEvent_mac_preimage e = AuditEvent_mac_preimage f → ev_sequence e = ev_sequence f →
  ev_mac e = ev_mac f → collision_free (link_preimages [e; f]) → e = f.
Proof.
  intros Hwe Hwf Hse Hsf Hp Hq Hm Hcf.
  destruct (event_preimage_inj _ _ Hwe Hwf Hse Hsf Hp) as (? & ? & ? & ? & ? & Ho & Ha & Hi & ? & ?).
  apply shape_facts in Hse as (_ & _ & _ & Hae & Hle), Hsf as (_ & _ & _ & Haf & Hlf).
  pose proof (action_shape_link _ _ Hae Haf Ha Hi) as [Hl1 Hl2]. clear Hae Haf Hp.
  apply event_ext; try assumption.
  destruct (ev_witness e) as [w|] eqn:Ew, (ev_witness f) as [v|] eqn:Ev;
    [|discriminate (Hl2 eq_refl)|discriminate (Hl1 eq_refl)|done].
  f_equal. apply link_preimage_inj; [by apply (event_witness_wt e)|by apply (event_witness_wt f)|].
  apply Hcf; [apply (elem_of_link_preimages _ e); [by left|done]|
    apply (elem_of_link_preimages _ f); [by right; left|done]|].
  change (link_operation_id w = link_operation_id v).
  by rewrite <- (Hle _ eq_refl), <- (Hlf _ eq_refl).
Qed.

Lemma mac_collision_free_sub key ps qs : qs ⊆ ps → mac_collision_free key ps → mac_collision_free key qs.
Proof. unfold mac_collision_free. set_solver. Qed.

Lemma collision_free_sub (ps qs : list bytes) : qs ⊆ ps → collision_free ps → collision_free qs.
Proof. unfold collision_free. set_solver. Qed.

Lemma link_preimages_app l k : link_preimages (l ++ k) = link_preimages l ++ link_preimages k.
Proof. unfold link_preimages. apply omap_app. Qed.

Lemma log_preimages_app l k : log_preimages (l ++ k) = log_preimages l ++ log_preimages k.
Proof. unfold log_preimages. apply fmap_app. Qed.

Lemma link_preimages_sub l k : l ⊆ k → link_preimages l ⊆ link_preimages k.
Proof. intros Hs p (e & He & Hp)%list_elem_of_omap. apply list_elem_of_omap. eauto. Qed.

Lemma log_preimages_sub l k : l ⊆ k → log_preimages l ⊆ log_preimages k.
Proof. intros Hs p (e & -> & He)%list_elem_of_fmap. apply list_elem_of_fmap. eauto. Qed.

Lemma first_snoc l e : starts_with_creation (l ++ [e]) → l ≠ [] → starts_with_creation l.
Proof. unfold starts_with_creation. by destruct l. Qed.

(** The first event, and no other, is the creation. *)
Lemma creation_first scope key l e :
  event_ok scope key l e → ev_action e = VaultCreateOrImport → l = [].
Proof.
  intros [Hq _ _ (_ & _ & _ & Ha & _)%shape_facts _ _] Hc. unfold action_shape_bad in Ha.
  rewrite -> Hc in Ha. to_prop. destruct l; [done|]. unfold len in *. cbn in *. lia.
Qed.

(** Two logs that end in the same MAC are the same, when no two of the strings
    authenticated, and no two of the links hashed, collide. *)
Lemma audit_chain_inj scope scope' key l k :
  audit_chain scope key l → audit_chain scope' key k → l ≠ [] → k ≠ [] →
  starts_with_creation l → starts_with_creation k → latest_mac l = latest_mac k →
  forallb AuditEvent_wt l = true → forallb AuditEvent_wt k = true →
  mac_collision_free key (log_preimages l ++ log_preimages k) →
  collision_free (link_preimages l ++ link_preimages k) → l = k.
Proof.
  intros Hl. revert k. induction Hl as [|l e Hl IH He]; [done|].
  intros k Hk _ Hne Hfl Hfk Hm Hwl Hwk Hcm Hch.
  apply audit_chain_inv in Hk as [->|(k' & f & -> & Hk & Hf)]; [done|].
  rw !latest_mac_snoc in Hm. rw !forallb_app in Hwl Hwk. cbn in Hwl, Hwk. to_prop.
  rewrite <- log_preimages_app in Hcm. rewrite <- link_preimages_app in Hch.
  assert (AuditEvent_mac_preimage e = AuditEvent_mac_preimage f) as Hp.
  { eapply (Hcm _ _ (ev_mac e)); [apply list_elem_of_fmap_2; clear; set_solver..|apply He|rw Hm; apply Hf]. }
  destruct (event_preimage_inj e f) as (_ & _ & _ & _ & _ & _ & Ha & _ & _ & Hprev);
    [done|done|apply He|apply Hf|done|].
  assert (l = k') as ->.
  { destruct (decide (l = [])) as [->|Hln].
    { symmetry. eapply creation_first; [exact Hf|]. rewrite <- Ha. by apply Hfl. }
    destruct (decide (k' = [])) as [->|Hkn].
    { destruct Hln. eapply creation_first; [exact He|]. rewrite -> Ha. by apply Hfk. }
    apply IH; [done|done|done|by eapply first_snoc|by eapply first_snoc| |done|done|..];
      [|rewrite <- log_preimages_app|rewrite <- link_preimages_app].
    - by rewrite <- (eo_previous _ _ _ _ He), <- (eo_previous _ _ _ _ Hf).
    - eapply mac_collision_free_sub, Hcm. apply log_preimages_sub. clear. set_solver.
    - eapply collision_free_sub, Hch. apply link_preimages_sub. clear. set_solver. }
  f_equal. f_equal. apply event_inj; [done|done|apply He|apply Hf|done| |done|].
  - by rewrite -> (eo_sequence _ _ _ _ He), (eo_sequence _ _ _ _ Hf).
  - eapply collision_free_sub, Hch. apply link_preimages_sub. clear. set_solver.
Qed.
End log.
