(* ===== verification/LocalCheckpoint.v ===== *)
(** * Local checkpoints

    [crates/jury-core/src/local_state/checkpoint.rs] and [verify_item_ancestry]
    of [item/opening.rs]. A candidate is the history of revision hashes of a
    vault that was validated; a checkpoint keeps the hash last accepted, and the
    MAC of the last audit event. *)

From S2P Require Import Prelude Json VaultTypes Canonical Preimage PolicyState Effects LocalAudit.
Local Open Scope jury_scope.

(** ** Item ancestry *)

Inductive ItemErrorKind :=
  | IE_InvalidInput
  | IE_InvalidAncestry
  | IE_Unauthorized
  | IE_EntropyUnavailable
  | IE_RetryExhausted
  | IE_ProtectionUnavailable
  | IE_ProviderFailure
  | IE_AuthenticationFailed
  | IE_CapacityExhausted.

Section ancestry.
Context `{Crypto}.

(** [PolicyState::verification_key] *)
Definition verification_key (policy : PolicyState) (principal_id : PrincipalId)
    : option VerificationPublicKey32 :=
  pd_verification_public_key <$> ps_historical_principal_descriptors policy !! principal_id.

(** The loop's variables: the index and the hash of the revision before. *)
Definition ancestry_step (envelope : ItemEnvelopeV1)
    (verification_key : PrincipalId → option VerificationPublicKey32)
    (acc : N * Digest32) (revision : SignedItemRevisionV1) : result ItemErrorKind (N * Digest32) :=
  let '(index, previous_hash) := acc in
  let expected_revision := (index + 1)%N in
  reject_if ((ir_vault_id revision !=? ir_vault_id (ie_current_revision envelope)) ||
    (ir_item_id revision !=? ie_item_id envelope) ||
    negb (ir_item_revision revision =? expected_revision)%N ||
    (ir_previous_item_revision_hash revision !=? previous_hash) ||
    (ir_key_epoch revision =? 0)%N || negb (ir_plaintext_schema revision =? 1)%N)
    IE_InvalidAncestry ;;
  key ← ok_or (verification_key (ir_author_principal_id revision)) IE_Unauthorized;
  reject_if (negb (verify_bytes key (SignedItemRevisionV1_signature_preimage revision)
    (ir_signature revision))) IE_AuthenticationFailed ;;
  hash ← map_err (λ _, IE_InvalidAncestry) (SignedItemRevisionV1_recomputed_hash revision);
  Ok ((index + 1)%N, hash).

Definition verify_item_ancestry (envelope : ItemEnvelopeV1)
    (verification_key : PrincipalId → option VerificationPublicKey32) : result ItemErrorKind unit :=
  foldE (ancestry_step envelope verification_key) (0%N, ZERO_DIGEST)
    (ie_prior_revisions envelope ++ [ie_current_revision envelope]) ;;
  Ok ().

(** ** Candidates *)

Inductive CheckpointRelation := CR_Equal | CR_StrictDescendant | CR_Divergent.

Record CheckpointCandidate := {
  cc_vault_id : VaultId;
  cc_genesis_fingerprint : Digest32;
  cc_principals : gset PrincipalId;
  cc_policy_history : gmap N Digest32;
}.

(** The loop's variables: the index, the hash of the revision before, and the
    history so far. *)
Definition history_step (policy : PolicyState) (acc : N * Digest32 * gmap N Digest32)
    (revision : SignedPolicyRevisionV1) : result LocalStateErrorKind (N * Digest32 * gmap N Digest32) :=
  let '(index, previous, history) := acc in
  sequence ← ok_or (checked_add_u64 index 1) LS_CapacityExhausted;
  reject_if (negb (pr_sequence revision =? sequence)%N || (pr_vault_id revision !=? ps_vault_id policy) ||
    (pr_previous_revision_hash revision !=? previous)) LS_InvalidFormat ;;
  hash ← map_err (λ _, LS_InvalidFormat) (SignedPolicyRevisionV1_recomputed_hash revision);
  Ok (sequence, hash, <[sequence := hash]> history).

Definition envelope_step (policy : PolicyState) (seen_items : gset ItemId) (envelope : ItemEnvelopeV1)
    : result LocalStateErrorKind (gset ItemId) :=
  reject_if (ie_item_id envelope ∈? seen_items) LS_InvalidFormat ;;
  map_err (λ _, LS_InvalidFormat) (verify_item_ancestry envelope (verification_key policy)) ;;
  item ← ok_or (ps_items policy !! ie_item_id envelope) LS_InvalidFormat;
  current_hash ← map_err (λ _, LS_InvalidFormat)
    (SignedItemRevisionV1_recomputed_hash (ie_current_revision envelope));
  reject_if ((current_hash !=? it_current_item_revision_hash item) ||
    (ie_descriptor envelope !=? it_descriptor item)) LS_InvalidFormat ;;
  Ok (set_insert (ie_item_id envelope) seen_items).

Definition CheckpointCandidate_from_validated (policy : PolicyState) (journal : PolicyJournalV1)
    (envelopes : list ItemEnvelopeV1) : result LocalStateErrorKind CheckpointCandidate :=
  genesis_fingerprint ← map_err (λ _, LS_InvalidFormat)
    (PolicyGenesisV1_recomputed_fingerprint (pj_genesis journal));
  reject_if ((pg_vault_id (pj_genesis journal) !=? ps_vault_id policy) ||
    (genesis_fingerprint !=? ps_genesis_fingerprint policy) ||
    negb (len (pj_revisions journal) =? ps_sequence policy)%N ||
    negb (Nat.eqb (length envelopes) (size (ps_items policy)))) LS_InvalidFormat ;;
  '(_, previous, policy_history) ← foldE (history_step policy)
    (0%N, genesis_fingerprint, {[0%N := genesis_fingerprint]}) (pj_revisions journal);
  reject_if (previous !=? ps_terminal_revision_hash policy) LS_InvalidFormat ;;
  match last (pj_revisions journal) with
  | Some terminal =>
      hash ← map_err (λ _, LS_InvalidFormat) (normalized_state_hash policy);
      reject_if (hash !=? pr_resulting_policy_state_hash terminal) LS_InvalidFormat
  | None => Ok ()
  end ;;
  foldE (envelope_step policy) ∅ envelopes ;;
  reject_if (existsb (λ item_id, bool_decide (is_Some (ps_tombstones policy !! item_id)))
    (keys (ps_items policy))) LS_InvalidFormat ;;
  Ok {|
    cc_vault_id := ps_vault_id policy;
    cc_genesis_fingerprint := genesis_fingerprint;
    cc_principals := collect_set (keys (ps_principals policy));
    cc_policy_history := policy_history;
  |}.

(** [0..n] *)
Definition range_u64 (n : nat) : list N := N.of_nat <$> seq 0 n.

Definition validate_candidate_scope (c : CheckpointCandidate) (scope : LocalStateScope)
    : result LocalStateErrorKind unit :=
  reject_if ((cc_vault_id c !=? sc_vault_id scope) ||
    (cc_genesis_fingerprint c !=? sc_genesis_fingerprint scope) ||
    (sc_principal_id scope ∉? cc_principals c) ||
    (cc_policy_history c ==? ∅) ||
    existsb (λ '(sequence, hash), digest_is_zero hash || (sequence =? u64_max)%N)
      (entries (cc_policy_history c)) ||
    (keys (cc_policy_history c) !=? range_u64 (size (cc_policy_history c)))) LS_ScopeMismatch.

(** [BTreeMap::last_key_value] *)
Definition last_key_value {V} (m : gmap N V) : option (N * V) := last (entries m).

Definition current_policy (c : CheckpointCandidate) : result LocalStateErrorKind (N * Digest32) :=
  ok_or (last_key_value (cc_policy_history c)) LS_InvalidFormat.

(** ** Checkpoints *)

Record LocalCheckpoint := {
  ck_version : N;
  ck_scope : LocalStateScope;
  ck_accepted_public_revision_hash : Digest32;
  ck_latest_audit_mac : Digest32;
  ck_audit_genesis_digest : Digest32;
  ck_updated_at_ms : N;
  ck_mac : Digest32;
}.

Definition relation_to (c : CheckpointCandidate) (k : LocalCheckpoint)
    : result LocalStateErrorKind CheckpointRelation :=
  if (cc_vault_id c !=? sc_vault_id (ck_scope k)) ||
     (cc_genesis_fingerprint c !=? sc_genesis_fingerprint (ck_scope k)) then Ok CR_Divergent
  else
    '(current_sequence, current_hash) ← ok_or (last_key_value (cc_policy_history c)) LS_InvalidFormat;
    if current_hash ==? ck_accepted_public_revision_hash k then Ok CR_Equal
    else
      let retained_sequence :=
        (λ p, p.2.1) <$> list_find (λ p, p.2 = ck_accepted_public_revision_hash k)
          (entries (cc_policy_history c)) in
      Ok (if retained_sequence is Some sequence then
            if (sequence <? current_sequence)%N then CR_StrictDescendant else CR_Divergent
          else CR_Divergent).

Definition genesis_digest_preimage (k : LocalCheckpoint) : bytes :=
  jce_v1 "jury-v1/checkpoint/genesis-digest" ++
  u16be (ck_version k) ++
  sc_principal_id (ck_scope k) ++
  sc_vault_id (ck_scope k) ++
  sc_genesis_fingerprint (ck_scope k) ++
  ck_accepted_public_revision_hash k ++
  u64be (ck_updated_at_ms k).

Definition genesis_digest (k : LocalCheckpoint) : Digest32 := sha256 (genesis_digest_preimage k).

Definition checkpoint_mac_preimage (version : N) (scope : LocalStateScope)
    (accepted_public_revision_hash latest_audit_mac audit_genesis_digest : Digest32)
    (updated_at_ms : N) : bytes :=
  jce_v1 "jury-v1/checkpoint/file-mac" ++
  u16be version ++
  sc_principal_id scope ++
  sc_vault_id scope ++
  sc_genesis_fingerprint scope ++
  accepted_public_revision_hash ++
  latest_audit_mac ++
  audit_genesis_digest ++
  u64be updated_at_ms.

Definition LocalCheckpoint_mac_preimage (k : LocalCheckpoint) : bytes :=
  checkpoint_mac_preimage (ck_version k) (ck_scope k) (ck_accepted_public_revision_hash k)
    (ck_latest_audit_mac k) (ck_audit_genesis_digest k) (ck_updated_at_ms k).

Definition LocalCheckpoint_validate_shape (k : LocalCheckpoint) : result LocalStateErrorKind unit :=
  reject_if (negb (ck_version k =? 1)%N || (ck_updated_at_ms k =? 0)%N ||
    digest_is_zero (ck_accepted_public_revision_hash k) || digest_is_zero (ck_latest_audit_mac k) ||
    digest_is_zero (ck_audit_genesis_digest k)) LS_InvalidFormat.
End ancestry.

(** Assignments to single fields. *)
Definition set_accepted (h : Digest32) (t : N) (k : LocalCheckpoint) : LocalCheckpoint := {|
  ck_version := ck_version k;
  ck_scope := ck_scope k;
  ck_accepted_public_revision_hash := h;
  ck_latest_audit_mac := ck_latest_audit_mac k;
  ck_audit_genesis_digest := ck_audit_genesis_digest k;
  ck_updated_at_ms := t;
  ck_mac := ck_mac k;
|}.

Definition set_latest_audit_mac (m : Digest32) (t : N) (k : LocalCheckpoint) : LocalCheckpoint := {|
  ck_version := ck_version k;
  ck_scope := ck_scope k;
  ck_accepted_public_revision_hash := ck_accepted_public_revision_hash k;
  ck_latest_audit_mac := m;
  ck_audit_genesis_digest := ck_audit_genesis_digest k;
  ck_updated_at_ms := t;
  ck_mac := ck_mac k;
|}.

Definition set_audit_genesis_digest (d : Digest32) (k : LocalCheckpoint) : LocalCheckpoint := {|
  ck_version := ck_version k;
  ck_scope := ck_scope k;
  ck_accepted_public_revision_hash := ck_accepted_public_revision_hash k;
  ck_latest_audit_mac := ck_latest_audit_mac k;
  ck_audit_genesis_digest := d;
  ck_updated_at_ms := ck_updated_at_ms k;
  ck_mac := ck_mac k;
|}.

Definition set_checkpoint_mac (m : Digest32) (k : LocalCheckpoint) : LocalCheckpoint := {|
  ck_version := ck_version k;
  ck_scope := ck_scope k;
  ck_accepted_public_revision_hash := ck_accepted_public_revision_hash k;
  ck_latest_audit_mac := ck_latest_audit_mac k;
  ck_audit_genesis_digest := ck_audit_genesis_digest k;
  ck_updated_at_ms := ck_updated_at_ms k;
  ck_mac := m;
|}.

Section checkpoint.
Context `{Crypto} `{Hmac} `{!Json LocalCheckpoint, !JsonPretty LocalCheckpoint}.

Definition LocalCheckpoint_initial (candidate : CheckpointCandidate) (scope : LocalStateScope)
    (timestamp_ms : N) : result LocalStateErrorKind LocalCheckpoint :=
  '(_, accepted_public_revision_hash) ← current_policy candidate;
  let checkpoint := {|
    ck_version := 1;
    ck_scope := scope;
    ck_accepted_public_revision_hash := accepted_public_revision_hash;
    ck_latest_audit_mac := ZERO_DIGEST;
    ck_audit_genesis_digest := ZERO_DIGEST;
    ck_updated_at_ms := timestamp_ms;
    ck_mac := ZERO_DIGEST;
  |} in
  Ok (set_audit_genesis_digest (genesis_digest checkpoint) checkpoint).

Definition LocalCheckpoint_verify (k : LocalCheckpoint) (key : MacKey) : result LocalStateErrorKind unit :=
  verify_local_document (ck_mac k) key (LocalCheckpoint_mac_preimage k).

Definition LocalCheckpoint_parse (text : bytes) (scope : LocalStateScope) (key : MacKey)
    : result LocalStateErrorKind LocalCheckpoint :=
  checkpoint ← parse_local_document text MAX_CHECKPOINT_BYTES;
  reject_if (negb (is_ok (LocalCheckpoint_validate_shape checkpoint))) LS_InvalidFormat ;;
  reject_if (ck_scope checkpoint !=? scope) LS_ScopeMismatch ;;
  LocalCheckpoint_verify checkpoint key ;;
  Ok checkpoint.

Definition LocalCheckpoint_to_bytes (k : LocalCheckpoint) : result LocalStateErrorKind bytes :=
  serialize_local_document k MAX_CHECKPOINT_BYTES.

Definition LocalCheckpoint_advance (candidate : CheckpointCandidate) (timestamp_ms : N)
    : eff LocalStateErrorKind LocalCheckpoint unit := λ k,
  if (timestamp_ms <? ck_updated_at_ms k)%N then (Err LS_InvalidFormat, k)
  else match current_policy candidate with
       | Ok (_, hash) => (Ok (), set_accepted hash timestamp_ms k)
       | Err e => (Err e, k)
       end.

Definition LocalCheckpoint_record_audit (latest_audit_mac : Digest32) (timestamp_ms : N)
    : eff LocalStateErrorKind LocalCheckpoint unit := λ k,
  if (timestamp_ms <? ck_updated_at_ms k)%N || digest_is_zero latest_audit_mac
  then (Err LS_InvalidFormat, k)
  else (Ok (), set_latest_audit_mac latest_audit_mac timestamp_ms k).

Definition LocalCheckpoint_authenticate (key : MacKey) : eff LocalStateErrorKind LocalCheckpoint unit := λ k,
  match LocalCheckpoint_validate_shape k ;;
        authenticate_local_document key (LocalCheckpoint_mac_preimage k) with
  | Ok mac => (Ok (), set_checkpoint_mac mac k)
  | Err e => (Err e, k)
  end.
End checkpoint.
