(* ===== verification/LocalReceipts.v ===== *)
(** * Local receipts

    [crates/jury-core/src/local_state/receipts.rs]: the latest transfer, backup,
    verification of a backup and restore drill of a principal, authenticated as
    one document. *)

From S2P Require Import Prelude Json VaultTypes Canonical Preimage Effects LocalAudit.
Local Open Scope jury_scope.

Record TransferReceipt := {
  tr_transfer_id : Digest32;
  tr_captured_public_revision_hash : Digest32;
  tr_timestamp_ms : N;
  tr_output_digest : Digest32;
}.

Record BackupReceiptCoverage := {
  bc_owner_descriptor_fingerprint : Digest32;
  bc_identity_role_mask : N;
  bc_direct_item_ids : list ItemId;
  bc_witnessed_item_ids : list ItemId;
  bc_unavailable_witnessed_item_ids : list ItemId;
  bc_checkpoints_current : bool;
  bc_external_witness_recovery_required : bool;
}.

Record BackupReceipt := {
  br_backup_id : Digest32;
  br_captured_public_revision_hash : Digest32;
  br_timestamp_ms : N;
  br_payload_digest : Digest32;
  br_coverage : BackupReceiptCoverage;
}.

Record BackupVerificationReceipt := {
  bv_backup_id : Digest32;
  bv_captured_public_revision_hash : Digest32;
  bv_timestamp_ms : N;
  bv_payload_digest : Digest32;
}.

Record RestoreDrillReceipt := {
  rd_backup_id : Digest32;
  rd_captured_public_revision_hash : Digest32;
  rd_timestamp_ms : N;
  rd_output_digest : Digest32;
}.

Inductive ReceiptUpdate :=
  | RU_Transfer (receipt : TransferReceipt)
  | RU_Backup (receipt : BackupReceipt)
  | RU_BackupVerification (receipt : BackupVerificationReceipt)
  | RU_RestoreDrill (receipt : RestoreDrillReceipt).

Record LocalReceipts := {
  lr_version : N;
  lr_scope : LocalStateScope;
  lr_latest_transfer : option TransferReceipt;
  lr_latest_backup : option BackupReceipt;
  lr_latest_backup_verification : option BackupVerificationReceipt;
  lr_latest_restore_drill : option RestoreDrillReceipt;
  lr_mac : Digest32;
}.

Definition LocalReceipts_empty (scope : LocalStateScope) : LocalReceipts := {|
  lr_version := 1;
  lr_scope := scope;
  lr_latest_transfer := None;
  lr_latest_backup := None;
  lr_latest_backup_verification := None;
  lr_latest_restore_drill := None;
  lr_mac := ZERO_DIGEST;
|}.

(** Assignments to the four receipts and the MAC. *)
Definition set_receipts (t : option TransferReceipt) (b : option BackupReceipt)
    (v : option BackupVerificationReceipt) (d : option RestoreDrillReceipt) (m : Digest32)
    (r : LocalReceipts) : LocalReceipts := {|
  lr_version := lr_version r;
  lr_scope := lr_scope r;
  lr_latest_transfer := t;
  lr_latest_backup := b;
  lr_latest_backup_verification := v;
  lr_latest_restore_drill := d;
  lr_mac := m;
|}.

(** ** Checks *)

Definition ensure_newer (prior : option N) (next : N) : result LocalStateErrorKind unit :=
  reject_if ((next =? 0)%N || (if prior is Some prior then (next <? prior)%N else false)) LS_InvalidFormat.

Definition validate_common (operation_id revision_hash : Digest32) (timestamp_ms : N)
    (output_digest : Digest32) : result LocalStateErrorKind unit :=
  reject_if ((timestamp_ms =? 0)%N || digest_is_zero operation_id || digest_is_zero revision_hash ||
    digest_is_zero output_digest) LS_InvalidFormat.

Definition validate_transfer (r : TransferReceipt) : result LocalStateErrorKind unit :=
  validate_common (tr_transfer_id r) (tr_captured_public_revision_hash r) (tr_timestamp_ms r)
    (tr_output_digest r).

(** [!0b111] of a [u8] is 248. *)
Definition coverage_bad (c : BackupReceiptCoverage) : bool :=
  digest_is_zero (bc_owner_descriptor_fingerprint c) ||
  (N.land (bc_identity_role_mask c) 1 =? 0)%N ||
  negb (N.land (bc_identity_role_mask c) 248 =? 0)%N ||
  negb (bc_checkpoints_current c) ||
  negb (strictly_sorted_unique (bc_direct_item_ids c)) ||
  negb (strictly_sorted_unique (bc_witnessed_item_ids c)) ||
  negb (strictly_sorted_unique (bc_unavailable_witnessed_item_ids c)) ||
  Bool.eqb (bc_external_witness_recovery_required c) (bc_witnessed_item_ids c ==? []) ||
  existsb (λ item_id, item_id ∉? bc_witnessed_item_ids c) (bc_unavailable_witnessed_item_ids c).

Definition validate_backup (r : BackupReceipt) : result LocalStateErrorKind unit :=
  validate_common (br_backup_id r) (br_captured_public_revision_hash r) (br_timestamp_ms r)
    (br_payload_digest r) ;;
  reject_if (coverage_bad (br_coverage r)) LS_InvalidFormat.

Definition validate_backup_verification (r : BackupVerificationReceipt) : result LocalStateErrorKind unit :=
  validate_common (bv_backup_id r) (bv_captured_public_revision_hash r) (bv_timestamp_ms r)
    (bv_payload_digest r).

Definition validate_restore_drill (r : RestoreDrillReceipt) : result LocalStateErrorKind unit :=
  validate_common (rd_backup_id r) (rd_captured_public_revision_hash r) (rd_timestamp_ms r)
    (rd_output_digest r).

Definition validate_optional {A} (check : A → result LocalStateErrorKind unit) (r : option A)
    : result LocalStateErrorKind unit := if r is Some r then check r else Ok ().

Definition LocalReceipts_validate_shape (r : LocalReceipts) : result LocalStateErrorKind unit :=
  reject_if (negb (lr_version r =? 1)%N) LS_InvalidFormat ;;
  validate_optional validate_transfer (lr_latest_transfer r) ;;
  validate_optional validate_backup (lr_latest_backup r) ;;
  validate_optional validate_backup_verification (lr_latest_backup_verification r) ;;
  validate_optional validate_restore_drill (lr_latest_restore_drill r).

(** ** Updates *)

Definition LocalReceipts_update (update : ReceiptUpdate) : eff LocalStateErrorKind LocalReceipts unit := λ r,
  match update with
  | RU_Transfer receipt =>
      match ensure_newer (tr_timestamp_ms <$> lr_latest_transfer r) (tr_timestamp_ms receipt) ;;
            validate_transfer receipt with
      | Ok _ => (Ok (), set_receipts (Some receipt) (lr_latest_backup r)
                   (lr_latest_backup_verification r) (lr_latest_restore_drill r) (lr_mac r) r)
      | Err e => (Err e, r)
      end
  | RU_Backup receipt =>
      match ensure_newer (br_timestamp_ms <$> lr_latest_backup r) (br_timestamp_ms receipt) ;;
            validate_backup receipt with
      | Ok _ => (Ok (), set_receipts (lr_latest_transfer r) (Some receipt)
                   (lr_latest_backup_verification r) (lr_latest_restore_drill r) (lr_mac r) r)
      | Err e => (Err e, r)
      end
  | RU_BackupVerification receipt =>
      match ensure_newer (bv_timestamp_ms <$> lr_latest_backup_verification r) (bv_timestamp_ms receipt) ;;
            validate_backup_verification receipt with
      | Ok _ => (Ok (), set_receipts (lr_latest_transfer r) (lr_latest_backup r)
                   (Some receipt) (lr_latest_restore_drill r) (lr_mac r) r)
      | Err e => (Err e, r)
      end
  | RU_RestoreDrill receipt =>
      match ensure_newer (rd_timestamp_ms <$> lr_latest_restore_drill r) (rd_timestamp_ms receipt) ;;
            validate_restore_drill receipt with
      | Ok _ => (Ok (), set_receipts (lr_latest_transfer r) (lr_latest_backup r)
                   (lr_latest_backup_verification r) (Some receipt) (lr_mac r) r)
      | Err e => (Err e, r)
      end
  end.

(** ** Authentication *)

Record ReceiptEntry := {
  re_kind : N;
  re_operation_id : Digest32;
  re_captured_public_revision_hash : Digest32;
  re_timestamp_ms : N;
  re_output_digest : Digest32;
  re_verification_state : N;
}.

(** [item_ids.len() as u32] keeps the low 32 bits. *)
Definition append_item_ids (output : bytes) (item_ids : list ItemId) : bytes :=
  fold_left (λ output item_id, output ++ item_id) item_ids (output ++ be_bytes 4 (len item_ids)).

Definition byte_of_bool (b : bool) : bytes := push (if b then 1 else 0)%N.

Definition entry_key (e : ReceiptEntry) : N * N * bytes :=
  (re_kind e, re_timestamp_ms e, re_operation_id e).

Definition entry_key_le (e f : ReceiptEntry) : Prop := ord_le (entry_key e) (entry_key f).

Global Instance entry_key_le_dec : RelDecision entry_key_le.
Proof. intros e f. unfold entry_key_le. apply _. Defined.

Section receipts.
Context `{Crypto} `{Hmac} `{!Json LocalReceipts, !JsonPretty LocalReceipts}.

Definition backup_coverage_preimage (payload_digest : Digest32) (c : BackupReceiptCoverage) : bytes :=
  append_item_ids (append_item_ids (append_item_ids
    (jce_v1 "jury-v1/receipt/backup-coverage" ++
     payload_digest ++
     bc_owner_descriptor_fingerprint c ++
     push (bc_identity_role_mask c) ++
     byte_of_bool (bc_checkpoints_current c) ++
     byte_of_bool (bc_external_witness_recovery_required c))
    (bc_direct_item_ids c)) (bc_witnessed_item_ids c)) (bc_unavailable_witnessed_item_ids c).

Definition backup_coverage_digest (payload_digest : Digest32) (c : BackupReceiptCoverage) : Digest32 :=
  sha256 (backup_coverage_preimage payload_digest c).

Definition from_transfer (r : TransferReceipt) : ReceiptEntry := {|
  re_kind := 1;
  re_operation_id := tr_transfer_id r;
  re_captured_public_revision_hash := tr_captured_public_revision_hash r;
  re_timestamp_ms := tr_timestamp_ms r;
  re_output_digest := tr_output_digest r;
  re_verification_state := 1;
|}.

Definition from_backup (r : BackupReceipt) : ReceiptEntry := {|
  re_kind := 2;
  re_operation_id := br_backup_id r;
  re_captured_public_revision_hash := br_captured_public_revision_hash r;
  re_timestamp_ms := br_timestamp_ms r;
  re_output_digest := backup_coverage_digest (br_payload_digest r) (br_coverage r);
  re_verification_state := 1;
|}.

Definition from_backup_verification (r : BackupVerificationReceipt) : ReceiptEntry := {|
  re_kind := 3;
  re_operation_id := bv_backup_id r;
  re_captured_public_revision_hash := bv_captured_public_revision_hash r;
  re_timestamp_ms := bv_timestamp_ms r;
  re_output_digest := bv_payload_digest r;
  re_verification_state := 2;
|}.

Definition from_restore_drill (r : RestoreDrillReceipt) : ReceiptEntry := {|
  re_kind := 4;
  re_operation_id := rd_backup_id r;
  re_captured_public_revision_hash := rd_captured_public_revision_hash r;
  re_timestamp_ms := rd_timestamp_ms r;
  re_output_digest := rd_output_digest r;
  re_verification_state := 3;
|}.

Definition append_entry (output : bytes) (e : ReceiptEntry) : bytes :=
  output ++ push (re_kind e) ++ re_operation_id e ++ re_captured_public_revision_hash e ++
  u64be (re_timestamp_ms e) ++ re_output_digest e ++ push (re_verification_state e).

Definition receipt_mac_preimage (version : N) (scope : LocalStateScope) (entries : list ReceiptEntry) : bytes :=
  let entries := merge_sort entry_key_le entries in
  fold_left append_entry entries
    (jce_v1 "jury-v1/receipt/file-mac" ++ u16be version ++ sc_principal_id scope ++ sc_vault_id scope ++
     sc_genesis_fingerprint scope ++ be_bytes 4 (len entries)).

Definition receipt_entries (r : LocalReceipts) : list ReceiptEntry :=
  omap id [from_transfer <$> lr_latest_transfer r; from_backup <$> lr_latest_backup r;
    from_backup_verification <$> lr_latest_backup_verification r;
    from_restore_drill <$> lr_latest_restore_drill r].

Definition LocalReceipts_mac_preimage (r : LocalReceipts) : bytes :=
  receipt_mac_preimage (lr_version r) (lr_scope r) (receipt_entries r).

Definition LocalReceipts_verify (r : LocalReceipts) (key : MacKey) : result LocalStateErrorKind unit :=
  verify_local_document (lr_mac r) key (LocalReceipts_mac_preimage r).

Definition LocalReceipts_authenticate (key : MacKey) : eff LocalStateErrorKind LocalReceipts unit := λ r,
  match LocalReceipts_validate_shape r ;;
        authenticate_local_document key (LocalReceipts_mac_preimage r) with
  | Ok mac => (Ok (), set_receipts (lr_latest_transfer r) (lr_latest_backup r)
                 (lr_latest_backup_verification r) (lr_latest_restore_drill r) mac r)
  | Err e => (Err e, r)
  end.

Definition LocalReceipts_parse (text : bytes) (scope : LocalStateScope) (key : MacKey)
    : result LocalStateErrorKind LocalReceipts :=
  receipts ← parse_local_document text MAX_RECEIPTS_BYTES;
  reject_if (negb (is_ok (LocalReceipts_validate_shape receipts))) LS_InvalidFormat ;;
  reject_if (lr_scope receipts !=? scope) LS_ScopeMismatch ;;
  LocalReceipts_verify receipts key ;;
  Ok receipts.

Definition LocalReceipts_to_bytes (r : LocalReceipts) : result LocalStateErrorKind bytes :=
  serialize_local_document r MAX_RECEIPTS_BYTES.
End receipts.
