(* ===== verification/LocalState.v ===== *)
(** * The local state of a principal

    [crates/jury-core/src/local_state.rs]: the three files each principal keeps
    beside a vault (audit log, checkpoint, receipts), under three keys derived
    from the identity, and the operations on them. The operations change the
    state in place; what was written before an error stays written. *)

From S2P Require Import Prelude Json VaultTypes Canonical Preimage PolicyState Effects LocalAudit LocalCheckpoint LocalReceipts.
Local Open Scope jury_scope.

Record VerifiedLocalState := {
  vs_audit : list AuditEvent;
  vs_checkpoint : LocalCheckpoint;
  vs_receipts : LocalReceipts;
  vs_audit_events_after_checkpoint : nat;
}.

Record LocalStateFiles := {
  lf_audit : bytes;
  lf_checkpoint : bytes;
  lf_receipts : bytes;
}.

(** Computations on a part of the state. *)
Definition on_audit {A} (m : eff LocalStateErrorKind (list AuditEvent) A)
    : eff LocalStateErrorKind VerifiedLocalState A :=
  zoom vs_audit (λ a st, {| vs_audit := a; vs_checkpoint := vs_checkpoint st;
    vs_receipts := vs_receipts st;
    vs_audit_events_after_checkpoint := vs_audit_events_after_checkpoint st |}) m.

Definition on_checkpoint {A} (m : eff LocalStateErrorKind LocalCheckpoint A)
    : eff LocalStateErrorKind VerifiedLocalState A :=
  zoom vs_checkpoint (λ k st, {| vs_audit := vs_audit st; vs_checkpoint := k;
    vs_receipts := vs_receipts st;
    vs_audit_events_after_checkpoint := vs_audit_events_after_checkpoint st |}) m.

Definition on_receipts {A} (m : eff LocalStateErrorKind LocalReceipts A)
    : eff LocalStateErrorKind VerifiedLocalState A :=
  zoom vs_receipts (λ r st, {| vs_audit := vs_audit st; vs_checkpoint := vs_checkpoint st;
    vs_receipts := r;
    vs_audit_events_after_checkpoint := vs_audit_events_after_checkpoint st |}) m.

(** [state.audit_events_after_checkpoint = n] *)
Definition set_after (n : nat) : eff LocalStateErrorKind VerifiedLocalState unit := λ st,
  (Ok (), {| vs_audit := vs_audit st; vs_checkpoint := vs_checkpoint st;
    vs_receipts := vs_receipts st; vs_audit_events_after_checkpoint := n |}).

(** A read of the state. *)
Definition gets {E W A} (f : W → A) : eff E W A := λ w, (Ok (f w), w).

Section keys.
Context `{Hmac}.

(** The trait [LocalKeySource]. *)
Record LocalKeySource := {
  ks_principal_id : PrincipalId;
  ks_derive : bytes → result LocalStateErrorKind MacKey;
}.

Record PrincipalLocalState := {
  pl_scope : LocalStateScope;
  pl_audit_key : MacKey;
  pl_checkpoint_key : MacKey;
  pl_receipts_key : MacKey;
}.

Definition PrincipalLocalState_from_source (source : LocalKeySource) (vault_id : VaultId)
    (genesis_fingerprint : Digest32) : result LocalStateErrorKind PrincipalLocalState :=
  let scope := {| sc_vault_id := vault_id; sc_genesis_fingerprint := genesis_fingerprint;
    sc_principal_id := ks_principal_id source |} in
  audit_key ← ks_derive source (key_info "jury-v1/kdf/audit-mac" scope);
  checkpoint_key ← ks_derive source (key_info "jury-v1/kdf/checkpoint-mac" scope);
  receipts_key ← ks_derive source (key_info "jury-v1/kdf/receipt-mac" scope);
  Ok {| pl_scope := scope; pl_audit_key := audit_key; pl_checkpoint_key := checkpoint_key;
    pl_receipts_key := receipts_key |}.
End keys.

Section state.
Context `{Crypto} `{Hmac} `{!Json AuditEvent}.
Context `{!Json LocalCheckpoint, !JsonPretty LocalCheckpoint}.
Context `{!Json LocalReceipts, !JsonPretty LocalReceipts}.
Implicit Types pl : PrincipalLocalState.

Definition ensure_state_scope pl (st : VerifiedLocalState) : result LocalStateErrorKind unit :=
  reject_if ((ck_scope (vs_checkpoint st) !=? pl_scope pl) || (lr_scope (vs_receipts st) !=? pl_scope pl) ||
    negb (AuditLog_matches_scope (vs_audit st) (pl_scope pl))) LS_ScopeMismatch.

(** A method called on a local variable. *)
Definition run_local {W A} (m : eff LocalStateErrorKind W A) (w : W) : result LocalStateErrorKind W :=
  match m w with (Ok _, w') => Ok w' | (Err e, _) => Err e end.

Definition local_initialize pl (candidate : CheckpointCandidate) (timestamp_ms : N)
    : result LocalStateErrorKind VerifiedLocalState :=
  validate_candidate_scope candidate (pl_scope pl) ;;
  '(policy_sequence, _) ← current_policy candidate;
  checkpoint ← LocalCheckpoint_initial candidate (pl_scope pl) timestamp_ms;
  audit ← AuditLog_initialize (pl_scope pl) policy_sequence (ck_audit_genesis_digest checkpoint)
    (pl_audit_key pl);
  let checkpoint := set_latest_audit_mac (latest_mac audit) (ck_updated_at_ms checkpoint) checkpoint in
  checkpoint ← run_local (LocalCheckpoint_authenticate (pl_checkpoint_key pl)) checkpoint;
  receipts ← run_local (LocalReceipts_authenticate (pl_receipts_key pl)) (LocalReceipts_empty (pl_scope pl));
  Ok {| vs_audit := audit; vs_checkpoint := checkpoint; vs_receipts := receipts;
    vs_audit_events_after_checkpoint := 0 |}.

Definition verify_files pl (audit_bytes checkpoint_bytes receipts_bytes : option bytes)
    : result LocalStateErrorKind VerifiedLocalState :=
  match audit_bytes, checkpoint_bytes, receipts_bytes with
  | Some audit_bytes, Some checkpoint_bytes, Some receipts_bytes =>
      audit ← AuditLog_parse audit_bytes (pl_scope pl) (pl_audit_key pl);
      checkpoint ← LocalCheckpoint_parse checkpoint_bytes (pl_scope pl) (pl_checkpoint_key pl);
      receipts ← LocalReceipts_parse receipts_bytes (pl_scope pl) (pl_receipts_key pl);
      reject_if (audit_genesis_digest audit !=? ck_audit_genesis_digest checkpoint) LS_AuditTampered ;;
      checkpoint_index ← ok_or (mac_index audit (ck_latest_audit_mac checkpoint)) LS_AuditTampered;
      Ok {| vs_audit := audit; vs_checkpoint := checkpoint; vs_receipts := receipts;
        vs_audit_events_after_checkpoint := length audit - (checkpoint_index + 1) |}
  | _, _, _ => Err LS_IncompleteState
  end.

Definition append_event pl (draft : AuditEventDraft) : eff LocalStateErrorKind VerifiedLocalState unit :=
  st ← gets id;
  lift (ensure_state_scope pl st) ;;
  on_audit (AuditLog_append draft (pl_scope pl) (pl_audit_key pl)) ;;
  mac ← gets (λ st, latest_mac (vs_audit st));
  on_checkpoint (LocalCheckpoint_record_audit mac (dr_timestamp_ms draft)) ;;
  on_checkpoint (LocalCheckpoint_authenticate (pl_checkpoint_key pl)) ;;
  set_after 0.

Definition accept_audit_tail pl (timestamp_ms : N) : eff LocalStateErrorKind VerifiedLocalState unit :=
  st ← gets id;
  lift (ensure_state_scope pl st) ;;
  if Nat.eqb (vs_audit_events_after_checkpoint st) 0 then mret ()
  else
    on_checkpoint (LocalCheckpoint_record_audit (latest_mac (vs_audit st)) timestamp_ms) ;;
    on_checkpoint (LocalCheckpoint_authenticate (pl_checkpoint_key pl)) ;;
    set_after 0.

Definition accept_candidate pl (candidate : CheckpointCandidate) (timestamp_ms : N)
    : eff LocalStateErrorKind VerifiedLocalState CheckpointRelation :=
  st ← gets id;
  lift (ensure_state_scope pl st) ;;
  lift (validate_candidate_scope candidate (pl_scope pl)) ;;
  relation ← lift (relation_to candidate (vs_checkpoint st));
  match relation with
  | CR_Equal => mret ()
  | CR_StrictDescendant =>
      on_checkpoint (LocalCheckpoint_advance candidate timestamp_ms) ;;
      on_checkpoint (LocalCheckpoint_authenticate (pl_checkpoint_key pl))
  | CR_Divergent => lift (Err LS_CheckpointDiverged)
  end ;;
  mret relation.

(** The checks of [record_receipt] before the update. *)
Definition receipt_fits (st : VerifiedLocalState) (update : ReceiptUpdate) : result LocalStateErrorKind unit :=
  match update with
  | RU_Transfer receipt =>
      reject_if (tr_captured_public_revision_hash receipt !=?
        ck_accepted_public_revision_hash (vs_checkpoint st)) LS_InvalidFormat
  | RU_Backup receipt =>
      reject_if (br_captured_public_revision_hash receipt !=?
        ck_accepted_public_revision_hash (vs_checkpoint st)) LS_InvalidFormat
  | RU_BackupVerification receipt =>
      backup ← ok_or (lr_latest_backup (vs_receipts st)) LS_InvalidFormat;
      reject_if ((bv_backup_id receipt !=? br_backup_id backup) ||
        (bv_captured_public_revision_hash receipt !=? br_captured_public_revision_hash backup) ||
        (bv_payload_digest receipt !=? br_payload_digest backup)) LS_InvalidFormat
  | RU_RestoreDrill receipt =>
      backup ← ok_or (lr_latest_backup (vs_receipts st)) LS_InvalidFormat;
      reject_if ((rd_backup_id receipt !=? br_backup_id backup) ||
        (rd_captured_public_revision_hash receipt !=? br_captured_public_revision_hash backup))
        LS_InvalidFormat
  end.

Definition record_receipt pl (update : ReceiptUpdate) : eff LocalStateErrorKind VerifiedLocalState unit :=
  st ← gets id;
  lift (ensure_state_scope pl st) ;;
  lift (receipt_fits st update) ;;
  on_receipts (LocalReceipts_update update) ;;
  on_receipts (LocalReceipts_authenticate (pl_receipts_key pl)).

Definition local_serialize pl (st : VerifiedLocalState) : result LocalStateErrorKind LocalStateFiles :=
  ensure_state_scope pl st ;;
  audit ← AuditLog_to_bytes (vs_audit st);
  checkpoint ← LocalCheckpoint_to_bytes (vs_checkpoint st);
  receipts ← LocalReceipts_to_bytes (vs_receipts st);
  Ok {| lf_audit := audit; lf_checkpoint := checkpoint; lf_receipts := receipts |}.
End state.
