(* ===== verification/LocalStateFiles.v ===== *)
(** * What the local files establish

    [local_ok] is what [verify_files] checks of the three files. It accepts
    exactly the files that [serialize] prints of such states, and every operation
    that succeeds leaves such a state. *)

From S2P Require Import Prelude Json VaultTypes Canonical Preimage Binding PolicyState Effects LocalAudit LocalAuditLog LocalCheckpoint LocalReceipts LocalState.
Local Open Scope jury_scope.

(** ** Documents *)

Lemma serialize_document_Ok {T} `{!Json T, !JsonPretty T} (d : T) n text :
  serialize_local_document d n = Ok text ↔
  ∃ t, to_vec_pretty d = Some t ∧ text = t ++ [newline] ∧ (len text ≤ n)%N.
Proof.
  unfold serialize_local_document. rw bind_Ok. setoid_rewrite ok_or_Ok. setoid_rewrite reject_if_bind.
  setoid_rewrite N.ltb_ge. setoid_rewrite Ok_eq. naive_solver.
Qed.

(** A document is accepted when it is what would be printed of it. *)
Lemma parse_document_Ok {T} `{!Json T, !JsonPretty T} (d : T) n text :
  parse_local_document text n = Ok d ↔ serialize_local_document d n = Ok text.
Proof.
  unfold parse_local_document. rw reject_if_bind. split.
  - intros (_ & Hk). apply bind_Ok in Hk as (d' & _ & Hk). apply bind_Ok in Hk as (again & Hs & Hk).
    apply reject_if_bind in Hk as [Ha Hd%Ok_inj]. to_prop. by subst.
  - intros Hs. apply serialize_document_Ok in Hs as Ht. destruct Ht as (t & Ht & -> & Hlen).
    split; [split_guard; [by destruct t|done]|].
    rw (pretty_roundtrip _ _ Ht). cbn [ok_or mbind result_bind]. rw Hs. cbn [mbind result_bind].
    by rw bool_decide_eq_true_2.
Qed.

Section files.
Context `{Crypto} `{Hmac} `{!Json AuditEvent, !JsonLine AuditEvent}.
Context `{!Json LocalCheckpoint, !JsonPretty LocalCheckpoint}.
Context `{!Json LocalReceipts, !JsonPretty LocalReceipts}.
Implicit Types (pl : PrincipalLocalState) (st : VerifiedLocalState) (k : LocalCheckpoint) (r : LocalReceipts).

Lemma verify_document_Ok mac key preimage u :
  verify_local_document mac key preimage = Ok u ↔ hmac_sha256 key preimage = Ok mac.
Proof.
  unfold verify_local_document, verify_hmac_sha256. destruct u. rw map_err_Ok bind_Ok.
  split; [|intros ->; eexists; split; [done|by rw bool_decide_eq_true_2]].
  intros (t & -> & Ht). case_bool_decide; [by subst|done].
Qed.

Record checkpoint_ok (scope : LocalStateScope) (key : MacKey) k : Prop := {
  ko_shape : LocalCheckpoint_validate_shape k = Ok ();
  ko_scope : ck_scope k = scope;
  ko_mac : hmac_sha256 key (LocalCheckpoint_mac_preimage k) = Ok (ck_mac k);
}.

Record receipts_ok (scope : LocalStateScope) (key : MacKey) r : Prop := {
  ro_shape : LocalReceipts_validate_shape r = Ok ();
  ro_scope : lr_scope r = scope;
  ro_mac : hmac_sha256 key (LocalReceipts_mac_preimage r) = Ok (lr_mac r);
}.

Record local_ok pl st : Prop := {
  so_audit : log_ok (pl_scope pl) (pl_audit_key pl) (vs_audit st);
  so_checkpoint : checkpoint_ok (pl_scope pl) (pl_checkpoint_key pl) (vs_checkpoint st);
  so_receipts : receipts_ok (pl_scope pl) (pl_receipts_key pl) (vs_receipts st);
  so_genesis : audit_genesis_digest (vs_audit st) = ck_audit_genesis_digest (vs_checkpoint st);
  so_index : is_Some (mac_index (vs_audit st) (ck_latest_audit_mac (vs_checkpoint st)));
}.

Lemma checkpoint_parse_Ok text scope key k :
  LocalCheckpoint_parse text scope key = Ok k ↔
  checkpoint_ok scope key k ∧ LocalCheckpoint_to_bytes k = Ok text.
Proof.
  unfold LocalCheckpoint_parse, LocalCheckpoint_to_bytes, LocalCheckpoint_verify.
  rw bind_Ok. setoid_rewrite parse_document_Ok. setoid_rewrite reject_if_bind.
  setoid_rewrite reject_if_bind. setoid_rewrite bind_Ok. setoid_rewrite verify_document_Ok. split.
  - intros (k' & Hs & Hg & Hsc & u & Hm & [= <-]). to_prop. split; [|done].
    constructor; [by apply is_ok_iff|done|done].
  - intros [[Hsh Hsc Hm] Hs]. exists k. split; [done|]. rw Hsh. cbn. split; [done|].
    split; [by split_guard|]. by exists ().
Qed.

Lemma receipts_parse_Ok text scope key r :
  LocalReceipts_parse text scope key = Ok r ↔
  receipts_ok scope key r ∧ LocalReceipts_to_bytes r = Ok text.
Proof.
  unfold LocalReceipts_parse, LocalReceipts_to_bytes, LocalReceipts_verify.
  rw bind_Ok. setoid_rewrite parse_document_Ok. setoid_rewrite reject_if_bind.
  setoid_rewrite reject_if_bind. setoid_rewrite bind_Ok. setoid_rewrite verify_document_Ok. split.
  - intros (r' & Hs & Hg & Hsc & u & Hm & [= <-]). to_prop. split; [|done].
    constructor; [by apply is_ok_iff|done|done].
  - intros [[Hsh Hsc Hm] Hs]. exists r. split; [done|]. rw Hsh. cbn. split; [done|].
    split; [by split_guard|]. by exists ().
Qed.

Lemma log_matches_scope scope key l : log_ok scope key l → AuditLog_matches_scope l scope = true.
Proof.
  intros [Hc Hne _ _ _]. unfold AuditLog_matches_scope. destruct l as [|e l]; [done|]. cbn.
  apply (audit_chain_take _ _ _ 1) in Hc. cbn in Hc. rw take_0 in Hc.
  apply (audit_chain_snoc_iff _ _ []) in Hc as [_ He]. by apply He.
Qed.

Lemma local_ok_scope pl st : local_ok pl st → ensure_state_scope pl st = Ok ().
Proof.
  intros [Ha Hk Hr _ _]. unfold ensure_state_scope. apply reject_if_Ok.
  rw (log_matches_scope _ _ _ Ha). split_guard; [by apply Hk|by apply Hr|done].
Qed.

(** The events after the checkpoint, as [verify_files] counts them. *)
Definition events_after st : nat :=
  if mac_index (vs_audit st) (ck_latest_audit_mac (vs_checkpoint st)) is Some i
  then length (vs_audit st) - (i + 1) else 0.

Lemma local_serialize_Ok pl st f :
  local_ok pl st →
  local_serialize pl st = Ok f ↔
  AuditLog_to_bytes (vs_audit st) = Ok (lf_audit f) ∧
  LocalCheckpoint_to_bytes (vs_checkpoint st) = Ok (lf_checkpoint f) ∧
  LocalReceipts_to_bytes (vs_receipts st) = Ok (lf_receipts f).
Proof.
  intros Hok. unfold local_serialize. rw (local_ok_scope _ _ Hok). cbn [mbind result_bind]. split.
  - intros Hk. apply bind_Ok in Hk as (a & Ha & Hk). apply bind_Ok in Hk as (c & Hc & Hk).
    apply bind_Ok in Hk as (t & Ht & Hk%Ok_inj). by subst.
  - intros (Ha & Hc & Ht). rw Ha Hc Ht. by destruct f.
Qed.

Lemma verify_files_Ok pl f st :
  verify_files pl (Some (lf_audit f)) (Some (lf_checkpoint f)) (Some (lf_receipts f)) = Ok st ↔
  local_ok pl st ∧ vs_audit_events_after_checkpoint st = events_after st ∧ local_serialize pl st = Ok f.
Proof.
  unfold verify_files. split.
  - intros Hk. apply bind_Ok in Hk as (l & [Hl Hla]%audit_parse_Ok & Hk).
    apply bind_Ok in Hk as (k & [Hc Hkc]%checkpoint_parse_Ok & Hk).
    apply bind_Ok in Hk as (r & [Hr Hrr]%receipts_parse_Ok & Hk).
    apply reject_if_bind in Hk as [Hg Hk]. apply bind_Ok in Hk as (i & Hi%ok_or_Ok & Hst%Ok_inj). to_prop.
    assert (local_ok pl st) as Hok by (subst st; constructor; cbn; try done; by rw Hi).
    split; [done|]. split; [subst st; unfold events_after; cbn [vs_audit vs_checkpoint vs_audit_events_after_checkpoint]; by rw Hi|].
    apply local_serialize_Ok; [done|]. by subst st.
  - intros (Hok & Hn & (Ha & Hc & Hr)%(local_serialize_Ok _ _ _ Hok)).
    destruct Hok as [Hl Hk Hrc Hg [i Hi]]. unfold events_after in Hn. rw Hi in Hn.
    rw (proj2 (audit_parse_Ok _ _ _ _) (conj Hl Ha)). cbn [mbind result_bind].
    rw (proj2 (checkpoint_parse_Ok _ _ _ _) (conj Hk Hc)). cbn [mbind result_bind].
    rw (proj2 (receipts_parse_Ok _ _ _ _) (conj Hrc Hr)). cbn [mbind result_bind].
    rw bool_decide_eq_true_2; [|done]. cbn [negb reject_if mbind result_bind]. rw Hi.
    cbn [ok_or mbind result_bind]. rw -Hn. by destruct st.
Qed.

(** ** Operations *)

Lemma mac_index_is_Some l m : is_Some (mac_index l m) ↔ ∃ e, e ∈ l ∧ ev_mac e = m.
Proof.
  unfold mac_index. rw fmap_is_Some. split.
  - intros [[i e] (Hi & Hm & _)%list_find_Some]. exists e. split; [by eapply list_elem_of_lookup_2|done].
  - intros (e & He & Hm). by eapply list_find_elem_of.
Qed.

Lemma latest_mac_elem l : l ≠ [] → ∃ e, e ∈ l ∧ ev_mac e = latest_mac l.
Proof.
  intros Hne. destruct (last l) as [e|] eqn:Hl; [|by apply last_None in Hl].
  exists e. unfold latest_mac. rw Hl. split; [by apply last_Some_elem_of|done].
Qed.

Lemma audit_genesis_digest_app l l' : l ≠ [] → audit_genesis_digest (l ++ l') = audit_genesis_digest l.
Proof. by destruct l. Qed.

Lemma authenticate_checkpoint_Ok key k u k' :
  LocalCheckpoint_authenticate key k = (Ok u, k') ↔
  LocalCheckpoint_validate_shape k = Ok () ∧
  ∃ m, hmac_sha256 key (LocalCheckpoint_mac_preimage k) = Ok m ∧ k' = set_checkpoint_mac m k.
Proof.
  unfold LocalCheckpoint_authenticate, authenticate_local_document. destruct u.
  destruct (LocalCheckpoint_validate_shape k) as [[]|]; cbn [mbind result_bind]; [|naive_solver].
  destruct (hmac_sha256 _ _); cbn; naive_solver.
Qed.

Lemma authenticate_receipts_Ok key r u r' :
  LocalReceipts_authenticate key r = (Ok u, r') →
  LocalReceipts_validate_shape r = Ok () ∧
  ∃ m, hmac_sha256 key (LocalReceipts_mac_preimage r) = Ok m ∧
    r' = set_receipts (lr_latest_transfer r) (lr_latest_backup r) (lr_latest_backup_verification r)
           (lr_latest_restore_drill r) m r.
Proof.
  unfold LocalReceipts_authenticate, authenticate_local_document.
  destruct (LocalReceipts_validate_shape r) as [[]|]; cbn [mbind result_bind]; [|naive_solver].
  destruct (hmac_sha256 _ _); cbn; naive_solver.
Qed.

Lemma authenticated_checkpoint_ok scope key k u k' :
  LocalCheckpoint_authenticate key k = (Ok u, k') → ck_scope k = scope → checkpoint_ok scope key k'.
Proof.
  intros (Hs & m & Hm & ->)%authenticate_checkpoint_Ok Hsc.
  constructor; [exact Hs|exact Hsc|exact Hm].
Qed.

Lemma authenticated_receipts_ok scope key r u r' :
  LocalReceipts_authenticate key r = (Ok u, r') → lr_scope r = scope → receipts_ok scope key r'.
Proof.
  intros (Hs & m & Hm & ->)%authenticate_receipts_Ok Hsc. constructor; [exact Hs|exact Hsc|exact Hm].
Qed.

Lemma zoom_Ok {E W W' A} (get : W → W') set (m : eff E W' A) w a w1 :
  zoom get set m w = (Ok a, w1) ↔ ∃ w', m (get w) = (Ok a, w') ∧ w1 = set w' w.
Proof. unfold zoom. destruct (m (get w)) as [[b|e] w']; naive_solver. Qed.

Lemma gets_bind {E W A B} (f : W → A) (k : A → eff E W B) w : (gets f ≫= k) w = k (f w) w.
Proof. done. Qed.

Lemma lift_bind_Ok {E W A B} (x : result E A) (k : A → eff E W B) w b w' :
  (lift x ≫= k) w = (Ok b, w') ↔ ∃ a, x = Ok a ∧ k a w = (Ok b, w').
Proof. rw eff_bind_Ok. setoid_rewrite lift_Ok. naive_solver. Qed.

(** A successful [record_audit] followed by [authenticate]. *)
Lemma rebound_Ok pl mac ts k u v k1 k2 :
  LocalCheckpoint_record_audit mac ts k = (Ok u, k1) →
  LocalCheckpoint_authenticate (pl_checkpoint_key pl) k1 = (Ok v, k2) →
  checkpoint_ok (pl_scope pl) (pl_checkpoint_key pl) k →
  checkpoint_ok (pl_scope pl) (pl_checkpoint_key pl) k2 ∧ ck_latest_audit_mac k2 = mac ∧
  ck_audit_genesis_digest k2 = ck_audit_genesis_digest k ∧
  ck_accepted_public_revision_hash k2 = ck_accepted_public_revision_hash k ∧
  (ck_updated_at_ms k ≤ ck_updated_at_ms k2)%N.
Proof.
  unfold LocalCheckpoint_record_audit. destruct (_ || _) eqn:Hg; [done|]. intros [= <- <-] Ha Hk. to_prop.
  split; [eapply authenticated_checkpoint_ok; [done|apply Hk]|].
  apply authenticate_checkpoint_Ok in Ha as (_ & m & _ & ->). done.
Qed.

Lemma rebound_local_ok pl st l k after :
  local_ok pl st → log_ok (pl_scope pl) (pl_audit_key pl) l →
  audit_genesis_digest l = audit_genesis_digest (vs_audit st) →
  checkpoint_ok (pl_scope pl) (pl_checkpoint_key pl) k → ck_latest_audit_mac k = latest_mac l →
  ck_audit_genesis_digest k = ck_audit_genesis_digest (vs_checkpoint st) →
  local_ok pl {| vs_audit := l; vs_checkpoint := k; vs_receipts := vs_receipts st;
    vs_audit_events_after_checkpoint := after |}.
Proof.
  intros [_ _ Hr Hg _] Hl Hgl Hk Hm Hgk. constructor; cbn; try done; [congruence|].
  apply mac_index_is_Some. rw Hm. apply latest_mac_elem. apply Hl.
Qed.

Lemma append_event_Ok pl draft st u st' :
  append_event pl draft st = (Ok u, st') → local_ok pl st →
  local_ok pl st' ∧ (∃ e, vs_audit st' = vs_audit st ++ [e]) ∧
  ck_latest_audit_mac (vs_checkpoint st') = latest_mac (vs_audit st') ∧
  ck_accepted_public_revision_hash (vs_checkpoint st') = ck_accepted_public_revision_hash (vs_checkpoint st).
Proof.
  unfold append_event. rewrite -> gets_bind. intros Hrun Hok.
  apply lift_bind_Ok in Hrun as (_ & _ & Hrun).
  apply eff_bind_Ok in Hrun as ([] & st1 & (l & Hl & ->)%zoom_Ok & Hrun). rewrite -> gets_bind in Hrun.
  apply eff_bind_Ok in Hrun as ([] & st2 & (k1 & Hk1 & ->)%zoom_Ok & Hrun).
  apply eff_bind_Ok in Hrun as ([] & st3 & (k2 & Hk2 & ->)%zoom_Ok & Hrun). injection Hrun as _ <-.
  cbn [vs_audit vs_checkpoint vs_receipts] in *.
  apply append_Ok in Hl as (Hlog & _ & m & ->); [|apply Hok].
  destruct (rebound_Ok _ _ _ _ _ _ _ _ Hk1 Hk2 ltac:(apply Hok)) as (Hck & Hm & Hg & Ha & _).
  split_and!; [|by eexists|done|done]. apply rebound_local_ok; try done.
  apply audit_genesis_digest_app, (lo_nonempty _ _ _ (so_audit _ _ Hok)).
Qed.

Lemma accept_audit_tail_Ok pl ts st u st' :
  accept_audit_tail pl ts st = (Ok u, st') → local_ok pl st →
  local_ok pl st' ∧ vs_audit st' = vs_audit st ∧
  (ck_latest_audit_mac (vs_checkpoint st') = latest_mac (vs_audit st) ∨
   ck_latest_audit_mac (vs_checkpoint st') = ck_latest_audit_mac (vs_checkpoint st)) ∧
  ck_accepted_public_revision_hash (vs_checkpoint st') = ck_accepted_public_revision_hash (vs_checkpoint st).
Proof.
  unfold accept_audit_tail. rewrite -> gets_bind. intros Hrun Hok.
  apply lift_bind_Ok in Hrun as (_ & _ & Hrun). unfold id in Hrun.
  destruct (Nat.eqb _ 0); [injection Hrun as _ <-; auto|].
  apply eff_bind_Ok in Hrun as ([] & st2 & (k1 & Hk1 & ->)%zoom_Ok & Hrun).
  apply eff_bind_Ok in Hrun as ([] & st3 & (k2 & Hk2 & ->)%zoom_Ok & Hrun). injection Hrun as _ <-.
  cbn [vs_audit vs_checkpoint vs_receipts] in *.
  destruct (rebound_Ok _ _ _ _ _ _ _ _ Hk1 Hk2 ltac:(apply Hok)) as (Hck & Hm & Hg & Ha & _).
  split_and!; [|done|by left|done]. apply rebound_local_ok; try done. apply Hok.
Qed.

Lemma accept_candidate_Ok pl c ts st rel st' :
  accept_candidate pl c ts st = (Ok rel, st') → local_ok pl st →
  local_ok pl st' ∧ vs_audit st' = vs_audit st ∧
  ck_latest_audit_mac (vs_checkpoint st') = ck_latest_audit_mac (vs_checkpoint st) ∧
  relation_to c (vs_checkpoint st) = Ok rel ∧ rel ≠ CR_Divergent ∧
  ∃ seq, last_key_value (cc_policy_history c) =
    Some (seq, ck_accepted_public_revision_hash (vs_checkpoint st')).
Proof.
  unfold accept_candidate. rewrite -> gets_bind. intros Hrun Hok.
  apply lift_bind_Ok in Hrun as (_ & _ & Hrun). apply lift_bind_Ok in Hrun as (_ & _ & Hrun).
  apply lift_bind_Ok in Hrun as (rel' & Hrel & Hrun). unfold id in Hrel.
  apply eff_bind_Ok in Hrun as ([] & st1 & Hm & Hrun). injection Hrun as -> ->.
  destruct rel; [| |done].
  - injection Hm as <-. split_and!; try done. unfold relation_to in Hrel.
    destruct (_ || _); [done|]. apply bind_Ok in Hrel as ([seq h] & Hl%ok_or_Ok & Hrel).
    case_bool_decide; [|by destruct (list_find _ _) as [[? [??]]|]; cbn in Hrel; [case_match|]].
    exists seq. by subst.
  - apply eff_bind_Ok in Hm as ([] & st2 & (k1 & Hk1 & ->)%zoom_Ok & Hm).
    apply zoom_Ok in Hm as (k2 & Hk2 & ->). cbn [vs_audit vs_checkpoint vs_receipts] in *.
    unfold LocalCheckpoint_advance in Hk1. destruct (_ <? _)%N; [done|].
    destruct (current_policy c) as [[seq h]|] eqn:Hc; [|done]. injection Hk1 as <-.
    pose proof (authenticated_checkpoint_ok (pl_scope pl) _ _ _ _ Hk2 ltac:(apply Hok)) as Hck.
    apply authenticate_checkpoint_Ok in Hk2 as (_ & m & _ & ->).
    split_and!; try done; [|exists seq; by apply ok_or_Ok in Hc]. destruct Hok. by constructor.
Qed.

Lemma record_receipt_Ok pl upd st u st' :
  record_receipt pl upd st = (Ok u, st') → local_ok pl st →
  local_ok pl st' ∧ vs_audit st' = vs_audit st ∧ vs_checkpoint st' = vs_checkpoint st.
Proof.
  unfold record_receipt. rewrite -> gets_bind. intros Hrun Hok.
  apply lift_bind_Ok in Hrun as (_ & _ & Hrun). apply lift_bind_Ok in Hrun as (_ & _ & Hrun).
  apply eff_bind_Ok in Hrun as ([] & st1 & (r1 & Hr1 & ->)%zoom_Ok & Hm).
  apply zoom_Ok in Hm as (r2 & Hr2 & ->). cbn [vs_audit vs_checkpoint vs_receipts] in *.
  split_and!; [|done|done]. destruct Hok as [Ha Hk Hr Hg Hi]. constructor; try done. cbn.
  eapply authenticated_receipts_ok; [done|]. rewrite <- (ro_scope _ _ _ Hr).
  unfold LocalReceipts_update in Hr1. destruct upd; case_match; by simplify_eq.
Qed.

(** ** The first state *)

Lemma elem_of_range n x : x ∈ range_u64 n ↔ (x < N.of_nat n)%N.
Proof.
  unfold range_u64. rw list_elem_of_fmap. setoid_rewrite elem_of_seq. split.
  - intros (i & -> & ?). lia.
  - intros Hx. exists (N.to_nat x). lia.
Qed.

Lemma last_key_elem {V} (m : gmap N V) i v : last_key_value m = Some (i, v) → m !! i = Some v.
Proof. unfold last_key_value. intros Hl%last_Some_elem_of. by apply elem_of_entries in Hl. Qed.

(** The sequence numbers of a candidate in scope are [u64]s. *)
Lemma candidate_sequence c scope seq h :
  validate_candidate_scope c scope = Ok () → last_key_value (cc_policy_history c) = Some (seq, h) →
  (seq < u64_max)%N.
Proof.
  intros Hv%reject_if_Ok Hl%last_key_elem. to_prop.
  match goal with Hk : keys _ = _ |- _ => rename Hk into Hkeys end.
  match goal with He : existsb _ _ = false |- _ => rename He into Hex end.
  assert (seq ∈ keys (cc_policy_history c)) as Hs by (apply elem_of_keys; eauto).
  rw Hkeys elem_of_range in Hs. destruct (decide (seq < u64_max)%N) as [|Hge]; [done|exfalso].
  assert (u64_max ∈ keys (cc_policy_history c)) as Hu by (rw Hkeys elem_of_range; lia).
  apply elem_of_keys in Hu as [v Hv]. apply elem_of_entries in Hv.
  assert (existsb (λ '(sequence, hash), digest_is_zero hash || (sequence =? u64_max)%N)
    (entries (cc_policy_history c)) = true) as Ht; [|congruence].
  apply existsb_exists. exists (u64_max, v). split; [by apply list_elem_of_In|].
  apply orb_true_iff. right. by apply N.eqb_eq.
Qed.

Lemma run_local_Ok {W A} (m : eff LocalStateErrorKind W A) w w' :
  run_local m w = Ok w' ↔ ∃ a, m w = (Ok a, w').
Proof. unfold run_local. destruct (m w) as [[a|e] w1]; naive_solver. Qed.

Lemma local_initialize_Ok `{!EventJson} pl c ts st :
  local_initialize pl c ts = Ok st → LocalStateScope_wt (pl_scope pl) = true →
  local_ok pl st ∧ ck_latest_audit_mac (vs_checkpoint st) = latest_mac (vs_audit st) ∧
  ∃ seq, last_key_value (cc_policy_history c) =
    Some (seq, ck_accepted_public_revision_hash (vs_checkpoint st)).
Proof.
  unfold local_initialize. intros Hk Hw. apply bind_Ok in Hk as ([] & Hv & Hk).
  apply bind_Ok in Hk as ([seq h] & Hc & Hk). apply bind_Ok in Hk as (k0 & Hi & Hk).
  unfold LocalCheckpoint_initial in Hi. rw Hc in Hi. apply Ok_inj in Hi. apply ok_or_Ok in Hc.
  apply bind_Ok in Hk as (l & Hl & Hk). apply bind_Ok in Hk as (k & [[] Hka]%run_local_Ok & Hk).
  apply bind_Ok in Hk as (r & [[] Hra]%run_local_Ok & Hk%Ok_inj). subst st.
  cbn [vs_audit vs_checkpoint vs_receipts].
  apply initialize_Ok in Hl as (Hlog & Hg & _); [|done|unfold u64; split_guard;
    pose proof (candidate_sequence _ _ _ _ Hv Hc); lia|subst k0; apply fixed_length, sha256_length].
  pose proof (authenticated_checkpoint_ok (pl_scope pl) _ _ _ _ Hka ltac:(by subst k0)) as Hck.
  pose proof (authenticated_receipts_ok (pl_scope pl) _ _ _ _ Hra eq_refl) as Hrk.
  apply authenticate_checkpoint_Ok in Hka as (_ & m & _ & ->).
  split_and!; [|done|exists seq; by subst k0]. constructor; cbn; try done.
  apply mac_index_is_Some. apply latest_mac_elem. apply Hlog.
Qed.
End files.
