(* ===== verification/LocalStateTheorems.v ===== *)
(** * Theorems about the local state

    What a principal's three files promise over a history of operations, across
    restarts at which someone else may have replaced the vault, the audit log and
    the receipts: only the checkpoint is retained. *)

From S2P Require Import Prelude Json VaultTypes Canonical Preimage Binding PolicyState Identifiers Replay ReplayTheorems PolicyTheorems Effects LocalAudit LocalAuditLog LocalCheckpoint LocalReceipts LocalState LocalStateFiles.
Local Open Scope jury_scope.

Section candidates.
Context `{Crypto}.
Implicit Types (j : PolicyJournalV1) (c : CheckpointCandidate).

(** ** Candidates *)

Lemma entries_sorted {V} (m : gmap N V) : StronglySorted entry_le (entries m).
Proof.
  unfold entries. apply StronglySorted_merge_sort.
  - intros x y z. unfold entry_le. apply ord_le_trans.
  - intros x y. unfold entry_le. apply ord_le_total.
Qed.

Lemma sorted_last_max {A} (R : A → A → Prop) l x y :
  (∀ z, R z z) → StronglySorted R l → last l = Some x → y ∈ l → R y x.
Proof.
  intros Hr. induction 1 as [|z l Hs IH Hall]; [done|]. intros Hl Hy. destruct l as [|w l].
  - injection Hl as ->. apply list_elem_of_singleton in Hy as ->. apply Hr.
  - rw last_cons_cons in Hl. apply elem_of_cons in Hy as [->|Hy]; [|by apply IH].
    eapply Forall_forall; [exact Hall|]. by apply last_Some_elem_of.
Qed.

Lemma last_key_max {V} (m : gmap N V) i v i' v' :
  last_key_value m = Some (i, v) → m !! i' = Some v' → (i' ≤ i)%N.
Proof.
  intros Hl Hi%elem_of_entries.
  assert (entry_le (i', v') (i, v)) as Hle.
  { eapply sorted_last_max; [|apply entries_sorted|exact Hl|exact Hi].
    intros z. unfold entry_le, ord_le. by rw cmp_refl. }
  unfold entry_le, ord_le, cmp, N_ord in Hle. cbn in Hle. by apply N.compare_le_iff in Hle.
Qed.

(** The hashes of a journal's prefixes, by sequence number. *)
Record history_of (fp : Digest32) (revs : list SignedPolicyRevisionV1) (h : gmap N Digest32) : Prop := {
  ho_linked i t : h !! i = Some t → (i ≤ len revs)%N ∧ linked fp (take (N.to_nat i) revs) t;
  ho_last : is_Some (h !! len revs);
}.

Lemma history_snoc fp revs h r t t' :
  history_of fp revs h → linked fp revs t → pr_previous_revision_hash r = t →
  SignedPolicyRevisionV1_recomputed_hash r = Ok t' →
  history_of fp (revs ++ [r]) (<[(len revs + 1)%N := t']> h).
Proof.
  intros [Hh Hl] Ht Hp Hr. constructor.
  - intros i u. rw len_app. change (len [r]) with 1%N. rw lookup_insert_Some.
    intros [[<- <-]|[Hne Hi]].
    + split; [done|]. rw take_ge; [|rw length_app /=; unfold len; lia]. by econstructor.
    + apply Hh in Hi as [Hle Hi]. split; [lia|]. rw take_app_le; [done|]. unfold len in Hle. lia.
  - rw len_app. change (len [r]) with 1%N. by rw lookup_insert_eq.
Qed.

Lemma history_loop policy fp revs n t h :
  foldE (history_step policy) (0%N, fp, {[0%N := fp]}) revs = Ok (n, t, h) →
  n = len revs ∧ linked fp revs t ∧ history_of fp revs h.
Proof.
  intros Hf. set (I := λ (pre : list SignedPolicyRevisionV1) (a : N * Digest32 * gmap N Digest32),
    a.1.1 = len pre ∧ linked fp pre a.1.2 ∧ history_of fp pre a.2).
  apply (foldE_invariant I _) with (pre := []) in Hf; [done| |].
  - intros pre [[i prev] hist] r [[i' prev'] hist'] (Hi & Hl & Hh) Hs. cbn in Hi, Hl, Hh. subst i.
    unfold history_step in Hs. apply bind_Ok in Hs as (s & [-> _]%ok_or_Ok%checked_add_Some & Hs).
    apply reject_if_bind in Hs as [Hg Hs]. apply bind_Ok in Hs as (t' & Ht%map_err_Ok & Hs%Ok_inj).
    injection Hs as <- <- <-. to_prop. unfold I. cbn. rw len_app. change (len [r]) with 1%N.
    split_and!; [done|by econstructor|by eapply history_snoc].
  - unfold I. cbn. split_and!; [done|constructor|]. constructor; [|by rw lookup_singleton_eq].
    intros i u [<- <-]%lookup_singleton_Some. split; [done|constructor].
Qed.

(** What [from_validated] establishes of the journal. *)
Lemma from_validated_Ok policy j envelopes c :
  CheckpointCandidate_from_validated policy j envelopes = Ok c →
  PolicyGenesisV1_recomputed_fingerprint (pj_genesis j) = Ok (cc_genesis_fingerprint c) ∧
  history_of (cc_genesis_fingerprint c) (pj_revisions j) (cc_policy_history c).
Proof.
  unfold CheckpointCandidate_from_validated. intros Hk. apply bind_Ok in Hk as (fp & Hfp%map_err_Ok & Hk).
  apply reject_if_bind in Hk as [_ Hk]. apply bind_Ok in Hk as ([[n t] h] & Hf & Hk).
  apply history_loop in Hf as (_ & _ & Hh).
  apply reject_if_bind in Hk as [_ Hk]. apply bind_Ok in Hk as (_ & _ & Hk).
  apply bind_Ok in Hk as (_ & _ & Hk). apply reject_if_bind in Hk as [_ Hc%Ok_inj]. by subst c.
Qed.

Definition journal_prefix j (n : nat) : PolicyJournalV1 := with_revisions j (take n (pj_revisions j)).

Lemma candidate_history policy j envelopes c i h :
  CheckpointCandidate_from_validated policy j envelopes = Ok c → cc_policy_history c !! i = Some h →
  (i ≤ len (pj_revisions j))%N ∧ journal_linked (journal_prefix j (N.to_nat i)) h.
Proof.
  intros [Hfp [Hh _]]%from_validated_Ok [Hle Hl]%Hh. split; [done|]. by exists (cc_genesis_fingerprint c).
Qed.

(** The current hash is that of the whole journal. *)
Lemma candidate_current policy j envelopes c i h :
  CheckpointCandidate_from_validated policy j envelopes = Ok c →
  last_key_value (cc_policy_history c) = Some (i, h) → journal_linked j h.
Proof.
  intros Hc Hl. pose proof (last_key_elem _ _ _ Hl) as Hi.
  destruct (candidate_history _ _ _ _ _ _ Hc Hi) as [Hle Hj].
  apply from_validated_Ok in Hc as [_ [_ [v Hv]]]. pose proof (last_key_max _ _ _ _ _ Hl Hv) as Hge.
  unfold journal_prefix in Hj. rw take_ge in Hj; [by destruct j|]. unfold len in *. lia.
Qed.
End candidates.

Section histories.
Context `{Crypto} `{Hmac} `{!Json AuditEvent, !JsonLine AuditEvent, !EventJson}.
Context `{!Json LocalCheckpoint, !JsonPretty LocalCheckpoint}.
Context `{!Json LocalReceipts, !JsonPretty LocalReceipts}.
Implicit Types (pl : PrincipalLocalState) (st : VerifiedLocalState) (j : PolicyJournalV1) (c : CheckpointCandidate).

Abbreviation accepted st := (ck_accepted_public_revision_hash (vs_checkpoint st)).

(** ** Histories

    A state with the journal it was last checked against. At a restart the
    checkpoint is the one that was written; the audit log and the receipts are
    whatever is found. *)
Inductive local_step pl : VerifiedLocalState * PolicyJournalV1 → VerifiedLocalState * PolicyJournalV1 → Prop :=
  | ls_event draft st j u st' :
      append_event pl draft st = (Ok u, st') → local_step pl (st, j) (st', j)
  | ls_tail ts st j u st' :
      accept_audit_tail pl ts st = (Ok u, st') → local_step pl (st, j) (st', j)
  | ls_receipt update st j u st' :
      record_receipt pl update st = (Ok u, st') → local_step pl (st, j) (st', j)
  | ls_candidate policy envelopes c ts rel st j st' j' :
      CheckpointCandidate_from_validated policy j' envelopes = Ok c →
      accept_candidate pl c ts st = (Ok rel, st') → local_step pl (st, j) (st', j')
  | ls_restart audit checkpoint receipts st j st' :
      LocalCheckpoint_to_bytes (vs_checkpoint st) = Ok checkpoint →
      verify_files pl audit (Some checkpoint) receipts = Ok st' → local_step pl (st, j) (st', j).

Inductive local_trace pl : list (VerifiedLocalState * PolicyJournalV1) → Prop :=
  | lt_start policy envelopes c ts j st :
      CheckpointCandidate_from_validated policy j envelopes = Ok c →
      local_initialize pl c ts = Ok st → local_trace pl [(st, j)]
  | lt_step tr x y :
      local_trace pl (tr ++ [x]) → local_step pl x y → local_trace pl ((tr ++ [x]) ++ [y]).

Lemma relation_to_history c k rel :
  relation_to c k = Ok rel → rel ≠ CR_Divergent →
  ∃ i, cc_policy_history c !! i = Some (ck_accepted_public_revision_hash k).
Proof.
  unfold relation_to. destruct (_ || _); [by intros [= <-]|]. intros Hk Hne.
  apply bind_Ok in Hk as ([s h] & Hl%ok_or_Ok & Hk). case_bool_decide as Hh.
  { exists s. subst h. by apply last_key_elem. }
  destruct (list_find _ _) as [[i [s' h']]|] eqn:Hf; [|by injection Hk as <-].
  apply list_find_Some in Hf as (Hf & Hh' & _). cbn in Hh'. subst h'. exists s'.
  apply elem_of_entries. by eapply list_elem_of_lookup_2.
Qed.

Lemma checkpoint_text_inj k k' text :
  LocalCheckpoint_to_bytes k = Ok text → LocalCheckpoint_to_bytes k' = Ok text → k = k'.
Proof.
  unfold LocalCheckpoint_to_bytes. rewrite <- !parse_document_Ok. intros Hk. rw Hk. by intros [= ->].
Qed.

Lemma restart_Ok pl audit text receipts st st' :
  LocalCheckpoint_to_bytes (vs_checkpoint st) = Ok text →
  verify_files pl audit (Some text) receipts = Ok st' →
  local_ok pl st' ∧ vs_checkpoint st' = vs_checkpoint st.
Proof.
  intros Hk Hv. destruct audit as [a|], receipts as [r|]; [|done..].
  apply (verify_files_Ok pl {| lf_audit := a; lf_checkpoint := text; lf_receipts := r |}) in Hv
    as (Hok & _ & Hs). split; [done|].
  apply local_serialize_Ok in Hs as (_ & Hk' & _); [|done]. by eapply checkpoint_text_inj.
Qed.

(** A state that was reached: well formed, and its checkpoint is the end of its
    journal. *)
Definition reached pl (x : VerifiedLocalState * PolicyJournalV1) : Prop :=
  local_ok pl x.1 ∧ journal_linked x.2 (accepted x.1).

Lemma local_step_reached pl x y : local_step pl x y → reached pl x → reached pl y.
Proof.
  unfold reached. intros Hs [Hok Hj]. destruct Hs as [draft st j u st' Hr|ts st j u st' Hr|upd st j u st' Hr|
    policy envelopes c ts rel st j st' j' Hc Hr|a k r st j st' Hk Hv]; cbn in *.
  - destruct (append_event_Ok _ _ _ _ _ Hr Hok) as (? & _ & _ & ->). done.
  - destruct (accept_audit_tail_Ok _ _ _ _ _ Hr Hok) as (? & _ & _ & ->). done.
  - destruct (record_receipt_Ok _ _ _ _ _ Hr Hok) as (? & _ & ->). done.
  - destruct (accept_candidate_Ok _ _ _ _ _ _ Hr Hok) as (? & _ & _ & _ & _ & seq & Hl).
    split; [done|]. by eapply candidate_current.
  - destruct (restart_Ok _ _ _ _ _ _ Hk Hv) as [? ->]. done.
Qed.

Lemma local_trace_reached pl tr x :
  local_trace pl tr → LocalStateScope_wt (pl_scope pl) = true → x ∈ tr → reached pl x.
Proof.
  intros Ht Hw. revert x. induction Ht as [policy envelopes c ts j st Hc Hi|tr x y Ht IH Hs]; intros z Hz.
  - apply list_elem_of_singleton in Hz as ->. destruct (local_initialize_Ok _ _ _ _ Hi Hw) as (? & _ & seq & Hl).
    split; [done|]. by eapply candidate_current.
  - apply elem_of_app in Hz as [Hz|Hz%list_elem_of_singleton]; [by apply IH|subst z].
    eapply local_step_reached; [exact Hs|]. apply IH. clear. set_solver.
Qed.

(** ** The checkpoint *)

(** [j'] continues [j], up to the fields no hash covers. *)
Definition extends j j' : Prop := ∃ n, erase_journal j = erase_journal (journal_prefix j' n).

Lemma extends_refl j : extends j j.
Proof. exists (length (pj_revisions j)). unfold journal_prefix. rw take_ge; [|done]. by destruct j. Qed.

Lemma erase_prefix j n :
  erase_journal (journal_prefix j n) = journal_prefix (erase_journal j) n.
Proof. unfold erase_journal, journal_prefix. cbn. f_equal. apply fmap_take. Qed.

Lemma extends_trans j1 j2 j3 : extends j1 j2 → extends j2 j3 → extends j1 j3.
Proof.
  intros [n Hn] [m Hm]. exists (min n m). rw Hn !erase_prefix Hm erase_prefix.
  unfold journal_prefix. cbn. by rw take_take.
Qed.

Lemma extends_length j j' : extends j j' → length (pj_revisions j) ≤ length (pj_revisions j').
Proof.
  intros [n Hn%(f_equal (λ j, length (pj_revisions j)))]. cbn in Hn. rw !length_fmap length_take in Hn. lia.
Qed.

(** The strings hashed and authenticated in a history. *)
Definition trace_preimages (tr : list (VerifiedLocalState * PolicyJournalV1)) : list bytes :=
  concat (journal_preimages <$> tr.*2).

Lemma trace_preimages_elem tr x : x ∈ tr → journal_preimages x.2 ⊆ trace_preimages tr.
Proof.
  intros Hx p Hp. apply list_elem_of_In, in_concat. exists (journal_preimages x.2).
  split; apply list_elem_of_In; [|done]. apply list_elem_of_fmap_2. by apply list_elem_of_fmap_2.
Qed.

(** A vault that is accepted continues the one accepted before. *)
Lemma accepted_extends pl policy envelopes c ts rel st j st' j' :
  CheckpointCandidate_from_validated policy j' envelopes = Ok c →
  accept_candidate pl c ts st = (Ok rel, st') → local_ok pl st → journal_linked j (accepted st) →
  PolicyJournalV1_wt j = true → PolicyJournalV1_wt j' = true →
  collision_free (journal_preimages j ++ journal_preimages j') → extends j j'.
Proof.
  intros Hc Hr Hok Hj Hw Hw' Hcf.
  destruct (accept_candidate_Ok _ _ _ _ _ _ Hr Hok) as (_ & _ & _ & Hrel & Hne & _).
  destruct (relation_to_history _ _ _ Hrel Hne) as [i Hi].
  destruct (candidate_history _ _ _ _ _ _ Hc Hi) as [_ Hj']. exists (N.to_nat i).
  eapply journal_linked_inj; [done|by apply wt_take|done|done|].
  eapply collision_free_sub, Hcf. intros p. rw !elem_of_app.
  intros [?|?%journal_preimages_take]; auto.
Qed.

Lemma local_step_extends pl x y :
  local_step pl x y → reached pl x → PolicyJournalV1_wt x.2 = true → PolicyJournalV1_wt y.2 = true →
  collision_free (journal_preimages x.2 ++ journal_preimages y.2) → extends x.2 y.2.
Proof.
  intros Hs [Hok Hj] Hw Hw' Hcf. destruct Hs as [| | |policy envelopes c ts rel st j st' j' Hc Hr|];
    [apply extends_refl..| |apply extends_refl]. by eapply accepted_extends.
Qed.

(** Facts along a history, from facts about steps. *)
Lemma local_trace_steps pl (R : VerifiedLocalState * PolicyJournalV1 → VerifiedLocalState * PolicyJournalV1 → Prop) tr :
  Reflexive R → Transitive R → local_trace pl tr →
  (∀ x y, x ∈ tr → y ∈ tr → local_step pl x y → R x y) →
  ∀ i k x y, tr !! i = Some x → tr !! k = Some y → i ≤ k → R x y.
Proof.
  intros HR HT Ht. induction Ht as [policy envelopes c ts j st Hc Hi|tr x y Ht IH Hs]; intros Hsteps i k a b Ha Hb Hik.
  - assert (i = 0 ∧ k = 0) as [-> ->]; [|by simplify_eq].
    apply lookup_lt_Some in Ha, Hb. cbn in *. lia.
  - assert (∀ x' y', x' ∈ tr ++ [x] → y' ∈ tr ++ [x] → local_step pl x' y' → R x' y') as Hst.
    { intros x' y' Hx Hy. apply Hsteps; apply elem_of_app; by left. }
    apply lookup_app_Some in Hb as [Hb|[Hle Hb]].
    { rw lookup_app_l in Ha; [|apply lookup_lt_Some in Hb; lia]. by eapply IH. }
    apply list_lookup_singleton_Some in Hb as [Hk <-].
    apply lookup_app_Some in Ha as [Ha|[Hle' Ha]];
      [|by apply list_lookup_singleton_Some in Ha as [_ <-]].
    transitivity x.
    + eapply IH; [done|exact Ha|apply list_lookup_middle; reflexivity|].
      apply lookup_lt_Some in Ha. rw length_app in Ha. cbn in Ha. lia.
    + apply Hsteps; [clear; set_solver|clear; set_solver|done].
Qed.

(** ** The audit log *)

(** The log up to the event the checkpoint names. *)
Definition checkpointed st : list AuditEvent :=
  if mac_index (vs_audit st) (ck_latest_audit_mac (vs_checkpoint st)) is Some i
  then take (S i) (vs_audit st) else [].

Lemma checkpointed_Ok pl st :
  local_ok pl st →
  audit_chain (pl_scope pl) (pl_audit_key pl) (checkpointed st) ∧ checkpointed st ≠ [] ∧
  starts_with_creation (checkpointed st) ∧
  latest_mac (checkpointed st) = ck_latest_audit_mac (vs_checkpoint st) ∧
  checkpointed st `prefix_of` vs_audit st.
Proof.
  intros [[Hc Hne Hst _ _] _ _ _ [i Hi]]. unfold checkpointed. rw Hi. unfold mac_index in Hi.
  destruct (list_find _ _) as [[i' e]|] eqn:Hf; [|done]. injection Hi as ->.
  apply list_find_Some in Hf as (He & Hm & _).
  assert (take (S i) (vs_audit st) = take i (vs_audit st) ++ [e]) as Htk by by apply take_S_r.
  split_and!.
  - by apply audit_chain_take.
  - rw Htk. intros Hn. by destruct (app_cons_not_nil (take i (vs_audit st)) [] e).
  - unfold starts_with_creation in *. by destruct (vs_audit st).
  - by rw Htk latest_mac_snoc.
  - by apply prefix_take.
Qed.

Lemma forallb_prefix {A} (f : A → bool) (l k : list A) : l `prefix_of` k → forallb f k = true → forallb f l = true.
Proof. intros [t ->]. rw forallb_app. by intros [? _]%andb_true_iff. Qed.

(** The checkpointed log is the only one with its last MAC. *)
Lemma checkpointed_unique pl st l :
  local_ok pl st → audit_chain (pl_scope pl) (pl_audit_key pl) l → l ≠ [] → starts_with_creation l →
  latest_mac l = ck_latest_audit_mac (vs_checkpoint st) →
  forallb AuditEvent_wt (vs_audit st) = true → forallb AuditEvent_wt l = true →
  mac_collision_free (pl_audit_key pl) (log_preimages (vs_audit st ++ l)) →
  collision_free (link_preimages (vs_audit st ++ l)) → checkpointed st = l.
Proof.
  intros Hok Hl Hne Hst Hm Hw Hw' Hcm Hch.
  destruct (checkpointed_Ok _ _ Hok) as (Hc & Hne' & Hst' & Hm' & Hp).
  assert (checkpointed st ++ l ⊆ vs_audit st ++ l) as Hsub.
  { destruct Hp as [t Ht]. rw Ht. clear. set_solver. }
  eapply audit_chain_inj; try done; [by rw Hm' Hm|by eapply forallb_prefix|..].
  - rewrite <- log_preimages_app. eapply mac_collision_free_sub, Hcm. by apply log_preimages_sub.
  - rewrite <- link_preimages_app. eapply collision_free_sub, Hch. by apply link_preimages_sub.
Qed.

Definition keeps_audit (x y : VerifiedLocalState * PolicyJournalV1) : Prop :=
  checkpointed x.1 `prefix_of` checkpointed y.1.

Lemma local_step_keeps_audit pl x y :
  local_step pl x y → local_ok pl x.1 → local_ok pl y.1 →
  forallb AuditEvent_wt (vs_audit x.1) = true → forallb AuditEvent_wt (vs_audit y.1) = true →
  mac_collision_free (pl_audit_key pl) (log_preimages (vs_audit x.1 ++ vs_audit y.1)) →
  collision_free (link_preimages (vs_audit x.1 ++ vs_audit y.1)) → keeps_audit x y.
Proof.
  intros Hs Hok Hok' Hw Hw' Hcm Hch. unfold keeps_audit.
  assert (latest_mac (vs_audit y.1) = ck_latest_audit_mac (vs_checkpoint y.1) →
    checkpointed y.1 = vs_audit y.1) as Hwhole.
  { intros Hm. destruct (so_audit _ _ Hok') as [Hl Hne Hst _ _]. eapply checkpointed_unique; try done.
    - eapply mac_collision_free_sub, Hcm. apply log_preimages_sub. clear. set_solver.
    - eapply collision_free_sub, Hch. apply link_preimages_sub. clear. set_solver. }
  destruct (checkpointed_Ok _ _ Hok) as (_ & _ & _ & _ & Hp).
  destruct Hs as [draft st j u st' Hr|ts st j u st' Hr|upd st j u st' Hr|
    policy envelopes c ts rel st j st' j' Hc Hr|a k r st j st' Hk Hv]; cbn in *.
  - destruct (append_event_Ok _ _ _ _ _ Hr Hok) as (_ & (e & He) & Hm & _). rw (Hwhole (eq_sym Hm)) He.
    etrans; [exact Hp|]. by exists [e].
  - destruct (accept_audit_tail_Ok _ _ _ _ _ Hr Hok) as (_ & Ha & [Hm|Hm] & _).
    + rw Hwhole Ha; done.
    + unfold checkpointed. by rw Ha Hm.
  - destruct (record_receipt_Ok _ _ _ _ _ Hr Hok) as (_ & Ha & Hk). unfold checkpointed. by rw Ha Hk.
  - destruct (accept_candidate_Ok _ _ _ _ _ _ Hr Hok) as (_ & Ha & Hm & _). unfold checkpointed. by rw Ha Hm.
  - destruct (restart_Ok _ _ _ _ _ _ Hk Hv) as [_ Hkeq].
    destruct (checkpointed_Ok _ _ Hok') as (Hc & Hne & Hst & Hm & Hp').
    rw (checkpointed_unique pl st (checkpointed st')); try done; [by rw Hm Hkeq|by eapply forallb_prefix|..].
    all: assert (vs_audit st ++ checkpointed st' ⊆ vs_audit st ++ vs_audit st') as Hsub
      by (destruct Hp' as [t Ht]; rw Ht; clear; set_solver).
    + eapply mac_collision_free_sub, Hcm. by apply log_preimages_sub.
    + eapply collision_free_sub, Hch. by apply link_preimages_sub.
Qed.

Lemma divergent_refused pl c ts st :
  local_ok pl st → validate_candidate_scope c (pl_scope pl) = Ok () →
  relation_to c (vs_checkpoint st) = Ok CR_Divergent →
  accept_candidate pl c ts st = (Err LS_CheckpointDiverged, st).
Proof.
  intros Hok Hv Hr. unfold accept_candidate. rewrite -> gets_bind. unfold id.
  unfold lift, mbind, eff_bind. rw (local_ok_scope _ _ Hok) Hv Hr. done.
Qed.

Lemma candidate_relation policy j envelopes c k :
  CheckpointCandidate_from_validated policy j envelopes = Ok c → ∃ rel, relation_to c k = Ok rel.
Proof.
  intros [_ [_ [v Hv]]]%from_validated_Ok. unfold relation_to. destruct (_ || _); [by eexists|].
  unfold last_key_value. destruct (last (entries _)) as [[i h]|] eqn:Hl.
  - cbn. destruct (bool_decide _); by eexists.
  - apply last_None in Hl. apply elem_of_entries in Hv. rw Hl in Hv. by apply not_elem_of_nil in Hv.
Qed.

Definition trace_logs (tr : list (VerifiedLocalState * PolicyJournalV1)) : list AuditEvent :=
  concat ((λ x, vs_audit x.1) <$> tr).

Lemma trace_logs_elem tr x : x ∈ tr → vs_audit x.1 ⊆ trace_logs tr.
Proof.
  intros Hx e He. apply list_elem_of_In, in_concat. exists (vs_audit x.1).
  split; apply list_elem_of_In; [|done]. by apply (list_elem_of_fmap_2 (λ x, vs_audit x.1)).
Qed.

(** ** Properties *)

(** C16: the retained checkpoint never goes back. Over any history of a
    principal's local state (events, receipts, vaults accepted, restarts with
    whatever audit log and receipts are found), every vault that was accepted
    continues every vault accepted before it, up to the fields no hash covers,
    and the checkpoint is the hash of the last one, when no two of the strings
    the journals hash collide. *)
Theorem local_checkpoint_grows pl tr i k x y :
  local_trace pl tr → LocalStateScope_wt (pl_scope pl) = true →
  forallb (λ x, PolicyJournalV1_wt x.2) tr = true → collision_free (trace_preimages tr) →
  tr !! i = Some x → tr !! k = Some y → i ≤ k →
  extends x.2 y.2 ∧ journal_linked y.2 (accepted y.1).
Proof.
  intros Ht Hs Hw Hcf Hi Hk Hle. rw forallb_eq_true Forall_forall in Hw.
  split; [|by apply (local_trace_reached pl tr); [..|eapply list_elem_of_lookup_2]].
  eapply (local_trace_steps pl (λ x y, extends x.2 y.2)); try done.
  - intros z. apply extends_refl.
  - intros a b d. apply extends_trans.
  - intros a b Ha Hb Hstep. eapply local_step_extends; [done|by eapply local_trace_reached|by apply Hw|by apply Hw|].
    eapply collision_free_sub, Hcf. apply list_subseteq_app_iff_l.
    split; by apply trace_preimages_elem.
Qed.

(** C26: the checkpoint protects the audit log. Over any such history, the
    events up to the one the checkpoint names stay the beginning of every later
    log: none is dropped, changed or reordered by whoever rewrites the file, when
    no two of the strings authenticated (or hashed for the links) collide. *)
Theorem audit_history_kept pl tr i k x y :
  local_trace pl tr → LocalStateScope_wt (pl_scope pl) = true →
  forallb AuditEvent_wt (trace_logs tr) = true →
  mac_collision_free (pl_audit_key pl) (log_preimages (trace_logs tr)) →
  collision_free (link_preimages (trace_logs tr)) →
  tr !! i = Some x → tr !! k = Some y → i ≤ k →
  checkpointed x.1 `prefix_of` vs_audit y.1.
Proof.
  intros Ht Hs Hw Hcm Hch Hi Hk Hle. rw forallb_eq_true Forall_forall in Hw.
  assert (∀ a, a ∈ tr → local_ok pl a.1) as Hok by (intros; by eapply local_trace_reached).
  assert (∀ a, a ∈ tr → forallb AuditEvent_wt (vs_audit a.1) = true) as Hwt.
  { intros a Ha. apply forallb_eq_true, Forall_forall. intros e He. apply Hw. by eapply trace_logs_elem. }
  trans (checkpointed y.1); [|apply (checkpointed_Ok pl), Hok; by eapply list_elem_of_lookup_2].
  eapply (local_trace_steps pl keeps_audit); try done.
  - intros z. unfold keeps_audit. done.
  - intros a b d Hab Hbd. unfold keeps_audit in *. by etrans.
  - intros a b Ha Hb Hstep. assert (vs_audit a.1 ++ vs_audit b.1 ⊆ trace_logs tr) as Hsub
      by (apply list_subseteq_app_iff_l; split; by apply trace_logs_elem).
    eapply local_step_keeps_audit; try done; auto.
    + eapply mac_collision_free_sub, Hcm. by apply log_preimages_sub.
    + eapply collision_free_sub, Hch. by apply link_preimages_sub.
Qed.

(** C27: a vault that does not continue the accepted one (it was rolled back, or
    it is a fork) is refused, and the state is left as it was. The error is
    [CheckpointDiverged] also for a vault that is merely behind. *)
Theorem rollback_diverges pl tr st j policy j' envelopes c ts :
  local_trace pl (tr ++ [(st, j)]) → LocalStateScope_wt (pl_scope pl) = true →
  CheckpointCandidate_from_validated policy j' envelopes = Ok c →
  validate_candidate_scope c (pl_scope pl) = Ok () → ¬ extends j j' →
  PolicyJournalV1_wt j = true → PolicyJournalV1_wt j' = true →
  collision_free (journal_preimages j ++ journal_preimages j') →
  accept_candidate pl c ts st = (Err LS_CheckpointDiverged, st).
Proof.
  intros Ht Hs Hc Hv Hne Hw Hw' Hcf.
  destruct (local_trace_reached pl _ (st, j) Ht Hs) as [Hok Hj]; [clear; set_solver|]. cbn in *.
  apply divergent_refused; [done|done|].
  destruct (candidate_relation _ _ _ _ (vs_checkpoint st) Hc) as [rel Hrel].
  assert (rel = CR_Divergent ∨ rel ≠ CR_Divergent) as [->|Hd] by (destruct rel; auto); [done|]. destruct Hne.
  destruct (relation_to_history _ _ _ Hrel Hd) as [i Hi].
  destruct (candidate_history _ _ _ _ _ _ Hc Hi) as [_ Hj']. exists (N.to_nat i).
  eapply journal_linked_inj; [done|by apply wt_take|done|done|].
  eapply collision_free_sub, Hcf. intros p. rw !elem_of_app.
  intros [?|?%journal_preimages_take]; auto.
Qed.

(** C28: what is written is read back. Every state of a history that serializes
    is accepted again by [verify_files], with the same log, checkpoint and
    receipts; in particular no sequence of operations locks a principal out of
    its files. *)
Theorem local_state_reopens pl tr x f :
  local_trace pl tr → LocalStateScope_wt (pl_scope pl) = true → x ∈ tr →
  local_serialize pl x.1 = Ok f →
  ∃ st, verify_files pl (Some (lf_audit f)) (Some (lf_checkpoint f)) (Some (lf_receipts f)) = Ok st ∧
    vs_audit st = vs_audit x.1 ∧ vs_checkpoint st = vs_checkpoint x.1 ∧ vs_receipts st = vs_receipts x.1.
Proof.
  intros Ht Hs Hx Hf. destruct (local_trace_reached _ _ _ Ht Hs Hx) as [Hok _].
  exists {| vs_audit := vs_audit x.1; vs_checkpoint := vs_checkpoint x.1; vs_receipts := vs_receipts x.1;
    vs_audit_events_after_checkpoint := events_after x.1 |}.
  split; [|done]. apply verify_files_Ok. split_and!; [|done|done]. by destruct Hok.
Qed.
End histories.
