(* ===== verification/ArtifactRelation.v ===== *)
(** * How two vault files relate

    [compare_artifacts] and [item_deltas] of [crates/jury-core/src/transfer.rs]:
    a file descends strictly from another when its journal continues the other's
    and every item's history does, or the item was deleted. *)

From S2P Require Import Prelude VaultTypes PolicyState.
Local Open Scope jury_scope.

(** [derive(PartialEq)] *)
Global Instance PolicyOperationV1_eq_dec : EqDecision PolicyOperationV1.
Proof. solve_decision. Defined.
Global Instance SignedPolicyRevisionV1_eq_dec : EqDecision SignedPolicyRevisionV1.
Proof. solve_decision. Defined.
Global Instance BootstrapManifestV1_eq_dec : EqDecision BootstrapManifestV1.
Proof. solve_decision. Defined.
Global Instance SignedRolloverV1_eq_dec : EqDecision SignedRolloverV1.
Proof. solve_decision. Defined.
Global Instance SourceAttestationV1_eq_dec : EqDecision SourceAttestationV1.
Proof. solve_decision. Defined.
Global Instance EmptyGenesisEntryV1_eq_dec : EqDecision EmptyGenesisEntryV1.
Proof. solve_decision. Defined.
Global Instance PolicyGenesisV1_eq_dec : EqDecision PolicyGenesisV1.
Proof. solve_decision. Defined.
Global Instance PolicyJournalV1_eq_dec : EqDecision PolicyJournalV1.
Proof. solve_decision. Defined.
Global Instance VaultHeaderV1_eq_dec : EqDecision VaultHeaderV1.
Proof. solve_decision. Defined.
Global Instance SignedItemRevisionV1_eq_dec : EqDecision SignedItemRevisionV1.
Proof. solve_decision. Defined.
Global Instance ItemEnvelopeV1_eq_dec : EqDecision ItemEnvelopeV1.
Proof. solve_decision. Defined.
Global Instance SignedSuiteMigrationV1_eq_dec : EqDecision SignedSuiteMigrationV1.
Proof. solve_decision. Defined.
Global Instance VaultFileV1_eq_dec : EqDecision VaultFileV1.
Proof. solve_decision. Defined.

Inductive ArtifactRelation :=
  | Identical
  | IncomingStrictDescendant
  | LocalStrictDescendant
  | Divergent.

Record TransferItemDelta := {
  td_item_id : ItemId;
  td_local_revision : option N;
  td_incoming_revision : option N;
}.

(** [items.iter().map(|item| (item.item_id, item)).collect::<BTreeMap<_, _>>()] *)
Definition envelope_map (items : list ItemEnvelopeV1) : gmap ItemId ItemEnvelopeV1 :=
  collect_map ((λ item, (ie_item_id item, item)) <$> items).

(** The revisions of an item, oldest first. *)
Definition item_history (e : ItemEnvelopeV1) : list SignedItemRevisionV1 :=
  ie_prior_revisions e ++ [ie_current_revision e].

Definition item_history_is_prefix (base candidate : ItemEnvelopeV1) : bool :=
  if negb (starts_with_list (item_history candidate) (item_history base)) then false
  else
    (len (item_history base) <? len (item_history candidate))%N ||
    ((ie_current_revision candidate ==? ie_current_revision base) &&
     (ie_body_ciphertext candidate ==? ie_body_ciphertext base) &&
     (dm_revision (ie_descriptor base) <=? dm_revision (ie_descriptor candidate))%N &&
     (dm_key_epoch (ie_descriptor base) <=? dm_key_epoch (ie_descriptor candidate))%N).

Definition is_item_delete (item_id : ItemId) (op : PolicyOperationV1) : bool :=
  if op is ItemDelete deleted _ _ _ then deleted ==? item_id else false.

Definition policy_suffix_deletes (vault : VaultFileV1) (start : nat) (item_id : ItemId) : bool :=
  existsb (λ revision, existsb (is_item_delete item_id) (pr_operations revision))
    (drop start (pj_revisions (vf_policy vault))).

Definition is_strict_descendant (base candidate : VaultFileV1) : bool :=
  if (vh_vault_id (vf_header base) !=? vh_vault_id (vf_header candidate)) ||
     (vh_genesis_fingerprint (vf_header base) !=? vh_genesis_fingerprint (vf_header candidate)) ||
     (pj_genesis (vf_policy base) !=? pj_genesis (vf_policy candidate)) ||
     (vf_suite_migration base !=? vf_suite_migration candidate) ||
     (len (pj_revisions (vf_policy candidate)) <=? len (pj_revisions (vf_policy base)))%N ||
     negb (starts_with_list (pj_revisions (vf_policy candidate)) (pj_revisions (vf_policy base)))
  then false
  else
    forallb (λ base_item,
      match envelope_map (vf_items candidate) !! ie_item_id base_item with
      | None => policy_suffix_deletes candidate (length (pj_revisions (vf_policy base))) (ie_item_id base_item)
      | Some candidate_item => item_history_is_prefix base_item candidate_item
      end) (vf_items base).

Definition compare_artifacts (local incoming : VaultFileV1) : ArtifactRelation :=
  if local ==? incoming then Identical
  else if is_strict_descendant local incoming then IncomingStrictDescendant
  else if is_strict_descendant incoming local then LocalStrictDescendant
  else Divergent.

Definition item_delta (local incoming : option ItemEnvelopeV1) (item_id : ItemId) : option TransferItemDelta :=
  if local !=? incoming then
    Some {| td_item_id := item_id;
      td_local_revision := ir_item_revision ∘ ie_current_revision <$> local;
      td_incoming_revision := ir_item_revision ∘ ie_current_revision <$> incoming |}
  else None.

Definition item_deltas (local incoming : VaultFileV1) : list TransferItemDelta :=
  let local_items := envelope_map (vf_items local) in
  let incoming_items := envelope_map (vf_items incoming) in
  omap (λ item_id, item_delta (local_items !! item_id) (incoming_items !! item_id) item_id)
    (sorted_elements (collect_set (keys local_items ++ keys incoming_items))).
