(* ===== verification/Mutation.v ===== *)
(** * Vault mutation plans

    [crates/jury-core/src/mutation.rs] and its modules [artifact_validation],
    [authority_transition] and [error_mapping]: a plan carries the vault file a
    commit is to publish, checked as a whole against the current one. Also
    [prepare_revision] of [policy/replay/core.rs] and its signer. *)

From S2P Require Import Prelude VaultTypes Canonical Preimage Rollover Validate WitnessPolicy PolicyState Replay LocalAudit LocalCheckpoint ArtifactRelation.
Local Open Scope jury_scope.

Inductive MutationErrorKind :=
  | ME_InvalidCurrentState
  | ME_InvalidPlan
  | ME_Unauthorized
  | ME_NoChange
  | ME_CapacityExhausted
  | ME_DirectDowngradeRequiresAcknowledgement
  | ME_MissingItemEnvelope
  | ME_UnexpectedItemEnvelope
  | ME_TransferBehind
  | ME_TransferDiverged
  | ME_TransferDowngrade.

Inductive DirectDowngradeAcknowledgement := DA_Absent | DA_Acknowledged.

Inductive MutationKind := MK_Policy | MK_Item | MK_PrivacyCover | MK_TransferImport.

Definition audit_action (kind : MutationKind) : AuditAction :=
  match kind with
  | MK_Policy => PolicyMutation
  | MK_Item => ItemMutation
  | MK_PrivacyCover => PrivacyCover
  | MK_TransferImport => Transfer
  end.

Record MutationWarnings := {
  mw_redistribution_required : bool;
  mw_external_credential_rotation_required : bool;
  mw_pending_witness_requests_invalidated : bool;
  mw_item_quorum_claim_suppressed : bool;
}.

Record VaultRevisionPrecondition := {
  rp_vault_digest : Digest32;
  rp_policy_sequence : N;
  rp_policy_revision_hash : Digest32;
  rp_repository_ancestry : option Digest32;
}.

Record VaultMutationPlan := {
  mp_precondition : VaultRevisionPrecondition;
  mp_target : VaultFileV1;
  mp_target_bytes : bytes;
  mp_target_digest : Digest32;
  mp_target_policy : PolicyState;
  mp_witness_policies : list WitnessPolicy;
  mp_kind : MutationKind;
  mp_timestamp_ms : N;
  mp_touched_items : list ItemId;
  mp_warnings : MutationWarnings;
  mp_acting_principal_id : PrincipalId;
}.

Record PreparedItemMutation := {
  pim_policy : PreparedPolicyRevision;
  pim_envelope : ItemEnvelopeV1;
}.

Record PreparedItemBatchComponent := {
  pic_operations : list PolicyOperationV1;
  pic_envelope : ItemEnvelopeV1;
}.

(** [derive(PartialEq)] *)
Global Instance MutationKind_eq_dec : EqDecision MutationKind.
Proof. solve_decision. Defined.
Global Instance DirectDowngradeAcknowledgement_eq_dec : EqDecision DirectDowngradeAcknowledgement.
Proof. solve_decision. Defined.

(** ** Errors *)

Definition is_capacity (error : FormatError) : bool :=
  match error with FE_ArtifactTooLarge | FE_CapacityExhausted _ => true | _ => false end.

Definition map_current_format_error (error : FormatError) : MutationErrorKind :=
  if is_capacity error then ME_CapacityExhausted else ME_InvalidCurrentState.

Definition map_target_format_error (error : FormatError) : MutationErrorKind :=
  if is_capacity error then ME_CapacityExhausted else ME_InvalidPlan.

Definition map_replay_error (current : bool) (kind : PolicyErrorKind) : MutationErrorKind :=
  match kind with
  | CapacityExhausted => ME_CapacityExhausted
  | Unauthorized | InvalidRole => if current then ME_InvalidCurrentState else ME_Unauthorized
  | _ => if current then ME_InvalidCurrentState else ME_InvalidPlan
  end.

Definition map_policy_error (kind : PolicyErrorKind) : MutationErrorKind :=
  match kind with
  | CapacityExhausted => ME_CapacityExhausted
  | Unauthorized | InvalidRole => ME_Unauthorized
  | _ => ME_InvalidPlan
  end.

(** ** What the operations of a revision touch *)

Definition operation_item_id (op : PolicyOperationV1) : option ItemId :=
  match op with
  | ItemCreate item_id _ _ _ _ _ _
  | ItemRename item_id _ _
  | ItemDelete item_id _ _ _
  | ItemRoleChange item_id _ _ _
  | ItemReaderSetChange item_id _ _ _ _ _ _
  | ItemSlotsReplace item_id _ _ _ => Some item_id
  | _ => None
  end.

Definition touched_item_ids (operations : list PolicyOperationV1) : gset ItemId :=
  collect_set (omap operation_item_id operations).

Definition deleted_item_ids (operations : list PolicyOperationV1) : gset ItemId :=
  collect_set (omap (λ op, if op is ItemDelete item_id _ _ _ then Some item_id else None) operations).

Definition reader_removed (current target : PolicyState) : bool :=
  existsb (λ item_id,
    existsb (λ reader, reader ∉? effective_reader_ids target item_id)
      (effective_reader_ids current item_id)) (keys (ps_items current)).

(** The pairs of operations of a batch that speak of the same principal. *)
Definition batch_match (existing operation : PolicyOperationV1) : bool :=
  match existing, operation with
  | PrincipalAdd descriptor _ _, PrincipalAdd descriptor' _ _ =>
      pd_principal_id descriptor ==? pd_principal_id descriptor'
  | PrincipalReplace prior next _, PrincipalReplace prior' next' _ =>
      (prior ==? prior') || (pd_principal_id next ==? pd_principal_id next')
  | OwnerGrant principal_id, OwnerGrant principal_id' => principal_id ==? principal_id'
  | OwnerRevoke principal_id, OwnerRevoke principal_id' => principal_id ==? principal_id'
  | _, _ => false
  end.

Definition push_batch_operation (operations : list PolicyOperationV1) (operation : PolicyOperationV1)
    : result MutationErrorKind (list PolicyOperationV1) :=
  match find (λ existing, batch_match existing operation) operations with
  | Some existing => if existing ==? operation then Ok operations else Err ME_InvalidPlan
  | None => Ok (operations ++ [operation])
  end.

(** ** The authority transition *)

Definition replacements (operations : list PolicyOperationV1) : gmap PrincipalId PrincipalId :=
  collect_map (omap (λ op,
    if op is PrincipalReplace prior_principal_id next_descriptor _
    then Some (prior_principal_id, pd_principal_id next_descriptor) else None) operations).

Definition witness_digest (item : ItemPolicyState) : option Digest32 :=
  state ← it_witnessed_state item;
  slot ← head (wst_slots state);
  Some (ws_witness_policy_digest slot).

Definition assurance_is_weaker (prior next : PlatformAssurance) : bool :=
  match prior, next with
  | PA_StableExecutableIdentity, PA_NormalizedPathOnly => true
  | _, _ => false
  end.

Definition eligible_set_is_broader (prior next : list PrincipalId) : bool :=
  existsb (λ id, id ∉? prior) next.

Definition rule_is_weaker (prior_rule next_rule : OperationRule) : bool :=
  (rule_approval_threshold next_rule <? rule_approval_threshold prior_rule)%N ||
  (rule_allowed_request_lifetime_ms prior_rule <? rule_allowed_request_lifetime_ms next_rule)%N ||
  (rule_max_timeout_ms prior_rule <? rule_max_timeout_ms next_rule)%N ||
  (rule_max_output_bytes prior_rule <? rule_max_output_bytes next_rule)%N ||
  (rule_max_target_count prior_rule <? rule_max_target_count next_rule)%N ||
  assurance_is_weaker (rule_required_platform_assurance prior_rule)
    (rule_required_platform_assurance next_rule) ||
  eligible_set_is_broader (rule_eligible_approver_ids prior_rule) (rule_eligible_approver_ids next_rule).

Definition witness_policy_is_weaker (prior next : WitnessPolicy) : bool :=
  (wp_witness_threshold next <? wp_witness_threshold prior)%N ||
  existsb (λ prior_rule,
    match find (λ next_rule, rule_operation next_rule ==? rule_operation prior_rule)
      (wp_operation_rules next) with
    | None => true
    | Some next_rule => rule_is_weaker prior_rule next_rule
    end) (wp_operation_rules prior).

(** The three flags of the loop. *)
Record TransitionFlags := {
  tf_direct_downgrade : bool;
  tf_witness_changed : bool;
  tf_witness_weakened : bool;
}.

Definition prior_direct_recipients (replaced : gmap PrincipalId PrincipalId)
    (prior : option ItemPolicyState) : gset PrincipalId :=
  collect_set ((λ slot, default (ds_recipient_principal_id slot)
    (replaced !! ds_recipient_principal_id slot)) <$> from_option it_direct_slots [] prior).

Definition next_direct_recipients (next : ItemPolicyState) : gset PrincipalId :=
  collect_set (ds_recipient_principal_id <$> it_direct_slots next).

Definition item_direct_downgrade (replaced : gmap PrincipalId PrincipalId)
    (prior : option ItemPolicyState) (next : ItemPolicyState) : bool :=
  (negb (next_direct_recipients next ==? ∅) &&
   negb (match prior ≫= access_mode with Some AM_DirectOnly | Some AM_Mixed => true | _ => false end)) ||
  existsb (λ principal, principal ∉? prior_direct_recipients replaced prior)
    (sorted_elements (next_direct_recipients next)).

Definition item_transition (current target : PolicyState) (replaced : gmap PrincipalId PrincipalId)
    (flags : TransitionFlags) (item_id : ItemId) : result MutationErrorKind TransitionFlags :=
  match ps_items target !! item_id with
  | None => Ok flags
  | Some next =>
      let prior := ps_items current !! item_id in
      let direct_downgrade := tf_direct_downgrade flags || item_direct_downgrade replaced prior next in
      let prior_digest := prior ≫= witness_digest in
      let next_digest := witness_digest next in
      if prior_digest ==? next_digest then
        Ok {| tf_direct_downgrade := direct_downgrade;
              tf_witness_changed := tf_witness_changed flags;
              tf_witness_weakened := tf_witness_weakened flags |}
      else
        let witness_changed := tf_witness_changed flags ||
          (bool_decide (is_Some prior_digest) || bool_decide (is_Some next_digest)) in
        witness_weakened ←
          match prior_digest, next_digest with
          | Some prior_digest, Some next_digest =>
              prior_policy ← ok_or (ps_witness_policies current !! prior_digest) ME_InvalidCurrentState;
              next_policy ← ok_or (ps_witness_policies target !! next_digest) ME_InvalidPlan;
              Ok (tf_witness_weakened flags || witness_policy_is_weaker prior_policy next_policy)
          | _, _ => Ok (tf_witness_weakened flags)
          end;
        Ok {| tf_direct_downgrade := direct_downgrade;
              tf_witness_changed := witness_changed;
              tf_witness_weakened := witness_weakened |}
  end.

Definition transition_flags (current target : PolicyState) (touched : gset ItemId)
    (operations : list PolicyOperationV1) : result MutationErrorKind TransitionFlags :=
  foldE (item_transition current target (replacements operations))
    {| tf_direct_downgrade := false; tf_witness_changed := false; tf_witness_weakened := false |}
    (sorted_elements touched).

(** ** Complete artifacts *)

Section with_crypto.
Context `{Crypto}.

Definition validate_complete (vault : VaultFileV1) (witness_policies : list WitnessPolicy)
    (current : bool) : result MutationErrorKind PolicyState :=
  map_err (if current then map_current_format_error else map_target_format_error)
    (VaultFileV1_validate vault) ;;
  policy ← map_err (map_replay_error current)
    (replay_policy_with_witness_policies (vf_policy vault) witness_policies);
  map_err (λ _, if current then ME_InvalidCurrentState else ME_InvalidPlan)
    (CheckpointCandidate_from_validated policy (vf_policy vault) (vf_items vault)) ;;
  Ok policy.

Definition item_changed (current_policy : PolicyState) (item_id : ItemId) (target_item : ItemPolicyState)
    : bool :=
  match ps_items current_policy !! item_id with
  | None => true
  | Some current_item =>
      (it_current_item_revision_hash current_item !=? it_current_item_revision_hash target_item) ||
      (it_descriptor current_item !=? it_descriptor target_item)
  end.

Definition envelope_delta_step (current_envelopes target_envelopes : gmap ItemId ItemEnvelopeV1)
    (current_policy : PolicyState) (entry : ItemId * ItemPolicyState) : result MutationErrorKind unit :=
  let '(item_id, target_item) := entry in
  target_envelope ← ok_or (target_envelopes !! item_id) ME_MissingItemEnvelope;
  let changed := item_changed current_policy item_id target_item in
  reject_if (changed &&
    match current_envelopes !! item_id with
    | Some current_envelope => current_envelope ==? target_envelope
    | None => false
    end) ME_MissingItemEnvelope ;;
  reject_if (negb changed &&
    match current_envelopes !! item_id with
    | Some current_envelope => current_envelope !=? target_envelope
    | None => false
    end) ME_UnexpectedItemEnvelope.

Definition validate_envelope_delta (current target : VaultFileV1)
    (current_policy target_policy : PolicyState) : result MutationErrorKind unit :=
  let current_envelopes := envelope_map (vf_items current) in
  let target_envelopes := envelope_map (vf_items target) in
  forE (envelope_delta_step current_envelopes target_envelopes current_policy)
    (entries (ps_items target_policy)) ;;
  reject_if (existsb (λ item_id, ps_items target_policy !! item_id ==? None) (keys target_envelopes))
    ME_UnexpectedItemEnvelope.

(** [slice::binary_search_by_key] on a slice sorted by distinct keys: the index
    of the key, or where it is to be inserted. *)
Fixpoint binary_search_by_key {A K} `{Ord K} (k : K) (key : A → K) (l : list A) : result nat nat :=
  match l with
  | [] => Err 0
  | x :: l' =>
      match cmp k (key x) with
      | Lt => Err 0
      | Eq => Ok 0
      | Gt =>
          match binary_search_by_key k key l' with
          | Ok index => Ok (S index)
          | Err index => Err (S index)
          end
      end
  end.

(** [items.binary_search_by_key(..).ok().and_then(|index| items.get(index))] *)
Definition find_envelope (item_id : ItemId) (items : list ItemEnvelopeV1) : option ItemEnvelopeV1 :=
  match binary_search_by_key item_id ie_item_id items with
  | Ok index => items !! index
  | Err _ => None
  end.

Definition cover_operation (op : PolicyOperationV1) : bool :=
  match op with
  | ItemReaderSetChange _ _ _ _ _ _ _ | ItemSlotsReplace _ _ _ _ => true
  | _ => false
  end.

Definition cover_step (current target : VaultFileV1) (current_policy target_policy : PolicyState)
    (item_id : ItemId) : result MutationErrorKind unit :=
  prior_policy ← ok_or (ps_items current_policy !! item_id) ME_InvalidPlan;
  next_policy ← ok_or (ps_items target_policy !! item_id) ME_InvalidPlan;
  prior ← ok_or (find_envelope item_id (vf_items current)) ME_InvalidCurrentState;
  next ← ok_or (find_envelope item_id (vf_items target)) ME_InvalidPlan;
  reject_if ((it_grants prior_policy !=? it_grants next_policy) ||
    (effective_reader_ids current_policy item_id !=? effective_reader_ids target_policy item_id) ||
    (access_mode prior_policy !=? access_mode next_policy) ||
    negb (ir_bucket_id (ie_current_revision prior) =? ir_bucket_id (ie_current_revision next))%N ||
    (checked_add_u64 (ir_item_revision (ie_current_revision prior)) 1 !=?
      Some (ir_item_revision (ie_current_revision next)))) ME_InvalidPlan.

Definition validate_privacy_cover (current target : VaultFileV1)
    (current_policy target_policy : PolicyState) : result MutationErrorKind unit :=
  revision ← ok_or (last (pj_revisions (vf_policy target))) ME_InvalidPlan;
  let operations := pr_operations revision in
  let touched := touched_item_ids operations in
  reject_if ((touched ==? ∅) || existsb (λ op, negb (cover_operation op)) operations) ME_InvalidPlan ;;
  forE (cover_step current target current_policy target_policy) (sorted_elements touched).

(** ** Plans *)

Definition plan_precondition (source_bytes : bytes) (current_policy : PolicyState)
    : VaultRevisionPrecondition := {|
  rp_vault_digest := sha256 source_bytes;
  rp_policy_sequence := ps_sequence current_policy;
  rp_policy_revision_hash := ps_terminal_revision_hash current_policy;
  rp_repository_ancestry := None;
|}.

Definition collect_replacement (replacements : gmap ItemId ItemEnvelopeV1) (envelope : ItemEnvelopeV1)
    : result MutationErrorKind (gmap ItemId ItemEnvelopeV1) :=
  reject_if (bool_decide (is_Some (replacements !! ie_item_id envelope))) ME_UnexpectedItemEnvelope ;;
  Ok (<[ie_item_id envelope := envelope]> replacements).

(** [items[index] = envelope] or [items.insert(index, envelope)] *)
Definition place_envelope (items : list ItemEnvelopeV1) (entry : ItemId * ItemEnvelopeV1)
    : list ItemEnvelopeV1 :=
  let '(item_id, envelope) := entry in
  match binary_search_by_key item_id ie_item_id items with
  | Ok index => <[index := envelope]> items
  | Err index => take index items ++ envelope :: drop index items
  end.

Definition target_vault (current : VaultFileV1) (revision : SignedPolicyRevisionV1)
    (deleted_items : gset ItemId) (replacements : gmap ItemId ItemEnvelopeV1) : VaultFileV1 := {|
  vf_header := vf_header current;
  vf_policy := {| pj_genesis := pj_genesis (vf_policy current);
                  pj_revisions := pj_revisions (vf_policy current) ++ [revision] |};
  vf_items := fold_left place_envelope (entries replacements)
    (filter (λ item, ie_item_id item ∉ deleted_items) (vf_items current));
  vf_suite_migration := vf_suite_migration current;
|}.

Context (json_pretty : VaultFileV1 → option bytes).

Definition from_prepared (current : VaultFileV1) (witness_policies : list WitnessPolicy)
    (prepared : PreparedPolicyRevision) (replacement_envelopes : list ItemEnvelopeV1) (timestamp_ms : N)
    (downgrade_acknowledgement : DirectDowngradeAcknowledgement) (kind : MutationKind)
    : result MutationErrorKind VaultMutationPlan :=
  current_policy ← validate_complete current witness_policies true;
  source_bytes ← map_err map_current_format_error (to_json_bytes json_pretty current);
  let precondition := plan_precondition source_bytes current_policy in
  let revision := prep_revision prepared in
  reject_if (negb (pr_sequence revision =? saturating_add_u64 (ps_sequence current_policy) 1)%N ||
    (pr_previous_revision_hash revision !=? ps_terminal_revision_hash current_policy) ||
    negb (pr_timestamp_ms revision =? timestamp_ms)%N ||
    (match pr_operations revision with [] => true | _ => false end)) ME_InvalidPlan ;;
  let touched_items := touched_item_ids (pr_operations revision) in
  let deleted_items := deleted_item_ids (pr_operations revision) in
  replacements ← foldE collect_replacement ∅ replacement_envelopes;
  let acting_principal_id := pr_author_principal_id revision in
  let target := target_vault current revision deleted_items replacements in
  target_policy ← validate_complete target witness_policies false;
  reject_if (target_policy !=? prep_state prepared) ME_InvalidPlan ;;
  validate_envelope_delta current target current_policy target_policy ;;
  (if kind ==? MK_PrivacyCover
   then validate_privacy_cover current target current_policy target_policy else Ok ()) ;;
  let latest_operations := from_option pr_operations [] (last (pj_revisions (vf_policy target))) in
  flags ← transition_flags current_policy target_policy touched_items latest_operations;
  reject_if ((tf_direct_downgrade flags || tf_witness_weakened flags) &&
    (downgrade_acknowledgement !=? DA_Acknowledged)) ME_DirectDowngradeRequiresAcknowledgement ;;
  target_bytes ← map_err map_target_format_error (to_json_bytes json_pretty target);
  let target_digest := sha256 target_bytes in
  reject_if (target_digest ==? rp_vault_digest precondition) ME_NoChange ;;
  let external_rotation := reader_removed current_policy target_policy in
  Ok {|
    mp_precondition := precondition;
    mp_target := target;
    mp_target_bytes := target_bytes;
    mp_target_digest := target_digest;
    mp_target_policy := target_policy;
    mp_witness_policies := witness_policies;
    mp_kind := kind;
    mp_timestamp_ms := timestamp_ms;
    mp_touched_items := sorted_elements touched_items;
    mp_warnings := {|
      mw_redistribution_required := true;
      mw_external_credential_rotation_required := external_rotation;
      mw_pending_witness_requests_invalidated := true;
      mw_item_quorum_claim_suppressed := tf_direct_downgrade flags;
    |};
    mp_acting_principal_id := acting_principal_id;
  |}.

(** ** Transfer import *)

(** The operations of the incoming revisions after the current ones. *)
Definition suffix_operations (current incoming : VaultFileV1) : list PolicyOperationV1 :=
  mjoin (pr_operations <$> drop (length (pj_revisions (vf_policy current)))
    (pj_revisions (vf_policy incoming))).

Definition preflight_transfer_import (current incoming : VaultFileV1)
    (witness_policies : list WitnessPolicy) : result MutationErrorKind ArtifactRelation :=
  current_policy ← validate_complete current witness_policies true;
  target_policy ← validate_complete incoming witness_policies false;
  match compare_artifacts current incoming with
  | Identical => Ok Identical
  | LocalStrictDescendant => Err ME_TransferBehind
  | Divergent => Err ME_TransferDiverged
  | IncomingStrictDescendant =>
      let suffix_operations := suffix_operations current incoming in
      let touched_items := touched_item_ids suffix_operations in
      validate_envelope_delta current incoming current_policy target_policy ;;
      flags ← transition_flags current_policy target_policy touched_items suffix_operations;
      reject_if (tf_direct_downgrade flags || tf_witness_weakened flags) ME_TransferDowngrade ;;
      Ok IncomingStrictDescendant
  end.

Definition prepare_transfer_import (current incoming : VaultFileV1)
    (witness_policies : list WitnessPolicy) (acting_principal_id : PrincipalId) (timestamp_ms : N)
    : result MutationErrorKind (option VaultMutationPlan) :=
  preflight_transfer_import current incoming witness_policies ;;
  current_policy ← validate_complete current witness_policies true;
  target_policy ← validate_complete incoming witness_policies false;
  reject_if (ps_principals target_policy !! acting_principal_id ==? None) ME_Unauthorized ;;
  if current ==? incoming then Ok None
  else
    source_bytes ← map_err map_current_format_error (to_json_bytes json_pretty current);
    target_bytes ← map_err map_target_format_error (to_json_bytes json_pretty incoming);
    let touched_items := touched_item_ids (suffix_operations current incoming) in
    let external_credential_rotation_required := reader_removed current_policy target_policy in
    Ok (Some {|
      mp_precondition := plan_precondition source_bytes current_policy;
      mp_target := incoming;
      mp_target_bytes := target_bytes;
      mp_target_digest := sha256 target_bytes;
      mp_target_policy := target_policy;
      mp_witness_policies := witness_policies;
      mp_kind := MK_TransferImport;
      mp_timestamp_ms := timestamp_ms;
      mp_touched_items := sorted_elements touched_items;
      mp_warnings := {|
        mw_redistribution_required := false;
        mw_external_credential_rotation_required := external_credential_rotation_required;
        mw_pending_witness_requests_invalidated := true;
        mw_item_quorum_claim_suppressed := false;
      |};
      mp_acting_principal_id := acting_principal_id;
    |}).

(** ** Planning a revision *)

(** [VaultPrincipalIdentity]: the keys are held elsewhere. *)
Class VaultPrincipalIdentity (I : Type) := {
  identity_principal_id : I → PrincipalId;
  public_descriptor : I → option PrincipalDescriptorV1;
  sign_validated_statement : I → bytes → option Signature64;
}.

Record IdentityPolicySigner (I : Type) := {
  ips_owner : I;
  ips_descriptor : PrincipalDescriptorV1;
}.
Arguments ips_owner {I}.
Arguments ips_descriptor {I}.

Global Instance identity_signer {I} `{VaultPrincipalIdentity I} : PolicySigner (IdentityPolicySigner I) := {|
  signer_principal_id signer := identity_principal_id (ips_owner signer);
  signer_descriptor signer := Ok (ips_descriptor signer);
  signer_sign signer preimage :=
    ok_or (sign_validated_statement (ips_owner signer) preimage) InvalidSignature;
|}.

Section identity.
Context {I : Type} `{VaultPrincipalIdentity I}.

(** [PolicyState::prepare_revision] *)
Definition prepare_revision (state : PolicyState) (author : I) (timestamp_ms : N)
    (operations : list PolicyOperationV1) : result PolicyErrorKind PreparedPolicyRevision :=
  descriptor ← ok_or (public_descriptor author) InvalidSignature;
  prepare_with_signer state {| ips_owner := author; ips_descriptor := descriptor |}
    timestamp_ms operations.

Definition prepare_policy (current : VaultFileV1) (witness_policies : list WitnessPolicy) (author : I)
    (timestamp_ms : N) (operations : list PolicyOperationV1)
    (downgrade : DirectDowngradeAcknowledgement) (kind : MutationKind)
    : result MutationErrorKind VaultMutationPlan :=
  reject_if (match operations with [] => true | _ => false end) ME_NoChange ;;
  current_policy ← validate_complete current witness_policies true;
  prepared ← map_err map_policy_error (prepare_revision current_policy author timestamp_ms operations);
  from_prepared current witness_policies prepared [] timestamp_ms downgrade kind.

Definition is_owner_grant (op : PolicyOperationV1) : bool :=
  if op is OwnerGrant _ then true else false.

(** The grants of ownership go to the end, in their order. *)
Definition defer_owner_grants (operations : list PolicyOperationV1) : list PolicyOperationV1 :=
  filter (λ op, is_owner_grant op = false) operations ++ filter (λ op, is_owner_grant op = true) operations.

Definition finish_item_batch (current : VaultFileV1) (witness_policies : list WitnessPolicy)
    (current_policy : PolicyState) (author : I) (timestamp_ms : N) (operations : list PolicyOperationV1)
    (envelopes : list ItemEnvelopeV1) (additional_operations : list PolicyOperationV1)
    (downgrade : DirectDowngradeAcknowledgement) (kind : MutationKind)
    : result MutationErrorKind VaultMutationPlan :=
  operations ← foldE push_batch_operation (defer_owner_grants operations) additional_operations;
  prepared ← map_err map_policy_error (prepare_revision current_policy author timestamp_ms operations);
  from_prepared current witness_policies prepared envelopes timestamp_ms downgrade kind.

Definition batch_mutation (current_policy : PolicyState) (expected_sequence : N) (author : I)
    (timestamp_ms : N) (acc : list PolicyOperationV1 * list ItemEnvelopeV1) (mutation : PreparedItemMutation)
    : result MutationErrorKind (list PolicyOperationV1 * list ItemEnvelopeV1) :=
  let '(operations, envelopes) := acc in
  let revision := prep_revision (pim_policy mutation) in
  reject_if (negb (pr_sequence revision =? expected_sequence)%N ||
    (pr_previous_revision_hash revision !=? ps_terminal_revision_hash current_policy) ||
    (pr_author_principal_id revision !=? identity_principal_id author) ||
    negb (pr_timestamp_ms revision =? timestamp_ms)%N) ME_InvalidPlan ;;
  operations ← foldE push_batch_operation operations (pr_operations revision);
  Ok (operations, envelopes ++ [pim_envelope mutation]).

Definition prepare_item_batch (current : VaultFileV1) (witness_policies : list WitnessPolicy) (author : I)
    (timestamp_ms : N) (additional_operations : list PolicyOperationV1)
    (item_mutations : list PreparedItemMutation)
    (downgrade : DirectDowngradeAcknowledgement) (kind : MutationKind)
    : result MutationErrorKind VaultMutationPlan :=
  reject_if (match item_mutations, additional_operations with [], [] => true | _, _ => false end)
    ME_NoChange ;;
  current_policy ← validate_complete current witness_policies true;
  expected_sequence ← ok_or (checked_add_u64 (ps_sequence current_policy) 1) ME_CapacityExhausted;
  '(operations, envelopes) ← foldE
    (batch_mutation current_policy expected_sequence author timestamp_ms) ([], []) item_mutations;
  finish_item_batch current witness_policies current_policy author timestamp_ms operations envelopes
    additional_operations downgrade kind.

Definition batch_component (expected_sequence : N) (author : I) (timestamp_ms : N)
    (acc : list PolicyOperationV1 * list ItemEnvelopeV1) (component : PreparedItemBatchComponent)
    : result MutationErrorKind (list PolicyOperationV1 * list ItemEnvelopeV1) :=
  let '(operations, envelopes) := acc in
  let revision := ie_current_revision (pic_envelope component) in
  reject_if (negb (ir_policy_sequence revision =? expected_sequence)%N ||
    (ir_author_principal_id revision !=? identity_principal_id author) ||
    negb (ir_timestamp_ms revision =? timestamp_ms)%N) ME_InvalidPlan ;;
  operations ← foldE push_batch_operation operations (pic_operations component);
  Ok (operations, envelopes ++ [pic_envelope component]).

Definition prepare_item_component_batch (current : VaultFileV1) (witness_policies : list WitnessPolicy)
    (author : I) (timestamp_ms : N) (additional_operations : list PolicyOperationV1)
    (components : list PreparedItemBatchComponent)
    (downgrade : DirectDowngradeAcknowledgement) (kind : MutationKind)
    : result MutationErrorKind VaultMutationPlan :=
  reject_if (match components, additional_operations with [], [] => true | _, _ => false end)
    ME_NoChange ;;
  current_policy ← validate_complete current witness_policies true;
  expected_sequence ← ok_or (checked_add_u64 (ps_sequence current_policy) 1) ME_CapacityExhausted;
  '(operations, envelopes) ← foldE
    (batch_component expected_sequence author timestamp_ms) ([], []) components;
  finish_item_batch current witness_policies current_policy author timestamp_ms operations envelopes
    additional_operations downgrade kind.
End identity.

(** ** What a plan hands on *)

(** [VaultMutationPlan::bind_repository_ancestry] *)
Definition bind_repository_ancestry (digest : Digest32) (plan : VaultMutationPlan) : VaultMutationPlan := {|
  mp_precondition := {|
    rp_vault_digest := rp_vault_digest (mp_precondition plan);
    rp_policy_sequence := rp_policy_sequence (mp_precondition plan);
    rp_policy_revision_hash := rp_policy_revision_hash (mp_precondition plan);
    rp_repository_ancestry := Some digest;
  |};
  mp_target := mp_target plan;
  mp_target_bytes := mp_target_bytes plan;
  mp_target_digest := mp_target_digest plan;
  mp_target_policy := mp_target_policy plan;
  mp_witness_policies := mp_witness_policies plan;
  mp_kind := mp_kind plan;
  mp_timestamp_ms := mp_timestamp_ms plan;
  mp_touched_items := mp_touched_items plan;
  mp_warnings := mp_warnings plan;
  mp_acting_principal_id := mp_acting_principal_id plan;
|}.

Definition audit_intent (plan : VaultMutationPlan) : AuditEventDraft := {|
  dr_timestamp_ms := mp_timestamp_ms plan;
  dr_operation_id := mp_target_digest plan;
  dr_policy_sequence := ps_sequence (mp_target_policy plan);
  dr_action := audit_action (mp_kind plan);
  dr_outcome := Success;
  dr_item :=
    match mp_touched_items plan with
    | [item_id] => Some {| ai_item_id := item_id; ai_permitted_item_name := None |}
    | _ => None
    end;
  dr_witness := None;
|}.

Definition checkpoint_candidate (plan : VaultMutationPlan) : result MutationErrorKind CheckpointCandidate :=
  map_err (λ _, ME_InvalidPlan)
    (CheckpointCandidate_from_validated (mp_target_policy plan) (vf_policy (mp_target plan))
      (vf_items (mp_target plan))).
End with_crypto.
