(* ===== verification/MutationLemmas.v ===== *)
(** * Lemmas about mutation plans

    Placing an envelope by binary search is an update of the map of envelopes;
    a revision leaves alone the contents of the items its operations do not
    name; and the flags of the authority transition, read as propositions. *)

From S2P Require Import Prelude VaultTypes Canonical Preimage Rollover Validate WitnessPolicy PolicyState Replay ReplayRegistry ReplayState ReplayRotation ReplayLineage ReplayTheorems LocalAudit LocalCheckpoint ArtifactRelation Mutation.
Local Open Scope jury_scope.

Lemma elem_of_collect_set {K} `{Countable K} (l : list K) x : x ∈ collect_set l ↔ x ∈ l.
Proof. by rw collect_set_eq elem_of_list_to_set. Qed.

(** ** Binary search *)

Section search.
Context {A K : Type} `{OrdLaws K} (key : A → K).

Lemma binary_search_found k l n :
  binary_search_by_key k key l = Ok n → ∃ x, l !! n = Some x ∧ key x = k.
Proof.
  revert n. induction l as [|y l IH]; intros n; [done|]. cbn [binary_search_by_key].
  destruct (cmp k (key y)) eqn:E; [|done|].
  - intros [= <-]. exists y. split; [done|]. symmetry. by apply cmp_eq.
  - destruct (binary_search_by_key k key l) as [m|]; [|done]. intros [= <-]. by apply IH.
Qed.

(** Where nothing was found, the key separates the list. *)
Lemma binary_search_absent k l n :
  sorted_by_key key l = true → binary_search_by_key k key l = Err n →
  (∀ x, x ∈ take n l → ltb (key x) k = true) ∧ (∀ x, x ∈ drop n l → ltb k (key x) = true).
Proof.
  revert n. induction l as [|y l IH]; intros n; [intros _ [= <-]; set_solver|].
  cbn [binary_search_by_key]. intros [Hy Hs]%sorted_by_key_cons. destruct (cmp k (key y)) eqn:E; [done|..].
  - intros [= <-]. split; [set_solver|]. intros x [->|Hx]%elem_of_cons; [unfold ltb; by rw E|].
    eapply ltb_trans, Hy, Hx. unfold ltb. by rw E.
  - destruct (binary_search_by_key k key l) as [|m]; [done|]. intros [= <-].
    destruct (IH m Hs eq_refl) as [Ht Hd]. split; [|done]. cbn. intros x [->|Hx]%elem_of_cons; [|auto].
    unfold ltb. by rw cmp_antisym E.
Qed.

Lemma sorted_by_key_app l k :
  sorted_by_key key (l ++ k) = true ↔
  sorted_by_key key l = true ∧ sorted_by_key key k = true ∧
  ∀ x y, x ∈ l → y ∈ k → ltb (key x) (key y) = true.
Proof.
  induction l as [|x l IH]; [cbn; set_solver|].
  rw -app_comm_cons !sorted_by_key_cons IH. setoid_rewrite elem_of_app. setoid_rewrite elem_of_cons.
  naive_solver.
Qed.

Lemma sorted_by_key_filter (P : A → Prop) `{∀ x, Decision (P x)} l :
  sorted_by_key key l = true → sorted_by_key key (filter P l) = true.
Proof.
  induction l as [|x l IH]; [done|]. intros [Hx Hl]%sorted_by_key_cons. rw filter_cons.
  case_decide; [|auto]. apply sorted_by_key_cons. split; [|auto].
  intros y [_ Hy]%list_elem_of_filter. auto.
Qed.

Lemma sorted_by_key_insert l n x y :
  l !! n = Some x → key y = key x → sorted_by_key key l = true → sorted_by_key key (<[n := y]> l) = true.
Proof.
  intros Hn Hk. assert (n < length l) as Hlt by (by eapply lookup_lt_Some).
  rw -{1}(take_drop_middle _ _ _ Hn) insert_take_drop //. rw !sorted_by_key_app !sorted_by_key_cons.
  rw Hk.
  intros (? & [? ?] & Hx). split_and!; [done..|]. intros u v Hu [->|Hv]%elem_of_cons; [rw Hk|]; apply Hx; set_solver.
Qed.
End search.

(** ** The envelopes of a file *)

Section envelopes.
Implicit Types (items : list ItemEnvelopeV1) (e : ItemEnvelopeV1).

Lemma envelope_map_Some items id e :
  sorted_by_key ie_item_id items = true →
  envelope_map items !! id = Some e ↔ e ∈ items ∧ ie_item_id e = id.
Proof.
  intros Hs. unfold envelope_map. split.
  - intros (e' & [= -> ->] & ?)%collect_map_Some%list_elem_of_fmap. done.
  - intros [He <-]. apply collect_map_consistent; [|apply list_elem_of_fmap; eauto].
    intros k v v' (x & [= -> ->] & ?)%list_elem_of_fmap (y & [= ? ->] & ?)%list_elem_of_fmap.
    by eapply (sorted_by_key_eq ie_item_id).
Qed.

Lemma find_envelope_lookup items id e :
  find_envelope id items = Some e → e ∈ items ∧ ie_item_id e = id.
Proof.
  unfold find_envelope. destruct (binary_search_by_key _ _ _) as [n|] eqn:E; [|done].
  apply binary_search_found in E as (x & Hx & Hk). intros Hn. rw Hx in Hn. injection Hn as ->.
  split; [by eapply list_elem_of_lookup_2|done].
Qed.

(** The envelope takes the place of the one with its identifier, if there is
    one, and the order is kept. *)
Lemma place_envelope_ok items e :
  sorted_by_key ie_item_id items = true →
  let items' := place_envelope items (ie_item_id e, e) in
  sorted_by_key ie_item_id items' = true ∧
  ∀ x, x ∈ items' ↔ x = e ∨ (x ∈ items ∧ ie_item_id x ≠ ie_item_id e).
Proof.
  intros Hs. cbn. destruct (binary_search_by_key _ _ _) as [n|n] eqn:E.
  - apply binary_search_found in E as (y & Hy & Hk).
    split; [by eapply sorted_by_key_insert|]. intros x.
    assert (n < length items) as Hlt by (by eapply lookup_lt_Some).
    rw insert_take_drop // elem_of_app elem_of_cons. rw -{3}(take_drop_middle _ _ _ Hy) elem_of_app elem_of_cons.
    rw -(take_drop_middle _ _ _ Hy) in Hs. apply sorted_by_key_app in Hs as (_ & [Hd _]%sorted_by_key_cons & Ht).
    split.
    + intros [Hx|[->|Hx]]; [|by left|].
      * right. split; [by left|]. rw -Hk. apply ltb_neq. apply Ht; [done|by left].
      * right. split; [by right; right|]. rw -Hk. intros Heq. apply Hd, ltb_neq in Hx. congruence.
    + intros [->|[[Hx|[->|Hx]] Hne]]; [by right; left|by left| |by right; right]. congruence.
  - destruct (binary_search_absent _ _ _ _ Hs E) as [Ht Hd].
    rw -(take_drop n items) in Hs. apply sorted_by_key_app in Hs as (Hs1 & Hs2 & Hs12).
    split.
    + apply sorted_by_key_app. rw sorted_by_key_cons. split_and!; [done|auto|done|].
      intros x y Hx [->|Hy]%elem_of_cons; auto.
    + intros x. rw elem_of_app elem_of_cons. rw -{3}(take_drop n items) elem_of_app. split.
      * intros [Hx|[->|Hx]]; [|by left|].
        -- right. split; [by left|]. by apply ltb_neq, Ht.
        -- right. split; [by right|]. intros Heq. apply Hd, ltb_neq in Hx. congruence.
      * naive_solver.
Qed.

Lemma place_envelope_lookup items e id :
  sorted_by_key ie_item_id items = true →
  envelope_map (place_envelope items (ie_item_id e, e)) !! id =
  <[ie_item_id e := e]> (envelope_map items) !! id.
Proof.
  intros Hs. destruct (place_envelope_ok items e Hs) as [Hs' Hin]. apply option_eq. intros x.
  rw envelope_map_Some // Hin lookup_insert_Some envelope_map_Some //. naive_solver.
Qed.
End envelopes.

Section inserts.
Context {K V : Type} `{Countable K}.

(** Inserting the entries of a list, one after the other. *)
Definition insert_all (l : list (K * V)) (m : gmap K V) : gmap K V :=
  fold_left (λ m p, <[p.1 := p.2]> m) l m.

Lemma insert_all_lookup l m k :
  consistent l →
  (∀ v, (k, v) ∈ l → insert_all l m !! k = Some v) ∧
  ((∀ v, (k, v) ∉ l) → insert_all l m !! k = m !! k).
Proof.
  induction l as [|[k' v'] l IH] using rev_ind; [set_solver|]. intros Hl. unfold insert_all in *.
  rw fold_left_app. cbn [fold_left fst snd].
  destruct IH as [IHin IHout]; [intros j u u' ? ?; apply (Hl j); set_solver|]. split.
  - intros v Hv. destruct (decide (k' = k)) as [->|Hne].
    + rw lookup_insert_eq. f_equal. apply (Hl k); [set_solver|done].
    + rw lookup_insert_ne //. apply IHin. set_solver.
  - intros Hk. rw lookup_insert_ne; [|intros ->; apply (Hk v'); set_solver]. apply IHout. set_solver.
Qed.

Lemma entries_consistent `{!Ord K, !OrdLaws K} (m : gmap K V) : consistent (entries m).
Proof. intros k v v'. rw !elem_of_entries. congruence. Qed.

Lemma insert_all_entries `{!Ord K, !OrdLaws K} (r m : gmap K V) : insert_all (entries r) m = r ∪ m.
Proof.
  apply map_eq. intros k. destruct (insert_all_lookup (entries r) m k (entries_consistent r)) as [Hin Hout].
  destruct (r !! k) as [v|] eqn:E.
  - rw (lookup_union_Some_l _ _ _ v) //. apply Hin. by apply elem_of_entries.
  - rw lookup_union_r //. apply Hout. intros v Hv%elem_of_entries. congruence.
Qed.
End inserts.

(** ** The file a plan publishes *)

Section target.
Implicit Types (items : list ItemEnvelopeV1) (r : gmap ItemId ItemEnvelopeV1).

Lemma collect_replacements_keys l r :
  foldE collect_replacement ∅ l = Ok r → map_Forall (λ id e, ie_item_id e = id) r.
Proof.
  intros Hf. eapply foldE_preserves in Hf; [exact Hf| |apply map_Forall_empty].
  intros m e m' _ Hm [_ Hc%Ok_inj]%reject_if_bind. subst m'. by apply map_Forall_insert_2.
Qed.

Lemma collect_replacements_elem l r id e :
  foldE collect_replacement ∅ l = Ok r → r !! id = Some e → e ∈ l.
Proof.
  intros Hf. revert id e. set (I := λ (pre : list ItemEnvelopeV1) (m : gmap ItemId ItemEnvelopeV1),
    ∀ id e, m !! id = Some e → e ∈ pre).
  apply (foldE_invariant I _) with (pre := []) in Hf; [exact Hf| |by intros ??].
  intros pre m x m' Hm [_ Hc%Ok_inj]%reject_if_bind. subst m'. intros id e.
  rw lookup_insert_Some. intros [[_ <-]|[_ He%Hm]]; set_solver.
Qed.

Lemma place_envelopes es items :
  sorted_by_key ie_item_id items = true → Forall (λ p, ie_item_id p.2 = p.1) es →
  sorted_by_key ie_item_id (fold_left place_envelope es items) = true ∧
  envelope_map (fold_left place_envelope es items) = insert_all es (envelope_map items).
Proof.
  intros Hs. induction es as [|[id e] es IH] using rev_ind; [done|].
  intros [Hes He]%Forall_app. destruct (Forall_singleton (λ p : ItemId * ItemEnvelopeV1, ie_item_id p.2 = p.1) (id, e)) as [Hx _].
  apply Hx in He. cbn in He. subst id.
  destruct (IH Hes) as [Hs' Hm]. unfold insert_all. rw !fold_left_app. cbn [fold_left fst snd].
  split; [by apply place_envelope_ok|]. apply map_eq. intros id.
  rw place_envelope_lookup // Hm. done.
Qed.

Lemma filter_envelopes items (deleted : gset ItemId) :
  sorted_by_key ie_item_id items = true →
  envelope_map (filter (λ item, ie_item_id item ∉ deleted) items) =
  filter (λ p, p.1 ∉ deleted) (envelope_map items).
Proof.
  intros Hs. apply map_eq. intros id. apply option_eq. intros e.
  rw envelope_map_Some; [|by apply sorted_by_key_filter].
  rw list_elem_of_filter map_lookup_filter_Some envelope_map_Some //. naive_solver.
Qed.

(** The target has the replacements, and what is not replaced and not deleted. *)
Lemma target_items current revision deleted r :
  sorted_by_key ie_item_id (vf_items current) = true → map_Forall (λ id e, ie_item_id e = id) r →
  let items := vf_items (target_vault current revision deleted r) in
  sorted_by_key ie_item_id items = true ∧
  envelope_map items = r ∪ filter (λ p, p.1 ∉ deleted) (envelope_map (vf_items current)).
Proof.
  intros Hs Hr items. destruct (place_envelopes (entries r)
    (filter (λ item, ie_item_id item ∉ deleted) (vf_items current))) as [Hs' Hm].
  - by apply sorted_by_key_filter.
  - apply Forall_forall. intros [id e] He%elem_of_entries. by apply Hr.
  - split; [done|]. unfold items, target_vault. cbn [vf_items]. by rw Hm insert_all_entries filter_envelopes.
Qed.
End target.

(** ** Items a revision does not name *)

Section untouched.
Context `{Crypto}.
Implicit Types (s : PolicyState) (ops : list PolicyOperationV1).

(** An item without its grants: its keys, slots, descriptor and revision. *)
Definition content (i : ItemPolicyState) : ItemPolicyState := set_grants ∅ i.

Abbreviation content_at s id := (content <$> ps_items s !! id).

Lemma content_same_keys i j : content i = content j → same_keys j i.
Proof. destruct i, j. cbn. intros [= ? ? ? ? ? ?]. subst. by split. Qed.

Lemma content_put s id id' j : id' ≠ id → content_at (put_item id' j s) id = content_at s id.
Proof. intros Hne. cbn. by rw lookup_insert_ne. Qed.

Lemma content_move_grant p q i : content (move_grant p q i) = content i.
Proof. unfold move_grant. by destruct (it_grants i !! p). Qed.

Lemma apply_operation_untouched s op s' id :
  apply_operation s op = Ok s' → operation_item_id op ≠ Some id → content_at s' id = content_at s id.
Proof.
  destruct op; cbn [apply_operation operation_item_id]; intros Ha Hid;
    unfold add_principal, change_label, remove_principal, grant_owner, revoke_owner, create_item,
      rename_item, delete_item, change_role, replace_principal in Ha; repeat inv_ok_step; try done.
  - cbn. rw lookup_insert_ne //. congruence.
  - apply content_put. congruence.
  - cbn. rw lookup_delete_ne //. congruence.
  - destruct next_role as [[]|]; repeat inv_ok_step; apply content_put; congruence.
  - assert (∀ s, content_at (set_items (move_grant prior_principal_id (pd_principal_id next_descriptor) <$>
      ps_items s) (ps_historical_item_ids s) (ps_tombstones s) s) id = content_at s id) as Hmove.
    { intros s0. cbn. rw lookup_fmap. destruct (ps_items s0 !! id); [|done]. cbn. by rw content_move_grant. }
    etrans; [apply Hmove|]. by destruct (_ ∈? _); cbn.
Qed.

Lemma record_slots_untouched op ss id :
  operation_item_id op ≠ Some id → ss !! id = None → record_slots ss op !! id = None.
Proof. destruct op; cbn; try done. intros Hne Hs. rw lookup_insert_ne //. congruence. Qed.

Lemma rotation_step_untouched prior st id' st' id :
  rotation_step prior st id' = Ok st' → st.2.2 !! id = None →
  st'.2.2 !! id = None ∧ content_at st'.1 id = content_at st.1 id.
Proof.
  destruct st as [s [rs ss]], st' as [s' [rs' ss']]. cbn [fst snd].
  intros [-> [[-> _]|(i & j & rot & d & h & _ & Hj & Hrot & _ & _ & ->)]]%rotation_step_ok Hs.
  - split; [|done]. rw lookup_delete_None. by right.
  - split; [rw lookup_delete_None; by right|]. cbn. rw lookup_insert_ne //. congruence.
Qed.

Lemma not_touched_cons op ops id :
  id ∉ touched_item_ids (op :: ops) ↔ operation_item_id op ≠ Some id ∧ id ∉ touched_item_ids ops.
Proof.
  unfold touched_item_ids. rw !elem_of_collect_set !list_elem_of_omap. setoid_rewrite elem_of_cons. naive_solver.
Qed.

Lemma touched_app ops ops' : touched_item_ids (ops ++ ops') = touched_item_ids ops ∪ touched_item_ids ops'.
Proof.
  apply set_eq. intros id. unfold touched_item_ids. rw elem_of_union !elem_of_collect_set !list_elem_of_omap.
  setoid_rewrite elem_of_app. naive_solver.
Qed.

Lemma apply_operations_untouched s n ops s' id :
  apply_operations s n ops = Ok s' → id ∉ touched_item_ids ops → content_at s' id = content_at s id.
Proof.
  unfold apply_operations, apply_rotations. intros Ha Hid. repeat inv_ok_step.
  match goal with Hx : foldE (operation_step _ _) _ _ = Ok ?st |- _ =>
    assert (os_slots st !! id = None ∧ content_at (os_next st) id = content_at s id) as [Hss Hc] end.
  { match goal with Hx : foldE (operation_step _ _) _ _ = Ok ?st |- _ =>
      eapply (foldE_preserves (λ st, os_slots st !! id = None ∧ content_at (os_next st) id = content_at s id))
      in Hx; [exact Hx| |done] end.
    intros st op st' Hop [Hs Hc] Hstep. unfold operation_step in Hstep. repeat inv_ok_step. cbn [os_slots os_next].
    assert (operation_item_id op ≠ Some id) as Hne.
    { intros He. apply Hid. unfold touched_item_ids. rw elem_of_collect_set list_elem_of_omap. eauto. }
    split; [by apply record_slots_untouched|]. rewrite <- Hc. by eapply apply_operation_untouched. }
  match goal with Hx : foldE (rotation_step _) (?m, _) _ = Ok ?st |- _ =>
    destruct st as [s1 [rs1 ss1]];
    eapply (foldE_preserves (λ st, st.2.2 !! id = None ∧ content_at st.1 id = content_at m id)) in Hx;
      [destruct Hx as [_ Hx]; repeat inv_ok_step; etrans; [exact Hx|done]| |done] end.
  intros st id' st' _ [Hs Hi] Hstep. destruct (rotation_step_untouched _ _ _ _ _ Hstep Hs) as [Hs' Hi'].
  split; [done|by etrans].
Qed.

Lemma revision_untouched genesis s r s' id :
  revision_step genesis s r s' → id ∉ touched_item_ids (pr_operations r) → content_at s' id = content_at s id.
Proof.
  intros [_ _ _ _ _ (next & h & -> & _ & [(_ & _ & _ & ->)|[_ Ha]])] Hid; [done|].
  exact (apply_operations_untouched _ _ _ _ _ Ha Hid).
Qed.
End untouched.

(** ** The authority transition *)

Section transition.
Implicit Types (s : PolicyState) (replaced : gmap PrincipalId PrincipalId).

(** A rule that allows no more than another, leaving aside the targets it serves
    without approval. *)
Record rule_kept (prior next : OperationRule) : Prop := {
  rk_operation : rule_operation next = rule_operation prior;
  rk_threshold : (rule_approval_threshold prior ≤ rule_approval_threshold next)%N;
  rk_lifetime : (rule_allowed_request_lifetime_ms next ≤ rule_allowed_request_lifetime_ms prior)%N;
  rk_timeout : (rule_max_timeout_ms next ≤ rule_max_timeout_ms prior)%N;
  rk_output : (rule_max_output_bytes next ≤ rule_max_output_bytes prior)%N;
  rk_targets : (rule_max_target_count next ≤ rule_max_target_count prior)%N;
  rk_assurance : rule_required_platform_assurance prior = PA_StableExecutableIdentity →
    rule_required_platform_assurance next = PA_StableExecutableIdentity;
  rk_approvers : rule_eligible_approver_ids next ⊆ rule_eligible_approver_ids prior;
}.

(** A witness policy that demands at least what another does, for every operation
    the other has a rule for. Its rules for other operations, and the targets its
    rules serve without approval, are not compared by the code, and may be any. *)
Record known_rules_kept (prior next : WitnessPolicy) : Prop := {
  pk_threshold : (wp_witness_threshold prior ≤ wp_witness_threshold next)%N;
  pk_rules rule : rule ∈ wp_operation_rules prior →
    ∃ rule', rule' ∈ wp_operation_rules next ∧ rule_kept rule rule';
}.

Lemma existsb_false {A} (f : A → bool) l : existsb f l = false ↔ ∀ x, x ∈ l → f x = false.
Proof.
  induction l as [|y l IH]; [cbn; set_solver|]. cbn. rw orb_false_iff IH.
  setoid_rewrite elem_of_cons. naive_solver.
Qed.

Lemma rule_is_weaker_false prior next :
  rule_operation next = rule_operation prior → rule_is_weaker prior next = false → rule_kept prior next.
Proof.
  unfold rule_is_weaker, eligible_set_is_broader. intros Hop Hw. to_prop. split; try done; try lia.
  - intros Hp. by destruct (rule_required_platform_assurance prior), (rule_required_platform_assurance next).
  - intros p Hp. match goal with Hx : existsb _ _ = false |- _ => rename Hx into He end.
    apply existsb_false with (x := p) in He; [|done]. by to_prop.
Qed.

Lemma policy_is_weaker_false prior next : witness_policy_is_weaker prior next = false → known_rules_kept prior next.
Proof.
  unfold witness_policy_is_weaker. intros Hw. to_prop. split; [lia|]. intros rule Hrule.
  match goal with Hx : existsb _ _ = false |- _ => rename Hx into He end.
  apply existsb_false with (x := rule) in He; [|done].
  destruct (find _ _) as [rule'|] eqn:E; [|done]. apply find_Some_elem in E as [Hin Hop]. to_prop.
  exists rule'. split; [done|by apply rule_is_weaker_false].
Qed.

(** A recipient's slot before, or that of the principal it replaces. *)
Definition recipient_before replaced (prior : ItemPolicyState) (p : PrincipalId) : Prop :=
  ∃ slot, slot ∈ it_direct_slots prior ∧
    (p = ds_recipient_principal_id slot ∨ replaced !! ds_recipient_principal_id slot = Some p).

Lemma item_direct_downgrade_false replaced prior next slot :
  item_direct_downgrade replaced prior next = false → slot ∈ it_direct_slots next →
  ∃ i, prior = Some i ∧ recipient_before replaced i (ds_recipient_principal_id slot).
Proof.
  unfold item_direct_downgrade. intros [_ He]%orb_false_iff Hslot.
  apply existsb_false with (x := ds_recipient_principal_id slot) in He.
  - to_prop. match goal with Hx : _ ∈ prior_direct_recipients _ _ |- _ => rename Hx into Hp end.
    unfold prior_direct_recipients in Hp. rw elem_of_collect_set list_elem_of_fmap in Hp.
    destruct Hp as (slot' & Hr & Hs'). destruct prior as [i|]; [|by apply elem_of_nil in Hs'].
    exists i. split; [done|]. exists slot'. split; [done|].
    destruct (replaced !! ds_recipient_principal_id slot') as [q|]; cbn in Hr; [right|left]; congruence.
  - rw elem_of_sorted_elements. unfold next_direct_recipients. rw elem_of_collect_set. by apply list_elem_of_fmap_2.
Qed.

(** What an item's authority may have become without a downgrade, as far as the
    code compares it: the holders of direct slots, and the rules of
    [known_rules_kept]. *)
Record compared_authority_kept replaced s s' (id : ItemId) : Prop := {
  ak_direct next slot : ps_items s' !! id = Some next → slot ∈ it_direct_slots next →
    ∃ i, ps_items s !! id = Some i ∧ recipient_before replaced i (ds_recipient_principal_id slot);
  ak_witness i next d d' : ps_items s !! id = Some i → ps_items s' !! id = Some next →
    witness_digest i = Some d → witness_digest next = Some d' →
    d = d' ∨ ∃ p p', ps_witness_policies s !! d = Some p ∧ ps_witness_policies s' !! d' = Some p' ∧
      known_rules_kept p p';
}.

Lemma item_transition_kept s s' replaced f id f' :
  item_transition s s' replaced f id = Ok f' →
  tf_direct_downgrade f' = false → tf_witness_weakened f' = false →
  tf_direct_downgrade f = false ∧ tf_witness_weakened f = false ∧ compared_authority_kept replaced s s' id.
Proof.
  unfold item_transition. destruct (ps_items s' !! id) as [next|] eqn:En.
  2: { intros <-%Ok_inj Hd Hw. split_and!; [done..|]. split; congruence. }
  case_bool_decide as Heq.
  - intros <-%Ok_inj Hd Hw. cbn in Hd, Hw. apply orb_false_iff in Hd as [Hf Hd]. split_and!; [done..|].
    split; intros *; rw En; intros; simplify_eq; [by eapply item_direct_downgrade_false|].
    left. match goal with Hi : ps_items s !! id = Some _ |- _ => rw Hi in Heq end. cbn in Heq. congruence.
  - intros (w & Hwd & <-%Ok_inj)%bind_Ok Hd Hw. cbn in Hd, Hw. apply orb_false_iff in Hd as [Hf Hd]. subst w.
    split_and!; [done| |].
    + repeat case_match; repeat inv_ok_step; try done. by to_prop.
    + split; intros *; rw En; intros; simplify_eq; [by eapply item_direct_downgrade_false|].
      right. match goal with Hi : ps_items s !! id = Some ?i, Hx : witness_digest ?i = Some _,
        Hy : witness_digest _ = Some _ |- _ => rewrite -> Hi in Hwd; cbn in Hwd; rewrite -> Hx in Hwd;
          rewrite -> Hy in Hwd end.
      repeat inv_ok_step. to_prop.
      do 2 eexists. split_and!; [done..|]. by apply policy_is_weaker_false.
Qed.

Lemma transition_flags_kept s s' touched ops f :
  transition_flags s s' touched ops = Ok f →
  tf_direct_downgrade f || tf_witness_weakened f = false →
  ∀ id, id ∈ touched → compared_authority_kept (replacements ops) s s' id.
Proof.
  intros Hf [Hd Hw]%orb_false_iff. intros id Hid%elem_of_sorted_elements. revert id Hid Hd Hw.
  unfold transition_flags in Hf. set (I := λ (pre : list ItemId) f, ∀ id, id ∈ pre →
    tf_direct_downgrade f = false → tf_witness_weakened f = false → compared_authority_kept (replacements ops) s s' id).
  apply (foldE_invariant I _) with (pre := []) in Hf; [exact Hf| |by intros ? ?%elem_of_nil].
  intros pre g id g' Hg Hs id' Hid' Hd Hw.
  destruct (item_transition_kept _ _ _ _ _ _ Hs Hd Hw) as (Hd0 & Hw0 & Hk).
  apply elem_of_app in Hid' as [Hin| ->%list_elem_of_singleton]; [by apply Hg|done].
Qed.

(** An item with the same contents keeps its authority. *)
Lemma content_kept replaced s s' id :
  content <$> ps_items s' !! id = content <$> ps_items s !! id → compared_authority_kept replaced s s' id.
Proof.
  intros Hc. split.
  - intros next slot Hn Hslot. rw Hn in Hc. destruct (ps_items s !! id) as [i|]; [|done].
    apply (inj Some), content_same_keys in Hc as [_ Hds _]. exists i. split; [done|]. exists slot.
    rw -Hds. by split; [|left].
  - intros i next d d' Hi Hn Hd Hd'. left. rw Hi Hn in Hc. apply (inj Some), content_same_keys in Hc as [_ _ Hws].
    unfold witness_digest in *. congruence.
Qed.
End transition.
