(* ===== verification/MutationTheorems.v ===== *)
(** * Theorems about mutation plans

    A plan publishes a complete vault that continues the current one by the
    prepared revision; it weakens nothing of an item's authority that is compared
    unless that was acknowledged; another copy of the vault imports what a plan published; a
    privacy cover changes nobody's access; and the local checkpoint follows. *)

From S2P Require Import Prelude Json VaultTypes Canonical Preimage Binding Rollover Validate ValidateVault WitnessPolicy PolicyState Identifiers Replay ReplayRegistry ReplayState ReplayRotation ReplayLineage ReplayTheorems PolicyTheorems VaultTheorems Effects LocalAudit LocalAuditLog LocalCheckpoint LocalReceipts LocalState LocalStateFiles LocalStateTheorems ArtifactRelation Mutation MutationLemmas.
Local Open Scope jury_scope.

Section complete.
Context `{Crypto}.
Implicit Types (vault current target : VaultFileV1) (wps : list WitnessPolicy) (s : PolicyState).

(** ** Complete artifacts *)

(** A file that validates, whose journal replays, and whose envelopes are those
    the state names. *)
Record complete_artifact vault wps s : Prop := {
  ca_valid : VaultFileV1_validate vault = Ok ();
  ca_replay : replay_policy_with_witness_policies (vf_policy vault) wps = Ok s;
  ca_candidate : is_ok (CheckpointCandidate_from_validated s (vf_policy vault) (vf_items vault)) = true;
  ca_dom : dom (envelope_map (vf_items vault)) = dom (ps_items s);
  ca_current id e i : envelope_map (vf_items vault) !! id = Some e → ps_items s !! id = Some i →
    SignedItemRevisionV1_recomputed_hash (ie_current_revision e) = Ok (it_current_item_revision_hash i) ∧
    ie_descriptor e = it_descriptor i;
}.

Lemma validated_sorted vault :
  VaultFileV1_validate vault = Ok () → sorted_by_key ie_item_id (vf_items vault) = true.
Proof. intros (_ & _ & Hi & _)%validate_vault_parts. by apply validate_items_ok in Hi as (? & _). Qed.

Lemma envelope_loop s items seen :
  foldE (envelope_step s) ∅ items = Ok seen →
  ∀ e, e ∈ items → ∃ i, ps_items s !! ie_item_id e = Some i ∧
    SignedItemRevisionV1_recomputed_hash (ie_current_revision e) = Ok (it_current_item_revision_hash i) ∧
    ie_descriptor e = it_descriptor i.
Proof.
  intros Hf. set (I := λ (pre : list ItemEnvelopeV1) (_ : gset ItemId), ∀ e, e ∈ pre →
    ∃ i, ps_items s !! ie_item_id e = Some i ∧
      SignedItemRevisionV1_recomputed_hash (ie_current_revision e) = Ok (it_current_item_revision_hash i) ∧
      ie_descriptor e = it_descriptor i).
  apply (foldE_invariant I _) with (pre := []) in Hf; [exact Hf| |by intros ? ?%elem_of_nil].
  intros pre m e m' Hpre Hstep x Hx. unfold envelope_step in Hstep. repeat inv_ok_step. to_prop.
  apply elem_of_app in Hx as [Hx| ->%list_elem_of_singleton]; [by apply Hpre|].
  match goal with Hx : ps_items s !! _ = Some ?i |- _ => exists i end. by subst.
Qed.

Lemma size_envelope_map items :
  sorted_by_key ie_item_id items = true → size (envelope_map items) = length items.
Proof.
  intros Hs. unfold envelope_map. induction items as [|e items IH] using rev_ind; [done|].
  apply sorted_by_key_app in Hs as (Hs & _ & Hlt). rw fmap_app collect_map_snoc length_app Nat.add_1_r.
  rw map_size_insert_None; [by rw IH|]. apply eq_None_not_Some.
  intros [e' Hx]. apply collect_map_Some, list_elem_of_fmap in Hx as (x & [= Hid _] & Hx).
  apply (ltb_neq (ie_item_id x) (ie_item_id e)); [|done]. apply Hlt; [done|]. by left.
Qed.

Lemma validate_complete_Ok vault wps b s :
  validate_complete vault wps b = Ok s → complete_artifact vault wps s.
Proof.
  unfold validate_complete. intros Hv. apply bind_Ok in Hv as ([] & Hval%map_err_Ok & Hv).
  apply bind_Ok in Hv as (s' & Hr%map_err_Ok & Hv). apply bind_Ok in Hv as (c & Hc%map_err_Ok & Hs%Ok_inj).
  subst s'. pose proof (validated_sorted _ Hval) as Hs. pose proof Hc as Hc'.
  unfold CheckpointCandidate_from_validated in Hc'. apply bind_Ok in Hc' as (fp & _ & Hk).
  apply reject_if_bind in Hk as [Hg Hk]. apply bind_Ok in Hk as ([[n t] h] & _ & Hk).
  apply reject_if_bind in Hk as [_ Hk]. apply bind_Ok in Hk as (_ & _ & Hk).
  apply bind_Ok in Hk as (seen & Hl & _). to_prop.
  assert (∀ id e, envelope_map (vf_items vault) !! id = Some e → ∃ i, ps_items s !! id = Some i ∧
    SignedItemRevisionV1_recomputed_hash (ie_current_revision e) = Ok (it_current_item_revision_hash i) ∧
    ie_descriptor e = it_descriptor i) as He.
  { intros id e [He <-]%envelope_map_Some; [|done]. by eapply envelope_loop. }
  split; [done|done|by rw Hc| |].
  - apply set_subseteq_size_eq.
    + intros id [e (i & Hi & _)%He]%elem_of_dom. by apply elem_of_dom.
    + rw !size_dom size_envelope_map //. match goal with Hx : Nat.eqb _ _ = true |- _ =>
        apply Nat.eqb_eq in Hx; lia end.
  - intros id e i (i' & Hi' & Hx)%He Hi. congruence.
Qed.

(** Two complete artifacts of the same policies, one a revision after the other. *)
Lemma complete_step current target wps s s' r :
  complete_artifact current wps s → complete_artifact target wps s' →
  vf_policy target = with_revisions (vf_policy current) (pj_revisions (vf_policy current) ++ [r]) →
  is_direct_descendant_of s' s = true ∧ revision_step (pj_genesis (vf_policy current)) s r s'.
Proof.
  intros [_ Hr _ _ _] [_ Hr' _ _ _] Hj. rewrite -> Hj in Hr'. unfold replay_policy_with_witness_policies in Hr, Hr'.
  apply bind_Ok in Hr as (cat & Hcat & Hr). apply bind_Ok in Hr' as (cat' & Hcat' & Hr').
  rewrite -> Hcat in Hcat'. apply Ok_inj in Hcat' as <-.
  assert (replay_policy_with_catalog (with_revisions (vf_policy current) (pj_revisions (vf_policy current))) cat
    = Ok s) as Hs by (by destruct (vf_policy current)).
  split; [by eapply replay_descends|]. apply replay_last in Hr' as (s0 & Hs0 & _ & Hstep).
  rewrite -> Hs in Hs0. by apply Ok_inj in Hs0 as <-.
Qed.

(** ** The change of envelopes *)

Lemma envelope_delta_Ok current target s s' :
  validate_envelope_delta current target s s' = Ok () →
  (∀ id i, ps_items s' !! id = Some i → ∃ e, envelope_map (vf_items target) !! id = Some e ∧
    ∀ e0, envelope_map (vf_items current) !! id = Some e0 → item_changed s id i = negb (e0 ==? e)) ∧
  dom (envelope_map (vf_items target)) = dom (ps_items s').
Proof.
  unfold validate_envelope_delta. intros Hd. apply bind_Ok in Hd as ([] & Hl & Hd%reject_if_Ok).
  pose proof (proj1 (forE_Ok _ _ _) Hl) as Hl'. clear Hl. rw existsb_false in Hd.
  assert (∀ id i, ps_items s' !! id = Some i → ∃ e, envelope_map (vf_items target) !! id = Some e ∧
    ∀ e0, envelope_map (vf_items current) !! id = Some e0 → item_changed s id i = negb (e0 ==? e)) as Hi.
  { intros id i Hi%elem_of_entries%Hl'. cbn [envelope_delta_step] in Hi. repeat inv_ok_step.
    match goal with Hx : envelope_map (vf_items target) !! id = Some ?e |- _ => exists e; split; [done|] end.
    intros e0 He0. rewrite -> He0 in *. by destruct (item_changed s id i), (_ ==? _). }
  split; [done|]. apply set_eq. intros id. rw !elem_of_dom. split.
  - intros [e He]. destruct (ps_items s' !! id) as [i|] eqn:E; [done|].
    specialize (Hd id). rw E bool_decide_true in Hd; [|done]. discriminate Hd. unfold keys.
    apply list_elem_of_fmap. exists (id, e). split; [done|by apply elem_of_entries].
  - intros [i Hx%Hi]. destruct Hx as (e & -> & _). done.
Qed.

(** An item whose contents the policy kept keeps its envelope. *)
Lemma untouched_envelope current target wps s s' id :
  complete_artifact current wps s → validate_envelope_delta current target s s' = Ok () →
  content <$> ps_items s' !! id = content <$> ps_items s !! id →
  envelope_map (vf_items target) !! id = envelope_map (vf_items current) !! id.
Proof.
  intros [_ _ _ Hdom _] [Hi Hdom']%envelope_delta_Ok Hc. destruct (ps_items s' !! id) as [i|] eqn:E.
  - destruct (Hi id i E) as (e & -> & He). destruct (ps_items s !! id) as [i0|] eqn:E0; [|done].
    assert (is_Some (envelope_map (vf_items current) !! id)) as [e0 He0]
      by (apply elem_of_dom; rw Hdom; by eapply elem_of_dom_2).
    rw He0. f_equal. specialize (He e0 He0). unfold item_changed in He. rw E0 in He. cbn in Hc.
    apply (inj Some) in Hc.
    assert (it_current_item_revision_hash i = it_current_item_revision_hash i0 ∧
      it_descriptor i = it_descriptor i0) as [Hh Hd] by (by destruct i, i0; injection Hc).
    rewrite -> Hh, Hd, !bool_decide_true in He by done. cbn in He. symmetry in He. by to_prop.
  - destruct (ps_items s !! id) eqn:E0; [done|]. trans (None : option ItemEnvelopeV1); [|symmetry];
      apply not_elem_of_dom; [rw Hdom'|rw Hdom]; by apply not_elem_of_dom.
Qed.
End complete.

Section plans.
Context `{Crypto} (json_pretty : VaultFileV1 → option bytes).
Implicit Types (current target : VaultFileV1) (wps : list WitnessPolicy) (s : PolicyState)
  (plan : VaultMutationPlan) (prepared : PreparedPolicyRevision) (envs : list ItemEnvelopeV1).

(** ** What planning checked *)

Record planned current wps prepared envs ts ack kind plan s (r : gmap ItemId ItemEnvelopeV1)
    (f : TransitionFlags) : Prop := {
  pf_current : validate_complete current wps true = Ok s;
  pf_source : ∃ source, to_json_bytes json_pretty current = Ok source ∧
    mp_precondition plan = plan_precondition source s;
  pf_previous : pr_previous_revision_hash (prep_revision prepared) = ps_terminal_revision_hash s;
  pf_replacements : foldE collect_replacement ∅ envs = Ok r;
  pf_target : mp_target plan = target_vault current (prep_revision prepared)
    (deleted_item_ids (pr_operations (prep_revision prepared))) r;
  pf_complete : validate_complete (mp_target plan) wps false = Ok (mp_target_policy plan);
  pf_state : mp_target_policy plan = prep_state prepared;
  pf_delta : validate_envelope_delta current (mp_target plan) s (mp_target_policy plan) = Ok ();
  pf_cover : kind = MK_PrivacyCover →
    validate_privacy_cover current (mp_target plan) s (mp_target_policy plan) = Ok ();
  pf_flags : transition_flags s (mp_target_policy plan)
    (touched_item_ids (pr_operations (prep_revision prepared))) (pr_operations (prep_revision prepared)) = Ok f;
  pf_acknowledged : tf_direct_downgrade f || tf_witness_weakened f = true → ack = DA_Acknowledged;
  pf_bytes : to_json_bytes json_pretty (mp_target plan) = Ok (mp_target_bytes plan);
  pf_digest : mp_target_digest plan = sha256 (mp_target_bytes plan);
  pf_changed : mp_target_digest plan ≠ rp_vault_digest (mp_precondition plan);
  pf_touched : mp_touched_items plan =
    sorted_elements (touched_item_ids (pr_operations (prep_revision prepared)));
  pf_timestamp : mp_timestamp_ms plan = ts;
}.

Lemma from_prepared_Ok current wps prepared envs ts ack kind plan :
  from_prepared json_pretty current wps prepared envs ts ack kind = Ok plan →
  ∃ s r f, planned current wps prepared envs ts ack kind plan s r f.
Proof.
  unfold from_prepared. intros Hp. apply bind_Ok in Hp as (s & Hs & Hp).
  apply bind_Ok in Hp as (source & Hsource%map_err_Ok & Hp). apply reject_if_bind in Hp as [Hg Hp].
  apply bind_Ok in Hp as (r & Hr & Hp). apply bind_Ok in Hp as (s' & Hs' & Hp).
  apply reject_if_bind in Hp as [Heq Hp]. apply bind_Ok in Hp as ([] & Hd & Hp).
  apply bind_Ok in Hp as ([] & Hk & Hp). apply bind_Ok in Hp as (f & Hf & Hp).
  apply reject_if_bind in Hp as [Ha Hp]. apply bind_Ok in Hp as (bs & Hb%map_err_Ok & Hp).
  apply reject_if_bind in Hp as [Hne Hp%Ok_inj]. to_prop. subst plan.
  unfold target_vault in Hf. cbn [vf_policy pj_revisions] in Hf. rewrite -> last_snoc in Hf. cbn in Hf.
  exists s, r, f. split; try done; cbn [mp_target mp_target_policy mp_target_bytes].
  - by exists source.
  - intros ->. by rewrite -> bool_decide_true in Hk.
  - intros Hw. rewrite -> Hw in Ha. cbn in Ha. by to_prop.
Qed.

Lemma planned_complete current wps prepared envs ts ack kind plan s r f :
  planned current wps prepared envs ts ack kind plan s r f →
  complete_artifact current wps s ∧ complete_artifact (mp_target plan) wps (mp_target_policy plan) ∧
  vf_policy (mp_target plan) =
    with_revisions (vf_policy current) (pj_revisions (vf_policy current) ++ [prep_revision prepared]).
Proof.
  intros Hp. split_and!.
  - eapply validate_complete_Ok, pf_current, Hp.
  - eapply validate_complete_Ok, pf_complete, Hp.
  - by rewrite -> (pf_target _ _ _ _ _ _ _ _ _ _ _ Hp).
Qed.

(** The items a plan does not touch. *)
Lemma planned_untouched current wps prepared envs ts ack kind plan s r f id :
  planned current wps prepared envs ts ack kind plan s r f →
  id ∉ touched_item_ids (pr_operations (prep_revision prepared)) →
  content <$> ps_items (mp_target_policy plan) !! id = content <$> ps_items s !! id.
Proof.
  intros Hp Hid. destruct (planned_complete _ _ _ _ _ _ _ _ _ _ _ Hp) as (Hc & Ht & Hj).
  destruct (complete_step _ _ _ _ _ _ Hc Ht Hj) as [_ Hstep]. by eapply revision_untouched.
Qed.

(** C17: a plan publishes a complete vault one revision after the current one.
    The target validates, its journal is the current one with the prepared
    revision and replays to the prepared state, which descends directly from
    the current state; it holds exactly the envelopes that state names, an
    envelope being a replacement or one the current vault has; the items no
    operation names keep theirs. The bytes are the canonical form of the
    target, and the precondition names the current vault. *)
Theorem mutation_plan_sound current wps prepared envs ts ack kind plan :
  from_prepared json_pretty current wps prepared envs ts ack kind = Ok plan →
  ∃ s source, complete_artifact current wps s ∧
    complete_artifact (mp_target plan) wps (mp_target_policy plan) ∧
    vf_policy (mp_target plan) =
      with_revisions (vf_policy current) (pj_revisions (vf_policy current) ++ [prep_revision prepared]) ∧
    mp_target_policy plan = prep_state prepared ∧
    is_direct_descendant_of (mp_target_policy plan) s = true ∧
    (∀ id e, envelope_map (vf_items (mp_target plan)) !! id = Some e →
      e ∈ envs ∨ envelope_map (vf_items current) !! id = Some e) ∧
    (∀ id, id ∉ touched_item_ids (pr_operations (prep_revision prepared)) →
      envelope_map (vf_items (mp_target plan)) !! id = envelope_map (vf_items current) !! id) ∧
    to_json_bytes json_pretty (mp_target plan) = Ok (mp_target_bytes plan) ∧
    mp_target_digest plan = sha256 (mp_target_bytes plan) ∧
    to_json_bytes json_pretty current = Ok source ∧ mp_precondition plan = plan_precondition source s ∧
    mp_target_digest plan ≠ sha256 source.
Proof.
  intros (s & r & f & Hp)%from_prepared_Ok. pose proof (planned_complete _ _ _ _ _ _ _ _ _ _ _ Hp) as (Hc & Ht & Hj).
  destruct (pf_source _ _ _ _ _ _ _ _ _ _ _ Hp) as (source & Hsource & Hpre). exists s, source.
  destruct (complete_step _ _ _ _ _ _ Hc Ht Hj) as [Hdesc _].
  pose proof (pf_changed _ _ _ _ _ _ _ _ _ _ _ Hp) as Hne. rewrite -> Hpre in Hne.
  split_and!; [done|done|done|by apply Hp|done| | |by apply Hp|by apply Hp|done|done|done].
  - pose proof (pf_replacements _ _ _ _ _ _ _ _ _ _ _ Hp) as Hr.
    destruct (target_items current (prep_revision prepared) (deleted_item_ids (pr_operations (prep_revision prepared))) r)
      as [_ Hm]; [by apply validated_sorted, Hc|by eapply collect_replacements_keys|].
    rewrite -> (pf_target _ _ _ _ _ _ _ _ _ _ _ Hp), Hm. intros id e.
    intros [He|[_ [He _]%map_lookup_filter_Some]]%lookup_union_Some_raw; [left|by right].
    by eapply collect_replacements_elem.
  - intros id Hid. eapply untouched_envelope; [done|by apply Hp|]. by eapply planned_untouched.
Qed.

(** C18: without an acknowledgement nothing grows of the authority that is compared.
    For every item of a plan made without the acknowledgement: whoever holds a
    direct slot held one before, or replaces a principal that did; and a witness
    policy that took the place of another asks for as many witnesses, and for
    every operation the other had a rule for it has a rule that asks for as many
    approvals, from no other approvers, within limits no wider and on platforms no
    less assured. Nothing is said of rules for operations the other policy had no
    rule for, nor of the targets a rule serves without approval: these may grow,
    as C40 shows. *)
Theorem unacknowledged_plan_keeps_compared_authority current wps prepared envs ts kind plan :
  from_prepared json_pretty current wps prepared envs ts DA_Absent kind = Ok plan →
  ∃ s, validate_complete current wps true = Ok s ∧
    ∀ id, compared_authority_kept (replacements (pr_operations (prep_revision prepared))) s (mp_target_policy plan) id.
Proof.
  intros (s & r & f & Hp)%from_prepared_Ok. exists s. split; [by apply Hp|]. intros id.
  destruct (decide (id ∈ touched_item_ids (pr_operations (prep_revision prepared)))) as [Hid|Hid].
  - eapply transition_flags_kept; [by apply Hp| |done]. destruct (_ || _) eqn:E; [|done].
    by apply (pf_acknowledged _ _ _ _ _ _ _ _ _ _ _ Hp) in E.
  - apply content_kept. by eapply planned_untouched.
Qed.

(** ** Transfer *)

Lemma starts_with_list_prefix {A} `{EqDecision A} (l p : list A) :
  starts_with_list l p = true ↔ p `prefix_of` l.
Proof.
  unfold starts_with_list. rw bool_decide_eq_true. split.
  - intros Ht. exists (drop (length p) l). rewrite <- Ht at 1. by rewrite -> take_drop.
  - intros [k ->]. apply take_app_length.
Qed.

Lemma item_history_is_prefix_refl e : item_history_is_prefix e e = true.
Proof.
  unfold item_history_is_prefix. rewrite -> (proj2 (starts_with_list_prefix _ _)) by done. cbn.
  rewrite -> !bool_decide_true, !N.leb_refl by done. by rewrite -> orb_true_r.
Qed.

(** Deletion by one of the operations of a list. *)
Lemma elem_of_deleted ops id : id ∈ deleted_item_ids ops ↔ existsb (is_item_delete id) ops = true.
Proof.
  unfold deleted_item_ids. rw elem_of_collect_set list_elem_of_omap existsb_exists.
  setoid_rewrite list_elem_of_In. split.
  - intros (op & Hin & Hop). exists op. split; [done|]. destruct op; try done. injection Hop as ->.
    by apply bool_decide_true.
  - intros (op & Hin & Hop). exists op. split; [done|]. destruct op; try done. by apply bool_decide_eq_true in Hop as ->.
Qed.

Lemma planned_strict_descendant current wps prepared envs ts ack kind plan s r f :
  planned current wps prepared envs ts ack kind plan s r f →
  (∀ e e', e ∈ vf_items current → e' ∈ envs → ie_item_id e' = ie_item_id e →
    item_history_is_prefix e e' = true) →
  is_strict_descendant current (mp_target plan) = true.
Proof.
  intros Hp Hh. destruct (planned_complete _ _ _ _ _ _ _ _ _ _ _ Hp) as (Hc & Ht & Hj).
  pose proof (validated_sorted _ (ca_valid _ _ _ Hc)) as Hs.
  pose proof (collect_replacements_keys _ _ (pf_replacements _ _ _ _ _ _ _ _ _ _ _ Hp)) as Hk.
  destruct (target_items current (prep_revision prepared) (deleted_item_ids (pr_operations (prep_revision prepared)))
    r Hs Hk) as [_ Hm].
  rewrite -> (pf_target _ _ _ _ _ _ _ _ _ _ _ Hp). unfold is_strict_descendant. rewrite -> Hm.
  cbn [target_vault vf_header vf_policy vf_suite_migration pj_genesis pj_revisions].
  rewrite -> !bool_decide_true by done. rewrite -> (proj2 (starts_with_list_prefix _ _)) by by exists [prep_revision prepared].
  rewrite -> len_app. replace (_ <=? _)%N with false by (symmetry; apply N.leb_gt; unfold len; cbn; lia).
  cbn [negb orb]. apply forallb_forall. intros e He%list_elem_of_In. rewrite -> lookup_union.
  destruct (r !! ie_item_id e) as [e'|] eqn:E.
  - assert (union_with (λ x _ : ItemEnvelopeV1, Some x) (Some e')
      (filter (λ p, p.1 ∉ deleted_item_ids (pr_operations (prep_revision prepared)))
        (envelope_map (vf_items current)) !! ie_item_id e) = Some e') as Hu by (by destruct (filter _ _ !! _)).
    unfold union, option_union. rewrite -> Hu. apply Hh; [done| |by apply Hk in E].
    eapply collect_replacements_elem; [apply Hp|exact E].
  - rewrite -> (left_id_L None _). destruct (decide (ie_item_id e ∈ deleted_item_ids (pr_operations (prep_revision prepared)))) as [Hd|Hd].
    + rewrite -> map_lookup_filter_None_2 by (right; by intros ? ? ?). unfold policy_suffix_deletes.
      cbn [target_vault vf_policy pj_revisions]. rewrite -> drop_app_length. cbn. by rewrite -> (proj1 (elem_of_deleted _ _) Hd).
    + rewrite -> (map_lookup_filter_Some_2 _ _ _ e); [apply item_history_is_prefix_refl| |done].
      by apply envelope_map_Some.
Qed.

(** A copy of the current vault imports what was planned, if it notices nothing. *)
Lemma planned_imports current wps prepared envs ts ack kind plan s r f :
  planned current wps prepared envs ts ack kind plan s r f →
  tf_direct_downgrade f || tf_witness_weakened f = false →
  (∀ e e', e ∈ vf_items current → e' ∈ envs → ie_item_id e' = ie_item_id e →
    item_history_is_prefix e e' = true) →
  preflight_transfer_import current (mp_target plan) wps = Ok IncomingStrictDescendant.
Proof.
  intros Hp Hf Hh.
  destruct (planned_complete _ _ _ _ _ _ _ _ _ _ _ Hp) as (Hc & Ht & Hj).
  assert (compare_artifacts current (mp_target plan) = IncomingStrictDescendant) as Hcmp.
  { unfold compare_artifacts. rewrite -> bool_decide_false, (planned_strict_descendant _ _ _ _ _ _ _ _ _ _ _ Hp Hh);
      [done|]. intros Heq. apply (f_equal (length ∘ pj_revisions ∘ vf_policy)) in Heq. cbn in Heq.
    rewrite -> Hj in Heq. cbn in Heq. rewrite -> length_app in Heq. cbn in Heq. lia. }
  assert (suffix_operations current (mp_target plan) = pr_operations (prep_revision prepared)) as Hops.
  { unfold suffix_operations. rewrite -> Hj. cbn [with_revisions pj_revisions]. rewrite -> drop_app_length.
    cbn. apply app_nil_r. }
  unfold preflight_transfer_import. rewrite -> (pf_current _ _ _ _ _ _ _ _ _ _ _ Hp). cbn.
  rewrite -> (pf_complete _ _ _ _ _ _ _ _ _ _ _ Hp). cbn. rewrite -> Hcmp, Hops.
  rewrite -> (pf_delta _ _ _ _ _ _ _ _ _ _ _ Hp). cbn. rewrite -> (pf_flags _ _ _ _ _ _ _ _ _ _ _ Hp). cbn.
  by rewrite -> Hf.
Qed.

(** C20: what a plan published can be imported. A copy of the vault that is
    still the current one accepts the target of an unacknowledged plan as a
    strict descendant, when each replacement envelope continues the history of
    the one it replaces. *)
Theorem published_plan_imports current wps prepared envs ts kind plan :
  from_prepared json_pretty current wps prepared envs ts DA_Absent kind = Ok plan →
  (∀ e e', e ∈ vf_items current → e' ∈ envs → ie_item_id e' = ie_item_id e →
    item_history_is_prefix e e' = true) →
  preflight_transfer_import current (mp_target plan) wps = Ok IncomingStrictDescendant.
Proof.
  intros (s & r & f & Hp)%from_prepared_Ok. eapply planned_imports; [exact Hp|].
  destruct (_ || _) eqn:E; [|done]. by apply (pf_acknowledged _ _ _ _ _ _ _ _ _ _ _ Hp) in E.
Qed.

(** The items no operation of a run of revisions names. *)
Lemma replay_untouched j revs more cat s s' id :
  replay_policy_with_catalog (with_revisions j revs) cat = Ok s →
  replay_policy_with_catalog (with_revisions j (revs ++ more)) cat = Ok s' →
  id ∉ touched_item_ids (mjoin (pr_operations <$> more)) →
  content <$> ps_items s' !! id = content <$> ps_items s !! id.
Proof.
  intros Hs. revert s'. induction more as [|r more IH] using rev_ind; intros s' Hs' Hid.
  - rewrite -> app_nil_r in Hs'. rewrite -> Hs in Hs'. by apply Ok_inj in Hs' as <-.
  - rewrite -> app_assoc in Hs'. apply replay_last in Hs' as (s1 & Hs1 & _ & Hstep).
    rewrite -> fmap_app, join_app, touched_app in Hid. apply not_elem_of_union in Hid as [Hid Hr].
    etrans; [|by apply IH]. eapply revision_untouched; [exact Hstep|].
    cbn in Hr. by rewrite -> app_nil_r in Hr.
Qed.

Lemma suffix_deletes vault n id :
  policy_suffix_deletes vault n id = true →
  id ∈ deleted_item_ids (mjoin (pr_operations <$> drop n (pj_revisions (vf_policy vault)))).
Proof.
  unfold policy_suffix_deletes. rw elem_of_deleted. generalize (drop n (pj_revisions (vf_policy vault))) as l.
  intros l. induction l as [|r l IH]; [done|]. cbn. rewrite -> existsb_app. intros [->|?%IH]%orb_true_iff; [done|].
  apply orb_true_iff. by right.
Qed.

(** A strict descendant, read as a proposition. *)
Lemma strict_descendant_Ok current incoming :
  is_strict_descendant current incoming = true →
  ∃ more, more ≠ [] ∧
    vf_policy incoming = with_revisions (vf_policy current) (pj_revisions (vf_policy current) ++ more) ∧
    suffix_operations current incoming = mjoin (pr_operations <$> more) ∧
    ∀ e, e ∈ vf_items current →
      match envelope_map (vf_items incoming) !! ie_item_id e with
      | Some e' => item_history e `prefix_of` item_history e'
      | None => ie_item_id e ∈ deleted_item_ids (suffix_operations current incoming)
      end.
Proof.
  unfold is_strict_descendant. destruct (_ || _) eqn:E; [done|]. to_prop. intros Hall.
  match goal with Hx : starts_with_list _ _ = true |- _ => apply starts_with_list_prefix in Hx as [more Hmore] end.
  exists more. assert (suffix_operations current incoming = mjoin (pr_operations <$> more)) as Hops.
  { unfold suffix_operations. by rewrite -> Hmore, drop_app_length. }
  split_and!; [|by destruct (vf_policy incoming); unfold with_revisions; cbn in *; congruence|done|].
  - intros ->. rewrite -> Hmore, app_nil_r in *. lia.
  - intros e He. rw forallb_forall in Hall. apply list_elem_of_In, Hall in He. case_match.
    + unfold item_history_is_prefix in He. destruct (starts_with_list _ _) eqn:Es; [|done].
      by apply starts_with_list_prefix.
    + by apply suffix_deletes in He.
Qed.

(** C21: an import only moves forward. Planning an import of a file gives nothing
    only when the file is the current one; otherwise the target is the file
    as it came, complete, its journal continues the current one, every item of
    the current vault is there with its history continued or was deleted, and of
    no item's authority anything grew that is compared, in the sense of C18: the
    holders of direct slots, and the demands of a witness policy on operations
    the one before had rules for. *)
Theorem transfer_import_sound current incoming wps who ts res :
  prepare_transfer_import json_pretty current incoming wps who ts = Ok res →
  match res with
  | None => incoming = current
  | Some plan => ∃ s more,
      mp_target plan = incoming ∧ complete_artifact current wps s ∧
      complete_artifact incoming wps (mp_target_policy plan) ∧
      is_Some (ps_principals (mp_target_policy plan) !! who) ∧ more ≠ [] ∧
      vf_policy incoming = with_revisions (vf_policy current) (pj_revisions (vf_policy current) ++ more) ∧
      (∀ e, e ∈ vf_items current →
        match envelope_map (vf_items incoming) !! ie_item_id e with
        | Some e' => item_history e `prefix_of` item_history e'
        | None => ie_item_id e ∈ deleted_item_ids (mjoin (pr_operations <$> more))
        end) ∧
      (∀ id, compared_authority_kept (replacements (mjoin (pr_operations <$> more))) s (mp_target_policy plan) id) ∧
      to_json_bytes json_pretty incoming = Ok (mp_target_bytes plan)
  end.
Proof.
  unfold prepare_transfer_import. intros Hp. apply bind_Ok in Hp as (rel & Hpre & Hp).
  apply bind_Ok in Hp as (s & Hs & Hp). apply bind_Ok in Hp as (s' & Hs' & Hp).
  apply reject_if_bind in Hp as [Hwho Hp]. case_bool_decide as Heq; [by apply Ok_inj in Hp as <-|].
  apply bind_Ok in Hp as (source & _ & Hp). apply bind_Ok in Hp as (bs & Hbs%map_err_Ok & <-%Ok_inj).
  unfold preflight_transfer_import in Hpre. rewrite -> Hs in Hpre. cbn in Hpre. rewrite -> Hs' in Hpre. cbn in Hpre.
  destruct (compare_artifacts current incoming) eqn:Hcmp; try done.
  { unfold compare_artifacts in Hcmp. rewrite -> bool_decide_false in Hcmp by done. by repeat case_match. }
  apply bind_Ok in Hpre as ([] & _ & Hpre). apply bind_Ok in Hpre as (f & Hf & Hpre).
  apply reject_if_bind in Hpre as [Hflags _]. apply validate_complete_Ok in Hs, Hs'.
  assert (is_strict_descendant current incoming = true) as (more & Hne & Hj & Hops & Hitems)%strict_descendant_Ok.
  { unfold compare_artifacts in Hcmp. rewrite -> bool_decide_false in Hcmp by done. by repeat case_match. }
  rewrite -> Hops in *. exists s, more. cbn. split_and!; try done.
  - to_prop. by destruct (ps_principals s' !! who).
  - intros id. destruct (decide (id ∈ touched_item_ids (mjoin (pr_operations <$> more)))) as [Hid|Hid].
    { by eapply transition_flags_kept. }
    apply content_kept. pose proof (ca_replay _ _ _ Hs) as Hr. pose proof (ca_replay _ _ _ Hs') as Hr'.
    unfold replay_policy_with_witness_policies in Hr, Hr'. apply bind_Ok in Hr as (cat & Hcat & Hr).
    rewrite -> Hcat, Hj in Hr'. cbn in Hr'. eapply replay_untouched; [|exact Hr'|done].
    by destruct (vf_policy current).
Qed.

(** ** What the transition does not compare *)

Definition set_automatic_targets (targets : list AutomaticReadTarget) (r : OperationRule) : OperationRule := {|
  rule_operation := rule_operation r;
  rule_eligible_approver_ids := rule_eligible_approver_ids r;
  rule_approval_threshold := rule_approval_threshold r;
  rule_allowed_request_lifetime_ms := rule_allowed_request_lifetime_ms r;
  rule_max_timeout_ms := rule_max_timeout_ms r;
  rule_max_output_bytes := rule_max_output_bytes r;
  rule_max_target_count := rule_max_target_count r;
  rule_required_platform_assurance := rule_required_platform_assurance r;
  rule_automatic_read_targets := targets;
|}.

(** A policy with the rules of another, each of which may serve any targets without
    approval, and with any rules for operations the other has none for. *)
Record unnoticed_change (p q : WitnessPolicy) : Prop := {
  uc_threshold : wp_witness_threshold q = wp_witness_threshold p;
  uc_operations : NoDup (rule_operation <$> wp_operation_rules q);
  uc_rules r : r ∈ wp_operation_rules p → ∃ targets, set_automatic_targets targets r ∈ wp_operation_rules q;
}.

Lemma rule_is_weaker_targets targets r : rule_is_weaker r (set_automatic_targets targets r) = false.
Proof.
  unfold rule_is_weaker. cbn. rewrite -> !N.ltb_irrefl. cbn. apply orb_false_iff. split.
  - by destruct (rule_required_platform_assurance r).
  - apply existsb_false. intros p Hp. by rewrite -> bool_decide_true.
Qed.

Lemma find_rule rules r :
  NoDup (rule_operation <$> rules) → r ∈ rules →
  find (λ next_rule, rule_operation next_rule ==? rule_operation r) rules = Some r.
Proof.
  induction rules as [|x rules IH]; [by intros _ ?%elem_of_nil|]. rewrite -> fmap_cons. intros [Hx Hnd]%NoDup_cons Hr. cbn.
  apply elem_of_cons in Hr as [->|Hr]; [by rewrite -> bool_decide_true|].
  rewrite -> bool_decide_false; [by apply IH|]. intros Heq. apply Hx. rewrite -> Heq. by apply list_elem_of_fmap_2.
Qed.

Lemma unnoticed_not_weaker p q : unnoticed_change p q → witness_policy_is_weaker p q = false.
Proof.
  intros [Ht Hnd Hr]. unfold witness_policy_is_weaker. rewrite -> Ht, N.ltb_irrefl. cbn. apply existsb_false.
  intros r [targets Hin]%Hr. pose proof (find_rule _ _ Hnd Hin) as Hf. cbn in Hf. rewrite -> Hf. apply rule_is_weaker_targets.
Qed.

(** An item without direct slots whose policy, where it has another one, changed
    unnoticed. *)
Definition guarded_unnoticed s s' (id : ItemId) : Prop :=
  ∀ next, ps_items s' !! id = Some next → it_direct_slots next = [] ∧
    ∀ i d d' p q, ps_items s !! id = Some i → witness_digest i = Some d → witness_digest next = Some d' → d ≠ d' →
      ps_witness_policies s !! d = Some p → ps_witness_policies s' !! d' = Some q → unnoticed_change p q.

Lemma item_transition_unnoticed s s' replaced f id f' :
  guarded_unnoticed s s' id → item_transition s s' replaced f id = Ok f' →
  tf_direct_downgrade f' = tf_direct_downgrade f ∧ tf_witness_weakened f' = tf_witness_weakened f.
Proof.
  unfold item_transition. intros Hg. destruct (ps_items s' !! id) as [next|] eqn:En; [|by intros <-%Ok_inj].
  destruct (Hg next En) as [Hd Hp]. assert (item_direct_downgrade replaced (ps_items s !! id) next = false) as ->.
  { unfold item_direct_downgrade, next_direct_recipients. by rewrite -> Hd. }
  case_bool_decide as Heq; [intros <-%Ok_inj; cbn; by rewrite -> orb_false_r|].
  intros (w & Hw & <-%Ok_inj)%bind_Ok. cbn. rewrite -> orb_false_r. split; [done|].
  destruct (ps_items s !! id ≫= witness_digest) as [d|] eqn:E, (witness_digest next) as [d'|] eqn:E'; try by apply Ok_inj in Hw.
  apply bind_Ok in Hw as (p & Hp0%ok_or_Ok & Hw). apply bind_Ok in Hw as (q & Hq%ok_or_Ok & Hw%Ok_inj).
  destruct (ps_items s !! id) as [i|] eqn:Ei; [|done]. cbn in E.
  rewrite -> (unnoticed_not_weaker p q), orb_false_r in Hw; [done|]. eapply Hp; try done. congruence.
Qed.

Lemma transition_flags_unnoticed s s' touched ops f :
  transition_flags s s' touched ops = Ok f → (∀ id, id ∈ touched → guarded_unnoticed s s' id) →
  tf_direct_downgrade f || tf_witness_weakened f = false.
Proof.
  intros Hf Hg. unfold transition_flags in Hf.
  eapply (foldE_preserves (λ f, tf_direct_downgrade f = false ∧ tf_witness_weakened f = false)) in Hf as [-> ->]; [done| |done].
  intros f0 id f1 Hid%elem_of_sorted_elements [Hd Hw] Hs.
  destruct (item_transition_unnoticed _ _ _ _ _ _ (Hg id Hid) Hs) as [-> ->]. done.
Qed.

(** Where nothing is noticed, the acknowledgement makes no difference. *)
Lemma from_prepared_unnoticed current wps prepared envs ts kind plan :
  from_prepared json_pretty current wps prepared envs ts DA_Acknowledged kind = Ok plan →
  (∀ s r f, planned current wps prepared envs ts DA_Acknowledged kind plan s r f →
    tf_direct_downgrade f || tf_witness_weakened f = false) →
  from_prepared json_pretty current wps prepared envs ts DA_Absent kind = Ok plan.
Proof.
  intros Hp Hflags. destruct (from_prepared_Ok _ _ _ _ _ _ _ _ Hp) as (s0 & r0 & f0 & Hpl).
  specialize (Hflags _ _ _ Hpl). unfold from_prepared in *. apply bind_Ok in Hp as (s & Hs & Hp).
  apply bind_Ok in Hp as (source & Hsource & Hp). apply reject_if_bind in Hp as [Hg Hp].
  apply bind_Ok in Hp as (r & Hr & Hp). apply bind_Ok in Hp as (s' & Hs' & Hp).
  apply reject_if_bind in Hp as [Heq Hp]. apply bind_Ok in Hp as ([] & Hd & Hp).
  apply bind_Ok in Hp as ([] & Hk & Hp). apply bind_Ok in Hp as (f & Hf & Hp).
  apply reject_if_bind in Hp as [_ Hp]. apply bind_Ok in Hp as (bs & Hb & Hp).
  apply reject_if_bind in Hp as [Hne Hp%Ok_inj].
  assert (f = f0) as ->.
  { pose proof (pf_flags _ _ _ _ _ _ _ _ _ _ _ Hpl) as Hf0. pose proof (pf_current _ _ _ _ _ _ _ _ _ _ _ Hpl) as Hs0.
    rewrite -> Hs in Hs0. apply Ok_inj in Hs0 as <-. subst plan. cbn [mp_target_policy] in Hf0.
    unfold target_vault in Hf. cbn [vf_policy pj_revisions] in Hf. rewrite -> last_snoc in Hf. cbn [from_option] in Hf.
    rewrite -> Hf0 in Hf. by apply Ok_inj in Hf. }
  rewrite -> Hs. cbn [mbind result_bind]. rewrite -> Hsource. cbn [mbind result_bind]. rewrite -> Hg. cbn [reject_if mbind result_bind].
  rewrite -> Hr. cbn [mbind result_bind]. rewrite -> Hs'. cbn [mbind result_bind]. rewrite -> Heq. cbn [reject_if mbind result_bind].
  rewrite -> Hd. cbn [mbind result_bind]. rewrite -> Hk. cbn [mbind result_bind]. rewrite -> Hf. cbn [mbind result_bind].
  rewrite -> Hflags. cbn [andb reject_if mbind result_bind]. rewrite -> Hb. cbn [mbind result_bind].
  rewrite -> Hne. cbn [reject_if mbind result_bind]. by rewrite -> Hp.
Qed.

(** C40: neither the acknowledgement nor an import looks at which targets a policy serves
    without approval, or at the rules it adds.  A plan made with the acknowledgement,
    whose touched items have no direct slots and change at most to a policy with the same
    threshold and the old rules, each serving any automatic targets, beside any rules for
    further operations, is made without it, too; and a vault whose envelope histories it
    continues imports it as a descendant. *)
Theorem automatic_targets_unchecked current wps prepared envs ts kind plan s :
  from_prepared json_pretty current wps prepared envs ts DA_Acknowledged kind = Ok plan →
  validate_complete current wps true = Ok s →
  (∀ id, id ∈ mp_touched_items plan → guarded_unnoticed s (mp_target_policy plan) id) →
  from_prepared json_pretty current wps prepared envs ts DA_Absent kind = Ok plan ∧
  ((∀ e e', e ∈ vf_items current → e' ∈ envs → ie_item_id e' = ie_item_id e →
    item_history_is_prefix e e' = true) →
   preflight_transfer_import current (mp_target plan) wps = Ok IncomingStrictDescendant).
Proof.
  intros Hp Hs Hg. assert (∀ s0 r f, planned current wps prepared envs ts DA_Acknowledged kind plan s0 r f →
    tf_direct_downgrade f || tf_witness_weakened f = false) as Hf.
  { intros s0 r f Hpl. pose proof (pf_current _ _ _ _ _ _ _ _ _ _ _ Hpl) as Hs0. rewrite -> Hs in Hs0. apply Ok_inj in Hs0 as <-.
    eapply transition_flags_unnoticed; [exact (pf_flags _ _ _ _ _ _ _ _ _ _ _ Hpl)|]. intros id Hid. apply Hg.
    rewrite -> (pf_touched _ _ _ _ _ _ _ _ _ _ _ Hpl). by apply elem_of_sorted_elements. }
  split; [by apply from_prepared_unnoticed|]. destruct (from_prepared_Ok _ _ _ _ _ _ _ _ Hp) as (s0 & r & f & Hpl).
  by apply (planned_imports _ _ _ _ _ _ _ _ _ _ _ Hpl), (Hf _ _ _ Hpl).
Qed.

End plans.
