(* ===== verification/MutationCheckpoint.v ===== *)
(** * Privacy covers, and the checkpoint after a plan

    A privacy cover re-encrypts items without changing who may do what. Once a
    plan is published the local state advances to it: the composition of
    [mutation.rs] with [local_state.rs]. *)

From S2P Require Import Prelude Json VaultTypes Canonical Preimage Binding Rollover Validate WitnessPolicy PolicyState Replay ReplayRotation ReplayLineage ReplayTheorems Effects LocalAudit LocalAuditLog LocalCheckpoint LocalReceipts LocalState LocalStateFiles LocalStateTheorems ArtifactRelation Mutation MutationLemmas MutationTheorems.
Local Open Scope jury_scope.

Section cover.
Context `{Crypto} (json_pretty : VaultFileV1 → option bytes).
Implicit Types (s : PolicyState) (ops : list PolicyOperationV1).

(** Two states in which everyone may do the same. *)
Record same_access s s' : Prop := {
  sa_principals : ps_principals s' = ps_principals s;
  sa_owners : ps_owners s' = ps_owners s;
  sa_tombstones : ps_tombstones s' = ps_tombstones s;
  sa_grants id : it_grants <$> ps_items s' !! id = it_grants <$> ps_items s !! id;
}.

Global Instance same_access_equivalence : Equivalence same_access.
Proof.
  split.
  - intros s. by split.
  - intros s s' []. by split.
  - intros s1 s2 s3 [] []. split; [..|intros id]; etrans; eauto.
Qed.

Lemma same_access_role s s' id p : same_access s s' → effective_role s' id p = effective_role s id p.
Proof.
  intros [_ Ho _ Hg]. unfold effective_role. rewrite -> Ho. case_bool_decide; [done|]. specialize (Hg id).
  destruct (ps_items s' !! id), (ps_items s !! id); cbn in *; congruence.
Qed.

Lemma cover_operations s n ops s' :
  Forall (λ op, cover_operation op = true) ops → apply_operations s n ops = Ok s' → same_access s s'.
Proof.
  intros Hops. unfold apply_operations, apply_rotations. intros Ha. repeat inv_ok_step.
  match goal with Hx : foldE (operation_step _ _) _ _ = Ok ?st |- _ => trans (os_next st) end.
  - match goal with Hx : foldE (operation_step _ _) _ _ = Ok ?st |- _ =>
      eapply (foldE_preserves (λ st, same_access s (os_next st))) in Hx; [exact Hx| |by split] end.
    intros st op st' Hop Hst Hstep. unfold operation_step in Hstep. repeat inv_ok_step. cbn [os_next].
    rewrite -> Forall_forall in Hops. apply Hops in Hop. destruct op; try done;
      match goal with Hx : apply_operation _ _ = Ok _ |- _ => apply Ok_inj in Hx as <- end; done.
  - match goal with Hx : foldE (rotation_step _) (?m, _) _ = Ok ?st |- _ =>
      destruct st as [s1 [rs1 ss1]]; eapply (foldE_preserves (λ st, same_access m st.1)) in Hx;
        [repeat inv_ok_step; exact Hx| |done] end.
    intros [x [rs ss]] id [x' [rs' ss']] _ Hst Hstep. cbn [fst] in *. etrans; [exact Hst|].
    apply rotation_step_ok in Hstep as [_ [[-> _]|(i & j & rot & d & h & _ & Hj & _ & _ & _ & ->)]]; [done|].
    split; try done. intros id'. cbn. destruct (decide (id = id')) as [<-|Hne]; [|by rewrite -> lookup_insert_ne].
    by rewrite -> lookup_insert_eq, Hj.
Qed.

(** C29: a privacy cover is neutral. After a cover every principal has the same
    role for every item, the principals, the owners and the tombstones are the
    same; every item it touches is at its next revision in the same bucket and
    reached the same way, and the other envelopes are unchanged. *)
Theorem privacy_cover_neutral current wps prepared envs ts ack plan :
  from_prepared json_pretty current wps prepared envs ts ack MK_PrivacyCover = Ok plan →
  ∃ s, validate_complete current wps true = Ok s ∧
    let s' := mp_target_policy plan in
    ps_principals s' = ps_principals s ∧ ps_owners s' = ps_owners s ∧ ps_tombstones s' = ps_tombstones s ∧
    (∀ id p, effective_role s' id p = effective_role s id p) ∧
    mp_touched_items plan ≠ [] ∧
    (∀ id, id ∈ mp_touched_items plan → ∃ i i' e e',
      ps_items s !! id = Some i ∧ ps_items s' !! id = Some i' ∧ access_mode i' = access_mode i ∧
      envelope_map (vf_items current) !! id = Some e ∧ envelope_map (vf_items (mp_target plan)) !! id = Some e' ∧
      ir_item_revision (ie_current_revision e') = (ir_item_revision (ie_current_revision e) + 1)%N ∧
      ir_bucket_id (ie_current_revision e') = ir_bucket_id (ie_current_revision e)) ∧
    (∀ id, id ∉ mp_touched_items plan →
      envelope_map (vf_items (mp_target plan)) !! id = envelope_map (vf_items current) !! id).
Proof.
  intros (s & r & f & Hp)%from_prepared_Ok. exists s. split; [by apply Hp|].
  destruct (planned_complete _ _ _ _ _ _ _ _ _ _ _ _ Hp) as (Hc & Ht & Hj).
  destruct (complete_step _ _ _ _ _ _ Hc Ht Hj) as [_ Hstep].
  pose proof (pf_cover _ _ _ _ _ _ _ _ _ _ _ _ Hp eq_refl) as Hcover. unfold validate_privacy_cover in Hcover.
  rewrite -> Hj in Hcover. cbn [with_revisions pj_revisions] in Hcover. rewrite -> last_snoc in Hcover. cbn in Hcover.
  apply reject_if_bind in Hcover as [[Hne Hops]%orb_false_iff Hcover].
  pose proof (proj1 (forE_Ok _ _ _) Hcover) as Hitems. rw existsb_false in Hops.
  assert (same_access s (mp_target_policy plan)) as Hsame.
  { destruct Hstep as [_ _ _ _ _ (next & h & -> & _ & [(_ & _ & _ & ->)|[_ Ha]])]; [by split|].
    eapply cover_operations in Ha; [by destruct Ha; split|]. apply Forall_forall. intros op Hop.
    apply Hops in Hop. by to_prop. }
  pose proof (pf_touched _ _ _ _ _ _ _ _ _ _ _ _ Hp) as Htouch. cbn zeta. rewrite -> Htouch.
  split_and!; [apply Hsame..|intros id p; by apply same_access_role| | |].
  - to_prop. intros Hnil. apply Hne. apply set_eq. intros id. rewrite <- elem_of_sorted_elements, Hnil. set_solver.
  - intros id Hid. specialize (Hitems id Hid). unfold cover_step in Hitems. repeat inv_ok_step. to_prop.
    pose proof (validated_sorted _ (ca_valid _ _ _ Hc)) as Hs. pose proof (validated_sorted _ (ca_valid _ _ _ Ht)) as Hs'.
    repeat match goal with Hx : find_envelope _ _ = Some _ |- _ => apply find_envelope_lookup in Hx end.
    do 4 eexists. split_and!; [done|done|by symmetry|by apply envelope_map_Some|by apply envelope_map_Some| |by symmetry].
    match goal with Hx : checked_add_u64 _ _ = Some _ |- _ => by apply checked_add_Some in Hx as [-> _] end.
  - intros id Hid. rewrite -> elem_of_sorted_elements in Hid. eapply untouched_envelope; [done|by apply Hp|].
    by eapply planned_untouched.
Qed.
End cover.

Section checkpoint.
Context `{Crypto} `{Hmac} `{!Json AuditEvent, !JsonLine AuditEvent, !EventJson}.
Context (json_pretty : VaultFileV1 → option bytes).
Implicit Types (s : PolicyState) (c : CheckpointCandidate) (st : VerifiedLocalState).

(** The history of a journal has the hash its last revision continues, below the
    hash of that revision. *)
Lemma candidate_last policy j revs r envelopes c :
  CheckpointCandidate_from_validated policy j envelopes = Ok c → pj_revisions j = revs ++ [r] →
  last_key_value (cc_policy_history c) = Some ((len revs + 1)%N, ps_terminal_revision_hash policy) ∧
  cc_policy_history c !! len revs = Some (pr_previous_revision_hash r).
Proof.
  intros Hc Hj. pose proof (from_validated_Ok _ _ _ _ Hc) as [_ [Hle Hsome]].
  unfold CheckpointCandidate_from_validated in Hc. apply bind_Ok in Hc as (fp & _ & Hk).
  apply reject_if_bind in Hk as [_ Hk]. apply bind_Ok in Hk as ([[n t] h] & Hf & Hk).
  apply reject_if_bind in Hk as [Ht Hk]. apply bind_Ok in Hk as (_ & _ & Hk).
  apply bind_Ok in Hk as (_ & _ & Hk). apply reject_if_bind in Hk as [_ Hc%Ok_inj]. subst c.
  cbn [cc_policy_history cc_genesis_fingerprint] in *. rewrite -> Hj in *. to_prop. subst t.
  apply foldE_snoc_Ok in Hf as ([[n0 t0] h0] & Hf & Hstep).
  assert (h0 !! n0 = Some t0 ∧ n0 = len revs) as [Hn0 ->].
  { pose proof (history_loop _ _ _ _ _ _ Hf) as [-> _]. split; [|done]. clear Hstep.
    eapply (foldE_preserves (λ a : N * Digest32 * gmap N Digest32, a.2 !! a.1.1 = Some a.1.2)) in Hf;
      [exact Hf| |by cbn; rewrite -> lookup_singleton_eq].
    intros [[i p] g] x [[i' p'] g'] _ _ Hs. unfold history_step in Hs. repeat inv_ok_step.
    match goal with Hx : (_, _, _) = (_, _, _) |- _ => injection Hx as <- <- <- end. cbn.
    by rewrite -> lookup_insert_eq. }
  unfold history_step in Hstep. repeat inv_ok_step. to_prop.
  match goal with Hx : (_, _, _) = (_, _, _) |- _ => injection Hx as <- <- <- end.
  match goal with Hx : checked_add_u64 _ _ = Some _ |- _ => apply checked_add_Some in Hx as [-> _] end.
  split; [|rewrite -> lookup_insert_ne by lia; congruence].
  destruct (last_key_value _) as [[i u]|] eqn:Hl.
  - pose proof (last_key_elem _ _ _ Hl) as Hi. pose proof (last_key_max _ _ _ (len revs + 1)%N _ Hl
      ltac:(by rewrite -> lookup_insert_eq)) as Hge.
    apply Hle in Hi as Hle'. rewrite -> len_app in Hle'. change (len [r]) with 1%N in Hle'. destruct Hle' as [Hle' _].
    assert (i = (len revs + 1)%N) as -> by lia. rewrite -> lookup_insert_eq in Hi. congruence.
  - unfold last_key_value in Hl. apply last_None in Hl.
    match type of Hl with entries ?m = [] => assert (is_Some (m !! (len revs + 1)%N)) as [u Hu%elem_of_entries]
      by (by rewrite -> lookup_insert_eq) end.
    rewrite -> Hl in Hu. by apply elem_of_nil in Hu.
Qed.

(** A candidate whose history has the accepted hash continues it. *)
Lemma relation_continues c k n t i :
  cc_vault_id c = sc_vault_id (ck_scope k) →
  cc_genesis_fingerprint c = sc_genesis_fingerprint (ck_scope k) →
  last_key_value (cc_policy_history c) = Some (n, t) →
  cc_policy_history c !! i = Some (ck_accepted_public_revision_hash k) →
  ∃ rel, relation_to c k = Ok rel ∧ rel ≠ CR_Divergent ∧
    (rel = CR_Equal → t = ck_accepted_public_revision_hash k).
Proof.
  intros Hv Hg Hl Hi. unfold relation_to. rewrite -> !bool_decide_true by done. cbn [negb orb]. rewrite -> Hl. cbn.
  case_bool_decide as Ht; [by exists CR_Equal|]. eexists. split_and!; [done| |]; last first.
  { repeat case_match; done. }
  destruct (list_find _ _) as [[m [q u]]|] eqn:Hf; cbn.
  - apply list_find_Some in Hf as (Hm & Hu & _). cbn in Hu. apply list_elem_of_lookup_2, elem_of_entries in Hm.
    pose proof (last_key_max _ _ _ _ _ Hl Hm) as Hle. pose proof (last_key_elem _ _ _ Hl) as Hn.
    assert (q ≠ n) as Hne by congruence. by rewrite -> (proj2 (N.ltb_lt q n)) by lia.
  - apply list_find_None in Hf. rewrite -> Forall_forall in Hf. by destruct (Hf (i, ck_accepted_public_revision_hash k));
      [apply elem_of_entries|].
Qed.

(** The checkpoint advances to a candidate that continues it. *)
Lemma accept_continues pl c ts st n t i :
  local_ok pl st → validate_candidate_scope c (pl_scope pl) = Ok () →
  last_key_value (cc_policy_history c) = Some (n, t) →
  cc_policy_history c !! i = Some (ck_accepted_public_revision_hash (vs_checkpoint st)) →
  (ck_updated_at_ms (vs_checkpoint st) ≤ ts)%N → (∀ m, ∃ mac, hmac_sha256 (pl_checkpoint_key pl) m = Ok mac) →
  ∃ rel st', accept_candidate pl c ts st = (Ok rel, st') ∧ ck_accepted_public_revision_hash (vs_checkpoint st') = t.
Proof.
  intros Hok Hv Hl Hi Hts Hmac. pose proof (ko_scope _ _ _ (so_checkpoint _ _ Hok)) as Hscope.
  pose proof Hv as Hg. unfold validate_candidate_scope in Hg. apply reject_if_Ok in Hg. to_prop.
  destruct (relation_continues c (vs_checkpoint st) n t i) as (rel & Hrel & Hd & Heq); rw ?Hscope; [done..|].
  unfold accept_candidate. rewrite -> gets_bind. unfold id, lift, mbind, eff_bind.
  rewrite -> (local_ok_scope _ _ Hok), Hv, Hrel. exists rel. destruct rel; [|clear Heq|done].
  { exists st. split; [done|]. symmetry. by apply Heq. }
  pose proof (ko_shape _ _ _ (so_checkpoint _ _ Hok)) as Hshape. unfold LocalCheckpoint_validate_shape in Hshape.
  apply reject_if_Ok in Hshape. to_prop.
  set (k := set_accepted t ts (vs_checkpoint st)). destruct (Hmac (LocalCheckpoint_mac_preimage k)) as [mac Hm].
  assert (LocalCheckpoint_validate_shape k = Ok ()) as Hk.
  { apply reject_if_Ok. pose proof (last_key_elem _ _ _ Hl) as Hn%elem_of_entries.
    match goal with Hx : existsb _ (entries _) = false |- _ =>
      rewrite -> existsb_false in Hx; apply Hx in Hn end. to_prop. cbn. split_guard; try done; lia. }
  unfold on_checkpoint, zoom, LocalCheckpoint_advance, current_policy.
  rewrite -> (proj2 (N.ltb_ge _ _) Hts), Hl. cbn. fold k. unfold LocalCheckpoint_authenticate.
  rewrite -> Hk. cbn. unfold authenticate_local_document. rewrite -> Hm. cbn. by eexists.
Qed.

(** C19: the local state follows a published plan. A local state whose checkpoint
    is at the vault a plan was made from accepts the vault the plan published,
    and its checkpoint is then at that vault, provided the candidate is of its
    scope, the clock did not go back and the MAC can be computed. *)
Theorem plan_advances_checkpoint current wps prepared envs ts ack kind plan pl st ts' :
  from_prepared json_pretty current wps prepared envs ts ack kind = Ok plan → local_ok pl st →
  ck_accepted_public_revision_hash (vs_checkpoint st) = rp_policy_revision_hash (mp_precondition plan) →
  (ck_updated_at_ms (vs_checkpoint st) ≤ ts')%N → (∀ m, ∃ mac, hmac_sha256 (pl_checkpoint_key pl) m = Ok mac) →
  ∃ c, checkpoint_candidate plan = Ok c ∧
    (validate_candidate_scope c (pl_scope pl) = Ok () →
     ∃ rel st', accept_candidate pl c ts' st = (Ok rel, st') ∧ local_ok pl st' ∧
       vs_audit st' = vs_audit st ∧
       ck_accepted_public_revision_hash (vs_checkpoint st') = ps_terminal_revision_hash (mp_target_policy plan)).
Proof.
  intros (s & r & f & Hp)%from_prepared_Ok Hok Hacc Hts Hmac.
  destruct (planned_complete _ _ _ _ _ _ _ _ _ _ _ _ Hp) as (_ & Ht & Hj).
  destruct (pf_source _ _ _ _ _ _ _ _ _ _ _ _ Hp) as (source & _ & Hpre).
  pose proof (ca_candidate _ _ _ Ht) as Hc. unfold checkpoint_candidate.
  destruct (CheckpointCandidate_from_validated _ _ _) as [c|] eqn:E; [|done]. exists c. split; [done|]. intros Hv.
  destruct (candidate_last _ _ (pj_revisions (vf_policy current)) (prep_revision prepared) _ _ E) as [Hl Hi];
    [by rewrite -> Hj|].
  rewrite -> (pf_previous _ _ _ _ _ _ _ _ _ _ _ _ Hp) in Hi. rewrite -> Hpre in Hacc. cbn in Hacc. rewrite <- Hacc in Hi.
  destruct (accept_continues pl c ts' st _ _ _ Hok Hv Hl Hi Hts Hmac) as (rel & st' & Ha & Ht').
  destruct (accept_candidate_Ok _ _ _ _ _ _ Ha Hok) as (? & ? & _). by exists rel, st'.
Qed.
End checkpoint.
