(* ===== verification/MutationCommit.v ===== *)
(** * Committing a mutation plan

    [crates/jury/src/mutation_commit.rs]: a plan is published in an order that
    survives a crash at any point: the audit event that announces it, the policy
    catalogue, the shared vault file, the checkpoint. What Rust drops when a step
    fails, the prepared files and the lock, is dropped here by [dropping] and
    [releasing]. *)

From S2P Require Import Prelude Json VaultTypes Canonical Preimage Rollover Validate WitnessPolicy PolicyState Replay Effects LocalAudit LocalCheckpoint LocalReceipts LocalState Mutation ProtectedMemory Directory PrivateFiles Repository.
Local Open Scope jury_scope.

Inductive MutationCommitErrorKind :=
  | CM_Busy
  | CM_StaleArtifact
  | CM_InvalidArtifact
  | CM_InvalidLocalState
  | CM_AuditIntentNotDurable
  | CM_SharedPublicationFailed
  | CM_ProtectionUnavailable
  | CM_MissingRepositoryPrecondition.

Inductive LocalRecoveryReason :=
  | CheckpointPrepareFailed
  | CheckpointPublishFailed
  | CheckpointParentUnsynced.

Inductive MutationCommitOutcome :=
  | Committed (shared_publication : PublicationOutcome) (warnings : MutationWarnings)
  | Reconciled (warnings : MutationWarnings)
  | CommittedLocalRecoveryRequired (shared_publication : PublicationOutcome)
      (reason : LocalRecoveryReason) (warnings : MutationWarnings).

Record MutationCatalogUpdate := {
  cu_prior : option bytes;
  cu_rollback : bytes;
  cu_target : bytes;
}.

Global Instance CheckpointRelation_eq_dec : EqDecision CheckpointRelation.
Proof. solve_decision. Defined.

(** ** Errors *)

Definition map_lock_error (error : LockError) : MutationCommitErrorKind :=
  match error with LK_Busy => CM_Busy | _ => CM_InvalidLocalState end.

Definition map_shared_prepare_error (error : FilesystemError) : MutationCommitErrorKind :=
  match fe_kind error with
  | FS_IdentityChanged | FS_NotFound => CM_StaleArtifact
  | _ => CM_SharedPublicationFailed
  end.

Definition map_local_state_error (error : LocalStateErrorKind) : MutationCommitErrorKind :=
  match error with LS_ProtectionUnavailable => CM_ProtectionUnavailable | _ => CM_InvalidLocalState end.

Definition map_shared_read_error (_ : FilesystemError) : MutationCommitErrorKind := CM_InvalidArtifact.
Definition map_git_ancestry_error (_ : FilesystemError) : MutationCommitErrorKind := CM_StaleArtifact.
Definition map_local_error (_ : FilesystemError) : MutationCommitErrorKind := CM_InvalidLocalState.
Definition map_checkpoint_error (_ : LocalStateErrorKind) : MutationCommitErrorKind := CM_InvalidLocalState.

(** ** The commit *)

Section commit.
Context `{Crypto} `{Hmac} `{!Json AuditEvent, !JsonLine AuditEvent}.
Context `{!Json LocalCheckpoint, !JsonPretty LocalCheckpoint} `{!Json LocalReceipts, !JsonPretty LocalReceipts}.
Context (json_probe : bytes → option HeaderProbeFields) (json_vault : bytes → option VaultFileV1).
Context (json_pretty : VaultFileV1 → option bytes).
Context {W : Type} `{Directories W, MemoryProvider W}.

Abbreviation commit_eff := (eff MutationCommitErrorKind W).
Abbreviation fs_eff := (eff FilesystemError W).

Inductive SharedArtifact := Repository (repository : RepositoryLocation) | Detached (home : HardenedDir).

(** [MutationCommitTarget]; a [VaultStateDirectory] is its root. *)
Record MutationCommitTarget := {
  mt_shared : SharedArtifact;
  mt_state : HardenedDir;
  mt_local : PrincipalLocalState;
  mt_protection : ProtectionPolicy;
}.

(** ** The shared artifact *)

Definition shared_preview (shared : SharedArtifact) : fs_eff PrivateFilePrecondition :=
  match shared with
  | Repository repository => repository_preview_shared repository
  | Detached home => preview_private_file home (str "vault.json")
  end.

Definition shared_read (shared : SharedArtifact) (maximum_bytes : N) : fs_eff bytes :=
  match shared with
  | Repository repository => repository_read_shared repository maximum_bytes
  | Detached home => read_private_file home (str "vault.json") maximum_bytes
  end.

Definition shared_prepare (precondition : PrivateFilePrecondition) (contents : ProtectedMemory)
    : fs_eff PreparedPrivateFile :=
  prepare_if_unchanged precondition contents true.

Definition matches_ancestry (shared : SharedArtifact) (expected : option Digest32) : bool :=
  match shared, expected with Repository _, Some _ | Detached _, None => true | _, _ => false end.

Definition ancestry_is_current (shared : SharedArtifact) (expected : option Digest32) : commit_eff bool :=
  match shared, expected with
  | Repository repository, Some expected =>
      digest ← map_errM map_git_ancestry_error (repository_git_ancestry_digest repository);
      mret (digest ==? expected)
  | Detached _, None => mret true
  | _, _ => lift (Err CM_MissingRepositoryPrecondition)
  end.

(** ** What is dropped *)

Definition drop_all (xs : list PreparedPrivateFile) : commit_eff unit :=
  forM (λ x, attempt (drop_prepared x) ;; mret ()) xs.

(** A step that may return early while prepared files are alive. *)
Definition dropping {A} (xs : list PreparedPrivateFile) (m : commit_eff A) : commit_eff A :=
  r ← attempt m;
  match r with
  | Ok a => mret a
  | Err error => drop_all xs ;; lift (Err error)
  end.

(** The lock is dropped when its holder returns. *)
Definition releasing {A} (lock : ExclusiveStateLock) (m : commit_eff A) : commit_eff A :=
  r ← attempt m;
  attempt (drop_lock lock) ;;
  lift r.

(** A method called on the variable [local_state]. *)
Definition run_on_local {A} (f : LocalStateErrorKind → MutationCommitErrorKind)
    (m : eff LocalStateErrorKind VerifiedLocalState A) (local_state : VerifiedLocalState)
    : commit_eff (A * VerifiedLocalState) :=
  match m local_state with
  | (Ok a, local_state) => mret (a, local_state)
  | (Err e, _) => lift (Err (f e))
  end.

Definition protect (bs : bytes) (policy : ProtectionPolicy) : commit_eff ProtectedMemory :=
  map_errM (λ _, CM_ProtectionUnavailable) (initialize_supported (len bs) policy (Ok bs)).

Definition committed_recovery (shared_publication : PublicationOutcome) (reason : LocalRecoveryReason)
    (plan : VaultMutationPlan) : MutationCommitOutcome :=
  CommittedLocalRecoveryRequired shared_publication reason (mp_warnings plan).

Definition publish_catalog (prepared : PreparedPrivateFile) : commit_eff unit :=
  outcome ← map_errM map_local_error (publish prepared);
  lift (reject_if (outcome !=? PublishedAndSynced) CM_InvalidLocalState).

Section target.
Context (self : MutationCommitTarget).

Abbreviation shared := (mt_shared self).
Abbreviation state := (mt_state self).
Abbreviation local := (mt_local self).
Abbreviation principal_id := (sc_principal_id (pl_scope (mt_local self))).

Definition prepare_catalog_update (update : MutationCatalogUpdate) : commit_eff (option PreparedPrivateFile) :=
  r ← attempt (locked_read_vault_state state VSF_PolicyCatalog);
  let proceed :=
    protected ← protect (cu_target update) (mt_protection self);
    prepared ← map_errM map_local_error (locked_prepare_vault_state state VSF_PolicyCatalog protected);
    mret (Some prepared) in
  match r with
  | Ok bs =>
      if bs ==? cu_target update then mret None
      else if cu_prior update ==? Some bs then proceed
      else lift (Err CM_InvalidLocalState)
  | Err error =>
      if (fe_kind error ==? FS_NotFound) && (cu_prior update ==? None) then proceed
      else lift (Err CM_InvalidLocalState)
  end.

Definition restore_catalog (update : MutationCatalogUpdate) : commit_eff unit :=
  protected ← protect (cu_rollback update) (mt_protection self);
  prepared ← map_errM map_local_error (locked_prepare_vault_state state VSF_PolicyCatalog protected);
  publish_catalog prepared.

Definition finish_checkpoint (plan : VaultMutationPlan) (local_state : VerifiedLocalState)
    (shared_publication : PublicationOutcome) (reconciled checkpoint_changed : bool)
    : commit_eff MutationCommitOutcome :=
  candidate ← lift (map_err (λ _, CM_InvalidArtifact) (checkpoint_candidate plan));
  '(relation, local_state) ← run_on_local map_checkpoint_error
    (accept_candidate local candidate (dr_timestamp_ms (audit_intent plan))) local_state;
  if reconciled && (relation ==? CR_Equal) && negb checkpoint_changed then mret (Reconciled (mp_warnings plan))
  else
    match local_serialize local local_state with
    | Err _ => mret (committed_recovery shared_publication CheckpointPrepareFailed plan)
    | Ok files =>
        r ← attempt (protect (lf_checkpoint files) (mt_protection self));
        match r with
        | Err _ => mret (committed_recovery shared_publication CheckpointPrepareFailed plan)
        | Ok protected =>
            r ← attempt (locked_vault_prepare state principal_id PSF_Checkpoint protected);
            match r with
            | Err _ => mret (committed_recovery shared_publication CheckpointPrepareFailed plan)
            | Ok prepared =>
                r ← attempt (publish prepared);
                mret match r with
                     | Err _ => committed_recovery shared_publication CheckpointPublishFailed plan
                     | Ok PublishedAndSynced =>
                         if reconciled then Reconciled (mp_warnings plan)
                         else Committed shared_publication (mp_warnings plan)
                     | Ok PublishedButParentUnsynced =>
                         committed_recovery shared_publication CheckpointParentUnsynced plan
                     end
            end
        end
    end.

Definition reconcile (plan : VaultMutationPlan) (local_state : VerifiedLocalState) (checkpoint_changed : bool)
    : commit_eff MutationCommitOutcome :=
  if negb (contains_operation (vs_audit local_state) (mp_target_digest plan)) then
    '(_, local_state) ← run_on_local map_local_state_error (append_event local (audit_intent plan)) local_state;
    files ← lift (map_err map_local_state_error (local_serialize local local_state));
    protected ← protect (lf_audit files) (mt_protection self);
    outcome ← map_errM map_local_error (locked_vault_publish state principal_id PSF_Audit protected);
    if outcome !=? PublishedAndSynced then
      mret (CommittedLocalRecoveryRequired PublishedAndSynced CheckpointPrepareFailed (mp_warnings plan))
    else finish_checkpoint plan local_state PublishedAndSynced true true
  else if negb (Nat.eqb (vs_audit_events_after_checkpoint local_state) 0) then
    '(_, local_state) ← run_on_local map_local_state_error
      (accept_audit_tail local (dr_timestamp_ms (audit_intent plan))) local_state;
    finish_checkpoint plan local_state PublishedAndSynced true true
  else finish_checkpoint plan local_state PublishedAndSynced true checkpoint_changed.

(** The vault as it is, with its state, and whether it is the one the plan starts
    from and the one it leads to. *)
Definition current_artifact (plan : VaultMutationPlan) (current_bytes : bytes)
    : result MutationCommitErrorKind (VaultFileV1 * PolicyState * bool * bool) :=
  current ← map_err (λ _, CM_InvalidArtifact) (parse json_probe json_vault json_pretty current_bytes);
  current_policy ← map_err (λ _, CM_InvalidArtifact)
    (replay_policy_with_witness_policies (vf_policy current) (mp_witness_policies plan));
  map_err (λ _, CM_InvalidArtifact)
    (CheckpointCandidate_from_validated current_policy (vf_policy current) (vf_items current)) ;;
  let current_digest := sha256 current_bytes in
  let is_expected :=
    (current_digest ==? rp_vault_digest (mp_precondition plan)) &&
    (ps_sequence current_policy =? rp_policy_sequence (mp_precondition plan))%N &&
    (ps_terminal_revision_hash current_policy ==? rp_policy_revision_hash (mp_precondition plan)) in
  let is_target :=
    (current_digest ==? mp_target_digest plan) &&
    (ps_sequence current_policy =? ps_sequence (mp_target_policy plan))%N &&
    (ps_terminal_revision_hash current_policy ==? ps_terminal_revision_hash (mp_target_policy plan)) in
  reject_if (negb is_expected && negb is_target) CM_StaleArtifact ;;
  Ok (current, current_policy, is_expected, is_target).

Definition read_local_state : commit_eff VerifiedLocalState :=
  audit ← map_errM map_local_error (locked_vault_read state principal_id PSF_Audit);
  checkpoint ← map_errM map_local_error (locked_vault_read state principal_id PSF_Checkpoint);
  receipts ← map_errM map_local_error (locked_vault_read state principal_id PSF_Receipts);
  lift (map_err (λ _, CM_InvalidLocalState)
    (verify_files local (Some audit) (Some checkpoint) (Some receipts))).

Definition current_checkpoint_candidate (plan : VaultMutationPlan) (current : VaultFileV1)
    (current_policy : PolicyState) : result MutationCommitErrorKind CheckpointCandidate :=
  if (ps_principals current_policy !! principal_id ==? None) &&
     (mp_kind plan ==? MK_TransferImport)
  then map_err (λ _, CM_InvalidArtifact) (checkpoint_candidate plan)
  else map_err (λ _, CM_InvalidArtifact)
    (CheckpointCandidate_from_validated current_policy (vf_policy current) (vf_items current)).

(** The publications, in their order. *)
Definition publish_plan (plan : VaultMutationPlan) (catalog_update : option MutationCatalogUpdate)
    (before_shared_publish : commit_eff unit) (prepared_catalog : option PreparedPrivateFile)
    (prepared_audit prepared_checkpoint prepared_shared : PreparedPrivateFile) : commit_eff MutationCommitOutcome :=
  dropping (prepared_shared :: prepared_checkpoint :: option_list prepared_catalog)
    (audit_outcome ← map_errM map_local_error (publish prepared_audit);
     lift (reject_if (audit_outcome !=? PublishedAndSynced) CM_AuditIntentNotDurable) ;;
     before_shared_publish ;;
     current ← ancestry_is_current shared (rp_repository_ancestry (mp_precondition plan));
     lift (reject_if (negb current) CM_StaleArtifact)) ;;
  catalog_published ← dropping [prepared_shared; prepared_checkpoint]
    match prepared_catalog with
    | Some prepared => publish_catalog prepared ;; mret true
    | None => mret false
    end;
  r ← attempt (publish prepared_shared);
  match r with
  | Err error =>
      dropping [prepared_checkpoint]
        ((if (catalog_published : bool) then
            r ← attempt (shared_read shared MAX_VAULT_BYTES);
            if negb (if r is Ok bs then sha256 bs ==? mp_target_digest plan else false) then
              match catalog_update with Some update => restore_catalog update | None => mret () end
            else mret ()
          else mret ()) ;;
         lift (Err (map_shared_prepare_error error)))
  | Ok shared_publication =>
      r ← attempt (publish prepared_checkpoint);
      mret match r with
           | Err _ => committed_recovery shared_publication CheckpointPublishFailed plan
           | Ok PublishedAndSynced => Committed shared_publication (mp_warnings plan)
           | Ok PublishedButParentUnsynced =>
               committed_recovery shared_publication CheckpointParentUnsynced plan
           end
  end.

(** The event of a plan that is not there yet, and the log that is to hold it. *)
Definition prepare_intent (plan : VaultMutationPlan) (local_state : VerifiedLocalState)
    : commit_eff (PreparedPrivateFile * VerifiedLocalState) :=
  '(_, local_state) ←
    (if negb (contains_operation (vs_audit local_state) (mp_target_digest plan)) then
       run_on_local map_local_state_error (append_event local (audit_intent plan)) local_state
     else run_on_local map_local_state_error
       (accept_audit_tail local (dr_timestamp_ms (audit_intent plan))) local_state);
  intent_files ← lift (map_err map_local_state_error (local_serialize local local_state));
  protected_audit ← protect (lf_audit intent_files) (mt_protection self);
  prepared_audit ← map_errM map_local_error
    (locked_vault_prepare state principal_id PSF_Audit protected_audit);
  mret (prepared_audit, local_state).

(** The checkpoint that records it. *)
Definition prepare_final (plan : VaultMutationPlan) (local_state : VerifiedLocalState)
    : commit_eff PreparedPrivateFile :=
  target_candidate ← lift (map_err (λ _, CM_InvalidArtifact) (checkpoint_candidate plan));
  '(_, local_state) ← run_on_local map_checkpoint_error
    (accept_candidate local target_candidate (dr_timestamp_ms (audit_intent plan))) local_state;
  final_files ← lift (map_err map_local_state_error (local_serialize local local_state));
  protected_checkpoint ← protect (lf_checkpoint final_files) (mt_protection self);
  map_errM map_local_error (locked_vault_prepare state principal_id PSF_Checkpoint protected_checkpoint).

Definition prepare_target (plan : VaultMutationPlan) (shared_precondition : PrivateFilePrecondition)
    : commit_eff PreparedPrivateFile :=
  protected_shared ← protect (mp_target_bytes plan) (mt_protection self);
  map_errM map_shared_prepare_error (shared_prepare shared_precondition protected_shared).

Definition prepare_and_publish (plan : VaultMutationPlan) (catalog_update : option MutationCatalogUpdate)
    (before_shared_publish : commit_eff unit) (prepared_catalog : option PreparedPrivateFile)
    (shared_precondition : PrivateFilePrecondition) (local_state : VerifiedLocalState)
    : commit_eff MutationCommitOutcome :=
  let catalog := option_list prepared_catalog in
  '(prepared_audit, local_state) ← dropping catalog (prepare_intent plan local_state);
  prepared_checkpoint ← dropping (prepared_audit :: catalog) (prepare_final plan local_state);
  prepared_shared ← dropping (prepared_checkpoint :: prepared_audit :: catalog)
    (prepare_target plan shared_precondition);
  publish_plan plan catalog_update before_shared_publish prepared_catalog
    prepared_audit prepared_checkpoint prepared_shared.

(** The checks before anything is prepared for the plan: what the vault is, and the
    local state brought up to it. *)
Definition check_current (plan : VaultMutationPlan)
    : commit_eff (PrivateFilePrecondition * bool * CheckpointRelation * VerifiedLocalState) :=
  shared_precondition ← map_errM map_shared_read_error (shared_preview shared);
  current_bytes ← map_errM map_shared_read_error (shared_read shared MAX_VAULT_BYTES);
  '(current, current_policy, is_expected, is_target) ← lift (current_artifact plan current_bytes);
  let expected_ancestry := rp_repository_ancestry (mp_precondition plan) in
  lift (reject_if (negb (matches_ancestry shared expected_ancestry)) CM_MissingRepositoryPrecondition) ;;
  (if (is_expected : bool) then
     fresh ← ancestry_is_current shared expected_ancestry;
     lift (reject_if (negb fresh) CM_StaleArtifact)
   else mret ()) ;;
  local_state ← read_local_state;
  current_candidate ← lift (current_checkpoint_candidate plan current current_policy);
  '(current_relation, local_state) ← run_on_local map_checkpoint_error
    (accept_candidate local current_candidate (dr_timestamp_ms (audit_intent plan))) local_state;
  mret (shared_precondition, is_target, current_relation, local_state).

Definition commit_locked (plan : VaultMutationPlan) (catalog_update : option MutationCatalogUpdate)
    (before_shared_publish : commit_eff unit) : commit_eff MutationCommitOutcome :=
  prepared_catalog ←
    match catalog_update with Some update => prepare_catalog_update update | None => mret None end;
  '(shared_precondition, is_target, current_relation, local_state) ←
    dropping (option_list prepared_catalog) (check_current plan);
  if (is_target : bool) then
    match prepared_catalog with Some prepared => publish_catalog prepared | None => mret () end ;;
    reconcile plan local_state (current_relation ==? CR_StrictDescendant)
  else
    prepare_and_publish plan catalog_update before_shared_publish prepared_catalog shared_precondition local_state.

Definition commit_with_before_shared_publish (plan : VaultMutationPlan)
    (catalog_update : option MutationCatalogUpdate) (before_shared_publish : commit_eff unit)
    : commit_eff MutationCommitOutcome :=
  let header := vf_header (mp_target plan) in
  lift (reject_if ((sc_vault_id (pl_scope local) !=? vh_vault_id header) ||
    (sc_genesis_fingerprint (pl_scope local) !=? vh_genesis_fingerprint header) ||
    (principal_id !=? mp_acting_principal_id plan)) CM_InvalidLocalState) ;;
  locked ← map_errM map_lock_error (vault_try_lock state);
  releasing locked (commit_locked plan catalog_update before_shared_publish).

Definition commit (plan : VaultMutationPlan) (catalog_update : option MutationCatalogUpdate)
    : commit_eff MutationCommitOutcome :=
  commit_with_before_shared_publish plan catalog_update (mret ()).
End target.
End commit.
