(* ===== verification/CommitFiles.v ===== *)
(** * The files of a commit

    What [crates/jury-filesystem] promises to [crates/jury/src/mutation_commit.rs]:
    the files a commit is about, seen as a map ([disk]), are changed by
    publications only, each of which replaces one of them by the bytes that were
    prepared; taking the lock, reading, preparing and dropping change none. *)

From S2P Require Import Prelude VaultTypes Canonical Effects Identifiers ProtectedMemory Directory PrivateFiles PrivateFilesTheorems Repository RepositoryTheorems MutationCommit.
Local Open Scope jury_scope.

(** The vault file, those of the acting principal and the policy catalogue. *)
Inductive CommitFile := SharedVault | PrincipalFile (file : PrincipalStateFile) | PolicyCatalog.

Global Instance CommitFile_eq_dec : EqDecision CommitFile.
Proof. solve_decision. Defined.

Definition Disk : Type := CommitFile → option bytes.

Definition disk_set (f : CommitFile) (bs : bytes) (d : Disk) : Disk :=
  λ g, if decide (g = f) then Some bs else d g.

Definition same_disk (d d' : Disk) : Prop := ∀ f, d f = d' f.

Global Instance same_disk_equivalence : Equivalence same_disk.
Proof.
  split.
  - by intros d f.
  - intros d d' Hd f. by rewrite -> Hd.
  - intros d1 d2 d3 H12 H23 f. by rewrite -> H12, H23.
Qed.

Lemma disk_set_eq f bs d : disk_set f bs d f = Some bs.
Proof. unfold disk_set. by rewrite -> decide_True. Qed.

Lemma disk_set_ne f g bs d : g ≠ f → disk_set f bs d g = d g.
Proof. intros Hne. unfold disk_set. by rewrite -> decide_False. Qed.

Lemma disk_set_same f bs d d' : same_disk d d' → same_disk (disk_set f bs d) (disk_set f bs d').
Proof. intros Hd g. unfold disk_set. case_decide; [done|apply Hd]. Qed.

Definition file_name (f : CommitFile) : bytes :=
  match f with
  | SharedVault => str "vault.json"
  | PrincipalFile file => PrincipalStateFile_name file
  | PolicyCatalog => VaultStateFile_name VSF_PolicyCatalog
  end.

Lemma file_name_tracked f : tracked (file_name f).
Proof. apply (bool_decide_unpack _). by destruct f as [|[]|]. Qed.

Lemma file_name_plain f : slash ∉ file_name f.
Proof. apply (bool_decide_unpack _). by destruct f as [|[]|]. Qed.

Global Instance file_name_inj : Inj (=) (=) file_name.
Proof. intros [|[]|] [|[]|]; done. Qed.

(** Names that no temporary file and no lock has. *)
Lemma temporary_fixed n bs : temporary_like n → n ≠ str ".jury" ∧ n ≠ encode_hex bs.
Proof.
  intros [s ->]. split; [done|]. intros Hs. assert (dot ∈ encode_hex bs) as Hd by (rewrite <- Hs; apply list_elem_of_here).
  by apply encode_hex_nibble in Hd as [x Hx].
Qed.

Lemma tracked_fixed n bs : tracked n → n ≠ str ".jury" ∧ n ≠ encode_hex bs.
Proof. intros Ht. split; intros ->; [by destruct Ht as [[]]|by eapply hex_untracked]. Qed.

Section disk.
Context `{Crypto} {W : Type} `{DirectoryLaws W}.
Context (shared : SharedArtifact) (state : HardenedDir) (principal_id : bytes).
Implicit Types (f : CommitFile) (d : Disk) (x : PreparedPrivateFile).

Abbreviation root := (dir_ino (hd_dir state)).

(** The directory of a file. *)
Definition location (w : W) f : option N :=
  match f with
  | SharedVault =>
      match shared with
      | Repository repository => entry w (dir_ino (hd_dir (rl_worktree repository))) (str ".jury")
      | Detached home => Some (dir_ino (hd_dir home))
      end
  | PrincipalFile _ => entry w root (encode_hex principal_id)
  | PolicyCatalog => Some root
  end.

Definition disk (w : W) : Disk := λ f, location w f ≫= λ i, file_at w i (file_name f).

(** A name that only a directory of a file may have. *)
Definition passage (n : bytes) : Prop := n = str ".jury" ∨ n = encode_hex principal_id.

Lemma location_same w w' f :
  (∀ i n, passage n → entry w' i n = entry w i n) → location w' f = location w f.
Proof.
  intros Hp. destruct f; cbn; [|by apply Hp; right|done]. destruct shared; [by apply Hp; left|done].
Qed.

(** ** Nothing but publications changes the disk *)

Lemma location_new w w' f i :
  grows w w' → location w f = None → location w' f = Some i → ∀ n, entry w i n = None.
Proof.
  intros Hg. destruct f; cbn; [|by apply (gr_new _ _ Hg)|done]. destruct shared; [by apply (gr_new _ _ Hg)|done].
Qed.

Lemma location_grows w w' f i : grows w w' → location w f = Some i → location w' f = Some i.
Proof.
  intros Hg. destruct f; cbn; [|by apply (gr_entry _ _ Hg)|done]. destruct shared; [by apply (gr_entry _ _ Hg)|done].
Qed.

Lemma grows_disk w w' : grows w w' → same_disk (disk w') (disk w).
Proof.
  intros Hg f. unfold disk. destruct (location w f) as [i|] eqn:Hl; cbn.
  - rewrite -> (location_grows _ _ _ _ Hg Hl). cbn. apply grows_file_at; [done|apply file_name_tracked].
  - destruct (location w' f) as [i|] eqn:Hl'; [|done]. cbn.
    rewrite -> (grows_file_at _ _ _ _ Hg (file_name_tracked f)). unfold file_at.
    by rewrite -> (location_new _ _ _ _ Hg Hl Hl').
Qed.

Lemma may_remove_disk w w' i n :
  (∀ f, n ≠ file_name f) → ¬ passage n → may_remove i n w w' → same_disk (disk w') (disk w).
Proof.
  intros Hf Hp [Hs|[Hs Hc]]; [by apply grows_disk, same_files_grows|].
  assert (∀ j m, m ≠ n → entry w' j m = entry w j m) as He.
  { intros j m Hm. rewrite -> Hs, decide_False; [done|]. congruence. }
  intros f. unfold disk. rewrite -> (location_same w w' f) by (intros j m Hm; apply He; by intros ->).
  destruct (location w f) as [j|]; [|done]. cbn. unfold file_at. rewrite -> He by (by intros <-; eapply Hf).
  destruct (entry w j _); cbn; by rewrite -> ?Hc.
Qed.

Lemma temporary_safe n : temporary_like n → (∀ f, n ≠ file_name f) ∧ ¬ passage n.
Proof.
  intros Ht. split.
  - intros f ->. by eapply dotted_untracked; [by apply temporary_dotted|apply file_name_tracked].
  - destruct (temporary_fixed n principal_id Ht). by intros [Hn|Hn].
Qed.

Lemma drop_prepared_disk x w :
  temporary_like (pf_temporary x) → same_disk (disk (drop_prepared x w).2) (disk w).
Proof. intros [Hf Hp]%temporary_safe. eapply may_remove_disk; [done|done|]. apply remove_owned_temporary_may. Qed.

Lemma lock_safe : (∀ f, str "vault-edit.lock" ≠ file_name f) ∧ ¬ passage (str "vault-edit.lock").
Proof.
  split; [by intros [|[]|]|]. intros [Hn|Hn]; [done|].
  assert (dot ∈ encode_hex principal_id) as Hd by (rewrite <- Hn; apply (bool_decide_unpack _); done).
  by apply encode_hex_nibble in Hd as [y Hy].
Qed.

Lemma try_lock_grows : keeps grows (vault_try_lock state).
Proof.
  intros w. destruct (wp_try_acquire state (str "vault-edit.lock") w) as [Hg _]; [|by intros (_ & _ & ?)|exact Hg].
  apply (bool_decide_unpack _). done.
Qed.

Lemma drop_lock_disk l w w1 v :
  vault_try_lock state v = (Ok l, w1) → same_disk (disk (drop_lock l w).2) (disk w).
Proof.
  intros Hl. assert (slash ∉ str "vault-edit.lock") as Hn by (apply (bool_decide_unpack _); done).
  assert (¬ tracked (str "vault-edit.lock")) as Ht by (by intros (_ & _ & ?)).
  destruct (wp_run _ _ _ _ _ (wp_try_acquire state (str "vault-edit.lock") v Hn Ht) Hl) as (_ & Hk & _).
  destruct lock_safe as [Hf Hp]. eapply may_remove_disk; [| |apply drop_lock_may]; by rewrite -> Hk.
Qed.

(** ** Prepared files *)

(** A file is prepared for its place with these bytes. *)
Record holds (w : W) x f (bs : bytes) : Prop := {
  ho_written : written (pf_parent x) (file_name f) bs w x;
  ho_location : location w f = Some (dir_ino (pf_parent x));
}.

Lemma holds_grows w w' x f bs : grows w w' → holds w x f bs → holds w' x f bs.
Proof.
  intros Hg [[Hp Hd Ht He Hc] Hl]. split; [|by eapply location_grows]. split; try done.
  - by apply (gr_entry _ _ Hg).
  - by rewrite -> (gr_contents _ _ Hg _ _ _ He).
Qed.

Definition apart x y : Prop := (dir_ino (pf_parent x), pf_temporary x) ≠ (dir_ino (pf_parent y), pf_temporary y).

Lemma apart_sym x y : apart x y → apart y x.
Proof. unfold apart. congruence. Qed.

(** What is prepared now is apart from what was before. *)
Lemma holds_apart w x y f bs :
  entry w (dir_ino (pf_parent x)) (pf_temporary x) = None → holds w y f bs → apart x y.
Proof. intros Hn [[_ _ _ He _] _] [= Hi Ht]. rewrite -> Hi, Ht in Hn. congruence. Qed.

Lemma settled_other w w' x f bs i n :
  holds w x f bs → settled (dir_ino (pf_parent x)) (pf_temporary x) (pf_destination x) w w' →
  (i, n) ≠ (dir_ino (pf_parent x), pf_temporary x) → n ≠ file_name f → entry w' i n = entry w i n.
Proof. intros [[_ Hd _ _ _] _] Hs Ht Hn. apply (se_entry _ _ _ _ _ Hs); [done|]. rewrite -> Hd. congruence. Qed.

Lemma settled_location w w' x f bs g :
  holds w x f bs → settled (dir_ino (pf_parent x)) (pf_temporary x) (pf_destination x) w w' →
  location w' g = location w g.
Proof.
  intros Hh Hs. apply location_same. intros i n Hp.
  destruct (temporary_safe _ (wr_temporary _ _ _ _ _ (ho_written _ _ _ _ Hh))) as [_ Ht].
  eapply settled_other; [done|done|by intros [= -> ->]|].
  intros ->. destruct (tracked_fixed _ principal_id (file_name_tracked f)). by destruct Hp.
Qed.

Lemma settled_file w w' x f bs g :
  holds w x f bs → settled (dir_ino (pf_parent x)) (pf_temporary x) (pf_destination x) w w' →
  g ≠ f → disk w' g = disk w g.
Proof.
  intros Hh Hs Hg. unfold disk. rewrite -> (settled_location _ _ _ _ _ g Hh Hs).
  destruct (location w g) as [i|]; [|done]. cbn. unfold file_at.
  destruct (temporary_safe _ (wr_temporary _ _ _ _ _ (ho_written _ _ _ _ Hh))) as [Ht _].
  rewrite -> (settled_other _ _ _ _ _ i (file_name g) Hh Hs); [|intros [= _ Hn]; by eapply Ht|].
  - destruct (entry w i _); cbn; by rewrite -> ?(se_contents _ _ _ _ _ Hs).
  - intros Hn. by apply file_name_inj in Hn.
Qed.

(** A publication does nothing or replaces its file, and keeps the other prepared
    files. *)
Lemma wp_publish_file x f bs w :
  holds w x f bs →
  wp (publish x) (λ r w', (same_disk (disk w') (disk_set f bs (disk w)) ∨
      ¬ is_ok r ∧ same_disk (disk w') (disk w)) ∧
    ∀ y g cs, apart x y → holds w y g cs → holds w' y g cs) w.
Proof.
  intros Hh. pose proof Hh as [[_ Hd Ht He Hc] Hl]. destruct (temporary_safe _ Ht) as [Htf _].
  eapply wp_mono; [apply wp_publish; rewrite -> Hd; apply Htf|]. cbn beta. intros r w' [Hs Hok]. split.
  - assert (disk w' f = entry w' (dir_ino (pf_parent x)) (file_name f) ≫= λ j, Some (contents w j)) as Hf.
    { unfold disk. rewrite -> (settled_location _ _ _ _ _ f Hh Hs), Hl. cbn. unfold file_at.
      destruct (entry w' (dir_ino (pf_parent x)) (file_name f)); cbn; by rewrite -> ?(se_contents _ _ _ _ _ Hs). }
    rewrite -> Hd, He in Hok. pose proof (se_dest _ _ _ _ _ Hs) as Hdest. rewrite -> Hd, He in Hdest.
    assert (entry w' (dir_ino (pf_parent x)) (file_name f) = Some (file_ino (pf_file x)) →
      same_disk (disk w') (disk_set f bs (disk w))) as Hset.
    { intros Hent g. unfold disk_set. case_decide as Hg; [|by eapply settled_file]. subst g.
      rewrite -> Hf, Hent. cbn. by rewrite -> Hc. }
    destruct (is_ok r) eqn:Hr; [left; by apply Hset, Hok|].
    destruct Hdest as [Hdest|[Hdest _]]; [right|left; by apply Hset]. split; [by intros []|]. intros g.
    destruct (decide (g = f)) as [->|Hg]; [|by eapply settled_file]. rewrite -> Hf, Hdest. unfold disk.
    rewrite -> Hl. cbn. unfold file_at. by destruct (entry w (dir_ino (pf_parent x)) (file_name f)).
  - intros y g cs Hap [[Hyp Hyd Hyt Hye Hyc] Hyl].
    split; [split; try done|by rewrite -> (settled_location _ _ _ _ _ g Hh Hs)].
    + rewrite -> (settled_other _ _ _ _ _ _ _ Hh Hs); [done|by apply apart_sym|].
      intros Hn. destruct (temporary_safe _ Hyt) as [Hyf _]. by eapply Hyf.
    + by rewrite -> (se_contents _ _ _ _ _ Hs).
Qed.

(** ** Reading *)

Lemma read_private_file_idle r n k : idle (read_private_file r n k).
Proof.
  unfold read_private_file, private_input_read, read_from_dir. pose proof validate_private_directory_idle.
  pose proof read_with_permissions_idle. unfold idle in *. keeps_tac.
Qed.

Lemma read_private_file_Ok r n k w bs w' :
  slash ∉ n → (k < 2 ^ 64 - 1)%N → read_private_file r n k w = (Ok bs, w') →
  file_at w (dir_ino (hd_dir r)) n = Some bs.
Proof.
  intros Hn Hk Hrun. unfold read_private_file, private_input_read in Hrun.
  apply (bind_keeps same_files) in Hrun as ([] & w1 & _ & Hw1 & Hrun); [|apply validate_private_directory_idle].
  apply read_with_permissions_Ok in Hrun as [Hrun _]; [|done..]. by rewrite -> (same_files_at _ _ _ _ Hw1) in Hrun.
Qed.

Lemma jury_dir_clone_Ok r w (d : Dir) w' :
  jury_dir_clone r w = (Ok d, w') → entry w (dir_ino (hd_dir (rl_worktree r))) (str ".jury") = Some (dir_ino d).
Proof.
  unfold jury_dir_clone. intros Hrun.
  apply (bind_keeps same_files) in Hrun as ([] & w1 & _ & Hw1 & Hrun); [|apply revalidate_worktree_idle].
  apply bind_lift_Ok in Hrun as (i & _ & Hrun). apply eff_bind_Ok in Hrun as (c & w2 & Hc & Hrun).
  apply eff_bind_Ok in Hrun as (m & w3 & _ & Hrun). apply bind_lift_Ok in Hrun as ([] & _ & Hrun).
  injection Hrun as <- _. apply nofollow_directory_child_Ok in Hc. by rewrite -> (sf_entry _ _ Hw1) in Hc.
Qed.

Lemma shared_read_idle k : idle (shared_read shared k).
Proof. destruct shared; cbn; [apply repository_read_shared_idle|apply read_private_file_idle]. Qed.

Lemma shared_read_Ok k w bs w' :
  (k < 2 ^ 64 - 1)%N → shared_read shared k w = (Ok bs, w') → disk w SharedVault = Some bs.
Proof.
  unfold disk. cbn [location]. destruct shared as [r|home]; cbn [shared_read]; intros Hk Hrun.
  - unfold repository_read_shared in Hrun.
    apply (bind_keeps same_files) in Hrun as (d & w1 & Hd%jury_dir_clone_Ok & Hw1 & Hrun); [|apply jury_dir_clone_idle].
    rewrite -> Hd. cbn [mbind option_bind].
    apply read_with_permissions_Ok in Hrun as [Hrun _]; [|apply (file_name_plain SharedVault)|done].
    by rewrite -> (same_files_at _ _ _ _ Hw1) in Hrun.
  - by apply read_private_file_Ok in Hrun; [|apply (file_name_plain SharedVault)|].
Qed.

Lemma shared_preview_idle : idle (shared_preview shared).
Proof. destruct shared; cbn; [apply repository_preview_shared_idle|apply preview_idle]. Qed.

Lemma shared_preview_Ok w p w' :
  shared_preview shared w = (Ok p, w') →
  pp_destination p = file_name SharedVault ∧ location w SharedVault = Some (dir_ino (pp_parent p)).
Proof.
  cbn [location]. destruct shared as [r|home]; cbn [shared_preview]; intros Hrun.
  - unfold repository_preview_shared in Hrun. apply eff_bind_Ok in Hrun as (d & w1 & Hd%jury_dir_clone_Ok & Hrun).
    apply preview_Ok in Hrun as (Hi & Hn & _); [|apply (file_name_plain SharedVault)]. by rewrite -> Hd, Hi.
  - apply preview_Ok in Hrun as (Hi & Hn & _); [|apply (file_name_plain SharedVault)]. by rewrite -> Hi.
Qed.

Lemma locked_vault_read_idle (f : PrincipalStateFile) : idle (locked_vault_read state principal_id f).
Proof.
  unfold locked_vault_read, locked_vault_read_bounded, descend_hex_existing. pose proof open_private_child_idle.
  pose proof read_private_file_idle. unfold idle in *. keeps_tac.
Qed.

Lemma locked_vault_read_Ok (f : PrincipalStateFile) w bs w' :
  locked_vault_read state principal_id f w = (Ok bs, w') → disk w (PrincipalFile f) = Some bs.
Proof.
  unfold locked_vault_read, locked_vault_read_bounded, descend_hex_existing. intros Hrun.
  apply (bind_keeps same_files) in Hrun as (c & w1 & Hc & Hw1 & Hrun); [|apply open_private_child_idle].
  apply open_private_child_Ok in Hc; [|apply hex_plain].
  apply read_private_file_Ok in Hrun; [|apply (file_name_plain (PrincipalFile f))|by destruct f].
  unfold disk. cbn [location]. rewrite -> Hc. cbn [mbind option_bind].
  by rewrite -> (same_files_at _ _ _ _ Hw1) in Hrun.
Qed.

Lemma read_vault_state_idle : idle (locked_read_vault_state state VSF_PolicyCatalog).
Proof. apply read_private_file_idle. Qed.

Lemma read_vault_state_Ok w bs w' :
  locked_read_vault_state state VSF_PolicyCatalog w = (Ok bs, w') → disk w PolicyCatalog = Some bs.
Proof. intros Hrun. by apply read_private_file_Ok in Hrun; [|apply (file_name_plain PolicyCatalog)|]. Qed.

(** ** Preparing *)

Definition prepares f bs (w : W) (r : result FilesystemError PreparedPrivateFile) (w' : W) : Prop :=
  grows w w' ∧
  match r with
  | Ok x => holds w' x f bs ∧ entry w (dir_ino (pf_parent x)) (pf_temporary x) = None
  | Err _ => True
  end.

Lemma prepares_err f bs w e w' : grows w w' → prepares f bs w (Err e) w'.
Proof. by split. Qed.

Lemma prepares_after f bs w w1 r w' : grows w w1 → prepares f bs w1 r w' → prepares f bs w r w'.
Proof.
  intros Hw [Hg Hr]. split; [by etrans|]. destruct r as [x|]; [|done]. destruct Hr as [Hh Hn]. split; [done|].
  destruct (entry w _ _) as [i|] eqn:Hi; [|done]. by rewrite -> (gr_entry _ _ Hw _ _ _ Hi) in Hn.
Qed.

Lemma wp_prepare_file p m w f :
  pp_destination p = file_name f → location w f = Some (dir_ino (pp_parent p)) →
  wp (prepare_if_unchanged p m true) (prepares f (pm_bytes m) w) w.
Proof.
  intros Hd Hl. eapply wp_mono; [apply wp_prepare_if_unchanged|]. cbn beta. intros r w' [Hg Hr]. split; [done|].
  destruct r as [x|]; [|done]. destruct Hr as [Hx Hn]. pose proof (wr_parent _ _ _ _ _ Hx) as Hp.
  rewrite -> Hp. split; [|done]. split; rewrite -> Hp; [by rewrite <- Hd|by eapply location_grows].
Qed.

Lemma wp_prepare_state_file (preview : eff FilesystemError W PrivateFilePrecondition) k m f w :
  keeps grows preview →
  (∀ w p w', preview w = (Ok p, w') → pp_destination p = file_name f ∧ location w' f = Some (dir_ino (pp_parent p))) →
  wp (prepare_state_file preview k m) (prepares f (pm_bytes m) w) w.
Proof.
  intros Hg Hp. unfold prepare_state_file. apply wp_bind_lift; [|intros; by apply prepares_err]. intros [] _.
  eapply (wp_keeps grows); [exact Hg|intros; by apply prepares_err|]. intros p w1 [Hd Hl]%Hp Hw1.
  eapply wp_mono; [by apply wp_prepare_file|]. intros r w'. by apply prepares_after.
Qed.

Lemma wp_locked_vault_prepare (f : PrincipalStateFile) m w :
  wp (locked_vault_prepare state principal_id f m) (prepares (PrincipalFile f) (pm_bytes m) w) w.
Proof.
  apply wp_prepare_state_file.
  - unfold locked_vault_preview. apply keeps_bind; [apply _| |intros c].
    + apply open_or_create_grows; [apply hex_plain|apply hex_untracked].
    + apply idle_grows, preview_idle.
  - intros v p v' Hrun. unfold locked_vault_preview in Hrun. apply eff_bind_Ok in Hrun as (c & v1 & Hc & Hrun).
    apply open_or_create_Ok in Hc; [|apply hex_plain]. pose proof (preview_idle (hd_dir c) (PrincipalStateFile_name f) FV_OwnerOnly v1) as Hs.
    unfold preview_private_file, preview in Hrun. rewrite -> Hrun in Hs. cbn in Hs.
    apply preview_Ok in Hrun as (Hi & Hn & _); [|apply (file_name_plain (PrincipalFile f))]. split; [done|].
    cbn [location]. by rewrite -> (sf_entry _ _ Hs), Hc, Hi.
Qed.

Lemma wp_prepare_vault_state m w :
  wp (locked_prepare_vault_state state VSF_PolicyCatalog m) (prepares PolicyCatalog (pm_bytes m) w) w.
Proof.
  apply wp_prepare_state_file; [apply idle_grows, preview_idle|]. intros v p v' Hrun.
  apply preview_Ok in Hrun as (Hi & Hn & _); [|apply (file_name_plain PolicyCatalog)]. split; [done|]. cbn. by rewrite -> Hi.
Qed.

Lemma protect_grows bs policy : keeps grows (protect bs policy).
Proof.
  apply idle_grows. unfold protect, initialize_supported, initialize, initialize_large, initialize_bounded, core_dump_suppressed, idle.
  keeps_tac.
Qed.

Lemma protect_Ok `{!MemoryProviderLaws W} bs policy w m w' :
  protect bs policy w = (Ok m, w') → pm_bytes m = bs ∧ (len bs ≤ MAX_LARGE_PROTECTED_BYTES)%N.
Proof. intros (Hl & Hb & _)%map_errM_run%initialize_supported_Ok. split; [done|lia]. Qed.

(** ** Prepared files and the disk, along a run *)

Definition place (h : PreparedPrivateFile * CommitFile * bytes) : N * bytes :=
  (dir_ino (pf_parent h.1.1), pf_temporary h.1.1).

Record staged (w : W) d (hs : list (PreparedPrivateFile * CommitFile * bytes)) : Prop := {
  sg_disk : same_disk (disk w) d;
  sg_holds : Forall (λ h, holds w h.1.1 h.1.2 h.2) hs;
  sg_apart : NoDup (place <$> hs);
}.

Lemma staged_grows w w' d hs : grows w w' → staged w d hs → staged w' d hs.
Proof.
  intros Hg [Hd Hh Ha]. split; [by etrans; [apply grows_disk|]| |done].
  eapply Forall_impl; [exact Hh|]. intros h. by apply holds_grows.
Qed.

Lemma staged_perm w d hs hs' : hs ≡ₚ hs' → staged w d hs → staged w d hs'.
Proof. intros Hp [Hd Hh Ha]. split; [done| |]; by rewrite <- Hp. Qed.

Lemma staged_tail w d h hs : staged w d (h :: hs) → staged w d hs.
Proof.
  intros [Hd Hh Ha]. apply Forall_cons in Hh as [_ Hh]. rewrite -> fmap_cons in Ha. by apply NoDup_cons in Ha as [_ Ha].
Qed.

Lemma staged_nil w d hs : staged w d hs → staged w d [].
Proof. intros [Hd _ _]. split; [done|apply Forall_nil_2|apply NoDup_nil_2]. Qed.

Lemma staged_start w d : same_disk (disk w) d → staged w d [].
Proof. intros Hd. split; [done|apply Forall_nil_2|apply NoDup_nil_2]. Qed.

Lemma staged_disk w d d' hs : same_disk d d' → staged w d hs → staged w d' hs.
Proof. intros Hd [Hs Hh Ha]. split; [by etrans|done|done]. Qed.

Lemma staged_add w w' d hs x f bs :
  prepares f bs w (Ok x) w' → staged w d hs → staged w' d ((x, f, bs) :: hs).
Proof.
  intros [Hg [Hx Hn]] Hs. pose proof (staged_grows _ _ _ _ Hg Hs) as [Hd Hh Ha]. split; [done|by apply Forall_cons|].
  rewrite -> fmap_cons. apply NoDup_cons. split; [|done].
  intros (h & Hp & Hin)%list_elem_of_fmap. pose proof (sg_holds _ _ _ Hs) as Hold. rewrite -> Forall_forall in Hold.
  by eapply holds_apart; [exact Hn|apply (Hold _ Hin)|].
Qed.

Lemma staged_publish w d x f bs hs :
  staged w d ((x, f, bs) :: hs) →
  wp (publish x) (λ r w', staged w' (disk_set f bs d) hs ∨ ¬ is_ok r ∧ staged w' d hs) w.
Proof.
  intros [Hd [Hx Hh]%Forall_cons Ha]. rewrite -> fmap_cons in Ha. apply NoDup_cons in Ha as [Hn Ha].
  eapply wp_mono; [by apply wp_publish_file|]. cbn beta. intros r w' [Hw Hkeep].
  assert (Forall (λ h, holds w' h.1.1 h.1.2 h.2) hs) as Hh'.
  { rewrite -> Forall_forall in Hh |- *. intros h Hin. apply Hkeep; [|by apply Hh].
    intros Hp. apply Hn, list_elem_of_fmap. exists h. by split. }
  destruct Hw as [Hw|[Hr Hw]]; [left|right; split; [done|]]; (split; [|done|done]); etrans; try done.
  by apply disk_set_same.
Qed.

Lemma staged_temporary w d hs : staged w d hs → Forall (λ h, temporary_like (pf_temporary h.1.1)) hs.
Proof. intros [_ Hh _]. eapply Forall_impl; [exact Hh|]. intros h [Hx _]. apply Hx. Qed.

(** ** Rules *)

Lemma wp_grows {E A} (m : eff E W A) (Q : result E A → W → Prop) w d hs :
  keeps grows m → staged w d hs → (∀ e w', staged w' d hs → Q (Err e) w') →
  (∀ a w', m w = (Ok a, w') → grows w w' → staged w' d hs → Q (Ok a) w') → wp m Q w.
Proof.
  intros Hm Hs He Ha. specialize (Hm w). pose proof (staged_grows _ _ _ _ Hm Hs) as Hs'. unfold wp.
  destruct (m w) as [[a|e] w'] eqn:Hr; cbn in *; [by apply Ha|by apply He].
Qed.

Lemma wp_prepares {E} (g : FilesystemError → E) m f bs Q w d hs :
  wp m (prepares f bs w) w → staged w d hs → (∀ e w', staged w' d hs → Q (Err e) w') →
  (∀ x w', grows w w' → staged w' d ((x, f, bs) :: hs) → Q (Ok x) w') → wp (map_errM g m) Q w.
Proof.
  intros Hm Hs He Ha. unfold wp, map_errM in *. destruct (m w) as [[x|e] w']; cbn in *.
  - apply Ha; [apply Hm|by eapply staged_add].
  - apply He. by eapply staged_grows; [apply Hm|].
Qed.

Lemma wp_publishes {E} (g : FilesystemError → E) x f bs Q w d hs :
  staged w d ((x, f, bs) :: hs) →
  (∀ e w', staged w' d hs ∨ staged w' (disk_set f bs d) hs → Q (Err e) w') →
  (∀ o w', staged w' (disk_set f bs d) hs → Q (Ok o) w') → wp (map_errM g (publish x)) Q w.
Proof.
  intros Hs He Ha. pose proof (staged_publish _ _ _ _ _ _ Hs) as Hp. unfold wp, map_errM in *.
  destruct (publish x w) as [[o|e] w']; cbn in *.
  - apply Ha. by destruct Hp as [Hp|[[] _]].
  - apply He. destruct Hp as [Hp|[_ Hp]]; auto.
Qed.

(** A call whose error is looked at. *)
Lemma wp_attempt {E E' A} (m : eff E W A) (Q : result E' (result E A) → W → Prop) w :
  wp m (λ r, Q (Ok r)) w → wp (attempt m) Q w.
Proof. unfold wp, attempt. by destruct (m w). Qed.

Lemma wp_unmap {E A} (m : eff E W A) Q w : wp (map_errM id m) Q w → wp m Q w.
Proof. unfold wp, map_errM. by destruct (m w) as [[]]. Qed.

Lemma drop_all_disk xs w :
  Forall (λ x, temporary_like (pf_temporary x)) xs → same_disk (disk (drop_all xs w).2) (disk w).
Proof.
  intros Hxs. revert w. induction Hxs as [|x xs Hx Hxs IH]; intros w; [done|]. unfold drop_all. cbn [forM].
  unfold mbind, eff_bind, attempt. pose proof (drop_prepared_disk x w Hx) as Hd.
  destruct (drop_prepared x w) as [r w1]. cbn in *. etrans; [apply IH|done].
Qed.

Lemma drop_all_Ok xs w : (drop_all (W := W) xs w).1 = Ok ().
Proof.
  revert w. induction xs as [|x xs IH]; intros w; [done|]. unfold drop_all. cbn [forM]. unfold mbind, eff_bind, attempt.
  destruct (drop_prepared x w) as [r w1]. cbn. apply IH.
Qed.

Lemma wp_dropping {A} xs (m : eff MutationCommitErrorKind W A) (Q : result _ A → W → Prop) w :
  Forall (λ x, temporary_like (pf_temporary x)) xs →
  (∀ e w1 w2, same_disk (disk w2) (disk w1) → Q (Err e) w1 → Q (Err e) w2) → wp m Q w → wp (dropping xs m) Q w.
Proof.
  intros Hxs Hcl Hm. unfold dropping. apply wp_bind, wp_attempt. eapply wp_mono; [exact Hm|]. intros [a|e] w1 Hq; [done|].
  apply wp_bind. unfold wp. pose proof (drop_all_disk xs w1 Hxs) as Hd.
  pose proof (drop_all_Ok xs w1) as Hok. destruct (drop_all xs w1) as [[u|e'] w2]; cbn in *; [by eapply Hcl|done].
Qed.

Lemma wp_releasing {A} l (m : eff MutationCommitErrorKind W A) (Q : result _ A → W → Prop) w v v1 :
  vault_try_lock state v = (Ok l, v1) →
  (∀ r w1 w2, same_disk (disk w2) (disk w1) → Q r w1 → Q r w2) → wp m Q w → wp (releasing l m) Q w.
Proof.
  intros Hl Hcl Hm. unfold releasing. apply wp_bind, wp_attempt. eapply wp_mono; [exact Hm|]. intros r w1 Hq.
  apply wp_bind, wp_attempt. unfold wp. apply (Hcl _ w1); [|done]. by eapply drop_lock_disk.
Qed.
End disk.

Ltac disk_simpl := repeat first [rewrite -> disk_set_eq | rewrite -> disk_set_ne by done].
