(* ===== verification/MutationCommitTheorems.v ===== *)
(** * Theorems about committing a plan

    A commit that fails, or is cut off, leaves files that verify: the vault is the
    old one or the target, the target is announced in the audit log before it is
    there, and the checkpoint is never ahead of it. A run that is cut off is a run
    whose next call reports an error, so what holds of every outcome holds after a
    crash. *)

From S2P Require Import Prelude VaultTypes Canonical Preimage Json Effects Rollover Validate WitnessPolicy PolicyState ProtectedMemory Directory PrivateFiles PrivateFilesTheorems Repository RepositoryTheorems Replay LocalAudit LocalAuditLog LocalCheckpoint LocalReceipts LocalState LocalStateFiles LocalStateTheorems ArtifactRelation Mutation MutationLemmas MutationTheorems MutationCheckpoint MutationCommit CommitFiles.
Local Open Scope jury_scope.

(** ** The local state on the disk *)

Section local.
Context `{Crypto} `{Hmac} `{!Json AuditEvent, !JsonLine AuditEvent, !EventJson}.
Context `{!Json LocalCheckpoint, !JsonPretty LocalCheckpoint} `{!Json LocalReceipts, !JsonPretty LocalReceipts}.
Implicit Types (pl : PrincipalLocalState) (st : VerifiedLocalState) (plan : VaultMutationPlan) (d : Disk).

Definition verify_disk pl d : result LocalStateErrorKind VerifiedLocalState :=
  verify_files pl (d (PrincipalFile PSF_Audit)) (d (PrincipalFile PSF_Checkpoint)) (d (PrincipalFile PSF_Receipts)).

Lemma verify_disk_same pl d d' : same_disk d d' → verify_disk pl d = verify_disk pl d'.
Proof. intros Hd. unfold verify_disk. by rewrite -> !Hd. Qed.

Definition mixed_state (audit : list AuditEvent) (k : LocalCheckpoint) (r : LocalReceipts) : VerifiedLocalState :=
  let st := {| vs_audit := audit; vs_checkpoint := k; vs_receipts := r;
               vs_audit_events_after_checkpoint := 0 |} in
  {| vs_audit := audit; vs_checkpoint := k; vs_receipts := r;
     vs_audit_events_after_checkpoint := events_after st |}.

(** Files written at different times verify together, when the log goes on from
    the one the checkpoint and the receipts belong to. *)
Lemma mixed_verifies pl d st sta stk a k r :
  local_ok pl st → local_ok pl sta → local_ok pl stk →
  vs_audit st `prefix_of` vs_audit sta → vs_audit stk `prefix_of` vs_audit sta →
  AuditLog_to_bytes (vs_audit sta) = Ok a → d (PrincipalFile PSF_Audit) = Some a →
  LocalCheckpoint_to_bytes (vs_checkpoint stk) = Ok k → d (PrincipalFile PSF_Checkpoint) = Some k →
  LocalReceipts_to_bytes (vs_receipts st) = Ok r → d (PrincipalFile PSF_Receipts) = Some r →
  verify_disk pl d = Ok (mixed_state (vs_audit sta) (vs_checkpoint stk) (vs_receipts st)).
Proof.
  intros Hok Hoka Hokk Hp [l Hpk] Ha Hda Hk Hdk Hr Hdr. unfold verify_disk. rewrite -> Hda, Hdk, Hdr.
  apply (verify_files_Ok pl {| lf_audit := a; lf_checkpoint := k; lf_receipts := r |}).
  assert (local_ok pl (mixed_state (vs_audit sta) (vs_checkpoint stk) (vs_receipts st))) as Hmix.
  { split; cbn; [apply Hoka|apply Hokk|apply Hok| |].
    - rewrite -> Hpk, audit_genesis_digest_app; [apply Hokk|].
      apply (lo_nonempty _ _ _ (so_audit _ _ Hokk)).
    - destruct (proj1 (mac_index_is_Some _ _) (so_index _ _ Hokk)) as (e & He & Hm).
      apply mac_index_is_Some. exists e. split; [|done]. rewrite -> Hpk. apply elem_of_app. by left. }
  split_and!; [done|done|]. by apply local_serialize_Ok.
Qed.

Lemma append_event_operation pl draft st u st' :
  append_event pl draft st = (Ok u, st') → local_ok pl st →
  contains_operation (vs_audit st') (dr_operation_id draft) = true.
Proof.
  unfold append_event. rewrite -> gets_bind. intros Hrun Hok.
  apply lift_bind_Ok in Hrun as (_ & _ & Hrun).
  apply eff_bind_Ok in Hrun as ([] & st1 & (l & Hl & ->)%zoom_Ok & Hrun). rewrite -> gets_bind in Hrun.
  apply eff_bind_Ok in Hrun as ([] & st2 & (k1 & Hk1 & ->)%zoom_Ok & Hrun).
  apply eff_bind_Ok in Hrun as ([] & st3 & (k2 & Hk2 & ->)%zoom_Ok & Hrun). injection Hrun as _ <-.
  cbn [vs_audit vs_checkpoint vs_receipts] in *.
  apply append_Ok in Hl as (_ & _ & m & ->); [|apply Hok]. unfold contains_operation. rewrite -> existsb_app.
  apply orb_true_iff. right. cbn. by rewrite -> bool_decide_true.
Qed.

Lemma contains_operation_prefix l l' op :
  l `prefix_of` l' → contains_operation l op = true → contains_operation l' op = true.
Proof. intros [k ->] Hl. unfold contains_operation in *. by rewrite -> existsb_app, Hl. Qed.

(** A candidate's last hash is that of the state it was made from. *)
Lemma candidate_terminal policy j envelopes c :
  CheckpointCandidate_from_validated policy j envelopes = Ok c →
  ∃ n, last_key_value (cc_policy_history c) = Some (n, ps_terminal_revision_hash policy).
Proof.
  intros Hc. destruct (pj_revisions j) as [|r revs _] eqn:Hj using rev_ind.
  - exists 0%N. unfold CheckpointCandidate_from_validated in Hc. apply bind_Ok in Hc as (fp & _ & Hk).
    apply reject_if_bind in Hk as [_ Hk]. rewrite -> Hj in Hk. cbn in Hk.
    apply reject_if_bind in Hk as [Ht Hk]. apply bind_Ok in Hk as (_ & _ & Hk).
    apply reject_if_bind in Hk as [_ Hc%Ok_inj]. subst c. to_prop. cbn. subst fp.
    unfold last_key_value. destruct (last _) as [[i u]|] eqn:Hl.
    + apply last_Some_elem_of, elem_of_entries, lookup_singleton_Some in Hl as [<- <-]. done.
    + apply last_None in Hl. assert ((0%N, ps_terminal_revision_hash policy) ∈
        entries ({[0%N := ps_terminal_revision_hash policy]} : gmap N Digest32)) as Hin
        by (apply elem_of_entries, lookup_singleton_eq).
      rewrite -> Hl in Hin. by apply elem_of_nil in Hin.
  - eexists. by eapply candidate_last.
Qed.
End local.

(** ** Runs and the disk *)

Definition same_core (d d' : Disk) : Prop := ∀ f, f ≠ PolicyCatalog → d f = d' f.

Lemma same_disk_core d d' : same_disk d d' → same_core d d'.
Proof. intros Hd f _. apply Hd. Qed.

Global Instance same_core_preorder : PreOrder same_core.
Proof.
  split; [by intros d f|]. intros d1 d2 d3 H12 H23 f Hf. by rewrite -> H12, H23.
Qed.

Lemma catalog_core bs d : same_core (disk_set PolicyCatalog bs d) d.
Proof. intros f Hf. by apply disk_set_ne. Qed.

Section runs.
Context `{Crypto} `{Hmac} `{!Json AuditEvent, !JsonLine AuditEvent}.
Context `{!Json LocalCheckpoint, !JsonPretty LocalCheckpoint} `{!Json LocalReceipts, !JsonPretty LocalReceipts}.
Context {W : Type} `{DirectoryLaws W, !MemoryProviderLaws W}.
Context (self : MutationCommitTarget).

Abbreviation pl := (mt_local self).
Abbreviation disk_of := (disk (mt_shared self) (mt_state self) (sc_principal_id (pl_scope (mt_local self)))).
Abbreviation staged_at := (staged (mt_shared self) (mt_state self) (sc_principal_id (pl_scope (mt_local self)))).

Lemma map_errM_bind {E E' A B} (f : E → E') (m : eff E W A) (k : A → eff E W B) w :
  map_errM f (m ≫= k) w = (map_errM f m ≫= λ a, map_errM f (k a)) w.
Proof. unfold map_errM, mbind, eff_bind. by destruct (m w) as [[a|e] w']. Qed.

Lemma if_run_on_local {A} (b : bool) f (m m' : eff LocalStateErrorKind VerifiedLocalState A) st :
  (if b then run_on_local (W := W) f m st else run_on_local f m' st) =
  run_on_local f (if b then m else m') st.
Proof. by destruct b. Qed.

Lemma wp_local {A B} f (m : eff LocalStateErrorKind VerifiedLocalState A) st
    (k : A * VerifiedLocalState → eff MutationCommitErrorKind W B) (Q : result _ B → W → Prop) w :
  (∀ e, Q (Err e) w) → (∀ a st', m st = (Ok a, st') → wp (k (a, st')) Q w) →
  wp (run_on_local f m st ≫= k) Q w.
Proof.
  intros He Hk. unfold run_on_local. destruct (m st) as [[a|e] st'] eqn:Hm.
  - by apply (Hk a st').
  - apply (He (f e)).
Qed.

(** Memory for these bytes. *)
Lemma wp_protect bs policy Q w d hs :
  staged_at w d hs → (∀ e w', staged_at w' d hs → Q (Err e) w') →
  (∀ m w', grows w w' → staged_at w' d hs → pm_bytes m = bs → (len bs ≤ MAX_LARGE_PROTECTED_BYTES)%N → Q (Ok m) w') →
  wp (protect bs policy) Q w.
Proof.
  intros Hs He Ha. eapply wp_grows; [apply protect_grows|exact Hs|done|].
  intros m w' [Hb Hl]%protect_Ok Hg Hs'. by apply Ha.
Qed.

Lemma ancestry_grows expected : keeps grows (ancestry_is_current (mt_shared self) expected).
Proof.
  apply idle_grows. unfold ancestry_is_current. pose proof git_ancestry_digest_idle. unfold idle in *. keeps_tac.
Qed.

Lemma read_local_state_idle : idle (read_local_state self).
Proof. unfold read_local_state. pose proof locked_vault_read_idle. unfold idle in *. keeps_tac. Qed.

Lemma locked_read_run f w bs w' :
  map_errM map_local_error (locked_vault_read (mt_state self) (sc_principal_id (pl_scope pl)) f) w = (Ok bs, w') →
  disk_of w (PrincipalFile f) = Some bs ∧ same_disk (disk_of w') (disk_of w).
Proof.
  intros Hr%map_errM_run. split; [by eapply locked_vault_read_Ok|].
  pose proof (locked_vault_read_idle (mt_state self) (sc_principal_id (pl_scope pl)) f w) as Hd.
  rewrite -> Hr in Hd. by apply grows_disk, same_files_grows.
Qed.

Lemma read_local_state_Ok w st w' : read_local_state self w = (Ok st, w') → verify_disk pl (disk_of w) = Ok st.
Proof.
  unfold read_local_state. intros Hrun.
  apply eff_bind_Ok in Hrun as (a & w1 & [Ha Hw1]%locked_read_run & Hrun).
  apply eff_bind_Ok in Hrun as (k & w2 & [Hk Hw2]%locked_read_run & Hrun).
  apply eff_bind_Ok in Hrun as (r & w3 & [Hr Hw3]%locked_read_run & Hrun).
  apply lift_Ok in Hrun as [Hv%map_err_Ok _]. unfold verify_disk.
  by rewrite -> Ha, <- (Hw1 (PrincipalFile PSF_Checkpoint)), Hk, <- (Hw1 (PrincipalFile PSF_Receipts)),
    <- (Hw2 (PrincipalFile PSF_Receipts)), Hr.
Qed.

(** ** The catalogue *)

(** The catalogue is the new one, or about to be. *)
Definition catalog_ready (cu : option MutationCatalogUpdate) (d : Disk) (pc : option PreparedPrivateFile) : Prop :=
  match pc with
  | Some _ => is_Some cu
  | None => ∀ u, cu = Some u → d PolicyCatalog = Some (cu_target u)
  end.

Definition held_catalog (cu : option MutationCatalogUpdate) (pc : option PreparedPrivateFile)
    : list (PreparedPrivateFile * CommitFile * bytes) :=
  match pc, cu with Some x, Some u => [(x, PolicyCatalog, cu_target u)] | _, _ => [] end.

Lemma wp_prepare_catalog_update u Q w d :
  staged_at w d [] → (∀ e w', staged_at w' d [] → Q (Err e) w') →
  (∀ pc w', staged_at w' d (held_catalog (Some u) pc) → catalog_ready (Some u) d pc → Q (Ok pc) w') →
  wp (prepare_catalog_update self u) Q w.
Proof.
  intros Hs He Ha. unfold prepare_catalog_update. apply wp_bind, wp_attempt. unfold wp at 1.
  pose proof (read_vault_state_idle (mt_state self) w) as Hw.
  destruct (locked_read_vault_state _ _ w) as [r w1] eqn:Hread. cbn in Hw |- *.
  pose proof (staged_grows _ _ _ _ _ _ _ (same_files_grows _ _ Hw) Hs) as Hs1.
  set (proceed := protect _ _ ≫= _).
  assert (wp proceed Q w1) as Hproceed.
  { apply wp_bind. eapply wp_protect; [exact Hs1|done|]. intros m w2 _ Hs2 Hm _. apply wp_bind.
    eapply wp_prepares; [apply wp_prepare_vault_state|exact Hs2|done|]. intros x w3 _ Hs3. apply wp_ret.
    rewrite -> Hm in Hs3. apply Ha; [exact Hs3|by eexists]. }
  destruct r as [bs|e].
  - case_bool_decide as Hbs; [|case_match; [done|by apply wp_lift, He]].
    apply wp_ret, Ha; [done|]. intros u' [= <-]. subst bs. rewrite <- (sg_disk _ _ _ _ _ _ Hs).
    by eapply read_vault_state_Ok.
  - case_match; [done|by apply wp_lift, He].
Qed.

Lemma wp_publish_catalog x bs Q w d hs :
  staged_at w d ((x, PolicyCatalog, bs) :: hs) →
  (∀ e w', staged_at w' d hs ∨ staged_at w' (disk_set PolicyCatalog bs d) hs → Q (Err e) w') →
  (∀ w', staged_at w' (disk_set PolicyCatalog bs d) hs → Q (Ok ()) w') → wp (publish_catalog x) Q w.
Proof.
  intros Hs He Ha. unfold publish_catalog. apply wp_bind. eapply wp_publishes; [exact Hs|done|].
  intros o w' Hs'. unfold reject_if. case_match; [by apply wp_lift, He; right|by apply wp_lift, Ha].
Qed.

(** The files a commit is about stay. *)
Definition core_kept (w w' : W) : Prop := same_core (disk_of w') (disk_of w).

Global Instance core_kept_preorder : PreOrder core_kept.
Proof. unfold core_kept. split; [by intros w|]. intros w1 w2 w3 H12 H23. by etrans. Qed.

Lemma grows_core {E A} (m : eff E W A) : keeps grows m → keeps core_kept m.
Proof. apply keeps_mono. intros w w' Hg. by apply same_disk_core, grows_disk. Qed.

Lemma restore_catalog_core u : keeps core_kept (restore_catalog self u).
Proof.
  intros w. change (wp (restore_catalog self u) (λ _ w', core_kept w w') w).
  assert (staged_at w (disk_of w) []) as Hs by by apply staged_start.
  assert (∀ v hs, staged_at v (disk_of w) hs → core_kept w v) as Hq by (intros v hs [Hd _ _]; by apply same_disk_core).
  assert (∀ v hs, staged_at v (disk_set PolicyCatalog (cu_rollback u) (disk_of w)) hs → core_kept w v) as Hq'.
  { intros v hs [Hd _ _]. unfold core_kept. etrans; [by apply same_disk_core|apply catalog_core]. }
  unfold restore_catalog. apply wp_bind. eapply wp_protect; [exact Hs|intros; by eapply Hq|]. intros m w1 _ Hs1 Hm _.
  apply wp_bind. eapply wp_prepares; [apply wp_prepare_vault_state|exact Hs1|intros; by eapply Hq|].
  intros x w2 _ Hs2. rewrite -> Hm in Hs2.
  eapply wp_publish_catalog; [exact Hs2|intros e w3 [Hs3|Hs3]; [by eapply Hq|by eapply Hq']|intros; by eapply Hq'].
Qed.
End runs.

(** ** What a commit leaves *)

Section commit.
Context `{Crypto} `{Hmac} `{!Json AuditEvent, !JsonLine AuditEvent, !EventJson}.
Context `{!Json LocalCheckpoint, !JsonPretty LocalCheckpoint} `{!Json LocalReceipts, !JsonPretty LocalReceipts}.
Context (json_probe : bytes → option HeaderProbeFields) (json_vault : bytes → option VaultFileV1).
Context (json_pretty : VaultFileV1 → option bytes).
Context {W : Type} `{DirectoryLaws W, !MemoryProviderLaws W}.
Context (self : MutationCommitTarget).
Implicit Types (plan : VaultMutationPlan) (d : Disk) (st : VerifiedLocalState).

Abbreviation pl := (mt_local self).
Abbreviation disk_of := (disk (mt_shared self) (mt_state self) (sc_principal_id (pl_scope (mt_local self)))).
Abbreviation staged_at := (staged (mt_shared self) (mt_state self) (sc_principal_id (pl_scope (mt_local self)))).

Definition vault_is_target plan d : Prop :=
  ∃ bs, d SharedVault = Some bs ∧ sha256 bs = mp_target_digest plan.

(** The checkpoint records the target, and the log announces it. *)
Definition target_accepted plan st : Prop :=
  contains_operation (vs_audit st) (mp_target_digest plan) = true ∧
  ck_accepted_public_revision_hash (vs_checkpoint st) = ps_terminal_revision_hash (mp_target_policy plan).

Record recoverable plan d0 st0 d : Prop := {
  rv_shared : d SharedVault = d0 SharedVault ∨ d SharedVault = Some (mp_target_bytes plan);
  rv_receipts : d (PrincipalFile PSF_Receipts) = d0 (PrincipalFile PSF_Receipts);
  rv_local : ∃ st, verify_disk pl d = Ok st ∧ vs_audit st0 `prefix_of` vs_audit st ∧
    (d SharedVault = d0 SharedVault ∨ contains_operation (vs_audit st) (mp_target_digest plan) = true) ∧
    (d (PrincipalFile PSF_Checkpoint) = d0 (PrincipalFile PSF_Checkpoint) ∨
     vault_is_target plan d ∧ target_accepted plan st);
  rv_bounded : d SharedVault = d0 SharedVault ∨
    ∃ a, d (PrincipalFile PSF_Audit) = Some a ∧ (len a ≤ MAX_LARGE_PROTECTED_BYTES)%N;
}.

Record finished plan (cu : option MutationCatalogUpdate) d : Prop := {
  fn_shared : vault_is_target plan d;
  fn_local : ∃ st, verify_disk pl d = Ok st ∧ target_accepted plan st;
  fn_catalog : ∀ u, cu = Some u → d PolicyCatalog = Some (cu_target u);
}.

Definition commit_post plan cu d0 st0 (r : result MutationCommitErrorKind MutationCommitOutcome) (w : W) : Prop :=
  recoverable plan d0 st0 (disk_of w) ∧
  match r with Ok (Committed _ _) | Ok (Reconciled _) => finished plan cu (disk_of w) | _ => True end.

Lemma recoverable_core plan d0 st0 d d' :
  same_core d' d → recoverable plan d0 st0 d → recoverable plan d0 st0 d'.
Proof.
  intros Hd [Hs Hr Hl Hb]. assert (verify_disk pl d' = verify_disk pl d) as Hv.
  { unfold verify_disk. by rewrite -> !Hd. }
  split; unfold vault_is_target in *; by rewrite -> ?Hv, ?Hd by done.
Qed.

Lemma recoverable_same plan d0 st0 d d' :
  same_disk d' d → recoverable plan d0 st0 d → recoverable plan d0 st0 d'.
Proof. intros Hd. by apply recoverable_core, same_disk_core. Qed.

Lemma finished_same plan cu d d' : same_disk d' d → finished plan cu d → finished plan cu d'.
Proof.
  intros Hd [Hs Hl Hc]. split; unfold vault_is_target in *; by rewrite -> ?(verify_disk_same _ _ _ Hd), ?Hd.
Qed.

Lemma verify_disk_Ok d st :
  verify_disk pl d = Ok st → local_ok pl st ∧ ∃ a k r,
    d (PrincipalFile PSF_Audit) = Some a ∧ d (PrincipalFile PSF_Checkpoint) = Some k ∧
    d (PrincipalFile PSF_Receipts) = Some r ∧ AuditLog_to_bytes (vs_audit st) = Ok a ∧
    LocalCheckpoint_to_bytes (vs_checkpoint st) = Ok k ∧ LocalReceipts_to_bytes (vs_receipts st) = Ok r.
Proof.
  unfold verify_disk. destruct (d (PrincipalFile PSF_Audit)) as [a|]; [|done].
  destruct (d (PrincipalFile PSF_Checkpoint)) as [k|]; [|done].
  destruct (d (PrincipalFile PSF_Receipts)) as [r|]; [|done]. intros Hv.
  apply (verify_files_Ok pl {| lf_audit := a; lf_checkpoint := k; lf_receipts := r |}) in Hv
    as (Hok & _ & (Ha & Hk & Hr)%local_serialize_Ok); [|done].
  split; [done|]. by exists a, k, r.
Qed.

Section staged.
Context plan (cu : option MutationCatalogUpdate) d0 st0 (Hst0 : verify_disk pl d0 = Ok st0).
Hypothesis Hdigest : mp_target_digest plan = sha256 (mp_target_bytes plan).

Lemma start_recoverable d : same_core d d0 → recoverable plan d0 st0 d.
Proof.
  intros Hd. eapply recoverable_core; [done|]. split; [by left|done| |by left]. exists st0. split_and!; [done|done|by left|by left].
Qed.

(** The disks a commit goes through: the log and the checkpoint are those of
    states that go on from the first. *)
Lemma files_recoverable d sta stk a k :
  local_ok pl sta → local_ok pl stk →
  vs_audit st0 `prefix_of` vs_audit sta → vs_audit stk `prefix_of` vs_audit sta →
  AuditLog_to_bytes (vs_audit sta) = Ok a → d (PrincipalFile PSF_Audit) = Some a →
  LocalCheckpoint_to_bytes (vs_checkpoint stk) = Ok k → d (PrincipalFile PSF_Checkpoint) = Some k →
  d (PrincipalFile PSF_Receipts) = d0 (PrincipalFile PSF_Receipts) →
  d SharedVault = d0 SharedVault ∨
    d SharedVault = Some (mp_target_bytes plan) ∧ contains_operation (vs_audit sta) (mp_target_digest plan) = true ∧
    (len a ≤ MAX_LARGE_PROTECTED_BYTES)%N →
  d (PrincipalFile PSF_Checkpoint) = d0 (PrincipalFile PSF_Checkpoint) ∨
    vault_is_target plan d ∧ contains_operation (vs_audit sta) (mp_target_digest plan) = true ∧
    ck_accepted_public_revision_hash (vs_checkpoint stk) = ps_terminal_revision_hash (mp_target_policy plan) →
  recoverable plan d0 st0 d.
Proof.
  intros Hoka Hokk Hp Hpk Ha Hda Hk Hdk Hdr Hs Hc.
  destruct (verify_disk_Ok _ _ Hst0) as (Hok0 & _ & _ & r0 & _ & _ & Hr & _ & _ & Hr0).
  split; [naive_solver|done| |naive_solver]. eexists.
  split; [by eapply (mixed_verifies pl d st0 sta stk a k r0); rewrite ?Hdr|]. cbn. naive_solver.
Qed.

Lemma files_finished d sta stk a k :
  local_ok pl sta → local_ok pl stk →
  vs_audit st0 `prefix_of` vs_audit sta → vs_audit stk `prefix_of` vs_audit sta →
  AuditLog_to_bytes (vs_audit sta) = Ok a → d (PrincipalFile PSF_Audit) = Some a →
  LocalCheckpoint_to_bytes (vs_checkpoint stk) = Ok k → d (PrincipalFile PSF_Checkpoint) = Some k →
  d (PrincipalFile PSF_Receipts) = d0 (PrincipalFile PSF_Receipts) → vault_is_target plan d →
  contains_operation (vs_audit sta) (mp_target_digest plan) = true →
  ck_accepted_public_revision_hash (vs_checkpoint stk) = ps_terminal_revision_hash (mp_target_policy plan) →
  (∀ u, cu = Some u → d PolicyCatalog = Some (cu_target u)) → finished plan cu d.
Proof.
  intros Hoka Hokk Hp Hpk Ha Hda Hk Hdk Hdr Hs Hc Ht Hcat.
  destruct (verify_disk_Ok _ _ Hst0) as (Hok0 & _ & _ & r0 & _ & _ & Hr & _ & _ & Hr0).
  split; [done| |done]. eexists. by split; [by eapply (mixed_verifies pl d st0 sta stk a k r0); rewrite ?Hdr|].
Qed.

Abbreviation post := (commit_post plan cu d0 st0).

Lemma post_err e w : recoverable plan d0 st0 (disk_of w) → post (Err e) w.
Proof. by split. Qed.

(** The log and the checkpoint of a commit, in memory. *)
Record intent st a : Prop := {
  it_ok : local_ok pl st;
  it_prefix : vs_audit st0 `prefix_of` vs_audit st;
  it_bytes : AuditLog_to_bytes (vs_audit st) = Ok a;
  it_announced : contains_operation (vs_audit st) (mp_target_digest plan) = true;
}.

Record final st stk k : Prop := {
  fl_ok : local_ok pl stk;
  fl_audit : vs_audit stk = vs_audit st;
  fl_bytes : LocalCheckpoint_to_bytes (vs_checkpoint stk) = Ok k;
  fl_accepted : ck_accepted_public_revision_hash (vs_checkpoint stk) =
    ps_terminal_revision_hash (mp_target_policy plan);
}.

Lemma audit_recoverable st a d :
  intent st a → same_core d (disk_set (PrincipalFile PSF_Audit) a d0) → recoverable plan d0 st0 d.
Proof.
  intros [Hok Hp Ha Hc] Hd. destruct (verify_disk_Ok _ _ Hst0) as (Hok0 & a0 & k0 & r0 & Hda & Hdk & Hdr & Ha0 & Hk0 & Hr0).
  eapply recoverable_core; [exact Hd|]. apply (files_recoverable _ st st0 a k0); disk_simpl; try done; by left.
Qed.

Lemma shared_recoverable st a d :
  intent st a → (len a ≤ MAX_LARGE_PROTECTED_BYTES)%N → same_core d (disk_set SharedVault (mp_target_bytes plan) (disk_set (PrincipalFile PSF_Audit) a d0)) →
  recoverable plan d0 st0 d.
Proof.
  intros [Hok Hp Ha Hc] Hl Hd. destruct (verify_disk_Ok _ _ Hst0) as (Hok0 & a0 & k0 & r0 & Hda & Hdk & Hdr & Ha0 & Hk0 & Hr0).
  eapply recoverable_core; [exact Hd|]. apply (files_recoverable _ st st0 a k0); disk_simpl; try done; [by right|by left].
Qed.

Lemma target_set d : vault_is_target plan (disk_set SharedVault (mp_target_bytes plan) d).
Proof. eexists. split; [by apply disk_set_eq|done]. Qed.

Abbreviation published a k :=
  (disk_set (PrincipalFile PSF_Checkpoint) k
    (disk_set SharedVault (mp_target_bytes plan) (disk_set (PrincipalFile PSF_Audit) a d0))).

Lemma final_recoverable st a stk k d :
  intent st a → (len a ≤ MAX_LARGE_PROTECTED_BYTES)%N → final st stk k → same_core d (published a k) → recoverable plan d0 st0 d.
Proof.
  intros [Hok Hp Ha Hc] Hl [Hokk Hpk Hk Hacc] Hd. eapply recoverable_core; [exact Hd|].
  apply (files_recoverable _ st stk a k); disk_simpl; try done; [by rewrite -> Hpk|by right|].
  right. split; [|done]. destruct (target_set d0) as (bs & Hbs & Hx). exists bs. by disk_simpl.
Qed.

Lemma final_finished st a stk k d :
  intent st a → final st stk k → same_core d (published a k) →
  (∀ u, cu = Some u → d PolicyCatalog = Some (cu_target u)) → finished plan cu d.
Proof.
  intros [Hok Hp Ha Hc] [Hokk Hpk Hk Hacc] Hd Hcat.
  apply (files_finished _ st stk a k); try done; rewrite -> ?Hd by done; disk_simpl; try done; [by rewrite -> Hpk|].
  exists (mp_target_bytes plan). rewrite -> Hd by done. by disk_simpl.
Qed.

Lemma set_core f bs d d' : same_core d d' → same_core (disk_set f bs d) (disk_set f bs d').
Proof. intros Hd g Hg. unfold disk_set. case_decide; [done|by apply Hd]. Qed.

(** ** Steps of a commit *)

Lemma post_same r w1 w2 : same_disk (disk_of w2) (disk_of w1) → post r w1 → post r w2.
Proof.
  intros Hd [Hr Hf]. split; [by eapply recoverable_same|]. destruct r as [[]|]; try done; by eapply finished_same.
Qed.

Lemma wp_drop {A} xs (m : eff MutationCommitErrorKind W A) k w :
  Forall (λ x, temporary_like (pf_temporary x)) xs →
  wp m (λ r w', match r with Ok a => wp (k a) post w' | Err e => post (Err e) w' end) w →
  wp (dropping xs m ≫= k) post w.
Proof.
  intros Hxs Hm. apply wp_bind. eapply wp_dropping; [done| |exact Hm]. intros e w1 w2. apply post_same.
Qed.

Lemma wp_step {A B} (m : eff MutationCommitErrorKind W A) k (Q : result _ B → W → Prop) w d hs :
  keeps grows m → staged_at w d hs → (∀ e w', staged_at w' d hs → Q (Err e) w') →
  (∀ a w', m w = (Ok a, w') → grows w w' → staged_at w' d hs → wp (k a) Q w') → wp (m ≫= k) Q w.
Proof. intros Hm Hs He Ha. apply wp_bind. by eapply wp_grows. Qed.

Lemma catalog_temporary w d pc hs :
  catalog_ready cu d0 pc → staged_at w d (held_catalog cu pc ++ hs) →
  Forall (λ x, temporary_like (pf_temporary x)) (option_list pc).
Proof.
  intros Hpc Hs%staged_temporary. destruct pc as [x|]; [|apply Forall_nil_2]. destruct Hpc as [u ->].
  apply Forall_cons in Hs as [Hs _]. by apply Forall_singleton.
Qed.

(** The catalogue, when it is to be replaced. *)
Lemma wp_catalog pc Q w d hs :
  d PolicyCatalog = d0 PolicyCatalog → catalog_ready cu d0 pc → staged_at w d (held_catalog cu pc ++ hs) →
  (∀ e w' d', staged_at w' d' hs → same_core d' d → Q (Err e) w') →
  (∀ w' d', staged_at w' d' hs → same_core d' d → (∀ u, cu = Some u → d' PolicyCatalog = Some (cu_target u)) →
    Q (Ok ()) w') →
  wp (if pc is Some x then publish_catalog x else mret ()) Q w.
Proof.
  intros Hcat Hpc Hs He Ha. destruct pc as [x|]; cbn in Hpc.
  - destruct Hpc as [u Hu]. rewrite -> Hu in Hs. cbn in Hs.
    eapply wp_publish_catalog; [exact Hs| |].
    + intros e w' [Hs'|Hs']; [by eapply He|]. eapply He; [exact Hs'|apply catalog_core].
    + intros w' Hs'. eapply Ha; [exact Hs'|apply catalog_core|]. intros u' Hu'.
      rewrite -> Hu in Hu'. injection Hu' as <-. by disk_simpl.
  - apply wp_ret. eapply Ha; [exact Hs|done|]. by rewrite -> Hcat.
Qed.

Lemma catalog_then {A E} (t n : A) (pc : option PreparedPrivateFile) (f : PreparedPrivateFile → eff E W unit) w :
  (if pc is Some x then f x ;; mret t else mret n) w =
  ((if pc is Some x then f x else mret ()) ;; mret (if pc is Some _ then t else n)) w.
Proof. by destruct pc. Qed.

(** What was prepared, in the order in which it is published. *)
Definition prepared_files a k pc pa pk ps : list (PreparedPrivateFile * CommitFile * bytes) :=
  (pa, PrincipalFile PSF_Audit, a) :: held_catalog cu pc ++
  [(ps, SharedVault, mp_target_bytes plan); (pk, PrincipalFile PSF_Checkpoint, k)].

(** The vault could not be published, or only seemed not to be. *)
Lemma wp_shared_failed st a e pc pk published w :
  intent st a → (len a ≤ MAX_LARGE_PROTECTED_BYTES)%N → temporary_like (pf_temporary pk) →
  catalog_ready cu d0 pc →
  (∃ d, same_core d (disk_set (PrincipalFile PSF_Audit) a d0) ∧
    (same_disk (disk_of w) d ∨ same_disk (disk_of w) (disk_set SharedVault (mp_target_bytes plan) d))) →
  wp (dropping [pk]
    ((if (published : bool) then
        r ← attempt (shared_read (mt_shared self) MAX_VAULT_BYTES);
        if negb (if r is Ok bs then sha256 bs ==? mp_target_digest plan else false) then
          match cu with Some update => restore_catalog self update | None => mret () end
        else mret ()
      else mret ()) ;;
     lift (Err (map_shared_prepare_error e)))) post w.
Proof.
  intros Hi Hl Ht Hpc (d & Hd & Hw). assert (recoverable plan d0 st0 (disk_of w)) as Hr.
  { destruct Hw as [Hw|Hw]; [eapply audit_recoverable; [exact Hi|]|eapply shared_recoverable; [exact Hi|done|]];
      (etrans; [by apply same_disk_core|]); [done|by apply set_core]. }
  eapply wp_dropping; [by apply Forall_singleton|intros ? ? ?; apply post_same|].
  assert (∀ v, core_kept self w v → post (Err (map_shared_prepare_error e)) v ∧ ∀ e', post (Err e') v) as Hq.
  { intros v Hv. assert (recoverable plan d0 st0 (disk_of v)) by by eapply recoverable_core. split; intros; by apply post_err. }
  eapply (wp_keeps (core_kept self)); [|intros e' v Hv; by apply Hq|intros _ v _ Hv; by apply wp_lift, Hq].
  pose proof (restore_catalog_core self). pose proof (grows_core self _ (idle_grows _ (shared_read_idle (mt_shared self) MAX_VAULT_BYTES))).
  keeps_tac.
Qed.

Lemma wp_publish_plan st a stk k hook pc pa pk ps w :
  intent st a → (len a ≤ MAX_LARGE_PROTECTED_BYTES)%N → final st stk k → keeps grows hook → catalog_ready cu d0 pc →
  staged_at w d0 (prepared_files a k pc pa pk ps) → wp (publish_plan self plan cu hook pc pa pk ps) post w.
Proof.
  intros Hi Hl Hf Hhook Hpc Hs. unfold publish_plan.
  assert (∀ e v d hs, staged_at v d hs → same_core d (disk_set (PrincipalFile PSF_Audit) a d0) → post (Err e) v) as He.
  { intros e v d hs [Hv _ _] Hd. apply post_err. eapply audit_recoverable; [exact Hi|].
    etrans; [by apply same_disk_core|done]. }
  pose proof (staged_temporary _ _ _ _ _ _ Hs) as Ht. apply Forall_cons in Ht as [_ [_ Ht]%Forall_app].
  apply Forall_cons in Ht as [Hts [Htk _]%Forall_cons].
  pose proof (catalog_temporary _ _ _ _ Hpc (staged_tail _ _ _ _ _ _ _ Hs)) as Htc.
  apply wp_drop; [by repeat apply Forall_cons_2|]. apply wp_bind. eapply wp_publishes; [exact Hs| |].
  { intros e v [Hv|Hv]; [|eapply He; [exact Hv|reflexivity]]. apply post_err, start_recoverable, same_disk_core, Hv. }
  intros o w1 Hs1. eapply wp_step; [apply keeps_lift; apply _|exact Hs1|by intros; eapply He|]. intros _ w2 _ _ Hs2.
  eapply wp_step; [exact Hhook|exact Hs2|by intros; eapply He|]. intros _ w3 _ _ Hs3.
  eapply wp_step; [apply ancestry_grows|exact Hs3|by intros; eapply He|]. intros b w4 _ _ Hs4.
  eapply wp_grows; [apply keeps_lift; apply _|exact Hs4|by intros; eapply He|]. intros _ w5 _ _ Hs5.
  apply wp_drop; [by repeat apply Forall_cons_2|]. unfold wp at 1. rewrite -> catalog_then. apply wp_bind.
  eapply wp_catalog; [|exact Hpc|exact Hs5|by intros; eapply He|]; [by disk_simpl|].
  intros w6 d6 Hs6 Hc6 Hcat. apply wp_ret, wp_bind, wp_attempt, wp_unmap. eapply wp_publishes; [exact Hs6| |].
  { intros e w7 Hw7. eapply wp_shared_failed; [done..|]. exists d6. split; [done|]. destruct Hw7 as [[]|[]]; auto. }
  intros op w7 Hs7. assert (same_core (disk_set SharedVault (mp_target_bytes plan) d6)
    (disk_set SharedVault (mp_target_bytes plan) (disk_set (PrincipalFile PSF_Audit) a d0))) as Hc7 by by apply set_core.
  apply wp_bind, wp_attempt, wp_unmap. eapply wp_publishes; [exact Hs7| |].
  { intros e w8 [[Hd8 _ _]|[Hd8 _ _]]; apply wp_ret; (split; [|done]); [eapply shared_recoverable|eapply final_recoverable];
      try done; (etrans; [by apply same_disk_core|]); [done|by apply set_core]. }
  intros o8 w8 [Hd8 _ _]. apply wp_ret. assert (same_core (disk_of w8) (published a k)) as Hc8.
  { etrans; [by apply same_disk_core|]. by apply set_core. }
  split; [by eapply final_recoverable|]. destruct o8; [|done]. eapply final_finished; [done..|].
  intros u Hu. rewrite -> Hd8. disk_simpl. by apply Hcat.
Qed.

Lemma accepted_target c ts st rel st' :
  checkpoint_candidate plan = Ok c → accept_candidate pl c ts st = (Ok rel, st') → local_ok pl st →
  ck_accepted_public_revision_hash (vs_checkpoint st') = ps_terminal_revision_hash (mp_target_policy plan).
Proof.
  intros Hc Hacc Hok. unfold checkpoint_candidate in Hc.
  destruct (CheckpointCandidate_from_validated _ _ _) as [c'|] eqn:E; [|done]. injection Hc as ->.
  destruct (candidate_terminal _ _ _ _ E) as [n Hn].
  destruct (accept_candidate_Ok _ _ _ _ _ _ Hacc Hok) as (_ & _ & _ & _ & _ & m & Hm). congruence.
Qed.

Lemma accept_candidate_Equal c ts st rel st' :
  accept_candidate pl c ts st = (Ok rel, st') → rel = CR_Equal → st' = st.
Proof.
  intros Hrun ->. unfold accept_candidate in Hrun. rewrite -> gets_bind in Hrun.
  apply lift_bind_Ok in Hrun as (_ & _ & Hrun). apply lift_bind_Ok in Hrun as (_ & _ & Hrun).
  apply lift_bind_Ok in Hrun as (rel & _ & Hrun). apply eff_bind_Ok in Hrun as ([] & st1 & Hm & Hrun).
  injection Hrun as -> ->. by injection Hm as <-.
Qed.

(** The vault is the target already and the log announces it. *)
Record announced st a d : Prop := {
  an_intent : intent st a;
  an_audit : d (PrincipalFile PSF_Audit) = Some a;
  an_checkpoint : d (PrincipalFile PSF_Checkpoint) = d0 (PrincipalFile PSF_Checkpoint);
  an_receipts : d (PrincipalFile PSF_Receipts) = d0 (PrincipalFile PSF_Receipts);
  an_shared : d SharedVault = d0 SharedVault;
  an_target : vault_is_target plan d;
  an_catalog : ∀ u, cu = Some u → d PolicyCatalog = Some (cu_target u);
}.

Lemma announced_recoverable st a d : announced st a d → recoverable plan d0 st0 d.
Proof.
  intros [[Hok Hp Ha Hc] Hda Hdk Hdr Hds Ht Hcat].
  destruct (verify_disk_Ok _ _ Hst0) as (Hok0 & a0 & k0 & r0 & Hda0 & Hdk0 & Hdr0 & Ha0 & Hk0 & Hr0).
  apply (files_recoverable d st st0 a k0); try done; [congruence|by left|by left].
Qed.

Lemma checkpointed st a stk k d :
  announced st a d → final st stk k →
  let d' := disk_set (PrincipalFile PSF_Checkpoint) k d in recoverable plan d0 st0 d' ∧ finished plan cu d'.
Proof.
  intros [[Hok Hp Ha Hc] Hda Hdk Hdr Hds (bs & Hbs & Hx) Hcat] [Hokk Hpk Hk Hacc]. cbn.
  assert (vault_is_target plan (disk_set (PrincipalFile PSF_Checkpoint) k d)) as Ht by (exists bs; by disk_simpl).
  split.
  - apply (files_recoverable _ st stk a k); disk_simpl; try done; [by rewrite -> Hpk|by left|by right].
  - apply (files_finished _ st stk a k); disk_simpl; try done; by rewrite -> Hpk.
Qed.

Lemma wp_finish_checkpoint st a changed w d :
  announced st a d → staged_at w d [] →
  (changed = false → ∃ k, d (PrincipalFile PSF_Checkpoint) = Some k ∧ LocalCheckpoint_to_bytes (vs_checkpoint st) = Ok k) →
  wp (finish_checkpoint self plan st PublishedAndSynced true changed) post w.
Proof.
  intros Han Hs Hch. pose proof (announced_recoverable _ _ _ Han) as Hr.
  assert (∀ r v, staged_at v d [] → match r with Ok (Committed _ _) | Ok (Reconciled _) => False | _ => True end →
    post r v) as Hq.
  { intros r v [Hv _ _] Hres. split; [by eapply recoverable_same|]. by destruct r as [[]|]. }
  unfold finish_checkpoint. apply wp_bind_lift; [|intros; by apply Hq].
  intros c Hc%map_err_Ok. apply wp_local; [intros; by apply Hq|]. intros rel st' Hacc.
  pose proof (accepted_target _ _ _ _ _ Hc Hacc (it_ok _ _ (an_intent _ _ _ Han))) as Ht.
  destruct (accept_candidate_Ok _ _ _ _ _ _ Hacc (it_ok _ _ (an_intent _ _ _ Han))) as (Hok' & Hau & _).
  case_match eqn:Hun.
  { apply andb_true_iff in Hun as [Hrel%bool_decide_eq_true ->%negb_true_iff]. destruct (Hch eq_refl) as (k & Hdk & Hk).
    rewrite -> (accept_candidate_Equal _ _ _ _ _ Hacc Hrel) in *. pose proof (sg_disk _ _ _ _ _ _ Hs) as Hd.
    apply wp_ret. split; [by eapply recoverable_same|]. eapply finished_same; [exact Hd|].
    destruct Han as [[] ? ? ? ? ? ?]. by apply (files_finished d st st a k). }
  destruct (local_serialize pl st') as [f|] eqn:Hf; [|by apply Hq].
  apply local_serialize_Ok in Hf as (_ & Hk & _); [|done].
  destruct (checkpointed st a st' (lf_checkpoint f) d Han) as [Hrec Hfin]; [by split|].
  apply wp_bind, wp_attempt. eapply wp_protect; [exact Hs|intros; by apply Hq|]. intros m w1 _ Hs1 Hm _.
  apply wp_bind, wp_attempt, wp_unmap. eapply wp_prepares; [apply wp_locked_vault_prepare|exact Hs1|intros; by apply Hq|].
  intros x w2 _ Hs2. rewrite -> Hm in Hs2. apply wp_bind, wp_attempt, wp_unmap.
  eapply wp_publishes; [exact Hs2| |].
  { intros e w3 [Hs3|[Hd3 _ _]]; apply wp_ret; [by apply Hq|]. split; [by eapply recoverable_same|done]. }
  intros o w3 [Hd3 _ _]. apply wp_ret. split; [by eapply recoverable_same|]. destruct o; [|done]. by eapply finished_same.
Qed.

(** The log of the start announces the target already. *)
Lemma announced_start st d :
  local_ok pl st → vs_audit st = vs_audit st0 → same_core d d0 → vault_is_target plan d →
  (∀ u, cu = Some u → d PolicyCatalog = Some (cu_target u)) →
  contains_operation (vs_audit st) (mp_target_digest plan) = true → ∃ a, announced st a d.
Proof.
  intros Hok Hau Hd Ht Hcat Hc. destruct (verify_disk_Ok _ _ Hst0) as (_ & a & k & r & Hda & _ & _ & Ha & _).
  exists a. split; rewrite -> ?Hd by done; try done. split; try done; by rewrite -> Hau.
Qed.

Lemma announced_append st st' u d a :
  append_event pl (audit_intent plan) st = (Ok u, st') → local_ok pl st → vs_audit st = vs_audit st0 →
  AuditLog_to_bytes (vs_audit st') = Ok a →
  intent st' a ∧
  (same_core d d0 → vault_is_target plan d → (∀ u, cu = Some u → d PolicyCatalog = Some (cu_target u)) →
   announced st' a (disk_set (PrincipalFile PSF_Audit) a d)).
Proof.
  intros Hrun Hok Hau Ha. destruct (append_event_Ok _ _ _ _ _ Hrun Hok) as (Hok' & [e He] & _).
  assert (intent st' a) as Hi.
  { split; try done; [|exact (append_event_operation _ _ _ _ _ Hrun Hok)].
    rewrite -> He, Hau. by eexists. }
  split; [done|]. intros Hd (bs & Hbs & Hx) Hcat. split; disk_simpl; try done; [by apply Hd..|].
  exists bs. by disk_simpl.
Qed.

Lemma wp_reconcile st changed w d :
  local_ok pl st → vs_audit st = vs_audit st0 → (changed = false → st = st0) →
  same_core d d0 → vault_is_target plan d → (∀ u, cu = Some u → d PolicyCatalog = Some (cu_target u)) →
  staged_at w d [] → wp (reconcile self plan st changed) post w.
Proof.
  intros Hok Hau Hch Hcore Ht Hcat Hs. unfold reconcile.
  assert (∀ e v hs, staged_at v d hs → post (Err e) v) as Hq.
  { intros e v hs [Hv _ _]. apply post_err, start_recoverable. etrans; [by apply same_disk_core|done]. }
  destruct (contains_operation _ _) eqn:Hc; cbn [negb].
  - destruct (announced_start st d) as [a Han]; try done. case_match.
    + apply wp_local; [intros; by eapply Hq|]. intros u st' Htail.
      destruct (accept_audit_tail_Ok _ _ _ _ _ Htail Hok) as (Hok' & Hau' & _).
      destruct (announced_start st' d) as [a' Han']; try done; [congruence|congruence|].
      by eapply wp_finish_checkpoint.
    + eapply wp_finish_checkpoint; [done|done|]. intros ->. rewrite -> (Hch eq_refl).
      destruct (verify_disk_Ok _ _ Hst0) as (_ & _ & k & _ & _ & Hk & _ & _ & Hkb & _). exists k.
      by rewrite -> Hcore.
  - apply wp_local; [intros; by eapply Hq|]. intros u st' Happ.
    destruct (append_event_Ok _ _ _ _ _ Happ Hok) as (Hok' & _).
    apply wp_bind_lift; [|intros; by eapply Hq]. intros f (Ha & _)%map_err_Ok%local_serialize_Ok; [|done].
    destruct (announced_append st st' u d (lf_audit f)) as [_ Han]; try done. specialize (Han Hcore Ht Hcat).
    apply wp_bind. eapply wp_protect; [exact Hs|intros; by eapply Hq|]. intros m w1 _ Hs1 Hm _.
    apply wp_bind. unfold wp, locked_vault_publish. rewrite -> map_errM_bind. apply wp_bind.
    eapply wp_prepares; [apply wp_locked_vault_prepare|exact Hs1|intros; by eapply Hq|]. intros x w2 _ Hs2.
    rewrite -> Hm in Hs2. eapply wp_publishes; [exact Hs2| |].
    { intros e w3 [Hs3|[Hd3 _ _]]; [by eapply Hq|]. apply post_err. eapply recoverable_same; [done|].
      by eapply announced_recoverable. }
    intros o w3 Hs3. case_match; [|by eapply wp_finish_checkpoint].
    apply wp_ret. split; [|done]. eapply recoverable_same; [apply Hs3|]. by eapply announced_recoverable.
Qed.

(** Steps that leave the disk as it was at the start. *)
Lemma start_err e w hs : staged_at w d0 hs → post (Err e) w.
Proof. intros [Hd _ _]. by apply post_err, start_recoverable, same_disk_core. Qed.

(** What is done before the publications: on an error the disk is as it was. *)
Definition starts {A} (k : A → W → Prop) (r : result MutationCommitErrorKind A) (w : W) : Prop :=
  match r with Ok a => k a w | Err e => post (Err e) w end.

Lemma wp_start {A B} (m : eff MutationCommitErrorKind W A) k (Q : B → W → Prop) w hs :
  keeps grows m → staged_at w d0 hs →
  (∀ a w', m w = (Ok a, w') → grows w w' → staged_at w' d0 hs → wp (k a) (starts Q) w') → wp (m ≫= k) (starts Q) w.
Proof. intros Hm Hs Hk. eapply wp_step; [done|exact Hs| |done]. intros e w'. apply start_err. Qed.

Lemma wp_start_lift {A B} (r : result MutationCommitErrorKind A) k (Q : B → W → Prop) w hs :
  staged_at w d0 hs → (∀ a, r = Ok a → wp (k a) (starts Q) w) → wp (lift r ≫= k) (starts Q) w.
Proof. intros Hs Hk. apply wp_bind_lift; [done|]. intros e _. by eapply start_err. Qed.

Lemma wp_start_local {A B} f (m : eff LocalStateErrorKind VerifiedLocalState A) st k (Q : B → W → Prop) w hs :
  staged_at w d0 hs → (∀ a st', m st = (Ok a, st') → wp (k (a, st')) (starts Q) w) →
  wp (run_on_local f m st ≫= k) (starts Q) w.
Proof. intros Hs Hk. apply wp_local; [|done]. intros e. by eapply start_err. Qed.

(** The log that announces the target, written or there already. *)
Lemma intent_states st v st2 f :
  local_ok pl st → vs_audit st = vs_audit st0 →
  (if negb (contains_operation (vs_audit st) (mp_target_digest plan))
   then append_event pl (audit_intent plan)
   else accept_audit_tail pl (dr_timestamp_ms (audit_intent plan))) st = (Ok v, st2) →
  local_serialize pl st2 = Ok f → intent st2 (lf_audit f).
Proof.
  intros Hok Hau Hrun Hf. destruct (contains_operation _ _) eqn:Hc; cbn [negb] in Hrun.
  - destruct (accept_audit_tail_Ok _ _ _ _ _ Hrun Hok) as (Hok' & Hau' & _).
    apply local_serialize_Ok in Hf as (Ha & _); [|done]. split; [done|by rewrite -> Hau', Hau|done|by rewrite -> Hau'].
  - destruct (append_event_Ok _ _ _ _ _ Hrun Hok) as (Hok' & _).
    apply local_serialize_Ok in Hf as (Ha & _); [|done].
    by destruct (announced_append st st2 v d0 (lf_audit f)) as [Hi _].
Qed.

Lemma wp_prepare_intent st (Q : _ → W → Prop) w hs :
  local_ok pl st → vs_audit st = vs_audit st0 → staged_at w d0 hs →
  (∀ x st' a w', grows w w' → intent st' a → (len a ≤ MAX_LARGE_PROTECTED_BYTES)%N →
    staged_at w' d0 ((x, PrincipalFile PSF_Audit, a) :: hs) → Q (x, st') w') →
  wp (prepare_intent self plan st) (starts Q) w.
Proof.
  intros Hok Hau Hs Hq. unfold prepare_intent. rewrite -> (if_run_on_local (negb _)).
  eapply wp_start_local; [exact Hs|]. intros v st2 Hrun. eapply wp_start_lift; [exact Hs|]. intros f Hf%map_err_Ok.
  pose proof (intent_states _ _ _ _ Hok Hau Hrun Hf) as Hi.
  apply wp_bind. eapply wp_protect; [exact Hs|intros; by eapply start_err|]. intros m w1 Hg1 Hs1 Hm Hl.
  apply wp_bind. eapply wp_prepares; [apply wp_locked_vault_prepare|exact Hs1|intros; by eapply start_err|].
  intros x w2 Hg2 Hs2. rewrite -> Hm in Hs2. apply wp_ret. eapply Hq; [by etrans|exact Hi|done|exact Hs2].
Qed.

Lemma wp_prepare_final st a (Q : _ → W → Prop) w hs :
  intent st a → staged_at w d0 hs →
  (∀ x stk k w', grows w w' → final st stk k → staged_at w' d0 ((x, PrincipalFile PSF_Checkpoint, k) :: hs) → Q x w') →
  wp (prepare_final self plan st) (starts Q) w.
Proof.
  intros Hi Hs Hq. unfold prepare_final. eapply wp_start_lift; [exact Hs|]. intros c Hc%map_err_Ok.
  eapply wp_start_local; [exact Hs|]. intros rel st3 Hacc.
  pose proof (accepted_target _ _ _ _ _ Hc Hacc (it_ok _ _ Hi)) as Ht.
  destruct (accept_candidate_Ok _ _ _ _ _ _ Hacc (it_ok _ _ Hi)) as (Hok3 & Hau3 & _).
  eapply wp_start_lift; [exact Hs|]. intros f' (_ & Hk & _)%map_err_Ok%local_serialize_Ok; [|done].
  apply wp_bind. eapply wp_protect; [exact Hs|intros; by eapply start_err|]. intros m w1 Hg1 Hs1 Hm _.
  eapply wp_prepares; [apply wp_locked_vault_prepare|exact Hs1|intros; by eapply start_err|].
  intros x w2 Hg2 Hs2. rewrite -> Hm in Hs2. eapply (Hq x st3); [by etrans|by split|exact Hs2].
Qed.

(** The place of the vault file, as a preview found it. *)
Definition previewed p w : Prop :=
  pp_destination p = file_name SharedVault ∧
  location (mt_shared self) (mt_state self) (sc_principal_id (pl_scope pl)) w SharedVault = Some (dir_ino (pp_parent p)).

Lemma previewed_grows p w w' : grows w w' → previewed p w → previewed p w'.
Proof. intros Hg [Hd Hl]. split; [done|by eapply location_grows]. Qed.

Lemma wp_prepare_target p (Q : _ → W → Prop) w hs :
  previewed p w → staged_at w d0 hs →
  (∀ x w', staged_at w' d0 ((x, SharedVault, mp_target_bytes plan) :: hs) → Q x w') →
  wp (prepare_target self plan p) (starts Q) w.
Proof.
  intros Hp Hs Hq. unfold prepare_target, shared_prepare.
  apply wp_bind. eapply wp_protect; [exact Hs|intros; by eapply start_err|]. intros m w1 Hg1 Hs1 Hm _.
  destruct (previewed_grows _ _ _ Hg1 Hp) as [Hd Hl].
  eapply wp_prepares; [by apply wp_prepare_file|exact Hs1|intros; by eapply start_err|].
  intros x w2 Hg2 Hs2. rewrite -> Hm in Hs2. by apply Hq.
Qed.

Lemma wp_prepare_and_publish st hook pc p w :
  local_ok pl st → vs_audit st = vs_audit st0 → keeps grows hook → catalog_ready cu d0 pc → previewed p w →
  staged_at w d0 (held_catalog cu pc) → wp (prepare_and_publish self plan cu hook pc p st) post w.
Proof.
  intros Hok Hau Hhook Hpc Hp Hs. unfold prepare_and_publish.
  assert (Forall (λ x, temporary_like (pf_temporary x)) (option_list pc)) as Htc.
  { apply (catalog_temporary w d0 pc []); [done|]. by rewrite -> app_nil_r. }
  apply wp_drop; [done|]. eapply wp_prepare_intent; [done..|]. intros pa st2 a w1 Hg1 Hi Hl Hs1.
  pose proof (staged_temporary _ _ _ _ _ _ Hs1) as Hta. apply Forall_cons in Hta as [Hta _].
  apply wp_drop; [by apply Forall_cons_2|]. eapply wp_prepare_final; [done..|]. intros pk stk k w2 Hg2 Hf Hs2.
  pose proof (staged_temporary _ _ _ _ _ _ Hs2) as Htk. apply Forall_cons in Htk as [Htk _].
  apply wp_drop; [by repeat apply Forall_cons_2|].
  eapply wp_prepare_target; [by eapply previewed_grows, previewed_grows|exact Hs2|]. intros ps w3 Hs3.
  eapply wp_publish_plan; [done..|]. eapply staged_perm; [|exact Hs3]. unfold prepared_files.
  rewrite -> (Permutation_app_comm (held_catalog cu pc)). symmetry. apply (Permutation_middle [_; _]).
Qed.

Lemma current_artifact_target bs current policy e t :
  current_artifact json_probe json_vault json_pretty plan bs = Ok (current, policy, e, t) →
  t = true → sha256 bs = mp_target_digest plan.
Proof.
  unfold current_artifact. intros Hk Ht. apply bind_Ok in Hk as (c & _ & Hk). apply bind_Ok in Hk as (p & _ & Hk).
  apply bind_Ok in Hk as (k & _ & Hk). apply reject_if_bind in Hk as [_ Hk].
  injection Hk as -> -> Hk Htt. rewrite <- Htt in Ht. apply andb_true_iff in Ht as [Ht _].
  apply andb_true_iff in Ht as [Ht _]. by apply bool_decide_eq_true in Ht.
Qed.

Lemma wp_check_current pc (Q : _ → W → Prop) w :
  staged_at w d0 (held_catalog cu pc) →
  (∀ p t rel st w', previewed p w' → local_ok pl st → vs_audit st = vs_audit st0 →
    (rel ≠ CR_StrictDescendant → st = st0) → (t = true → vault_is_target plan d0) →
    staged_at w' d0 (held_catalog cu pc) → Q (p, t, rel, st) w') →
  wp (check_current json_probe json_vault json_pretty self plan) (starts Q) w.
Proof.
  intros Hs Hq. unfold check_current.
  eapply wp_start; [apply keeps_map_errM, idle_grows, shared_preview_idle|exact Hs|].
  intros p w1 Hp%map_errM_run%(shared_preview_Ok _ (mt_state self) (sc_principal_id (pl_scope pl))) Hg1 Hs1.
  assert (previewed p w1) as Hp1 by by eapply previewed_grows.
  eapply wp_start; [apply keeps_map_errM, idle_grows, shared_read_idle|exact Hs1|].
  intros bs w2 Hbs%map_errM_run Hg2 Hs2.
  apply (shared_read_Ok _ (mt_state self) (sc_principal_id (pl_scope pl))) in Hbs; [|done].
  rewrite -> (sg_disk _ _ _ _ _ _ Hs1) in Hbs.
  eapply wp_start_lift; [exact Hs2|]. intros [[[current policy] e] t] Hcur.
  eapply wp_start_lift; [exact Hs2|]. intros _ _.
  eapply wp_start; [pose proof (ancestry_grows self); keeps_tac|exact Hs2|]. intros _ w3 _ Hg3 Hs3.
  eapply wp_start; [apply idle_grows, read_local_state_idle|exact Hs3|]. intros st w4 Hst%read_local_state_Ok Hg4 Hs4.
  rewrite -> (verify_disk_same _ _ _ (sg_disk _ _ _ _ _ _ Hs3)), Hst0 in Hst. injection Hst as <-.
  destruct (verify_disk_Ok _ _ Hst0) as [Hok0 _].
  eapply wp_start_lift; [exact Hs4|]. intros c _. eapply wp_start_local; [exact Hs4|]. intros rel st1 Hacc.
  destruct (accept_candidate_Ok _ _ _ _ _ _ Hacc Hok0) as (Hok1 & Hau & _ & _ & Hrel & _). apply wp_ret, Hq; try done.
  - eapply previewed_grows; [exact Hg4|]. eapply previewed_grows; [exact Hg3|]. by eapply previewed_grows.
  - intros Hne. eapply accept_candidate_Equal; [exact Hacc|]. by destruct rel.
  - intros ->. exists bs. split; [done|]. by eapply current_artifact_target.
Qed.

Lemma wp_commit_locked hook w :
  keeps grows hook → staged_at w d0 [] → wp (commit_locked json_probe json_vault json_pretty self plan cu hook) post w.
Proof.
  intros Hhook Hs. unfold commit_locked.
  assert (wp (if cu is Some u then prepare_catalog_update self u else mret None)
    (starts (λ pc w', staged_at w' d0 (held_catalog cu pc) ∧ catalog_ready cu d0 pc)) w) as Hpc.
  { pose proof start_err as Hse. revert Hse. unfold starts. generalize (commit_post plan cu d0 st0) as Pp. intros Pp Hse.
    destruct cu as [u|]; [|by apply wp_ret].
    eapply wp_prepare_catalog_update; [exact Hs|intros; by eapply Hse|]. by split. }
  apply wp_bind. eapply wp_mono; [exact Hpc|]. intros [pc|e] w1 Hw1; [|done]. destruct Hw1 as [Hs1 Hready].
  apply wp_drop. { apply (catalog_temporary w1 d0 pc []); [done|]. by rewrite -> app_nil_r. }
  eapply wp_check_current; [exact Hs1|]. intros p t rel st w2 Hp Hok Hau Hrel Ht Hs2.
  destruct t; [|by eapply wp_prepare_and_publish]. apply wp_bind.
  eapply wp_catalog; [done|exact Hready|by rewrite -> app_nil_r| |].
  { intros e w3 d3 [Hd3 _ _] Hc3. apply post_err, start_recoverable. etrans; [by apply same_disk_core|done]. }
  intros w3 d3 Hs3 Hc3 Hcat. destruct (Ht eq_refl) as (bs & Hbs & Hx).
  eapply wp_reconcile; try done; [|exists bs; by rewrite -> Hc3].
  intros Hne%bool_decide_eq_false. by apply Hrel.
Qed.

Lemma wp_commit_plan hook w :
  keeps grows hook → same_disk (disk_of w) d0 →
  wp (commit_with_before_shared_publish json_probe json_vault json_pretty self plan cu hook) post w.
Proof.
  intros Hhook Hd. unfold commit_with_before_shared_publish.
  assert (staged_at w d0 []) as Hs by by apply staged_start.
  apply wp_bind_lift; [|intros; by eapply start_err]. intros _ _. apply wp_bind.
  eapply wp_grows; [apply keeps_map_errM, try_lock_grows|exact Hs|intros; by eapply start_err|].
  intros l w1 Hl%map_errM_run _ Hs1. eapply wp_releasing; [exact Hl|intros ? ? ?; apply post_same|].
  by apply wp_commit_locked.
Qed.
End staged.

(** Every way to make a plan records the digest of the bytes it publishes. *)
Lemma prepared_plan_digest current wps prepared envs ts ack kind plan :
  from_prepared json_pretty current wps prepared envs ts ack kind = Ok plan →
  mp_target_digest plan = sha256 (mp_target_bytes plan).
Proof. intros (s & r & f & Hp)%from_prepared_Ok. apply Hp. Qed.

Lemma import_plan_digest current incoming wps who ts plan :
  prepare_transfer_import json_pretty current incoming wps who ts = Ok (Some plan) →
  mp_target_digest plan = sha256 (mp_target_bytes plan).
Proof.
  unfold prepare_transfer_import. intros Hp. apply bind_Ok in Hp as (rel & _ & Hp).
  apply bind_Ok in Hp as (s & _ & Hp). apply bind_Ok in Hp as (s' & _ & Hp).
  apply reject_if_bind in Hp as [_ Hp]. case_bool_decide; [done|].
  apply bind_Ok in Hp as (source & _ & Hp). apply bind_Ok in Hp as (bs & _ & Hp%Ok_inj). by simplify_eq.
Qed.

Lemma bound_plan_digest digest plan :
  mp_target_digest plan = sha256 (mp_target_bytes plan) →
  mp_target_digest (bind_repository_ancestry digest plan) = sha256 (mp_target_bytes (bind_repository_ancestry digest plan)).
Proof. done. Qed.

(** C12: a commit, on any file system that keeps the promises of its calls, that
    fails or is cut off at any call leaves the vault as it was or as planned, a log
    that goes on from the one before and announces the plan before the vault
    changes, and a checkpoint that is the old one or, when the vault is the target,
    the one that accepts it; and the files verify. A commit that reports success
    leaves the target, announced and accepted, with the new catalogue. *)
Theorem commit_crash_safe plan cu w st0 r w' :
  mp_target_digest plan = sha256 (mp_target_bytes plan) → verify_disk pl (disk_of w) = Ok st0 →
  commit json_probe json_vault json_pretty self plan cu w = (r, w') →
  recoverable plan (disk_of w) st0 (disk_of w') ∧
  match r with Ok (Committed _ _) | Ok (Reconciled _) => finished plan cu (disk_of w') | _ => True end.
Proof.
  intros Hdigest Hst Hrun. eapply (wp_run _ (commit_post plan cu (disk_of w) st0)); [|exact Hrun].
  apply wp_commit_plan; [done|done|apply keeps_ret; apply _|done].
Qed.

(** C24: a commit that changes the vault leaves an audit log of at most 16 MiB, the
    limit of protected memory, where the format and the file allow 256 MiB. So a
    principal whose log is longer, or would become longer by the event that
    announces the change, changes the vault no more. *)
Theorem commit_audit_bounded plan cu w st0 r w' :
  mp_target_digest plan = sha256 (mp_target_bytes plan) → verify_disk pl (disk_of w) = Ok st0 →
  commit json_probe json_vault json_pretty self plan cu w = (r, w') → disk_of w' SharedVault ≠ disk_of w SharedVault →
  (∃ a, disk_of w' (PrincipalFile PSF_Audit) = Some a ∧ (len a ≤ MAX_LARGE_PROTECTED_BYTES)%N) ∧
  (MAX_LARGE_PROTECTED_BYTES < PrincipalStateFile_maximum_bytes PSF_Audit)%N.
Proof.
  intros Hdigest Hst Hrun Hne. assert (commit_post plan cu (disk_of w) st0 r w') as [Hr _].
  { eapply (wp_run _ (commit_post plan cu (disk_of w) st0)); [|exact Hrun].
    apply wp_commit_plan; [done|done|apply keeps_ret; apply _|done]. }
  split; [|done]. by destruct (rv_bounded _ _ _ _ Hr).
Qed.

(** C23: while the file of the lock is there, and nothing but its holder removes it, a
    commit is refused and changes nothing: two commits never run at once, and a
    commit whose process was stopped is not taken up again before the file is
    removed by hand. *)
Theorem lock_refuses_commit plan cu w i r w' :
  entry w (dir_ino (hd_dir (mt_state self))) (str "vault-edit.lock") = Some i →
  commit json_probe json_vault json_pretty self plan cu w = (r, w') → same_files w w' ∧ ¬ is_ok r.
Proof.
  intros Hi Hrun. refine (wp_run _ (λ r w', same_files w w' ∧ ¬ is_ok r) _ _ _ _ Hrun).
  unfold commit, commit_with_before_shared_publish. apply wp_bind_lift; [|intros; split; [done|by intros []]].
  intros [] _. apply wp_bind. assert (slash ∉ str "vault-edit.lock") as Hn by (apply (bool_decide_unpack _); done).
  pose proof (wp_try_acquire_taken (mt_state self) _ _ _ Hn Hi) as Hl. unfold wp, map_errM, vault_try_lock in *.
  destruct (try_acquire _ _ w) as [[l|e] w1]; cbn in *; [by destruct Hl as [_ []]|]. split; [apply Hl|by intros []].
Qed.
End commit.
