(* ===== verification/Samples.v ===== *)
(** * A small vault

    Concrete data for the witnesses: a stand-in for the two cryptographic
    primitives, two humans, two witnesses, and a journal of five revisions that
    adds a reader, revokes it, adds witnesses, creates a witnessed item and
    deletes the first one. The journal is built with [create_with_signer] and
    [prepare_with_signer]. *)

From S2P Require Import Prelude VaultTypes Canonical Preimage Binding Rollover Validate WitnessPolicy PolicyState StateHash Identifiers Replay ReplayTheorems VaultTheorems GenesisTheorems.
Local Open Scope jury_scope.

(** ** Primitives *)

Definition sample_hash (m : bytes) : bytes :=
  be_bytes 8 (fold_left (λ acc b, N.land (257 * acc + Byte.to_N b + 1) 1099511627775)%N m 7%N) ++
  replicate 24 Byte.x00.

Definition sample_sign (key m : bytes) : bytes := sample_hash (key ++ m) ++ sample_hash (m ++ key).

Global Instance sample_crypto : Crypto := {|
  sha256 := sample_hash;
  verify_bytes key m signature := signature ==? sample_sign key m;
  sha256_length m := ltac:(by unfold sample_hash; rw length_app length_be_bytes);
|}.

(** [n] bytes with the value [b]. *)
Definition fill_bytes (b : N) (n : nat) : bytes := replicate n (byte_of_N b).

(** A source that yields identifiers of one byte value. *)
Global Instance sample_source : RandomSource N := {|
  fill b n := (Some (fill_bytes b n), b);
  fill_length b n bs b' := ltac:(by intros [= <- _]; apply length_replicate);
|}.

(** A principal signs with its own key. *)
Global Instance sample_signer : PolicySigner PrincipalDescriptorV1 := {|
  signer_principal_id := pd_principal_id;
  signer_descriptor d := Ok d;
  signer_sign d m := Ok (sample_sign (pd_verification_public_key d) m);
|}.

Definition unwrap {E A} (d : A) (r : result E A) : A := if r is Ok a then a else d.

Lemma unwrap_ok {E A} (d : A) (r : result E A) : is_ok r = true → r = Ok (unwrap d r).
Proof. by destruct r. Qed.

(** ** Principals *)

Definition sample_principal (b : N) (kind : PrincipalKind) : PrincipalDescriptorV1 :=
  let d signature := {|
    pd_descriptor_version := 1;
    pd_principal_id := fill_bytes b 32;
    pd_principal_kind := kind;
    pd_recipient_public_key := fill_bytes b 1216;
    pd_verification_public_key := fill_bytes b 32;
    pd_self_signature := signature |} in
  d (sample_sign (fill_bytes b 32) (self_signature_preimage (d []))).

Definition owner := sample_principal 1 PK_Human.
Definition reader := sample_principal 2 PK_Human.
Definition witness1 := sample_principal 3 PK_Witness.
Definition witness2 := sample_principal 4 PK_Witness.

(** ** Slots *)

Definition sample_metadata (b revision epoch : N) : DescriptorMetadataV1 := {|
  dm_revision := revision;
  dm_revision_seal_id := fill_bytes b 32;
  dm_nonce := fill_bytes b 12;
  dm_ciphertext_length := 272;
  dm_ciphertext_digest := sample_hash (fill_bytes b 272);
  dm_plaintext_schema := 1;
  dm_key_epoch := epoch |}.

Definition sample_slot (vault item : bytes) (b epoch sequence : N) (role : ContentRole)
    (recipient : PrincipalDescriptorV1) (access : AccessRole) (seal : N) : DirectSlotV1 := {|
  ds_slot_schema := 1;
  ds_slot_algorithm := 1;
  ds_suite := 1;
  ds_kem := 0x647a;
  ds_kdf := 1;
  ds_aead := hpke_aead Suite1;
  ds_vault_id := vault;
  ds_item_id := item;
  ds_key_epoch := epoch;
  ds_content_role := role;
  ds_revision := 1;
  ds_revision_seal_id := fill_bytes seal 32;
  ds_recipient_principal_id := pd_principal_id recipient;
  ds_policy_sequence := sequence;
  ds_recipient_public_key_fingerprint :=
    recipient_public_key_fingerprint (pd_recipient_public_key recipient);
  ds_access_role := access;
  ds_item_access_mode := AM_DirectOnly;
  ds_encapsulation := fill_bytes b 1120;
  ds_ciphertext := fill_bytes b 48 |}.

(** ** The journal *)

Definition sample_created : CreatedPolicy :=
  unwrap {| cp_journal := {| pj_genesis := {|
              pg_vault_id := []; pg_policy_sequence := 0; pg_previous_policy_hash := [];
              pg_created_at_ms := 0; pg_suite := 0; pg_owner := owner;
              pg_source_attestation := None; pg_item_inventory := []; pg_direct_grants := [];
              pg_owner_signature := [] |}; pj_revisions := [] |};
            cp_state := genesis_state {|
              pg_vault_id := []; pg_policy_sequence := 0; pg_previous_policy_hash := [];
              pg_created_at_ms := 0; pg_suite := 0; pg_owner := owner;
              pg_source_attestation := None; pg_item_inventory := []; pg_direct_grants := [];
              pg_owner_signature := [] |} [] ∅ |}
    (create_with_signer 9%N Suite1 owner 1000 (λ _, false)).

Definition vault : VaultId := fill_bytes 9 32.
Definition item1 : ItemId := fill_bytes 101 32.
Definition item2 : ItemId := fill_bytes 102 32.

(** Appends a revision signed by the owner; an error leaves the journal as it is. *)
Definition extend (cp : CreatedPolicy) (timestamp : N) (ops : list PolicyOperationV1) : CreatedPolicy :=
  match prepare_with_signer (cp_state cp) owner timestamp ops with
  | Ok p => {| cp_journal := with_revisions (cp_journal cp)
                 (pj_revisions (cp_journal cp) ++ [prep_revision p]);
               cp_state := prep_state p |}
  | Err _ => cp
  end.

Definition create_item1 : list PolicyOperationV1 :=
  [PrincipalAdd reader (str "bob") ZERO_DIGEST;
   ItemCreate item1 IK_Canonical 1 (sample_metadata 31 1 1) ZERO_DIGEST
     [sample_slot vault item1 41 1 1 CR_Descriptor owner AR_Owner 31;
      sample_slot vault item1 42 1 1 CR_Descriptor reader AR_Reader 31;
      sample_slot vault item1 43 1 1 CR_Body owner AR_Owner 32;
      sample_slot vault item1 44 1 1 CR_Body reader AR_Reader 32] None].

Definition revoke_reader : list PolicyOperationV1 :=
  [ItemRoleChange item1 (pd_principal_id reader) (Some AR_Reader) None;
   ItemReaderSetChange item1 1 2 [pd_principal_id owner; pd_principal_id reader]
     [pd_principal_id owner] (sample_metadata 33 2 2) (fill_bytes 7 32);
   ItemSlotsReplace item1 2
     [sample_slot vault item1 45 2 2 CR_Descriptor owner AR_Owner 33;
      sample_slot vault item1 46 2 2 CR_Body owner AR_Owner 34] None].

Definition sample1 := extend sample_created 1001 create_item1.
Definition sample2 := extend sample1 1002 revoke_reader.
Definition approver := sample_principal 5 PK_Approver.
Definition sample3 := extend sample2 1003
  [PrincipalAdd witness1 (str "w1") ZERO_DIGEST; PrincipalAdd witness2 (str "w2") ZERO_DIGEST;
   PrincipalAdd approver (str "a") ZERO_DIGEST].

(** ** A witness policy *)

Definition sample_approver : ApproverPolicyDescriptor :=
  let key := pd_verification_public_key approver in
  let d signature := {|
    ad_schema := 1;
    ad_approver_id := pd_principal_id approver;
    ad_signing_public_key := key;
    ad_signing_key_fingerprint := signing_key_fingerprint 2 (pd_principal_id approver) 1 key;
    ad_signing_key_epoch := 1;
    ad_status := DS_Active;
    ad_approval_mode := APM_Human;
    ad_allowed_operations := [WO_ReadStdout];
    ad_created_at_ms := 1;
    ad_self_signature := signature |} in
  d (sample_sign key (unwrap [] (ApproverPolicyDescriptor_self_signature_preimage (d [])))).

Definition sample_witness (w : PrincipalDescriptorV1) (index : N) : WitnessPolicyDescriptor :=
  let key := pd_verification_public_key w in
  let d signature := {|
    wd_schema := 1;
    wd_witness_id := pd_principal_id w;
    wd_share_index := index;
    wd_signing_public_key := key;
    wd_signing_key_fingerprint := signing_key_fingerprint 3 (pd_principal_id w) 1 key;
    wd_signing_key_epoch := 1;
    wd_contribution_public_key := pd_recipient_public_key w;
    wd_contribution_key_fingerprint := recipient_public_key_fingerprint (pd_recipient_public_key w);
    wd_contribution_key_epoch := 1;
    wd_status := DS_Active;
    wd_created_at_ms := 1;
    wd_self_signature := signature |} in
  d (sample_sign key (unwrap [] (WitnessPolicyDescriptor_self_signature_preimage (d [])))).

Definition sample_policy : WitnessPolicy := {|
  wp_schema := 1;
  wp_witness_policy_id := fill_bytes 61 32;
  wp_revision := 1;
  wp_predecessor_policy_digest := ZERO_DIGEST;
  wp_vault_id := vault;
  wp_genesis_fingerprint := ps_genesis_fingerprint (cp_state sample3);
  wp_vault_policy_sequence := 4;
  wp_vault_policy_hash := ps_terminal_revision_hash (cp_state sample3);
  wp_construction := 1;
  wp_suite := 1;
  wp_approver_descriptors := [sample_approver];
  wp_witness_descriptors := [sample_witness witness1 1; sample_witness witness2 2];
  wp_witness_threshold := 2;
  wp_operation_rules := [{|
    rule_operation := WO_ReadStdout;
    rule_eligible_approver_ids := [pd_principal_id approver];
    rule_approval_threshold := 1;
    rule_allowed_request_lifetime_ms := 60000;
    rule_max_timeout_ms := 1000;
    rule_max_output_bytes := 4096;
    rule_max_target_count := 1;
    rule_required_platform_assurance := PA_NormalizedPathOnly;
    rule_automatic_read_targets := [] |}];
  wp_review_label_set_digest := ZERO_DIGEST;
  wp_direct_fallback := false |}.

Definition sample_policy_digest : Digest32 := unwrap [] (WitnessPolicy_digest sample_policy).

(** The second revision of the policy. *)
Definition sample_policy2 : WitnessPolicy := {|
  wp_schema := 1;
  wp_witness_policy_id := wp_witness_policy_id sample_policy;
  wp_revision := 2;
  wp_predecessor_policy_digest := sample_policy_digest;
  wp_vault_id := vault;
  wp_genesis_fingerprint := wp_genesis_fingerprint sample_policy;
  wp_vault_policy_sequence := 4;
  wp_vault_policy_hash := wp_vault_policy_hash sample_policy;
  wp_construction := 1;
  wp_suite := 1;
  wp_approver_descriptors := wp_approver_descriptors sample_policy;
  wp_witness_descriptors := wp_witness_descriptors sample_policy;
  wp_witness_threshold := 2;
  wp_operation_rules := wp_operation_rules sample_policy;
  wp_review_label_set_digest := ZERO_DIGEST;
  wp_direct_fallback := false |}.

(** ** A witnessed item *)

Definition sample_capsule (role : ContentRole) (b : N) (w : PrincipalDescriptorV1) (index : N)
    : WitnessShareCapsuleV1 :=
  let c digest := {|
    wc_capsule_schema := 1;
    wc_protocol := 1;
    wc_construction := 1;
    wc_vault_id := vault;
    wc_genesis_fingerprint := wp_genesis_fingerprint sample_policy;
    wc_item_id := item2;
    wc_key_epoch := 1;
    wc_item_access_mode := AM_WitnessedOnly;
    wc_slot_id := fill_bytes b 32;
    wc_content_role := role;
    wc_revision := 1;
    wc_revision_seal_id := fill_bytes b 32;
    wc_vault_policy_sequence := 4;
    wc_witness_policy_id := wp_witness_policy_id sample_policy;
    wc_witness_policy_revision := 1;
    wc_witness_policy_digest := sample_policy_digest;
    wc_threshold := 2;
    wc_member_count := 2;
    wc_witness_id := pd_principal_id w;
    wc_contribution_key_fingerprint := recipient_public_key_fingerprint (pd_recipient_public_key w);
    wc_share_index := index;
    wc_context_digest := digest;
    wc_share_commitment := fill_bytes b 32;
    wc_encapsulation := fill_bytes (b + index) 1120;
    wc_ciphertext := fill_bytes b 49 |} in
  c (recomputed_context_digest_for_suite (c []) Suite1).

Definition sample_witnessed_slot (role : ContentRole) (b : N) : WitnessedSlotV1 :=
  let s digest := {|
    ws_slot_schema := 1;
    ws_slot_algorithm := 2;
    ws_suite := 1;
    ws_protocol := 1;
    ws_construction := 1;
    ws_vault_id := vault;
    ws_genesis_fingerprint := wp_genesis_fingerprint sample_policy;
    ws_item_id := item2;
    ws_key_epoch := 1;
    ws_item_access_mode := AM_WitnessedOnly;
    ws_slot_id := fill_bytes b 32;
    ws_content_role := role;
    ws_revision := 1;
    ws_revision_seal_id := fill_bytes b 32;
    ws_vault_policy_sequence := 4;
    ws_witness_policy_id := wp_witness_policy_id sample_policy;
    ws_witness_policy_revision := 1;
    ws_witness_policy_digest := sample_policy_digest;
    ws_threshold := 2;
    ws_member_count := 2;
    ws_capsules := [sample_capsule role b witness1 1; sample_capsule role b witness2 2];
    ws_capsule_set_digest := digest |} in
  s (unwrap [] (recomputed_capsule_set_digest (s []))).

Definition sample_witnessed_state : WitnessedStateV1 :=
  let w digest := {|
    wst_slots := [sample_witnessed_slot CR_Descriptor 71; sample_witnessed_slot CR_Body 81];
    wst_digest := digest |} in
  w (unwrap [] (WitnessedStateV1_recomputed_digest (w []))).

Definition sample_catalog : gmap Digest32 WitnessPolicy :=
  unwrap ∅ (build_catalog [sample_policy; sample_policy2]).

(** The state of the same journal, replayed with the policies. *)
Definition sample3_catalogued : CreatedPolicy := {|
  cp_journal := cp_journal sample3;
  cp_state := unwrap (cp_state sample3)
    (replay_policy_with_catalog (cp_journal sample3) sample_catalog) |}.

Definition sample4 := extend sample3_catalogued 1004
  [ItemCreate item2 IK_Canonical 1 (sample_metadata 71 1 1) ZERO_DIGEST [] (Some sample_witnessed_state)].

Definition sample5 := extend sample4 1005
  [ItemDelete item1 (dm_ciphertext_digest (sample_metadata 33 2 2)) (fill_bytes 7 32) 5].

(** ** A vault file *)

Definition sample_item : ItemEnvelopeV1 :=
  let body := fill_bytes 5 4112 in {|
  ie_item_id := item2;
  ie_descriptor := sample_metadata 71 1 1;
  ie_descriptor_ciphertext := fill_bytes 71 272;
  ie_prior_revisions := [];
  ie_current_revision := {|
    ir_vault_id := vault;
    ir_item_id := item2;
    ir_item_revision := 1;
    ir_previous_item_revision_hash := ZERO_DIGEST;
    ir_key_epoch := 1;
    ir_policy_sequence := 4;
    ir_author_principal_id := pd_principal_id owner;
    ir_timestamp_ms := 1004;
    ir_revision_seal_id := fill_bytes 81 32;
    ir_nonce := fill_bytes 81 12;
    ir_ciphertext_length := 4112;
    ir_ciphertext_digest := sample_hash body;
    ir_plaintext_schema := 1;
    ir_bucket_id := 1;
    ir_signature := fill_bytes 0 64 |};
  ie_body_ciphertext := body |}.

Definition sample_vault : VaultFileV1 := {|
  vf_header := {|
    vh_magic := str "jury-vault";
    vh_version := 1;
    vh_vault_id := vault;
    vh_created_at_ms := 1000;
    vh_suite := 1;
    vh_policy_schema := 1;
    vh_item_schema := 1;
    vh_identity_schema := 1;
    vh_genesis_fingerprint := ps_genesis_fingerprint (cp_state sample_created) |};
  vf_policy := cp_journal sample5;
  vf_items := [sample_item];
  vf_suite_migration := None |}.

(** A JSON reader and printer that know one vault. *)
Definition sample_text : bytes := str "{}" ++ [Byte.x0a].
Definition sample_json_pretty (v : VaultFileV1) : option bytes := Some (str "{}").
Definition sample_json_probe (bs : bytes) : option HeaderProbeFields := Some {|
  hp_magic := str "jury-vault";
  hp_version := 1;
  hp_suite := 1;
  hp_policy_schema := 1;
  hp_item_schema := 1;
  hp_identity_schema := 1 |}.
Definition sample_json_vault (bs : bytes) : option VaultFileV1 := Some sample_vault.

(** ** The samples evaluate *)

Definition journal0 : PolicyJournalV1 := cp_journal sample_created.

(** The same genesis, read with the other suite. *)
Definition journal0' : PolicyJournalV1 := with_suite 2 journal0.

Definition state0 : PolicyState := unwrap (cp_state sample_created) (replay_policy_with_catalog journal0 ∅).
Definition state0' : PolicyState := unwrap (cp_state sample_created) (replay_policy_with_catalog journal0' ∅).
Definition state1 : PolicyState := unwrap (cp_state sample1) (replay_policy_with_catalog (cp_journal sample1) ∅).
Definition state2 : PolicyState := unwrap (cp_state sample2) (replay_policy_with_catalog (cp_journal sample2) ∅).
Definition state5 : PolicyState :=
  unwrap (cp_state sample5) (replay_policy_with_catalog (cp_journal sample5) sample_catalog).

(** One added principal, under either suite. *)
Definition journal_add : PolicyJournalV1 :=
  cp_journal (extend sample_created 1001 [PrincipalAdd reader (str "bob") ZERO_DIGEST]).
Definition journal_add' : PolicyJournalV1 := with_suite 2 journal_add.
Definition state_add : PolicyState := unwrap (cp_state sample_created) (first_state journal_add ∅).
Definition state_add' : PolicyState := unwrap (cp_state sample_created) (first_state journal_add' ∅).
Definition preimage_add : bytes := unwrap [] (normalized_state_preimage state_add).
Definition preimage_add' : bytes := unwrap [] (normalized_state_preimage state_add').

(** A rollover to suite 2 of one item with an owner, a reader and witnesses. *)
Definition sample_manifest : BootstrapManifestV1 := {|
  bm_version := 2;
  bm_source_suite := Some 1%N;
  bm_destination_suite := 2;
  bm_destination_vault_id := fill_bytes 200 32;
  bm_created_at_ms := 2000;
  bm_acting_owner_principal_id := fill_bytes 1 32;
  bm_principals :=
    [{| bp_principal_id := fill_bytes 1 32; bp_unsigned_descriptor_digest := fill_bytes 0 32;
        bp_display_label := str "alice"; bp_owner := true |};
     {| bp_principal_id := fill_bytes 2 32; bp_unsigned_descriptor_digest := fill_bytes 0 32;
        bp_display_label := str "bob"; bp_owner := false |}];
  bm_items :=
    [{| bi_source_item_id := item2;
        bi_destination_item_id := fill_bytes 202 32;
        bi_item_kind := IK_Canonical;
        bi_descriptor := sample_metadata 73 1 1;
        bi_initial_item_revision_hash := fill_bytes 3 32;
        bi_direct_slot_set_digest := fill_bytes 4 32;
        bi_grants :=
          [{| bg_principal_id := fill_bytes 1 32; bg_role := AR_Owner; bg_direct := true |};
           {| bg_principal_id := fill_bytes 2 32; bg_role := AR_Reader; bg_direct := false |}];
        bi_witnessed := Some {| bw_policy_id := fill_bytes 210 32;
          bw_descriptor_slot_id := fill_bytes 211 32; bw_body_slot_id := fill_bytes 212 32 |} |}];
  bm_witness_policies :=
    [{| bwp_source_policy_id := fill_bytes 110 32; bwp_source_policy_revision := Some 2%N;
        bwp_destination_policy_id := fill_bytes 210 32; bwp_intent_digest := fill_bytes 5 32 |}] |}.

(** No two distinct strings of the list have the same digest. *)
Definition collision_freeb (ps : list bytes) : bool :=
  forallb (λ p, forallb (λ q, negb (sha256 p ==? sha256 q) || (p ==? q)) ps) ps.

Lemma collision_freeb_ok ps : collision_freeb ps = true → collision_free ps.
Proof.
  unfold collision_freeb. rw forallb_eq_true Forall_forall. intros Hall p q Hp Hq Heq.
  apply Hall, forallb_eq_true in Hp. rw Forall_forall in Hp. apply Hp in Hq.
  rw bool_decide_true // in Hq. cbn in Hq. by to_prop.
Qed.

Definition has_witnessed (s : PolicyState) (id : ItemId) : bool :=
  match ps_items s !! id with Some i => is_some (it_witnessed_state i) | None => false end.

(** Everything the witnesses need, in one evaluation. *)
Lemma sample_facts :
  is_ok (create_with_signer 9%N Suite1 owner 1000 (λ _, false)) &&
  is_ok (replay_policy_with_catalog (cp_journal sample1) ∅) &&
  is_ok (replay_policy_with_catalog (cp_journal sample2) ∅) &&
  is_ok (build_catalog [sample_policy; sample_policy2]) &&
  is_ok (WitnessPolicy_validate sample_policy) &&
  is_ok (replay_policy_with_catalog (cp_journal sample5) sample_catalog) &&
  (length (pj_revisions (cp_journal sample5)) ==? 5) &&
  (length (pj_revisions (cp_journal sample1)) ==? 1) &&
  (length (pj_revisions (cp_journal sample2)) ==? 2) &&
  is_ok (prepare_with_signer state1 owner 1002 revoke_reader) &&
  is_ok (apply_operations state1 2 revoke_reader) &&
  is_direct_descendant_of state2 state1 &&
  PolicyJournalV1_wt (cp_journal sample1) && PolicyJournalV1_wt (cp_journal sample2) &&
  collision_freeb (journal_preimages (cp_journal sample1) ++ journal_preimages (cp_journal sample2)) &&
  has_witnessed state5 item2 && PolicyState_wt state5 && is_ok (normalized_state_preimage state5) &&
  is_ok (VaultFileV1_validate sample_vault) &&
  is_ok (validate_witnessed_state sample_witnessed_state vault
    (ps_genesis_fingerprint (cp_state sample_created)) item2 1 4 AM_WitnessedOnly) &&
  is_ok (generate_item_id 105%N state5) &&
  is_ok (replay_policy_with_catalog journal0 ∅) && is_ok (replay_policy_with_catalog journal0' ∅) &&
  PolicyJournalV1_wt journal0 && PolicyJournalV1_wt journal0' &&
  (ps_terminal_revision_hash state0 ==? ps_terminal_revision_hash state0') &&
  collision_freeb (journal_preimages journal0 ++ journal_preimages journal0') &&
  (length (pj_revisions journal0) ==? 0) &&
  is_ok (replay_policy_with_catalog journal_add ∅) && (length (pj_revisions journal_add) ==? 1) &&
  (pg_suite (pj_genesis journal_add) ==? 1%N) &&
  is_ok (first_state journal_add ∅) && is_ok (first_state journal_add' ∅) &&
  is_ok (normalized_state_preimage state_add) && is_ok (normalized_state_preimage state_add') &&
  collision_freeb [preimage_add; preimage_add'] &&
  BootstrapManifestV1_wt sample_manifest && is_ok (validate_shape sample_manifest) &&
  is_ok (BootstrapManifestV1_canonical_bytes sample_manifest) = true.
Proof. vm_cast_no_check (eq_refl true). Qed.

Lemma vault_policy : vf_policy sample_vault = cp_journal sample5.
Proof. reflexivity. Qed.

Lemma sample_probe bs : sample_json_probe bs = Some (probe_of (vf_header sample_vault)).
Proof. reflexivity. Qed.

Lemma journal_add'_eq : journal_add' = with_suite 2 journal_add.
Proof. reflexivity. Qed.

(** The samples are used through the facts below, never unfolded. *)
Global Opaque sample_created sample1 sample2 sample3 sample4 sample5 sample_policy
  sample_policy2 sample_witnessed_state sample_vault owner revoke_reader journal0 journal0'
  journal_add journal_add' sample_manifest.

(** Proves one conjunct of [sample_facts]. *)
Ltac sample_fact :=
  pose proof sample_facts as F;
  repeat match type of F with
  | (?a && ?b) = true => apply andb_true_iff in F as [F ?]
  end;
  match goal with Hx : ?P |- ?Q => constr_eq P Q; exact Hx end.

Lemma created_ok : is_ok (create_with_signer 9%N Suite1 owner 1000 (λ _, false)) = true.
Proof. sample_fact. Qed.

Lemma replay0_ok : replay_policy_with_catalog journal0 ∅ = Ok state0.
Proof. refine (unwrap_ok (cp_state sample_created) _ _). sample_fact. Qed.

Lemma replay0'_ok : replay_policy_with_catalog journal0' ∅ = Ok state0'.
Proof. refine (unwrap_ok (cp_state sample_created) _ _). sample_fact. Qed.

Lemma replay1_ok : replay_policy_with_catalog (cp_journal sample1) ∅ = Ok state1.
Proof. refine (unwrap_ok (cp_state sample1) _ _). sample_fact. Qed.

Lemma replay2_ok : replay_policy_with_catalog (cp_journal sample2) ∅ = Ok state2.
Proof. refine (unwrap_ok (cp_state sample2) _ _). sample_fact. Qed.

Lemma replay5_ok : replay_policy_with_catalog (cp_journal sample5) sample_catalog = Ok state5.
Proof. refine (unwrap_ok (cp_state sample5) _ _). sample_fact. Qed.

Lemma catalog_ok : build_catalog [sample_policy; sample_policy2] = Ok sample_catalog.
Proof. refine (unwrap_ok ∅ _ _). sample_fact. Qed.

Lemma is_ok_exists {E A} (r : result E A) : is_ok r = true → ∃ a, r = Ok a.
Proof. destruct r; [eauto|done]. Qed.

Lemma replay_add_ok : ∃ s, replay_policy_with_catalog journal_add ∅ = Ok s.
Proof. apply is_ok_exists. sample_fact. Qed.

Lemma add_ok : first_state journal_add ∅ = Ok state_add ∧
  normalized_state_preimage state_add = Ok preimage_add.
Proof. split; [refine (unwrap_ok (cp_state sample_created) _ _)|refine (unwrap_ok [] _ _)]; sample_fact. Qed.

Lemma add'_ok : first_state journal_add' ∅ = Ok state_add' ∧
  normalized_state_preimage state_add' = Ok preimage_add'.
Proof. split; [refine (unwrap_ok (cp_state sample_created) _ _)|refine (unwrap_ok [] _ _)]; sample_fact. Qed.

Global Opaque state0 state0' state1 state2 state5 sample_catalog state_add state_add'
  preimage_add preimage_add'.

Lemma add_collision_free : collision_free [preimage_add; preimage_add'].
Proof. apply collision_freeb_ok. sample_fact. Qed.

Lemma is_ok_unit {E} (r : result E unit) : is_ok r = true → r = Ok tt.
Proof. by destruct r as [[]|]. Qed.

Lemma policy_valid : WitnessPolicy_validate sample_policy = Ok tt.
Proof. apply is_ok_unit. sample_fact. Qed.

Lemma vault_valid : VaultFileV1_validate sample_vault = Ok tt.
Proof. apply is_ok_unit. sample_fact. Qed.

Lemma journals_wt : PolicyJournalV1_wt (cp_journal sample1) = true ∧
  PolicyJournalV1_wt (cp_journal sample2) = true.
Proof. split; sample_fact. Qed.

Lemma journals_collision_free :
  collision_free (journal_preimages (cp_journal sample1) ++ journal_preimages (cp_journal sample2)).
Proof. apply collision_freeb_ok. sample_fact. Qed.

Lemma journals0_wt : PolicyJournalV1_wt journal0 = true ∧ PolicyJournalV1_wt journal0' = true.
Proof. split; sample_fact. Qed.

Lemma journals0_collision_free : collision_free (journal_preimages journal0 ++ journal_preimages journal0').
Proof. apply collision_freeb_ok. sample_fact. Qed.

Lemma journals0_terminal : ps_terminal_revision_hash state0 = ps_terminal_revision_hash state0'.
Proof. refine (bool_decide_eq_true_1 _ _). sample_fact. Qed.

Lemma journal0_empty : pj_revisions journal0 = [].
Proof. apply length_zero_iff_nil. refine (bool_decide_eq_true_1 _ _). sample_fact. Qed.

Lemma journal2_length : length (pj_revisions (cp_journal sample2)) = 2.
Proof. refine (bool_decide_eq_true_1 _ _). sample_fact. Qed.

(** A journal as a prefix and what follows it. *)
Lemma with_revisions_take_drop j n :
  with_revisions j (take n (pj_revisions j) ++ drop n (pj_revisions j)) = j.
Proof. rw take_drop. by destruct j. Qed.

Lemma journal_last j n :
  length (pj_revisions j) = S n →
  ∃ r, pj_revisions j = take n (pj_revisions j) ++ [r].
Proof.
  intros Hlen. destruct (drop n (pj_revisions j)) as [|r [|]] eqn:E.
  - apply (f_equal length) in E. rw length_drop /= in E. lia.
  - exists r. by rw -E take_drop.
  - apply (f_equal length) in E. rw length_drop /= in E. lia.
Qed.

Lemma journal_add_length : length (pj_revisions journal_add) = 1.
Proof. refine (bool_decide_eq_true_1 _ _). sample_fact. Qed.

Lemma journal_add_suite : pg_suite (pj_genesis journal_add) = 1%N.
Proof. refine (bool_decide_eq_true_1 _ _). sample_fact. Qed.

Lemma manifest_wt : BootstrapManifestV1_wt sample_manifest = true.
Proof. sample_fact. Qed.

Lemma manifest_valid : validate_shape sample_manifest = Ok tt.
Proof. apply is_ok_unit. sample_fact. Qed.

Lemma manifest_encodes : ∃ o, BootstrapManifestV1_canonical_bytes sample_manifest = Ok o.
Proof. apply is_ok_exists. sample_fact. Qed.

Lemma valid_prints v :
  VaultFileV1_validate v = Ok tt → to_json_bytes sample_json_pretty v = Ok sample_text.
Proof. intros Hv. unfold to_json_bytes. rewrite -> Hv. reflexivity. Qed.

Lemma valid_parses v :
  VaultFileV1_validate v = Ok tt →
  parse sample_json_probe (λ _, Some v) sample_json_pretty sample_text = Ok v.
Proof.
  intros Hv. unfold parse. do 2 (apply bind_Ok; eexists; split; [reflexivity|]).
  apply bind_Ok. exists tt. split; [reflexivity|]. apply bind_Ok. exists v. split; [reflexivity|].
  rewrite -> Hv, (valid_prints v Hv). reflexivity.
Qed.

Lemma vault_prints : to_json_bytes sample_json_pretty sample_vault = Ok sample_text.
Proof. exact (valid_prints sample_vault vault_valid). Qed.

Lemma text_parses :
  parse sample_json_probe sample_json_vault sample_json_pretty sample_text = Ok sample_vault.
Proof. exact (valid_parses sample_vault vault_valid). Qed.

Lemma collision_free_pair (p : bytes) : collision_free [p; p].
Proof. by intros q1 q2 [->| [->| []%not_elem_of_nil]%elem_of_cons]%elem_of_cons
  [->| [->| []%not_elem_of_nil]%elem_of_cons]%elem_of_cons. Qed.
