(* ===== verification/Witnesses.v ===== *)
(** * The properties at concrete inputs

    Theorems with hypotheses on the vault, its journal and the components around
    them, applied to the data of [Samples]. *)

From S2P Require Import Prelude VaultTypes Canonical Preimage Text Effects Binding Rollover RolloverShape Validate ValidateSlots ValidateVault WitnessPolicy PolicyState StateHash Identifiers Replay ReplayRegistry ReplayState ReplayRotation ReplayLineage ReplayTheorems PolicyTheorems CatalogTheorems VaultTheorems GenesisTheorems PolicySpec Plaintext Redaction StreamingRedaction Samples.
Local Open Scope jury_scope.

Lemma replay_state_sound_witness :
  sound state5 ∧ ps_sequence state5 = len (pj_revisions (cp_journal sample5)).
Proof. exact (replay_state_sound (cp_journal sample5) sample_catalog state5 replay5_ok). Defined.

Lemma replay_history_witness :
  ∃ s, replay_policy_with_catalog
         (with_revisions (cp_journal sample5) (take 2 (pj_revisions (cp_journal sample5))))
         sample_catalog = Ok s ∧
    extends s state5 ∧ ∀ id, id ∈ dom (ps_tombstones s) → ps_items state5 !! id = None.
Proof.
  apply (replay_history (cp_journal sample5) (take 2 (pj_revisions (cp_journal sample5)))
    (drop 2 (pj_revisions (cp_journal sample5)))).
  rewrite -> with_revisions_take_drop. exact replay5_ok.
Defined.

Lemma replay_authorised_witness :
  ∃ r s, pj_revisions (cp_journal sample2) = take 1 (pj_revisions (cp_journal sample2)) ++ [r] ∧
    authorised s r ∧ pr_previous_revision_hash r = ps_terminal_revision_hash s.
Proof.
  destruct (journal_last (cp_journal sample2) 1 journal2_length) as [r Hr].
  destruct (replay_authorised (cp_journal sample2) (take 1 (pj_revisions (cp_journal sample2))) r []
    ∅ state2 Hr replay2_ok) as (s & _ & Ha & _ & Hp).
  exists r, s. exact (conj Hr (conj Ha Hp)).
Defined.

Lemma replay_rotation_witness :
  ∃ s r, ∀ id i i', ps_items s !! id = Some i → ps_items state2 !! id = Some i' →
    (same_keys i i' ∧ effective_reader_ids s id = effective_reader_ids state2 id) ∨
    renewed s (pr_sequence r) id i i'.
Proof.
  destruct (journal_last (cp_journal sample2) 1 journal2_length) as [r Hr].
  destruct (replay_rotation (cp_journal sample2) (take 1 (pj_revisions (cp_journal sample2))) r ∅ state2)
    as (s & _ & Hs).
  { rewrite <- Hr. pose proof replay2_ok as H2. destruct (cp_journal sample2). exact H2. }
  exists s, r. intros id i i' Hi Hi'. exact (proj1 (Hs id i i' Hi Hi')).
Defined.

Lemma sample_signer_sound (d : PrincipalDescriptorV1) d' m sig :
  signer_descriptor d = Ok d' → signer_sign d m = Ok sig →
  verify_bytes (pd_verification_public_key d') m sig = true.
Proof. intros [= <-] [= <-]. apply bool_decide_eq_true. done. Qed.

Lemma prepared_revision_replays_witness :
  ∃ p, replay_policy_with_catalog
    (with_revisions (cp_journal sample1) (pj_revisions (cp_journal sample1) ++ [prep_revision p])) ∅ =
    if (last_timestamp (cp_journal sample1) <=? 1002)%N then Ok (prep_state p) else Err InvalidAncestry.
Proof.
  destruct (is_ok_exists (prepare_with_signer state1 owner 1002 revoke_reader)) as [p Hp]; [sample_fact|].
  exists p. exact (prepared_revision_replays owner (cp_journal sample1) ∅ state1 1002 revoke_reader p
    replay1_ok (sample_signer_sound owner) Hp).
Defined.

Lemma replay_commits_witness : erase_journal journal0 = erase_journal journal0'.
Proof.
  exact (replay_commits journal0 journal0' ∅ ∅ state0 state0' replay0_ok replay0'_ok journals0_terminal
    (proj1 journals0_wt) (proj2 journals0_wt) journals0_collision_free).
Defined.

Lemma replay_descends_witness :
  ∃ s, replay_policy_with_catalog
         (with_revisions (cp_journal sample2) (take 1 (pj_revisions (cp_journal sample2)))) ∅ = Ok s ∧
    is_direct_descendant_of state2 s = true.
Proof.
  destruct (journal_last (cp_journal sample2) 1 journal2_length) as [r Hr].
  assert (replay_policy_with_catalog (with_revisions (cp_journal sample2)
    (take 1 (pj_revisions (cp_journal sample2)) ++ [r])) ∅ = Ok state2) as H2.
  { rewrite <- Hr. pose proof replay2_ok as H2. destruct (cp_journal sample2). exact H2. }
  destruct (replay_last _ _ _ _ _ H2) as (s & Hs & _). exists s. split; [exact Hs|].
  exact (replay_descends _ _ r ∅ s state2 Hs H2).
Defined.

Lemma descendant_extends_witness :
  ∃ revs r, pj_revisions (cp_journal sample2) = revs ++ [r] ∧
    erase_journal (with_revisions (cp_journal sample2) revs) = erase_journal (cp_journal sample1).
Proof.
  assert (is_direct_descendant_of state2 state1 = true) as Hd by sample_fact.
  exact (descendant_extends (cp_journal sample1) (cp_journal sample2) ∅ ∅ state1 state2 replay1_ok replay2_ok
    Hd (proj1 journals_wt) (proj2 journals_wt) journals_collision_free).
Defined.

Lemma replay_access_witness :
  (∀ id i o c, ps_items state5 !! id = Some i → o ∈ ps_owners state5 →
    ax_allowed (access state5 id o c) = true ∧ ax_effective_role (access state5 id o c) = Some AR_Owner) ∧
  (∀ id i slot, ps_items state5 !! id = Some i → slot ∈ it_direct_slots i →
    let a := access state5 id (ds_recipient_principal_id slot) Cap_Read in
    ax_allowed a = true ∧ ax_carries_quorum_claim a = false).
Proof. exact (replay_access (cp_journal sample5) sample_catalog state5 replay5_ok). Defined.

Lemma operations_unambiguous_witness : NoDup (operation_key <$> revoke_reader) ∧ revoke_reader ≠ [].
Proof.
  destruct (is_ok_exists (apply_operations state1 2 revoke_reader)) as [s' Hs]; [sample_fact|].
  exact (operations_unambiguous state1 2 revoke_reader s' Hs).
Defined.

Lemma witness_policy_sound_witness : policy_sound sample_policy.
Proof. exact (witness_policy_sound sample_policy policy_valid). Defined.

Lemma catalog_histories_witness : catalog_sound [sample_policy; sample_policy2] sample_catalog.
Proof. exact (proj1 (catalog_histories [sample_policy; sample_policy2] sample_catalog catalog_ok)). Defined.

Lemma sample_replay_with_policies :
  replay_policy_with_witness_policies (cp_journal sample5) [sample_policy; sample_policy2] = Ok state5.
Proof. unfold replay_policy_with_witness_policies. rewrite -> catalog_ok. exact replay5_ok. Qed.

Lemma sample_witnessed_item :
  ∃ i w, ps_items state5 !! item2 = Some i ∧ it_witnessed_state i = Some w.
Proof.
  assert (has_witnessed state5 item2 = true) as Hw by sample_fact. unfold has_witnessed in Hw.
  destruct (ps_items state5 !! item2) as [i|]; [|discriminate].
  destruct (it_witnessed_state i) as [w|] eqn:E; [eauto|discriminate].
Qed.

Lemma witnessed_items_served_witness :
  ∃ i a, ps_items state5 !! item2 = Some i ∧ witness_authority state5 item2 = Ok (Some a) ∧
    wa_reachable a = true ∧ wa_carries_quorum_claim a = bool_decide (it_direct_slots i = []).
Proof.
  destruct sample_witnessed_item as (i & w & Hi & Hw).
  destruct (witnessed_items_served (cp_journal sample5) [sample_policy; sample_policy2] state5 item2 i w
    sample_replay_with_policies Hi Hw) as (p & f & a & _ & _ & _ & _ & _ & _ & _ & Ha & Hr & Hq).
  exists i, a. exact (conj Hi (conj Ha (conj Hr Hq))).
Defined.

Lemma validated_journal_witness :
  ∃ terminal, journal_linked (vf_policy sample_vault) terminal ∧
    journal_prefix sample_vault (pj_revisions (vf_policy sample_vault))
      (len (pj_revisions (vf_policy sample_vault)), terminal) ∧
    PolicyGenesisV1_recomputed_fingerprint (pj_genesis (vf_policy sample_vault)) =
      Ok (vh_genesis_fingerprint (vf_header sample_vault)).
Proof. exact (validated_journal sample_vault vault_valid). Defined.

Lemma validated_items_witness :
  Forall (item_ok sample_vault) (vf_items sample_vault) ∧ NoDup (ie_item_id <$> vf_items sample_vault).
Proof.
  destruct (validated_items sample_vault vault_valid) as (_ & Hok & _ & _ & Hnd). exact (conj Hok Hnd).
Defined.

Lemma validated_slots_witness :
  Forall (λ s, ds_suite s = vh_suite (vf_header sample_vault))
    (journal_operations (vf_policy sample_vault) ≫= direct_of).
Proof. exact (proj1 (validated_slots sample_vault vault_valid)). Defined.

Lemma validated_replay_witness :
  ps_suite state5 = vh_suite (vf_header sample_vault) ∧
  journal_linked (vf_policy sample_vault) (ps_terminal_revision_hash state5).
Proof.
  assert (replay_policy_with_catalog (vf_policy sample_vault) sample_catalog = Ok state5) as Hr.
  { rewrite -> vault_policy. exact replay5_ok. }
  destruct (validated_replay sample_vault sample_catalog state5 vault_valid Hr) as (_ & Hs & _ & Hl & _).
  exact (conj Hs Hl).
Defined.

Lemma sample_witnessed_valid :
  validate_witnessed_state sample_witnessed_state vault
    (ps_genesis_fingerprint (cp_state sample_created)) item2 1 4 AM_WitnessedOnly = Ok tt.
Proof. apply is_ok_unit. sample_fact. Qed.

Lemma witnessed_state_sound_witness :
  witnessed_state_spec vault (ps_genesis_fingerprint (cp_state sample_created)) item2 1 4 AM_WitnessedOnly
    sample_witnessed_state.
Proof.
  exact (witnessed_state_sound sample_witnessed_state vault (ps_genesis_fingerprint (cp_state sample_created))
    item2 1 4 AM_WitnessedOnly sample_witnessed_valid).
Defined.

Lemma parse_unique_witness : to_json_bytes sample_json_pretty sample_vault = Ok sample_text.
Proof.
  exact (proj2 (parse_unique sample_json_probe sample_json_vault sample_json_pretty sample_text sample_text
    sample_vault text_parses text_parses)).
Defined.

Lemma print_parse_witness :
  parse sample_json_probe sample_json_vault sample_json_pretty sample_text = Ok sample_vault.
Proof.
  exact (print_parse sample_json_probe sample_json_vault sample_json_pretty sample_vault sample_text
    vault_prints eq_refl (sample_probe sample_text) eq_refl).
Defined.

(** Recording a revision hash changes nothing the state hash covers. *)
Lemma push_revision_hash_normal h s :
  PolicyState_wt (push_revision_hash h s) = PolicyState_wt s ∧
  normalized_state_preimage (push_revision_hash h s) = normalized_state_preimage s.
Proof. done. Qed.

Lemma state_hash_binds_witness :
  same_normal state5 (push_revision_hash ZERO_DIGEST state5) ∧
  ∀ id p, effective_role state5 id p = effective_role (push_revision_hash ZERO_DIGEST state5) id p.
Proof.
  assert (PolicyState_wt state5 = true) as Hw by sample_fact.
  destruct (is_ok_exists (normalized_state_preimage state5)) as [p Hp]; [sample_fact|].
  destruct (push_revision_hash_normal ZERO_DIGEST state5) as [Hw' Hp'].
  refine (state_hash_binds state5 (push_revision_hash ZERO_DIGEST state5) p p Hw _ Hp _ _
    (collision_free_pair p)).
  - rewrite -> Hw'. exact Hw.
  - rewrite -> Hp'. exact Hp.
  - unfold normalized_state_hash. rewrite -> Hp'. exact eq_refl.
Defined.

Lemma genesis_suite_unbound_witness :
  ∃ s', replay_policy_with_catalog (with_suite 2 journal0) ∅ = Ok s' ∧ ps_suite s' = 2%N ∧
    ps_genesis_fingerprint s' = ps_genesis_fingerprint state0.
Proof.
  destruct (genesis_suite_unbound journal0 ∅ state0 2 journal0_empty replay0_ok (or_intror eq_refl))
    as (s' & Hr & Hs & _ & Hf & _).
  exists s'. exact (conj Hr (conj Hs Hf)).
Defined.

Lemma first_revision_binds_suite_witness :
  ∃ e, replay_policy_with_catalog (with_suite 2 journal_add) ∅ = Err e.
Proof.
  destruct replay_add_ok as [s Hs]. pose proof add'_ok as [Hf' Hp']. rewrite -> journal_add'_eq in Hf'.
  assert (pj_revisions journal_add ≠ []) as Hne.
  { intros Hn. pose proof journal_add_length as Hl. rewrite -> Hn in Hl. discriminate. }
  assert (2%N ≠ pg_suite (pj_genesis journal_add)) as Hsu by (rewrite -> journal_add_suite; discriminate).
  exact (first_revision_binds_suite journal_add ∅ s state_add state_add' preimage_add preimage_add' 2 Hs Hne
    Hsu (proj1 add_ok) (proj2 add_ok) Hf' Hp' add_collision_free).
Defined.

Lemma created_policy_fresh_witness :
  ∃ cp, create_with_signer 9%N Suite1 owner 1000 (λ _, false) = Ok cp ∧
    replay_policy (cp_journal cp) = Ok (cp_state cp) ∧ ps_items (cp_state cp) = ∅.
Proof.
  destruct (is_ok_exists _ created_ok) as [cp Hcp]. exists cp.
  destruct (created_policy_fresh 9%N Suite1 owner 1000 (λ _, false) cp Hcp) as (Hr & _ & _ & Hi & _).
  exact (conj Hcp (conj Hr Hi)).
Defined.

Lemma generated_item_id_fresh_witness :
  ∃ id, id ∉ ps_historical_item_ids state5 ∧ length id = 32.
Proof.
  destruct (is_ok_exists (generate_item_id 105%N state5)) as [id Hid]; [sample_fact|]. exists id.
  destruct (generated_item_id_fresh 105%N state5 id IK_Canonical 1 (sample_metadata 31 1 1) ZERO_DIGEST [] None
    Hid) as (Hn & Hl & _).
  exact (conj Hn Hl).
Defined.

Lemma operations_refine_witness :
  ∃ s', apply_operations state1 2 revoke_reader = Ok s' ∧ a_revision (abstract state1) (abstract s').
Proof.
  destruct (is_ok_exists (apply_operations state1 2 revoke_reader)) as [s' Hs]; [sample_fact|]. exists s'.
  exact (conj Hs (proj1 (operations_refine state1 2 revoke_reader s'
    (replay_registry (cp_journal sample1) ∅ state1 replay1_ok) Hs))).
Defined.

Lemma manifest_bytes_inj_witness :
  ∃ o, BootstrapManifestV1_canonical_bytes sample_manifest = Ok o ∧ sample_manifest = sample_manifest.
Proof.
  destruct manifest_encodes as [o Ho]. exists o.
  exact (conj Ho (manifest_bytes_inj sample_manifest sample_manifest o manifest_wt manifest_wt Ho Ho)).
Defined.

Lemma manifest_shape_sound_witness :
  NoDup (bi_destination_item_id <$> bm_items sample_manifest) ∧
  Forall (item_shaped sample_manifest) (bm_items sample_manifest).
Proof.
  destruct (manifest_shape_sound sample_manifest manifest_valid) as (_ & _ & Hi & _ & _ & _ & Hs & _).
  exact (conj Hi Hs).
Defined.

(** ** Plaintext and redaction *)

(** ** Item plaintexts *)

Definition empty_state : ItemStateV1 := {| is_plaintext_schema := 1; is_fields := [] |}.
Definition empty_text : bytes := str "{'plaintext_schema':1,'fields':[]}".

(** A JSON printer and reader for that state. *)
Definition print_empty (s : ItemStateV1) : option bytes :=
  if s ==? empty_state then Some empty_text else None.
Definition read_empty (text : bytes) : option ItemStateV1 :=
  if text ==? empty_text then Some empty_state else None.

Definition empty_frame : bytes :=
  match frame print_empty empty_state 1 with Ok out => out | Err _ => [] end.

Lemma frame_exact_witness :
  parse_framed read_empty print_empty 1 empty_frame = Ok empty_state ∧
  bucket_ciphertext_length 1 = Ok (len empty_frame + 16)%N.
Proof.
  assert (frame print_empty empty_state 1 = Ok empty_frame) as Hf by (vm_compute; reflexivity).
  destruct (frame_exact read_empty print_empty empty_state 1 empty_frame) as [Hp Hl].
  - intros body Hb. unfold print_empty in Hb. vm_compute in Hb. injection Hb as <-. vm_compute. reflexivity.
  - split; [apply Hp, Hf|apply Hl, Hf].
Defined.

(** ** Redaction *)

(** An automaton that keeps its patterns and scans for them. *)
#[local] Instance scanner : AhoCorasick :=
  {| automaton := list bytes; build := Some; find_iter ps input := spans ps O O input |}.

#[local] Instance scanner_laws : AhoCorasickLaws.
Proof. intros ps m input [= ->]. reflexivity. Defined.

(** Memory that is always available. *)
#[local] Instance plain_memory : ProtectedValues := {| protected_memory := bytes; expose := Some |}.

(** Encodings that mark what they encode. *)
#[local] Instance tagging : Encoders := {|
  b64 v := str "64:" ++ v; b64_nopad v := str "64-:" ++ v;
  b64_url v := str "64u:" ++ v; b64_url_nopad v := str "64u-:" ++ v;
  json_string v := Some (Byte.x22 :: v ++ [Byte.x22]);
|}.

Definition sample_chunks : list bytes := [str "key=hun"; str "te"; str "r2, again hunter"; str "2."].
Definition sample_patterns : list bytes := [str "hunter2"; str "hunter"].

Definition sample_stream : StreamingRedactor :=
  match StreamingRedactor_new sample_patterns with
  | Ok r => r
  | Err _ => {| sr_matcher := None; sr_pattern_count := O; sr_max_pattern_len := O;
                sr_pending := []; sr_capacity := 0 |}
  end.

Lemma sample_chunks_ok : Forall chunk_ok sample_chunks.
Proof. repeat (apply Forall_cons; split; [by vm_compute|]). by apply Forall_nil. Defined.

Lemma streaming_redaction_exact_witness :
  redact_stream sample_chunks (sample_stream, [])
  = (Ok tt, (set_pending [] sample_stream, str "key=[REDACTED], again [REDACTED].")).
Proof.
  rewrite -> (streaming_redaction_exact sample_patterns); [|vm_compute; reflexivity|apply sample_chunks_ok].
  vm_compute. reflexivity.
Defined.

Lemma pending_within_capacity_witness :
  ∃ r' out, forM push_chunk sample_chunks (sample_stream, []) = (Ok tt, (r', out)) ∧
    sr_capacity r' = sr_capacity sample_stream ∧
    (len (sr_pending r' ++ str "more") ≤ sr_capacity r')%N ∧ (sr_capacity sample_stream < 576 * 1024)%N.
Proof.
  apply (pending_within_capacity sample_patterns); [vm_compute; reflexivity|apply sample_chunks_ok|].
  vm_compute. discriminate.
Defined.

Definition sample_secret_stream : StreamingRedactor :=
  match from_protected_values [str "hunter2"] with Ok r => r | Err _ => sample_stream end.

Lemma stream_hides_secrets_witness :
  ∃ patterns r' out, redact_stream sample_chunks (sample_secret_stream, []) = (Ok tt, (r', out)) ∧
    well_redacted patterns REDACTION_MARKER (concat sample_chunks) out ∧
    ∀ v, v ∈ patterns ↔ (MIN_REDACTABLE_LEN ≤ len v)%N ∧ gives_away [str "hunter2"] v.
Proof. apply stream_hides_secrets; [vm_compute; reflexivity|apply sample_chunks_ok]. Defined.
