(* ===== verification/DirectorySamples.v ===== *)
(** * Directories in memory

    An instance of [Directories] and of [MemoryProvider] that keeps their laws:
    names and contents in maps, and a number of calls after which every call
    fails, as when the process is stopped. *)

From stdpp Require Import gmap.
From S2P Require Import Prelude Canonical Effects ProtectedMemory Directory PrivateFiles.
Local Open Scope jury_scope.

Record MemoryWorld := {
  mw_names : gmap (N * bytes) N;
  mw_bytes : gmap N bytes;
  mw_dirs : list N;
  mw_calls : nat;
}.

Definition with_calls (calls : nat) (w : MemoryWorld) : MemoryWorld :=
  {| mw_names := mw_names w; mw_bytes := mw_bytes w; mw_dirs := mw_dirs w; mw_calls := calls |}.

Definition call {E A} (stopped : E) (f : MemoryWorld → result E A * MemoryWorld) : eff E MemoryWorld A := λ w,
  match mw_calls w with
  | 0 => (Err stopped, w)
  | S calls => f (with_calls calls w)
  end.

Definition memory_entry (w : MemoryWorld) (d : N) (n : bytes) : option N := mw_names w !! (d, n).
Definition memory_contents (w : MemoryWorld) (i : N) : bytes := default [] (mw_bytes w !! i).

(** An inode above all others. *)
Definition next_ino (w : MemoryWorld) : N :=
  (1 + foldr (λ e m, N.max (N.max e.1.1 e.2) m) 0 (map_to_list (mw_names w)))%N.

Definition memory_metadata (w : MemoryWorld) (i : N) : Metadata :=
  let is_dir := bool_decide (i ∈ mw_dirs w) in {|
  md_is_file := negb is_dir;
  md_is_dir := is_dir;
  md_nlink := 1;
  md_len := len (memory_contents w i);
  md_mode := if is_dir then 448%N else 384%N;
  md_uid := 7;
  md_dev := 1;
  md_ino := i;
  md_ctime := 0;
  md_ctime_nsec := 0;
|}.

Definition look {E A} (stopped : E) (f : MemoryWorld → result E A) : eff E MemoryWorld A := call stopped (λ w, (f w, w)).

Definition with_names (names : gmap (N * bytes) N) (w : MemoryWorld) : MemoryWorld :=
  {| mw_names := names; mw_bytes := mw_bytes w; mw_dirs := mw_dirs w; mw_calls := mw_calls w |}.

Definition memory_create (d : N) (n : bytes) (is_dir : bool) : eff Errno MemoryWorld N := call E_OTHER (λ w,
  match memory_entry w d n with
  | Some _ => (Err E_EXIST, w)
  | None =>
      let i := next_ino w in
      (Ok i, {| mw_names := <[(d, n) := i]> (mw_names w);
                mw_bytes := if is_dir then mw_bytes w else <[i := []]> (mw_bytes w);
                mw_dirs := if is_dir then i :: mw_dirs w else mw_dirs w; mw_calls := mw_calls w |})
  end).

Definition memory_rename (replace : bool) (d : N) (a b : bytes) : eff Errno MemoryWorld unit := call E_OTHER (λ w,
  match memory_entry w d a with
  | None => (Err E_NOENT, w)
  | Some i =>
      if negb replace && bool_decide (is_Some (memory_entry w d b)) then (Err E_EXIST, w)
      else if bool_decide (memory_entry w d b = Some i) then (Ok (), w)
      else (Ok (), with_names (<[(d, b) := i]> (delete (d, a) (mw_names w))) w)
  end).

Definition memory_write (f : N) (bs : bytes) : eff Errno MemoryWorld unit := call E_OTHER (λ w, (Ok (),
  {| mw_names := mw_names w; mw_bytes := <[f := memory_contents w f ++ bs]> (mw_bytes w);
     mw_dirs := mw_dirs w; mw_calls := mw_calls w |})).

Definition memory_remove (d : N) (n : bytes) : eff Errno MemoryWorld unit := call E_OTHER (λ w,
  match memory_entry w d n with
  | None => (Err E_NOENT, w)
  | Some _ => (Ok (), with_names (delete (d, n) (mw_names w)) w)
  end).

Global Instance memory_directories : Directories MemoryWorld := {|
  Dir := N;
  File := N;
  geteuid := 7;
  symlink_metadata d n := look E_OTHER (λ w, memory_metadata w <$> ok_or (memory_entry w d n) E_NOENT);
  dir_metadata d := look E_OTHER (λ w, Ok (memory_metadata w d));
  file_metadata f := look E_OTHER (λ w, Ok (memory_metadata w f));
  try_clone d := look E_OTHER (λ _, Ok d);
  open_dir_nofollow d n := look E_OTHER (λ w,
    i ← ok_or (memory_entry w d n) E_NOENT;
    if bool_decide (i ∈ mw_dirs w) then Ok i else Err E_NOTDIR);
  create_dir_with d n _ := memory_create d n true ≫= λ _, mret ();
  open_read d n := look E_OTHER (λ w, ok_or (memory_entry w d n) E_NOENT);
  open_create_new d n _ := memory_create d n false;
  read_to_end f k := look E_OTHER (λ w, Ok (take (N.to_nat (N.min k (len (memory_contents w f)))) (memory_contents w f)));
  write_all := memory_write;
  sync_all _ := look E_OTHER (λ _, Ok ());
  sync_directory _ := look E_OTHER (λ _, Ok ());
  rename := memory_rename true;
  renameat_noreplace := memory_rename false;
  remove_file := memory_remove;
  getrandom k := look () (λ w, Ok (be_bytes (N.to_nat k) (N.of_nat (mw_calls w))));
  open_root := look E_OTHER (λ _, Ok 0%N);
  current_dir := look E_OTHER (λ _, Ok (str "/"));
|}.

Global Instance memory_view : DirectoryView MemoryWorld := {|
  dir_ino := (id : @Dir _ memory_directories → N);
  file_ino := (id : @File _ memory_directories → N);
  entry := memory_entry;
  contents := memory_contents;
|}.

Definition memory_report (n : N) : ProtectionReport := {|
  prt_mapping := PT_Established;
  prt_memory_lock := PT_Established;
  prt_dump_exclusion := PT_Established;
  prt_fork_policy := Exclude;
  prt_fork_state := PT_Established;
  prt_guard_pages := PT_Established;
  prt_canary := PT_Established;
  prt_requested_bytes := n;
  prt_mapped_bytes := n;
  prt_locked_bytes := n;
  prt_page_granule := 1;
|}.

Global Instance memory_provider : MemoryProvider MemoryWorld := {|
  GuardedVec := bytes;
  guarded_bytes := id;
  protection_report v := memory_report (len v);
  try_from_capacity_with_protection n _ init := look FL_Protection (λ _,
    bs ← map_err (λ _, FL_Fill) init;
    if (len bs <=? n)%N then Ok bs else Err FL_Length);
  secret_enter _ := look () (λ _, Ok ());
  secret_leave _ := look () (λ _, Ok ());
  core_set_zero := look () (λ _, Ok ());
  core_read := look () (λ _, Ok (0%N, 0%N));
|}.

(** ** The laws *)

Lemma look_same {E A} (stopped : E) (f : MemoryWorld → result E A) w : same_files w (look stopped f w).2.
Proof. unfold look, call. by destruct (mw_calls w). Qed.

Lemma look_Ok {E A} (stopped : E) (f : MemoryWorld → result E A) w a w' :
  look stopped f w = (Ok a, w') → ∃ calls, f (with_calls calls w) = Ok a.
Proof. unfold look, call. destruct (mw_calls w) as [|n]; [done|]. intros [= Hf _]. by exists n. Qed.

Lemma look_Err {E A} (stopped : E) (f : MemoryWorld → result E A) w e w' :
  look stopped f w = (Err e, w') → e = stopped ∨ ∃ calls, f (with_calls calls w) = Err e.
Proof. unfold look, call. destruct (mw_calls w) as [|n]; [by intros [= <-]; left|]. intros [= Hf _]. right. by exists n. Qed.

Lemma next_ino_above w d n i : memory_entry w d n = Some i → (d < next_ino w)%N ∧ (i < next_ino w)%N.
Proof.
  unfold memory_entry, next_ino. intros Hi%elem_of_map_to_list. induction (map_to_list (mw_names w)) as [|[[d' n'] i'] l IH].
  - by apply elem_of_nil in Hi.
  - cbn. apply elem_of_cons in Hi as [[= <- <- <-]|Hi]; [lia|]. apply IH in Hi. lia.
Qed.

Lemma next_ino_fresh w : fresh_ino w (next_ino w).
Proof.
  split.
  - intros d n Hi%next_ino_above. lia.
  - intros n. destruct (memory_entry w (next_ino w) n) as [i|] eqn:Hi; [|done]. apply next_ino_above in Hi. lia.
Qed.

Lemma names_set names d n i (w : MemoryWorld) :
  names = <[(d, n) := i]> (mw_names w) → ∀ d' n', names !! (d', n') = if decide ((d', n') = (d, n)) then Some i else memory_entry w d' n'.
Proof. intros -> d' n'. case_decide as He; [rewrite -> He; by rewrite lookup_insert_eq|by rewrite lookup_insert_ne]. Qed.

Lemma memory_create_Ok d n k w i w' :
  memory_create d n k w = (Ok i, w') →
  memory_entry w d n = None ∧ fresh_ino w i ∧ entry_set w w' d n (Some i) ∧
  (∀ j, j ≠ i → memory_contents w' j = memory_contents w j) ∧
  memory_contents w' i = if k then memory_contents w i else [].
Proof.
  unfold memory_create, call. destruct (mw_calls w) as [|c]; [done|]. set (v := with_calls c w).
  change (memory_entry v d n) with (memory_entry w d n). destruct (memory_entry w d n) eqn:He; [done|].
  intros [= <- <-]. split_and!; [done|apply (next_ino_fresh w)|exact (names_set _ d n _ w eq_refl)| |].
  - intros j Hj. unfold memory_contents. cbn. destruct k; [done|]. by rewrite lookup_insert_ne.
  - unfold memory_contents. cbn. destruct k; [done|]. by rewrite lookup_insert_eq.
Qed.

Lemma memory_create_Err d n k w e w' : memory_create d n k w = (Err e, w') → same_files w w'.
Proof.
  unfold memory_create, call. destruct (mw_calls w) as [|c]; [by intros [= _ <-]|].
  case_match; intros [= _ <-]. done.
Qed.

Lemma memory_rename_Ok r d a b w w' :
  memory_rename r d a b w = (Ok (), w') →
  (renamed w w' d a b ∨ same_files w w' ∧ memory_entry w d b = memory_entry w d a) ∧
  (r = false → renamed w w' d a b ∧ memory_entry w d b = None).
Proof.
  unfold memory_rename, call. destruct (mw_calls w) as [|c]; [done|]. set (v := with_calls c w).
  change (memory_entry v d a) with (memory_entry w d a). change (memory_entry v d b) with (memory_entry w d b).
  destruct (memory_entry w d a) as [i|] eqn:He; [|done]. case_match eqn:Hr; [done|].
  change (memory_entry v d b) with (memory_entry w d b).
  destruct (bool_decide_reflect (memory_entry w d b = Some i)) as [Hsame|Hsame].
  { intros [= <-]. split; [by right|]. intros ->. apply bool_decide_eq_false in Hr. destruct Hr. by exists i. }
  intros [= <-]. match goal with |- (?P ∨ _) ∧ _ => assert P as Hren end.
  { split; [|by exists i|done]. intros d' n. cbn. unfold memory_entry at 1. cbn. case_decide as Hb.
    { rewrite -> Hb. by rewrite lookup_insert_eq. }
    rewrite lookup_insert_ne; [|congruence]. case_decide as Ha; [rewrite -> Ha; apply lookup_delete_eq|].
    rewrite lookup_delete_ne; [done|congruence]. }
  split; [by left|]. intros ->. apply bool_decide_eq_false in Hr. split; [done|]. by apply eq_None_not_Some.
Qed.

Lemma memory_rename_Err r d a b w e w' : memory_rename r d a b w = (Err e, w') → same_files w w'.
Proof.
  unfold memory_rename, call. destruct (mw_calls w) as [|c]; [by intros [= _ <-]|].
  repeat case_match; intros [= _ <-]; done.
Qed.

Lemma memory_write_entry f bs w d n : memory_entry (memory_write f bs w).2 d n = memory_entry w d n.
Proof. unfold memory_write, call. by destruct (mw_calls w). Qed.

Lemma memory_write_other f bs w i : i ≠ f → memory_contents (memory_write f bs w).2 i = memory_contents w i.
Proof.
  intros Hi. unfold memory_write, call. destruct (mw_calls w); [done|]. unfold memory_contents. cbn.
  by rewrite lookup_insert_ne.
Qed.

Lemma memory_write_Ok f bs w w' :
  memory_write f bs w = (Ok (), w') → memory_contents w f = [] → memory_contents w' f = bs.
Proof.
  unfold memory_write, call. destruct (mw_calls w) as [|c]; [done|]. intros [= <-].
  change (memory_contents (with_calls c w) f) with (memory_contents w f). intros ->. unfold memory_contents. cbn.
  by rewrite lookup_insert_eq.
Qed.

Lemma memory_remove_Ok d n w w' :
  memory_remove d n w = (Ok (), w') → entry_set w w' d n None ∧ ∀ i, memory_contents w' i = memory_contents w i.
Proof.
  unfold memory_remove, call. destruct (mw_calls w) as [|c]; [done|]. case_match; [|done]. intros [= <-].
  split; [|done]. intros d' n'. cbn. unfold memory_entry at 1. cbn.
  case_decide as He; [rewrite -> He; apply lookup_delete_eq|]. rewrite lookup_delete_ne; [done|congruence].
Qed.

Lemma memory_remove_Err d n w e w' : memory_remove d n w = (Err e, w') → same_files w w'.
Proof.
  unfold memory_remove, call. destruct (mw_calls w) as [|c]; [by intros [= _ <-]|]. case_match; [done|]. by intros [= _ <-].
Qed.

Lemma look_entry {A} d n (f : N → MemoryWorld → result Errno A) w :
  (∀ i v, f i v ≠ Err E_NOENT) →
  (∀ w', look E_OTHER (λ w, ok_or (memory_entry w d n) E_NOENT ≫= λ i, f i w) w = (Err E_NOENT, w') →
    memory_entry w d n = None).
Proof.
  intros Hf w' [He|[c He]]%look_Err; [done|]. change (memory_entry (with_calls c w) d n) with (memory_entry w d n) in He.
  destruct (memory_entry w d n) as [i|]; [|done]. by apply Hf in He.
Qed.

Lemma memory_read_Ok f k w bs w' :
  look E_OTHER (λ w, Ok (take (N.to_nat (N.min k (len (memory_contents w f)))) (memory_contents w f))) w = (Ok bs, w') →
  bs = take (N.to_nat k) (memory_contents w f).
Proof.
  intros [c Hc]%look_Ok. injection Hc as <-. change (memory_contents (with_calls c w) f) with (memory_contents w f).
  destruct (N.le_gt_cases k (len (memory_contents w f))) as [Hk|Hk]; [by rewrite -> N.min_l|].
  rewrite -> N.min_r by lia. unfold len in *. rewrite -> !take_ge; [done|lia|lia].
Qed.

Global Instance memory_directory_laws : DirectoryLaws MemoryWorld.
Proof.
  split; cbn [symlink_metadata dir_metadata file_metadata try_clone open_dir_nofollow create_dir_with open_read
    open_create_new read_to_end write_all sync_all sync_directory rename renameat_noreplace remove_file getrandom
    open_root current_dir memory_directories dir_ino file_ino entry contents memory_view id
    try_from_capacity_with_protection secret_enter secret_leave core_read memory_provider]; intros *;
    try solve [intros; apply look_same].
  - intros [He|[c He]]%look_Err; [done|]. change (memory_entry (with_calls c w) d n) with (memory_entry w d n) in He.
    by destruct (memory_entry w d n).
  - intros [c Hc]%look_Ok. by injection Hc as <-.
  - intros [c Hc]%look_Ok. apply bind_Ok in Hc as (i & Hi%ok_or_Ok & Hc). case_match; [|done]. injection Hc as <-. exact Hi.
  - apply look_entry. intros i v. by case_match.
  - intros _ w w' Hrun. apply eff_bind_Ok in Hrun as (i & w1 & Hc & Hrun). injection Hrun as <-.
    apply memory_create_Ok in Hc as (He & Hf & Hs & Ho & Hi). split_and!; [done| |by exists i].
    intros j. destruct (decide (j = i)) as [->|Hj]; [exact Hi|by apply Ho].
  - intros _ w e w'. unfold mbind, eff_bind. destruct (memory_create d n true w) as [[i|e1] w1] eqn:Hc; [done|].
    intros [= _ <-]. by eapply memory_create_Err.
  - intros [c Hc]%look_Ok. apply ok_or_Ok in Hc. exact Hc.
  - intros _ w f w' (He & Hf & Hs & Ho & Hi)%memory_create_Ok. by split_and!.
  - intros _ w e w'. apply memory_create_Err.
  - apply memory_read_Ok.
  - apply memory_write_entry.
  - apply memory_write_other.
  - apply memory_write_Ok.
  - by intros [Hr _]%memory_rename_Ok.
  - intros Hr%memory_rename_Err. by left.
  - intros [_ Hr]%memory_rename_Ok. by apply Hr.
  - intros Hr%memory_rename_Err. by left.
  - apply memory_remove_Ok.
  - intros Hr%memory_remove_Err. by left.
Qed.

Global Instance memory_provider_laws : MemoryProviderLaws MemoryWorld.
Proof.
  intros n rq init w v w' Hv. cbn in Hv. apply look_Ok in Hv as [c Hv]. apply bind_Ok in Hv as (bs & Hb%map_err_Ok & Hv).
  case_match eqn:Hl; [|done]. injection Hv as <-. apply N.leb_le in Hl. done.
Qed.
