(* ===== verification/PrivateFilesWitnesses.v ===== *)
(** * The theorems about files and the Git worktree, applied

    On the directories of [DirectorySamples]: a name, a marker that is cleaned up, a
    reference, and a worktree whose state is digested twice. *)

From stdpp Require Import gmap.
From S2P Require Import Prelude VaultTypes Canonical Effects Binding Identifiers ProtectedMemory Directory PrivateFiles PrivateFilesTheorems Repository RepositoryTheorems Samples DirectorySamples.
Local Open Scope jury_scope.

Definition memory_root (i : N) (path : bytes) : HardenedDir :=
  {| hd_dir := i : @Dir _ memory_directories; hd_absolute := path;
     hd_identity := {| fi_device := 1; fi_inode := i |}; hd_lineage := [] |}.

(** ** A marker beside another file *)

Definition marker_world : MemoryWorld := {|
  mw_names := list_to_map [((1%N, str "marker"), 10%N); ((1%N, str "other"), 11%N)];
  mw_bytes := list_to_map [(10%N, str "pending"); (11%N, str "kept")];
  mw_dirs := [1%N];
  mw_calls := 100;
|}.

Definition marker_run : result FilesystemError PrivateFileCleanupOutcome * MemoryWorld :=
  cleanup_private_file_if_exact (memory_root 1 (str "/state")) (str "marker") (str "marker.cleanup") (str "pending")
    marker_world.

Lemma cleanup_exact_witness :
  let '(r, w') := marker_run in
  r = Ok RemovedAndSynced ∧ entry w' 1 (str "marker") = None ∧ entry w' 1 (str "other") = Some 11%N ∧
  contents w' 11 = str "kept".
Proof.
  assert (marker_run.1 = Ok RemovedAndSynced) as Ho by (vm_compute; reflexivity).
  destruct marker_run as [r w'] eqn:Hrun. cbn in Ho. subst r.
  destruct (cleanup_exact (memory_root 1 (str "/state")) (str "marker") (str "marker.cleanup") (str "pending")
    marker_world (Ok RemovedAndSynced) w') as [Hkept (Hm & _)];
    [apply (bool_decide_unpack _); done|apply (bool_decide_unpack _); done|done|exact Hrun|].
  destruct (Hkept 1%N (str "other") 11%N) as [Hn Hc]; [done|done|].
  split_and!; [done|exact Hm|exact Hn|]. rewrite -> Hc. done.
Defined.

Lemma git_reference_confined_witness :
  ∃ names, components (str "refs/heads/main") = C_Normal (str "refs") :: (C_Normal <$> names) ∧ names ≠ [].
Proof.
  destruct (git_reference_confined (str "ref: refs/heads/main" ++ [line_feed]) FO_Preview (str "refs/heads/main"))
    as [(names & Hc & Hne & _) _]; [vm_compute; reflexivity|]. by exists names.
Defined.

(** ** A worktree, before and after its vault is written *)

Definition git_names : list ((N * bytes) * N) :=
  [((0%N, str "work"), 1%N); ((1%N, str ".git"), 2%N); ((1%N, str ".jury"), 3%N); ((2%N, str "HEAD"), 10%N);
   ((2%N, str "refs"), 4%N); ((4%N, str "heads"), 5%N); ((5%N, str "main"), 11%N); ((2%N, str "index"), 12%N)].

Definition git_world : MemoryWorld := {|
  mw_names := list_to_map git_names;
  mw_bytes := list_to_map [(10%N, str "ref: refs/heads/main" ++ [line_feed]); (11%N, encode_hex (fill_bytes 5 20) ++ [line_feed]);
    (12%N, str "DIRC")];
  mw_dirs := [0; 1; 2; 3; 4; 5]%N;
  mw_calls := 1000;
|}.

Definition written_world : MemoryWorld := with_names (<[(3%N, str "vault.json") := 20%N]> (mw_names git_world)) git_world.

Definition git_location : RepositoryLocation := {|
  rl_worktree := memory_root 1 (str "/work");
  rl_git_dir := memory_root 2 (str "/work/.git");
  rl_git_common_dir := memory_root 2 (str "/work/.git");
  rl_jury_dir_identity := Some {| fi_device := 1; fi_inode := 3 |};
|}.

Definition location_fields (l : RepositoryLocation) : list FileIdentity * option FileIdentity :=
  ([hd_identity (rl_worktree l); hd_identity (rl_git_dir l); hd_identity (rl_git_common_dir l)], rl_jury_dir_identity l).

(** The location is the one that is discovered from below. *)
Lemma git_location_discovered :
  location_fields <$> (discover (str "/work/.jury") git_world).1 = Ok (location_fields git_location).
Proof. vm_compute. reflexivity. Qed.

Definition git_digest : Digest32 := unwrap [] (repository_git_ancestry_digest git_location git_world).1.

Lemma ancestry_digest_binds_witness :
  (repository_git_ancestry_digest git_location git_world).1 = Ok git_digest ∧
  git_files git_location git_world = git_files git_location written_world ∧
  gf_references (git_files git_location git_world) =
    [(str "refs/heads/main", Some (encode_hex (fill_bytes 5 20) ++ [line_feed]))].
Proof.
  assert ((repository_git_ancestry_digest git_location git_world).1 = Ok git_digest) as Ho by (vm_compute; reflexivity).
  assert ((repository_git_ancestry_digest git_location written_world).1 = Ok git_digest) as Ho' by (vm_compute; reflexivity).
  destruct (repository_git_ancestry_digest git_location git_world) as [r w1] eqn:Hr.
  destruct (repository_git_ancestry_digest git_location written_world) as [r' w1'] eqn:Hr'.
  cbn in Ho, Ho'. subst r r'. split; [done|].
  split; [|vm_compute; reflexivity].
  apply (ancestry_digest_binds git_location git_world written_world git_digest w1 w1' Hr Hr').
  intros cs cs' Hcs Hcs'. assert (cs = cs') as ->; [|apply collision_free_pair].
  apply (Ok_inj (E := FilesystemError)). rewrite <- Hcs, <- Hcs'. vm_compute. reflexivity.
Defined.
