(* ===== verification/EngineSamples.v ===== *)
(** * A witness at work

    Concrete data for the witnesses of the engine's theorems: a store and an
    external anchor in memory whose calls fail on demand, before or after their
    effect, an identity that signs with its own key, and a request for the
    witnessed item of the sample vault, with its manifest and its approval. *)

From S2P Require Import Prelude VaultTypes Canonical Preimage WitnessPolicy PolicyState Identifiers Replay Text Effects WitnessMessages WitnessCodec WitnessValidation WitnessEngine WitnessEngineSpec WitnessEngineTheorems WitnessRecovery Samples.
Local Open Scope jury_scope.

(** ** The engine's parameters *)

Inductive fault := Works | Fails_before | Fails_after.

(** A value and what the next calls do. *)
Record faulty (T : Type) := { fy_value : T; fy_faults : list fault }.
Arguments fy_value {T}.
Arguments fy_faults {T}.

(** A call that returns [r] and leaves [v]. *)
Definition call {E T U} (unavailable : E) (f : T → result E U * T) : eff E (faulty T) U := λ s,
  let '(r, v) := f (fy_value s) in
  match fy_faults s with
  | [] => (r, {| fy_value := v; fy_faults := [] |})
  | Works :: rest => (r, {| fy_value := v; fy_faults := rest |})
  | Fails_before :: rest => (Err unavailable, {| fy_value := fy_value s; fy_faults := rest |})
  | Fails_after :: rest => (Err unavailable, {| fy_value := v; fy_faults := rest |})
  end.

Definition memory_commit (generation : N) (st old : PersistedWitnessState)
    : result WitnessStoreErrorKind unit * PersistedWitnessState :=
  if (ls_state_generation (pw_logical old) ==? generation) && is_none (pw_pending_anchor old) then (Ok tt, st)
  else (Err ST_Unavailable, old).

Definition memory_mark (digest : Digest32) (old : PersistedWitnessState)
    : result WitnessStoreErrorKind unit * PersistedWitnessState :=
  match pw_pending_anchor old with
  | Some a => if unwrap [] (WitnessStateAnchorV1_digest a) ==? digest then
                if is_ok (WitnessStateAnchorV1_digest a) then (Ok tt, promoted a old) else (Err ST_Unavailable, old)
              else (Err ST_Unavailable, old)
  | None => (Err ST_Unavailable, old)
  end.

Global Instance memory_store : WitnessStateStore (faulty PersistedWitnessState) := {|
  load := call ST_Unavailable (λ s, (Ok s, s));
  commit generation st := call ST_Unavailable (memory_commit generation st);
  mark_anchor_published digest := call ST_Unavailable (memory_mark digest);
|}.

Global Instance WP_error_eq_dec : EqDecision WitnessProtocolErrorKind.
Proof. solve_decision. Defined.

Global Instance proto_bytes_eq_dec : EqDecision (proto bytes).
Proof. solve_decision. Defined.

Definition memory_swap (expected : option WitnessStateAnchorV1) (candidate : WitnessStateAnchorV1)
    (old : option WitnessStateAnchorV1) : result WitnessAnchorErrorKind AnchorCompareAndSwap * option WitnessStateAnchorV1 :=
  if anchor_bytes old ==? anchor_bytes expected then (Ok Published, Some candidate) else (Ok Conflict, old).

Global Instance memory_anchor : ExternalWitnessAnchor (faulty (option WitnessStateAnchorV1)) := {|
  ensure_publishable candidate := call AN_Unavailable (λ a, (Ok tt, a));
  read := call AN_Unavailable (λ a, (Ok a, a));
  compare_and_swap expected candidate := call AN_Unavailable (memory_swap expected candidate);
|}.

Lemma call_keeps {E T U} (x : E) (f : T → result E U * T) s :
  (f (fy_value s)).2 = fy_value s → fy_value (call x f s).2 = fy_value s.
Proof. unfold call. destruct (f _) as [r v]. cbn. intros ->. by destruct (fy_faults s) as [|[]]. Qed.

(** Either nothing happened and an error or the call's own result came back, or
    the call had its effect. *)
Lemma call_result {E T U} (x : E) (f : T → result E U * T) s :
  fy_value (call x f s).2 = fy_value s ∧ (call x f s).1 = Err x ∨
  fy_value (call x f s).2 = (f (fy_value s)).2 ∧ ((call x f s).1 = Err x ∨ (call x f s).1 = (f (fy_value s)).1).
Proof. unfold call. destruct (f _) as [r v]. cbn. destruct (fy_faults s) as [|[]]; cbn; auto. Qed.

Lemma call_value {E T U} (x : E) (f : T → result E U * T) s u :
  (call x f s).1 = Ok u → (f (fy_value s)).1 = Ok u.
Proof. unfold call. destruct (f _) as [r v]. cbn. by destruct (fy_faults s) as [|[]]. Qed.

Lemma call_up {E T U} (x : E) (f : T → result E U * T) s :
  fy_faults s = [] → (call x f s).1 = (f (fy_value s)).1 ∧ fy_faults (call x f s).2 = [].
Proof. unfold call. intros ->. by destruct (f _). Qed.

Global Instance memory_store_laws : StoreLaws (faulty PersistedWitnessState).
Proof.
  refine {| stored := fy_value |}.
  - intros s. by apply call_keeps.
  - intros s st Hs. apply (call_value ST_Unavailable (λ s, (Ok s, s))) in Hs. by injection Hs.
  - intros g st s. destruct (call_result ST_Unavailable (memory_commit g st) s) as [[Hv Hr]|[Hv Hr]].
    { left. split; [done|]. cbn [commit memory_store]. by rw Hr. }
    destruct (memory_commit g st (fy_value s)) as [r v] eqn:Hm. cbn in Hv, Hr. unfold memory_commit in Hm.
    destruct (_ && _) eqn:Hc; injection Hm as <- <-.
    + right. to_prop. split_and!; [done|done|]. by destruct (pw_pending_anchor _).
    + left. split; [done|]. cbn [commit memory_store]. by destruct Hr as [->| ->].
  - intros d s. destruct (call_result ST_Unavailable (memory_mark d) s) as [[Hv Hr]|[Hv Hr]].
    { left. split; [done|]. cbn [mark_anchor_published memory_store]. by rw Hr. }
    destruct (memory_mark d (fy_value s)) as [r v] eqn:Hm. cbn in Hv, Hr. unfold memory_mark in Hm.
    destruct (pw_pending_anchor _) as [a|] eqn:Ha;
      [case_bool_decide as Hd; [destruct (WitnessStateAnchorV1_digest a) as [d'|] eqn:Hd'|]|]; injection Hm as <- <-;
      try (left; split; [done|]; cbn [mark_anchor_published memory_store]; by destruct Hr as [->| ->]).
    right. exists a. cbn in Hd. subst. done.
Defined.

Global Instance memory_anchor_laws : AnchorLaws (faulty (option WitnessStateAnchorV1)).
Proof.
  refine {| external := fy_value |}.
  - intros c a. by apply call_keeps.
  - intros a. by apply call_keeps.
  - intros a v Hv. apply (call_value AN_Unavailable (λ a, (Ok a, a))) in Hv. by injection Hv.
  - intros expected c a. destruct (call_result AN_Unavailable (memory_swap expected c) a) as [[Hv Hr]|[Hv Hr]].
    { left. split; [done|]. cbn [compare_and_swap memory_anchor]. by rw Hr. }
    destruct (memory_swap expected c (fy_value a)) as [r v] eqn:Hm. cbn in Hv, Hr. unfold memory_swap in Hm.
    case_bool_decide; injection Hm as <- <-; [by right|left].
    split; [done|]. cbn [compare_and_swap memory_anchor]. by destruct Hr as [->| ->].
Defined.

Global Instance memory_store_recovery : StoreRecovery (faulty PersistedWitnessState).
Proof.
  refine {| store_up s := fy_faults s = [] |}.
  - intros s Hs. by apply (call_up ST_Unavailable (λ s, (Ok s, s))).
  - intros d s a Hs Ha Hd. destruct (call_up ST_Unavailable (memory_mark d) s Hs) as [Hr Hf]. cbn [mark_anchor_published memory_store].
    rw Hr. split; [|done]. cbn in Ha. unfold memory_mark. rw Ha Hd. cbn. by rw bool_decide_true.
Defined.

Global Instance memory_anchor_recovery : AnchorRecovery (faulty (option WitnessStateAnchorV1)).
Proof.
  refine {| anchor_up a := fy_faults a = []; fits _ _ := True |}.
  - intros a Ha. by apply (call_up AN_Unavailable (λ a, (Ok a, a))).
  - done.
  - intros expected c a Ha _ _ He. destruct (call_up AN_Unavailable (memory_swap expected c) a Ha) as [Hr Hf].
    cbn [compare_and_swap memory_anchor]. rw Hr. split; [|done]. unfold memory_swap. by rw bool_decide_true.
Defined.

(** The identity of a principal; its contributions carry no real encryption. *)
Global Instance sample_identity : WitnessEngineIdentity PrincipalDescriptorV1 N := {|
  principal_id := pd_principal_id;
  public_descriptor d := Ok d;
  sign_witness_statement d m := Ok (sample_sign (pd_verification_public_key d) m);
  seal_witness_contribution d suite capsule target random :=
    (Ok {| ce_schema := 1; ce_response_id := ct_response_id target; ce_share_index := wc_share_index capsule;
           ce_share_commitment := wc_share_commitment capsule;
           ce_capsule_context_digest := wc_context_digest capsule;
           ce_capsule_set_digest := ct_capsule_set_digest target;
           ce_request_session_key_fingerprint := ct_session_fingerprint target;
           ce_encapsulation := fill_bytes 1 1120; ce_ciphertext := fill_bytes 2 49 |}, random);
|}.

Abbreviation sample_engine :=
  (Engine (faulty PersistedWitnessState) (faulty (option WitnessStateAnchorV1)) N).

Definition engine_of (st : PersistedWitnessState) (ext : option WitnessStateAnchorV1)
    (store_faults anchor_faults : list fault) : sample_engine := {|
  en_store := {| fy_value := st; fy_faults := store_faults |};
  en_anchor := {| fy_value := ext; fy_faults := anchor_faults |};
  en_random := 77%N |}.

Lemma state_of_engine st ext store_faults anchor_faults : state_of (engine_of st ext store_faults anchor_faults) = st.
Proof. reflexivity. Qed.

Lemma external_of_engine st ext store_faults anchor_faults :
  external_of (engine_of st ext store_faults anchor_faults) = ext.
Proof. reflexivity. Qed.

(** ** A request for the sample item *)

Definition sample_checkpoint : VaultPolicyCheckpointV1 :=
  let c signature := {|
    vc_schema := 1;
    vc_vault_id := vault;
    vc_genesis_fingerprint := ps_genesis_fingerprint state5;
    vc_vault_policy_sequence := ps_sequence state5;
    vc_vault_policy_hash := ps_terminal_revision_hash state5;
    vc_active_witness_policy_set_digest :=
      unwrap [] (witness_v1_active_policy_set_digest (unwrap [] (active_witness_policy_entries state5)).*1);
    vc_predecessor_checkpoint_digest := ZERO_DIGEST;
    vc_issued_at_ms := 1900;
    vc_issuer_owner_id := pd_principal_id owner;
    vc_issuer_key_fingerprint :=
      signing_key_fingerprint 1 (pd_principal_id owner) 1 (pd_verification_public_key owner);
    vc_issuer_key_epoch := 1;
    vc_signature := signature |} in
  c (sample_sign (pd_verification_public_key owner)
       (unwrap [] (VaultPolicyCheckpointV1_signature_preimage (c [])))).

Definition sample_target : ApprovalTargetV1 := {|
  at_entries := [{| te_item_id := item2; te_field_id := None; te_presentation_commitment := fill_bytes 6 32 |}];
  at_presentation_digest := fill_bytes 8 32 |}.

Definition sample_action : ActionManifestV1 := {|
  mf_schema := 1;
  mf_request_id := fill_bytes 50 32;
  mf_vault_id := vault;
  mf_genesis_fingerprint := ps_genesis_fingerprint state5;
  mf_item_id := item2;
  mf_key_epoch := 1;
  mf_item_access_mode := AM_WitnessedOnly;
  mf_slot_id := fill_bytes 81 32;
  mf_content_role := CR_Body;
  mf_revision := 1;
  mf_revision_seal_id := fill_bytes 81 32;
  mf_vault_policy_sequence := ps_sequence state5;
  mf_vault_policy_hash := ps_terminal_revision_hash state5;
  mf_witness_policy_id := wp_witness_policy_id sample_policy;
  mf_witness_policy_revision := 1;
  mf_witness_policy_digest := sample_policy_digest;
  mf_requester_principal_id := pd_principal_id owner;
  mf_requested_access_role := AR_Owner;
  mf_operation := OP_ReadStdout;
  mf_operation_context := CTX_ReadStdout;
  mf_approval_target := sample_target;
  mf_approval_target_digest := unwrap [] (ApprovalTargetV1_digest sample_target);
  mf_executable_identity := None;
  mf_arguments := [];
  mf_working_directory_commitment := None;
  mf_environment_injections := [];
  mf_stdin_target := None;
  mf_stdin_mode := SM_None;
  mf_output_sink := OS_Stdout;
  mf_output_sink_commitment := None;
  mf_platform_assurance := PLAT_NormalizedPathOnly;
  mf_timeout_ms := 500;
  mf_output_limit_bytes := 1024;
  mf_issued_at_ms := 2000;
  mf_not_before_ms := None;
  mf_expires_at_ms := 32000;
  mf_presentation_digest := fill_bytes 8 32 |}.

Definition sample_session : bytes := fill_bytes 90 1216.

(** A request signed by the owner that expires at a time, for an action. *)
Definition request_for (action : ActionManifestV1) : WitnessRequestV1 :=
  let key := pd_verification_public_key owner in
  let r signature := {|
    wr_schema := 1;
    wr_protocol_version := PROTOCOL_VERSION;
    wr_construction := CONSTRUCTION;
    wr_request_id := mf_request_id action;
    wr_client_nonce := fill_bytes 51 32;
    wr_vault_id := vault;
    wr_genesis_fingerprint := mf_genesis_fingerprint action;
    wr_item_id := item2;
    wr_key_epoch := 1;
    wr_item_access_mode := AM_WitnessedOnly;
    wr_slot_id := mf_slot_id action;
    wr_content_role := mf_content_role action;
    wr_revision := 1;
    wr_revision_seal_id := mf_revision_seal_id action;
    wr_vault_policy_sequence := mf_vault_policy_sequence action;
    wr_vault_policy_hash := mf_vault_policy_hash action;
    wr_policy_checkpoint_digest := unwrap [] (VaultPolicyCheckpointV1_digest sample_checkpoint);
    wr_witness_policy_id := mf_witness_policy_id action;
    wr_witness_policy_revision := 1;
    wr_witness_policy_digest := sample_policy_digest;
    wr_requester_principal_id := pd_principal_id owner;
    wr_requester_signing_key_fingerprint := signing_key_fingerprint 1 (pd_principal_id owner) 1 key;
    wr_requester_signing_key_epoch := 1;
    wr_requested_access_role := AR_Owner;
    wr_operation := mf_operation action;
    wr_approval_target_digest := mf_approval_target_digest action;
    wr_action_manifest_digest := unwrap [] (ActionManifestV1_digest action);
    wr_workload_digest := unwrap [] (workload_digest action);
    wr_issued_at_ms := mf_issued_at_ms action;
    wr_not_before_ms := None;
    wr_expires_at_ms := mf_expires_at_ms action;
    wr_request_session_public_key := sample_session;
    wr_request_session_key_fingerprint := recipient_public_key_fingerprint sample_session;
    wr_intended_witness_set := intended_witness_of <$> active_witness_descriptors sample_policy;
    wr_client_signature := signature |} in
  r (sample_sign key (unwrap [] (WitnessRequestV1_signature_preimage (r [])))).

Definition sample_request : WitnessRequestV1 := request_for sample_action.

Definition sample_approval : ApprovalDecisionV1 :=
  let a signature := {|
    ap_schema := 1;
    ap_approval_id := fill_bytes 52 32;
    ap_request_id := wr_request_id sample_request;
    ap_request_digest := unwrap [] (WitnessRequestV1_digest sample_request);
    ap_action_manifest_digest := wr_action_manifest_digest sample_request;
    ap_presentation_digest := mf_presentation_digest sample_action;
    ap_witness_policy_id := wr_witness_policy_id sample_request;
    ap_witness_policy_revision := 1;
    ap_witness_policy_digest := sample_policy_digest;
    ap_approver_id := pd_principal_id approver;
    ap_approver_key_fingerprint := ad_signing_key_fingerprint sample_approver;
    ap_approver_key_epoch := 1;
    ap_approval_mode := MODE_Human;
    ap_decision := AD_Approve;
    ap_reason := R_None;
    ap_issued_at_ms := 2100;
    ap_not_before_ms := None;
    ap_expires_at_ms := 30000;
    ap_nonce := fill_bytes 53 32;
    ap_intended_witness_set_digest := unwrap [] (request_witness_set_digest sample_request);
    ap_signature := signature |} in
  a (sample_sign (pd_verification_public_key approver)
       (unwrap [] (ApprovalDecisionV1_signature_preimage (a [])))).

(** ** A session *)

Definition op_register := Op_register state5 (str "registration") sample_checkpoint (str "material").
Definition op_reserve := Op_reserve state5 sample_request sample_action.
Definition op_decide := Op_decide state5 sample_request sample_action [sample_approval].

Definition engine0 : sample_engine := engine_of (PersistedWitnessState_empty (pd_principal_id witness1)) None [] [].
Definition step1 := exec witness1 1950 op_register engine0.
Definition step2 := exec witness1 2010 op_reserve step1.2.
Definition step3 := exec witness1 2200 op_decide step2.2.

(** A registration whose publication is cut off after the anchor took it. *)
Definition engine0_faulty : sample_engine :=
  engine_of (PersistedWitnessState_empty (pd_principal_id witness1)) None []
    [Works; Works; Works; Works; Fails_after].
Definition step1_faulty := exec witness1 1950 op_register engine0_faulty.

(** The decided request again, and the compaction of the table. *)
Definition step4 := exec witness1 2300 op_decide step3.2.
Definition step5 := exec witness1 90000000 Op_compact step4.2.

(** The first store beside the last anchor. *)
Definition restored : sample_engine := engine_of (state_of step1.2) (external_of step3.2) [] [].

Definition request_key : replay_key := (wr_vault_id sample_request, wr_request_id sample_request).

Definition open_request (l : WitnessLogicalState) : bool :=
  match ls_replay l !! request_key with Some e => is_none (re_response e) | None => false end.

Definition approved_reply (r : checked reply) : bool :=
  match r with
  | Ok (Reply_progress (Progress_Stable response)) => wdc_decision (resp_decision response) ==? WD_Approve
  | _ => false
  end.

Lemma engine_facts :
  is_ok step1.1 && is_ok step2.1 && approved_reply step3.1 && approved_reply step4.1 && is_ok step5.1 &&
  bool_decide (ls_replay (logical step1.2) = ∅) && open_request (logical step2.2) &&
  WitnessRequestV1_wt sample_request && (length (wr_client_signature sample_request) ==? 64) &&
  (ls_state_generation (logical step1.2) ==? 1%N) && (ls_state_generation (logical step3.2) ==? 3%N) &&
  bool_decide (ls_replay (logical step5.2) = ∅) &&
  negb (is_ok step1_faulty.1) && is_set (pw_pending_anchor (state_of step1_faulty.2)) &&
  bool_decide (fy_faults (en_store step1_faulty.2) = []) && bool_decide (fy_faults (en_anchor step1_faulty.2) = []) &&
  match pw_pending_anchor (state_of step1_faulty.2) with
  | Some c => is_ok (WitnessStateAnchorV1_digest c) | None => true end &&
  (ls_last_accepted_wall_time_ms (logical step1_faulty.2) ==? 1950%N) = true.
Proof. vm_cast_no_check (eq_refl true). Qed.

Lemma engine0_eq : engine0 = engine_of (PersistedWitnessState_empty (pd_principal_id witness1)) None [] [].
Proof. reflexivity. Qed.

Lemma engine0_faulty_eq : engine0_faulty =
  engine_of (PersistedWitnessState_empty (pd_principal_id witness1)) None [] [Works; Works; Works; Works; Fails_after].
Proof. reflexivity. Qed.

Lemma step1_eq : exec witness1 1950 op_register engine0 = step1.
Proof. unfold step1. reflexivity. Qed.

Lemma step1_faulty_eq : exec witness1 1950 op_register engine0_faulty = step1_faulty.
Proof. unfold step1_faulty. reflexivity. Qed.

Lemma step2_eq : exec witness1 2010 op_reserve step1.2 = step2.
Proof. unfold step2. reflexivity. Qed.

Lemma step3_eq : exec witness1 2200 op_decide step2.2 = step3.
Proof. unfold step3. reflexivity. Qed.

Lemma step4_eq : exec witness1 2300 op_decide step3.2 = step4.
Proof. unfold step4. reflexivity. Qed.

Lemma step5_eq : exec witness1 90000000 Op_compact step4.2 = step5.
Proof. unfold step5. reflexivity. Qed.

(** The session is used through these equations and [engine_facts]. *)
Global Opaque engine0 engine0_faulty step1 step1_faulty step2 step3 step4 step5 sample_request sample_action
  sample_approval sample_checkpoint witness1.

(** Proves one conjunct of [engine_facts]. *)
Ltac engine_fact :=
  pose proof engine_facts as F;
  repeat match type of F with
  | (?a && ?b) = true => apply andb_true_iff in F as [F ?]
  end;
  match goal with Hx : ?P |- ?Q => constr_eq P Q; exact Hx end.
