(* ===== verification/EngineWitnesses.v ===== *)
(** * The engine's theorems at work

    The theorems on the witness engine, applied to the session of
    [EngineSamples]. *)

From S2P Require Import Prelude VaultTypes Canonical Preimage WitnessPolicy PolicyState Identifiers Replay Text Effects WitnessMessages WitnessCodec WitnessValidation WitnessEngine WitnessEngineSpec WitnessEngineRefinement WitnessEngineTheorems WitnessQuorum WitnessRecovery Samples Witnesses EngineSamples.
Local Open Scope jury_scope.

Lemma request_is_typed : request_typed sample_request.
Proof.
  assert (WitnessRequestV1_wt sample_request = true) as Hw by engine_fact.
  assert ((length (wr_client_signature sample_request) ==? 64) = true) as Hl by engine_fact.
  split; [exact Hw|]. exact (bool_decide_eq_true_1 _ Hl).
Qed.

Lemma table0_ok : table_ok (logical engine0).
Proof. rewrite -> engine0_eq. intros key e He. cbn in He. by rewrite -> lookup_empty in He. Qed.

(** What the steps of the session leave, and what each reply recorded. *)
Lemma session_step identity now_ms op (e : sample_engine) (step : checked reply * sample_engine) :
  exec identity now_ms op e = step → table_ok (logical e) → operation_typed op →
  table_ok (logical step.2) ∧
  ∀ rp, step.1 = Ok rp → anchored identity (state_of step.2) (external_of step.2) ∧ reply_recorded op rp (logical step.2).
Proof.
  intros <- Hok Ht. destruct (exec_refines identity now_ms op e Hok Ht) as [Htr Hr].
  split; [by eapply transition_table_ok|exact Hr].
Qed.

Lemma table1_ok : table_ok (logical step1.2).
Proof. exact (proj1 (session_step _ _ _ _ _ step1_eq table0_ok Logic.I)). Qed.

Lemma table2_ok : table_ok (logical step2.2).
Proof. exact (proj1 (session_step _ _ _ _ _ step2_eq table1_ok request_is_typed)). Qed.

Lemma table3_ok : table_ok (logical step3.2).
Proof. exact (proj1 (session_step _ _ _ _ _ step3_eq table2_ok request_is_typed)). Qed.

Lemma approved_reply_ok r :
  approved_reply r = true →
  ∃ response, r = Ok (Reply_progress (Progress_Stable response)) ∧ wdc_decision (resp_decision response) = WD_Approve.
Proof. destruct r as [[| | | | |[| |response]]|]; try done. cbn. intros Hd. to_prop. eauto. Qed.

Lemma step3_reply : ∃ response, step3.1 = Ok (Reply_progress (Progress_Stable response)) ∧
  wdc_decision (resp_decision response) = WD_Approve.
Proof. apply approved_reply_ok. engine_fact. Qed.

Lemma step3_answers : ∃ response, answers (logical step3.2) sample_request response.
Proof.
  destruct step3_reply as (response & Hr & _). exists response.
  exact (proj2 (proj2 (session_step _ _ _ _ _ step3_eq table2_ok request_is_typed) _ Hr)).
Qed.

Lemma step4_answers : ∃ response, answers (logical step4.2) sample_request response.
Proof.
  assert (approved_reply step4.1 = true) as (response & Hr & _)%approved_reply_ok by engine_fact. exists response.
  exact (proj2 (proj2 (session_step _ _ _ _ _ step4_eq table3_ok request_is_typed) _ Hr)).
Qed.

Lemma step_anchored {identity now_ms op} {e : sample_engine} {step : checked reply * sample_engine} :
  exec identity now_ms op e = step → table_ok (logical e) → operation_typed op → is_ok step.1 = true →
  anchored identity (state_of step.2) (external_of step.2).
Proof.
  intros Hs Hok Ht Hr. destruct (session_step _ _ _ _ _ Hs Hok Ht) as [_ Ha].
  destruct step.1 as [rp|]; [|done]. by apply (Ha rp).
Qed.

Lemma run_one identity now_ms op (e : sample_engine) (step : checked reply * sample_engine) :
  exec identity now_ms op e = step → operation_typed op → run (λ i, i = identity) e step.2.
Proof.
  intros Hs Ht. apply (run_step _ identity now_ms op e step.1 step.2); [done|done|by destruct step|]. apply run_refl.
Qed.

Lemma run_1_3 : run (λ i, i = witness1) step1.2 step3.2.
Proof.
  apply (run_step _ witness1 2010 op_reserve step1.2 step2.1 step2.2); [done|apply request_is_typed| |].
  - rewrite -> step2_eq. by destruct step2.
  - apply (run_one witness1 2200 op_decide); [apply step3_eq|apply request_is_typed].
Qed.

Lemma restored_state : state_of restored = state_of step1.2.
Proof. exact (state_of_engine (state_of step1.2) (external_of step3.2) [] []). Qed.

Lemma restored_external : external_of restored = external_of step3.2.
Proof. exact (external_of_engine (state_of step1.2) (external_of step3.2) [] []). Qed.

(** ** Witnesses *)

Lemma engine_refines_witness :
  transition 2010 (logical step1.2) (logical step2.2) ∧ anchored witness1 (state_of step2.2) (external_of step2.2).
Proof.
  assert (exec witness1 2010 op_reserve step1.2 = (step2.1, step2.2)) as Hx by (rewrite -> step2_eq; by destruct step2).
  destruct (engine_refines witness1 2010 op_reserve step1.2 step2.2 step2.1 table1_ok request_is_typed Hx) as (Ht & _ & Hr).
  assert (is_ok step2.1 = true) as Hok by engine_fact. split; [exact Ht|].
  destruct step2.1 as [rp|]; [|discriminate]. exact (proj1 (Hr rp eq_refl)).
Defined.

Lemma one_response_witness :
  ∃ response response', answers (logical step3.2) sample_request response ∧
    answers (logical step4.2) sample_request response' ∧ response' = response.
Proof.
  destruct step3_answers as [response Ha]. destruct step4_answers as [response' Ha'].
  exists response, response'. split; [exact Ha|]. split; [exact Ha'|].
  exact (one_response (λ i, i = witness1) step3.2 step4.2 sample_request response response' table3_ok request_is_typed Ha
    (run_one _ _ _ _ _ step4_eq request_is_typed) Ha').
Defined.

Lemma rollback_refused_witness :
  is_ok (exec witness2 2400 op_reserve restored).1 = false ∧
  state_of (exec witness2 2400 op_reserve restored).2 = state_of step1.2.
Proof.
  assert (is_ok step1.1 = true) as H1 by engine_fact.
  assert (is_ok step3.1 = true) as H3 by (destruct step3_reply as (? & -> & _); reflexivity).
  assert ((ls_state_generation (logical step1.2) ==? 1%N) = true) as G1 by engine_fact.
  assert ((ls_state_generation (logical step3.2) ==? 3%N) = true) as G3 by engine_fact.
  apply bool_decide_eq_true_1 in G1, G3.
  assert (ls_state_generation (logical step1.2) ≠ ls_state_generation (logical step3.2)) as Hne
    by (rewrite -> G1, G3; discriminate).
  assert (ls_state_generation (logical step3.2) < 2 ^ 64)%N as Hlt by (rewrite -> G3; reflexivity).
  destruct (exec witness2 2400 op_reserve restored) as [r e'] eqn:Hx.
  destruct (rollback_refused (λ i, i = witness1) witness1 witness2 2400 op_reserve step1.2 step3.2 restored e' r
    (step_anchored step1_eq table0_ok Logic.I H1) table1_ok run_1_3
    (step_anchored step3_eq table2_ok request_is_typed H3) Hne Hlt restored_state restored_external Hx) as (He & Hs & _).
  exact (conj He Hs).
Defined.

Lemma step3_decided : ∃ response e',
  decide_request witness1 2200 state5 sample_request sample_action [sample_approval] step2.2 =
    (Ok (Progress_Stable response), e') ∧ wdc_decision (resp_decision response) = WD_Approve.
Proof.
  destruct step3_reply as (response & Hr & Hd). pose proof step3_eq as Hx. unfold op_decide in Hx. cbn [exec] in Hx.
  destruct step3 as [r e3]. cbn in Hr. subst r. apply eff_bind_Ok in Hx as (p & e' & Hx & Hp).
  injection Hp as -> _. exists response, e'. exact (conj Hx Hd).
Qed.

Lemma step2_open response : ¬ answers (logical step2.2) sample_request response.
Proof.
  intros (e & He & _ & Hr). assert (open_request (logical step2.2) = true) as Ho by engine_fact.
  unfold open_request, request_key in Ho. rewrite -> He, Hr in Ho. discriminate.
Qed.

Lemma approval_quorum_witness :
  ∃ known validated approvers, ls_replay (logical step2.2) !! request_key = Some known ∧ NoDup approvers ∧
    (war_approval_threshold (vr_rule validated) ≤ len approvers)%N ∧
    Forall (approves 2200 sample_request sample_action validated (re_approvals known ++ [sample_approval])) approvers.
Proof.
  destruct step3_decided as (response & e' & Hx & Hd).
  destruct (approval_quorum witness1 (cp_journal sample5) [sample_policy; sample_policy2] state5 2200 sample_request
    sample_action [sample_approval] step2.2 e' response sample_replay_with_policies table2_ok step2_open Hx Hd)
    as (st & known & validated & approvers & _ & _ & Hk & _ & _ & Hnd & Hth & Happ).
  exists known, validated, approvers. split; [exact Hk|]. split; [exact Hnd|]. split; [exact Hth|].
  apply Forall_forall. intros id Hid. exact (proj2 (Happ id Hid)).
Defined.

Lemma witness1_signs : signs (R := N) witness1.
Proof. intros d m signature [= <-] [= <-]. cbn. by rewrite -> bool_decide_true. Qed.

Lemma step1_faulty_up : up step1_faulty.2.
Proof.
  assert (bool_decide (fy_faults (en_store step1_faulty.2) = []) = true) as Hs by engine_fact.
  assert (bool_decide (fy_faults (en_anchor step1_faulty.2) = []) = true) as Ha by engine_fact.
  exact (conj (bool_decide_eq_true_1 _ Hs) (bool_decide_eq_true_1 _ Ha)).
Qed.

Lemma step1_faulty_digestible : digestible (state_of step1_faulty.2).
Proof.
  assert (match pw_pending_anchor (state_of step1_faulty.2) with
          | Some c => is_ok (WitnessStateAnchorV1_digest c) | None => true end = true) as Hd by engine_fact.
  intros c Hc. rewrite -> Hc in Hd. exact Hd.
Qed.

Lemma step1_faulty_clock : (ls_last_accepted_wall_time_ms (logical step1_faulty.2) ≤ skewed 1960)%N.
Proof.
  assert ((ls_last_accepted_wall_time_ms (logical step1_faulty.2) ==? 1950%N) = true) as Hc by engine_fact.
  apply bool_decide_eq_true_1 in Hc. rewrite -> Hc. by vm_compute.
Qed.

Lemma witness_recovers_witness :
  is_ok step1_faulty.1 = false ∧ is_set (pw_pending_anchor (state_of step1_faulty.2)) = true ∧
  ∃ e', check_ready witness1 1960 step1_faulty.2 = (Ok tt, e') ∧ logical e' = logical step1_faulty.2 ∧
        anchored witness1 (state_of e') (external_of e').
Proof.
  assert (negb (is_ok step1_faulty.1) = true) as Hf by engine_fact.
  split; [by apply negb_true_iff in Hf|]. split; [engine_fact|].
  refine (witness_recovers witness1 1960 engine0_faulty step1_faulty.2 witness1_signs _ _ _ step1_faulty_up
    (λ _ _, Logic.I) step1_faulty_digestible step1_faulty_clock).
  - rewrite -> engine0_faulty_eq. apply state_of_engine.
  - rewrite -> engine0_faulty_eq. apply external_of_engine.
  - apply (run_one witness1 1950 op_register); [apply step1_faulty_eq|exact Logic.I].
Defined.
