(* ===== verification/StorageWitnesses.v ===== *)
(** * A database, a network and a codec in memory

    Concrete parameters for the theorems on the store and the anchor: an SQLite
    whose calls fail on demand, a network that loses and delays requests, and a
    codec that knows a table of values. The registration of the sample session
    runs over all of them, and the theorems are applied to its states. *)

From S2P Require Import Prelude VaultTypes Canonical Preimage Text Json Effects WitnessPolicy PolicyState Identifiers Replay WitnessMessages WitnessCodec WitnessValidation WitnessEngine WitnessEngineSpec WitnessEngineTheorems WitnessStorage WitnessAnchor Samples EngineSamples.
Local Open Scope jury_scope.

(** ** SQLite *)

(** Contents, clock, and what the next calls do; a transaction also keeps what it started from. *)
Record memory_sql := { ms_base : Database; ms_db : Database; ms_now : N; ms_faults : list fault }.

Definition ms_next (s : memory_sql) : fault * list fault :=
  match ms_faults s with [] => (Works, []) | f :: rest => (f, rest) end.

Definition ms_set (db : Database) (s : memory_sql) : memory_sql :=
  {| ms_base := ms_base s; ms_db := db; ms_now := ms_now s; ms_faults := (ms_next s).2 |}.

Global Instance memory_handle : SqlHandle memory_sql Database := {
  sql_query U f := λ s,
    (match (ms_next s).1 with Works => Ok (f (ms_db s)) | _ => Err tt end, ms_set (ms_db s) s);
  sql_busy_timeout _ := λ s, (Ok tt, s);
  instant_now s := (ms_now s, {| ms_base := ms_base s; ms_db := ms_db s; ms_now := ms_now s + 1; ms_faults := ms_faults s |});
}.

(** A transaction is the connection with its own contents. *)
Global Instance memory_sqlite : Sqlite memory_sql memory_sql Database := {
  sql_begin s :=
    let s' := {| ms_base := ms_db s; ms_db := ms_db s; ms_now := ms_now s; ms_faults := (ms_next s).2 |} in
    match (ms_next s).1 with Works => Ok s' | _ => Err s' end;
  sql_execute U f := λ s,
    match (ms_next s).1 with
    | Works => (Ok (f (ms_db s)).2, ms_set (f (ms_db s)).1 s)
    | _ => (Err tt, ms_set (ms_db s) s)
    end;
  sql_commit s :=
    match (ms_next s).1 with
    | Works => (Ok tt, ms_set (ms_db s) s)
    | Fails_before => (Err tt, ms_set (ms_base s) s)
    | Fails_after => (Err tt, ms_set (ms_db s) s)
    end;
  sql_rollback s := ms_set (ms_base s) s;
}.

Lemma memory_handle_laws (base : memory_sql → Database) :
  (base = ms_db ∨ base = ms_base) → HandleLaws memory_sql Database ms_db base.
Proof.
  intros Hb. split.
  - intros U f h. by destruct Hb as [->| ->].
  - intros U f h u. cbn. by destruct (ms_next h).1; [intros [= <-]| |].
  - done.
  - intros h. by destruct Hb as [->| ->].
Qed.

Global Instance memory_sqlite_laws : SqliteLaws memory_sql memory_sql Database.
Proof.
  refine {| committed := ms_db; visible := ms_db; beneath := ms_base |}.
  - apply memory_handle_laws. by left.
  - apply memory_handle_laws. by right.
  - intros c x. cbn. by destruct (ms_next c).1; [intros [= <-]| |].
  - intros c c'. cbn. by destruct (ms_next c).1; [|intros [= <-]..].
  - intros U f x. cbn. by destruct (ms_next x).1.
  - intros U f x u. cbn. by destruct (ms_next x).1; [intros [= <-]| |].
  - intros x. cbn. destruct (ms_next x).1; [by right|by left|by right].
  - intros x. cbn. by destruct (ms_next x).1.
  - done.
Defined.

(** ** Codecs *)

(** The position of a value in a table, in unary. *)
Definition table_pieces {V} `{!EqDecision V} (table : list V) (v : V) : list bytes * bool :=
  match list_find (λ x, x = v) table with
  | Some (i, _) => ([replicate i Byte.x00], true)
  | None => ([], false)
  end.

Lemma table_roundtrip {V} `{!EqDecision V} (table : list V) v :
  (table_pieces table v).2 = true → table !! length (concat (table_pieces table v).1) = Some v.
Proof.
  unfold table_pieces. destruct (list_find _ table) as [[i x]|] eqn:Hf; [|done]. intros _.
  apply list_find_Some in Hf as (Hi & -> & _). cbn. by rw app_nil_r length_replicate.
Qed.

Definition table_json {V} `{!EqDecision V} (table : list V) : Json V := {|
  json_pieces := table_pieces table;
  json_parse bs := table !! length bs;
  json_roundtrip := table_roundtrip table;
|}.

Global Instance RegisteredWitnessVault_eq_dec : EqDecision RegisteredWitnessVault.
Proof. solve_decision. Defined.
Global Instance Snapshot_eq_dec : EqDecision (Snapshot unit).
Proof. solve_decision. Defined.
Global Instance AnchorCasRequest_eq_dec : EqDecision AnchorCasRequest.
Proof. solve_decision. Defined.
Global Instance AnchorCasOutcome_eq_dec : EqDecision AnchorCasOutcome.
Proof. solve_decision. Defined.
Global Instance AnchorCasResponse_eq_dec : EqDecision AnchorCasResponse.
Proof. solve_decision. Defined.

(** The states of a session without requests. *)
Definition table_to_json (table : list (Snapshot unit)) (s : Snapshot (result unit (list WitnessReplayEntry)))
    : list bytes * bool :=
  match sn_replay s with Ok [] => table_pieces table (with_records tt s) | _ => ([], false) end.

Program Definition table_state_json (table : list (Snapshot unit)) : StateJson := {|
  to_json := table_to_json table;
  from_json bs := with_records [] <$> table !! length bs;
|}.
Next Obligation.
  intros table s. unfold table_to_json. by destruct (sn_replay s) as [[]|].
Qed.
Next Obligation.
  intros table s records. unfold table_to_json. destruct (sn_replay s) as [[|]|] eqn:Hs; try done.
  intros Ht [= <-]. rewrite -> (table_roundtrip _ _ Ht). by destruct s.
Qed.

(** ** The registration of the sample session *)

Definition session_state (st : PersistedWitnessState) : Snapshot unit := snapshot_of tt st.

Definition new_state : PersistedWitnessState := PersistedWitnessState_empty (pd_principal_id witness1).

(** The anchor of the first generation. *)
Definition first_anchor : WitnessStateAnchorV1 :=
  match external_of step1.2 with
  | Some a => a
  | None => {| sa_schema := 1; sa_witness_id := []; sa_witness_signing_key_fingerprint := [];
               sa_witness_signing_key_epoch := 0; sa_state_generation := 0; sa_database_state_digest := [];
               sa_vault_high_watermarks := []; sa_replay_retain_through_ms := 0; sa_last_accepted_wall_time_ms := 0;
               sa_predecessor_anchor_digest := []; sa_issued_at_ms := 0; sa_signature := [] |}
  end.

Global Instance session_state_json : StateJson :=
  table_state_json (session_state <$> [new_state; state_of step1_faulty.2; state_of step1.2]).
Global Instance session_anchor_json : Json WitnessStateAnchorV1 := table_json [first_anchor].
Global Instance session_request_json : Json AnchorCasRequest := table_json
  [{| cq_expected_anchor_digest := None; cq_next_exact_anchor := first_anchor |};
   {| cq_expected_anchor_digest := Some ZERO_DIGEST; cq_next_exact_anchor := first_anchor |}].
Global Instance session_response_json : Json AnchorCasResponse := table_json
  [{| cr_outcome := OutcomeApplied; cr_exact_anchor := Some first_anchor |}].

(** ** The network *)

(** What becomes of a request: it is answered, answered before those under way run, run
    without an answer, lost, or run with a later call. *)
Inductive delivery := Answered | Overtakes | Answer_lost | Lost | Delayed.

(** A network that delays requests, or loses what it would have delayed. *)
Record network (delays : bool) := {
  nt_service : AnchorApiState memory_sql;
  nt_now : N;
  nt_deliveries : list delivery;
  nt_delayed : list anchor_request;
}.

Arguments nt_service {delays}.
Arguments nt_now {delays}.
Arguments nt_deliveries {delays}.
Arguments nt_delayed {delays}.

Definition nt_pending {delays} (w : network delays) : list anchor_request := if delays then nt_delayed w else [].

Definition nt_next {delays} (w : network delays) : delivery := default Answered (head (nt_deliveries w)).

Definition nt_after {delays} (w : network delays) (state : AnchorApiState memory_sql)
    (delayed : list anchor_request) : network delays := {|
  nt_service := state; nt_now := nt_now w; nt_deliveries := tail (nt_deliveries w); nt_delayed := delayed |}.

Definition nt_answer (response : Response) : HttpAnswer := {|
  ha_status := rs_status response; ha_content_length := Some (len (rs_body response)); ha_body := Ok (rs_body response) |}.

Definition nt_call {delays} (request : anchor_request) : eff unit (network delays) HttpAnswer := λ w,
  let deadline := (nt_now w + 1000000000)%N in
  let arrive := serve_all ((λ r, (r, deadline)) <$> nt_pending w) in
  let state := arrive (nt_service w) in
  let ran := serve request deadline state in
  match nt_next w with
  | Answered => (Ok (nt_answer ran.1), nt_after w ran.2 [])
  | Overtakes =>
      let first := serve request deadline (nt_service w) in (Ok (nt_answer first.1), nt_after w (arrive first.2) [])
  | Answer_lost => (Err tt, nt_after w ran.2 [])
  | Lost => (Err tt, nt_after w state [])
  | Delayed => (Err tt, nt_after w state [request])
  end.

Global Instance memory_http delays : HttpClient (network delays) := {
  http_now w := (nt_now w, {| nt_service := nt_service w; nt_now := nt_now w + 1; nt_deliveries := nt_deliveries w;
                              nt_delayed := nt_delayed w |});
  http_get segment _ := nt_call (GetAnchor segment);
  http_post segment _ payload := nt_call (SwapAnchor segment payload);
}.

Lemma late_serve_all pending requests deadline (state : AnchorApiState memory_sql) :
  requests ⊆ pending → late pending state (serve_all ((λ r, (r, deadline)) <$> requests) state).
Proof.
  revert state. induction requests as [|r requests IH]; intros state Hsub; [constructor|].
  eapply (late_run _ r deadline); [apply Hsub, list_elem_of_here|]. apply IH. set_solver.
Qed.

Lemma served_answer request deadline (state : AnchorApiState memory_sql) :
  served (serve request) state (Ok (nt_answer (serve request deadline state).1)) (serve request deadline state).2.
Proof. right. exists deadline. split; [done|]. intros answer [= <-]. split; [done|]. by intros body [= <-]. Qed.

Lemma nt_call_exchanged {delays} request (w : network delays) :
  exchanged request (nt_pending w) (nt_service w) (nt_call request w).1
    (nt_pending (nt_call request w).2) (nt_service (nt_call request w).2).
Proof.
  set (deadline := (nt_now w + 1000000000)%N).
  assert (∀ state, late (request :: nt_pending w) state (serve_all ((λ r, (r, deadline)) <$> nt_pending w) state)) as Hl.
  { intros state. apply late_serve_all. set_solver. }
  assert (∀ state, nt_pending (nt_after w state []) ⊆ request :: nt_pending w) as Hn.
  { intros state. unfold nt_pending. destruct delays; set_solver. }
  unfold nt_call. destruct (nt_next w); cbn [fst snd nt_service nt_after]; (split; [try by apply Hn|]).
  - eexists _, _. split_and!; [apply Hl|apply served_answer|constructor].
  - eexists _, _. split_and!; [constructor|apply served_answer|apply Hl].
  - eexists _, _. split_and!; [apply Hl|right; by exists deadline|constructor].
  - eexists _, _. split_and!; [apply Hl|by left|constructor].
  - unfold nt_pending. destruct delays; set_solver.
  - eexists _, _. split_and!; [apply Hl|by left|constructor].
Qed.

Global Instance memory_http_laws delays : HttpLaws memory_sql memory_sql (network delays).
Proof.
  refine {| service := nt_service; outstanding := nt_pending |}.
  - intros w. split; [done|constructor].
  - intros. apply nt_call_exchanged.
  - intros. apply nt_call_exchanged.
Defined.

Global Instance memory_http_prompt : PromptNetwork memory_sql memory_sql (network false).
Proof. by split. Qed.

(** ** The witness with its database and its anchor service *)

Definition sql_with (row : option (Z * bytes)) (faults : list fault) : memory_sql :=
  let db := {| db_witness_state := row; db_anchors := ∅ |} in
  {| ms_base := db; ms_db := db; ms_now := 0; ms_faults := faults |}.

Definition anchor_service (faults : list fault) : AnchorApiState memory_sql := {|
  as_repository := {| rp_connection := sql_with None faults; rp_witness_id := pd_principal_id witness1 |};
  as_witness_id := pd_principal_id witness1 |}.

Definition deployed_store (faults : list fault) : SqliteWitnessStore memory_sql := {|
  sw_connection := sql_with (Some (0%Z, [])) faults;
  sw_witness_id := pd_principal_id witness1;
  sw_deadline := Some 1000000000%N |}.

Definition deployed_anchor (delays : bool) (deliveries : list delivery) : HttpExternalAnchor (network delays) := {|
  hx_client := {| nt_service := anchor_service []; nt_now := 0; nt_deliveries := deliveries; nt_delayed := [] |};
  hx_witness_id := pd_principal_id witness1;
  hx_request_timeout := 5000000000;
  hx_operation_deadline := Some 1000000000%N |}.

Abbreviation deployed_engine := (Engine (SqliteWitnessStore memory_sql) (HttpExternalAnchor (network false)) N).

Definition deployed0 (deliveries : list delivery) : deployed_engine := {|
  en_store := deployed_store []; en_anchor := deployed_anchor false deliveries; en_random := 77%N |}.

Definition deployed1 := exec witness1 1950 op_register (deployed0 []).
Definition deployed1_lost := exec witness1 1950 op_register (deployed0 [Answered; Answered; Answered; Answered; Answer_lost]).

Definition holds_session (st : PersistedWitnessState) (st' : PersistedWitnessState) : bool :=
  bool_decide (session_state st = session_state st') && bool_decide (ls_replay (pw_logical st) = ∅).

Definition anchor_is (a b : option WitnessStateAnchorV1) : bool := bool_decide (a = b).

(** Registered; and registered with the last answer of the service lost. *)
Lemma deployed_facts :
  is_ok deployed1.1 && holds_session (sqlite_stored (en_store deployed1.2)) (state_of step1.2) &&
  anchor_is (http_external (en_anchor deployed1.2)) (Some first_anchor) && negb (is_ok deployed1_lost.1) &&
  holds_session (sqlite_stored (en_store deployed1_lost.2)) (state_of step1_faulty.2) &&
  anchor_is (http_external (en_anchor deployed1_lost.2)) (Some first_anchor) = true.
Proof. vm_cast_no_check (eq_refl true). Qed.

(** ** The theorems, applied *)

(** The state a registration commits, with its pending anchor. *)
Definition pending_state : PersistedWitnessState := state_of step1_faulty.2.

(** The request of a swap is delayed; two reads follow, and it arrives during the first,
    after the service has answered that. *)
Definition late_swap := compare_and_swap None first_anchor (deployed_anchor true [Delayed; Overtakes]).
Definition first_read := read late_swap.2.
Definition second_read := read first_read.2.

Definition reads (r : result WitnessAnchorErrorKind (option WitnessStateAnchorV1)) (a : option WitnessStateAnchorV1) : bool :=
  match r with Ok v => bool_decide (v = a) | Err _ => false end.

(** The client's request, and then a candidate that does not follow. *)
Definition swap_requests : list (anchor_request * N) :=
  let segment := hex_id (pd_principal_id witness1) in
  [(GetAnchor segment, 1000%N); (SwapAnchor segment [], 1000%N); (SwapAnchor segment [Byte.x00], 1000%N)].

Definition served_requests : AnchorApiState memory_sql := serve_all swap_requests (anchor_service []).

Definition sample_digest : Digest32 := unwrap [] (WitnessStateAnchorV1_digest first_anchor).

Lemma storage_facts :
  is_ok (encode_persisted_state pending_state) &&
  is_ok (commit 0 pending_state (deployed_store [])).1 &&
  negb (is_ok late_swap.1) && anchor_is (http_external late_swap.2) None && reads first_read.1 None &&
  anchor_is (http_external first_read.2) (Some first_anchor) && reads second_read.1 (Some first_anchor) &&
  bool_decide (nt_pending (hx_client first_read.2) = []) &&
  anchor_is (current_anchor (anchor_service [])) None && anchor_is (current_anchor served_requests) (Some first_anchor) = true.
Proof. vm_cast_no_check (eq_refl true). Qed.

Global Opaque pending_state first_anchor late_swap first_read second_read served_requests deployed_store deployed_anchor anchor_service sample_digest.

Ltac storage_fact :=
  pose proof storage_facts as F;
  repeat match type of F with
  | (?a && ?b) = true => apply andb_true_iff in F as [F ?]
  end;
  match goal with Hx : ?P |- ?Q => constr_eq P Q; exact Hx end.

Lemma is_ok_Ok {E A} (r : result E A) : is_ok r = true → ∃ a, r = Ok a.
Proof. destruct r as [a|]; [by exists a|done]. Qed.

Lemma anchor_is_eq a b : anchor_is a b = true → a = b.
Proof. apply bool_decide_eq_true. Qed.

Lemma reads_eq r a : reads r a = true → r = Ok a.
Proof. destruct r as [v|]; [|done]. by intros ->%bool_decide_eq_true. Qed.

Lemma stored_state_roundtrip_witness :
  ∃ bs, encode_persisted_state pending_state = Ok bs ∧ decode_persisted_state bs = Ok pending_state.
Proof.
  assert (is_ok (encode_persisted_state pending_state) = true) as Hf by storage_fact.
  destruct (is_ok_Ok _ Hf) as [bs Hbs]. exists bs. split; [exact Hbs|].
  exact (proj1 (stored_state_roundtrip pending_state bs Hbs)).
Defined.

(** A commit that succeeds has replaced the state. *)
Lemma sqlite_store_refines_witness :
  is_ok (commit 0 pending_state (deployed_store [])).1 = true ∧
  sqlite_stored (commit 0 pending_state (deployed_store [])).2 = pending_state.
Proof.
  assert (is_ok (commit 0 pending_state (deployed_store [])).1 = true) as Hf by storage_fact. split; [exact Hf|].
  destruct (sqlite_store_refines 0 pending_state sample_digest (deployed_store [])) as (_ & Hc & _). unfold wp in Hc.
  destruct Hc as [[_ Hr]|[Hc _]]; [|exact Hc]. destruct (is_ok_Ok _ Hf) as [[] Hok]. destruct (Hr Hok).
Defined.

(** The client sees an error and then no anchor, while its request arrives; the next read
    answers the anchor, and nothing is left that could replace it. *)
Lemma http_anchor_refines_witness :
  is_ok late_swap.1 = false ∧ http_external late_swap.2 = None ∧ first_read.1 = Ok None ∧
  http_external first_read.2 = Some first_anchor ∧ second_read.1 = Ok (Some first_anchor) ∧
  http_external second_read.2 = Some first_anchor.
Proof.
  assert (negb (is_ok late_swap.1) = true) as H1%negb_true_iff by storage_fact.
  assert (anchor_is (http_external late_swap.2) None = true) as H2%anchor_is_eq by storage_fact.
  assert (reads first_read.1 None = true) as H3%reads_eq by storage_fact.
  assert (anchor_is (http_external first_read.2) (Some first_anchor) = true) as H4%anchor_is_eq by storage_fact.
  assert (reads second_read.1 (Some first_anchor) = true) as H5%reads_eq by storage_fact.
  assert (bool_decide (nt_pending (hx_client first_read.2) = []) = true) as H6%bool_decide_eq_true by storage_fact.
  split; [exact H1|]. split; [exact H2|]. split; [exact H3|]. split; [exact H4|]. split; [exact H5|].
  destruct (http_anchor_refines None first_anchor first_read.2) as (_ & (m & _ & _ & _ & Hq) & _).
  rewrite <- H4. apply Hq. intros c (request & Hr & _). change (request ∈ nt_pending (hx_client first_read.2)) in Hr.
  rewrite -> H6 in Hr. by apply elem_of_nil in Hr.
Defined.

(** The first anchor is taken once; the later requests leave it. *)
Lemma anchor_service_chain_witness :
  current_anchor served_requests = Some first_anchor ∧ anchor_chain None (Some first_anchor).
Proof.
  assert (anchor_is (current_anchor (anchor_service [])) None = true) as H0 by storage_fact.
  assert (anchor_is (current_anchor served_requests) (Some first_anchor) = true) as H1 by storage_fact.
  apply anchor_is_eq in H0, H1. split; [exact H1|]. rewrite <- H0, <- H1.
  exact (proj1 (anchor_service_chain swap_requests (anchor_service []))).
Defined.
