(* ===== verification/LocalSamples.v ===== *)
(** * A principal's local state, evaluated

    Concrete parameters for the theorems on the local state: a keyed hash, and a
    codec that knows a table of values. The owner of the sample vault records an
    event, accepts the vault with an item, records a transfer and restarts. *)

From S2P Require Import Prelude Json VaultTypes Canonical Preimage Binding PolicyState Identifiers Replay Effects LocalAudit LocalAuditLog LocalCheckpoint LocalReceipts LocalState LocalStateFiles LocalStateTheorems Samples.
Local Open Scope jury_scope.

Global Instance sample_hmac : Hmac := {|
  MacKey := bytes;
  hmac_sha256 key m := Ok (sample_hash (key ++ m));
  hmac_length key m t := ltac:(intros [= <-]; exact (sha256_length (key ++ m)));
|}.

(** ** Codecs *)

(** The position of a value in a table, as so many digits; the parser skips
    newlines. *)
Definition line_pieces {V} `{!EqDecision V} (table : list V) (v : V) : list bytes * bool :=
  match list_find (λ x, x = v) table with
  | Some (i, _) => ([replicate (S i) Byte.x31], true)
  | None => ([], false)
  end.

Definition line_parse {V} (table : list V) (bs : bytes) : option V :=
  table !! pred (length (filter (λ b, b ≠ newline) bs)).

Lemma filter_digits n : filter (λ b, b ≠ newline) (replicate n Byte.x31) = replicate n Byte.x31.
Proof. induction n as [|n IH]; [done|]. cbn [replicate]. rw filter_cons_True; [by f_equal|done]. Qed.

Lemma line_roundtrip {V} `{!EqDecision V} (table : list V) v tl :
  (line_pieces table v).2 = true → Forall (λ b, b = newline) tl →
  line_parse table (concat (line_pieces table v).1 ++ tl) = Some v.
Proof.
  unfold line_pieces, line_parse. destruct (list_find _ table) as [[i x]|] eqn:Hf; [|done]. intros _ Htl.
  apply list_find_Some in Hf as (Hi & -> & _). cbn [concat fst]. rw app_nil_r filter_app filter_digits.
  assert (filter (λ b, b ≠ newline) tl = []) as ->.
  { induction Htl as [|b tl -> _ IH]; [done|]. rw filter_cons_False; [done|by intros []]. }
  by rw app_nil_r length_replicate.
Qed.

Lemma line_roundtrip_nil {V} `{!EqDecision V} (table : list V) v :
  (line_pieces table v).2 = true → line_parse table (concat (line_pieces table v).1) = Some v.
Proof. intros Hv. pose proof (line_roundtrip table v [] Hv) as Hr. rw app_nil_r in Hr. by apply Hr. Qed.

Definition line_json {V} `{!EqDecision V} (table : list V) : Json V := {|
  json_pieces := line_pieces table;
  json_parse := line_parse table;
  json_roundtrip := line_roundtrip_nil table;
|}.

Lemma line_text {V} `{!EqDecision V} (table : list V) v bs :
  @to_vec V (line_json table) v = Some bs → ∃ i, i < length table ∧ bs = replicate (S i) Byte.x31.
Proof.
  unfold to_vec. cbn [json_pieces line_json]. unfold line_pieces.
  destruct (list_find _ table) as [[i x]|] eqn:Hf; [|done]. intros [= <-].
  apply list_find_Some in Hf as (Hi & _). exists i. split; [by eapply lookup_lt_Some|by rw app_nil_r].
Qed.

Lemma line_json_line {V} `{!EqDecision V} (table : list V) : @JsonLine V (line_json table).
Proof.
  split; intros v bs (i & _ & ->)%line_text; [|done].
  intros Hin%elem_of_replicate. by destruct Hin.
Qed.

Program Definition line_json_pretty {V} `{!EqDecision V} (table : list V) : @JsonPretty V (line_json table) :=
  @Build_JsonPretty V (line_json table) (@to_vec V (line_json table)) _.
Next Obligation.
  intros V ? table v bs. unfold to_vec. cbn [json_pieces json_parse line_json].
  destruct (line_pieces table v).2 eqn:Hv; [|done]. intros [= <-]. by apply line_roundtrip; [|constructor].
Qed.

(** ** The vault with an item *)

Definition local_revision : SignedItemRevisionV1 :=
  let r signature := {|
    ir_vault_id := vault;
    ir_item_id := item1;
    ir_item_revision := 1;
    ir_previous_item_revision_hash := ZERO_DIGEST;
    ir_key_epoch := 1;
    ir_policy_sequence := 1;
    ir_author_principal_id := pd_principal_id owner;
    ir_timestamp_ms := 1001;
    ir_revision_seal_id := fill_bytes 32 32;
    ir_nonce := fill_bytes 32 12;
    ir_ciphertext_length := 4112;
    ir_ciphertext_digest := sample_hash (fill_bytes 5 4112);
    ir_plaintext_schema := 1;
    ir_bucket_id := 1;
    ir_signature := signature |} in
  r (sample_sign (pd_verification_public_key owner) (SignedItemRevisionV1_signature_preimage (r []))).

Definition local_envelope : ItemEnvelopeV1 := {|
  ie_item_id := item1;
  ie_descriptor := sample_metadata 31 1 1;
  ie_descriptor_ciphertext := fill_bytes 31 272;
  ie_prior_revisions := [];
  ie_current_revision := local_revision;
  ie_body_ciphertext := fill_bytes 5 4112;
|}.

Definition local_create_item : list PolicyOperationV1 :=
  [ItemCreate item1 IK_Canonical 1 (sample_metadata 31 1 1)
     (unwrap [] (SignedItemRevisionV1_recomputed_hash local_revision))
     [sample_slot vault item1 41 1 1 CR_Descriptor owner AR_Owner 31;
      sample_slot vault item1 43 1 1 CR_Body owner AR_Owner 32] None].

Definition local_created : CreatedPolicy := extend sample_created 1001 local_create_item.

Definition no_candidate : CheckpointCandidate :=
  {| cc_vault_id := []; cc_genesis_fingerprint := []; cc_principals := ∅; cc_policy_history := ∅ |}.

Definition candidate0 : CheckpointCandidate :=
  unwrap no_candidate (CheckpointCandidate_from_validated (cp_state sample_created) journal0 []).

Definition candidate1 : CheckpointCandidate :=
  unwrap no_candidate (CheckpointCandidate_from_validated (cp_state local_created)
    (cp_journal local_created) [local_envelope]).

(** ** The session *)

Definition local_owner : PrincipalLocalState := {|
  pl_scope := {| sc_vault_id := vault;
    sc_genesis_fingerprint := ps_genesis_fingerprint (cp_state sample_created);
    sc_principal_id := pd_principal_id owner |};
  pl_audit_key := str "audit";
  pl_checkpoint_key := str "checkpoint";
  pl_receipts_key := str "receipts";
|}.

Definition no_local_state : VerifiedLocalState := {|
  vs_audit := [];
  vs_checkpoint := {| ck_version := 0; ck_scope := pl_scope local_owner;
    ck_accepted_public_revision_hash := []; ck_latest_audit_mac := []; ck_audit_genesis_digest := [];
    ck_updated_at_ms := 0; ck_mac := [] |};
  vs_receipts := LocalReceipts_empty (pl_scope local_owner);
  vs_audit_events_after_checkpoint := 0;
|}.

Definition local0 : VerifiedLocalState := unwrap no_local_state (local_initialize local_owner candidate0 2000).

Definition local_draft : AuditEventDraft := {|
  dr_timestamp_ms := 2001;
  dr_operation_id := fill_bytes 7 32;
  dr_policy_sequence := 0;
  dr_action := ItemRead;
  dr_outcome := Success;
  dr_item := Some {| ai_item_id := item1; ai_permitted_item_name := Some (str "mail") |};
  dr_witness := None;
|}.

Definition local_event : AuditEvent :=
  let e := draft_event (vs_audit local0) local_draft (pl_scope local_owner) 2 in
  with_mac e (unwrap [] (event_mac e (pl_audit_key local_owner))).

Definition event_table : list AuditEvent := vs_audit local0 ++ [local_event].

Global Instance sample_event_json : Json AuditEvent := line_json event_table.
Global Instance sample_event_line : JsonLine AuditEvent := line_json_line event_table.

Definition local1 : VerifiedLocalState := (append_event local_owner local_draft local0).2.
Definition local2 : VerifiedLocalState := (accept_candidate local_owner candidate1 2002 local1).2.

Definition local_receipt : ReceiptUpdate := RU_Transfer {|
  tr_transfer_id := fill_bytes 8 32;
  tr_captured_public_revision_hash := ck_accepted_public_revision_hash (vs_checkpoint local2);
  tr_timestamp_ms := 2003;
  tr_output_digest := fill_bytes 9 32 |}.

Definition local3 : VerifiedLocalState := (record_receipt local_owner local_receipt local2).2.

Global Instance TransferReceipt_eq_dec : EqDecision TransferReceipt.
Proof. solve_decision. Defined.
Global Instance BackupReceiptCoverage_eq_dec : EqDecision BackupReceiptCoverage.
Proof. solve_decision. Defined.
Global Instance BackupReceipt_eq_dec : EqDecision BackupReceipt.
Proof. solve_decision. Defined.
Global Instance BackupVerificationReceipt_eq_dec : EqDecision BackupVerificationReceipt.
Proof. solve_decision. Defined.
Global Instance RestoreDrillReceipt_eq_dec : EqDecision RestoreDrillReceipt.
Proof. solve_decision. Defined.
Global Instance LocalReceipts_eq_dec : EqDecision LocalReceipts.
Proof. solve_decision. Defined.
Global Instance LocalCheckpoint_eq_dec : EqDecision LocalCheckpoint.
Proof. solve_decision. Defined.

Global Instance sample_checkpoint_json : Json LocalCheckpoint := line_json [vs_checkpoint local3].
Global Instance sample_checkpoint_pretty : JsonPretty LocalCheckpoint := line_json_pretty [vs_checkpoint local3].
Global Instance sample_receipts_json : Json LocalReceipts := line_json [vs_receipts local3].
Global Instance sample_receipts_pretty : JsonPretty LocalReceipts := line_json_pretty [vs_receipts local3].

Definition local_files : LocalStateFiles :=
  unwrap {| lf_audit := []; lf_checkpoint := []; lf_receipts := [] |} (local_serialize local_owner local3).

Definition local4 : VerifiedLocalState :=
  unwrap no_local_state (verify_files local_owner (Some (lf_audit local_files))
    (Some (lf_checkpoint local_files)) (Some (lf_receipts local_files))).

Definition journal1 : PolicyJournalV1 := cp_journal local_created.

Definition sample_trace : list (VerifiedLocalState * PolicyJournalV1) :=
  [(local0, journal0); (local1, journal0); (local2, journal1); (local3, journal1); (local4, journal1)].

(** No two distinct strings of the list have the same MAC. *)
Definition mac_collision_freeb (key : bytes) (ps : list bytes) : bool :=
  forallb (λ p, forallb (λ q, negb (sample_hash (key ++ p) ==? sample_hash (key ++ q)) || (p ==? q)) ps) ps.

Lemma mac_collision_freeb_ok key ps : mac_collision_freeb key ps = true → mac_collision_free key ps.
Proof.
  unfold mac_collision_freeb. rw forallb_eq_true Forall_forall. intros Hall p q t Hp Hq Ht Ht'.
  apply Hall, forallb_eq_true in Hp. rw Forall_forall in Hp. apply Hp in Hq.
  apply Ok_inj in Ht, Ht'. cbn beta in Hq. rw Ht Ht' bool_decide_true // in Hq. cbn in Hq. by to_prop.
Qed.

Definition same_text (a b : bytes) : bool := a ==? b.

Lemma same_text_ok a b : same_text a b = true → a = b.
Proof. apply bool_decide_eq_true_1. Qed.

(** Everything the witnesses need, in one evaluation. *)
Lemma local_facts :
  is_ok (CheckpointCandidate_from_validated (cp_state sample_created) journal0 []) &&
  is_ok (CheckpointCandidate_from_validated (cp_state local_created) journal1 [local_envelope]) &&
  is_ok (local_initialize local_owner candidate0 2000) &&
  is_ok (append_event local_owner local_draft local0).1 &&
  is_ok (accept_candidate local_owner candidate1 2002 local1).1 &&
  is_ok (record_receipt local_owner local_receipt local2).1 &&
  is_ok (local_serialize local_owner local3) &&
  is_ok (verify_files local_owner (Some (lf_audit local_files)) (Some (lf_checkpoint local_files))
    (Some (lf_receipts local_files))) &&
  is_ok (LocalCheckpoint_to_bytes (vs_checkpoint local3)) &&
  same_text (unwrap [] (LocalCheckpoint_to_bytes (vs_checkpoint local3))) (lf_checkpoint local_files) &&
  LocalStateScope_wt (pl_scope local_owner) &&
  (length event_table ==? 2) &&
  forallb (λ x, PolicyJournalV1_wt x.2) sample_trace && collision_freeb (trace_preimages sample_trace) &&
  forallb AuditEvent_wt (trace_logs sample_trace) &&
  mac_collision_freeb (pl_audit_key local_owner) (log_preimages (trace_logs sample_trace)) &&
  collision_freeb (link_preimages (trace_logs sample_trace)) &&
  is_ok (validate_candidate_scope candidate0 (pl_scope local_owner)) &&
  (length (pj_revisions journal1) ==? 1) &&
  PolicyJournalV1_wt journal1 && PolicyJournalV1_wt journal0 &&
  collision_freeb (journal_preimages journal1 ++ journal_preimages journal0) = true.
Proof. vm_cast_no_check (eq_refl true). Qed.

(** Proves one conjunct of [local_facts]. *)
Ltac local_fact :=
  pose proof local_facts as F;
  repeat match type of F with
  | (?a && ?b) = true => apply andb_true_iff in F as [F ?]
  end;
  match goal with Hx : ?P |- ?Q => constr_eq P Q; exact Hx end.

(** A run that ends well, with its final state. *)
Lemma run_ok {E W A} (m : result E A * W) : is_ok m.1 = true → ∃ a, m = (Ok a, m.2).
Proof. destruct m as [[a|e] w]; [by exists a|done]. Qed.

Lemma candidate0_ok :
  CheckpointCandidate_from_validated (cp_state sample_created) journal0 [] = Ok candidate0.
Proof. refine (unwrap_ok _ _ _). local_fact. Qed.

Lemma candidate1_ok :
  CheckpointCandidate_from_validated (cp_state local_created) journal1 [local_envelope] = Ok candidate1.
Proof. refine (unwrap_ok _ _ _). local_fact. Qed.

Lemma local0_ok : local_initialize local_owner candidate0 2000 = Ok local0.
Proof. refine (unwrap_ok _ _ _). local_fact. Qed.

Lemma local1_ok : ∃ u, append_event local_owner local_draft local0 = (Ok u, local1).
Proof. refine (run_ok _ _). local_fact. Qed.

Lemma local2_ok : ∃ rel, accept_candidate local_owner candidate1 2002 local1 = (Ok rel, local2).
Proof. refine (run_ok _ _). local_fact. Qed.

Lemma local3_ok : ∃ u, record_receipt local_owner local_receipt local2 = (Ok u, local3).
Proof. refine (run_ok _ _). local_fact. Qed.

Lemma local_files_ok : local_serialize local_owner local3 = Ok local_files.
Proof. refine (unwrap_ok _ _ _). local_fact. Qed.

Lemma local4_ok :
  verify_files local_owner (Some (lf_audit local_files)) (Some (lf_checkpoint local_files))
    (Some (lf_receipts local_files)) = Ok local4.
Proof. refine (unwrap_ok _ _ _). local_fact. Qed.

(** The samples are used through the facts, never unfolded. *)
Global Opaque local0 local1 local2 local3 local4 candidate0 candidate1 journal1 local_files event_table
  local_owner.

Lemma event_table_length : length event_table = 2.
Proof. refine (bool_decide_eq_true_1 _ _). local_fact. Qed.

Global Instance sample_event_size : EventJson.
Proof.
  intros e text (i & Hi & ->)%line_text _ _ _. rw event_table_length in Hi.
  unfold MAX_AUDIT_EVENT_BYTES, len. rw length_replicate. lia.
Qed.

Lemma local3_text : LocalCheckpoint_to_bytes (vs_checkpoint local3) = Ok (lf_checkpoint local_files).
Proof.
  refine (eq_trans (unwrap_ok [] _ _) (f_equal Ok (same_text_ok _ _ _))); local_fact.
Qed.

Lemma sample_trace3 :
  local_trace local_owner [(local0, journal0); (local1, journal0); (local2, journal1); (local3, journal1)].
Proof.
  destruct local1_ok as [u Hu], local2_ok as [rel Hr], local3_ok as [v Hv].
  apply (lt_step _ [(local0, journal0); (local1, journal0)] (local2, journal1)); [|exact (ls_receipt _ _ _ _ _ _ Hv)].
  apply (lt_step _ [(local0, journal0)] (local1, journal0));
    [|exact (ls_candidate _ _ _ _ _ _ _ _ _ _ candidate1_ok Hr)].
  apply (lt_step _ [] (local0, journal0)); [|exact (ls_event _ _ _ _ _ _ Hu)].
  exact (lt_start _ _ _ _ _ _ _ candidate0_ok local0_ok).
Qed.

Lemma sample_trace_ok : local_trace local_owner sample_trace.
Proof.
  apply (lt_step _ [(local0, journal0); (local1, journal0); (local2, journal1)] (local3, journal1));
    [apply sample_trace3|].
  exact (ls_restart _ _ _ _ _ _ _ local3_text local4_ok).
Qed.

Lemma local_scope_wt : LocalStateScope_wt (pl_scope local_owner) = true.
Proof. local_fact. Qed.

Lemma journal1_length : length (pj_revisions journal1) = 1.
Proof. refine (bool_decide_eq_true_1 _ _). local_fact. Qed.

(** The vault cannot be taken back to the one without the item. *)
Lemma journal0_behind : ¬ extends journal1 journal0.
Proof.
  intros Hl%extends_length. rewrite -> journal1_length, journal0_empty in Hl. cbn in Hl. lia.
Qed.
