(* ===== verification/LocalWitnesses.v ===== *)
(** * The properties of the local state, applied

    Each property with hypotheses, on the session of [LocalSamples]. *)

From S2P Require Import Prelude Json VaultTypes Canonical Preimage Binding PolicyState Identifiers Replay Effects LocalAudit LocalAuditLog LocalCheckpoint LocalReceipts LocalState LocalStateFiles LocalStateTheorems Samples LocalSamples.

Lemma local_checkpoint_grows_witness :
  local_trace local_owner sample_trace ∧ extends journal0 journal1 ∧
  journal_linked journal1 (ck_accepted_public_revision_hash (vs_checkpoint local4)).
Proof.
  split; [apply sample_trace_ok|].
  apply (local_checkpoint_grows local_owner sample_trace 0 4 (local0, journal0) (local4, journal1));
    [apply sample_trace_ok|apply local_scope_wt|local_fact|apply collision_freeb_ok; local_fact|done|done|lia].
Defined.

Lemma audit_history_kept_witness :
  local_trace local_owner sample_trace ∧ checkpointed local1 `prefix_of` vs_audit local4.
Proof.
  split; [apply sample_trace_ok|].
  apply (audit_history_kept local_owner sample_trace 1 4 (local1, journal0) (local4, journal1));
    [apply sample_trace_ok|apply local_scope_wt|local_fact|apply mac_collision_freeb_ok; local_fact|
     apply collision_freeb_ok; local_fact|done|done|lia].
Defined.

Lemma rollback_diverges_witness :
  CheckpointCandidate_from_validated (cp_state sample_created) journal0 [] = Ok candidate0 ∧
  accept_candidate local_owner candidate0 3000 local3 = (Err LS_CheckpointDiverged, local3).
Proof.
  split; [apply candidate0_ok|].
  apply (rollback_diverges local_owner [(local0, journal0); (local1, journal0); (local2, journal1)]
    local3 journal1 (cp_state sample_created) journal0 [] candidate0 3000);
    [apply sample_trace3|apply local_scope_wt|apply candidate0_ok|apply is_ok_unit; local_fact|
     apply journal0_behind|local_fact|local_fact|apply collision_freeb_ok; local_fact].
Defined.

Lemma local_state_reopens_witness :
  local_serialize local_owner local3 = Ok local_files ∧
  ∃ st, verify_files local_owner (Some (lf_audit local_files)) (Some (lf_checkpoint local_files))
    (Some (lf_receipts local_files)) = Ok st ∧
    vs_audit st = vs_audit local3 ∧ vs_checkpoint st = vs_checkpoint local3 ∧ vs_receipts st = vs_receipts local3.
Proof.
  split; [apply local_files_ok|].
  apply (local_state_reopens local_owner sample_trace (local3, journal1) local_files);
    [apply sample_trace_ok|apply local_scope_wt|by do 3 right; left|apply local_files_ok].
Defined.
