(* ===== verification/WitnessReceiptWitnesses.v ===== *)
(** * A receipt

    Both witnesses of the sample policy decide on the request of [EngineSamples];
    the owner assembles their decisions and the approval into a receipt, and the
    theorems about receipts are applied to it. *)

From S2P Require Import Prelude VaultTypes Canonical Preimage Text Json Effects WitnessPolicy PolicyState Identifiers Replay CatalogTheorems WitnessMessages WitnessCodec WitnessValidation WitnessReceipt WitnessEngine WitnessEngineSpec WitnessEngineTheorems WitnessReceiptTheorems WitnessReceiptAssembly WitnessRecovery ArtifactRelation Samples Witnesses EngineSamples LocalSamples.
Local Open Scope jury_scope.

Global Instance ReceiptPolicyMaterialV1_eq_dec : EqDecision ReceiptPolicyMaterialV1.
Proof. solve_decision. Defined.

Definition sample_material : ReceiptPolicyMaterialV1 := {|
  pm_schema := 1; pm_journal := cp_journal sample5; pm_witness_policies := [sample_policy; sample_policy2] |}.

Global Instance sample_material_json : Json ReceiptPolicyMaterialV1 := line_json [sample_material].
Global Instance sample_material_line : JsonLine ReceiptPolicyMaterialV1 := line_json_line [sample_material].

(** ** The decisions *)

(** The session of [EngineSamples], at the other witness. *)
Definition other_engine : sample_engine := engine_of (PersistedWitnessState_empty (pd_principal_id witness2)) None [] [].
Definition other_reply : checked reply :=
  (exec witness2 2210 op_decide (exec witness2 2020 op_reserve (exec witness2 1960 op_register other_engine).2).2).1.

Definition no_response : WitnessResponseV1 := {|
  resp_decision := {|
    wdc_schema := 0; wdc_response_id := []; wdc_request_id := []; wdc_request_digest := [];
    wdc_action_manifest_digest := []; wdc_witness_id := []; wdc_witness_signing_key_fingerprint := [];
    wdc_witness_signing_key_epoch := 0; wdc_witness_policy_id := []; wdc_witness_policy_revision := 0;
    wdc_witness_policy_digest := []; wdc_policy_checkpoint_digest := []; wdc_state_generation := 0;
    wdc_decision := WD_Error; wdc_reason := R_Invalid; wdc_issued_at_ms := 0; wdc_expires_at_ms := 0;
    wdc_contribution_digest := None; wdc_share_index := None; wdc_share_commitment := None; wdc_signature := [] |};
  resp_contribution := None |}.

Definition response_of (r : checked reply) : WitnessResponseV1 :=
  match r with Ok (Reply_progress (Progress_Stable response)) => response | _ => no_response end.

Definition sample_responses : list WitnessResponseV1 := [response_of other_reply; response_of step3.1].

Definition sample_evidence : WitnessReceiptEvidence := {|
  ev_receipt_id := fill_bytes 60 32;
  ev_presentation_digest := mf_presentation_digest sample_action;
  ev_policy_material := unwrap [] (material_encode sample_material);
  ev_approval_decisions := [sample_approval];
  ev_witness_decisions := resp_decision <$> sample_responses;
  ev_reason := R_None;
  ev_issued_at_ms := 2400;
|}.

Definition no_validated : ValidatedRequestPolicy :=
  {| vrp_rule := {| war_policy_id := []; war_policy_revision := 0; war_policy_digest := []; war_operation := WO_ReadStdout;
       war_eligible_approver_ids := []; war_approval_threshold := 0; war_witness_ids := []; war_witness_threshold := 0;
       war_allowed_request_lifetime_ms := 0; war_max_timeout_ms := 0; war_max_output_bytes := 0; war_max_target_count := 0;
       war_required_platform_assurance := PA_NormalizedPathOnly; war_automatic_read_targets := [];
       war_carries_quorum_claim := false |};
     vrp_policy := sample_policy; vrp_slot := sample_witnessed_slot CR_Body 81 |}.

Definition sample_validated : ValidatedRequestPolicy :=
  unwrap no_validated (validate_public_request state5 sample_checkpoint sample_request sample_action).

Definition no_receipt : WitnessReceiptV1 :=
  receipt_of sample_request sample_checkpoint sample_evidence (vrp_rule no_validated) [] [] [] [] [] [] RO_Denied.

Definition sample_receipt : WitnessReceiptV1 :=
  unwrap no_receipt (assemble_witness_receipt state5 sample_request sample_checkpoint sample_evidence).

(** What the verification of the receipt reports. *)
Definition reported {A} (f : VerifiedWitnessReceipt → A) : option A :=
  if verify_witness_receipt sample_receipt None is Ok v then Some (f v) else None.

(** Everything the witnesses need, in one evaluation. *)
Lemma receipt_facts :
  is_ok (validate_public_request state5 sample_checkpoint sample_request sample_action) &&
  is_ok (material_encode sample_material) &&
  VaultPolicyCheckpointV1_sized sample_checkpoint &&
  (fixed 32 (ev_presentation_digest sample_evidence)) &&
  forallb (λ a, ApprovalDecisionV1_sized a &&
    is_ok (validate_approval_decision state5 sample_checkpoint sample_request sample_action a 2200))
    (ev_approval_decisions sample_evidence) &&
  forallb (λ response, WitnessDecisionV1_sized (resp_decision response) &&
    is_ok (validate_witness_response state5 sample_checkpoint sample_request sample_action response)) sample_responses &&
  bool_decide (NoDup (wdc_witness_id <$> ev_witness_decisions sample_evidence)) &&
  quorum_approved (vrp_rule sample_validated) (counted_approvers_of (ev_approval_decisions sample_evidence))
    (counted_witnesses_of (ev_witness_decisions sample_evidence)) &&
  (wr_issued_at_ms sample_request <=? 2400)%N && (2400 <? wr_expires_at_ms sample_request)%N &&
  (reported vrc_outcome ==? Some RO_Approved) &&
  (reported (λ v, length (vrc_counted_witness_ids v)) ==? Some 2) = true.
Proof. vm_cast_no_check (eq_refl true). Qed.

(** Proves one conjunct of [receipt_facts]. *)
Ltac receipt_fact :=
  pose proof receipt_facts as F;
  repeat match type of F with
  | (?a && ?b) = true => apply andb_true_iff in F as [F ?]
  end;
  match goal with Hx : ?P |- ?Q => constr_eq P Q; exact Hx end.

Lemma sample_validated_ok :
  validate_public_request state5 sample_checkpoint sample_request sample_action = Ok sample_validated.
Proof. apply unwrap_ok. receipt_fact. Qed.

Lemma sample_material_ok : material_encode sample_material = Ok (ev_policy_material sample_evidence).
Proof. refine (unwrap_ok [] (material_encode sample_material) _). receipt_fact. Qed.

Lemma sample_approvals_ok :
  Forall (λ a, ApprovalDecisionV1_sized a = true ∧
    validate_approval_decision state5 sample_checkpoint sample_request sample_action a 2200 = Ok tt)
    (ev_approval_decisions sample_evidence).
Proof.
  assert (forallb (λ a, ApprovalDecisionV1_sized a &&
    is_ok (validate_approval_decision state5 sample_checkpoint sample_request sample_action a 2200))
    (ev_approval_decisions sample_evidence) = true) as Hf by receipt_fact.
  apply forallb_eq_true in Hf. eapply Forall_impl; [exact Hf|]. intros a [? ?%is_ok_unit]%andb_true_iff. split; assumption.
Qed.

Lemma sample_responses_ok :
  Forall (λ response, WitnessDecisionV1_sized (resp_decision response) = true ∧
    validate_witness_response state5 sample_checkpoint sample_request sample_action response = Ok tt) sample_responses.
Proof.
  assert (forallb (λ response, WitnessDecisionV1_sized (resp_decision response) &&
    is_ok (validate_witness_response state5 sample_checkpoint sample_request sample_action response)) sample_responses = true)
    as Hf by receipt_fact.
  apply forallb_eq_true in Hf. eapply Forall_impl; [exact Hf|]. intros a [? ?%is_ok_unit]%andb_true_iff. split; assumption.
Qed.

(** The samples are used through the facts, never unfolded. *)
Global Opaque sample_validated sample_receipt sample_responses sample_material.

(** ** The theorems, applied *)

Lemma receipt_evidence_witness :
  ∃ v wp, verify_witness_receipt sample_receipt None = Ok v ∧ vrc_outcome v = RO_Approved ∧
    length (vrc_counted_witness_ids v) = 2 ∧ policy_sound wp ∧
    ∀ id, id ∈ vrc_counted_witness_ids v → witnessed_by sample_receipt wp id.
Proof.
  assert (reported vrc_outcome = Some RO_Approved) as Ho by (apply (bool_decide_eq_true_1 _); receipt_fact).
  assert (reported (λ v, length (vrc_counted_witness_ids v)) = Some 2) as Hl by (apply (bool_decide_eq_true_1 _); receipt_fact).
  unfold reported in Ho, Hl. destruct (verify_witness_receipt sample_receipt None) as [v|] eqn:Hv; [|done].
  injection Ho as Ho. injection Hl as Hl.
  destruct (receipt_evidence sample_receipt None v Hv)
    as (m & policy & request & validated & _ & _ & _ & _ & _ & _ & Hs & _ & _ & _ & _ & Hw & _).
  exists v, (vrp_policy validated). split; [reflexivity|]. split; [exact Ho|]. split; [exact Hl|]. split; [exact Hs|]. intros id Hid. by apply Hw.
Defined.

Lemma sample_material_replays : material_replay sample_material = Ok state5.
Proof. apply material_replay_Ok. split; [reflexivity|exact sample_replay_with_policies]. Qed.

Lemma sample_collected : collected state5 sample_checkpoint sample_request sample_action sample_validated sample_evidence.
Proof.
  split.
  - exists sample_material. split; [exact sample_material_ok|exact sample_material_replays].
  - exact sample_validated_ok.
  - split; [engine_fact|]. apply (bool_decide_eq_true_1 _). engine_fact.
  - receipt_fact.
  - reflexivity.
  - split; [receipt_fact|reflexivity].
  - intros a Ha. pose proof sample_approvals_ok as Hf. rewrite -> Forall_forall in Hf.
    destruct (Hf a Ha) as [Hs Hv]. split; [exact Hs|]. exists 2200%N. exact Hv.
  - intros d (response & -> & Hd)%list_elem_of_fmap. pose proof sample_responses_ok as Hf. rewrite -> Forall_forall in Hf.
    destruct (Hf response Hd) as [Hs Hv]. split; [exact Hs|]. exists response. split; [reflexivity|exact Hv].
  - apply NoDup_singleton.
  - apply (bool_decide_eq_true_1 _). receipt_fact.
Qed.

Lemma sample_approves : evidence_approves (vrp_rule sample_validated) sample_evidence = true.
Proof. unfold evidence_approves. receipt_fact. Qed.

Lemma sample_issuable : issuable (vrp_rule sample_validated) sample_request sample_evidence.
Proof.
  split.
  - split; intros _; [exact sample_approves|reflexivity].
  - discriminate.
  - assert ((wr_issued_at_ms sample_request <=? 2400)%N = true) as Ht%N.leb_le by receipt_fact.
    etrans; [exact Ht|]. by apply saturating_later.
  - intros _. assert ((2400 <? wr_expires_at_ms sample_request)%N = true) as Ht%N.ltb_lt by receipt_fact. exact Ht.
Qed.

Lemma receipt_complete_witness :
  ∃ r v, assemble_witness_receipt state5 sample_request sample_checkpoint sample_evidence = Ok r ∧
    verify_witness_receipt r (Some sample_checkpoint) = Ok v ∧ vrc_outcome v = RO_Approved.
Proof.
  destruct (receipt_complete state5 sample_checkpoint sample_request sample_action sample_validated sample_evidence
    sample_collected) as [Hr _].
  destruct (Hr sample_issuable) as (r & v & Hra & Hv & Ho & _).
  rewrite -> sample_approves in Ho. exists r, v. split; [exact Hra|]. split; [exact Hv|exact Ho].
Defined.
