(* ===== verification/MutationSamples.v ===== *)
(** * A mutation plan, evaluated

    The vault with one item, and a privacy cover of that item: the item is
    encrypted again under the next epoch, for the same reader.  And a vault with a
    witnessed item, and a plan that changes what its policy serves without approval. *)

From S2P Require Import Prelude Json VaultTypes Canonical Preimage Rollover Validate WitnessPolicy PolicyState Identifiers Replay LocalAudit LocalCheckpoint LocalState LocalStateFiles ArtifactRelation Mutation MutationLemmas MutationTheorems Samples LocalSamples.
Local Open Scope jury_scope.

Definition covered_vault : VaultFileV1 := {|
  vf_header := vf_header sample_vault;
  vf_policy := cp_journal local_created;
  vf_items := [local_envelope];
  vf_suite_migration := None |}.

(** As many digits as there are revisions. *)
Definition counting_pretty (v : VaultFileV1) : option bytes :=
  Some (replicate (length (pj_revisions (vf_policy v))) Byte.x31).

Definition cover_revision : SignedItemRevisionV1 :=
  let r signature := {|
    ir_vault_id := vault;
    ir_item_id := item1;
    ir_item_revision := 2;
    ir_previous_item_revision_hash := unwrap [] (SignedItemRevisionV1_recomputed_hash local_revision);
    ir_key_epoch := 2;
    ir_policy_sequence := 2;
    ir_author_principal_id := pd_principal_id owner;
    ir_timestamp_ms := 1002;
    ir_revision_seal_id := fill_bytes 34 32;
    ir_nonce := fill_bytes 34 12;
    ir_ciphertext_length := 4112;
    ir_ciphertext_digest := sample_hash (fill_bytes 6 4112);
    ir_plaintext_schema := 1;
    ir_bucket_id := 1;
    ir_signature := signature |} in
  r (sample_sign (pd_verification_public_key owner) (SignedItemRevisionV1_signature_preimage (r []))).

Definition cover_envelope : ItemEnvelopeV1 := {|
  ie_item_id := item1;
  ie_descriptor := sample_metadata 33 2 2;
  ie_descriptor_ciphertext := fill_bytes 33 272;
  ie_prior_revisions := [local_revision];
  ie_current_revision := cover_revision;
  ie_body_ciphertext := fill_bytes 6 4112;
|}.

Definition cover_slot (b : N) (role : ContentRole) (seal : N) : DirectSlotV1 :=
  let s := sample_slot vault item1 b 2 2 role owner AR_Owner seal in {|
  ds_slot_schema := ds_slot_schema s;
  ds_slot_algorithm := ds_slot_algorithm s;
  ds_suite := ds_suite s;
  ds_kem := ds_kem s;
  ds_kdf := ds_kdf s;
  ds_aead := ds_aead s;
  ds_vault_id := ds_vault_id s;
  ds_item_id := ds_item_id s;
  ds_key_epoch := ds_key_epoch s;
  ds_content_role := role;
  ds_revision := 2;
  ds_revision_seal_id := ds_revision_seal_id s;
  ds_recipient_principal_id := ds_recipient_principal_id s;
  ds_policy_sequence := ds_policy_sequence s;
  ds_recipient_public_key_fingerprint := ds_recipient_public_key_fingerprint s;
  ds_access_role := ds_access_role s;
  ds_item_access_mode := ds_item_access_mode s;
  ds_encapsulation := ds_encapsulation s;
  ds_ciphertext := ds_ciphertext s |}.

Definition cover_operations1 : list PolicyOperationV1 :=
  [ItemReaderSetChange item1 1 2 [pd_principal_id owner] [pd_principal_id owner] (sample_metadata 33 2 2)
     (unwrap [] (SignedItemRevisionV1_recomputed_hash cover_revision));
   ItemSlotsReplace item1 2 [cover_slot 45 CR_Descriptor 33; cover_slot 46 CR_Body 34] None].

Definition cover_prepared : PreparedPolicyRevision :=
  unwrap {| prep_revision := {| pr_vault_id := []; pr_sequence := 0; pr_previous_revision_hash := [];
              pr_timestamp_ms := 0; pr_author_principal_id := []; pr_operations := [];
              pr_resulting_policy_state_hash := []; pr_signature := [] |};
            prep_state := cp_state local_created |}
    (prepare_with_signer (cp_state local_created) owner 1002 cover_operations1).

Definition no_plan : VaultMutationPlan := {|
  mp_precondition := plan_precondition [] (cp_state local_created);
  mp_target := covered_vault;
  mp_target_bytes := [];
  mp_target_digest := [];
  mp_target_policy := cp_state local_created;
  mp_witness_policies := [];
  mp_kind := MK_Policy;
  mp_timestamp_ms := 0;
  mp_touched_items := [];
  mp_warnings := {| mw_redistribution_required := false; mw_external_credential_rotation_required := false;
    mw_pending_witness_requests_invalidated := false; mw_item_quorum_claim_suppressed := false |};
  mp_acting_principal_id := [] |}.

Definition cover_plan : VaultMutationPlan :=
  unwrap no_plan (from_prepared counting_pretty covered_vault [] cover_prepared [cover_envelope] 1002
    DA_Absent MK_PrivacyCover).

Definition cover_candidate : CheckpointCandidate := unwrap no_candidate (checkpoint_candidate cover_plan).

Definition import_plan : option VaultMutationPlan :=
  unwrap None (prepare_transfer_import counting_pretty covered_vault (mp_target cover_plan) []
    (pd_principal_id owner) 1003).

(** ** Another automatic target

    A witnessed item whose policy serves one field without approval; then a plan that
    puts it under a policy that serves another field, and that lets the same approver
    alone release a backup. *)

Definition automatic_target (b : N) : AutomaticReadTarget :=
  {| art_item_id := item2; art_content_role := CR_Body; art_field_id := Some (fill_bytes b 32) |}.

Definition guarded_rule (operation : WitnessOperation) (approvers : list PrincipalId)
    (targets : list AutomaticReadTarget) : OperationRule := {|
  rule_operation := operation;
  rule_eligible_approver_ids := approvers;
  rule_approval_threshold := len approvers;
  rule_allowed_request_lifetime_ms := 60000;
  rule_max_timeout_ms := 1000;
  rule_max_output_bytes := 4096;
  rule_max_target_count := 1;
  rule_required_platform_assurance := PA_NormalizedPathOnly;
  rule_automatic_read_targets := targets |}.

Definition guarded_rules (b : N) : list OperationRule :=
  [guarded_rule WO_ReadStdout [] [automatic_target b];
   guarded_rule WO_WritePrivateFile [pd_principal_id approver] []].

Definition guarded_approver : ApproverPolicyDescriptor :=
  let key := pd_verification_public_key approver in
  let d signature := {|
    ad_schema := 1;
    ad_approver_id := pd_principal_id approver;
    ad_signing_public_key := key;
    ad_signing_key_fingerprint := signing_key_fingerprint 2 (pd_principal_id approver) 1 key;
    ad_signing_key_epoch := 1;
    ad_status := DS_Active;
    ad_approval_mode := APM_Human;
    ad_allowed_operations := [WO_WritePrivateFile; WO_Backup];
    ad_created_at_ms := 1;
    ad_self_signature := signature |} in
  d (sample_sign key (unwrap [] (ApproverPolicyDescriptor_self_signature_preimage (d [])))).

Definition guarded_policy (revision : N) (predecessor : Digest32) (s : PolicyState)
    (rules : list OperationRule) : WitnessPolicy := {|
  wp_schema := 1;
  wp_witness_policy_id := fill_bytes 62 32;
  wp_revision := revision;
  wp_predecessor_policy_digest := predecessor;
  wp_vault_id := vault;
  wp_genesis_fingerprint := ps_genesis_fingerprint s;
  wp_vault_policy_sequence := ps_sequence s + 1;
  wp_vault_policy_hash := ps_terminal_revision_hash s;
  wp_construction := 1;
  wp_suite := 1;
  wp_approver_descriptors := [guarded_approver];
  wp_witness_descriptors := [sample_witness witness1 1; sample_witness witness2 2];
  wp_witness_threshold := 2;
  wp_operation_rules := rules;
  wp_review_label_set_digest := ZERO_DIGEST;
  wp_direct_fallback := false |}.

Definition guarded_capsule (p : WitnessPolicy) (epoch : N) (role : ContentRole) (b : N)
    (w : PrincipalDescriptorV1) (index : N) : WitnessShareCapsuleV1 :=
  let c digest := {|
    wc_capsule_schema := 1;
    wc_protocol := 1;
    wc_construction := 1;
    wc_vault_id := vault;
    wc_genesis_fingerprint := wp_genesis_fingerprint p;
    wc_item_id := item2;
    wc_key_epoch := epoch;
    wc_item_access_mode := AM_WitnessedOnly;
    wc_slot_id := fill_bytes b 32;
    wc_content_role := role;
    wc_revision := epoch;
    wc_revision_seal_id := fill_bytes b 32;
    wc_vault_policy_sequence := wp_vault_policy_sequence p;
    wc_witness_policy_id := wp_witness_policy_id p;
    wc_witness_policy_revision := wp_revision p;
    wc_witness_policy_digest := unwrap [] (WitnessPolicy_digest p);
    wc_threshold := 2;
    wc_member_count := 2;
    wc_witness_id := pd_principal_id w;
    wc_contribution_key_fingerprint := recipient_public_key_fingerprint (pd_recipient_public_key w);
    wc_share_index := index;
    wc_context_digest := digest;
    wc_share_commitment := fill_bytes b 32;
    wc_encapsulation := fill_bytes (b + index) 1120;
    wc_ciphertext := fill_bytes b 49 |} in
  c (recomputed_context_digest_for_suite (c []) Suite1).

Definition guarded_slot (p : WitnessPolicy) (epoch : N) (role : ContentRole) (b : N) : WitnessedSlotV1 :=
  let s digest := {|
    ws_slot_schema := 1;
    ws_slot_algorithm := 2;
    ws_suite := 1;
    ws_protocol := 1;
    ws_construction := 1;
    ws_vault_id := vault;
    ws_genesis_fingerprint := wp_genesis_fingerprint p;
    ws_item_id := item2;
    ws_key_epoch := epoch;
    ws_item_access_mode := AM_WitnessedOnly;
    ws_slot_id := fill_bytes b 32;
    ws_content_role := role;
    ws_revision := epoch;
    ws_revision_seal_id := fill_bytes b 32;
    ws_vault_policy_sequence := wp_vault_policy_sequence p;
    ws_witness_policy_id := wp_witness_policy_id p;
    ws_witness_policy_revision := wp_revision p;
    ws_witness_policy_digest := unwrap [] (WitnessPolicy_digest p);
    ws_threshold := 2;
    ws_member_count := 2;
    ws_capsules := [guarded_capsule p epoch role b witness1 1; guarded_capsule p epoch role b witness2 2];
    ws_capsule_set_digest := digest |} in
  s (unwrap [] (recomputed_capsule_set_digest (s []))).

(** The slots for the epoch's descriptor and body under a policy. *)
Definition guarded_state (p : WitnessPolicy) (epoch : N) : WitnessedStateV1 :=
  let w digest := {|
    wst_slots := [guarded_slot p epoch CR_Descriptor (70 + epoch); guarded_slot p epoch CR_Body (80 + epoch)];
    wst_digest := digest |} in
  w (unwrap [] (WitnessedStateV1_recomputed_digest (w []))).

Definition guarded_revision (epoch sequence : N) (previous : Digest32) : SignedItemRevisionV1 :=
  let r signature := {|
    ir_vault_id := vault;
    ir_item_id := item2;
    ir_item_revision := epoch;
    ir_previous_item_revision_hash := previous;
    ir_key_epoch := epoch;
    ir_policy_sequence := sequence;
    ir_author_principal_id := pd_principal_id owner;
    ir_timestamp_ms := 1000 + sequence;
    ir_revision_seal_id := fill_bytes (80 + epoch) 32;
    ir_nonce := fill_bytes (80 + epoch) 12;
    ir_ciphertext_length := 4112;
    ir_ciphertext_digest := sample_hash (fill_bytes epoch 4112);
    ir_plaintext_schema := 1;
    ir_bucket_id := 1;
    ir_signature := signature |} in
  r (sample_sign (pd_verification_public_key owner) (SignedItemRevisionV1_signature_preimage (r []))).

Definition guarded_envelope (epoch : N) (prior : list SignedItemRevisionV1) (r : SignedItemRevisionV1)
    : ItemEnvelopeV1 := {|
  ie_item_id := item2;
  ie_descriptor := sample_metadata (70 + epoch) epoch epoch;
  ie_descriptor_ciphertext := fill_bytes (70 + epoch) 272;
  ie_prior_revisions := prior;
  ie_current_revision := r;
  ie_body_ciphertext := fill_bytes epoch 4112;
|}.

Definition revision_hash (r : SignedItemRevisionV1) : Digest32 := unwrap [] (SignedItemRevisionV1_recomputed_hash r).

(** A journal, replayed with the policies. *)
Definition catalogued (policies : list WitnessPolicy) (cp : CreatedPolicy) : CreatedPolicy := {|
  cp_journal := cp_journal cp;
  cp_state := unwrap (cp_state cp) (replay_policy_with_witness_policies (cp_journal cp) policies) |}.

Definition guarded1 : CreatedPolicy := extend sample_created 1001
  [PrincipalAdd witness1 (str "w1") ZERO_DIGEST; PrincipalAdd witness2 (str "w2") ZERO_DIGEST;
   PrincipalAdd approver (str "a") ZERO_DIGEST].

Definition guarded_policy1 : WitnessPolicy := guarded_policy 1 ZERO_DIGEST (cp_state guarded1) (guarded_rules 91).
Definition guarded_revision1 : SignedItemRevisionV1 := guarded_revision 1 2 ZERO_DIGEST.
Definition guarded_envelope1 : ItemEnvelopeV1 := guarded_envelope 1 [] guarded_revision1.

Definition guarded2 : CreatedPolicy := extend (catalogued [guarded_policy1] guarded1) 1002
  [ItemCreate item2 IK_Canonical 1 (sample_metadata 71 1 1) (revision_hash guarded_revision1) []
     (Some (guarded_state guarded_policy1 1))].

Definition guarded_policy2 : WitnessPolicy :=
  guarded_policy 2 (unwrap [] (WitnessPolicy_digest guarded_policy1)) (cp_state guarded2)
    (guarded_rules 92 ++ [guarded_rule WO_Backup [pd_principal_id approver] []]).
Definition guarded_revision2 : SignedItemRevisionV1 := guarded_revision 2 3 (revision_hash guarded_revision1).
Definition guarded_envelope2 : ItemEnvelopeV1 := guarded_envelope 2 [guarded_revision1] guarded_revision2.
Definition guarded_policies : list WitnessPolicy := [guarded_policy1; guarded_policy2].

Definition guarded_vault : VaultFileV1 := {|
  vf_header := vf_header sample_vault;
  vf_policy := cp_journal guarded2;
  vf_items := [guarded_envelope1];
  vf_suite_migration := None |}.

Definition guarded_current : PolicyState :=
  unwrap (cp_state guarded2) (validate_complete guarded_vault guarded_policies true).

Definition guarded_operations : list PolicyOperationV1 :=
  [ItemReaderSetChange item2 1 2 [pd_principal_id owner] [pd_principal_id owner] (sample_metadata 72 2 2)
     (revision_hash guarded_revision2);
   ItemSlotsReplace item2 2 [] (Some (guarded_state guarded_policy2 2))].

Definition guarded_prepared : PreparedPolicyRevision :=
  unwrap {| prep_revision := prep_revision cover_prepared; prep_state := guarded_current |}
    (prepare_with_signer guarded_current owner 1003 guarded_operations).

Definition guarded_plan : VaultMutationPlan :=
  unwrap no_plan (from_prepared counting_pretty guarded_vault guarded_policies guarded_prepared
    [guarded_envelope2] 1003 DA_Acknowledged MK_Policy).

(** The policy that guards the item. *)
Definition guarding (s : PolicyState) : option WitnessPolicy :=
  i ← ps_items s !! item2; d ← witness_digest i; ps_witness_policies s !! d.

Definition guarded_directly (s : PolicyState) : bool :=
  match ps_items s !! item2 with Some i => it_direct_slots i !=? [] | None => true end.

Definition is_some_plan (p : option VaultMutationPlan) : bool := if p is Some _ then true else false.

(** Everything the witnesses need, in one evaluation. *)
Lemma mutation_facts :
  is_ok (from_prepared counting_pretty covered_vault [] cover_prepared [cover_envelope] 1002
    DA_Absent MK_PrivacyCover) &&
  item_history_is_prefix local_envelope cover_envelope &&
  is_ok (prepare_transfer_import counting_pretty covered_vault (mp_target cover_plan) []
    (pd_principal_id owner) 1003) && is_some_plan import_plan &&
  is_ok (checkpoint_candidate cover_plan) &&
  is_ok (validate_candidate_scope cover_candidate (pl_scope local_owner)) &&
  same_text (ck_accepted_public_revision_hash (vs_checkpoint local3))
    (rp_policy_revision_hash (mp_precondition cover_plan)) &&
  (ck_updated_at_ms (vs_checkpoint local3) <=? 3000)%N &&
  is_ok (WitnessPolicy_validate guarded_policy1) && is_ok (WitnessPolicy_validate guarded_policy2) &&
  is_ok (validate_complete guarded_vault guarded_policies true) &&
  is_ok (from_prepared counting_pretty guarded_vault guarded_policies guarded_prepared [guarded_envelope2] 1003
    DA_Acknowledged MK_Policy) &&
  (mp_touched_items guarded_plan ==? [item2]) &&
  (guarding guarded_current ==? Some guarded_policy1) &&
  (guarding (mp_target_policy guarded_plan) ==? Some guarded_policy2) &&
  negb (guarded_directly (mp_target_policy guarded_plan)) &&
  item_history_is_prefix guarded_envelope1 guarded_envelope2 = true.
Proof. vm_cast_no_check (eq_refl true). Qed.

(** Proves one conjunct of [mutation_facts]. *)
Ltac mutation_fact :=
  pose proof mutation_facts as F;
  repeat match type of F with
  | (?a && ?b) = true => apply andb_true_iff in F as [F ?]
  end;
  match goal with Hx : ?P |- ?Q => constr_eq P Q; exact Hx end.

Lemma cover_plan_ok :
  from_prepared counting_pretty covered_vault [] cover_prepared [cover_envelope] 1002 DA_Absent MK_PrivacyCover
  = Ok cover_plan.
Proof. refine (unwrap_ok _ _ _). mutation_fact. Qed.

Lemma import_plan_ok :
  prepare_transfer_import counting_pretty covered_vault (mp_target cover_plan) [] (pd_principal_id owner) 1003
  = Ok import_plan.
Proof. refine (unwrap_ok _ _ _). mutation_fact. Qed.

Lemma cover_candidate_ok : checkpoint_candidate cover_plan = Ok cover_candidate.
Proof. refine (unwrap_ok _ _ _). mutation_fact. Qed.

Lemma import_plan_some : ∃ plan, import_plan = Some plan.
Proof. assert (is_some_plan import_plan = true) as Hx by mutation_fact. destruct import_plan; [eauto|done]. Qed.

Lemma covered_items : vf_items covered_vault = [local_envelope].
Proof. reflexivity. Qed.

Lemma guarded_items : vf_items guarded_vault = [guarded_envelope1].
Proof. reflexivity. Qed.

Lemma guarded_current_ok : validate_complete guarded_vault guarded_policies true = Ok guarded_current.
Proof. refine (unwrap_ok _ _ _). mutation_fact. Qed.

Lemma guarded_plan_ok :
  from_prepared counting_pretty guarded_vault guarded_policies guarded_prepared [guarded_envelope2] 1003
    DA_Acknowledged MK_Policy = Ok guarded_plan.
Proof. refine (unwrap_ok _ _ _). mutation_fact. Qed.

Lemma guarded_touched : mp_touched_items guarded_plan = [item2].
Proof. eapply bool_decide_eq_true_1. mutation_fact. Qed.

Lemma guarding_before : guarding guarded_current = Some guarded_policy1.
Proof. eapply bool_decide_eq_true_1. mutation_fact. Qed.

Lemma guarding_after : guarding (mp_target_policy guarded_plan) = Some guarded_policy2.
Proof. eapply bool_decide_eq_true_1. mutation_fact. Qed.

Lemma guarded_rules1 : wp_operation_rules guarded_policy1 = guarded_rules 91.
Proof. reflexivity. Qed.

Lemma guarded_rules2 : wp_operation_rules guarded_policy2 =
  guarded_rules 92 ++ [guarded_rule WO_Backup [pd_principal_id approver] []].
Proof. reflexivity. Qed.

Lemma guarded_policies_unnoticed : unnoticed_change guarded_policy1 guarded_policy2.
Proof.
  split; [reflexivity| |].
  - rewrite -> guarded_rules2. cbn. apply (bool_decide_eq_true_1 _). reflexivity.
  - intros r. rewrite -> guarded_rules1, guarded_rules2. intros [->|[->| []%elem_of_nil]%elem_of_cons]%elem_of_cons.
    + exists [automatic_target 92]. apply list_elem_of_here.
    + exists []. apply list_elem_of_further, list_elem_of_here.
Qed.

Lemma guarded_item_unnoticed : guarded_unnoticed guarded_current (mp_target_policy guarded_plan) item2.
Proof.
  intros next Hn. split.
  - assert (negb (guarded_directly (mp_target_policy guarded_plan)) = true) as Hd by mutation_fact.
    unfold guarded_directly in Hd. rewrite -> Hn in Hd. by to_prop.
  - intros i d d' p q Hi Hd Hd' _ Hp Hq. pose proof guarding_before as Hb. pose proof guarding_after as Ha.
    unfold guarding in Hb, Ha. rewrite -> Hi in Hb. rewrite -> Hn in Ha. cbn in Hb, Ha. rewrite -> Hd in Hb. rewrite -> Hd' in Ha.
    cbn in Hb, Ha. rewrite -> Hp in Hb. rewrite -> Hq in Ha. injection Hb as ->. injection Ha as ->.
    apply guarded_policies_unnoticed.
Qed.

(** The samples are used through the facts, never unfolded. *)
Global Opaque cover_plan cover_prepared cover_candidate import_plan covered_vault cover_envelope local_envelope.
Global Opaque guarded_vault guarded_policy1 guarded_policy2 guarded_current guarded_prepared guarded_plan guarded_envelope1 guarded_envelope2.
