(* ===== verification/MutationWitnesses.v ===== *)
(** * The properties of mutation plans, applied

    Each property with hypotheses, on the data of [MutationSamples]. *)

From S2P Require Import Prelude Json VaultTypes Canonical Preimage Binding Rollover Validate WitnessPolicy PolicyState Identifiers Replay Effects LocalAudit LocalAuditLog LocalCheckpoint LocalReceipts LocalState LocalStateFiles LocalStateTheorems ArtifactRelation Mutation MutationLemmas MutationTheorems MutationCheckpoint Samples LocalSamples MutationSamples.
Local Open Scope jury_scope.

Lemma mutation_plan_sound_witness :
  ∃ s, complete_artifact covered_vault [] s ∧
    complete_artifact (mp_target cover_plan) [] (mp_target_policy cover_plan) ∧
    is_direct_descendant_of (mp_target_policy cover_plan) s = true.
Proof.
  destruct (mutation_plan_sound counting_pretty covered_vault [] cover_prepared [cover_envelope] 1002
    DA_Absent MK_PrivacyCover cover_plan cover_plan_ok) as (s & source & Hc & Ht & _ & _ & Hd & _).
  exists s. exact (conj Hc (conj Ht Hd)).
Defined.

Lemma unacknowledged_plan_keeps_compared_authority_witness :
  ∃ s, validate_complete covered_vault [] true = Ok s ∧
    ∀ id, compared_authority_kept (replacements (pr_operations (prep_revision cover_prepared))) s
      (mp_target_policy cover_plan) id.
Proof.
  exact (unacknowledged_plan_keeps_compared_authority counting_pretty covered_vault [] cover_prepared [cover_envelope] 1002
    MK_PrivacyCover cover_plan cover_plan_ok).
Defined.

Lemma published_plan_imports_witness :
  preflight_transfer_import covered_vault (mp_target cover_plan) [] = Ok IncomingStrictDescendant.
Proof.
  apply (published_plan_imports counting_pretty covered_vault [] cover_prepared [cover_envelope] 1002
    MK_PrivacyCover cover_plan cover_plan_ok).
  intros e e'. rewrite -> covered_items. intros ->%list_elem_of_singleton ->%list_elem_of_singleton _. mutation_fact.
Defined.

Lemma transfer_import_sound_witness :
  ∃ plan s, import_plan = Some plan ∧ mp_target plan = mp_target cover_plan ∧
    complete_artifact covered_vault [] s ∧ complete_artifact (mp_target cover_plan) [] (mp_target_policy plan).
Proof.
  pose proof (transfer_import_sound counting_pretty covered_vault (mp_target cover_plan) [] (pd_principal_id owner)
    1003 import_plan import_plan_ok) as Ht.
  destruct import_plan_some as [plan Hp]. rewrite -> Hp in Ht.
  destruct Ht as (s & more & Hm & Hc & Hc' & _).
  exists plan, s. exact (conj Hp (conj Hm (conj Hc Hc'))).
Defined.

Lemma privacy_cover_neutral_witness :
  ∃ s, validate_complete covered_vault [] true = Ok s ∧
    (∀ id p, effective_role (mp_target_policy cover_plan) id p = effective_role s id p) ∧
    mp_touched_items cover_plan ≠ [].
Proof.
  destruct (privacy_cover_neutral counting_pretty covered_vault [] cover_prepared [cover_envelope] 1002
    DA_Absent cover_plan cover_plan_ok) as (s & Hs & _ & _ & _ & Hr & Hne & _).
  exists s. exact (conj Hs (conj Hr Hne)).
Defined.

Lemma local3_ok' : local_ok local_owner local3.
Proof.
  by destruct (local_trace_reached local_owner _ (local3, journal1) sample_trace3 local_scope_wt
    ltac:(set_solver)) as [Hok _].
Qed.

Lemma plan_advances_checkpoint_witness :
  ∃ rel st', accept_candidate local_owner cover_candidate 3000 local3 = (Ok rel, st') ∧
    ck_accepted_public_revision_hash (vs_checkpoint st') =
      ps_terminal_revision_hash (mp_target_policy cover_plan).
Proof.
  destruct (plan_advances_checkpoint counting_pretty covered_vault [] cover_prepared [cover_envelope] 1002
    DA_Absent MK_PrivacyCover cover_plan local_owner local3 3000 cover_plan_ok local3_ok') as (c & Hc & Ha).
  - apply same_text_ok. mutation_fact.
  - apply N.leb_le. mutation_fact.
  - intros m. by eexists.
  - rewrite -> cover_candidate_ok in Hc. apply Ok_inj in Hc as <-.
    destruct Ha as (rel & st' & Ha & _ & _ & Ht); [apply is_ok_unit; mutation_fact|].
    exists rel, st'. exact (conj Ha Ht).
Defined.

Lemma automatic_targets_unchecked_witness :
  from_prepared counting_pretty guarded_vault guarded_policies guarded_prepared [guarded_envelope2] 1003
    DA_Absent MK_Policy = Ok guarded_plan ∧
  preflight_transfer_import guarded_vault (mp_target guarded_plan) guarded_policies = Ok IncomingStrictDescendant ∧
  guarding guarded_current = Some guarded_policy1 ∧
  guarding (mp_target_policy guarded_plan) = Some guarded_policy2 ∧
  WitnessPolicy_validate guarded_policy1 = Ok tt ∧ WitnessPolicy_validate guarded_policy2 = Ok tt ∧
  automatic_target 92 ∈ (wp_operation_rules guarded_policy2 ≫= rule_automatic_read_targets) ∧
  automatic_target 92 ∉ (wp_operation_rules guarded_policy1 ≫= rule_automatic_read_targets).
Proof.
  destruct (automatic_targets_unchecked counting_pretty guarded_vault guarded_policies guarded_prepared
    [guarded_envelope2] 1003 MK_Policy guarded_plan guarded_current guarded_plan_ok guarded_current_ok) as [Hp Hi].
  - intros id. rewrite -> guarded_touched. intros ->%list_elem_of_singleton. exact guarded_item_unnoticed.
  - split; [exact Hp|]. split.
    + apply Hi. intros e e'. rewrite -> guarded_items. intros ->%list_elem_of_singleton ->%list_elem_of_singleton _.
      mutation_fact.
    + split; [exact guarding_before|]. split; [exact guarding_after|].
      split; [apply is_ok_unit; mutation_fact|]. split; [apply is_ok_unit; mutation_fact|].
      rewrite -> guarded_rules1, guarded_rules2. split.
      * by apply list_elem_of_here.
      * intros Hin. cbn in Hin. apply list_elem_of_singleton in Hin. discriminate Hin.
Defined.
