(* ===== verification/MutationCommitWitnesses.v ===== *)
(** * A commit, cut off and taken up again

    The owner of the sample vault commits the plan of [MutationSamples] on the
    directories of [DirectorySamples], is cut off, and tries again. The theorems
    about commits are applied to it: stopped between the vault and the
    checkpoint, run to its end, and tried again over the lock that was left. *)

From S2P Require Import Prelude VaultTypes Canonical Preimage Json Effects Rollover Validate PolicyState Identifiers ProtectedMemory Directory PrivateFiles PrivateFilesTheorems Repository Replay LocalAudit LocalAuditLog LocalCheckpoint LocalReceipts LocalState LocalStateFiles Mutation MutationTheorems MutationCommit CommitFiles MutationCommitTheorems Samples DirectorySamples LocalSamples MutationSamples.
Local Open Scope jury_scope.

(** ** The owner's files *)

Definition commit_state0 : VerifiedLocalState :=
  unwrap no_local_state (local_initialize local_owner candidate1 1001).

Definition intent_event : AuditEvent :=
  let e := draft_event (vs_audit commit_state0) (audit_intent cover_plan) (pl_scope local_owner) 2 in
  with_mac e (unwrap [] (event_mac e (pl_audit_key local_owner))).

Definition commit_events : list AuditEvent := vs_audit commit_state0 ++ [intent_event].

Global Instance commit_event_json : Json AuditEvent := line_json commit_events.
Global Instance commit_event_line : JsonLine AuditEvent := line_json_line commit_events.

Definition commit_state1 : VerifiedLocalState := (append_event local_owner (audit_intent cover_plan) commit_state0).2.
Definition commit_state2 : VerifiedLocalState := (accept_candidate local_owner cover_candidate 1002 commit_state1).2.

Definition commit_checkpoints : list LocalCheckpoint :=
  [vs_checkpoint commit_state0; vs_checkpoint commit_state1; vs_checkpoint commit_state2].

Global Instance commit_checkpoint_json : Json LocalCheckpoint := line_json commit_checkpoints.
Global Instance commit_checkpoint_pretty : JsonPretty LocalCheckpoint := line_json_pretty commit_checkpoints.
Global Instance commit_receipts_json : Json LocalReceipts := line_json [vs_receipts commit_state0].
Global Instance commit_receipts_pretty : JsonPretty LocalReceipts := line_json_pretty [vs_receipts commit_state0].

(** The reader of [counting_pretty]. *)
Definition counting_vault (bs : bytes) : option VaultFileV1 :=
  match length (filter (λ b, b ≠ newline) bs) with
  | 1 => Some covered_vault
  | 2 => Some (mp_target cover_plan)
  | _ => None
  end.

Definition covered_bytes : bytes := unwrap [] (to_json_bytes counting_pretty covered_vault).

Definition commit_files : LocalStateFiles :=
  unwrap {| lf_audit := []; lf_checkpoint := []; lf_receipts := [] |} (local_serialize local_owner commit_state0).

Definition catalog_update : MutationCatalogUpdate :=
  {| cu_prior := None; cu_rollback := str "[]"; cu_target := str "[1]" |}.

Definition memory_dir (i : N) (path : bytes) : HardenedDir :=
  {| hd_dir := i : @Dir _ memory_directories; hd_absolute := path;
     hd_identity := {| fi_device := 1; fi_inode := i |}; hd_lineage := [] |}.

(** A vault outside Git: its home is directory 1, the state directory 2. *)
Definition commit_target : MutationCommitTarget := {|
  mt_shared := Detached (memory_dir 1 (str "/home"));
  mt_state := memory_dir 2 (str "/state");
  mt_local := local_owner;
  mt_protection := Strict;
|}.

Definition commit_disk : MemoryWorld → Disk :=
  disk (mt_shared commit_target) (mt_state commit_target) (sc_principal_id (pl_scope local_owner)).

Definition start_names : list ((N * bytes) * N) :=
  [((0%N, str "home"), 1%N); ((0%N, str "state"), 2%N);
   ((2%N, encode_hex (sc_principal_id (pl_scope local_owner))), 3%N);
   ((1%N, str "vault.json"), 10%N); ((3%N, str "audit.jsonl"), 11%N);
   ((3%N, str "checkpoint.json"), 12%N); ((3%N, str "receipts.json"), 13%N)].

Definition start_bytes : list (N * bytes) :=
  [(10%N, covered_bytes); (11%N, lf_audit commit_files); (12%N, lf_checkpoint commit_files);
   (13%N, lf_receipts commit_files)].

(** The process is stopped after so many calls. *)
Definition start_world (calls : nat) : MemoryWorld :=
  {| mw_names := list_to_map start_names; mw_bytes := list_to_map start_bytes; mw_dirs := [0; 1; 2; 3]%N;
     mw_calls := calls |}.

Definition run_commit (w : MemoryWorld) : result MutationCommitErrorKind MutationCommitOutcome * MemoryWorld :=
  commit sample_json_probe counting_vault counting_pretty commit_target cover_plan (Some catalog_update) w.

(** What the user has to do after a crash, before the next try. *)
Definition without_lock (w : MemoryWorld) : MemoryWorld :=
  with_names (delete (2%N, str "vault-edit.lock") (mw_names w)) w.

Definition outcome_tag (r : result MutationCommitErrorKind MutationCommitOutcome) : nat :=
  match r with
  | Ok (Committed _ _) => 0
  | Ok (Reconciled _) => 1
  | Ok (CommittedLocalRecoveryRequired _ _ _) => 2
  | Err CM_Busy => 3
  | Err CM_StaleArtifact => 4
  | Err CM_InvalidArtifact => 5
  | Err CM_InvalidLocalState => 6
  | Err CM_AuditIntentNotDurable => 7
  | Err CM_SharedPublicationFailed => 8
  | Err CM_ProtectionUnavailable => 9
  | Err CM_MissingRepositoryPrecondition => 10
  end.

Definition start_state : VerifiedLocalState := unwrap no_local_state (verify_disk local_owner (commit_disk (start_world 0))).

Definition lock_present (w : MemoryWorld) : bool :=
  if memory_entry w 2 (str "vault-edit.lock") is Some _ then true else false.

Definition same_vault (w w' : MemoryWorld) : bool := commit_disk w SharedVault ==? commit_disk w' SharedVault.

(** Calls after which a commit is cut off: before anything is published, after the
    log, after the catalogue, after the vault, after the checkpoint. *)
Definition cut_points : list nat := [40; 113; 118; 122; 127].

(** Everything the witnesses need, in one evaluation. A run takes 128 calls. *)
Lemma commit_facts :
  (length commit_events ==? 2) &&
  is_ok (verify_disk local_owner (commit_disk (start_world 0))) &&
  (outcome_tag (run_commit (start_world 122)).1 ==? 2) &&
  (outcome_tag (run_commit (start_world 128)).1 ==? 0) &&
  negb (same_vault (run_commit (start_world 128)).2 (start_world 128)) &&
  lock_present (run_commit (start_world 122)).2 &&
  (outcome_tag (run_commit (with_calls 200 (run_commit (start_world 122)).2)).1 ==? 3) &&
  forallb (λ calls, Nat.leb
    (outcome_tag (run_commit (with_calls 200 (without_lock (run_commit (start_world calls)).2))).1) 1) cut_points = true.
Proof. vm_cast_no_check (eq_refl true). Qed.

(** Proves one conjunct of [commit_facts]. *)
Ltac commit_fact :=
  pose proof commit_facts as F;
  repeat match type of F with
  | (?a && ?b) = true => apply andb_true_iff in F as [F ?]
  end;
  match goal with Hx : ?P |- ?Q => constr_eq P Q; exact Hx end.

Lemma commit_disk_calls calls w : commit_disk (with_calls calls w) = commit_disk w.
Proof. reflexivity. Qed.

Lemma start_world_calls calls : start_world calls = with_calls calls (start_world 0).
Proof. reflexivity. Qed.

Lemma start_state_ok calls : verify_disk local_owner (commit_disk (start_world calls)) = Ok start_state.
Proof. rewrite -> start_world_calls, commit_disk_calls. refine (unwrap_ok _ _ _). commit_fact. Qed.

(** Wherever the run is cut off, a second run ends the commit, once the lock that
    was left is removed. *)
Lemma cut_off_completes calls :
  calls ∈ cut_points →
  outcome_tag (run_commit (with_calls 200 (without_lock (run_commit (start_world calls)).2))).1 ≤ 1.
Proof.
  intros Hc. assert (forallb (λ calls, Nat.leb (outcome_tag (run_commit (with_calls 200
    (without_lock (run_commit (start_world calls)).2))).1) 1) cut_points = true) as Hall by commit_fact.
  apply forallb_eq_true in Hall. rw Forall_forall in Hall. apply Nat.leb_le. by apply (Hall calls).
Qed.

Lemma run_commit_eq w :
  commit sample_json_probe counting_vault counting_pretty commit_target cover_plan (Some catalog_update) w = run_commit w.
Proof. reflexivity. Qed.

Lemma commit_disk_eq :
  disk (mt_shared commit_target) (mt_state commit_target) (sc_principal_id (pl_scope local_owner)) = commit_disk.
Proof. reflexivity. Qed.

Lemma lock_entry calls w :
  lock_present w = true →
  ∃ i, entry (with_calls calls w) (dir_ino (hd_dir (mt_state commit_target))) (str "vault-edit.lock") = Some i.
Proof.
  unfold lock_present. destruct (memory_entry w 2 (str "vault-edit.lock")) as [i|] eqn:Hi; [|done]. intros _. by exists i.
Qed.

(** The samples are used through the facts, never unfolded. *)
Global Opaque commit_state0 commit_state1 commit_state2 commit_events commit_checkpoints start_world start_state
  commit_disk run_commit.

Lemma commit_events_length : length commit_events = 2.
Proof. refine (bool_decide_eq_true_1 _ _). commit_fact. Qed.

Global Instance commit_event_size : EventJson.
Proof.
  intros e text (i & Hi & ->)%line_text _ _ _. rw commit_events_length in Hi.
  unfold MAX_AUDIT_EVENT_BYTES, len. rw length_replicate. lia.
Qed.

(** ** The theorems, applied *)

Lemma commit_crash_safe_witness :
  let w := start_world 122 in
  let '(r, w') := commit sample_json_probe counting_vault counting_pretty commit_target cover_plan
    (Some catalog_update) w in
  recoverable commit_target cover_plan (commit_disk w) start_state (commit_disk w') ∧ outcome_tag r = 2.
Proof.
  cbn zeta. rewrite -> run_commit_eq.
  assert (outcome_tag (run_commit (start_world 122)).1 = 2) as Ht by (refine (bool_decide_eq_true_1 _ _); commit_fact).
  destruct (run_commit (start_world 122)) as [r w'] eqn:Hrun. rewrite <- run_commit_eq in Hrun.
  split; [|exact Ht].
  pose proof (prepared_plan_digest counting_pretty _ _ _ _ _ _ _ _ cover_plan_ok) as Hd.
  pose proof (start_state_ok 122) as Hs. rewrite <- commit_disk_eq in Hs |- *.
  apply (commit_crash_safe sample_json_probe counting_vault counting_pretty commit_target cover_plan
    (Some catalog_update) (start_world 122) start_state r w' Hd Hs Hrun).
Defined.

Lemma commit_audit_bounded_witness :
  let '(r, w') := commit sample_json_probe counting_vault counting_pretty commit_target cover_plan
    (Some catalog_update) (start_world 128) in
  outcome_tag r = 0 ∧
  ∃ a, commit_disk w' (PrincipalFile PSF_Audit) = Some a ∧ (len a ≤ MAX_LARGE_PROTECTED_BYTES)%N.
Proof.
  rewrite -> run_commit_eq.
  assert (outcome_tag (run_commit (start_world 128)).1 = 0) as Ht by (refine (bool_decide_eq_true_1 _ _); commit_fact).
  assert (negb (same_vault (run_commit (start_world 128)).2 (start_world 128)) = true) as Hv by commit_fact.
  apply negb_true_iff, bool_decide_eq_false in Hv.
  destruct (run_commit (start_world 128)) as [r w'] eqn:Hrun. rewrite <- run_commit_eq in Hrun.
  split; [exact Ht|].
  pose proof (prepared_plan_digest counting_pretty _ _ _ _ _ _ _ _ cover_plan_ok) as Hd.
  pose proof (start_state_ok 128) as Hs. rewrite <- commit_disk_eq in Hs, Hv |- *.
  apply (commit_audit_bounded sample_json_probe counting_vault counting_pretty commit_target cover_plan
    (Some catalog_update) (start_world 128) start_state r w' Hd Hs Hrun Hv).
Defined.

Lemma lock_refuses_commit_witness :
  let stopped := with_calls 200 (run_commit (start_world 122)).2 in
  let '(r, w') := commit sample_json_probe counting_vault counting_pretty commit_target cover_plan
    (Some catalog_update) stopped in
  outcome_tag r = 3 ∧ same_files stopped w'.
Proof.
  cbn zeta. rewrite -> run_commit_eq.
  assert (outcome_tag (run_commit (with_calls 200 (run_commit (start_world 122)).2)).1 = 3) as Ht
    by (refine (bool_decide_eq_true_1 _ _); commit_fact).
  assert (lock_present (run_commit (start_world 122)).2 = true) as Hl by commit_fact.
  destruct (lock_entry 200 _ Hl) as [i Hi]. set (w := with_calls 200 (run_commit (start_world 122)).2) in *.
  destruct (run_commit w) as [r w'] eqn:Hrun. rewrite <- run_commit_eq in Hrun. split; [exact Ht|].
  apply (lock_refuses_commit sample_json_probe counting_vault counting_pretty commit_target cover_plan
    (Some catalog_update) w i r w' Hi Hrun).
Defined.
